(* ===== verification/_CoqProject ===== *)
-Q . S2P
Prelude.v
GoBytes.v
GoStrings.v
GoChan.v
GoTime.v
GoJson.v
GoNet.v
GoNet6.v
GoPrefix.v
GoPort.v
GoSort.v
GoParse.v
GoSha.v
IpamCidr.v
ConfigTypes.v
ConfigEnv.v
ConfigValidate.v
StorageTree.v
Wal.v
Snapshot.v
StorageEngine.v
StorageSpec.v
StorageTheorems.v
RowTable.v
Lease.v
LeaseStore.v
LeaseInterface.v
LeaseSpec.v
LeaseTheorems.v
Sweeper.v
Ipam.v
IpamSpec.v
IpamOps.v
IpamView.v
IpamTheorems.v
Dhcp4Wire.v
Dhcp4Pool.v
Dhcp4PoolSpec.v
Dhcp4Handler.v
Dhcp4Spec.v
Dhcp4Theorems.v
Dhcp6Wire.v
Dhcp6Pool.v
Dhcp6Handler.v
Dhcp6Spec.v
Dhcp6Theorems.v
HaManager.v
HaTheorems.v
HaSyncTheorems.v
ConfigTheorems.v
Auth.v
AuthSpec.v
AuthTables.v
AuthTheorems.v
Events.v
AuditLog.v
Discovery.v
DiscoveryTheorems.v
EventData.v
WebSocket.v
Webhook.v
Metrics.v
RestHttp.v
RestAuth.v
RestRouter.v
RestTheorems.v
RestSystem.v
Ddns.v
Mcp.v
IscConfig.v
IscTheorems.v
Migrate.v
MigrateApi.v
MigrateTheorems.v
Daemon.v
GrpcProto.v
GrpcMessages.v
GrpcServer.v
GrpcStreams.v
Main.v
