(* ===== verification/Prelude.v ===== *)
(** Monsoon: a DHCP server with address management and high availability.

    The development models the server's own logic as Gallina functions and proves
    what the parts promise to each other and to their clients.

    * The program and its files

    The storage engine (src/internal/storage) keeps named trees of byte rows: a
    sorted tree per name, a write-ahead log, snapshots, watchers.  The lease store
    (lease) keeps leases as rows with index rows beside them; the sweeper ages
    them.  The DHCPv4 and DHCPv6 servers (dhcpv4, dhcpv6) decode a message, pick an
    address from their pools, write the lease and encode the reply.  The IPAM
    engine (ipam) keeps subnets, reservations and stored addresses as rows, and
    merges them with the leases.  Discovery (discovery) scans subnets and watches
    for rogue servers.  The HA manager (ha) elects the active node, limits what the
    DHCPv4 pools may allocate and replicates leases.  The configuration (config) is
    read over defaults, overridden from the environment and validated; the daemon
    (cmd/monsoon) updates it, saves it and backs the data up.  Accounts, sessions
    and tokens (auth), the settings of the interface (settings) and the audit log
    (audit) are rows of the same engine.  The broker (events) passes events on to
    the webhooks (webhook), to the WebSocket hub (api/websocket) and to DDNS (ddns),
    which publishes leases in a DNS zone.  The APIs (api/rest, api/grpc, api/mcp)
    call all of these behind one chain of middlewares.  The migrations (migrate)
    read the configurations and inventories of other products.

    - StorageTree: BTree of btree.go, IndexManager of index.go.
    - Wal, Snapshot, StorageEngine: wal.go, snapshot.go, engine.go; [Engine] is the
      Go struct with its files in the field [disk].
    - StorageSpec, StorageTheorems: the flat map from (tree, key) to value the
      engine promises, refinement, crash recovery, watchers.
    - RowTable: JSON rows of one tree as a finite map, for every client of the
      engine that keeps records.
    - Lease, LeaseStore: types.go and store.go of lease; LeaseInterface is the
      contract [LeaseStoreLaws] the servers are proved against, LeaseSpec and
      LeaseTheorems prove that the engine-backed store keeps it.
    - Sweeper: expiry.go and its theorems.
    - Dhcp4Wire, Dhcp4Pool, Dhcp4Handler: options.go, packet.go, relay.go,
      broadcast.go, rapid_commit.go; pool.go; handler.go and the loop of server.go.
      Dhcp4PoolSpec, Dhcp4Spec, Dhcp4Theorems: their theorems.
    - Dhcp6Wire, Dhcp6Pool, Dhcp6Handler, Dhcp6Spec, Dhcp6Theorems: dhcpv6.
    - HaManager: election.go, witness.go, heartbeat.go, failover.go, sync.go.
      HaTheorems, HaSyncTheorems: their theorems.
    - IpamCidr, Ipam: cidr.go; types.go and engine.go.  IpamSpec, IpamOps, IpamView,
      IpamTheorems: invariants, writes, the merged view.
    - ConfigTypes, ConfigEnv, ConfigValidate: config.go; env.go; validate.go and
      reload.go.  ConfigTheorems: what a validated configuration gives the others.
    - Auth: all files of auth.  AuthSpec, AuthTables, AuthTheorems: its theorems.
    - Events: events/broker.go and settings/ui_store.go.  AuditLog: audit.
      EventData: the data of events and api/websocket/events.go.
    - Discovery, DiscoveryTheorems: all files of discovery.
    - WebSocket: client.go and hub.go.  Webhook: delivery.go and dispatcher.go.
      Metrics: metrics/prometheus.go.
    - RestHttp: middleware.go and response.go of api/rest.  RestAuth: auth.go.
      RestRouter, RestSystem: router.go and dashboard.go.  RestTheorems: what the
      chain of middlewares lets through, for any handler behind it.
    - GrpcProto, GrpcMessages, GrpcServer, GrpcStreams: api/grpc; the last also
      dispatches the methods and puts the server behind its chain.
    - Mcp: handlers.go, tools.go and server.go of api/mcp, behind the same chain.
    - Ddns: all files of ddns, with a reference DNS server.
    - IscConfig, IscTheorems: the parser of isc_dhcp.go, against a grammar and its
      meaning.  Migrate: csv.go and the import of ISC files.  MigrateApi: kea.go,
      netbox.go, phpipam.go and migrate.go.  MigrateTheorems: their theorems.
    - Daemon: runtime_config.go, config_merge.go, backup_restore.go and
      atomic_write.go of cmd/monsoon, with the callbacks of main.go that update the
      configuration and take and restore backups.
    - Main: main.go and tls.go, the command line, the identity of the servers, the
      wires between leases, events, discovery and DNS, and SIGHUP.
    - Prelude and the files Go…: what the code uses of Go and its library, as
      definitions: outcomes and errors, bytes, strings, channels, time, IP
      addresses and prefixes, MAC addresses, ports, paths, parsing, JSON trees,
      SHA-1, SHA-256, HMAC and base64.

    * How the parts interact

    A client is proved against a contract, not against the code of what it calls:
    the servers, the sweeper and the replication against [LeaseStoreLaws], the
    tables of ipam, auth and audit against RowTable, RowTable against the flat map
    of StorageSpec.  The REST, gRPC and MCP handlers are each a function of the
    same records the components have; [rest_chain] and [grpc_front] compose the
    middlewares in the order of main.go, and the theorems on who may change the data
    go through the one section [gate] of RestTheorems.  The daemon's wires are a step
    function over the broker, the queue of DNS updates and the DNS server (Main).

    * How code becomes definitions

    A Go function is a Gallina function of its receiver, its arguments and what it
    reads of the world: the clock, random bytes, the outcomes of file operations
    ([append_io]).  A receiver that is changed is returned.  Errors and panics are
    [result].  Fixed-width integers are [Z] with their wrap-around written out,
    strings and byte slices are lists of bytes, maps are [gmap] and the order in
    which a loop visits a map is an argument.  Mutexes are not modelled: an
    operation is one step, and interleavings are sequences of steps; where holding
    a lock matters (expired sessions, watchers) the model says so.

    What is not in the repository is a parameter: the JSON encoding of a record
    ([Json], by its round trip; [JsonDecoder], [JsonUnmarshal], [EmptyDecoder],
    [JsonNumbers], [RpcText], [HookText], [AnyText], [HealthText] for single texts), Go's Unicode tables
    ([UnicodeTables]), [sort.Slice] ([SliceSort]), the order of a map ([MapRange]),
    the texts of times and quoted strings ([TimeText], [TimeParse], [HttpTime],
    [GoQuote]), [encoding/csv] ([CsvReader], [AuditExport]), bcrypt ([Bcrypt]), the
    service names of the host ([Services]), [url.Parse] ([UrlParse]), the YAML
    library ([ConfigYaml], [ConfigExport]).  The theorems hold for every instance
    that keeps the laws of the class; the witnesses run with executable instances.

    * What the theorems show

    - Storage: a transaction is atomic and durable, recovery after a torn write
      gives the state before or after it, reopening and snapshots give the same
      rows, subscribers see commits in order.
    - Leases: the store is a map from addresses to leases; the sweeper moves each
      lease along its states and reclaims what expired.
    - DHCP: no address that a client holds is given to another, replies name leased
      addresses, allocation finds an address when there is one, packets round trip.
    - HA: the nodes never allocate the same address, a witness guards the
      promotion, replicas follow.
    - IPAM: tables stay well formed, writes refine map updates, prefix functions
      are set arithmetic.
    - Configuration: a validated one gives disjoint pools and a seedable inventory;
      an update is what is saved and what runs; a file is replaced whole or not.
    - Auth: guesses are bounded, sessions survive restarts, tokens refine a map.
    - Discovery: a scan visits exactly the addresses it should.
    - Events: webhooks are delivered in order, a WebSocket frame arrives whole.
    - APIs: nobody changes the data without the role it takes, through REST, gRPC or
      MCP; a cross-site request changes nothing, headers of strangers are ignored,
      secrets are masked; a planned subnet is free and of the size asked for.
    - DDNS: the addresses in the zone of a server that checks signatures follow the
      events of the leases, whenever the worker runs.
    - Migrations: the parser gives a configuration its meaning however it is laid
      out, merged ranges cover exactly the ranges, a dry run changes nothing.

    * Bounds and fuel

    The recursions follow lists, or a natural number that bounds the loop by the
    size of what it walks: the bytes left of a packet, of a log file or of a text,
    the tokens left of a configuration, the addresses left of a pool.  The theorems
    say that the bound is enough: each loop returns a result, so none speaks only
    of runs that end.

    * Not modelled

    - Sockets, listeners and goroutines: net/http and grpc serve the handlers, a
      loop over a socket is a list of packets, a ticker a sequence of steps.
    - Starting and stopping the servers (the rest of main.go, rest/server.go), and
      loading a certificate.
    - The network behind the code: the probes of discovery, the answers of NetBox and
      phpIPAM, the DNS server are arguments, as what they answer.
    - config.go: Clone, the YAML of a duration, writing the default file.
    - The web interface (web, internal/dashboard): assets.
    - Texts of log lines, and of library errors inside messages. *)

From Stdlib Require Export ZArith Lia.
From Stdlib Require Strings.Byte.
From Stdlib Require Strings.String.
From stdpp Require Export base tactics decidable numbers option list gmap
  strings sorting fin_maps fin_map_dom.

Declare Scope go_scope.
Delimit Scope go_scope with go.

Open Scope Z_scope.

(** * Automation shared by every component *)

(** Facts used to rewrite; [go_simpl] is the simplifier of the development. *)
Create Rewrite HintDb go.

(** Facts used to close side conditions. *)
Create HintDb go discriminated.

Ltac go_simpl := autorewrite with go in *; simplify_eq/=.

(** Splits the booleans of a hypothesis or goal into propositions. *)
Ltac bools :=
  repeat match goal with
  | H : (_ && _)%bool = true |- _ => apply andb_true_iff in H; destruct H
  | H : (_ || _)%bool = false |- _ => apply orb_false_iff in H; destruct H
  | H : negb _ = true |- _ => apply negb_true_iff in H
  | H : negb _ = false |- _ => apply negb_false_iff in H
  | H : bool_decide _ = true |- _ => apply bool_decide_eq_true_1 in H
  | H : bool_decide _ = false |- _ => apply bool_decide_eq_false_1 in H
  | H : (_ <? _)%Z = true |- _ => apply Z.ltb_lt in H
  | H : (_ <? _)%Z = false |- _ => apply Z.ltb_ge in H
  | H : (_ <=? _)%Z = true |- _ => apply Z.leb_le in H
  | H : (_ <=? _)%Z = false |- _ => apply Z.leb_gt in H
  | H : (_ =? _)%Z = true |- _ => apply Z.eqb_eq in H
  | H : (_ =? _)%Z = false |- _ => apply Z.eqb_neq in H
  end.

(** * Outcomes of Go functions *)

(** An argument of a formatted error message. *)
Inductive fmt_arg :=
  | FZ (z : Z)
  | FB (b : list Init.Byte.byte).

(** Go's [error] values: the sentinels the code tests with [errors.Is] and the
    ones it formats. *)
Inductive error :=
  | ErrNotFound
  | ErrIO (msg : string)
  | Errorf (format : string) (args : list fmt_arg).

Abbreviation errorNew msg := (Errorf msg []).

(** What a call does: it returns a value, returns an error, or panics. *)
Inductive result (A : Type) :=
  | Ok (a : A)
  | Err (e : error)
  | Panic (msg : string).
Arguments Ok {A} _.
Arguments Err {A} _.
Arguments Panic {A} _.

#[global] Instance result_ret : MRet result := λ A x, Ok x.
#[global] Instance result_bind : MBind result := λ A B f r,
  match r with Ok a => f a | Err e => Err e | Panic s => Panic s end.
#[global] Instance result_fmap : FMap result := λ A B f r,
  match r with Ok a => Ok (f a) | Err e => Err e | Panic s => Panic s end.

Definition is_ok {A} (r : result A) : bool :=
  match r with Ok _ => true | _ => false end.

Lemma bind_ok {A B} (r : result A) (f : A → result B) b :
  (r ≫= f) = Ok b ↔ ∃ a, r = Ok a ∧ f a = Ok b.
Proof.
  destruct r; cbn; split; [eauto|intros (? & [= ->] & ?)| |intros (? & [=] & ?)
    | |intros (? & [=] & ?)]; done.
Qed.

(** * Machine integers *)

(** Go's wrap-around for the unsigned and signed widths the code uses. *)
Definition u16 (z : Z) : Z := z mod 65536.
Definition u32 (z : Z) : Z := z mod 4294967296.
Definition u64 (z : Z) : Z := z mod 18446744073709551616.
Definition i64 (z : Z) : Z :=
  let m := z mod 18446744073709551616 in
  if m <? 9223372036854775808 then m else m - 18446744073709551616.

Abbreviation max_u32 := 4294967295.

Lemma u32_id z : 0 ≤ z < 4294967296 → u32 z = z.
Proof. apply Z.mod_small. Qed.
Lemma u32_range z : 0 ≤ u32 z < 4294967296.
Proof. apply Z.mod_pos_bound. lia. Qed.
Lemma i64_id z : -9223372036854775808 ≤ z < 9223372036854775808 → i64 z = z.
Proof.
  intros Hz. unfold i64. destruct (decide (0 ≤ z)).
  - rewrite Z.mod_small by lia. destruct (Z.ltb_spec z 9223372036854775808); lia.
  - rewrite <-(Z.mod_add _ 1), Z.mod_small by lia.
    destruct (Z.ltb_spec (z + 1 * 18446744073709551616) 9223372036854775808); lia.
Qed.

(** Length of a Go slice or string, as a Go [int]. *)
Definition zlen {A} (l : list A) : Z := Z.of_nat (length l).

Lemma zlen_nonneg {A} (l : list A) : 0 ≤ zlen l.
Proof. unfold zlen. lia. Qed.
Lemma zlen_nil {A} : zlen (@nil A) = 0.
Proof. done. Qed.
Lemma zlen_cons {A} (x : A) l : zlen (x :: l) = zlen l + 1.
Proof. unfold zlen. simpl. lia. Qed.
Lemma zlen_app {A} (l k : list A) : zlen (l ++ k) = zlen l + zlen k.
Proof. unfold zlen. rewrite length_app. lia. Qed.
#[export] Hint Rewrite @zlen_nil @zlen_cons @zlen_app : go.
#[export] Hint Resolve zlen_nonneg u32_range : go.

(** * Record update

    [r <| f := v |>] is [r] with the field [f] replaced, as an assignment to a
    field of a Go struct.  [Eta R] rebuilds a record from its projections; the
    update is found by replacing one of them. *)

Class Eta (R : Type) := eta : R → R.

Class Setter {R T} (f : R → T) := setter : T → R → R.
#[global] Hint Mode Setter - - ! : typeclass_instances.

Ltac solve_setter :=
  match goal with
  | |- @Setter ?R ?T ?f =>
      let inst := constr:(_ : Eta R) in
      let v := fresh "v" in
      let r := fresh "r" in
      unfold Setter; intros v r;
      let b := eval hnf in (inst r) in
      let p := eval pattern (f r) in b in
      match p with ?g _ => let t := eval cbv beta in (g v) in exact t end
  end.
#[global] Hint Extern 1 (Setter _) => solve_setter : typeclass_instances.

Notation "r <| f := v |>" := (setter (f := f) v r)
  (at level 12, f at next level, v at level 200, left associativity,
   format "r  <| f  :=  v |>") : go_scope.
Open Scope go_scope.

(** * Generic list lemmas *)

Lemma take_drop_le {A} (n : nat) (l : list A) :
  (n ≤ length l)%nat → ∃ a b, l = a ++ b ∧ length a = n ∧ take n l = a ∧ drop n l = b.
Proof.
  intros. exists (take n l), (drop n l).
  rewrite take_drop, length_take. split_and!; try done. lia.
Qed.

Lemma prefix_length_app {A} (p q l : list A) (n : nat) :
  take n l = p → take n (l ++ q) = p ++ take (n - length l) q.
Proof. intros <-. by rewrite take_app. Qed.

(** * Slices *)

(** Go's [copy(dst[at:], src)]: as many elements as fit. *)
Definition go_copy {A} (dst : list A) (at_ : nat) (src : list A) : list A :=
  take at_ dst ++ take (length dst - at_) src ++ drop (at_ + length src) dst.

(** * [sort.Search]

    The binary search of the Go library: the least [i] of [0, n) with [f i],
    for a predicate that is false and then true.  The interval shrinks at every
    step, so [n] steps are enough. *)
Fixpoint search_loop (fuel : nat) (i j : Z) (f : Z → bool) : Z :=
  match fuel with
  | O => i
  | S fuel' =>
      if i <? j then
        let h := (i + j) / 2 in
        if f h then search_loop fuel' i h f else search_loop fuel' (h + 1) j f
      else i
  end.
Definition sort_search (n : Z) (f : Z → bool) : Z := search_loop (Z.to_nat n) 0 n f.

Lemma search_loop_spec (f : Z → bool) (n : Z) fuel i j :
  (∀ a b, 0 ≤ a → a ≤ b → b < n → f a = true → f b = true) →
  0 ≤ i → i ≤ j → j ≤ n → (j - i ≤ Z.of_nat fuel) →
  (∀ a, 0 ≤ a < i → f a = false) → (∀ a, j ≤ a < n → f a = true) →
  let r := search_loop fuel i j f in
  0 ≤ r ≤ n ∧ (∀ a, 0 ≤ a < r → f a = false) ∧ (∀ a, r ≤ a < n → f a = true).
Proof.
  intros Hmono. revert i j. induction fuel as [|fuel IH]; intros i j H0 Hij Hjn Hf Hlo Hhi; simpl.
  - assert (i = j) as -> by lia. split_and!; try lia; auto.
  - destruct (Z.ltb_spec i j) as [Hlt|Hge]; [|split_and!; try lia; auto;
      intros a Ha; apply Hhi; lia].
    assert (i ≤ (i + j) / 2 < j) as Hh.
    { split; [apply Z.div_le_lower_bound|apply Z.div_lt_upper_bound]; lia. }
    destruct (f ((i + j) / 2)) eqn:E.
    + apply IH; try lia; [done|]. intros a Ha. apply (Hmono ((i + j) / 2)); try lia. done.
    + apply IH; try lia; [|done]. intros a Ha.
      destruct (f a) eqn:Ea; [|done].
      rewrite (Hmono a ((i + j) / 2)) in E; [done|lia..|done].
Qed.

Lemma sort_search_spec (f : Z → bool) (n : Z) :
  0 ≤ n → (∀ a b, 0 ≤ a → a ≤ b → b < n → f a = true → f b = true) →
  let r := sort_search n f in
  0 ≤ r ≤ n ∧ (∀ a, 0 ≤ a < r → f a = false) ∧ (∀ a, r ≤ a < n → f a = true).
Proof.
  intros Hn Hm. apply (search_loop_spec f n); try done; try lia.
Qed.

(** * Loops with a large bound

    [loop_pos n] runs a step at most [n] times and stops at the first result; it
    follows the bits of [n], so a bound like the size of an IPv6 range costs
    nothing until the steps are run. *)

Section loop.
Context {A B : Type} (step : A → A + B).

Fixpoint loop_pos (n : positive) (a : A) : A + B :=
  match n with
  | xH => step a
  | xO p => match loop_pos p a with inl a' => loop_pos p a' | r => r end
  | xI p =>
      match step a with
      | inl a' => match loop_pos p a' with inl a'' => loop_pos p a'' | r => r end
      | r => r
      end
  end.

Fixpoint loop_nat (n : nat) (a : A) : A + B :=
  match n with
  | O => inl a
  | S n' => match step a with inl a' => loop_nat n' a' | r => r end
  end.

Lemma loop_nat_add n k a :
  loop_nat (n + k) a = match loop_nat n a with inl a' => loop_nat k a' | r => r end.
Proof.
  revert a. induction n as [|n IH]; intros a; simpl; [done|]. by destruct (step a).
Qed.

Lemma loop_pos_nat n a : loop_pos n a = loop_nat (Pos.to_nat n) a.
Proof.
  revert a. induction n as [p IH|p IH|]; intros a; cbn [loop_pos].
  - rewrite Pos2Nat.inj_xI. cbn [loop_nat]. destruct (step a) as [a'|]; [|done].
    replace (2 * Pos.to_nat p)%nat with (Pos.to_nat p + Pos.to_nat p)%nat by lia.
    rewrite loop_nat_add, IH. destruct (loop_nat _ a'); [apply IH|done].
  - rewrite Pos2Nat.inj_xO.
    replace (2 * Pos.to_nat p)%nat with (Pos.to_nat p + Pos.to_nat p)%nat by lia.
    rewrite loop_nat_add, IH. destruct (loop_nat _ a); [apply IH|done].
  - simpl. by destruct (step a).
Qed.
End loop.

(** * Sorted lists *)

Section strongly_sorted.
Context {A} (R : relation A).

Lemma StronglySorted_insert l x r :
  StronglySorted R (l ++ r) → Forall (λ y, R y x) l → Forall (R x) r →
  StronglySorted R (l ++ x :: r).
Proof.
  rewrite !StronglySorted_app. intros (Hc & Hl & Hr) Hlx Hxr.
  split_and!; [|done|by constructor].
  intros y z Hy Hz. apply elem_of_cons in Hz as [-> | Hz]; [|auto].
  rewrite Forall_forall in Hlx. auto.
Qed.

Lemma StronglySorted_delete l x r :
  StronglySorted R (l ++ x :: r) → StronglySorted R (l ++ r).
Proof.
  rewrite !StronglySorted_app. intros (Hc & Hl & Hr).
  apply StronglySorted_inv in Hr as [Hr _].
  split_and!; try done. intros; apply Hc; set_solver.
Qed.

Lemma StronglySorted_lookup l i j x y :
  StronglySorted R l → l !! i = Some x → l !! j = Some y → (i ≤ j)%nat → R x y ∨ x = y.
Proof.
  intros Hs. revert i j. induction Hs as [|z l Hs IH Hz]; intros [|i] [|j] Hi Hj Hij;
    simplify_eq/=; auto; try lia.
  - left. rewrite Forall_lookup in Hz. eauto.
  - apply (IH i j); auto. lia.
Qed.

Lemma StronglySorted_NoDup `{!Irreflexive R} l : StronglySorted R l → NoDup l.
Proof.
  induction 1 as [|x l _ IH Hx]; constructor; [|done].
  intros Hin. rewrite Forall_forall in Hx. by apply (irreflexivity R x), Hx.
Qed.
End strongly_sorted.

Section list_filter.
Context {A} (P : A → Prop) `{∀ x, Decision (P x)}.

Lemma list_filter_nil_iff l : filter P l = [] ↔ Forall (λ x, ¬ P x) l.
Proof.
  induction l as [|x l IH]; [by split|].
  rewrite filter_cons, Forall_cons. case_decide; naive_solver.
Qed.

Lemma list_filter_id_iff l : filter P l = l ↔ Forall P l.
Proof.
  induction l as [|x l IH]; [by split|].
  rewrite filter_cons, Forall_cons. case_decide as Hx.
  - split; [intros [= ?]; naive_solver|intros [_ ?]; f_equal; naive_solver].
  - split; [|naive_solver]. intros E. exfalso. apply Hx.
    assert (x ∈ filter P l) as Hin by (rewrite E; left).
    by apply list_elem_of_filter in Hin as [? _].
Qed.

Lemma list_Forall_filter (Q : A → Prop) l : Forall Q l → Forall Q (filter P l).
Proof. rewrite !Forall_forall. intros HQ x [_ ?]%list_elem_of_filter. auto. Qed.

Lemma StronglySorted_filter (R : relation A) l :
  StronglySorted R l → StronglySorted R (filter P l).
Proof.
  induction 1 as [|x l Hs IH Hx]; [constructor|].
  rewrite filter_cons. case_decide; [|done].
  constructor; [done|by apply list_Forall_filter].
Qed.
End list_filter.

Lemma StronglySorted_map {A B} (f : A → B) (R : relation B) l :
  StronglySorted R (map f l) ↔ StronglySorted (λ x y, R (f x) (f y)) l.
Proof.
  induction l as [|x l IH]; [split; constructor|]. simpl.
  rewrite !StronglySorted_cons, IH, Forall_fmap. naive_solver.
Qed.

(** Building a map row by row, keys being distinct. *)
Lemma foldl_insert_lookup `{Countable K} {V} (rows : list (K * V)) (m : gmap K V) k v :
  NoDup rows.*1 →
  foldl (λ m kv, <[kv.1 := kv.2]> m) m rows !! k = Some v ↔
    (k, v) ∈ rows ∨ k ∉ rows.*1 ∧ m !! k = Some v.
Proof.
  revert m. induction rows as [|[k' v'] rows IH]; intros m Hnd; simpl.
  { rewrite !elem_of_nil. tauto. }
  rewrite fmap_cons, NoDup_cons in Hnd. destruct Hnd as [Hk' Hnd].
  rewrite IH, lookup_insert_Some, elem_of_cons, not_elem_of_cons by done. simpl in *.
  destruct (decide (k = k')) as [-> | Hne]; [|naive_solver].
  assert ((k', v) ∉ rows) by (intros Hin; apply Hk', list_elem_of_fmap; by exists (k', v)).
  naive_solver.
Qed.
