(* ===== verification/GoBytes.v ===== *)
(** Go byte slices and strings.

    A Go [string] and a [[]byte] are both sequences of bytes and the code
    converts between them freely, so both are [bytes].  This file holds the
    byte order [bytes.Compare], the big-endian codecs of [encoding/binary], and
    the [strings] functions the code calls. *)

From S2P Require Import Prelude.

Abbreviation byte := Init.Byte.byte.
Abbreviation bytes := (list byte).

#[global] Instance byte_eq_dec : EqDecision byte := Strings.Byte.byte_eq_dec.

(** * Bytes as integers *)

Definition byte_to_Z (b : byte) : Z := Z.of_N (Strings.Byte.to_N b).

(** Go's conversion [byte(z)]: truncation to 8 bits. *)
Definition byte_of_Z (z : Z) : byte :=
  default Init.Byte.x00 (Strings.Byte.of_N (Z.to_N (z mod 256))).

Lemma byte_to_Z_range b : 0 ≤ byte_to_Z b < 256.
Proof.
  unfold byte_to_Z. pose proof (Strings.Byte.to_N_bounded b). lia.
Qed.

Lemma byte_of_to_Z b : byte_of_Z (byte_to_Z b) = b.
Proof.
  unfold byte_of_Z. rewrite Z.mod_small by apply byte_to_Z_range.
  unfold byte_to_Z. by rewrite N2Z.id, Strings.Byte.of_to_N.
Qed.

Lemma byte_to_of_Z z : byte_to_Z (byte_of_Z z) = z mod 256.
Proof.
  unfold byte_of_Z, byte_to_Z.
  pose proof (Z.mod_pos_bound z 256 ltac:(lia)).
  destruct (Strings.Byte.of_N _) as [b|] eqn:E; simpl.
  - apply Strings.Byte.to_of_N in E. rewrite E. lia.
  - apply Strings.Byte.of_N_None_iff in E. lia.
Qed.

#[global] Instance byte_to_Z_inj : Inj (=) (=) byte_to_Z.
Proof. intros a b E. by rewrite <-(byte_of_to_Z a), E, byte_of_to_Z. Qed.

Lemma byte_of_Z_mod z : byte_of_Z (z mod 256) = byte_of_Z z.
Proof. unfold byte_of_Z. by rewrite Z.mod_mod by lia. Qed.

#[global] Instance byte_countable : Countable byte.
Proof. exact (inj_countable' byte_to_Z byte_of_Z byte_of_to_Z). Defined.

#[export] Hint Rewrite byte_of_to_Z byte_to_of_Z byte_of_Z_mod : go.
#[export] Hint Resolve byte_to_Z_range : go.

(** The bytes of a string literal. *)
Definition bs (s : string) : bytes := Strings.String.list_byte_of_string s.

(** * [bytes.Compare] *)

Fixpoint bytes_compare (a b : bytes) : comparison :=
  match a, b with
  | [], [] => Eq
  | [], _ :: _ => Lt
  | _ :: _, [] => Gt
  | x :: a', y :: b' =>
      match Z.compare (byte_to_Z x) (byte_to_Z y) with
      | Eq => bytes_compare a' b'
      | c => c
      end
  end.

Definition bytes_lt (a b : bytes) : Prop := bytes_compare a b = Lt.
Definition bytes_le (a b : bytes) : Prop := bytes_compare a b ≠ Gt.

#[global] Instance bytes_lt_dec a b : Decision (bytes_lt a b).
Proof. unfold bytes_lt. solve_decision. Defined.
#[global] Instance bytes_le_dec a b : Decision (bytes_le a b).
Proof. unfold bytes_le. solve_decision. Defined.

Lemma bytes_compare_refl a : bytes_compare a a = Eq.
Proof. induction a; simpl; [done|]. by rewrite Z.compare_refl. Qed.

Lemma bytes_compare_eq a b : bytes_compare a b = Eq ↔ a = b.
Proof.
  split; [|intros ->; apply bytes_compare_refl].
  revert b. induction a as [|x a IH]; intros [|y b]; simpl; try done.
  destruct (Z.compare_spec (byte_to_Z x) (byte_to_Z y)) as [E| |]; try done.
  intros ?%IH. apply byte_to_Z_inj in E. by subst.
Qed.

Lemma bytes_compare_antisym a b : bytes_compare b a = CompOpp (bytes_compare a b).
Proof.
  revert b. induction a as [|x a IH]; intros [|y b]; simpl; try done.
  rewrite (Z.compare_antisym (byte_to_Z x)).
  destruct (byte_to_Z x ?= byte_to_Z y); simpl; auto.
Qed.

Lemma bytes_lt_trans a b c : bytes_lt a b → bytes_lt b c → bytes_lt a c.
Proof.
  unfold bytes_lt. revert b c.
  induction a as [|x a IH]; intros [|y b] [|z c]; simpl; try done.
  destruct (Z.compare_spec (byte_to_Z x) (byte_to_Z y)),
    (Z.compare_spec (byte_to_Z y) (byte_to_Z z)); try done; intros;
    destruct (Z.compare_spec (byte_to_Z x) (byte_to_Z z)); try done; try lia.
  by eapply IH.
Qed.

Lemma bytes_lt_irrefl a : ¬ bytes_lt a a.
Proof. unfold bytes_lt. by rewrite bytes_compare_refl. Qed.

Lemma bytes_le_lt_eq a b : bytes_le a b ↔ bytes_lt a b ∨ a = b.
Proof.
  unfold bytes_le, bytes_lt. rewrite <-bytes_compare_eq.
  destruct (bytes_compare a b); naive_solver.
Qed.

Lemma bytes_not_lt a b : ¬ bytes_lt a b ↔ bytes_le b a.
Proof.
  unfold bytes_le, bytes_lt. rewrite (bytes_compare_antisym a b).
  destruct (bytes_compare a b); simpl; naive_solver.
Qed.

#[global] Instance bytes_lt_strict : StrictOrder bytes_lt.
Proof. split; [intros ?; apply bytes_lt_irrefl|intros ???; apply bytes_lt_trans]. Qed.

#[global] Instance bytes_le_po : PartialOrder bytes_le.
Proof.
  split; [split|].
  - intros a. apply bytes_le_lt_eq. by right.
  - intros a b c. rewrite !bytes_le_lt_eq.
    intros [Hab| ->] [Hbc| ->]; eauto using bytes_lt_trans.
  - intros a b. rewrite !bytes_le_lt_eq. intros [H1|?] [H2|?]; try done.
    exfalso. by apply (bytes_lt_irrefl a), (bytes_lt_trans a b a).
Qed.

Lemma bytes_lt_trichotomy a b : bytes_lt a b ∨ a = b ∨ bytes_lt b a.
Proof.
  destruct (decide (bytes_lt a b)) as [?|H]; [by left|].
  apply bytes_not_lt, bytes_le_lt_eq in H. naive_solver.
Qed.

#[global] Instance bytes_le_total : Total bytes_le.
Proof.
  intros a b. rewrite !bytes_le_lt_eq.
  destruct (bytes_lt_trichotomy a b); naive_solver.
Qed.

Lemma bytes_compare_app p a b : bytes_compare (p ++ a) (p ++ b) = bytes_compare a b.
Proof. induction p; simpl; [done|]. by rewrite Z.compare_refl. Qed.

Lemma bytes_le_app p a : bytes_le p (p ++ a).
Proof.
  unfold bytes_le. rewrite <-(app_nil_r p) at 1. rewrite bytes_compare_app.
  by destruct a.
Qed.

#[export] Hint Resolve bytes_lt_irrefl bytes_le_app : go.
#[export] Hint Rewrite bytes_compare_refl bytes_compare_app : go.

Lemma bytes_compare_app_len p q r s :
  length p = length q →
  bytes_compare (p ++ r) (q ++ s) =
    match bytes_compare p q with Eq => bytes_compare r s | c => c end.
Proof.
  revert q. induction p as [|x p IH]; intros [|y q]; simpl; try done.
  intros [= ?]. destruct (byte_to_Z x ?= byte_to_Z y); auto.
Qed.

(** * Fixed-width positional notation

    [encoding/binary.BigEndian] (base 256) and [fmt]'s [%020d] (base 10, ASCII
    digits) are both instances; both keep the numeric order as byte order. *)

Section positional.
Context (base off : Z) (Hbase : 2 ≤ base) (Hoff : 0 ≤ off) (Hfit : off + base ≤ 256).

Fixpoint pos_put (n : nat) (z : Z) : bytes :=
  match n with
  | O => []
  | S n' => pos_put n' (z / base) ++ [byte_of_Z (off + z mod base)]
  end.

Definition pos_get (l : bytes) : Z :=
  foldl (λ acc b, acc * base + (byte_to_Z b - off)) 0 l.

Lemma pos_put_length n z : length (pos_put n z) = n.
Proof.
  revert z. induction n as [|n IH]; intros z; simpl; [done|].
  rewrite length_app, IH. simpl. lia.
Qed.

Lemma pos_get_snoc l b : pos_get (l ++ [b]) = pos_get l * base + (byte_to_Z b - off).
Proof. unfold pos_get. by rewrite foldl_app. Qed.

Lemma pos_digit_range z : off ≤ off + z mod base < 256.
Proof. pose proof (Z.mod_pos_bound z base). lia. Qed.

Lemma pos_digit z : byte_to_Z (byte_of_Z (off + z mod base)) = off + z mod base.
Proof.
  rewrite byte_to_of_Z. pose proof (pos_digit_range z). rewrite Z.mod_small; lia.
Qed.

Lemma pos_get_put n z : pos_get (pos_put n z) = z mod base ^ Z.of_nat n.
Proof.
  revert z. induction n as [|n IH]; intros z; [by rewrite Z.mod_1_r|].
  cbn [pos_put]. rewrite pos_get_snoc, IH, pos_digit.
  rewrite Nat2Z.inj_succ, Z.pow_succ_r by lia.
  rewrite Z.rem_mul_r by lia. lia.
Qed.

Lemma pos_get_put_id n z : 0 ≤ z < base ^ Z.of_nat n → pos_get (pos_put n z) = z.
Proof. intros. rewrite pos_get_put. by apply Z.mod_small. Qed.

(** Numeric order is byte order. *)
Lemma pos_put_compare n a b :
  0 ≤ a < base ^ Z.of_nat n → 0 ≤ b < base ^ Z.of_nat n →
  bytes_compare (pos_put n a) (pos_put n b) = (a ?= b).
Proof.
  revert a b. induction n as [|n IH]; intros a b Ha Hb.
  - simpl in *. symmetry. apply Z.compare_eq_iff. lia.
  - cbn [pos_put]. rewrite Nat2Z.inj_succ, Z.pow_succ_r in Ha, Hb by lia.
    rewrite bytes_compare_app_len by by rewrite !pos_put_length.
    rewrite IH; [|split; [apply Z.div_pos; lia|apply Z.div_lt_upper_bound; lia]..].
    simpl. rewrite !pos_digit.
    pose proof (Z.div_mod a base ltac:(lia)). pose proof (Z.div_mod b base ltac:(lia)).
    pose proof (Z.mod_pos_bound a base ltac:(lia)).
    pose proof (Z.mod_pos_bound b base ltac:(lia)).
    destruct (Z.compare_spec (a / base) (b / base)) as [E|E|E].
    + destruct (Z.compare_spec (off + a mod base) (off + b mod base)) as [F|F|F];
        symmetry; [apply Z.compare_eq_iff|apply Z.compare_lt_iff|apply Z.compare_gt_iff]; nia.
    + symmetry. apply Z.compare_lt_iff. nia.
    + symmetry. apply Z.compare_gt_iff. nia.
Qed.

Lemma pos_put_inj n a b :
  0 ≤ a < base ^ Z.of_nat n → 0 ≤ b < base ^ Z.of_nat n → pos_put n a = pos_put n b → a = b.
Proof.
  intros Ha Hb E. by rewrite <-(pos_get_put_id n a), E, pos_get_put_id.
Qed.
End positional.

(** * [encoding/binary.BigEndian] *)

(** [be_put n z]: the [n] bytes [PutUint8n] writes; [be_get]: what it reads. *)
Definition be_put : nat → Z → bytes := pos_put 256 0.
Definition be_get : bytes → Z := pos_get 256 0.
#[global] Arguments be_put : simpl never.
#[global] Arguments be_get : simpl never.

Lemma be_put_length n z : length (be_put n z) = n.
Proof. apply pos_put_length. Qed.

Lemma be_get_put n z : be_get (be_put n z) = z mod 256 ^ Z.of_nat n.
Proof. apply pos_get_put; lia. Qed.

Lemma be_get_put_id n z : 0 ≤ z < 256 ^ Z.of_nat n → be_get (be_put n z) = z.
Proof. intros. rewrite be_get_put. by apply Z.mod_small. Qed.

Lemma be_get_snoc l b : be_get (l ++ [b]) = be_get l * 256 + byte_to_Z b.
Proof. unfold be_get. rewrite pos_get_snoc. lia. Qed.

Lemma be_get_range l : 0 ≤ be_get l < 256 ^ Z.of_nat (length l).
Proof.
  induction l as [|b l IH] using rev_ind; [done|].
  rewrite be_get_snoc, length_app, Nat2Z.inj_add. simpl.
  rewrite Z.pow_add_r by lia. pose proof (byte_to_Z_range b). lia.
Qed.

Lemma be_put_get l : be_put (length l) (be_get l) = l.
Proof.
  induction l as [|b l IH] using rev_ind; [done|].
  rewrite length_app, Nat.add_comm. unfold be_put in *. cbn [pos_put length Nat.add].
  pose proof (byte_to_Z_range b).
  rewrite be_get_snoc, Z.div_add_l, Z.div_small, Z.add_0_r, IH by lia.
  rewrite (Z.add_comm (_ * 256)), Z.mod_add, Z.mod_small, Z.add_0_l by lia.
  by rewrite byte_of_to_Z.
Qed.

Lemma be_put_get_n n l : length l = n → be_put n (be_get l) = l.
Proof. intros <-. apply be_put_get. Qed.

Lemma be_put_mod n z : be_put n (z mod 256 ^ Z.of_nat n) = be_put n z.
Proof. rewrite <-be_get_put. rewrite be_put_get_n; [done|apply be_put_length]. Qed.

#[export] Hint Rewrite be_put_length : go.

(** Reading back what was just written, in the shape the decoders use. *)
Lemma take_be n z r : take n (be_put n z ++ r) = be_put n z.
Proof. apply take_app_length'. by rewrite be_put_length. Qed.
Lemma drop_be n z r : drop n (be_put n z ++ r) = r.
Proof. apply drop_app_length'. by rewrite be_put_length. Qed.
Lemma take_zlen (l r : bytes) : take (Z.to_nat (zlen l)) (l ++ r) = l.
Proof. apply take_app_length'. unfold zlen. lia. Qed.
Lemma drop_zlen (l r : bytes) : drop (Z.to_nat (zlen l)) (l ++ r) = r.
Proof. apply drop_app_length'. unfold zlen. lia. Qed.
Lemma zlen_be n z : zlen (be_put n z) = Z.of_nat n.
Proof. unfold zlen. by rewrite be_put_length. Qed.
Lemma zlen_take (l : bytes) (n : nat) : (n ≤ length l)%nat → zlen (take n l) = Z.of_nat n.
Proof. intros. unfold zlen. rewrite length_take. lia. Qed.
Lemma drop_Z_add (i j : Z) (l : bytes) :
  0 ≤ i → 0 ≤ j → drop (Z.to_nat (i + j)) l = drop (Z.to_nat j) (drop (Z.to_nat i) l).
Proof. intros. rewrite drop_drop. f_equal. lia. Qed.
#[export] Hint Rewrite take_be drop_be take_zlen drop_zlen zlen_be : go.
