(* ===== verification/GoStrings.v ===== *)
(** The functions of Go's [strings], [fmt] and [encoding/hex] the code calls.

    Case mapping beyond ASCII uses Go's Unicode tables, which are data and not
    part of the repository: they are the operations of [UnicodeTables], used
    exactly where Go uses them (strings with a byte of 0x80 or more). *)

From S2P Require Import Prelude.
From S2P Require Import GoBytes.

(** * Searching *)

Definition has_prefix (s p : bytes) : bool := bool_decide (take (length p) s = p).

(** [strings.TrimPrefix] *)
Definition trim_prefix (s p : bytes) : bytes :=
  if has_prefix s p then drop (length p) s else s.

(** [bytes.IndexByte]: the first position of [c], or -1. *)
Fixpoint index_byte_from (i : Z) (s : bytes) (c : byte) : Z :=
  match s with
  | [] => -1
  | x :: s' => if bool_decide (x = c) then i else index_byte_from (i + 1) s' c
  end.
Definition index_byte (s : bytes) (c : byte) : Z := index_byte_from 0 s c.

(** [strings.Contains] *)
Fixpoint contains (s sub : bytes) : bool :=
  has_prefix s sub || match s with [] => false | _ :: s' => contains s' sub end.

(** [strings.Split] by a one-byte separator. *)
Fixpoint split_byte (s : bytes) (c : byte) : list bytes :=
  match s with
  | [] => [[]]
  | x :: s' =>
      match split_byte s' c with
      | [] => [[x]]
      | l :: ls => if bool_decide (x = c) then [] :: l :: ls else (x :: l) :: ls
      end
  end.

(** [strings.Join] *)
Fixpoint join (parts : list bytes) (sep : bytes) : bytes :=
  match parts with
  | [] => []
  | [p] => p
  | p :: ps => p ++ sep ++ join ps sep
  end.

(** * [strings.TrimSpace]

    Unicode white space in UTF-8: the ASCII space characters, U+0085, U+00A0,
    U+1680, U+2000-200A, U+2028, U+2029, U+202F, U+205F and U+3000. *)
Definition space_seqs : list bytes :=
  map (map byte_of_Z)
    ([[9]; [10]; [11]; [12]; [13]; [32]; [194; 133]; [194; 160]; [225; 154; 128];
      [226; 128; 168]; [226; 128; 169]; [226; 128; 175]; [226; 129; 159];
      [227; 128; 128]]
     ++ map (λ k, [226; 128; 128 + Z.of_nat k]) (seq 0 11)).

Definition strip_one (seqs : list bytes) (s : bytes) : option bytes :=
  match filter (λ p, has_prefix s p = true) seqs with
  | p :: _ => Some (drop (length p) s)
  | [] => None
  end.

(** Each stripped sequence is not empty, so [length s] steps are enough. *)
Fixpoint strip_fuel (seqs : list bytes) (fuel : nat) (s : bytes) : bytes :=
  match fuel with
  | O => s
  | S fuel' => match strip_one seqs s with
               | Some s' => strip_fuel seqs fuel' s'
               | None => s
               end
  end.

Definition trim_left (s : bytes) : bytes := strip_fuel space_seqs (length s) s.
Definition trim_right (s : bytes) : bytes :=
  reverse (strip_fuel (map reverse space_seqs) (length s) (reverse s)).
Definition trim_space (s : bytes) : bytes := trim_right (trim_left s).

(** * Case mapping *)

Definition is_ascii (s : bytes) : bool := forallb (λ b, byte_to_Z b <? 128) s.

Definition ascii_upper (b : byte) : byte :=
  let z := byte_to_Z b in if (97 <=? z) && (z <=? 122) then byte_of_Z (z - 32) else b.
Definition ascii_lower (b : byte) : byte :=
  let z := byte_to_Z b in if (65 <=? z) && (z <=? 90) then byte_of_Z (z + 32) else b.

(** The tables of [unicode] for text beyond ASCII.  Upper case is a fixed point. *)
Class UnicodeTables := {
  upper_unicode : bytes → bytes;
  lower_unicode : bytes → bytes;
  fold_unicode : bytes → bytes → bool;
  upper_unicode_upper s :
    is_ascii s = false →
    (if is_ascii (upper_unicode s) then map ascii_upper (upper_unicode s)
     else upper_unicode (upper_unicode s)) = upper_unicode s;
}.

Section case_mapping.
Context `{UnicodeTables}.

Definition to_upper (s : bytes) : bytes :=
  if is_ascii s then map ascii_upper s else upper_unicode s.
Definition to_lower (s : bytes) : bytes :=
  if is_ascii s then map ascii_lower s else lower_unicode s.
Definition equal_fold (s t : bytes) : bool :=
  if is_ascii s && is_ascii t
  then bool_decide (map ascii_lower s = map ascii_lower t)
  else fold_unicode s t.
End case_mapping.

(** Tables that leave other scripts unchanged: the ones the witnesses run with. *)
Definition ascii_tables : UnicodeTables.
Proof.
  refine {| upper_unicode := id; lower_unicode := id; fold_unicode := λ s t, bool_decide (s = t) |}.
  intros s Hs. simpl. by rewrite Hs.
Defined.

(** * Formatting *)

(** [%d] of a number that is not negative; 20 digits hold every 64-bit one. *)
Fixpoint dec_fuel (fuel : nat) (z : Z) : bytes :=
  match fuel with
  | O => []
  | S fuel' =>
      if z <? 10 then [byte_of_Z (48 + z)]
      else dec_fuel fuel' (z / 10) ++ [byte_of_Z (48 + z mod 10)]
  end.
Definition fmt_d (z : Z) : bytes :=
  if z <? 0 then byte_of_Z 45 :: dec_fuel 20 (- z) else dec_fuel 20 z.

(** Zero-padded decimals: [dec_pad n] is the [n]-digit form. *)
Definition dec_pad : nat → Z → bytes := pos_put 10 48.

(** [%020d] of an [int64]: the sign counts in the width. *)
Definition fmt_020d (z : Z) : bytes :=
  if z <? 0 then byte_of_Z 45 :: dec_pad 19 (- z) else dec_pad 20 z.

Definition hex_digit (z : Z) : byte := byte_of_Z (if z <? 10 then 48 + z else 87 + z).

(** [hex.EncodeToString] *)
Definition hex_encode (s : bytes) : bytes :=
  s ≫= λ b, [hex_digit (byte_to_Z b / 16); hex_digit (byte_to_Z b mod 16)].

(** [error.Error()] of the errors the code makes: verbs replaced in order. *)
Fixpoint render (fmt : bytes) (args : list fmt_arg) : bytes :=
  match fmt with
  | [] => []
  | p :: rest =>
      match bool_decide (p = byte_of_Z 37), rest, args with
      | true, _ :: fmt', FZ z :: args' => fmt_d z ++ render fmt' args'
      | true, _ :: fmt', FB b :: args' => b ++ render fmt' args'
      | _, _, _ => p :: render rest args
      end
  end.

Definition error_text (e : error) : bytes :=
  match e with
  | ErrNotFound => bs "not found"
  | ErrIO msg => bs msg
  | Errorf format args => render (bs format) args
  end.

(** * Facts *)

Lemma has_prefix_spec s p : has_prefix s p = true ↔ ∃ r, s = p ++ r.
Proof.
  unfold has_prefix. rewrite bool_decide_eq_true. split.
  - intros E. exists (drop (length p) s). rewrite <-E at 1. by rewrite take_drop.
  - intros [r ->]. by rewrite take_app_length.
Qed.

Lemma has_prefix_app p r : has_prefix (p ++ r) p = true.
Proof. apply has_prefix_spec. eauto. Qed.

Lemma index_byte_from_spec i s c :
  index_byte_from i s c = -1 ∧ c ∉ s ∨
  ∃ a r, s = a ++ c :: r ∧ c ∉ a ∧ index_byte_from i s c = i + zlen a.
Proof.
  revert i. induction s as [|x s IH]; intros i; simpl.
  - left. split; [done|]. by apply not_elem_of_nil.
  - case_bool_decide as E; subst.
    + right. exists [], s. split_and!; [done|by apply not_elem_of_nil|].
      rewrite zlen_nil. lia.
    + destruct (IH (i + 1)) as [[-> Hs]|(a & r & -> & Ha & ->)].
      * left. split; [done|]. rewrite not_elem_of_cons. naive_solver.
      * right. exists (x :: a), r. split_and!; [done| |rewrite zlen_cons; lia].
        rewrite not_elem_of_cons. naive_solver.
Qed.

(** The first occurrence splits the string. *)
Lemma index_byte_app a r c : c ∉ a → index_byte (a ++ c :: r) c = zlen a.
Proof.
  intros Ha. unfold index_byte. destruct (index_byte_from_spec 0 (a ++ c :: r) c)
    as [[_ H]|(a' & r' & E & Ha' & ->)].
  - exfalso. apply H. set_solver.
  - rewrite Z.add_0_l. f_equal.
    revert a' Ha' E. clear -Ha. induction a as [|x a IH]; intros [|y a'] Ha' E; simpl in *.
    + done.
    + simplify_eq. set_solver.
    + simplify_eq. set_solver.
    + simplify_eq. f_equal. apply IH; set_solver.
Qed.

Lemma dec_pad_length n z : length (dec_pad n z) = n.
Proof. apply pos_put_length. Qed.

Lemma dec_pad_compare n a b :
  0 ≤ a < 10 ^ Z.of_nat n → 0 ≤ b < 10 ^ Z.of_nat n →
  bytes_compare (dec_pad n a) (dec_pad n b) = (a ?= b).
Proof. apply pos_put_compare; lia. Qed.

Lemma fmt_020d_nonneg z : 0 ≤ z → fmt_020d z = dec_pad 20 z.
Proof. intros. unfold fmt_020d. by destruct (Z.ltb_spec z 0); [lia|]. Qed.

Lemma map_ascii_upper_idemp s : map ascii_upper (map ascii_upper s) = map ascii_upper s.
Proof.
  induction s as [|b s IH]; simpl; f_equal; [|done].
  destruct b; vm_compute; done.
Qed.

Lemma is_ascii_upper s : is_ascii s = true → is_ascii (map ascii_upper s) = true.
Proof.
  unfold is_ascii. rewrite !forallb_forall. intros H x (b & <- & Hb)%in_map_iff.
  specialize (H b Hb). revert H. destruct b; vm_compute; done.
Qed.

Lemma to_upper_idemp `{UnicodeTables} s : to_upper (to_upper s) = to_upper s.
Proof.
  unfold to_upper. destruct (is_ascii s) eqn:E.
  - rewrite is_ascii_upper by done. apply map_ascii_upper_idemp.
  - by apply upper_unicode_upper.
Qed.

#[export] Hint Rewrite dec_pad_length : go.

(** Past its prefix range a sorted key list never comes back to the prefix. *)
Lemma prefix_range_above p k :
  bytes_le p k → has_prefix k p = false → ∀ r, bytes_lt (p ++ r) k.
Proof.
  unfold bytes_le, bytes_lt, has_prefix. rewrite bool_decide_eq_false.
  revert k. induction p as [|x p IH]; intros [|y k]; simpl; try done.
  destruct (Z.compare_spec (byte_to_Z x) (byte_to_Z y)) as [E| |]; try done.
  apply byte_to_Z_inj in E as ->. intros Hle Hne r. apply IH; [done|].
  intros Hk. apply Hne. by f_equal.
Qed.

Lemma prefix_range_end p k k' :
  bytes_le p k → has_prefix k p = false → bytes_lt k k' → has_prefix k' p = false.
Proof.
  intros Hle Hk Hlt. destruct (has_prefix k' p) eqn:E; [|done].
  apply has_prefix_spec in E as [r ->].
  pose proof (prefix_range_above p k Hle Hk r) as H.
  destruct (bytes_lt_irrefl k). by eapply bytes_lt_trans.
Qed.

(** Keys of the form [field ++ sep ++ id]: a field and an id without the
    separator are determined by the key. *)
Lemma sep_prefix_inj (f g : bytes) (sep : byte) (r q : bytes) :
  sep ∉ f → sep ∉ g → f ++ sep :: r = g ++ sep :: q → f = g ∧ r = q.
Proof.
  intros Hf Hg. revert g Hg. induction f as [|x f IH]; intros [|y g] Hg E; simplify_eq/=.
  - done.
  - exfalso. apply Hg. left.
  - exfalso. apply Hf. left.
  - destruct (IH ltac:(set_solver) g ltac:(set_solver)) as [-> ->]; done.
Qed.

Lemma sep_suffix_inj (f g : bytes) (sep : byte) (r q : bytes) :
  sep ∉ r → sep ∉ q → f ++ sep :: r = g ++ sep :: q → f = g ∧ r = q.
Proof.
  intros Hr Hq E. apply (f_equal reverse) in E.
  rewrite !reverse_app, !reverse_cons, <-!app_assoc in E. simpl in E.
  destruct (sep_prefix_inj (reverse r) (reverse q) sep (reverse f) (reverse g)) as [E1 E2].
  - by rewrite elem_of_reverse.
  - by rewrite elem_of_reverse.
  - done.
  - apply (f_equal reverse) in E1, E2. by rewrite !reverse_involutive in E1, E2.
Qed.

(** ** Trimming twice *)

Lemma strip_one_spec seqs s :
  match strip_one seqs s with
  | Some s' => ∃ p, p ∈ seqs ∧ s = p ++ s'
  | None => ∀ p, p ∈ seqs → has_prefix s p = false
  end.
Proof.
  unfold strip_one. destruct (filter _ seqs) as [|p ps] eqn:E.
  - intros p Hp. destruct (has_prefix s p) eqn:Hs; [|done]. exfalso.
    assert (p ∈ filter (λ p, has_prefix s p = true) seqs) as Hin by by apply list_elem_of_filter. rewrite E in Hin. by apply elem_of_nil in Hin.
  - assert (p ∈ filter (λ p, has_prefix s p = true) seqs) as Hin by (rewrite E; by left).
    apply list_elem_of_filter in Hin as [Hs Hp]. exists p. split; [done|]. unfold has_prefix in Hs. apply bool_decide_eq_true in Hs.
    rewrite <-Hs at 1. by rewrite take_drop.
Qed.
Lemma strip_fuel_done seqs fuel s :
  Forall (λ p, p ≠ []) seqs → (length s ≤ fuel)%nat → strip_one seqs (strip_fuel seqs fuel s) = None.
Proof.
  intros Hseqs. revert s. induction fuel as [|fuel IH]; intros s Hs; cbn.
  - destruct s; [|cbn in Hs; lia]. pose proof (strip_one_spec seqs []) as Hp. destruct (strip_one seqs []) as [s'|]; [|done].
    destruct Hp as (p & Hp & E). rewrite Forall_forall in Hseqs. specialize (Hseqs p Hp). by destruct p.
  - pose proof (strip_one_spec seqs s) as Hp. destruct (strip_one seqs s) as [s'|] eqn:E; [|done]. destruct Hp as (p & Hp & ->).
    apply IH. rewrite Forall_forall in Hseqs. specialize (Hseqs p Hp). rewrite length_app in Hs. destruct p; [done|]. cbn in Hs. lia.
Qed.
Lemma strip_fuel_stays seqs fuel s : strip_one seqs s = None → strip_fuel seqs fuel s = s.
Proof. intros E. destruct fuel; cbn; [done|]. by rewrite E. Qed.
Lemma strip_fuel_suffix seqs fuel s : ∃ p, s = p ++ strip_fuel seqs fuel s.
Proof.
  revert s. induction fuel as [|fuel IH]; intros s; cbn; [by exists []|].
  pose proof (strip_one_spec seqs s) as Hp. destruct (strip_one seqs s) as [s'|]; [|by exists []].
  destruct Hp as (p & _ & ->), (IH s') as [q Hq]. exists (p ++ q). by rewrite <-app_assoc, <-Hq.
Qed.
Lemma space_seqs_nonempty : Forall (λ p, p ≠ []) space_seqs ∧ Forall (λ p, p ≠ []) (map reverse space_seqs).
Proof. split; refine (bool_decide_unpack _ _); vm_compute; exact I. Qed.
Lemma trim_space_clean s :
  strip_one space_seqs (trim_space s) = None ∧ strip_one (map reverse space_seqs) (reverse (trim_space s)) = None.
Proof.
  unfold trim_space. set (t := trim_left s).
  assert (Ht : strip_one space_seqs t = None) by (apply strip_fuel_done; [apply space_seqs_nonempty|done]).
  set (u := trim_right t).
  assert (Hu : strip_one (map reverse space_seqs) (reverse u) = None).
  { unfold u, trim_right. rewrite reverse_involutive. apply strip_fuel_done; [apply space_seqs_nonempty|by rewrite length_reverse]. }
  split; [|done].
  assert (Hpre : ∃ r, t = u ++ r).
  { destruct (strip_fuel_suffix (map reverse space_seqs) (length t) (reverse t)) as [p Hp]. exists (reverse p).
    unfold u, trim_right. rewrite <-reverse_app, <-Hp. by rewrite reverse_involutive. }
  pose proof (strip_one_spec space_seqs u) as Hp. destruct (strip_one space_seqs u) as [u'|]; [|done].
  exfalso. destruct Hp as (p & Hin & E), Hpre as [r Hr]. pose proof (strip_one_spec space_seqs t) as Hn. rewrite Ht in Hn.
  specialize (Hn p Hin). rewrite Hr, E, <-app_assoc, has_prefix_app in Hn. done.
Qed.
Lemma trim_space_id s :
  strip_one space_seqs s = None → strip_one (map reverse space_seqs) (reverse s) = None → trim_space s = s.
Proof.
  intros Hl Hr. unfold trim_space, trim_left, trim_right. rewrite (strip_fuel_stays space_seqs) by done.
  rewrite strip_fuel_stays by done. apply reverse_involutive.
Qed.
Lemma trim_space_idemp s : trim_space (trim_space s) = trim_space s.
Proof. destruct (trim_space_clean s). by apply trim_space_id. Qed.

(** A byte no space has separates texts without spaces at their ends. *)
Lemma strip_one_mid seqs c a b : Forall (λ p, c ∉ p) seqs → strip_one seqs a = None → strip_one seqs (a ++ c :: b) = None.
Proof.
  intros Hc Ha. pose proof (strip_one_spec seqs a) as Hn. rewrite Ha in Hn.
  pose proof (strip_one_spec seqs (a ++ c :: b)) as Hp. destruct (strip_one seqs (a ++ c :: b)) as [s|]; [|done].
  exfalso. destruct Hp as (p & Hin & E). specialize (Hn p Hin). rewrite Forall_forall in Hc. specialize (Hc p Hin).
  apply app_eq_inv in E as [(k & -> & _)|(k & -> & E)]; [by rewrite has_prefix_app in Hn|].
  destruct k as [|d k]; [rewrite app_nil_r in *|].
  - rewrite <-(app_nil_r a) in Hn at 1. by rewrite has_prefix_app in Hn.
  - injection E as -> ->. apply Hc. apply elem_of_app. right. left.
Qed.
Lemma trim_space_join c a b :
  Forall (λ p, c ∉ p) space_seqs → trim_space a = a → trim_space b = b → trim_space (a ++ c :: b) = a ++ c :: b.
Proof.
  intros Hc Ha Hb. pose proof (trim_space_clean a) as [Hal _]. pose proof (trim_space_clean b) as [_ Hbr]. rewrite Ha in Hal. rewrite Hb in Hbr.
  apply trim_space_id; [by apply strip_one_mid|]. rewrite reverse_app, reverse_cons, <-app_assoc. apply strip_one_mid; [|done].
  apply Forall_map. eapply Forall_impl; [exact Hc|]. intros p Hp. cbn. by rewrite elem_of_reverse.
Qed.
