(* ===== verification/GoChan.v ===== *)
(** Buffered channels and the broadcast the event sources use.

    The engine, the lease store and the event broker publish with
    [select { case c <- evt: default: }]: an event a full subscriber cannot take
    is dropped for that subscriber, and the publisher never blocks. *)

From S2P Require Import Prelude.

Record chan (A : Type) := mkChan { ch_cap : Z; ch_buf : list A; ch_closed : bool }.
Arguments mkChan {A} _ _ _.
Arguments ch_cap {A} _.
Arguments ch_buf {A} _.
Arguments ch_closed {A} _.

(** [make(chan A, n)] *)
Definition make_chan {A} (n : Z) : chan A := mkChan n [] false.

(** The non-blocking send. *)
Definition send_nb {A} (x : A) (c : chan A) : chan A :=
  if zlen (ch_buf c) <? ch_cap c then mkChan (ch_cap c) (ch_buf c ++ [x]) (ch_closed c) else c.

(** A receive that does not block: the value, or nothing. *)
Definition recv_nb {A} (c : chan A) : option A * chan A :=
  match ch_buf c with
  | [] => (None, c)
  | x :: buf => (Some x, mkChan (ch_cap c) buf (ch_closed c))
  end.

Definition close_chan {A} (c : chan A) : chan A := mkChan (ch_cap c) (ch_buf c) true.

(** Every subscriber of the map is offered the value. *)
Definition broadcast {A} (x : A) (subs : gmap Z (chan A)) : gmap Z (chan A) :=
  send_nb x <$> subs.

Definition chan_ok {A} (c : chan A) : Prop := zlen (ch_buf c) ≤ ch_cap c.

Lemma send_nb_ok {A} (x : A) c : chan_ok c → chan_ok (send_nb x c).
Proof.
  unfold chan_ok, send_nb. destruct (Z.ltb_spec (zlen (ch_buf c)) (ch_cap c)); [|done].
  simpl. rewrite zlen_app, zlen_cons, zlen_nil. lia.
Qed.

(** What a subscriber that never receives holds after some sends: the first
    ones, as many as fit. *)
Lemma broadcast_prefix {A} (xs : list A) c :
  chan_ok c →
  ch_buf (foldl (λ c x, send_nb x c) c xs) =
    take (Z.to_nat (ch_cap c)) (ch_buf c ++ xs).
Proof.
  revert c. induction xs as [|x xs IH]; intros c Hc; simpl.
  - unfold chan_ok, zlen in Hc. rewrite app_nil_r, take_ge by lia. done.
  - rewrite IH by by apply send_nb_ok. unfold send_nb.
    destruct (Z.ltb_spec (zlen (ch_buf c)) (ch_cap c)) as [|Hfull]; simpl.
    + by rewrite <-app_assoc.
    + unfold chan_ok, zlen in *. rewrite !take_app_le by lia. done.
Qed.
