(* ===== verification/GoTime.v ===== *)
(** Go's [time]: instants and durations as the code uses them.

    An instant is the number of nanoseconds since the zero time (January 1, year
    1, UTC); a duration is an [int64] of nanoseconds.  Every [time.Now()] of the
    code is an argument of the definition that models its caller. *)

From Stdlib Require Export Floats.SpecFloat.
From S2P Require Import Prelude.
From S2P Require Import GoBytes.
From S2P Require Import GoStrings.

Abbreviation time := Z (only parsing).
Abbreviation duration := Z (only parsing).

Definition zero_time : time := 0.
Definition is_zero (t : time) : bool := t =? 0.

Definition second : duration := 1000000000.
Definition minute : duration := 60 * second.
Definition hour : duration := 60 * minute.

(** [Time.Unix]: seconds since 1970, rounded down. *)
Definition unix (t : time) : Z := t / 1000000000 - 62135596800.

(** [Time.Add]; instants do not wrap within the years JSON can print. *)
Definition time_add (t : time) (d : duration) : time := t + d.

(** [t.After(u)] and [t.Before(u)] *)
Definition after (t u : time) : bool := u <? t.
Definition before (t u : time) : bool := t <? u.

(** [Time.Sub]: saturates at the ends of [int64]. *)
Definition time_sub (t u : time) : duration :=
  Z.max (-9223372036854775808) (Z.min 9223372036854775807 (t - u)).

(** Products and quotients of durations: [int64] arithmetic. *)
Definition dur_mul (d : duration) (n : Z) : duration := i64 (d * n).
Definition dur_quot (d : duration) (n : Z) : duration := Z.quot d n.

Lemma unix_mono t u : t ≤ u → unix t ≤ unix u.
Proof. unfold unix. intros. pose proof (Z.div_le_mono t u 1000000000). lia. Qed.

(** Whole seconds order instants up to the second. *)
Lemma unix_lt t u : unix t < unix u → t < u.
Proof. intros H. destruct (Z.lt_ge_cases t u) as [|Hge]; [done|]. apply unix_mono in Hge. lia. Qed.

Lemma unix_second t u : t + second ≤ u → unix t < unix u.
Proof.
  unfold unix, second. intros H.
  pose proof (Z.div_le_mono (t + 1 * 1000000000) u 1000000000 ltac:(lia) ltac:(lia)) as Hd.
  rewrite Z.div_add in Hd by lia. lia.
Qed.

(** Go's [float64]: IEEE 754 binary64, as [SpecFloat] specifies it, and
    [Duration.Seconds]. *)

(** [float64(z)] rounds to nearest even, [int(f)] truncates. *)
Definition to_float (z : Z) : spec_float := binary_normalize 53 1024 z 0 false.
Definition float_trunc (f : spec_float) : Z :=
  match f with
  | S754_finite s m e =>
      let z := if 0 <=? e then Z.pos m * 2 ^ e else Z.pos m / 2 ^ (- e) in if s then - z else z
  | _ => 0
  end.
Definition float_add := SFadd 53 1024.
Definition float_mul := SFmul 53 1024.
Definition float_div := SFdiv 53 1024.

(** [Duration.Seconds]: whole seconds plus the fraction. *)
Definition seconds (d : duration) : spec_float :=
  float_add (to_float (Z.quot d second)) (float_div (to_float (Z.rem d second)) (to_float second)).

Example seconds_fraction : float_trunc (seconds (90 * second + 999999999)) = 90.
Proof. vm_compute. reflexivity. Qed.

(** * Keys that sort by time

    Nanoseconds in twenty digits, a separator and an identifier; the audit log and the
    scan results use them. *)

(** [Time.UnixNano] *)
Definition unix_nano (t : time) : Z := i64 (t - 62135596800 * second).

Definition key_sep : byte := byte_of_Z 31.
Definition time_key (t : time) (id : bytes) : bytes := fmt_020d (unix_nano t) ++ key_sep :: id.

(** Keys are in the order of time. *)
Lemma time_key_compare t i t' i' :
  0 ≤ unix_nano t < 10 ^ 20 → 0 ≤ unix_nano t' < 10 ^ 20 →
  bytes_compare (time_key t i) (time_key t' i') =
    match unix_nano t ?= unix_nano t' with Eq => bytes_compare i i' | c => c end.
Proof.
  intros Ht Ht'. unfold time_key. rewrite !fmt_020d_nonneg by lia.
  rewrite bytes_compare_app_len by by rewrite !dec_pad_length.
  rewrite dec_pad_compare by (change (Z.of_nat 20) with 20; done).
  destruct (unix_nano t ?= unix_nano t'); [|done..]. cbn. by rewrite Z.compare_refl.
Qed.

Lemma dec_pad_compare20 a b : 0 ≤ a < 10 ^ 20 → 0 ≤ b < 10 ^ 20 → bytes_compare (dec_pad 20 a) (dec_pad 20 b) = (a ?= b).
Proof. intros. by apply dec_pad_compare. Qed.
