(* ===== verification/GoJson.v ===== *)
(** [encoding/json] as the stores use it: records are marshalled into the rows
    of the engine and unmarshalled when they are read.

    The text of the encoding is not observed by the code, only that decoding
    gives back the record, which [encoding/json] guarantees for valid UTF-8
    strings and for times in the years 1 to 9999 ([json_ok]). *)

From S2P Require Import Prelude.
From S2P Require Import GoBytes.

Class Json (A : Type) := {
  marshal : A → result bytes;
  unmarshal : bytes → result A;
  json_ok : A → Prop;
  marshal_ok a : json_ok a → ∃ raw, marshal a = Ok raw;
  unmarshal_marshal a raw : json_ok a → marshal a = Ok raw → unmarshal raw = Ok a;
}.

(** * A concrete codec

    Fields packed with their lengths: the instance the witnesses run with. *)

Definition pack (fields : list bytes) : bytes :=
  fields ≫= λ f, be_put 8 (zlen f) ++ f.

Fixpoint unpack (n : nat) (raw : bytes) : list bytes :=
  match n with
  | O => []
  | S n' =>
      let len := Z.to_nat (be_get (take 8 raw)) in
      take len (drop 8 raw) :: unpack n' (drop len (drop 8 raw))
  end.

Lemma unpack_pack fields :
  Forall (λ f, zlen f < 256 ^ 8) fields → unpack (length fields) (pack fields) = fields.
Proof.
  induction 1 as [|f fields Hf _ IH]; [done|].
  change (pack (f :: fields)) with ((be_put 8 (zlen f) ++ f) ++ pack fields).
  cbn [unpack length]. rewrite <-app_assoc, take_be, drop_be.
  rewrite be_get_put_id by (pose proof (zlen_nonneg f); lia).
  by rewrite take_zlen, drop_zlen, IH.
Qed.

(** Signed integers in sixteen bytes. *)
Definition put_int (z : Z) : bytes := be_put 16 (z + 2 ^ 127).
Definition get_int (raw : bytes) : Z := be_get raw - 2 ^ 127.

Definition int_ok (z : Z) : Prop := - 2 ^ 127 ≤ z < 2 ^ 127.

Lemma get_put_int z : int_ok z → get_int (put_int z) = z.
Proof. unfold int_ok, get_int, put_int. intros. rewrite be_get_put_id; lia. Qed.

(** String maps as alternating keys and values. *)
Definition put_map (m : gmap bytes bytes) : bytes :=
  pack (put_int (zlen (map_to_list m)) :: (map_to_list m ≫= λ kv, [kv.1; kv.2])).

Fixpoint pair_up (l : list bytes) : list (bytes * bytes) :=
  match l with
  | k :: v :: l' => (k, v) :: pair_up l'
  | _ => []
  end.

Definition get_map (raw : bytes) : gmap bytes bytes :=
  let n := get_int (default [] (unpack 1 raw !! 0%nat)) in
  list_to_map (pair_up (drop 1 (unpack (Z.to_nat (1 + 2 * n)) raw))).

Definition bytes_ok (s : bytes) : Prop := zlen s < 256 ^ 8.
Definition map_ok (m : gmap bytes bytes) : Prop :=
  int_ok (zlen (map_to_list m)) ∧ map_Forall (λ k v, bytes_ok k ∧ bytes_ok v) m.

#[global] Instance int_ok_dec z : Decision (int_ok z).
Proof. unfold int_ok. apply _. Defined.
#[global] Instance bytes_ok_dec s : Decision (bytes_ok s).
Proof. unfold bytes_ok. apply _. Defined.
#[global] Instance map_ok_dec m : Decision (map_ok m).
Proof. unfold map_ok. apply _. Defined.

Lemma pair_up_flat (l : list (bytes * bytes)) : pair_up (l ≫= λ kv, [kv.1; kv.2]) = l.
Proof. induction l as [|[k v] l IH]; [done|]. simpl. by f_equal. Qed.

Lemma get_put_map m : map_ok m → get_map (put_map m) = m.
Proof.
  intros [Hn Hkv]. unfold get_map, put_map.
  set (fs := put_int _ :: _).
  assert (Hf : Forall (λ f, zlen f < 256 ^ 8) fs).
  { constructor.
    - unfold put_int. rewrite zlen_be. lia.
    - apply map_Forall_to_list in Hkv. clear -Hkv.
      induction Hkv as [|[k v] l [Hk Hv] _ IH]; simpl; [constructor|]. by repeat constructor. }
  assert (Hl : Z.of_nat (length fs) = 1 + 2 * zlen (map_to_list m)).
  { subst fs. unfold zlen. cbn [length]. generalize (map_to_list m). intros l.
    induction l as [|kv l IH]; [done|]. rewrite bind_cons, length_app. cbn [length] in *. lia. }
  assert (H1 : unpack 1 (pack fs) !! 0%nat = Some (put_int (zlen (map_to_list m)))).
  { rewrite <-(unpack_pack fs Hf) at 1. by subst fs. }
  rewrite H1. simpl default. rewrite get_put_int by done.
  replace (Z.to_nat _) with (length fs) by lia. rewrite unpack_pack by done.
  subst fs. simpl drop. by rewrite drop_0, pair_up_flat, list_to_map_to_list.
Qed.

(** The codec of a record with [n] fields. *)
Definition packed {A} (n : nat) (put : A → list bytes) (get : list bytes → option A) (ok : A → Prop)
    (Hok : ∀ a, ok a → length (put a) = n ∧ Forall bytes_ok (put a) ∧ get (put a) = Some a) : Json A.
Proof.
  refine {|
    marshal := λ a, Ok (pack (put a));
    unmarshal := λ raw,
      match get (unpack n raw) with
      | Some a => Ok a
      | None => Err (errorNew "unexpected end of JSON input")
      end;
    json_ok := ok;
  |}.
  - eauto.
  - intros a raw Ha [= <-]. destruct (Hok a Ha) as (<- & Hf & Hg). by rewrite unpack_pack, Hg.
Defined.

(** Lists and booleans. *)
Definition put_list (l : list bytes) : bytes := pack (put_int (zlen l) :: l).
Definition get_list (raw : bytes) : list bytes :=
  let n := get_int (default [] (unpack 1 raw !! 0%nat)) in
  drop 1 (unpack (Z.to_nat (1 + n)) raw).

Definition list_ok (l : list bytes) : Prop := int_ok (zlen l) ∧ Forall bytes_ok l.
#[global] Instance list_ok_dec l : Decision (list_ok l).
Proof. unfold list_ok. apply _. Defined.

Definition put_bool (b : bool) : bytes := if b then [byte_of_Z 1] else [byte_of_Z 0].
Definition get_bool (raw : bytes) : bool := bool_decide (raw = [byte_of_Z 1]).

Lemma get_put_bool b : get_bool (put_bool b) = b.
Proof. by destruct b. Qed.

Lemma get_put_list l : list_ok l → get_list (put_list l) = l.
Proof.
  intros [Hn Hl]. unfold get_list, put_list. set (fs := put_int _ :: l).
  assert (Hf : Forall (λ f, zlen f < 256 ^ 8) fs) by (constructor; [unfold put_int; rewrite zlen_be; lia|done]).
  assert (H1 : unpack 1 (pack fs) !! 0%nat = Some (put_int (zlen l))) by (by rewrite <-(unpack_pack fs Hf) at 1).
  rewrite H1. simpl default. rewrite get_put_int by done.
  replace (Z.to_nat _) with (length fs) by (subst fs; unfold zlen; simpl; lia). rewrite unpack_pack by done.
  subst fs. simpl drop. by rewrite drop_0.
Qed.

(** A codec for any countable type: the bits of the number of the element. *)
Fixpoint pos_bits (p : positive) : bytes :=
  match p with
  | xH => []
  | xO p => byte_of_Z 48 :: pos_bits p
  | xI p => byte_of_Z 49 :: pos_bits p
  end.
Fixpoint bits_pos (raw : bytes) : positive :=
  match raw with
  | [] => xH
  | b :: raw => if bool_decide (b = byte_of_Z 49) then xI (bits_pos raw) else xO (bits_pos raw)
  end.
Lemma bits_pos_bits p : bits_pos (pos_bits p) = p.
Proof. induction p as [p IH|p IH|]; cbn [pos_bits bits_pos]; [by rewrite bool_decide_eq_true_2, IH|by rewrite bool_decide_eq_false_2, IH|done]. Qed.

Definition countable_json (A : Type) `{Countable A} : Json A.
Proof.
  refine {|
    marshal := λ a, Ok (pos_bits (encode a));
    unmarshal := λ raw, match decode (bits_pos raw) with Some a => Ok a | None => Err (errorNew "invalid") end;
    json_ok := λ _, True;
  |}.
  - eauto.
  - intros a raw _ [= <-]. by rewrite bits_pos_bits, decode_encode.
Defined.

(** * Values of JSON

    A number by its text; the members of an object in the order they are listed, which
    a map does not keep. *)
Inductive json :=
| JNull
| JBool (b : bool)
| JNumber (text : bytes)
| JString (s : bytes)
| JArray (items : list json)
| JObject (members : list (bytes * json)).

Section json_ind.
Context (P : json → Prop).
Hypothesis leaf : ∀ v, match v with JArray _ | JObject _ => True | _ => P v end.
Hypothesis array : ∀ items, Forall P items → P (JArray items).
Hypothesis object : ∀ members, Forall (λ m, P m.2) members → P (JObject members).
Fixpoint json_nested_ind (v : json) : P v :=
  match v with
  | JArray items => array items ((fix all (l : list json) : Forall P l :=
                                    match l with
                                    | [] => Forall_nil_2 P
                                    | v :: l => Forall_cons_2 P v l (json_nested_ind v) (all l)
                                    end) items)
  | JObject members => object members ((fix all (l : list (bytes * json)) : Forall (λ m, P m.2) l :=
                                          match l with
                                          | [] => Forall_nil_2 (λ m : bytes * json, P m.2)
                                          | m :: l => Forall_cons_2 (λ m : bytes * json, P m.2) m l (json_nested_ind m.2) (all l)
                                          end) members)
  | JNull => leaf JNull
  | JBool b => leaf (JBool b)
  | JNumber text => leaf (JNumber text)
  | JString s => leaf (JString s)
  end.
End json_ind.

(** The value a map holds at a key. *)
Fixpoint member (key : bytes) (members : list (bytes * json)) : option json :=
  match members with
  | [] => None
  | (k, v) :: members => if bool_decide (k = key) then Some v else member key members
  end.
