(* ===== verification/GoNet.v ===== *)
(** Go's [net] and [net/netip] as the code uses them.

    A [net.IP] is a byte slice, nil being the empty one; a [netip.Addr] is an
    IPv4 or an IPv6 number, the latter with its zone.  Addresses are parsed from
    and printed to text as the library does. *)

From S2P Require Import Prelude.
From S2P Require Import GoBytes.
From S2P Require Import GoStrings.

(** * net.IP *)

Abbreviation ip := bytes (only parsing).

Definition v4_in_v6_prefix : bytes := map byte_of_Z [0; 0; 0; 0; 0; 0; 0; 0; 0; 0; 255; 255].

(** [IP.To4] and [IP.To16]; the results are nil for other lengths. *)
Definition to4 (a : bytes) : bytes :=
  if bool_decide (length a = 4%nat) then a
  else if bool_decide (length a = 16%nat) && has_prefix a v4_in_v6_prefix then drop 12 a
  else [].
Definition to16 (a : bytes) : bytes :=
  if bool_decide (length a = 4%nat) then v4_in_v6_prefix ++ a
  else if bool_decide (length a = 16%nat) then a
  else [].

(** [IP.Equal] *)
Definition ip_equal (a b : bytes) : bool := bool_decide (to16 a = to16 b ∧ length (to16 a) = 16%nat ∨ a = b).

(** * Text *)

Definition dot : byte := byte_of_Z 46.
Definition colon : byte := byte_of_Z 58.
Definition percent : byte := byte_of_Z 37.
Definition slash : byte := byte_of_Z 47.

(** Dotted decimal. *)
Definition fmt_v4 (a : bytes) : bytes := join (map (λ b, fmt_d (byte_to_Z b)) a) [dot].

Definition digit_of (b : byte) : option Z :=
  let z := byte_to_Z b in if (48 <=? z) && (z <=? 57) then Some (z - 48) else None.
Definition hex_of (b : byte) : option Z :=
  let z := byte_to_Z b in
  if (48 <=? z) && (z <=? 57) then Some (z - 48)
  else if (97 <=? z) && (z <=? 102) then Some (z - 87)
  else if (65 <=? z) && (z <=? 70) then Some (z - 55)
  else None.

(** A decimal number of digits only, of any length but zero. *)
Definition parse_dec (s : bytes) : option Z :=
  match s with
  | [] => None
  | _ => foldl (λ acc b, acc ← acc; d ← digit_of b; Some (acc * 10 + d)) (Some 0) s
  end.

(** One field of a dotted decimal: no leading zero, at most 255. *)
Definition parse_octet (s : bytes) : option Z :=
  z ← parse_dec s;
  if (1 <? zlen s) && bool_decide (hd_error s = Some (byte_of_Z 48)) then None
  else if z <=? 255 then Some z else None.

Definition parse_v4 (s : bytes) : option bytes :=
  match split_byte s dot with
  | [f1; f2; f3; f4] =>
      a ← parse_octet f1; b ← parse_octet f2; c ← parse_octet f3; d ← parse_octet f4;
      Some (map byte_of_Z [a; b; c; d])
  | _ => None
  end.

(** ** IPv6 *)

(** A group without leading zeros. *)
Fixpoint fmt_x_fuel (fuel : nat) (z : Z) : bytes :=
  match fuel with
  | O => []
  | S fuel' => if z <? 16 then [hex_digit z] else fmt_x_fuel fuel' (z / 16) ++ [hex_digit (z mod 16)]
  end.
Definition fmt_x (z : Z) : bytes := fmt_x_fuel 16 z.

Fixpoint groups_of (a : bytes) : list Z :=
  match a with
  | x :: y :: a' => (byte_to_Z x * 256 + byte_to_Z y) :: groups_of a'
  | _ => []
  end.

(** The length of the run of zero groups at the front. *)
Fixpoint zero_run (gs : list Z) : nat :=
  match gs with
  | g :: gs' => if g =? 0 then S (zero_run gs') else O
  | [] => O
  end.

(** The first longest run of at least two zero groups: its start and length. *)
Fixpoint best_run (i : nat) (gs : list Z) (best : nat * nat) : nat * nat :=
  match gs with
  | [] => best
  | _ :: gs' =>
      let n := zero_run gs in
      best_run (S i) gs' (if decide (snd best < n)%nat then (i, n) else best)
  end.

Definition fmt_groups (gs : list Z) : bytes := join (map fmt_x gs) [colon].

Definition fmt_v6 (a : bytes) : bytes :=
  let gs := groups_of a in
  let '(i, n) := best_run 0 gs (0, 1)%nat in
  if decide (n < 2)%nat then fmt_groups gs
  else fmt_groups (take i gs) ++ [colon; colon] ++ fmt_groups (drop (i + n) gs).

(** The hex digits at the front: their value, their number and the rest. *)
Fixpoint scan_hex (s : bytes) (off : nat) (acc : Z) : option (Z * nat * bytes) :=
  match s with
  | [] => Some (acc, off, [])
  | c :: s' =>
      match hex_of c with
      | None => Some (acc, off, s)
      | Some d => if decide (3 < off)%nat then None else scan_hex s' (S off) (acc * 16 + d)
      end
  end.

(** The loop of [parseIPv6]: the bytes so far, where the ellipsis was, and the
    rest of the text.  Each turn adds two bytes, so eight turns are enough. *)
Fixpoint parse_v6_loop (fuel : nat) (out : bytes) (ellipsis : option nat) (s : bytes)
    : option (bytes * option nat * bytes) :=
  match fuel with
  | O => Some (out, ellipsis, s)
  | S fuel' =>
      if decide (16 ≤ length out)%nat then Some (out, ellipsis, s) else
      '(acc, off, rest) ← scan_hex s O 0;
      if decide (off = O) then None else
      match rest with
      | c :: rest' =>
          if bool_decide (c = dot) then
            if (bool_decide (ellipsis = None) && negb (bool_decide (length out = 12%nat)))
               || bool_decide (16 < length out + 4)%nat then None
            else v4 ← parse_v4 s; Some (out ++ v4, ellipsis, [])
          else
            let out := out ++ be_put 2 acc in
            if negb (bool_decide (c = colon)) then None
            else
              match rest' with
              | [] => None
              | c' :: rest'' =>
                  if bool_decide (c' = colon) then
                    if bool_decide (ellipsis = None) then
                      match rest'' with
                      | [] => Some (out, Some (length out), [])
                      | _ => parse_v6_loop fuel' out (Some (length out)) rest''
                      end
                    else None
                  else parse_v6_loop fuel' out ellipsis rest'
              end
      | [] => Some (out ++ be_put 2 acc, ellipsis, [])
      end
  end.

Definition parse_v6 (s : bytes) : option bytes :=
  let start :=
    if has_prefix s [colon; colon] then
      match drop 2 s with
      | [] => Some ([], Some O, [])
      | s' => parse_v6_loop 8 [] (Some O) s'
      end
    else parse_v6_loop 8 [] None s in
  '(out, ellipsis, rest) ← start;
  if bool_decide (rest ≠ []) then None
  else if decide (length out < 16)%nat then
    k ← ellipsis;
    Some (take k out ++ replicate (16 - length out) (byte_of_Z 0) ++ drop k out)
  else if bool_decide (ellipsis ≠ None) then None
  else Some out.

(** * netip.Addr *)

Inductive addr :=
  | A4 (a : bytes)                  (** four bytes *)
  | A6 (a : bytes) (zone : bytes).  (** sixteen bytes *)

#[global] Instance addr_eq_dec : EqDecision addr.
Proof. solve_decision. Defined.

(** [ParseAddr] looks for the first of [.], [:] and [%]. *)
Fixpoint addr_kind (s : bytes) : option byte :=
  match s with
  | [] => None
  | c :: s' =>
      if bool_decide (c = dot) || bool_decide (c = colon) || bool_decide (c = percent)
      then Some c else addr_kind s'
  end.

Definition parse_addr (s : bytes) : result addr :=
  let fail := Err (Errorf "ParseAddr(%s)" [FB s]) in
  match addr_kind s with
  | None => fail
  | Some c =>
      if bool_decide (c = dot) then
        match parse_v4 s with Some a => Ok (A4 a) | None => fail end
      else if bool_decide (c = colon) then
        let i := index_byte s percent in
        if i <? 0 then match parse_v6 s with Some a => Ok (A6 a []) | None => fail end
        else
          match drop (Z.to_nat (i + 1)) s with
          | [] => fail
          | zone =>
              match parse_v6 (take (Z.to_nat i) s) with
              | Some a => Ok (A6 a zone)
              | None => fail
              end
          end
      else fail
  end.

(** [net.ParseIP]: sixteen bytes, or nil; a zone is refused. *)
Definition parse_ip (s : bytes) : bytes :=
  match parse_addr s with
  | Ok (A4 a) => v4_in_v6_prefix ++ a
  | Ok (A6 a []) => a
  | _ => []
  end.

(** [IP.String] *)
Definition ip_string (a : bytes) : bytes :=
  if bool_decide (a = []) then bs "<nil>"
  else if negb (bool_decide (length a = 4%nat)) && negb (bool_decide (length a = 16%nat))
  then bs "?" ++ hex_encode a
  else if bool_decide (to4 a = []) then fmt_v6 a
  else fmt_v4 (to4 a).

(** [Addr.String] *)
Definition addr_string (a : addr) : bytes :=
  match a with
  | A4 a => fmt_v4 a
  | A6 a zone =>
      let text := if has_prefix a v4_in_v6_prefix
                  then bs "::ffff:" ++ fmt_v4 (drop 12 a) else fmt_v6 a in
      if bool_decide (zone = []) then text else text ++ percent :: zone
  end.

(** [Addr.As4]; it panics on an IPv6 address that does not embed an IPv4 one. *)
Definition as4 (a : addr) : result bytes :=
  match a with
  | A4 a => Ok a
  | A6 a zone =>
      if has_prefix a v4_in_v6_prefix then Ok (drop 12 a) else Panic "As4 called on IPv6 address"
  end.

(** [Addr.As16] *)
Definition as16 (a : addr) : bytes :=
  match a with A4 a => v4_in_v6_prefix ++ a | A6 a _ => a end.

(** [Addr.Is6]: IPv4-mapped addresses count. *)
Definition is6 (a : addr) : bool := match a with A6 _ _ => true | A4 _ => false end.

(** [AddrFromSlice] *)
Definition addr_from_slice (a : bytes) : option addr :=
  if bool_decide (length a = 4%nat) then Some (A4 a)
  else if bool_decide (length a = 16%nat) then Some (A6 a [])
  else None.

(** * netip.Prefix *)

Record prefix := mkPrefix { p_addr : addr; p_bits : Z }.

(** The text behind the last slash. *)
Fixpoint cut_last (s : bytes) (c : byte) : option (bytes * bytes) :=
  match s with
  | [] => None
  | x :: s' =>
      match cut_last s' c with
      | Some (a, b) => Some (x :: a, b)
      | None => if bool_decide (x = c) then Some ([], s') else None
      end
  end.

Definition parse_prefix (s : bytes) : result prefix :=
  let fail := Err (Errorf "netip.ParsePrefix(%s)" [FB s]) in
  match cut_last s slash with
  | None => fail
  | Some (a, bits) =>
      match parse_addr a with
      | Ok ad =>
          let zoned := match ad with A6 _ (_ :: _) => true | _ => false end in
          if zoned then fail
          else if (1 <? zlen bits) && bool_decide (hd_error bits = Some (byte_of_Z 48)) then fail
          else
            match parse_dec bits with
            | Some n => if n <=? (if is6 ad then 128 else 32) then Ok (mkPrefix ad n) else fail
            | None => fail
            end
      | _ => fail
      end
  end.

(** [Prefix.Contains]: same family, no zone, and equal leading bits. *)
Definition prefix_contains (p : prefix) (a : addr) : bool :=
  match p_addr p, a with
  | A4 x, A4 y => Z.shiftr (Z.lxor (be_get x) (be_get y)) (32 - p_bits p) =? 0
  | A6 x _, A6 y [] => Z.shiftr (Z.lxor (be_get x) (be_get y)) (128 - p_bits p) =? 0
  | _, _ => false
  end.

(** [net.CIDRMask(ones, 32)] *)
Definition cidr_mask32 (ones : Z) : bytes :=
  if (ones <? 0) || (32 <? ones) then []
  else be_put 4 (2 ^ 32 - 2 ^ (32 - ones)).

(** [HardwareAddr.String] *)
Definition mac_string (mac : bytes) : bytes :=
  join (map (λ b, hex_encode [b]) mac) [colon].

(** * Facts *)

Lemma to4_length a : to4 a ≠ [] → length (to4 a) = 4%nat.
Proof.
  unfold to4. case_bool_decide; [done|]. case_bool_decide as H16; simpl; [|done].
  destruct (has_prefix a _); [|done]. by rewrite length_drop, H16.
Qed.

Lemma to4_id a : length a = 4%nat → to4 a = a.
Proof. intros. unfold to4. by rewrite bool_decide_eq_true_2. Qed.

Lemma to4_mapped a : length a = 4%nat → to4 (v4_in_v6_prefix ++ a) = a.
Proof.
  intros Ha. unfold to4.
  assert (Hl : length (v4_in_v6_prefix ++ a) = 16%nat) by by rewrite length_app, Ha.
  rewrite Hl, has_prefix_app. simpl. by rewrite drop_0.
Qed.

(** Every octet prints without a dot and parses back. *)
Lemma octet_text b : dot ∉ fmt_d (byte_to_Z b) ∧ parse_octet (fmt_d (byte_to_Z b)) = Some (byte_to_Z b).
Proof. apply (bool_decide_unpack _). destruct b; vm_compute; done. Qed.

Lemma split_byte_none s c : c ∉ s → split_byte s c = [s].
Proof.
  induction s as [|x s IH]; [done|]. intros Hc. apply not_elem_of_cons in Hc as [Hne Hc].
  simpl. rewrite (IH Hc). by rewrite bool_decide_eq_false_2 by congruence.
Qed.

Lemma split_byte_app s c r : c ∉ s → split_byte (s ++ c :: r) c = s :: split_byte r c.
Proof.
  induction s as [|x s IH]; intros Hc; simpl.
  - rewrite bool_decide_eq_true_2 by done. destruct (split_byte r c) eqn:E; [|done].
    exfalso. clear -E. destruct r as [|y r]; [done|]. simpl in E.
    destruct (split_byte r c); [done|]. by case_bool_decide.
  - apply not_elem_of_cons in Hc as [Hne Hc]. rewrite (IH Hc).
    by rewrite bool_decide_eq_false_2 by congruence.
Qed.

Lemma parse_fmt_v4 a : length a = 4%nat → parse_v4 (fmt_v4 a) = Some a.
Proof.
  intros Ha. destruct a as [|a [|b [|c [|d [|? ?]]]]]; simplify_eq/=.
  destruct (octet_text a) as [Ha Pa], (octet_text b) as [Hb Pb], (octet_text c) as [Hc Pc],
    (octet_text d) as [Hd Pd].
  unfold parse_v4, fmt_v4. cbn [map join app].
  rewrite !split_byte_app by done. rewrite split_byte_none by done.
  rewrite Pa. simpl. rewrite Pb. simpl. rewrite Pc. simpl. rewrite Pd. simpl.
  by rewrite !byte_of_to_Z.
Qed.

Lemma fmt_v4_inj a b : length a = 4%nat → length b = 4%nat → fmt_v4 a = fmt_v4 b → a = b.
Proof.
  intros Ha Hb E. pose proof (parse_fmt_v4 a Ha) as Pa. rewrite E, parse_fmt_v4 in Pa by done.
  congruence.
Qed.

(** Dotted decimals are read as IPv4. *)
Lemma digits_not_special b :
  ∃ x s, fmt_d (byte_to_Z b) = x :: s ∧
    addr_kind (fmt_d (byte_to_Z b) ++ [dot]) = Some dot ∧
    Forall (λ c, c ≠ dot ∧ c ≠ colon ∧ c ≠ percent) (fmt_d (byte_to_Z b)).
Proof.
  destruct (fmt_d (byte_to_Z b)) as [|x s] eqn:E.
  - exfalso. revert E. destruct b; vm_compute; done.
  - exists x, s. split; [done|]. rewrite <-E. split; [destruct b; vm_compute; done|].
    apply (bool_decide_unpack _). destruct b; vm_compute; done.
Qed.

Lemma addr_kind_app s r :
  Forall (λ c, c ≠ dot ∧ c ≠ colon ∧ c ≠ percent) s → addr_kind (s ++ r) = addr_kind r.
Proof.
  induction 1 as [|c s (H1 & H2 & H3) _ IH]; [done|]. simpl.
  rewrite !bool_decide_eq_false_2 by done. done.
Qed.

Lemma parse_addr_fmt_v4 a : length a = 4%nat → parse_addr (fmt_v4 a) = Ok (A4 a).
Proof.
  intros Ha. pose proof (parse_fmt_v4 a Ha) as Hp. unfold parse_addr. rewrite Hp.
  destruct a as [|a [|b [|c [|d [|? ?]]]]]; simplify_eq/=.
  destruct (digits_not_special a) as (_ & _ & _ & _ & Hs).
  unfold fmt_v4. cbn [map join]. rewrite addr_kind_app by done. done.
Qed.

Lemma ip_string_v4 a : length a = 4%nat → ip_string a = fmt_v4 a.
Proof.
  intros Ha. unfold ip_string.
  rewrite (bool_decide_eq_false_2 (a = [])) by (intros ->; done).
  rewrite (bool_decide_eq_true_2 (length a = 4%nat)) by done. cbn [negb andb].
  rewrite to4_id by done. by rewrite bool_decide_eq_false_2 by (intros ->; done).
Qed.

(** An IPv4 address survives printing and parsing. *)
Lemma parse_ip_string a : length a = 4%nat → to4 (parse_ip (ip_string a)) = a.
Proof.
  intros Ha. rewrite ip_string_v4 by done.
  unfold parse_ip. rewrite parse_addr_fmt_v4 by done. by apply to4_mapped.
Qed.

Lemma ip_string_inj a b :
  length a = 4%nat → length b = 4%nat → ip_string a = ip_string b → a = b.
Proof. intros Ha Hb. rewrite !ip_string_v4 by done. by apply fmt_v4_inj. Qed.

(** ** Lengths of parsed addresses *)

Lemma parse_v4_length s a : parse_v4 s = Some a → length a = 4%nat.
Proof.
  unfold parse_v4. destruct (split_byte s dot) as [|f1 [|f2 [|f3 [|f4 [|? ?]]]]]; try done.
  destruct (parse_octet f1), (parse_octet f2), (parse_octet f3), (parse_octet f4); simpl; try done.
  by intros [= <-].
Qed.

(** The loop adds two bytes at a time and never passes sixteen. *)
Lemma parse_v6_loop_length fuel : ∀ out ell s out' ell' s',
  Nat.Even (length out) → (length out ≤ 16)%nat →
  parse_v6_loop fuel out ell s = Some (out', ell', s') →
  (length out' ≤ 16)%nat.
Proof.
  induction fuel as [|fuel IH]; intros out ell s out' ell' s' Hev Hle; simpl;
    [by intros [= <- _ _]|].
  destruct (decide (16 ≤ length out)%nat) as [|Hlt]; [by intros [= <- _ _]|].
  assert (H2 : ∀ acc, Nat.Even (length (out ++ be_put 2 acc)) ∧ (length (out ++ be_put 2 acc) ≤ 16)%nat).
  { intros acc. rewrite length_app, be_put_length. destruct Hev as [k Hk]. split; [exists (k + 1)%nat|]; lia. }
  destruct (scan_hex s 0 0) as [[[acc off] rest]|]; [|done]. simpl.
  destruct (decide (off = 0)%nat); [done|].
  destruct (H2 acc) as [Hev' Hle']. destruct rest as [|c rest]; [by intros [= <- _ _]|].
  case_bool_decide as Hdot.
  { destruct ((bool_decide (ell = None) && _) || _) eqn:E; [done|].
    apply orb_false_iff in E as [_ E%bool_decide_eq_false_1].
    destruct (parse_v4 s) as [v|] eqn:Ev; [|done]. simpl. intros [= <- _ _].
    rewrite length_app, (parse_v4_length _ _ Ev). lia. }
  destruct (negb _); [done|]. destruct rest as [|c' rest]; [done|].
  case_bool_decide; [|by apply IH]. case_bool_decide; [|done].
  destruct rest as [|c2 rest]; [by intros [= <- _ _]|by apply IH].
Qed.

Lemma parse_v6_length s a : parse_v6 s = Some a → length a = 16%nat.
Proof.
  unfold parse_v6. set (start := if has_prefix s _ then _ else _).
  destruct start as [[[out ell] rest]|] eqn:E; [|done]. simpl.
  case_bool_decide; [done|].
  assert (Hle : (length out ≤ 16)%nat).
  { subst start. assert (Hev : Nat.Even (length ([] : bytes))) by by exists 0%nat.
    assert (H0 : (length ([] : bytes) ≤ 16)%nat) by (simpl; lia).
    destruct (has_prefix s _).
    - destruct (drop 2 s); [by simplify_eq|]. by eapply parse_v6_loop_length; [..|exact E].
    - by eapply parse_v6_loop_length; [..|exact E]. }
  case_decide as Hlt.
  - destruct ell as [k|]; [|done]. simpl. intros [= <-].
    rewrite !length_app, length_replicate, length_take, length_drop. lia.
  - case_bool_decide; [done|]. intros [= <-]. lia.
Qed.

Lemma parse_addr_length s ad :
  parse_addr s = Ok ad → match ad with A4 a => length a = 4%nat | A6 a _ => length a = 16%nat end.
Proof.
  unfold parse_addr. destruct (addr_kind s) as [c|]; [|done].
  case_bool_decide.
  { destruct (parse_v4 s) eqn:E; [|done]. intros [= <-]. by eapply parse_v4_length. }
  case_bool_decide; [|done]. destruct (_ <? 0).
  { destruct (parse_v6 s) eqn:E; [|done]. intros [= <-]. by eapply parse_v6_length. }
  destruct (drop _ s); [done|]. destruct (parse_v6 (take _ s)) eqn:E; [|done]. intros [= <-].
  by eapply parse_v6_length.
Qed.

Lemma parse_addr_as4 s ad a : parse_addr s = Ok ad → as4 ad = Ok a → length a = 4%nat.
Proof.
  intros H%parse_addr_length. destruct ad as [b|b z]; simpl; [by intros [= <-]|].
  destruct (has_prefix b _); [|done]. intros [= <-]. by rewrite length_drop, H.
Qed.
