(* ===== verification/GoNet6.v ===== *)
(** IPv6 text: an address survives printing and parsing; order and successor of
    addresses. *)

From S2P Require Import Prelude.
From S2P Require Import GoBytes.
From S2P Require Import GoStrings.
From S2P Require Import GoNet.

(** * Order *)

(** [Addr.Compare], by family, number and zone; [None] is the zero [Addr]. *)
Definition addr_bits (a : option addr) : Z :=
  match a with None => 0 | Some (A4 _) => 32 | Some (A6 _ _) => 128 end.
Definition addr_num (a : option addr) : Z :=
  match a with None => 0 | Some (A4 x) => be_get x | Some (A6 x _) => be_get x end.
Definition addr_zone (a : option addr) : bytes :=
  match a with Some (A6 _ z) => z | _ => [] end.
Definition addr_compare (a b : option addr) : comparison :=
  match addr_bits a ?= addr_bits b with
  | Eq => match addr_num a ?= addr_num b with
          | Eq => bytes_compare (addr_zone a) (addr_zone b)
          | c => c
          end
  | c => c
  end.

(** [Addr.Next]: the zero [Addr] behind the last address. *)
Definition addr_next (a : addr) : option addr :=
  match a with
  | A4 x => if be_get x =? 2 ^ 32 - 1 then None else Some (A4 (be_put 4 (be_get x + 1)))
  | A6 x z => if be_get x =? 2 ^ 128 - 1 then None else Some (A6 (be_put 16 (be_get x + 1)) z)
  end.

(** [Addr.AsSlice] *)
Definition as_slice (a : addr) : bytes := match a with A4 x => x | A6 x _ => x end.

(** [Prefix.String] *)
Definition prefix_string (p : prefix) : bytes := addr_string (p_addr p) ++ slash :: fmt_d (p_bits p).

(** * Hex groups *)

Definition hexable (c : byte) : Prop := is_Some (hex_of c) ∧ c ≠ colon ∧ c ≠ dot ∧ c ≠ percent.

Definition group (g : Z) : Prop := 0 ≤ g < 65536.
Definition enc (gs : list Z) : bytes := gs ≫= be_put 2.

Lemma groups_of_spec n : ∀ a, length a = (2 * n)%nat →
  length (groups_of a) = n ∧ Forall group (groups_of a) ∧ enc (groups_of a) = a.
Proof.
  induction n as [|n IH]; intros a Ha.
  { by destruct a. }
  destruct a as [|x [|y a]]; simpl in Ha; [lia|lia|].
  destruct (IH a) as (H1 & H2 & H3); [lia|]. cbn [groups_of].
  pose proof (byte_to_Z_range x). pose proof (byte_to_Z_range y).
  split_and!; [simpl; by rewrite H1|constructor; [unfold group; lia|done]|].
  change (be_put 2 (byte_to_Z x * 256 + byte_to_Z y) ++ enc (groups_of a) = x :: y :: a).
  rewrite H3. replace (byte_to_Z x * 256 + byte_to_Z y) with (be_get [x; y]).
  - by rewrite (be_put_get_n 2 [x; y]).
  - change [x; y] with ([x] ++ [y]). rewrite be_get_snoc. change [x] with ([] ++ [x]).
    rewrite be_get_snoc. change (be_get []) with 0. lia.
Qed.

Lemma enc_app gs hs : enc (gs ++ hs) = enc gs ++ enc hs.
Proof. apply bind_app. Qed.

Lemma enc_length gs : length (enc gs) = (2 * length gs)%nat.
Proof.
  induction gs as [|g gs IH]; [done|]. change (enc (g :: gs)) with (be_put 2 g ++ enc gs).
  rewrite length_app, be_put_length, IH. simpl. lia.
Qed.

Lemma enc_zeros n : enc (replicate n 0) = replicate (2 * n) (byte_of_Z 0).
Proof.
  induction n as [|n IH]; [done|]. change (enc (replicate (S n) 0)) with (be_put 2 0 ++ enc (replicate n 0)).
  rewrite IH. replace (2 * S n)%nat with (S (S (2 * n))) by lia. done.
Qed.

Lemma hex_digit_ok d : 0 ≤ d < 16 → hex_of (hex_digit d) = Some d ∧ hexable (hex_digit d).
Proof.
  intros Hd. assert (Hall : ∀ k, (k < 16)%nat →
    hex_of (hex_digit (Z.of_nat k)) = Some (Z.of_nat k) ∧ hexable (hex_digit (Z.of_nat k))).
  { unfold hexable. intros k Hk.
    assert (F : forallb (λ k, bool_decide (hex_of (hex_digit (Z.of_nat k)) = Some (Z.of_nat k) ∧
      is_Some (hex_of (hex_digit (Z.of_nat k))) ∧ hex_digit (Z.of_nat k) ≠ colon ∧
      hex_digit (Z.of_nat k) ≠ dot ∧ hex_digit (Z.of_nat k) ≠ percent)) (seq 0 16) = true)
      by (vm_compute; reflexivity).
    rewrite forallb_forall in F. specialize (F k). rewrite in_seq in F.
    specialize (F ltac:(lia)). by apply bool_decide_eq_true in F. }
  specialize (Hall (Z.to_nat d)). rewrite Z2Nat.id in Hall by lia. apply Hall. lia.
Qed.

(** The digits of a group, most significant first. *)
Definition digits_of (g : Z) : list Z :=
  if g <? 16 then [g]
  else if g <? 256 then [g / 16; g mod 16]
  else if g <? 4096 then [g / 256; g / 16 mod 16; g mod 16]
  else [g / 4096; g / 256 mod 16; g / 16 mod 16; g mod 16].

Lemma fmt_x_fuel_step fuel z :
  fmt_x_fuel (S fuel) z
  = if z <? 16 then [hex_digit z] else fmt_x_fuel fuel (z / 16) ++ [hex_digit (z mod 16)].
Proof. done. Qed.

Lemma fmt_x_digits g : group g → fmt_x g = map hex_digit (digits_of g) ∧
  Forall (λ d, 0 ≤ d < 16) (digits_of g) ∧ (1 ≤ length (digits_of g) ≤ 4)%nat ∧
  foldl (λ acc d, acc * 16 + d) 0 (digits_of g) = g.
Proof.
  intros Hg. unfold group in Hg. unfold fmt_x, digits_of.
  pose proof (Z.div_mod g 16 ltac:(lia)). pose proof (Z.mod_pos_bound g 16 ltac:(lia)).
  pose proof (Z.div_mod (g / 16) 16 ltac:(lia)). pose proof (Z.mod_pos_bound (g / 16) 16 ltac:(lia)).
  pose proof (Z.div_mod (g / 16 / 16) 16 ltac:(lia)).
  pose proof (Z.mod_pos_bound (g / 16 / 16) 16 ltac:(lia)).
  assert (E1 : g / 256 = g / 16 / 16) by (rewrite Z.div_div by lia; done).
  assert (E2 : g / 4096 = g / 16 / 16 / 16) by (rewrite !Z.div_div by lia; done).
  rewrite E1, E2.
  rewrite (fmt_x_fuel_step 15). destruct (Z.ltb_spec g 16).
  { split_and!; [done|repeat constructor; lia|simpl; lia..]. }
  rewrite (fmt_x_fuel_step 14). destruct (Z.ltb_spec g 256), (Z.ltb_spec (g / 16) 16); try lia.
  { split_and!; [done|repeat constructor; lia|simpl; lia..]. }
  rewrite (fmt_x_fuel_step 13). destruct (Z.ltb_spec g 4096), (Z.ltb_spec (g / 16 / 16) 16); try lia.
  { split_and!; [done|repeat constructor; lia|simpl; lia..]. }
  rewrite (fmt_x_fuel_step 12). destruct (Z.ltb_spec (g / 16 / 16 / 16) 16); try lia.
  split_and!; [done|repeat constructor; lia|simpl; lia..].
Qed.

Lemma scan_hex_digits ds : ∀ off acc rest,
  Forall (λ d, 0 ≤ d < 16) ds → (off + length ds ≤ 4)%nat →
  match rest with [] => True | c :: _ => hex_of c = None end →
  scan_hex (map hex_digit ds ++ rest) off acc
  = Some (foldl (λ acc d, acc * 16 + d) acc ds, (off + length ds)%nat, rest).
Proof.
  induction ds as [|d ds IH]; intros off acc rest Hds Hlen Hrest; simpl.
  - rewrite Nat.add_0_r. destruct rest as [|c rest]; [done|]. simpl. by rewrite Hrest.
  - apply Forall_cons in Hds as [Hd Hds]. destruct (hex_digit_ok d Hd) as [-> _].
    simpl in Hlen. rewrite decide_False by lia. rewrite IH by (done || lia). by rewrite Nat.add_succ_r.
Qed.

Lemma scan_group g rest :
  group g → match rest with [] => True | c :: _ => hex_of c = None end →
  ∃ n, scan_hex (fmt_x g ++ rest) 0 0 = Some (g, n, rest) ∧ n ≠ 0%nat.
Proof.
  intros Hg Hr. destruct (fmt_x_digits g Hg) as (-> & Hds & Hl & Hv).
  exists (length (digits_of g)). split; [|lia].
  rewrite scan_hex_digits by (done || lia). by rewrite Hv.
Qed.

Lemma fmt_x_hexable g : group g → Forall hexable (fmt_x g) ∧ fmt_x g ≠ [].
Proof.
  intros Hg. destruct (fmt_x_digits g Hg) as (-> & Hds & Hl & _). split.
  - apply Forall_map. eapply Forall_impl; [exact Hds|]. intros d Hd. simpl. by apply hex_digit_ok.
  - destruct (digits_of g); simpl in *; [lia|done].
Qed.

(** * The loop of the parser *)

Lemma fmt_groups_cons g gs :
  fmt_groups (g :: gs) = fmt_x g ++ match gs with [] => [] | _ => colon :: fmt_groups gs end.
Proof. unfold fmt_groups. destruct gs; simpl; [by rewrite app_nil_r|done]. Qed.

Lemma fmt_groups_head g gs : group g → ∃ c s, fmt_groups (g :: gs) = c :: s ∧ hexable c.
Proof.
  intros Hg. rewrite fmt_groups_cons. destruct (fmt_x_hexable g Hg) as [Hx Hne].
  destruct (fmt_x g) as [|c s]; [done|]. apply Forall_cons in Hx as [Hc _]. by eexists c, _.
Qed.

Lemma hexable_not c : hexable c → c ≠ colon ∧ c ≠ dot ∧ c ≠ percent.
Proof. by intros (_ & ? & ? & ?). Qed.

(** One group and what follows it. *)
Lemma parse_v6_loop_group fuel out ell g rest :
  group g → (length out < 16)%nat → match rest with [] => True | c :: _ => c = colon end →
  parse_v6_loop (S fuel) out ell (fmt_x g ++ rest) =
    match rest with
    | [] => Some (out ++ be_put 2 g, ell, [])
    | _ :: [] => None
    | _ :: c' :: rest'' =>
        if bool_decide (c' = colon) then
          if bool_decide (ell = None) then
            match rest'' with
            | [] => Some (out ++ be_put 2 g, Some (length (out ++ be_put 2 g)), [])
            | _ => parse_v6_loop fuel (out ++ be_put 2 g) (Some (length (out ++ be_put 2 g))) rest''
            end
          else None
        else parse_v6_loop fuel (out ++ be_put 2 g) ell (c' :: rest'')
    end.
Proof.
  intros Hg Hout Hrest. cbn [parse_v6_loop]. rewrite decide_False by lia.
  destruct (scan_group g rest Hg) as (n & -> & Hn).
  { destruct rest as [|c r]; [done|]. by subst c. }
  simpl. rewrite decide_False by done. destruct rest as [|c rest]; [done|]. subst c.
  rewrite (bool_decide_eq_false_2 (colon = dot)) by done.
  rewrite (bool_decide_eq_true_2 (colon = colon)) by done. simpl.
  by destruct rest.
Qed.

(** The last groups of a text. *)
Lemma parse_v6_loop_last gs : ∀ fuel out ell,
  gs ≠ [] → Forall group gs → (length gs ≤ fuel)%nat → (length out + 2 * length gs ≤ 16)%nat →
  parse_v6_loop fuel out ell (fmt_groups gs) = Some (out ++ enc gs, ell, []).
Proof.
  induction gs as [|g gs IH]; intros fuel out ell Hne Hgs Hf Hl; [done|].
  apply Forall_cons in Hgs as [Hg Hgs]. destruct fuel as [|fuel]; simpl in Hf, Hl; [lia|].
  rewrite fmt_groups_cons. change (enc (g :: gs)) with (be_put 2 g ++ enc gs).
  destruct gs as [|g' gs].
  - rewrite parse_v6_loop_group by (done || lia). change (enc []) with ([] : bytes). by rewrite app_nil_r.
  - rewrite parse_v6_loop_group by (done || lia).
    destruct (fmt_groups_head g' gs) as (c & s & E & Hc); [by apply Forall_cons in Hgs as [? _]|].
    rewrite E. rewrite bool_decide_eq_false_2 by by apply hexable_not in Hc as (? & _).
    rewrite <-E, IH; [by rewrite app_assoc|done|done|simpl in *; lia|].
    rewrite length_app, be_put_length. simpl in *. lia.
Qed.

(** The groups in front of an ellipsis. *)
Lemma parse_v6_loop_front gs : ∀ fuel out hs,
  gs ≠ [] → Forall group gs → Forall group hs →
  (length gs + length hs ≤ fuel)%nat → (length out + 2 * length gs + 2 * length hs ≤ 16)%nat →
  parse_v6_loop fuel out None (fmt_groups gs ++ [colon; colon] ++ fmt_groups hs)
  = Some (out ++ enc gs ++ enc hs, Some (length (out ++ enc gs)), []).
Proof.
  induction gs as [|g gs IH]; intros fuel out hs Hne Hgs Hhs Hf Hl; [done|].
  apply Forall_cons in Hgs as [Hg Hgs]. destruct fuel as [|fuel]; simpl in Hf, Hl; [lia|].
  rewrite fmt_groups_cons. change (enc (g :: gs)) with (be_put 2 g ++ enc gs).
  rewrite <-app_assoc. destruct gs as [|g' gs].
  - rewrite parse_v6_loop_group by (done || lia).
    cbn [app]. rewrite (bool_decide_eq_true_2 (colon = colon)) by done.
    rewrite (bool_decide_eq_true_2 (@None nat = None)) by done.
    change (enc []) with ([] : bytes). rewrite !app_nil_r. destruct hs as [|h hs].
    + change (fmt_groups []) with ([] : bytes). change (enc []) with ([] : bytes).
      by rewrite !app_nil_r.
    + destruct (fmt_groups_head h hs) as (c & s & E & Hc); [by apply Forall_cons in Hhs as [? _]|].
      rewrite E. rewrite <-E.
      rewrite parse_v6_loop_last; [by rewrite <-app_assoc|done|done|simpl in *; lia|].
      rewrite length_app, be_put_length. simpl in *. lia.
  - rewrite <-app_comm_cons. rewrite parse_v6_loop_group by (done || lia).
    destruct (fmt_groups_head g' gs) as (c & s & E & Hc); [by apply Forall_cons in Hgs as [? _]|].
    rewrite E. rewrite <-(app_comm_cons s).
    rewrite bool_decide_eq_false_2 by by apply hexable_not in Hc as (? & _).
    rewrite (app_comm_cons s), <-E, IH; [by rewrite <-!app_assoc|done|done|done|simpl in *; lia|].
    rewrite length_app, be_put_length. simpl in *. lia.
Qed.

(** * The longest run of zeros *)

Lemma zero_run_spec gs :
  (zero_run gs ≤ length gs)%nat ∧ take (zero_run gs) gs = replicate (zero_run gs) 0.
Proof.
  induction gs as [|g gs [IH1 IH2]]; [done|]. simpl. destruct (Z.eqb_spec g 0) as [-> |]; simpl; [|split; [lia|done]].
  split; [lia|]. by rewrite IH2.
Qed.

Lemma best_run_spec all gs : ∀ i best,
  gs = drop i all →
  (2 ≤ best.2 → best.1 + best.2 ≤ length all ∧ take best.2 (drop best.1 all) = replicate best.2 0%Z)%nat →
  let r := best_run i gs best in
  (2 ≤ r.2 → r.1 + r.2 ≤ length all ∧ take r.2 (drop r.1 all) = replicate r.2 0%Z)%nat.
Proof.
  induction gs as [|g gs IH]; intros i best E Hb; [done|].
  cbn [best_run]. apply IH.
  - assert (Hs : drop 1 (drop i all) = gs) by by rewrite <-E. rewrite drop_drop in Hs.
    by rewrite Nat.add_1_r in Hs.
  - destruct (decide (best.2 < zero_run (g :: gs))%nat); [|done]. intros _. cbn [fst snd].
    destruct (zero_run_spec (g :: gs)) as [H1 H2]. rewrite <-E. split; [|done].
    assert (length (g :: gs) = length all - i)%nat as Hl by by rewrite E, length_drop.
    assert (i < length all)%nat; [|lia]. simpl in Hl. lia.
Qed.

(** The text of an address, as groups. *)
Lemma fmt_v6_cases a :
  length a = 16%nat →
  (fmt_v6 a = fmt_groups (groups_of a) ∨
   ∃ gs hs n, (2 ≤ n)%nat ∧ groups_of a = gs ++ replicate n 0 ++ hs ∧
     fmt_v6 a = fmt_groups gs ++ [colon; colon] ++ fmt_groups hs).
Proof.
  intros Ha. unfold fmt_v6.
  pose proof (best_run_spec (groups_of a) (groups_of a) 0 (0, 1)%nat eq_refl ltac:(simpl; lia)) as Hb.
  destruct (best_run 0 (groups_of a) (0, 1)%nat) as [i n]. cbn [fst snd] in Hb.
  destruct (decide (n < 2)%nat); [by left|right].
  destruct Hb as [Hle Hz]; [lia|].
  exists (take i (groups_of a)), (drop (i + n) (groups_of a)), n. split_and!; [lia| |done].
  rewrite <-Hz, <-drop_drop, take_drop, take_drop. done.
Qed.

(** * The round trip *)

Lemma no_leading_colons gs r :
  Forall group gs → gs ≠ [] → has_prefix (fmt_groups gs ++ r) [colon; colon] = false.
Proof.
  intros Hgs Hne. destruct gs as [|g gs]; [done|]. apply Forall_cons in Hgs as [Hg _].
  destruct (fmt_groups_head g gs Hg) as (c & s & -> & Hc). unfold has_prefix.
  apply bool_decide_eq_false. intros E. simpl in E. injection E as E _.
  by apply hexable_not in Hc as (? & _).
Qed.

Lemma parse_fmt_v6 a : length a = 16%nat → parse_v6 (fmt_v6 a) = Some a.
Proof.
  intros Ha. destruct (groups_of_spec 8 a Ha) as (Hlen & Hgs & Henc).
  destruct (fmt_v6_cases a Ha) as [-> |(gs & hs & n & Hn & E & ->)]; unfold parse_v6.
  - assert (groups_of a ≠ []) as Hne by by intros E; rewrite E in Hlen.
    rewrite <-(app_nil_r (fmt_groups (groups_of a))), no_leading_colons, app_nil_r by done.
    rewrite parse_v6_loop_last by (done || (simpl; lia)). cbn. rewrite Henc, decide_False by lia. done.
  - rewrite E in Hlen, Hgs, Henc. rewrite !length_app, length_replicate in Hlen.
    apply Forall_app in Hgs as [Hgs [_ Hhs]%Forall_app].
    rewrite !enc_app, enc_zeros in Henc.
    set (start := if has_prefix _ _ then _ else _).
    assert (Es : start = Some (enc gs ++ enc hs, Some (length (enc gs)), [])).
    { subst start. destruct gs as [|g gs].
      - assert (has_prefix (fmt_groups [] ++ [colon; colon] ++ fmt_groups hs) [colon; colon] = true)
          as -> by (unfold has_prefix; apply bool_decide_eq_true; done).
        replace (drop 2 (fmt_groups [] ++ [colon; colon] ++ fmt_groups hs)) with (fmt_groups hs) by done.
        destruct hs as [|h hs]; [done|].
        destruct (fmt_groups_head h hs) as (c & s & E' & _); [by apply Forall_cons in Hhs as [? _]|].
        rewrite E', <-E', parse_v6_loop_last by (done || (simpl in *; lia)). done.
      - rewrite no_leading_colons by done.
        rewrite parse_v6_loop_front by (done || (simpl in *; lia)). done. }
    rewrite Es. cbn. rewrite decide_True by (rewrite length_app, !enc_length; lia).
    rewrite take_app_length, drop_app_length, length_app, !enc_length.
    replace (16 - (2 * length gs + 2 * length hs))%nat with (2 * n)%nat by lia. by rewrite Henc.
Qed.

(** The characters of the text. *)
Definition v6_char (c : byte) : Prop := c = colon ∨ hexable c.

Lemma fmt_groups_chars gs : Forall group gs → Forall v6_char (fmt_groups gs).
Proof.
  induction 1 as [|g gs Hg Hgs IH]; [constructor|]. rewrite fmt_groups_cons.
  apply Forall_app. split.
  - eapply Forall_impl; [by apply fmt_x_hexable|]. intros. by right.
  - destruct gs; [constructor|]. constructor; [by left|done].
Qed.

Lemma fmt_v6_chars a : length a = 16%nat → Forall v6_char (fmt_v6 a) ∧ addr_kind (fmt_v6 a) = Some colon.
Proof.
  intros Ha. destruct (groups_of_spec 8 a Ha) as (Hlen & Hgs & _).
  assert (Hkind : ∀ s r, Forall hexable s → addr_kind (s ++ colon :: r) = Some colon).
  { intros s r Hs. rewrite addr_kind_app; [done|]. eapply Forall_impl; [exact Hs|].
    intros c Hc%hexable_not. naive_solver. }
  assert (Hk2 : ∀ g gs, group g → gs ≠ [] → addr_kind (fmt_groups (g :: gs)) = Some colon).
  { intros g gs Hg Hne. rewrite fmt_groups_cons. destruct gs; [done|]. apply Hkind. by apply fmt_x_hexable. }
  destruct (fmt_v6_cases a Ha) as [-> |(gs & hs & n & Hn & E & ->)].
  - split; [by apply fmt_groups_chars|]. destruct (groups_of a) as [|g [|g' gs]]; simplify_eq/=.
    apply Hk2; [by apply Forall_cons in Hgs as [? _]|done].
  - rewrite E in Hgs. apply Forall_app in Hgs as [Hgs [_ Hhs]%Forall_app]. split.
    + repeat (apply Forall_app; split); try by apply fmt_groups_chars.
      repeat constructor; by left.
    + destruct gs as [|g [|g' gs]]; [done| |].
      * rewrite fmt_groups_cons, app_nil_r. apply Hkind. apply fmt_x_hexable.
        by apply Forall_cons in Hgs as [? _].
      * rewrite fmt_groups_cons, <-app_assoc. apply Hkind. apply fmt_x_hexable.
        by apply Forall_cons in Hgs as [? _].
Qed.

Lemma index_byte_none s c : c ∉ s → index_byte s c = -1.
Proof.
  unfold index_byte. generalize 0. induction s as [|x s IH]; intros i Hc; [done|].
  apply not_elem_of_cons in Hc as [Hne Hc]. simpl. rewrite bool_decide_eq_false_2 by congruence. auto.
Qed.

Lemma parse_addr_fmt_v6 a : length a = 16%nat → parse_addr (fmt_v6 a) = Ok (A6 a []).
Proof.
  intros Ha. destruct (fmt_v6_chars a Ha) as [Hc Hk]. unfold parse_addr. rewrite Hk.
  rewrite (bool_decide_eq_false_2 (colon = dot)), (bool_decide_eq_true_2 (colon = colon)) by done.
  rewrite index_byte_none.
  - simpl. by rewrite parse_fmt_v6.
  - intros Hin. rewrite Forall_forall in Hc. destruct (Hc _ Hin) as [|Hx%hexable_not]; [done|naive_solver].
Qed.

(** * Addresses that are not IPv4-mapped *)

Definition proper6 (a : bytes) : Prop := length a = 16%nat ∧ has_prefix a v4_in_v6_prefix = false.

Lemma proper6_string a : proper6 a →
  ip_string a = fmt_v6 a ∧ addr_string (A6 a []) = fmt_v6 a ∧ to16 a = a.
Proof.
  intros [Hl Hp]. unfold ip_string, addr_string, to4, to16. rewrite Hl, Hp.
  rewrite (bool_decide_eq_false_2 (a = [])) by (intros ->; done). done.
Qed.

Lemma proper6_parse a : proper6 a → parse_addr (ip_string a) = Ok (A6 a []).
Proof. intros Ha. rewrite (proj1 (proper6_string a Ha)). apply parse_addr_fmt_v6, Ha. Qed.

(** * Trimming *)

Definition printable (c : byte) : Prop := 33 ≤ byte_to_Z c < 127.

Lemma strip_one_none seqs c s :
  Forall (λ p, match p with x :: _ => ¬ printable x | [] => False end) seqs →
  printable c → strip_one seqs (c :: s) = None.
Proof.
  intros Hs Hc. unfold strip_one.
  enough (filter (λ p, has_prefix (c :: s) p = true) seqs = []) as -> by done.
  induction Hs as [|p seqs Hp _ IH]; [done|]. rewrite filter_cons_False; [done|].
  destruct p as [|x p]; [done|]. unfold has_prefix. rewrite bool_decide_eq_true. simpl.
  intros E. injection E as -> _. done.
Qed.

#[export] Instance printable_dec c : Decision (printable c).
Proof. unfold printable. apply _. Defined.

Lemma strip_fuel_printable seqs n s :
  Forall (λ p, match p with x :: _ => ¬ printable x | [] => False end) seqs →
  Forall printable s → strip_fuel seqs n s = s.
Proof.
  intros Hseqs Hs. destruct n as [|n]; [done|]. simpl. destruct s as [|c s].
  - enough (strip_one seqs [] = None) as -> by done. unfold strip_one.
    enough (filter (λ p, has_prefix [] p = true) seqs = []) as -> by done.
    induction Hseqs as [|p seqs Hp _ IH]; [done|]. rewrite filter_cons_False; [done|].
    by destruct p.
  - apply Forall_cons in Hs as [Hc _]. by rewrite strip_one_none.
Qed.

Lemma trim_printable s : Forall printable s → trim_space s = s.
Proof.
  intros Hs. assert (Hl : trim_left s = s).
  { apply strip_fuel_printable; [|done].
    repeat (constructor; [apply (bool_decide_unpack _); vm_compute; done|]). constructor. }
  unfold trim_space. rewrite Hl. unfold trim_right.
  rewrite strip_fuel_printable; [by rewrite reverse_involutive| |by apply Forall_reverse].
  repeat (constructor; [apply (bool_decide_unpack _); vm_compute; done|]). constructor.
Qed.

Lemma v6_char_printable c : v6_char c → printable c.
Proof.
  intros [-> |[Hh _]]; [apply (bool_decide_unpack _); vm_compute; done|].
  unfold hex_of in Hh. unfold printable. destruct Hh as [d Hd].
  repeat case_match; bools; (lia || done).
Qed.

Lemma fmt_v4_printable a : length a = 4%nat → Forall printable (fmt_v4 a).
Proof.
  intros Ha. assert (Ho : ∀ b, Forall printable (fmt_d (byte_to_Z b))).
  { intros b. apply (bool_decide_unpack _). destruct b; vm_compute; done. }
  assert (Hd : printable dot) by (apply (bool_decide_unpack _); vm_compute; done).
  destruct a as [|a [|b [|c [|d [|? ?]]]]]; simplify_eq/=.
  unfold fmt_v4. cbn [map join]. repeat (apply Forall_app; split); auto.
Qed.

Lemma trim_proper6 a : proper6 a → trim_space (ip_string a) = ip_string a.
Proof.
  intros Ha. rewrite (proj1 (proper6_string a Ha)). apply trim_printable.
  eapply Forall_impl; [apply fmt_v6_chars, Ha|]. apply v6_char_printable.
Qed.
