(* ===== verification/GoPrefix.v ===== *)
(** [netip.Prefix]: masking, membership as arithmetic, and text. *)

From S2P Require Import Prelude.
From S2P Require Import GoBytes.
From S2P Require Import GoStrings.
From S2P Require Import GoNet.
From S2P Require Import GoNet6.

(** [Addr.Is4], [Addr.BitLen] and the number of an address. *)
Definition is4 (a : addr) : bool := match a with A4 _ => true | A6 _ _ => false end.
Definition bit_len (a : addr) : Z := match a with A4 _ => 32 | A6 _ _ => 128 end.
Definition addr_value (a : addr) : Z := be_get (as_slice a).
Definition unzoned (a : addr) : bool := match a with A6 _ (_ :: _) => false | _ => true end.

(** The address of a family with a number. *)
Definition addr_of (v4 : bool) (z : Z) : addr := if v4 then A4 (be_put 4 z) else A6 (be_put 16 z) [].

(** [Prefix.Masked]: the host bits cleared, the zone dropped. *)
Definition prefix_masked (p : prefix) : prefix :=
  let k := bit_len (p_addr p) - p_bits p in
  mkPrefix (addr_of (is4 (p_addr p)) (Z.shiftl (Z.shiftr (addr_value (p_addr p)) k) k)) (p_bits p).

(** * Well-formed values *)

Definition addr_wf (a : addr) : Prop :=
  match a with A4 x => length x = 4%nat | A6 x _ => length x = 16%nat end.
Definition prefix_wf (p : prefix) : Prop :=
  addr_wf (p_addr p) ∧ unzoned (p_addr p) = true ∧ 0 ≤ p_bits p ≤ bit_len (p_addr p).

Lemma parse_addr_wf s a : parse_addr s = Ok a → addr_wf a.
Proof. intros H%parse_addr_length. by destruct a. Qed.

Lemma parse_dec_nonneg s n : parse_dec s = Some n → 0 ≤ n.
Proof.
  unfold parse_dec. destruct s as [|c s]; [done|]. generalize (c :: s) as l. clear.
  assert (Hd : ∀ b d, digit_of b = Some d → 0 ≤ d).
  { intros b d. unfold digit_of. destruct (_ && _) eqn:E; [|done]. bools. intros [= <-]. lia. }
  assert (Hn : ∀ l, foldl (λ acc b, acc ← acc; d ← digit_of b; Some (acc * 10 + d)) None l = None).
  { induction l as [|b l IH]; [done|]. simpl. done. }
  assert (H : ∀ l acc, 0 ≤ acc → foldl (λ acc b, acc ← acc; d ← digit_of b; Some (acc * 10 + d)) (Some acc) l
    = Some n → 0 ≤ n).
  { induction l as [|b l IH]; intros acc Ha; simpl; [by intros [= <-]|].
    destruct (digit_of b) as [d|] eqn:E; simpl; [|by rewrite Hn]. apply Hd in E. apply IH. lia. }
  intros l. apply H. lia.
Qed.

Lemma parse_prefix_wf s p : parse_prefix s = Ok p → prefix_wf p.
Proof.
  unfold parse_prefix. destruct (cut_last s slash) as [[a bits]|]; [|done].
  destruct (parse_addr a) as [ad| |] eqn:Ea; [|done..]. apply parse_addr_wf in Ea.
  destruct (match ad with A6 _ (_ :: _) => true | _ => false end) eqn:Ez; [done|].
  destruct (_ && _); [done|]. destruct (parse_dec bits) as [n|] eqn:En; [|done].
  apply parse_dec_nonneg in En.
  destruct (n <=? (if is6 ad then 128 else 32)) eqn:El; [|done]. bools. intros [= <-].
  unfold prefix_wf. cbn [p_addr p_bits]. split; [done|]. split; [by destruct ad as [|? [|]]|].
  by destruct ad.
Qed.

Lemma addr_value_range a : addr_wf a → 0 ≤ addr_value a < 2 ^ bit_len a.
Proof.
  unfold addr_value. intros Hw. pose proof (be_get_range (as_slice a)).
  destruct a as [x|x z]; simpl in *; rewrite Hw in *; simpl in *; lia.
Qed.

Definition family_bits (v4 : bool) : Z := if v4 then 32 else 128.

Lemma addr_of_spec (v4 : bool) z :
  0 ≤ z < 2 ^ family_bits v4 →
  addr_wf (addr_of v4 z) ∧ is4 (addr_of v4 z) = v4 ∧ addr_value (addr_of v4 z) = z ∧
  unzoned (addr_of v4 z) = true.
Proof.
  unfold addr_value, family_bits. intros Hz. destruct v4; cbn [addr_of addr_wf is4 as_slice unzoned];
    rewrite be_get_put_id by lia; by rewrite be_put_length.
Qed.

Lemma bit_len_is4 a : bit_len a = family_bits (is4 a).
Proof. by destruct a. Qed.

Lemma addr_eq a b :
  addr_wf a → addr_wf b → is4 a = is4 b → unzoned a = true → unzoned b = true →
  addr_value a = addr_value b → a = b.
Proof.
  unfold addr_value. destruct a as [x|x [|]], b as [y|y [|]]; simpl; try done; intros Ha Hb _ _ _ E;
    f_equal; rewrite <-(be_put_get x), <-(be_put_get y), Ha, Hb; by f_equal.
Qed.

(** ** Membership *)

Lemma shiftr_lxor_zero x y k : 0 ≤ k → Z.shiftr (Z.lxor x y) k = 0 ↔ x / 2 ^ k = y / 2 ^ k.
Proof.
  intros Hk. rewrite Z.shiftr_lxor, !Z.shiftr_div_pow2 by done. split.
  - intros E. by apply Z.lxor_eq.
  - intros ->. apply Z.lxor_nilpotent.
Qed.

Definition host_bits (p : prefix) : Z := bit_len (p_addr p) - p_bits p.

Lemma prefix_contains_spec p a :
  prefix_wf p →
  prefix_contains p a = true ↔
    is4 a = is4 (p_addr p) ∧ unzoned a = true ∧
    addr_value a / 2 ^ host_bits p = addr_value (p_addr p) / 2 ^ host_bits p.
Proof.
  intros (Hw & Hz & Hb). unfold prefix_contains, host_bits, addr_value.
  destruct (p_addr p) as [x|x zx]; destruct a as [y|y [|c zy]]; simpl in *;
    try (split; [done|]; by intros (? & ? & ?)).
  - rewrite Z.eqb_eq, shiftr_lxor_zero by lia. intuition congruence.
  - rewrite Z.eqb_eq, shiftr_lxor_zero by lia. intuition congruence.
Qed.

(** The numbers of a prefix are an interval. *)
Definition first_value (p : prefix) : Z := addr_value (p_addr p) / 2 ^ host_bits p * 2 ^ host_bits p.

Lemma prefix_interval p a :
  prefix_wf p → addr_wf a →
  prefix_contains p a = true ↔
    is4 a = is4 (p_addr p) ∧ unzoned a = true ∧
    first_value p ≤ addr_value a < first_value p + 2 ^ host_bits p.
Proof.
  intros Hp Ha. rewrite prefix_contains_spec by done. unfold first_value.
  assert (Hk : 0 < 2 ^ host_bits p).
  { apply Z.pow_pos_nonneg; [done|]. unfold host_bits. destruct Hp as (_ & _ & ?). lia. }
  set (q := addr_value (p_addr p) / 2 ^ host_bits p). set (k := 2 ^ host_bits p) in *.
  pose proof (Z.div_mod (addr_value a) k ltac:(lia)). pose proof (Z.mod_pos_bound (addr_value a) k ltac:(lia)).
  split; intros (H1 & H2 & H3); (split; [done|]; split; [done|]).
  - nia.
  - symmetry. apply (Z.div_unique (addr_value a) k q (addr_value a - q * k)); lia.
Qed.

Lemma first_value_range p :
  prefix_wf p → 0 ≤ first_value p ∧ first_value p + 2 ^ host_bits p ≤ 2 ^ bit_len (p_addr p).
Proof.
  intros (Hw & Hz & Hb). pose proof (addr_value_range _ Hw) as Hr. unfold first_value.
  set (v := addr_value (p_addr p)) in *. set (w := bit_len (p_addr p)) in *. set (h := host_bits p).
  assert (Hh : 0 ≤ h ≤ w) by (unfold h, host_bits, w in *; lia).
  assert (Hk : 0 < 2 ^ h) by (apply Z.pow_pos_nonneg; lia).
  pose proof (Z.div_pos v (2 ^ h) ltac:(lia) ltac:(lia)).
  assert (v / 2 ^ h < 2 ^ (w - h)).
  { apply Z.div_lt_upper_bound; [done|]. rewrite <-Z.pow_add_r by lia. replace (h + (w - h)) with w by lia. lia. }
  split; [nia|]. replace (2 ^ w) with (2 ^ (w - h) * 2 ^ h); [nia|].
  rewrite <-Z.pow_add_r by lia. f_equal. lia.
Qed.

Lemma prefix_masked_spec p :
  prefix_wf p →
  prefix_wf (prefix_masked p) ∧ is4 (p_addr (prefix_masked p)) = is4 (p_addr p) ∧
  p_bits (prefix_masked p) = p_bits p ∧ host_bits (prefix_masked p) = host_bits p ∧
  addr_value (p_addr (prefix_masked p)) = first_value p ∧
  first_value (prefix_masked p) = first_value p.
Proof.
  intros Hp. pose proof Hp as (Hw & Hz & Hb). pose proof (first_value_range p Hp) as [H1 H2].
  assert (Hk : 0 < 2 ^ host_bits p) by (apply Z.pow_pos_nonneg; unfold host_bits; lia).
  unfold prefix_masked. fold (host_bits p).
  rewrite Z.shiftl_mul_pow2, Z.shiftr_div_pow2 by (unfold host_bits; lia). fold (first_value p).
  destruct (addr_of_spec (is4 (p_addr p)) (first_value p)) as (W1 & W2 & W3 & W4).
  { rewrite <-bit_len_is4. lia. }
  unfold prefix_wf. cbn [p_addr p_bits].
  assert (Hbl : bit_len (addr_of (is4 (p_addr p)) (first_value p)) = bit_len (p_addr p)).
  { by rewrite !bit_len_is4, W2. }
  assert (Hh : host_bits (mkPrefix (addr_of (is4 (p_addr p)) (first_value p)) (p_bits p)) = host_bits p).
  { unfold host_bits. cbn [p_addr p_bits]. by rewrite Hbl. }
  rewrite Hbl. split_and!; try done; try lia. unfold first_value at 1. rewrite Hh. cbn [p_addr]. rewrite W3.
  unfold first_value. by rewrite Z.div_mul by lia.
Qed.

(** Masking does not change what a prefix contains. *)
Lemma masked_contains p a :
  prefix_wf p → addr_wf a → prefix_contains (prefix_masked p) a = prefix_contains p a.
Proof.
  intros Hp Ha. destruct (prefix_masked_spec p Hp) as (Hm & H4 & _ & Hh & _ & Hf).
  apply eq_iff_eq_true. rewrite !prefix_interval by done. by rewrite H4, Hh, Hf.
Qed.

Lemma prefix_masked_idemp p : prefix_wf p → prefix_masked (prefix_masked p) = prefix_masked p.
Proof.
  intros Hp. destruct (prefix_masked_spec p Hp) as (Hm & H4 & Hb & Hh & Hv & Hf).
  destruct (prefix_masked_spec _ Hm) as (Hm' & H4' & Hb' & Hh' & Hv' & Hf').
  destruct (prefix_masked (prefix_masked p)) as [a b], (prefix_masked p) as [a' b'].
  cbn [p_addr p_bits] in *. f_equal; [|congruence].
  destruct Hm' as (? & ? & _), Hm as (? & ? & _). cbn [p_addr] in *. apply addr_eq; congruence.
Qed.

(** * Text *)

Lemma octet_scan b r :
  ∃ acc off, scan_hex (fmt_d (byte_to_Z b) ++ dot :: r) 0 0 = Some (acc, off, dot :: r) ∧ off ≠ 0%nat.
Proof. destruct b; eexists _, _; (split; [reflexivity|done]). Qed.

Lemma fmt_v4_cons x y r :
  fmt_v4 (x :: y :: r) = fmt_d (byte_to_Z x) ++ dot :: fmt_v4 (y :: r).
Proof. done. Qed.

(** A dotted decimal behind hexadecimal groups. *)
Lemma parse_v6_loop_v4 fuel out ell x :
  length x = 4%nat → (length out ≤ 12)%nat → (ell = None → length out = 12%nat) →
  parse_v6_loop (S fuel) out ell (fmt_v4 x) = Some (out ++ x, ell, []).
Proof.
  intros Hx Hout Hell. cbn [parse_v6_loop]. rewrite decide_False by lia.
  pose proof (parse_fmt_v4 x Hx) as Hp.
  destruct x as [|a [|b [|c [|d [|? ?]]]]]; try (simpl in Hx; lia).
  destruct (octet_scan a (fmt_v4 [b; c; d])) as (acc & off & E & Hoff).
  rewrite fmt_v4_cons in Hp |- *. rewrite E. cbn [mbind option_bind]. rewrite decide_False by done.
  rewrite (bool_decide_eq_true_2 (dot = dot)) by done. rewrite Hp.
  rewrite (bool_decide_eq_false_2 (16 < length out + 4)%nat) by lia. rewrite orb_false_r.
  case_bool_decide as He; cbn [andb]; [|done]. rewrite (bool_decide_eq_true_2 (length out = 12%nat)); [done|auto].
Qed.

Lemma digit_head b : ∃ c s, fmt_d (byte_to_Z b) = c :: s ∧ c ≠ colon.
Proof. destruct b; eexists _, _; (split; [reflexivity|done]). Qed.

Lemma fmt_v4_percent x : length x = 4%nat → percent ∉ fmt_v4 x.
Proof.
  intros Hx Hin. assert (Hd : ∀ b, percent ∉ fmt_d (byte_to_Z b)).
  { intros e. apply (bool_decide_unpack _). destruct e; vm_compute; done. }
  destruct x as [|a [|b [|c [|d [|? ?]]]]]; try (simpl in Hx; lia).
  rewrite !fmt_v4_cons in Hin. change (fmt_v4 [d]) with (fmt_d (byte_to_Z d)) in Hin.
  repeat (rewrite elem_of_app in Hin || rewrite elem_of_cons in Hin).
  destruct Hin as [?|[?|[?|[?|[?|[?|?]]]]]]; first [match goal with H : percent ∈ _ |- _ => exact (Hd _ H) end|done].
Qed.

Lemma colon_text : percent ∉ bs "::ffff:".
Proof. apply (bool_decide_unpack _). vm_compute. done. Qed.

(** The text of an IPv4-mapped address. *)
Lemma parse_mapped x :
  length x = 4%nat → parse_addr (bs "::ffff:" ++ fmt_v4 x) = Ok (A6 (v4_in_v6_prefix ++ x) []).
Proof.
  intros Hx. unfold parse_addr.
  change (addr_kind (bs "::ffff:" ++ fmt_v4 x)) with (Some colon). cbv beta iota.
  rewrite (bool_decide_eq_false_2 (colon = dot)), (bool_decide_eq_true_2 (colon = colon)) by done.
  rewrite index_byte_none.
  2:{ intros [Hin|Hin]%elem_of_app; [by apply colon_text in Hin|].
      by apply fmt_v4_percent in Hin. }
  cbn [Z.ltb Z.compare]. unfold parse_v6.
  change (has_prefix (bs "::ffff:" ++ fmt_v4 x) [colon; colon]) with true.
  change (drop 2 (bs "::ffff:" ++ fmt_v4 x)) with (bs "ffff:" ++ fmt_v4 x). cbv iota.
  change (bs "ffff:" ++ fmt_v4 x) with (fmt_x 65535 ++ colon :: fmt_v4 x).
  destruct (fmt_x 65535 ++ colon :: fmt_v4 x) as [|c0 l0] eqn:E0; [done|]. rewrite <-E0. clear c0 l0 E0.
  rewrite (parse_v6_loop_group 7) by (done || simpl; lia).
  assert (∃ c s, fmt_v4 x = c :: s ∧ c ≠ colon) as (c & s & E & Hc).
  { destruct x as [|a [|b [|c [|d [|? ?]]]]]; try (simpl in Hx; lia). rewrite fmt_v4_cons.
    destruct (digit_head a) as (c0 & s & -> & ?). by eexists c0, _. }
  rewrite E, bool_decide_eq_false_2 by done. rewrite <-E.
  rewrite parse_v6_loop_v4; [|done|rewrite length_app, be_put_length; simpl; lia|done].
  cbn [mbind option_bind]. rewrite bool_decide_eq_false_2 by (intros Hne; by destruct Hne).
  rewrite decide_True by (rewrite !length_app, be_put_length, Hx; simpl; lia).
  cbn [mbind option_bind]. rewrite take_0, drop_0. cbn [app].
  rewrite !length_app, be_put_length, Hx. done.
Qed.

(** An address without a zone survives printing and parsing. *)
Lemma parse_addr_string a : addr_wf a → unzoned a = true → parse_addr (addr_string a) = Ok a.
Proof.
  destruct a as [x|x [|]]; simpl; intros Hw Hz; [by apply parse_addr_fmt_v4| |done].
  destruct (has_prefix x v4_in_v6_prefix) eqn:Hp.
  - apply has_prefix_spec in Hp as [r ->].
    rewrite length_app in Hw. change (length v4_in_v6_prefix) with 12%nat in Hw.
    replace (drop 12 (v4_in_v6_prefix ++ r)) with r by (symmetry; by apply (drop_app_length' v4_in_v6_prefix)).
    apply parse_mapped. lia.
  - by apply parse_addr_fmt_v6.
Qed.

Lemma cut_last_app s c r : c ∉ r → cut_last (s ++ c :: r) c = Some (s, r).
Proof.
  intros Hc. assert (Hn : cut_last r c = None).
  { clear s. induction r as [|x r IH]; [done|]. apply not_elem_of_cons in Hc as [Hne Hc]. simpl.
    rewrite IH by done. by rewrite bool_decide_eq_false_2 by congruence. }
  induction s as [|x s IH]; simpl; [|by rewrite IH]. rewrite Hn. by rewrite bool_decide_eq_true_2.
Qed.

(** The decimal of a prefix length. *)
Lemma bits_text n :
  0 ≤ n ≤ 128 →
  slash ∉ fmt_d n ∧ parse_dec (fmt_d n) = Some n ∧
  (1 <? zlen (fmt_d n)) && bool_decide (hd_error (fmt_d n) = Some (byte_of_Z 48)) = false.
Proof.
  intros Hn.
  assert (F : forallb (λ k, let n := Z.of_nat k in
    bool_decide (slash ∉ fmt_d n ∧ parse_dec (fmt_d n) = Some n ∧
     (1 <? zlen (fmt_d n)) && bool_decide (hd_error (fmt_d n) = Some (byte_of_Z 48)) = false))
    (seq 0 129) = true) by (vm_compute; reflexivity).
  rewrite forallb_forall in F. specialize (F (Z.to_nat n)). rewrite in_seq in F.
  specialize (F ltac:(lia)). apply bool_decide_eq_true in F. by rewrite Z2Nat.id in F by lia.
Qed.

Lemma parse_prefix_string p : prefix_wf p → parse_prefix (prefix_string p) = Ok p.
Proof.
  intros (Hw & Hz & Hb). assert (0 ≤ p_bits p ≤ 128) as Hb' by (destruct (p_addr p); simpl in Hb; lia).
  destruct (bits_text _ Hb') as (Hs & Hd & Hl). unfold parse_prefix, prefix_string.
  rewrite cut_last_app by done. rewrite parse_addr_string by done.
  assert ((match p_addr p with A6 _ (_ :: _) => true | _ => false end) = false) as ->
    by (destruct (p_addr p) as [|? []]; done).
  rewrite Hl, Hd.
  assert (p_bits p <=? (if is6 (p_addr p) then 128 else 32) = true) as ->.
  { apply Z.leb_le. destruct (p_addr p); simpl in *; lia. }
  by destruct p.
Qed.

(** The text of a prefix has no space. *)
Lemma fmt_d_printable n : 0 ≤ n ≤ 128 → Forall printable (fmt_d n).
Proof.
  intros Hn. assert (F : forallb (λ k, bool_decide (Forall printable (fmt_d (Z.of_nat k)))) (seq 0 129) = true)
    by (vm_compute; reflexivity).
  rewrite forallb_forall in F. specialize (F (Z.to_nat n)). rewrite in_seq in F.
  specialize (F ltac:(lia)). apply bool_decide_eq_true in F. by rewrite Z2Nat.id in F by lia.
Qed.

Lemma addr_string_printable a : addr_wf a → unzoned a = true → Forall printable (addr_string a).
Proof.
  intros Ha Hz. destruct a as [x|x [|]]; [by apply fmt_v4_printable| |done]. unfold addr_string.
  rewrite bool_decide_eq_true_2 by done. destruct (has_prefix x v4_in_v6_prefix).
  - apply Forall_app. split; [apply (bool_decide_unpack _); vm_compute; done|].
    apply fmt_v4_printable. simpl in Ha. by rewrite length_drop, Ha.
  - eapply Forall_impl; [by apply fmt_v6_chars|apply v6_char_printable].
Qed.

Lemma trim_prefix_string p : prefix_wf p → trim_space (prefix_string p) = prefix_string p.
Proof.
  intros (Hw & Hz & Hb). apply trim_printable. unfold prefix_string. apply Forall_app. split.
  - by apply addr_string_printable.
  - constructor; [apply (bool_decide_unpack _); vm_compute; done|].
    apply fmt_d_printable. destruct (p_addr p); simpl in Hb; lia.
Qed.
