(* ===== verification/GoPort.v ===== *)
(** Hardware addresses, ports and file paths as texts.

    [net.ParseMAC]: 6, 8 or 20 bytes in hexadecimal, separated by colons or
    hyphens, or in groups of four digits separated by dots. *)

From S2P Require Import Prelude.
From S2P Require Import GoBytes.
From S2P Require Import GoStrings.
From S2P Require Import GoNet.

Definition hyphen : byte := byte_of_Z 45.

(** [xtoi2]: two digits, and the byte behind them when one is expected. *)
Definition xtoi2 (s : bytes) (e : option byte) : option byte :=
  match s, e with
  | a :: b :: rest, e =>
      if match e with None => true | Some c => bool_decide (hd_error rest = Some c) end then
        x ← hex_of a; y ← hex_of b; Some (byte_of_Z (x * 16 + y))
      else None
  | _, _ => None
  end.

(** [n] pairs of digits, [sep] between them. *)
Fixpoint mac_pairs (n : nat) (sep : byte) (s : bytes) : option bytes :=
  match n with
  | O => Some []
  | 1%nat => b ← xtoi2 s None; Some [b]
  | S n' => b ← xtoi2 s (Some sep); r ← mac_pairs n' sep (drop 3 s); Some (b :: r)
  end.

(** [n] groups of four digits with dots. *)
Fixpoint mac_groups (n : nat) (s : bytes) : option bytes :=
  match n with
  | O => Some []
  | 1%nat => a ← xtoi2 s None; b ← xtoi2 (drop 2 s) None; Some [a; b]
  | S n' =>
      a ← xtoi2 s None; b ← xtoi2 (drop 2 s) (Some dot); r ← mac_groups n' (drop 5 s); Some (a :: b :: r)
  end.

Definition parse_mac (s : bytes) : option bytes :=
  if zlen s <? 14 then None
  else
    match s !! 2%nat, s !! 4%nat with
    | Some c2, Some c4 =>
        if bool_decide (c2 = colon) || bool_decide (c2 = hyphen) then
          if negb ((zlen s + 1) mod 3 =? 0) then None
          else
            let n := (zlen s + 1) / 3 in
            if negb (bool_decide (n ∈ [6; 8; 20])) then None
            else mac_pairs (Z.to_nat n) c2 s
        else if bool_decide (c4 = dot) then
          if negb ((zlen s + 1) mod 5 =? 0) then None
          else
            let n := 2 * (zlen s + 1) / 5 in
            if negb (bool_decide (n ∈ [6; 8; 20])) then None
            else mac_groups (Z.to_nat (n / 2)) s
        else None
    | _, _ => None
    end.

(** [net.SplitHostPort] and [net.LookupPort].

    Ports with a name are looked up in the service files of the host: that part
    is an argument. *)

(** [net.SplitHostPort] *)
Definition split_host_port (s : bytes) : option (bytes * bytes) :=
  let open := byte_of_Z 91 in
  let close := byte_of_Z 93 in
  match cut_last s colon with
  | None => None
  | Some (before, port) =>
      if bool_decide (hd_error s = Some open) then
        let end_ := index_byte s close in
        if (end_ <? 0) || negb (end_ + 1 =? zlen before) then None
        else
          let host := take (Z.to_nat (end_ - 1)) (drop 1 s) in
          if bool_decide (open ∈ drop 1 s) || bool_decide (close ∈ drop (Z.to_nat (end_ + 1)) s) then None
          else Some (host, port)
      else if bool_decide (colon ∈ before) || bool_decide (open ∈ s) || bool_decide (close ∈ s) then None
      else Some (before, port)
  end.

(** [parsePort]: a decimal with a sign, whose overflow is that of the code, or a
    name. *)
Definition port_cutoff : Z := 2 ^ 30.

Fixpoint port_digits (n : Z) (s : bytes) : option Z :=
  match s with
  | [] => Some n
  | b :: s =>
      match digit_of b with
      | None => None
      | Some d =>
          if port_cutoff <=? n then Some (2 ^ 32 - 1)
          else
            let n := u32 (n * 10) in
            let nn := u32 (n + d) in
            if nn <? n then Some (2 ^ 32 - 1) else port_digits nn s
      end
  end.

Definition parse_port (service : bytes) : option Z :=
  let signed (neg : bool) (s : bytes) : option Z :=
    n ← port_digits 0 s;
    let port := if negb neg && (port_cutoff <=? n) then port_cutoff - 1
                else if neg && (port_cutoff <? n) then port_cutoff else n in
    Some (if neg then - port else port) in
  match service with
  | [] => Some 0
  | c :: s =>
      if bool_decide (c = byte_of_Z 43) then signed false s
      else if bool_decide (c = byte_of_Z 45) then signed true s
      else signed false service
  end.

(** The ports of named services. *)
Class Services := { service_port : bytes → option Z }.

(** [net.LookupPort("tcp", service)] *)
Definition lookup_port `{Services} (service : bytes) : result Z :=
  let port := match parse_port service with Some p => Some p | None => service_port service end in
  match port with
  | None => Err (errorNew "unknown port")
  | Some p => if (p <? 0) || (65535 <? p) then Err (errorNew "invalid port") else Ok p
  end.

(** No named services: the instance of the witnesses. *)
Definition no_services : Services := {| service_port := λ _, None |}.

(** * [path.Clean], [filepath.Clean] and [filepath.Join] on Unix *)

(** [Clean] of a rooted path, by its segments, and its text. *)
Definition dot_dot : bytes := bs "..".
Definition clean_segment (acc : list bytes) (s : bytes) : list bytes :=
  if bool_decide (s = [] ∨ s = [dot]) then acc
  else if bool_decide (s = dot_dot) then removelast acc else acc ++ [s].
Definition clean_from (base : list bytes) (path : bytes) : list bytes := foldl clean_segment base (split_byte path slash).
Definition path_text (segments : list bytes) : bytes := slash :: join segments [slash].

(** [filepath.Clean] of any path, and [filepath.Join] of two. *)
Definition clean_relative (acc : list bytes) (s : bytes) : list bytes :=
  if bool_decide (s = [] ∨ s = [dot]) then acc
  else if bool_decide (s = dot_dot) && negb (bool_decide (acc = [] ∨ last acc = Some dot_dot)) then removelast acc else acc ++ [s].
Definition clean_path (path : bytes) : bytes :=
  match path with
  | c :: _ =>
      if bool_decide (c = slash) then path_text (clean_from [] path)
      else match foldl clean_relative [] (split_byte path slash) with [] => [dot] | l => join l [slash] end
  | [] => [dot]
  end.
Definition join_path (dir name : bytes) : bytes := if bool_decide (dir = []) then clean_path name else clean_path (dir ++ slash :: name).

(** What a segment of a clean path is. *)
Definition segment (s : bytes) : Prop := s ≠ [] ∧ s ≠ [dot] ∧ s ≠ dot_dot ∧ slash ∉ s.

Lemma split_segments path : Forall (λ s, slash ∉ s) (split_byte path slash).
Proof.
  induction path as [|c path IH]; cbn; [by constructor; [apply not_elem_of_nil|]|].
  destruct (split_byte path slash) as [|s l] eqn:El.
  - exfalso. clear -El. destruct path; cbn in El; [done|]. destruct (split_byte path slash); [done|]. by case_bool_decide.
  - rewrite Forall_cons in *. destruct IH as [Hs Hl]. case_bool_decide as E; rewrite ?Forall_cons.
    + split_and!; [apply not_elem_of_nil|done..].
    + split; [|done]. rewrite not_elem_of_cons. split; [congruence|done].
Qed.
Lemma removelast_segments l : Forall segment l → Forall segment (removelast l).
Proof.
  intros Hl. destruct (decide (l = [])) as [->|Hne]; [done|].
  rewrite (app_removelast_last [] Hne) in Hl. by apply Forall_app in Hl as [? _].
Qed.
Lemma clean_from_segments base path : Forall segment base → Forall segment (clean_from base path).
Proof.
  unfold clean_from. pose proof (split_segments path) as Hs. revert base. induction Hs as [|s l Hs _ IH]; intros base Hb; [done|].
  cbn. apply IH. unfold clean_segment. case_bool_decide as E1; [done|]. case_bool_decide as E2; [by apply removelast_segments|].
  apply Forall_app. split; [done|]. repeat constructor; tauto.
Qed.

Lemma split_join (ps : list bytes) c : ps ≠ [] → Forall (λ p, c ∉ p) ps → split_byte (join ps [c]) c = ps.
Proof.
  intros Hne Hps. induction Hps as [|p ps Hp Hps IH]; [done|]. destruct ps as [|q ps]; [by apply split_byte_none|].
  change (join (p :: q :: ps) [c]) with (p ++ c :: join (q :: ps) [c]). rewrite split_byte_app by done. by rewrite IH.
Qed.
Lemma split_byte_mid s r : split_byte (s ++ slash :: r) slash = split_byte s slash ++ split_byte r slash.
Proof.
  induction s as [|c s IH]; [exact (split_byte_app [] slash r (not_elem_of_nil _))|].
  - cbn [app split_byte]. rewrite IH.
    destruct (split_byte s slash) as [|l ls] eqn:E; [|cbn; by case_bool_decide].
    exfalso. clear -E. destruct s; cbn in E; [done|]. destruct (split_byte s slash); [done|]. by case_bool_decide.
Qed.

(** A clean relative path: segments, some of them going up. *)
Definition relative_segment (s : bytes) : Prop := s ≠ [] ∧ s ≠ [dot] ∧ slash ∉ s.
Lemma clean_relative_step cwd acc s :
  Forall relative_segment acc → slash ∉ s →
  Forall relative_segment (clean_relative acc s) ∧
  foldl clean_segment cwd (clean_relative acc s) = clean_segment (foldl clean_segment cwd acc) s.
Proof.
  intros Ha Hs. unfold clean_relative. case_bool_decide as E1; [unfold clean_segment; by rewrite (bool_decide_eq_true_2 (s = [] ∨ _))|].
  assert (Hsnoc : Forall relative_segment (acc ++ [s]) ∧
    foldl clean_segment cwd (acc ++ [s]) = clean_segment (foldl clean_segment cwd acc) s).
  { split; [|by rewrite foldl_app]. apply Forall_app. split; [done|]. repeat constructor; tauto. }
  destruct (bool_decide (s = dot_dot)) eqn:E2; [|done]. apply bool_decide_eq_true in E2. cbn [andb].
  case_bool_decide as E3; [done|]. cbn [negb]. destruct (decide (acc = [])) as [|Hne]; [tauto|].
  destruct (exists_last Hne) as (acc' & t & ->). rewrite removelast_last. apply Forall_app in Ha as [Ha Ht].
  split; [done|]. rewrite foldl_app. cbn. apply Forall_cons in Ht as [(H1 & H2 & H3) _].
  rewrite last_snoc in E3. unfold clean_segment at 2 3. rewrite (bool_decide_eq_false_2 (s = [] ∨ _)), (bool_decide_eq_true_2 (s = _)) by done.
  rewrite (bool_decide_eq_false_2 (t = [] ∨ _)) by tauto. rewrite (bool_decide_eq_false_2 (t = dot_dot)) by (intros ->; tauto).
  by rewrite removelast_last.
Qed.
Lemma clean_relative_spec cwd acc l :
  Forall relative_segment acc → Forall (λ s, slash ∉ s) l →
  Forall relative_segment (foldl clean_relative acc l) ∧
  foldl clean_segment cwd (foldl clean_relative acc l) = foldl clean_segment (foldl clean_segment cwd acc) l.
Proof.
  intros Ha Hl. revert acc Ha. induction Hl as [|s l Hs _ IH]; intros acc Ha; [done|]. cbn.
  destruct (clean_relative_step cwd acc s Ha Hs) as [Hr <-]. by apply IH.
Qed.
Lemma clean_segments_id base l : Forall segment l → foldl clean_segment base l = base ++ l.
Proof.
  intros Hl. revert base. induction Hl as [|s l (H1 & H2 & H3 & _) _ IH]; intros base; [by rewrite app_nil_r|].
  cbn. rewrite IH. unfold clean_segment. rewrite (bool_decide_eq_false_2 (s = [] ∨ _)), (bool_decide_eq_false_2 (s = dot_dot)) by tauto.
  by rewrite <-app_assoc.
Qed.

(** [filepath.Abs] in the directory [cwd] forgets that a path was cleaned. *)
Definition abs_path (cwd : list bytes) (path : bytes) : list bytes :=
  match path with c :: _ => if bool_decide (c = slash) then clean_from [] path else clean_from cwd path | [] => cwd end.
Lemma abs_segments cwd path : Forall segment cwd → Forall segment (abs_path cwd path).
Proof.
  intros Hc. unfold abs_path. destruct path as [|c path]; [done|]. case_bool_decide; by apply clean_from_segments.
Qed.
Lemma abs_path_text cwd l : Forall segment l → abs_path cwd (path_text l) = l.
Proof.
  intros Hl. unfold path_text. cbn [abs_path]. rewrite bool_decide_eq_true_2 by done.
  unfold clean_from. destruct (decide (l = [])) as [->|Hne]; [done|].
  change (slash :: join l [slash]) with ([] ++ slash :: join l [slash]). rewrite split_byte_mid, split_join, foldl_app; [|done|].
  - cbn. by rewrite clean_segments_id.
  - eapply Forall_impl; [exact Hl|]. by intros s (_ & _ & _ & ?).
Qed.
Lemma abs_clean cwd path : abs_path cwd (clean_path path) = abs_path cwd path.
Proof.
  destruct path as [|c path]; [by cbv -[bool_decide]|]. unfold clean_path. cbn [abs_path]. case_bool_decide as E.
  - by rewrite abs_path_text by (by apply clean_from_segments).
  - unfold clean_from. pose proof (split_segments (c :: path)) as Hp. set (segs := split_byte (c :: path) slash) in *. clearbody segs.
    destruct (clean_relative_spec cwd [] segs (Forall_nil_2 _) Hp) as [Hr Hc]. cbn [foldl] in Hc.
    destruct (foldl clean_relative [] segs) as [|t l] eqn:El; [by rewrite <-Hc|].
    assert (Hj : split_byte (join (t :: l) [slash]) slash = t :: l).
    { apply split_join; [done|]. eapply Forall_impl; [exact Hr|]. by intros s (_ & _ & ?). }
    apply Forall_cons in Hr as [(Ht & _ & Hs) _].
    destruct (join (t :: l) [slash]) as [|x y] eqn:Ej; [cbn in Hj; congruence|]. cbn [abs_path].
    rewrite bool_decide_eq_false_2; [unfold clean_from; by rewrite Hj|]. intros ->. clear El Hc.
    destruct t as [|x' t]; [done|]. destruct l; cbn in Ej; injection Ej as -> _; by apply Hs; left.
Qed.
(** A plain name in a directory. *)
Lemma abs_join cwd dir name : dir ≠ [] → segment name → abs_path cwd (join_path dir name) = abs_path cwd dir ++ [name].
Proof.
  intros Hd Hn. unfold join_path. rewrite bool_decide_eq_false_2 by done. rewrite abs_clean.
  assert (Hf : ∀ base, clean_from base (dir ++ slash :: name) = clean_from base dir ++ [name]).
  { intros base. unfold clean_from. rewrite split_byte_mid, foldl_app, (split_byte_none name) by apply Hn.
    by rewrite clean_segments_id by (repeat constructor; apply Hn). }
  destruct dir as [|c dir]; [done|]. cbn [abs_path app]. case_bool_decide; apply Hf.
Qed.
