(* ===== verification/GoSort.v ===== *)
(** [sort.Slice].

    The algorithm of the library is not stable and its order of equal elements is
    not documented, so it is an interface: whatever the comparison, the result is
    a permutation, and when the comparison is a strict weak order the result is
    sorted.  Insertion sort, which the library runs on short slices, is an
    instance. *)

From S2P Require Import Prelude.
From S2P Require Import GoBytes.

(** [less] is irreflexive and transitive, and so is being incomparable. *)
Record weak_order {A} (less : A → A → bool) : Prop := {
  wo_irrefl x : less x x = false;
  wo_trans x y z : less x y = true → less y z = true → less x z = true;
  wo_total x y z : less y x = false → less z y = false → less z x = false;
}.

Class SliceSort := {
  sort_slice {A} : (A → A → bool) → list A → list A;
  sort_slice_perm {A} (less : A → A → bool) l : sort_slice less l ≡ₚ l;
  sort_slice_sorted {A} (less : A → A → bool) l :
    weak_order less → StronglySorted (λ x y, less y x = false) (sort_slice less l);
}.

(** Go's [<] on strings. *)
Definition bytes_ltb (a b : bytes) : bool := bool_decide (bytes_lt a b).

(** An order through a key. *)
Lemma weak_order_key {A B} (f : A → B) less :
  weak_order less → weak_order (λ x y, less (f x) (f y)).
Proof. intros [H1 H2 H3]. split; eauto. Qed.

(** * Insertion sort *)

Section insertion.
Context {A : Type} (less : A → A → bool).

(** The new element moves to the front past the elements it is less than. *)
Fixpoint insert_back (x : A) (sorted : list A) : list A :=
  match sorted with
  | [] => [x]
  | y :: ys => if less x y then x :: y :: ys else y :: insert_back x ys
  end.

Definition insertion_sort (l : list A) : list A := foldl (λ acc x, insert_back x acc) [] l.

Lemma insert_back_perm x l : insert_back x l ≡ₚ x :: l.
Proof.
  induction l as [|y l IH]; [done|]. simpl. destruct (less x y); [done|].
  rewrite IH. apply Permutation_swap.
Qed.

Lemma insertion_sort_perm l : insertion_sort l ≡ₚ l.
Proof.
  unfold insertion_sort. rewrite <-(app_nil_r l) at 2. generalize (@nil A) as acc.
  induction l as [|x l IH]; intros acc; [done|]. simpl. rewrite IH, insert_back_perm.
  by rewrite Permutation_middle.
Qed.

Lemma insert_back_sorted x l :
  weak_order less → StronglySorted (λ x y, less y x = false) l →
  StronglySorted (λ x y, less y x = false) (insert_back x l).
Proof.
  intros Hw Hs. induction Hs as [|y l Hs IH Hy]; [repeat constructor|]. simpl.
  assert (Hasym : ∀ a b, less a b = true → less b a = false).
  { intros a b Hab. destruct (less b a) eqn:E; [|done].
    pose proof (wo_trans _ Hw _ _ _ Hab E). by rewrite (wo_irrefl _ Hw) in *. }
  destruct (less x y) eqn:E.
  - constructor; [by constructor|]. constructor; [by apply Hasym|].
    eapply Forall_impl; [exact Hy|]. intros z Hz. simpl.
    eapply (wo_total _ Hw); [|exact Hz]. by apply Hasym.
  - constructor; [done|]. rewrite insert_back_perm. by constructor.
Qed.

Lemma insertion_sort_sorted l :
  weak_order less → StronglySorted (λ x y, less y x = false) (insertion_sort l).
Proof.
  intros Hw. unfold insertion_sort. assert (StronglySorted (λ x y, less y x = false) (@nil A)) as Hs by constructor.
  revert Hs. generalize (@nil A) as acc. induction l as [|x l IH]; intros acc Hs; [done|]. simpl.
  apply IH. by apply insert_back_sorted.
Qed.
End insertion.

Definition small_slices : SliceSort := {|
  sort_slice := @insertion_sort;
  sort_slice_perm := @insertion_sort_perm;
  sort_slice_sorted := @insertion_sort_sorted;
|}.

Section facts.
Context `{SliceSort}.

Lemma elem_of_sort_slice {A} (less : A → A → bool) l x : x ∈ sort_slice less l ↔ x ∈ l.
Proof. by rewrite sort_slice_perm. Qed.
End facts.

(** The order in which a loop ranges over a map is not specified: it is any order
    of the rows. *)
Class MapRange := {
  range_map {A} : gmap bytes A → list (bytes * A);
  range_map_perm {A} (m : gmap bytes A) : range_map m ≡ₚ map_to_list m;
}.
Definition range_keys `{MapRange} {A} (m : gmap bytes A) : list bytes := (range_map m).*1.
Definition listed_range : MapRange := {|
  range_map A m := map_to_list m;
  range_map_perm A m := Permutation_refl (map_to_list m);
|}.

Lemma elem_of_range_map `{MapRange} {A} (m : gmap _ A) k a : (k, a) ∈ range_map m ↔ m !! k = Some a.
Proof. rewrite range_map_perm. apply elem_of_map_to_list. Qed.
Lemma NoDup_range_keys `{MapRange} {A} (m : gmap _ A) : NoDup (range_keys m).
Proof. unfold range_keys. rewrite range_map_perm. apply NoDup_fst_map_to_list. Qed.
Lemma elem_of_range_keys `{MapRange} {A} (m : gmap _ A) k : k ∈ range_keys m ↔ is_Some (m !! k).
Proof.
  unfold range_keys. rewrite list_elem_of_fmap. split.
  - intros ([k' a] & -> & Hin%elem_of_range_map). by exists a.
  - intros [a Ha]. exists (k, a). by rewrite elem_of_range_map.
Qed.
