(* ===== verification/GoParse.v ===== *)
(** [strconv.ParseBool], [strconv.ParseInt] and [time.ParseDuration]. *)

From S2P Require Import Prelude.
From S2P Require Import GoBytes.
From S2P Require Import GoStrings.
From S2P Require Import GoTime.
From S2P Require Import GoNet.

Definition parse_bool (s : bytes) : option bool :=
  if bool_decide (s ∈ map bs ["1"; "t"; "T"; "TRUE"; "true"; "True"]%string) then Some true
  else if bool_decide (s ∈ map bs ["0"; "f"; "F"; "FALSE"; "false"; "False"]%string) then Some false
  else None.

Definition plus : byte := byte_of_Z 43.
Definition minus : byte := byte_of_Z 45.

(** The sign of a number, and the rest. *)
Definition take_sign (s : bytes) : bool * bytes :=
  match s with
  | c :: r => if bool_decide (c = minus) then (true, r)
              else if bool_decide (c = plus) then (false, r) else (false, s)
  | [] => (false, s)
  end.

(** [ParseInt(s, 10, 64)] *)
Definition parse_int (s : bytes) : option Z :=
  let '(neg, digits) := take_sign s in
  n ← parse_dec digits;
  if neg then (if n <=? 2 ^ 63 then Some (- n) else None)
  else (if n <? 2 ^ 63 then Some n else None).

(** * Durations *)

Definition unit_of (u : bytes) : option Z :=
  if bool_decide (u = bs "ns") then Some 1
  else if bool_decide (u ∈ [bs "us"; map byte_of_Z [194; 181; 115]; map byte_of_Z [206; 188; 115]]) then Some 1000
  else if bool_decide (u = bs "ms") then Some 1000000
  else if bool_decide (u = bs "s") then Some second
  else if bool_decide (u = bs "m") then Some minute
  else if bool_decide (u = bs "h") then Some hour
  else None.

(** [leadingInt]; none on overflow. *)
Fixpoint leading_int (x : Z) (s : bytes) : option (Z * bytes) :=
  match s with
  | c :: r =>
      match digit_of c with
      | None => Some (x, s)
      | Some d =>
          if 2 ^ 63 / 10 <? x then None
          else if 2 ^ 63 <? x * 10 + d then None
          else leading_int (x * 10 + d) r
      end
  | [] => Some (x, s)
  end.

(** [leadingFraction]: digits that would overflow are dropped. *)
Fixpoint leading_fraction (x scale : Z) (overflow : bool) (s : bytes) : Z * Z * bytes :=
  match s with
  | c :: r =>
      match digit_of c with
      | None => (x, scale, s)
      | Some d =>
          if overflow then leading_fraction x scale true r
          else if (2 ^ 63 - 1) / 10 <? x then leading_fraction x scale true r
          else if 2 ^ 63 <? x * 10 + d then leading_fraction x scale true r
          else leading_fraction (x * 10 + d) (scale * 10) false r
      end
  | [] => (x, scale, s)
  end.

(** The unit: all up to the next number. *)
Fixpoint span_unit (s : bytes) : bytes * bytes :=
  match s with
  | c :: r =>
      if bool_decide (c = dot) || bool_decide (is_Some (digit_of c)) then ([], s)
      else let '(u, rest) := span_unit r in (c :: u, rest)
  | [] => ([], [])
  end.

(** The loop of [ParseDuration]: each turn consumes its unit. *)
Fixpoint duration_loop (fuel : nat) (d : Z) (s : bytes) : option Z :=
  match s with
  | [] => Some d
  | c :: _ =>
      match fuel with
      | O => None
      | S fuel =>
          if negb (bool_decide (c = dot) || bool_decide (is_Some (digit_of c))) then None
          else
            '(v, s1) ← leading_int 0 s;
            let pre := negb (bool_decide (length s1 = length s)) in
            let '(f, scale, s2, post) :=
              match s1 with
              | c1 :: r =>
                  if bool_decide (c1 = dot) then
                    let '(f, scale, s2) := leading_fraction 0 1 false r in
                    (f, scale, s2, negb (bool_decide (length s2 = length r)))
                  else (0, 1, s1, false)
              | [] => (0, 1, s1, false)
              end in
            if negb pre && negb post then None
            else
              let '(u, rest) := span_unit s2 in
              match u with
              | [] => None
              | _ =>
                  unit ← unit_of u;
                  if 2 ^ 63 / unit <? v then None
                  else
                    let v := v * unit in
                    let v := if 0 <? f
                             then v + float_trunc (float_mul (to_float f) (float_div (to_float unit) (to_float scale)))
                             else v in
                    if (0 <? f) && (2 ^ 63 <? v) then None
                    else if 2 ^ 63 <? d + v then None
                    else duration_loop fuel (d + v) rest
              end
      end
  end.

Definition parse_duration (s : bytes) : option duration :=
  let '(neg, s) := take_sign s in
  if bool_decide (s = bs "0") then Some 0
  else if bool_decide (s = []) then None
  else
    d ← duration_loop (length s) 0 s;
    if neg then Some (- d) else if 2 ^ 63 - 1 <? d then None else Some d.

Example parse_duration_1 : parse_duration (bs "1h15m30.918s") = Some (hour + 15 * minute + 30918000000).
Proof. vm_compute. reflexivity. Qed.
Example parse_duration_2 : parse_duration (bs "-1.5h") = Some (- (hour + 30 * minute)).
Proof. vm_compute. reflexivity. Qed.
Example parse_duration_3 : parse_duration (bs "3") = None ∧ parse_duration (bs ".s") = None.
Proof. split; vm_compute; reflexivity. Qed.
