(* ===== verification/GoSha.v ===== *)
(** [crypto/sha256] and [crypto/sha1], as FIPS 180-4 gives them, [encoding/base64], and [crypto/hmac]. *)

From S2P Require Import Prelude.
From S2P Require Import GoBytes.
From S2P Require Import GoStrings.

Definition sha_k : list Z :=
  [1116352408; 1899447441; 3049323471; 3921009573; 961987163; 1508970993;
   2453635748; 2870763221; 3624381080; 310598401; 607225278; 1426881987;
   1925078388; 2162078206; 2614888103; 3248222580; 3835390401; 4022224774;
   264347078; 604807628; 770255983; 1249150122; 1555081692; 1996064986;
   2554220882; 2821834349; 2952996808; 3210313671; 3336571891; 3584528711;
   113926993; 338241895; 666307205; 773529912; 1294757372; 1396182291;
   1695183700; 1986661051; 2177026350; 2456956037; 2730485921; 2820302411;
   3259730800; 3345764771; 3516065817; 3600352804; 4094571909; 275423344;
   430227734; 506948616; 659060556; 883997877; 958139571; 1322822218;
   1537002063; 1747873779; 1955562222; 2024104815; 2227730452; 2361852424;
   2428436474; 2756734187; 3204031479; 3329325298].

Definition sha_init : list Z :=
  [1779033703; 3144134277; 1013904242; 2773480762; 1359893119; 2600822924;
   528734635; 1541459225].

Definition rotr (n x : Z) : Z := Z.lor (Z.shiftr x n) (u32 (Z.shiftl x (32 - n))).
Definition small0 (x : Z) : Z := Z.lxor (Z.lxor (rotr 7 x) (rotr 18 x)) (Z.shiftr x 3).
Definition small1 (x : Z) : Z := Z.lxor (Z.lxor (rotr 17 x) (rotr 19 x)) (Z.shiftr x 10).
Definition big0 (x : Z) : Z := Z.lxor (Z.lxor (rotr 2 x) (rotr 13 x)) (rotr 22 x).
Definition big1 (x : Z) : Z := Z.lxor (Z.lxor (rotr 6 x) (rotr 11 x)) (rotr 25 x).
Definition choose (x y z : Z) : Z := Z.lxor (Z.land x y) (Z.land (Z.lxor x 4294967295) z).
Definition majority (x y z : Z) : Z := Z.lxor (Z.lxor (Z.land x y) (Z.land x z)) (Z.land y z).

(** The message with its padding: a one bit, zeros, the length in 64 bits. *)
Definition sha_pad (s : bytes) : bytes :=
  let n := zlen s in
  s ++ byte_of_Z 128 :: replicate (Z.to_nat ((55 - n) mod 64)) (byte_of_Z 0) ++ be_put 8 (u64 (8 * n)).

(** The words of a block. *)
Fixpoint words (n : nat) (s : bytes) : list Z :=
  match n with
  | O => []
  | S n => be_get (take 4 s) :: words n (drop 4 s)
  end.

(** The schedule, extended a word at a time; newest first. *)
Fixpoint extend (n : nat) (w : list Z) : list Z :=
  match n with
  | O => w
  | S n =>
      let at_ i := nth i w 0 in
      extend n (u32 (small1 (at_ 1%nat) + at_ 6%nat + small0 (at_ 14%nat) + at_ 15%nat) :: w)
  end.

Fixpoint rounds (ks ws : list Z) (st : list Z) : list Z :=
  match ks, ws, st with
  | k :: ks, w :: ws, [a; b; c; d; e; f; g; h] =>
      let t1 := u32 (h + big1 e + choose e f g + k + w) in
      let t2 := u32 (big0 a + majority a b c) in
      rounds ks ws [u32 (t1 + t2); a; b; c; u32 (d + t1); e; f; g]
  | _, _, _ => st
  end.

Definition compress (st : list Z) (block : bytes) : list Z :=
  let ws := rev (extend 48 (rev (words 16 block))) in
  zip_with (λ x y, u32 (x + y)) st (rounds sha_k ws st).

Fixpoint blocks (n : nat) (st : list Z) (s : bytes) : list Z :=
  match n with
  | O => st
  | S n => blocks n (compress st (take 64 s)) (drop 64 s)
  end.

Definition sha256 (s : bytes) : bytes :=
  let padded := sha_pad s in
  blocks (length padded / 64) sha_init padded ≫= be_put 4.

Example sha256_abc :
  hex_encode (sha256 (bs "abc")) =
    bs "ba7816bf8f01cfea414140de5dae2223b00361a396177a9cb410ff61f20015ad".
Proof. vm_compute. reflexivity. Qed.
Example sha256_two_blocks :
  hex_encode (sha256 (bs "abcdbcdecdefdefgefghfghighijhijkijkljklmklmnlmnomnopnopq")) =
    bs "248d6a61d20638b8e5c026930c3e6039a33ce45964ff2167f6ecedd419db06c1".
Proof. vm_compute. reflexivity. Qed.

(** A digest has at most 32 bytes. *)
Lemma compress_length st block : (length (compress st block) ≤ length st)%nat.
Proof. unfold compress. rewrite length_zip_with. lia. Qed.

Lemma blocks_length n : ∀ st s, (length (blocks n st s) ≤ length st)%nat.
Proof.
  induction n as [|n IH]; intros st s; [done|]. cbn [blocks]. etrans; [apply IH|apply compress_length].
Qed.

Lemma sha256_length s : zlen (sha256 s) ≤ 32.
Proof.
  unfold sha256. pose proof (blocks_length (length (sha_pad s) / 64) sha_init (sha_pad s)) as Hl.
  change (length sha_init) with 8%nat in Hl. revert Hl. generalize (blocks (length (sha_pad s) / 64) sha_init (sha_pad s)).
  intros l Hl. assert (zlen (l ≫= be_put 4) = 4 * zlen l) as ->.
  { unfold zlen. induction l as [|x l IH]; [done|]. rewrite bind_cons, length_app, be_put_length. cbn [length] in *. lia. }
  unfold zlen. lia.
Qed.

(** [crypto/sha1], as FIPS 180-4 gives it, and [base64.StdEncoding]. *)

Definition rotl (n x : Z) : Z := rotr (32 - n) x.

(** The schedule, newest word first. *)
Fixpoint extend1 (n : nat) (w : list Z) : list Z :=
  match n with
  | O => w
  | S n =>
      let at_ i := nth i w 0 in
      extend1 n (rotl 1 (Z.lxor (Z.lxor (at_ 2%nat) (at_ 7%nat)) (Z.lxor (at_ 13%nat) (at_ 15%nat))) :: w)
  end.

(** The function and the constant of round [t]. *)
Definition sha1_f (t : nat) (b c d : Z) : Z :=
  if (t <? 20)%nat then choose b c d + 1518500249
  else if (t <? 40)%nat then Z.lxor (Z.lxor b c) d + 1859775393
  else if (t <? 60)%nat then majority b c d + 2400959708
  else Z.lxor (Z.lxor b c) d + 3395469782.

Fixpoint rounds1 (t : nat) (ws st : list Z) : list Z :=
  match ws, st with
  | w :: ws, [a; b; c; d; e] =>
      rounds1 (S t) ws [u32 (rotl 5 a + sha1_f t b c d + e + w); a; rotl 30 b; c; d]
  | _, _ => st
  end.

Definition compress1 (st : list Z) (block : bytes) : list Z :=
  let ws := rev (extend1 64 (rev (words 16 block))) in
  zip_with (λ x y, u32 (x + y)) st (rounds1 0 ws st).

Fixpoint blocks1 (n : nat) (st : list Z) (s : bytes) : list Z :=
  match n with
  | O => st
  | S n => blocks1 n (compress1 st (take 64 s)) (drop 64 s)
  end.

Definition sha1 (s : bytes) : bytes :=
  let padded := sha_pad s in
  blocks1 (length padded / 64) [1732584193; 4023233417; 2562383102; 271733878; 3285377520] padded ≫= be_put 4.

Example sha1_abc : hex_encode (sha1 (bs "abc")) = bs "a9993e364706816aba3e25717850c26c9cd0d89d".
Proof. vm_compute. reflexivity. Qed.

(** * Base 64 *)

Definition b64_char (z : Z) : byte :=
  byte_of_Z (if z <? 26 then 65 + z else if z <? 52 then 71 + z else if z <? 62 then z - 4
             else if z =? 62 then 43 else 47).

Fixpoint b64_encode (s : bytes) : bytes :=
  let sextet n i := b64_char (Z.shiftr n (6 * (3 - i)) mod 64) in
  match s with
  | [] => []
  | [a] => let n := be_get [a; byte_of_Z 0; byte_of_Z 0] in [sextet n 0; sextet n 1; byte_of_Z 61; byte_of_Z 61]
  | [a; b] => let n := be_get [a; b; byte_of_Z 0] in [sextet n 0; sextet n 1; sextet n 2; byte_of_Z 61]
  | a :: b :: c :: s => let n := be_get [a; b; c] in sextet n 0 :: sextet n 1 :: sextet n 2 :: sextet n 3 :: b64_encode s
  end.

Example b64_foobar : b64_encode (bs "fooba") = bs "Zm9vYmE=".
Proof. vm_compute. reflexivity. Qed.

Definition b64_value (c : byte) : option Z :=
  let z := byte_to_Z c in
  if (65 <=? z) && (z <=? 90) then Some (z - 65)
  else if (97 <=? z) && (z <=? 122) then Some (z - 71)
  else if (48 <=? z) && (z <=? 57) then Some (z + 4)
  else if z =? 43 then Some 62
  else if z =? 47 then Some 63 else None.
Definition b64_pad : byte := byte_of_Z 61.
Fixpoint b64_quads (s : bytes) : option bytes :=
  match s with
  | [] => Some []
  | a :: b :: c :: d :: s =>
      x ← b64_value a; y ← b64_value b;
      if bool_decide (c = b64_pad) then
        if bool_decide (d = b64_pad) && bool_decide (s = []) then Some (take 1 (be_put 2 (1024 * x + 16 * y))) else None
      else
        z ← b64_value c;
        if bool_decide (d = b64_pad) then
          if bool_decide (s = []) then Some (take 2 (be_put 3 (262144 * x + 4096 * y + 64 * z))) else None
        else w ← b64_value d; rest ← b64_quads s; Some (be_put 3 (262144 * x + 4096 * y + 64 * z + w) ++ rest)
  | _ => None
  end.
(** [DecodeString]: line ends are skipped. *)
Definition b64_decode (s : bytes) : option bytes :=
  b64_quads (filter (λ c, c ≠ byte_of_Z 10 ∧ c ≠ byte_of_Z 13) s).
Example b64_texts : map b64_decode [bs "Zm9v"; bs "Zm9vYg=="; bs "Zm9vYmE="; bs "Zg=a"; bs "Z"] =
  [Some (bs "foo"); Some (bs "foob"); Some (bs "fooba"); None; None].
Proof. vm_compute. reflexivity. Qed.

(** * [crypto/hmac] with SHA-256 *)

Definition hmac_sha256 (key message : bytes) : bytes :=
  let key := if (64 <? length key)%nat then sha256 key else key in
  let padded := key ++ replicate (64 - length key) (byte_of_Z 0) in
  let mixed z := map (λ b, byte_of_Z (Z.lxor (byte_to_Z b) z)) padded in
  sha256 (mixed 92 ++ sha256 (mixed 54 ++ message)).
Example hmac_rfc4231 :
  hex_encode (hmac_sha256 (bs "Jefe") (bs "what do ya want for nothing?")) =
    bs "5bdcc146bf60754e6a042426089575c75a003f089d2739839dec58b964ec3843".
Proof. vm_compute. reflexivity. Qed.
