(* ===== verification/IpamCidr.v ===== *)
(** internal/ipam/cidr.go: arithmetic on prefixes, and that it is set arithmetic. *)

From S2P Require Import Prelude.
From S2P Require Import GoBytes.
From S2P Require Import GoStrings.
From S2P Require Import GoNet.
From S2P Require Import GoNet6.
From S2P Require Import GoPrefix.

(** [Overlaps]; [None] is the zero [Prefix], which contains nothing. *)
Definition overlaps (a b : option prefix) : bool :=
  match a, b with
  | Some a, Some b =>
      let a := prefix_masked a in
      let b := prefix_masked b in
      prefix_contains a (p_addr b) || prefix_contains b (p_addr a)
  | _, _ => false
  end.

(** [Contains] *)
Definition cidr_contains (parent child : prefix) : bool :=
  let parent := prefix_masked parent in
  let child := prefix_masked child in
  (p_bits parent <=? p_bits child) && prefix_contains parent (p_addr child).

(** [AddressCount] *)
Definition address_count (p : prefix) : Z :=
  let bits := bit_len (p_addr p) - p_bits p in
  if 64 <=? bits then 2 ^ 64 - 1 else Z.shiftl 1 bits.

(** [NthAddress]; [n] is a [uint64]. *)
Definition nth_address (p : prefix) (n : Z) : option addr :=
  let addr := p_addr (prefix_masked p) in
  match addr with
  | A6 _ _ => None
  | A4 base =>
      let value := u64 (be_get base + n) in
      if address_count p <=? n then None
      else if max_u32 <? value then None
      else Some (A4 (be_put 4 value))
  end.

(** * Sets of addresses *)

(** The addresses of a prefix. *)
Definition member (p : prefix) (a : addr) : Prop := addr_wf a ∧ prefix_contains p a = true.

Lemma member_masked p a : prefix_wf p → member (prefix_masked p) a ↔ member p a.
Proof.
  intros Hp. unfold member. split; intros [Ha Hc]; (split; [done|]); by rewrite masked_contains in *.
Qed.

Lemma member_interval p a :
  prefix_wf p → member p a ↔
    addr_wf a ∧ is4 a = is4 (p_addr p) ∧ unzoned a = true ∧
    first_value p ≤ addr_value a < first_value p + 2 ^ host_bits p.
Proof. intros Hp. unfold member. split; intros [Ha Hc]; (split; [done|]); by apply prefix_interval. Qed.

Lemma host_bits_pos p : prefix_wf p → 0 ≤ host_bits p ∧ 0 < 2 ^ host_bits p.
Proof.
  intros (_ & _ & ?). assert (0 ≤ host_bits p) by (unfold host_bits; lia).
  split; [done|]. by apply Z.pow_pos_nonneg.
Qed.

(** Every number of the interval is an address of the prefix. *)
Lemma member_of_value p z :
  prefix_wf p → first_value p ≤ z < first_value p + 2 ^ host_bits p →
  member p (addr_of (is4 (p_addr p)) z) ∧ addr_value (addr_of (is4 (p_addr p)) z) = z.
Proof.
  intros Hp Hz. pose proof (first_value_range p Hp). rewrite bit_len_is4 in *.
  destruct (addr_of_spec (is4 (p_addr p)) z) as (W1 & W2 & W3 & W4); [lia|].
  split; [|done]. apply member_interval; [done|]. rewrite W2, W3, W4. split_and!; done || lia.
Qed.

Lemma masked_addr_member p : prefix_wf p → member p (p_addr (prefix_masked p)).
Proof.
  intros Hp. destruct (prefix_masked_spec p Hp) as ((H1 & H2 & _) & H4 & _ & _ & Hv & _).
  apply member_interval; [done|]. pose proof (host_bits_pos p Hp). rewrite Hv. split_and!; done || lia.
Qed.

(** Prefixes of a family are nested or disjoint. *)
Lemma member_le p q a b :
  prefix_wf p → prefix_wf q → is4 (p_addr p) = is4 (p_addr q) → p_bits p ≤ p_bits q →
  member p a → member q a → member q b → member p b.
Proof.
  intros Hp Hq H4 Hle [Ha Ha1] [_ Ha2] [Hb Hb1]. split; [done|].
  apply prefix_contains_spec in Ha1 as (F1 & Z1 & V1); [|done].
  apply prefix_contains_spec in Ha2 as (F2 & Z2 & V2); [|done].
  apply prefix_contains_spec in Hb1 as (F3 & Z3 & V3); [|done].
  apply prefix_contains_spec; [done|]. split_and!; [congruence|done|]. rewrite <-V1.
  pose proof (host_bits_pos p Hp). pose proof (host_bits_pos q Hq).
  assert (E : host_bits p = host_bits q + (p_bits q - p_bits p)).
  { unfold host_bits. rewrite !bit_len_is4, H4. lia. }
  rewrite E, Z.pow_add_r by lia. rewrite <-!Z.div_div by lia. by rewrite V3, V2.
Qed.

Lemma overlaps_spec p q :
  prefix_wf p → prefix_wf q → overlaps (Some p) (Some q) = true ↔ ∃ a, member p a ∧ member q a.
Proof.
  intros Hp Hq. unfold overlaps. rewrite orb_true_iff. split.
  - pose proof (masked_addr_member p Hp) as Mp. pose proof (masked_addr_member q Hq) as Mq.
    intros [H|H]; [exists (p_addr (prefix_masked q))|exists (p_addr (prefix_masked p))];
      (split; [try done|try done]); apply member_masked; try done; split; (done || apply Mp || apply Mq).
  - intros (a & Ma & Mb).
    assert (H4 : is4 (p_addr p) = is4 (p_addr q)).
    { apply member_interval in Ma as (_ & <- & _); [|done]. by apply member_interval in Mb as (_ & <- & _). }
    destruct (Z.le_ge_cases (p_bits p) (p_bits q)) as [Hle|Hle]; [left|right].
    + rewrite masked_contains; [|done|by apply (masked_addr_member q)].
      apply (member_le p q a); try done. by apply masked_addr_member.
    + rewrite masked_contains; [|done|by apply (masked_addr_member p)].
      apply (member_le q p a); try done. by apply masked_addr_member.
Qed.

Lemma overlaps_sym a b : overlaps a b = overlaps b a.
Proof. destruct a, b; simpl; try done. apply orb_comm. Qed.

(** * The theorems *)

(** [Overlaps] and [Contains] are the set operations they are named after.  Two
    prefixes overlap exactly when some address is in both, and a prefix contains
    another exactly when every address of the second is in the first. *)
Theorem cidr_is_set_arithmetic p q :
  prefix_wf p → prefix_wf q →
  (overlaps (Some p) (Some q) = true ↔ ∃ a, member p a ∧ member q a) ∧
  (cidr_contains p q = true ↔ ∀ a, member q a → member p a).
Proof.
  intros Hp Hq. split; [by apply overlaps_spec|]. unfold cidr_contains. rewrite andb_true_iff, Z.leb_le.
  destruct (prefix_masked_spec p Hp) as (Wp & F4p & -> & _).
  destruct (prefix_masked_spec q Hq) as (Wq & F4q & -> & _).
  pose proof (masked_addr_member q Hq) as Mq. split.
  - intros [Hle Hc]. rewrite masked_contains in Hc; [|done|apply Mq].
    assert (Mp : member p (p_addr (prefix_masked q))) by (split; [apply Mq|done]).
    intros a Ma. apply (member_le p q (p_addr (prefix_masked q))); try done.
    apply member_interval in Mp as (_ & E1 & _); [|done]. congruence.
  - intros Hsub. pose proof (Hsub _ Mq) as Mp. split; [|rewrite masked_contains; [apply Mp|done|apply Mq]].
    apply member_interval in Mp as (_ & E1 & _ & R1); [|done]. rewrite F4q in E1.
    pose proof (host_bits_pos p Hp) as [P0 P1]. pose proof (host_bits_pos q Hq) as [Q0 Q1].
    destruct (Z.le_gt_cases (p_bits p) (p_bits q)) as [|Hgt]; [done|]. exfalso.
    assert (Eh : host_bits q = host_bits p + (p_bits p - p_bits q)) by (unfold host_bits; rewrite !bit_len_is4, E1; lia).
    assert (2 ^ host_bits p * 2 ≤ 2 ^ host_bits q).
    { rewrite Eh, Z.pow_add_r by lia. apply Z.mul_le_mono_nonneg_l; [lia|].
      replace 2 with (2 ^ 1) at 1 by done. apply Z.pow_le_mono_r; lia. }
    destruct (member_of_value q (first_value q + 2 ^ host_bits p) Hq) as [Mz Vz]; [lia|].
    destruct (prefix_masked_spec q Hq) as (_ & _ & _ & _ & Vm & _). rewrite Vm in R1.
    apply Hsub, member_interval in Mz as (_ & _ & _ & R2); [|done]. rewrite Vz in R2. lia.
Qed.

Lemma cidr_is_set_arithmetic_witness :
  let p := mkPrefix (A4 (map byte_of_Z [10; 0; 3; 0])) 16 in
  let q := mkPrefix (A4 (map byte_of_Z [10; 0; 7; 128])) 25 in
  (overlaps (Some p) (Some q) = true ↔ ∃ a, member p a ∧ member q a) ∧
  (cidr_contains p q = true ↔ ∀ a, member q a → member p a).
Proof. apply cidr_is_set_arithmetic; (split; [done|split; [done|vm_compute; split; discriminate]]). Defined.

(** [NthAddress] enumerates an IPv4 prefix: for a [uint64] index it gives the
    address that many places behind the first, an address of the prefix, exactly
    when the index is below [AddressCount], which is the number of addresses; no
    address is missed and none given twice. *)
Theorem nth_address_enumerates p :
  prefix_wf p → is4 (p_addr p) = true →
  address_count p = 2 ^ host_bits p ∧
  (∀ n, 0 ≤ n < 2 ^ 64 →
    match nth_address p n with
    | Some a => n < address_count p ∧ member p a ∧ addr_value a = first_value p + n
    | None => address_count p ≤ n
    end) ∧
  (∀ a, member p a → nth_address p (addr_value a - first_value p) = Some a).
Proof.
  intros Hp H4. pose proof Hp as (_ & _ & Hb). rewrite bit_len_is4, H4 in Hb. simpl in Hb.
  pose proof (first_value_range p Hp) as Hr. rewrite bit_len_is4, H4 in Hr. simpl in Hr.
  assert (Hc : address_count p = 2 ^ host_bits p).
  { unfold address_count. fold (host_bits p). unfold host_bits. rewrite bit_len_is4, H4. simpl.
    rewrite (proj2 (Z.leb_gt _ _)) by lia. rewrite Z.shiftl_mul_pow2 by lia. lia. }
  assert (Hmask : ∃ base, p_addr (prefix_masked p) = A4 base ∧ be_get base = first_value p).
  { destruct (prefix_masked_spec p Hp) as (_ & E & _ & _ & Hv & _). rewrite H4 in E.
    destruct (p_addr (prefix_masked p)) as [base|]; [|done]. by exists base. }
  destruct Hmask as (base & Eb & Hbase).
  assert (Hn : ∀ n, 0 ≤ n < 2 ^ 64 →
    match nth_address p n with
    | Some a => n < address_count p ∧ member p a ∧ addr_value a = first_value p + n
    | None => address_count p ≤ n
    end).
  { intros n Hn. unfold nth_address. rewrite Eb, Hbase, Hc. destruct (Z.leb_spec (2 ^ host_bits p) n); [done|].
    assert (E : u64 (first_value p + n) = first_value p + n) by (apply Z.mod_small; lia). rewrite E.
    rewrite (proj2 (Z.ltb_ge _ _)) by lia.
    destruct (member_of_value p (first_value p + n) Hp) as [Hm Hv]; [lia|]. rewrite H4 in Hm, Hv. done. }
  split_and!; [done|done|]. intros a Ma. pose proof Ma as (Wa & F4 & Za & Ra)%member_interval; [|done].
  specialize (Hn (addr_value a - first_value p) ltac:(lia)).
  destruct (nth_address p _) as [b|].
  - destruct Hn as (_ & (Wb & Fb & Zb & _)%member_interval & Hv); [|done]. f_equal.
    apply addr_eq; try done; [congruence|lia].
  - lia.
Qed.

Lemma nth_address_enumerates_witness :
  let p := mkPrefix (A4 (map byte_of_Z [255; 255; 255; 200])) 24 in
  address_count p = 2 ^ host_bits p ∧
  (∀ n, 0 ≤ n < 2 ^ 64 →
    match nth_address p n with
    | Some a => n < address_count p ∧ member p a ∧ addr_value a = first_value p + n
    | None => address_count p ≤ n
    end) ∧
  (∀ a, member p a → nth_address p (addr_value a - first_value p) = Some a).
Proof. apply nth_address_enumerates; [split; [done|split; [done|vm_compute; split; discriminate]]|done]. Defined.
