(* ===== verification/ConfigTypes.v ===== *)
(** internal/config/config.go: the configuration and its defaults.

    One record per section of the file; the section [dhcp] of a subnet is part of
    its record. *)

From S2P Require Import Prelude.
From S2P Require Import GoBytes.
From S2P Require Import GoTime.

Record ServerConfig := mkServerConfig {
  sv_hostname : bytes; sv_data_dir : bytes; sv_log_level : bytes; sv_log_format : bytes
}.

Record DHCPV4Config := mkDHCPV4Config {
  v4_enabled : bool; v4_listen : bytes; v4_interface : bytes; v4_authoritative : bool
}.

Record DHCPV6Config := mkDHCPV6Config { v6_enabled : bool; v6_listen : bytes; v6_interface : bytes }.

Record DDNSConfig := mkDDNSConfig {
  dd_enabled : bool; dd_forward_zone : bytes; dd_reverse_zone : bytes; dd_dns_server : bytes;
  dd_tsig_key : bytes; dd_tsig_secret : bytes; dd_tsig_algorithm : bytes
}.

Record DHCPConfig := mkDHCPConfig {
  dc_v4 : DHCPV4Config; dc_v6 : DHCPV6Config; dc_default_lease_time : duration;
  dc_max_lease_time : duration; dc_ddns : DDNSConfig
}.

Record ReservationConfig := mkReservationConfig { rc_mac : bytes; rc_ip : bytes; rc_hostname : bytes }.

Record SubnetConfig := mkSubnetConfig {
  sc_cidr : bytes; sc_name : bytes; sc_vlan : Z; sc_gateway : bytes; sc_dns : list bytes;
  sc_dhcp_enabled : bool; sc_pool_start : bytes; sc_pool_end : bytes; sc_lease_time : duration;
  sc_max_lease_time : duration; sc_template : bytes; sc_reservations : list ReservationConfig
}.

Record DiscoveryConfig := mkDiscoveryConfig {
  di_enabled : bool; di_default_interval : duration; di_methods : list bytes;
  di_conflict_detection : bool; di_rogue_detection : bool; di_quarantine_period : duration;
  di_abandoned_threshold : duration
}.

Record RESTConfig := mkRESTConfig {
  rs_enabled : bool; rs_listen : bytes; rs_cors_origins : list bytes; rs_trusted_proxies : list bytes;
  rs_rate_limit : Z; rs_auth_rate_limit : Z; rs_tls_cert_file : bytes; rs_tls_key_file : bytes
}.

(** The sections of gRPC and MCP. *)
Record ListenConfig := mkListenConfig {
  lc_enabled : bool; lc_listen : bytes; lc_tls_cert_file : bytes; lc_tls_key_file : bytes
}.

Record APIConfig := mkAPIConfig {
  ap_rest : RESTConfig; ap_grpc : ListenConfig; ap_websocket : bool; ap_mcp : ListenConfig
}.

Record Dashboard := mkDashboard { da_enabled : bool; da_base_path : bytes }.

Record LocalAuthConfig := mkLocalAuthConfig {
  la_admin_username : bytes; la_admin_password_hash : bytes; la_max_failed_attempts : Z;
  la_lockout_duration : duration
}.

Record LDAPAuthConfig := mkLDAPAuthConfig {
  ld_server : bytes; ld_base_dn : bytes; ld_bind_dn : bytes; ld_bind_password : bytes;
  ld_user_filter : bytes; ld_group_filter : bytes; ld_admin_group : bytes
}.

Record SessionAuthConfig := mkSessionAuthConfig {
  sa_duration : duration; sa_cookie_name : bytes; sa_secure : bool
}.

Record AuthConfig := mkAuthConfig {
  au_enabled : bool; au_type : bytes; au_local : LocalAuthConfig; au_ldap : LDAPAuthConfig;
  au_api_tokens : bool; au_session : SessionAuthConfig
}.

Record HAConfig := mkHAConfig {
  hc_enabled : bool; hc_mode : bytes; hc_priority : Z; hc_peer_address : bytes;
  hc_heartbeat_interval : duration; hc_failover_timeout : duration; hc_lease_sync : bool;
  hc_shared_secret : bytes; hc_witness_path : bytes; hc_witness_hold_time : duration
}.

Record PrometheusConfig := mkPrometheusConfig { pr_enabled : bool; pr_path : bytes }.

Record BackupAutoConfig := mkBackupAutoConfig {
  bk_enabled : bool; bk_interval : duration; bk_retention : Z; bk_path : bytes
}.

Record WebhookConfig := mkWebhookConfig {
  wh_name : bytes; wh_url : bytes; wh_events : list bytes; wh_format : bytes;
  wh_headers : gmap bytes bytes; wh_max_attempts : Z; wh_backoff : bytes
}.

Record Config := mkConfig {
  cf_server : ServerConfig; cf_dhcp : DHCPConfig; cf_subnets : list SubnetConfig;
  cf_discovery : DiscoveryConfig; cf_api : APIConfig; cf_dashboard : Dashboard; cf_auth : AuthConfig;
  cf_ha : HAConfig; cf_prometheus : PrometheusConfig; cf_backup : BackupAutoConfig;
  cf_webhooks : list WebhookConfig
}.

#[global] Instance reservation_config_eq_dec : EqDecision ReservationConfig.
Proof. solve_decision. Defined.
#[global] Instance subnet_config_eq_dec : EqDecision SubnetConfig.
Proof. solve_decision. Defined.
#[global] Instance webhook_config_eq_dec : EqDecision WebhookConfig.
Proof. solve_decision. Defined.

(** [DefaultConfig] *)
Definition default_config : Config :=
  mkConfig
    (mkServerConfig (bs "monsoon-01") (bs "/var/lib/monsoon") (bs "info") (bs "json"))
    (mkDHCPConfig (mkDHCPV4Config true (bs "0.0.0.0:67") [] true) (mkDHCPV6Config false (bs "[::]:547") [])
       (12 * hour) (24 * hour) (mkDDNSConfig false [] [] [] [] [] []))
    []
    (mkDiscoveryConfig true hour [bs "arp"; bs "ping"] true true (15 * minute) (7 * 24 * hour))
    (mkAPIConfig (mkRESTConfig true (bs ":8067") [] [] 100 5 [] [])
       (mkListenConfig true (bs ":9067") [] []) true (mkListenConfig true (bs ":7067") [] []))
    (mkDashboard true (bs "/"))
    (mkAuthConfig true (bs "local") (mkLocalAuthConfig (bs "admin") [] 5 (15 * minute))
       (mkLDAPAuthConfig [] [] [] [] [] [] []) true
       (mkSessionAuthConfig (24 * hour) (bs "monsoon_session") true))
    (mkHAConfig false (bs "active-passive") 100 [] second (10 * second) true [] [] (15 * second))
    (mkPrometheusConfig true (bs "/metrics"))
    (mkBackupAutoConfig true (6 * hour) 7 (bs "/var/lib/monsoon/backups"))
    [].
