(* ===== verification/ConfigEnv.v ===== *)
(** internal/config/env.go: overriding the configuration from the environment.

    The code walks the configuration by reflection.  [rvalue] is a reflected
    value; [config_value] reflects a configuration and [config_of_value] reads
    one back.  [os.LookupEnv] is an argument. *)

From S2P Require Import Prelude.
From S2P Require Import GoBytes.
From S2P Require Import GoStrings.
From S2P Require Import GoTime.
From S2P Require Import GoParse.
From S2P Require Import ConfigTypes.

(** A value; the slices of structures carry no more than their type. *)
Inductive rvalue :=
| RString (s : bytes)
| RBool (b : bool)
| RInt (z : Z)
| RDuration (d : duration)
| RStrings (l : list bytes)
| RSlice (type_name : string)
| RStruct (fields : list (bytes * bytes * rvalue)).

Section env.
Context `{UnicodeTables}.

Fixpoint to_snake_loop (first : bool) (s : bytes) : bytes :=
  match s with
  | [] => []
  | r :: s =>
      let upper := (65 <=? byte_to_Z r) && (byte_to_Z r <=? 90) in
      (if negb first && upper then [byte_of_Z 95] else []) ++ r :: to_snake_loop false s
  end.
(** Of names in ASCII, as those of the fields are. *)
Definition to_snake (s : bytes) : bytes := to_lower (to_snake_loop true s).

(** [strings.ReplaceAll(s, "-", "_")] *)
Definition dash_to_underscore (s : bytes) : bytes :=
  map (λ c, if bool_decide (c = byte_of_Z 45) then byte_of_Z 95 else c) s.

(** The part of a tag before the comma. *)
Definition tag_name (tag : bytes) : bytes := default [] (hd_error (split_byte tag (byte_of_Z 44))).

Definition env_name (pre field tag : bytes) : bytes :=
  let yaml_name := tag_name tag in
  let yaml_name := if bool_decide (yaml_name = []) || bool_decide (yaml_name = bs "-") then to_snake field
                   else yaml_name in
  pre ++ bs "_" ++ to_upper (dash_to_underscore yaml_name).

Definition set_value (field : rvalue) (raw : bytes) : result rvalue :=
  match field with
  | RDuration _ =>
      match parse_duration (trim_space raw) with
      | Some d => Ok (RDuration d)
      | None => Err (errorNew "invalid duration")
      end
  | RString _ => Ok (RString raw)
  | RBool _ => match parse_bool raw with Some b => Ok (RBool b) | None => Err (errorNew "invalid syntax") end
  | RInt _ => match parse_int raw with Some z => Ok (RInt z) | None => Err (errorNew "invalid syntax") end
  | RStrings _ => Ok (RStrings (filter (λ p, p ≠ []) (trim_space <$> split_byte raw (byte_of_Z 44))))
  | RSlice name => Err (Errorf "unsupported slice type: %s" [FB (bs name)])
  | RStruct _ => Err (errorNew "unsupported kind: struct")
  end.

(** [applyEnv]: the loop over the fields, a structure being a loop of its own. *)
Fixpoint apply_env_value (lookup_env : bytes → option bytes) (v : rvalue) (pre : bytes) : result rvalue :=
  match v with
  | RStruct fields =>
      let fix loop (fields : list (bytes * bytes * rvalue)) : result (list (bytes * bytes * rvalue)) :=
        match fields with
        | [] => Ok []
        | (field, tag, value) :: rest =>
            let name := env_name pre field tag in
            value' ← match value with
                     | RStruct _ => apply_env_value lookup_env value name
                     | _ =>
                         match lookup_env name with
                         | None => Ok value
                         | Some raw =>
                             match set_value value raw with
                             | Err e => Err (Errorf "%s: %s" [FB name; FB (error_text e)])
                             | r => r
                             end
                         end
                     end;
            rest' ← loop rest;
            Ok ((field, tag, value') :: rest')
        end in
      fields' ← loop fields; Ok (RStruct fields')
  | _ => Ok v
  end.

(** ** The configuration, reflected *)

Definition fld (name tag : string) (v : rvalue) : bytes * bytes * rvalue := (bs name, bs tag, v).

Definition listen_value (c : ListenConfig) : rvalue :=
  RStruct [fld "Enabled" "enabled" (RBool (lc_enabled c)); fld "Listen" "listen" (RString (lc_listen c));
    fld "TLSCertFile" "tls_cert_file" (RString (lc_tls_cert_file c));
    fld "TLSKeyFile" "tls_key_file" (RString (lc_tls_key_file c))].

Definition server_value (c : ServerConfig) : rvalue :=
  RStruct [fld "Hostname" "hostname" (RString (sv_hostname c)); fld "DataDir" "data_dir" (RString (sv_data_dir c));
    fld "LogLevel" "log_level" (RString (sv_log_level c)); fld "LogFormat" "log_format" (RString (sv_log_format c))].

Definition dhcp_value (c : DHCPConfig) : rvalue :=
  RStruct
    [fld "V4" "v4" (RStruct [fld "Enabled" "enabled" (RBool (v4_enabled (dc_v4 c)));
       fld "Listen" "listen" (RString (v4_listen (dc_v4 c)));
       fld "Interface" "interface" (RString (v4_interface (dc_v4 c)));
       fld "Authoritative" "authoritative" (RBool (v4_authoritative (dc_v4 c)))]);
     fld "V6" "v6" (RStruct [fld "Enabled" "enabled" (RBool (v6_enabled (dc_v6 c)));
       fld "Listen" "listen" (RString (v6_listen (dc_v6 c)));
       fld "Interface" "interface" (RString (v6_interface (dc_v6 c)))]);
     fld "DefaultLeaseTime" "default_lease_time" (RDuration (dc_default_lease_time c));
     fld "MaxLeaseTime" "max_lease_time" (RDuration (dc_max_lease_time c));
     fld "DDNS" "ddns" (RStruct [fld "Enabled" "enabled" (RBool (dd_enabled (dc_ddns c)));
       fld "ForwardZone" "forward_zone" (RString (dd_forward_zone (dc_ddns c)));
       fld "ReverseZone" "reverse_zone" (RString (dd_reverse_zone (dc_ddns c)));
       fld "DNSServer" "dns_server" (RString (dd_dns_server (dc_ddns c)));
       fld "TSIGKey" "tsig_key" (RString (dd_tsig_key (dc_ddns c)));
       fld "TSIGSecret" "tsig_secret" (RString (dd_tsig_secret (dc_ddns c)));
       fld "TSIGAlgorithm" "tsig_algorithm" (RString (dd_tsig_algorithm (dc_ddns c)))])].

Definition discovery_value (c : DiscoveryConfig) : rvalue :=
  RStruct [fld "Discovery" "discovery" (RStruct
    [fld "Enabled" "enabled" (RBool (di_enabled c));
     fld "DefaultInterval" "default_interval" (RDuration (di_default_interval c));
     fld "Methods" "methods" (RStrings (di_methods c));
     fld "ConflictDetection" "conflict_detection" (RBool (di_conflict_detection c));
     fld "RogueDHCPDetection" "rogue_dhcp_detection" (RBool (di_rogue_detection c));
     fld "QuarantinePeriod" "quarantine_period" (RDuration (di_quarantine_period c));
     fld "AbandonedThreshold" "abandoned_threshold" (RDuration (di_abandoned_threshold c))])].

Definition api_value (c : APIConfig) : rvalue :=
  RStruct
    [fld "REST" "rest" (RStruct [fld "Enabled" "enabled" (RBool (rs_enabled (ap_rest c)));
       fld "Listen" "listen" (RString (rs_listen (ap_rest c)));
       fld "CORSOrigins" "cors_origins" (RStrings (rs_cors_origins (ap_rest c)));
       fld "TrustedProxies" "trusted_proxies" (RStrings (rs_trusted_proxies (ap_rest c)));
       fld "RateLimit" "rate_limit" (RInt (rs_rate_limit (ap_rest c)));
       fld "AuthRateLimit" "auth_rate_limit" (RInt (rs_auth_rate_limit (ap_rest c)));
       fld "TLSCertFile" "tls_cert_file" (RString (rs_tls_cert_file (ap_rest c)));
       fld "TLSKeyFile" "tls_key_file" (RString (rs_tls_key_file (ap_rest c)))]);
     fld "GRPC" "grpc" (listen_value (ap_grpc c));
     fld "WebSocket" "websocket" (RStruct [fld "Enabled" "enabled" (RBool (ap_websocket c))]);
     fld "MCP" "mcp" (listen_value (ap_mcp c))].

Definition auth_value (c : AuthConfig) : rvalue :=
  RStruct
    [fld "Enabled" "enabled" (RBool (au_enabled c)); fld "Type" "type" (RString (au_type c));
     fld "Local" "local" (RStruct
       [fld "AdminUsername" "admin_username" (RString (la_admin_username (au_local c)));
        fld "AdminPasswordHash" "admin_password_hash" (RString (la_admin_password_hash (au_local c)));
        fld "MaxFailedAttempts" "max_failed_attempts" (RInt (la_max_failed_attempts (au_local c)));
        fld "LockoutDuration" "lockout_duration" (RDuration (la_lockout_duration (au_local c)))]);
     fld "LDAP" "ldap" (RStruct
       [fld "Server" "server" (RString (ld_server (au_ldap c))); fld "BaseDN" "base_dn" (RString (ld_base_dn (au_ldap c)));
        fld "BindDN" "bind_dn" (RString (ld_bind_dn (au_ldap c)));
        fld "BindPassword" "bind_password" (RString (ld_bind_password (au_ldap c)));
        fld "UserFilter" "user_filter" (RString (ld_user_filter (au_ldap c)));
        fld "GroupFilter" "group_filter" (RString (ld_group_filter (au_ldap c)));
        fld "AdminGroup" "admin_group" (RString (ld_admin_group (au_ldap c)))]);
     fld "APITokens" "api_tokens" (RStruct [fld "Enabled" "enabled" (RBool (au_api_tokens c))]);
     fld "Session" "session" (RStruct [fld "Duration" "duration" (RDuration (sa_duration (au_session c)));
       fld "CookieName" "cookie_name" (RString (sa_cookie_name (au_session c)));
       fld "Secure" "secure" (RBool (sa_secure (au_session c)))])].

Definition ha_value (c : HAConfig) : rvalue :=
  RStruct [fld "Enabled" "enabled" (RBool (hc_enabled c)); fld "Mode" "mode" (RString (hc_mode c));
    fld "Priority" "priority" (RInt (hc_priority c)); fld "PeerAddress" "peer_address" (RString (hc_peer_address c));
    fld "HeartbeatInterval" "heartbeat_interval" (RDuration (hc_heartbeat_interval c));
    fld "FailoverTimeout" "failover_timeout" (RDuration (hc_failover_timeout c));
    fld "LeaseSync" "lease_sync" (RBool (hc_lease_sync c));
    fld "SharedSecret" "shared_secret" (RString (hc_shared_secret c));
    fld "WitnessPath" "witness_path" (RString (hc_witness_path c));
    fld "WitnessHoldTime" "witness_hold_time" (RDuration (hc_witness_hold_time c))].

Definition backup_value (c : BackupAutoConfig) : rvalue :=
  RStruct [fld "Auto" "auto" (RStruct [fld "Enabled" "enabled" (RBool (bk_enabled c));
    fld "Interval" "interval" (RDuration (bk_interval c)); fld "Retention" "retention" (RInt (bk_retention c));
    fld "Path" "path" (RString (bk_path c))])].

Definition config_value (c : Config) : rvalue :=
  RStruct
    [fld "Server" "server" (server_value (cf_server c)); fld "DHCP" "dhcp" (dhcp_value (cf_dhcp c));
     fld "Subnets" "subnets" (RSlice "[]config.SubnetConfig");
     fld "IPAM" "ipam" (discovery_value (cf_discovery c)); fld "API" "api" (api_value (cf_api c));
     fld "Dashboard" "dashboard" (RStruct [fld "Enabled" "enabled" (RBool (da_enabled (cf_dashboard c)));
       fld "BasePath" "base_path" (RString (da_base_path (cf_dashboard c)))]);
     fld "Auth" "auth" (auth_value (cf_auth c)); fld "HA" "ha" (ha_value (cf_ha c));
     fld "Metrics" "metrics" (RStruct [fld "Prometheus" "prometheus" (RStruct
       [fld "Enabled" "enabled" (RBool (pr_enabled (cf_prometheus c)));
        fld "Path" "path" (RString (pr_path (cf_prometheus c)))])]);
     fld "Backup" "backup" (backup_value (cf_backup c));
     fld "Webhooks" "webhooks" (RSlice "[]config.WebhookConfig")].

(** ** Reading a configuration back *)

Fixpoint find_field (tag : bytes) (fields : list (bytes * bytes * rvalue)) : option rvalue :=
  match fields with
  | [] => None
  | (_, t, v) :: rest => if bool_decide (t = tag) then Some v else find_field tag rest
  end.
Definition sub (v : rvalue) (tag : string) : rvalue :=
  match v with RStruct fields => default (RSlice "") (find_field (bs tag) fields) | _ => RSlice "" end.

Definition str (v : rvalue) (tag : string) : bytes := match sub v tag with RString s => s | _ => [] end.
Definition flag (v : rvalue) (tag : string) : bool := match sub v tag with RBool b => b | _ => false end.
Definition num (v : rvalue) (tag : string) : Z := match sub v tag with RInt z => z | _ => 0 end.
Definition dur (v : rvalue) (tag : string) : duration := match sub v tag with RDuration d => d | _ => 0 end.
Definition strs (v : rvalue) (tag : string) : list bytes := match sub v tag with RStrings l => l | _ => [] end.

Definition listen_of_value (v : rvalue) : ListenConfig :=
  mkListenConfig (flag v "enabled") (str v "listen") (str v "tls_cert_file") (str v "tls_key_file").

Definition dhcp_of_value (v : rvalue) : DHCPConfig :=
  let v4 := sub v "v4" in
  let v6 := sub v "v6" in
  let dd := sub v "ddns" in
  mkDHCPConfig (mkDHCPV4Config (flag v4 "enabled") (str v4 "listen") (str v4 "interface") (flag v4 "authoritative"))
    (mkDHCPV6Config (flag v6 "enabled") (str v6 "listen") (str v6 "interface"))
    (dur v "default_lease_time") (dur v "max_lease_time")
    (mkDDNSConfig (flag dd "enabled") (str dd "forward_zone") (str dd "reverse_zone") (str dd "dns_server")
       (str dd "tsig_key") (str dd "tsig_secret") (str dd "tsig_algorithm")).

Definition discovery_of_value (v : rvalue) : DiscoveryConfig :=
  let d := sub v "discovery" in
  mkDiscoveryConfig (flag d "enabled") (dur d "default_interval") (strs d "methods") (flag d "conflict_detection")
    (flag d "rogue_dhcp_detection") (dur d "quarantine_period") (dur d "abandoned_threshold").

Definition api_of_value (v : rvalue) : APIConfig :=
  let r := sub v "rest" in
  mkAPIConfig
    (mkRESTConfig (flag r "enabled") (str r "listen") (strs r "cors_origins") (strs r "trusted_proxies")
       (num r "rate_limit") (num r "auth_rate_limit") (str r "tls_cert_file") (str r "tls_key_file"))
    (listen_of_value (sub v "grpc")) (flag (sub v "websocket") "enabled") (listen_of_value (sub v "mcp")).

Definition auth_of_value (v : rvalue) : AuthConfig :=
  let l := sub v "local" in
  let d := sub v "ldap" in
  let s := sub v "session" in
  mkAuthConfig (flag v "enabled") (str v "type")
    (mkLocalAuthConfig (str l "admin_username") (str l "admin_password_hash") (num l "max_failed_attempts")
       (dur l "lockout_duration"))
    (mkLDAPAuthConfig (str d "server") (str d "base_dn") (str d "bind_dn") (str d "bind_password")
       (str d "user_filter") (str d "group_filter") (str d "admin_group"))
    (flag (sub v "api_tokens") "enabled")
    (mkSessionAuthConfig (dur s "duration") (str s "cookie_name") (flag s "secure")).

Definition ha_of_value (v : rvalue) : HAConfig :=
  mkHAConfig (flag v "enabled") (str v "mode") (num v "priority") (str v "peer_address")
    (dur v "heartbeat_interval") (dur v "failover_timeout") (flag v "lease_sync") (str v "shared_secret")
    (str v "witness_path") (dur v "witness_hold_time").

(** The slices of structures are those of the configuration. *)
Definition config_of_value (c : Config) (v : rvalue) : Config :=
  let s := sub v "server" in
  let d := sub v "dashboard" in
  let p := sub (sub v "metrics") "prometheus" in
  let b := sub (sub v "backup") "auto" in
  mkConfig (mkServerConfig (str s "hostname") (str s "data_dir") (str s "log_level") (str s "log_format"))
    (dhcp_of_value (sub v "dhcp")) (cf_subnets c) (discovery_of_value (sub v "ipam")) (api_of_value (sub v "api"))
    (mkDashboard (flag d "enabled") (str d "base_path")) (auth_of_value (sub v "auth")) (ha_of_value (sub v "ha"))
    (mkPrometheusConfig (flag p "enabled") (str p "path"))
    (mkBackupAutoConfig (flag b "enabled") (dur b "interval") (num b "retention") (str b "path"))
    (cf_webhooks c).

Lemma config_of_value_id c : config_of_value c (config_value c) = c.
Proof.
  destruct c as [[] [[] [] ? ? []] ? [] [[] [] ? []] [] [? ? [] [] ? []] [] [] [] ?]. reflexivity.
Qed.

(** [ApplyEnvOverrides] *)
Definition apply_env_overrides (lookup_env : bytes → option bytes) (c : Config) : result Config :=
  v ← apply_env_value lookup_env (config_value c) (bs "MONSOON");
  Ok (config_of_value c v).

(** ** What the walk does *)

(** The loop over the fields of a structure. *)
Fixpoint apply_env_fields (lookup_env : bytes → option bytes) (fields : list (bytes * bytes * rvalue))
    (pre : bytes) : result (list (bytes * bytes * rvalue)) :=
  match fields with
  | [] => Ok []
  | (field, tag, value) :: rest =>
      let name := env_name pre field tag in
      value' ← match value with
               | RStruct _ => apply_env_value lookup_env value name
               | _ =>
                   match lookup_env name with
                   | None => Ok value
                   | Some raw =>
                       match set_value value raw with
                       | Err e => Err (Errorf "%s: %s" [FB name; FB (error_text e)])
                       | r => r
                       end
                   end
               end;
      rest' ← apply_env_fields lookup_env rest pre;
      Ok ((field, tag, value') :: rest')
  end.

Lemma apply_env_struct lookup_env fields pre :
  apply_env_value lookup_env (RStruct fields) pre =
    (fields' ← apply_env_fields lookup_env fields pre; Ok (RStruct fields')).
Proof.
  cbn [apply_env_value]. f_equal. induction fields as [|[[field tag] value] rest IH]; [done|].
  cbn [apply_env_fields]. by rewrite <-IH.
Qed.

(** The variable of a field that is reached by tags. *)
Fixpoint leaf (v : rvalue) (pre : bytes) (path : list bytes) : option (rvalue * bytes) :=
  match path, v with
  | [], RStruct _ => None
  | [], _ => Some (v, pre)
  | tag :: path, RStruct fields =>
      match list_find (λ f, f.1.2 = tag) fields with
      | Some (_, (field, t, value)) => leaf value (env_name pre field t) path
      | None => None
      end
  | _ :: _, _ => None
  end.

Definition is_struct (v : rvalue) : bool := match v with RStruct _ => true | _ => false end.

(** What a variable makes of a field. *)
Definition overridden (lookup_env : bytes → option bytes) (v : rvalue) (name : bytes) : result rvalue :=
  match lookup_env name with None => Ok v | Some raw => set_value v raw end.

Lemma apply_env_fields_find lookup_env tag pre : ∀ fields fields',
  apply_env_fields lookup_env fields pre = Ok fields' →
  match list_find (λ f : bytes * bytes * rvalue, f.1.2 = tag) fields with
  | Some (i, (field, t, value)) => ∃ value', list_find (λ f : bytes * bytes * rvalue, f.1.2 = tag) fields' = Some (i, (field, t, value')) ∧
      if is_struct value then apply_env_value lookup_env value (env_name pre field t) = Ok value'
      else overridden lookup_env value (env_name pre field t) = Ok value'
  | None => list_find (λ f : bytes * bytes * rvalue, f.1.2 = tag) fields' = None
  end.
Proof.
  induction fields as [|[[field t] value] rest IH]; intros fields' E; [by injection E as <-|].
  cbn [apply_env_fields] in E.
  destruct (match value with RStruct _ => _ | _ => _ end) as [value'| |] eqn:Ev; [|done..]. cbn [mbind result_bind] in E.
  destruct (apply_env_fields lookup_env rest pre) as [rest'| |]; [|done..]. injection E as <-.
  specialize (IH rest' eq_refl). cbn [list_find fst snd]. case_decide as Ht.
  - exists value'. split; [done|]. unfold overridden.
    destruct value; cbn [is_struct]; try done; destruct (lookup_env _); try done; by destruct (set_value _ _).
  - destruct (list_find _ rest) as [[i [[f t'] w]]|]; cbn.
    + destruct IH as (w' & -> & Hw). exists w'. done.
    + by rewrite IH.
Qed.

Lemma set_value_leaf v raw v' : is_struct v = false → set_value v raw = Ok v' → is_struct v' = false.
Proof.
  destruct v; try done; intros _; simpl; repeat case_match; intros [= <-]; done.
Qed.

(** Every field becomes what its variable makes of it. *)
Lemma apply_env_leaf lookup_env path : ∀ v pre v' x name,
  apply_env_value lookup_env v pre = Ok v' → is_struct v = true → leaf v pre path = Some (x, name) →
  ∃ x', overridden lookup_env x name = Ok x' ∧ leaf v' pre path = Some (x', name).
Proof.
  induction path as [|tag path IH]; intros v pre v' x name E Hs Hl; (destruct v as [| | | | | |fields]; [done..|]); [done|].
  rewrite apply_env_struct in E. destruct (apply_env_fields lookup_env fields pre) as [fields'| |] eqn:Ef; [|done..].
  injection E as <-. cbn [leaf] in Hl |- *. pose proof (apply_env_fields_find lookup_env tag pre _ _ Ef) as Hf.
  destruct (list_find _ fields) as [[i [[field t] value]]|]; [|done]. destruct Hf as (value' & -> & Hv).
  destruct (is_struct value) eqn:Ev; [by eapply IH|].
  destruct path as [|t' path]; [|by destruct value].
  assert (Hx : Some (value, env_name pre field t) = Some (x, name)) by (by destruct value). injection Hx as <- <-.
  exists value'. split; [done|].
  assert (is_struct value' = false).
  { unfold overridden in Hv. destruct (lookup_env _); [by eapply set_value_leaf|by injection Hv as <-]. }
  by destruct value'.
Qed.

(** ** The walk keeps the shape *)

Fixpoint shape (v : rvalue) : rvalue :=
  match v with
  | RString _ => RString []
  | RBool _ => RBool false
  | RInt _ => RInt 0
  | RDuration _ => RDuration 0
  | RStrings _ => RStrings []
  | RSlice name => RSlice name
  | RStruct fields => RStruct (map (λ f, (f.1, shape f.2)) fields)
  end.

Lemma set_value_shape v raw v' : set_value v raw = Ok v' → shape v' = shape v.
Proof. destruct v; simpl; repeat case_match; intros [= <-]; done. Qed.

Lemma apply_env_shape lookup_env : ∀ v pre v', apply_env_value lookup_env v pre = Ok v' → shape v' = shape v.
Proof.
  fix IH 1. intros v pre v' E. destruct v as [| | | | | |fields]; try (by injection E as <-).
  rewrite apply_env_struct in E. destruct (apply_env_fields lookup_env fields pre) as [fields'| |] eqn:Ef; [|done..].
  injection E as <-. cbn [shape]. f_equal. revert fields' Ef.
  induction fields as [|[[field t] value] rest IHf]; intros fields' Ef; [by injection Ef as <-|].
  cbn [apply_env_fields] in Ef.
  destruct (match value with RStruct _ => _ | _ => _ end) as [value'| |] eqn:Ev; [|done..]. cbn [mbind result_bind] in Ef.
  destruct (apply_env_fields lookup_env rest pre) as [rest'| |]; [|done..]. injection Ef as <-.
  cbn [map fst snd]. rewrite (IHf rest' eq_refl). f_equal. f_equal. pose proof (IH value) as IHv. clear IH IHf.
  destruct (is_struct value) eqn:Es; [by destruct value; try done; eapply IHv|].
  destruct value; try done; destruct (lookup_env _) as [raw|]; try (by injection Ev as <-);
    (destruct (set_value _ raw) as [w| |] eqn:Esv in Ev; [|done..]); injection Ev as <-; by eapply set_value_shape.
Qed.

Lemma shape_fields fields l :
  map (λ f : bytes * bytes * rvalue, (f.1, shape f.2)) fields = l →
  match l with
  | [] => fields = []
  | (n, w) :: l => ∃ v rest, fields = (n, v) :: rest ∧ shape v = w ∧
      map (λ f : bytes * bytes * rvalue, (f.1, shape f.2)) rest = l
  end.
Proof.
  destruct fields as [|[n v] rest]; intros <-; [done|]. cbn. by exists v, rest.
Qed.

Lemma shape_leaf v w : shape v = w →
  match w with
  | RString _ => ∃ s, v = RString s
  | RBool _ => ∃ b, v = RBool b
  | RInt _ => ∃ z, v = RInt z
  | RDuration _ => ∃ d, v = RDuration d
  | RStrings _ => ∃ l, v = RStrings l
  | RSlice n => v = RSlice n
  | RStruct l => ∃ fields, v = RStruct fields ∧ map (λ f : bytes * bytes * rvalue, (f.1, shape f.2)) fields = l
  end.
Proof. intros <-. destruct v; cbn; eauto. Qed.

Ltac shape_step :=
  match goal with
  | H : map _ _ = [] |- _ => apply (shape_fields _ []) in H; subst
  | H : map _ _ = (?n, ?w) :: ?l |- _ =>
      apply (shape_fields _ ((n, w) :: l)) in H; destruct H as (? & ? & -> & ? & ?)
  | H : shape _ = _ |- _ =>
      apply shape_leaf in H; cbn beta iota in H;
      match type of H with
      | ∃ _, _ = _ ∧ _ => destruct H as (? & -> & ?)
      | ∃ _, _ => destruct H as [? ->]
      | _ => subst
      end
  end.

Lemma config_value_of lookup_env c v :
  apply_env_value lookup_env (config_value c) (bs "MONSOON") = Ok v → config_value (config_of_value c v) = v.
Proof.
  intros Hv%apply_env_shape. cbn [shape config_value server_value dhcp_value discovery_value api_value listen_value
    auth_value ha_value backup_value map fst snd fld] in Hv.
  repeat shape_step. reflexivity.
Qed.
End env.
