(* ===== verification/ConfigValidate.v ===== *)
(** internal/config/validate.go: the checks of a configuration, and what the rest
    of the program gets from them.

    [validate] collects the messages in the order of the code; texts of library
    errors inside messages are left out.  Service names and [url.Parse] are
    arguments. *)

From S2P Require Import Prelude.
From S2P Require Import GoBytes.
From S2P Require Import GoStrings.
From S2P Require Import GoTime.
From S2P Require Import GoNet.
From S2P Require Import GoNet6.
From S2P Require Import GoPrefix.
From S2P Require Import GoPort.
From S2P Require Import ConfigTypes.
From S2P Require Import ConfigEnv.

(** [url.Parse]: the scheme and the host, or none. *)
Class UrlParse := { url_parse : bytes → option (bytes * bytes) }.

Section validate.
Context `{UnicodeTables} `{Services} `{UrlParse}.

(** [if b { errs = append(errs, msg) }] *)
Definition check (b : bool) (msg : bytes) : list bytes := if b then [msg] else [].
Definition idx_msg (fmt : string) (args : list fmt_arg) : bytes := render (bs fmt) args.

Definition prefixes_overlap (a b : prefix) : bool :=
  let a := prefix_masked a in
  let b := prefix_masked b in
  prefix_contains a (p_addr b) || prefix_contains b (p_addr a).

Definition last_byte (s : bytes) : option byte := last s.

Definition validate_listen_addr (a : bytes) : option error :=
  let a := trim_space a in
  if bool_decide (a = []) then Some (errorNew "address is empty")
  else
    let split : result (bytes * bytes) :=
      match split_host_port a with
      | Some hp => Ok hp
      | None => if bool_decide (hd_error a = Some colon) then Ok ([], drop 1 a)
                else Err (errorNew "missing port in address")
      end in
    match split with
    | Ok (host, port) =>
        let bad_host :=
          negb (bool_decide (host = [])) &&
          (let host := if bool_decide (hd_error host = Some (byte_of_Z 91)) && bool_decide (last_byte host = Some (byte_of_Z 93))
                       then removelast (drop 1 host) else host in
           bool_decide (parse_ip host = [])) in
        if bad_host then Some (Errorf "invalid host %q" [FB host])
        else
          match lookup_port port with
          | Ok p => if (p <? 1) || (65535 <? p) then Some (Errorf "invalid port %d" [FZ p]) else None
          | Err e => Some e
          | Panic m => Some (ErrIO m)
          end
    | Err e => Some e
    | Panic m => Some (ErrIO m)
    end.

Definition validate_tls_pair (pre : string) (cert key : bytes) : list bytes :=
  check (negb (Bool.eqb (negb (bool_decide (trim_space cert = []))) (negb (bool_decide (trim_space key = [])))))
    (bs pre ++ bs ".tls_cert_file and " ++ bs pre ++ bs ".tls_key_file must either both be set or both be empty").

Definition validate_trusted_proxy (value : bytes) : option error :=
  let value := trim_space value in
  if bool_decide (value = []) then Some (errorNew "must not be empty")
  else
    match parse_addr value, parse_prefix value with
    | Ok _, _ => None
    | _, Ok _ => None
    | _, _ => Some (errorNew "must be an IP address or CIDR")
    end.

Definition message (pre : bytes) (e : option error) : list bytes :=
  match e with Some e => [pre ++ error_text e] | None => [] end.

(** The messages of the elements of a list. *)
Fixpoint collect {A} (f : nat → A → list bytes) (i : nat) (l : list A) : list bytes :=
  match l with [] => [] | a :: l => f i a ++ collect f (S i) l end.

Definition validate_server (c : ServerConfig) : list bytes :=
  check (bool_decide (trim_space (sv_data_dir c) = [])) (bs "server.data_dir is required") ++
  check (negb (bool_decide (to_lower (sv_log_level c) ∈ map bs ["debug"; "info"; "warn"; "error"]%string)))
    (bs "server.log_level must be one of debug, info, warn, error") ++
  check (negb (bool_decide (to_lower (sv_log_format c) ∈ map bs ["json"; "text"]%string)))
    (bs "server.log_format must be one of json, text").

Definition validate_dhcp (c : DHCPConfig) : list bytes :=
  check (dc_default_lease_time c <=? 0) (bs "dhcp.default_lease_time must be > 0") ++
  check (dc_max_lease_time c <=? 0) (bs "dhcp.max_lease_time must be > 0") ++
  check (dc_max_lease_time c <? dc_default_lease_time c) (bs "dhcp.max_lease_time must be >= dhcp.default_lease_time") ++
  (if dd_enabled (dc_ddns c) then
     check (bool_decide (trim_space (dd_dns_server (dc_ddns c)) = []))
       (bs "dhcp.ddns.dns_server is required when dhcp.ddns.enabled=true") ++
     (let algorithm := to_lower (trim_space (dd_tsig_algorithm (dc_ddns c))) in
      check (negb (bool_decide (algorithm = [])) && negb (bool_decide (algorithm = bs "hmac-sha256")))
        (bs "dhcp.ddns.tsig_algorithm must be hmac-sha256"))
   else []).

Definition validate_api (auth_enabled : bool) (c : APIConfig) : list bytes :=
  message (bs "api.rest.listen: ") (validate_listen_addr (rs_listen (ap_rest c))) ++
  message (bs "api.grpc.listen: ") (validate_listen_addr (lc_listen (ap_grpc c))) ++
  check (rs_rate_limit (ap_rest c) <=? 0) (bs "api.rest.rate_limit must be > 0") ++
  check (rs_auth_rate_limit (ap_rest c) <=? 0) (bs "api.rest.auth_rate_limit must be > 0") ++
  collect (λ i proxy, message (idx_msg "api.rest.trusted_proxies[%d]: " [FZ (Z.of_nat i)]) (validate_trusted_proxy proxy))
    0 (rs_trusted_proxies (ap_rest c)) ++
  validate_tls_pair "api.rest" (rs_tls_cert_file (ap_rest c)) (rs_tls_key_file (ap_rest c)) ++
  validate_tls_pair "api.grpc" (lc_tls_cert_file (ap_grpc c)) (lc_tls_key_file (ap_grpc c)) ++
  validate_tls_pair "api.mcp" (lc_tls_cert_file (ap_mcp c)) (lc_tls_key_file (ap_mcp c)) ++
  check (auth_enabled && bool_decide (bs "*" ∈ trim_space <$> rs_cors_origins (ap_rest c)))
    (bs "api.rest.cors_origins must not contain * when auth.enabled=true").

Definition validate_webhook (i : nat) (h : WebhookConfig) : list bytes :=
  let at_ fmt := idx_msg fmt [FZ (Z.of_nat i)] in
  check (bool_decide (trim_space (wh_name h) = [])) (at_ "webhooks[%d].name is required"%string) ++
  (if bool_decide (trim_space (wh_url h) = []) then [at_ "webhooks[%d].url is required"%string]
   else
     check (match url_parse (trim_space (wh_url h)) with
            | Some (scheme, host) => bool_decide (scheme = []) || bool_decide (host = [])
            | None => true
            end) (at_ "webhooks[%d].url is invalid"%string)) ++
  (let format := to_lower (trim_space (wh_format h)) in
   let format := if bool_decide (format = []) then bs "json" else format in
   check (negb (bool_decide (format ∈ map bs ["json"; "slack"]%string)))
     (at_ "webhooks[%d].format must be json or slack"%string)) ++
  check (bool_decide (wh_events h = [])) (at_ "webhooks[%d].events must not be empty"%string) ++
  check (wh_max_attempts h <? 0) (at_ "webhooks[%d].retry.max_attempts must be >= 0"%string) ++
  (let backoff := trim_space (to_lower (wh_backoff h)) in
   check (negb (bool_decide (backoff ∈ [[]; bs "exponential"; bs "fixed"])))
     (at_ "webhooks[%d].retry.backoff must be exponential or fixed"%string)).

Definition validate_auth (c : AuthConfig) : list bytes :=
  check (au_enabled c && bool_decide (trim_space (au_type c) = [])) (bs "auth.type is required when auth.enabled=true") ++
  check (au_enabled c && negb (equal_fold (trim_space (au_type c)) (bs "local"))) (bs "auth.type must be local in this build") ++
  (if au_enabled c && equal_fold (trim_space (au_type c)) (bs "local") then
     check (la_max_failed_attempts (au_local c) <=? 0) (bs "auth.local.max_failed_attempts must be > 0") ++
     check (la_lockout_duration (au_local c) <=? 0) (bs "auth.local.lockout_duration must be > 0")
   else []).

Definition validate_ha (c : HAConfig) : list bytes :=
  if hc_enabled c then
    (if bool_decide (trim_space (hc_peer_address c) = []) then [bs "ha.peer_address is required when ha.enabled=true"]
     else message (bs "ha.peer_address: ") (validate_listen_addr (hc_peer_address c))) ++
    check (hc_priority c <=? 0) (bs "ha.priority must be > 0") ++
    check (hc_witness_hold_time c <? 0) (bs "ha.witness_hold_time must be >= 0")
  else [].

(** ** Subnets *)

Definition validate_reservation_config (prefix : prefix) (i j : nat) (r : ReservationConfig) : list bytes :=
  let at_ fmt := idx_msg fmt [FZ (Z.of_nat i); FZ (Z.of_nat j)] in
  check (bool_decide (parse_mac (rc_mac r) = None)) (at_ "subnets[%d].reservations[%d].mac invalid"%string) ++
  match parse_addr (rc_ip r) with
  | Ok ip => check (negb (prefix_contains prefix ip)) (at_ "subnets[%d].reservations[%d].ip outside subnet"%string)
  | _ => [at_ "subnets[%d].reservations[%d].ip invalid"%string]
  end.

Definition validate_gateway (prefix : prefix) (i : nat) (gateway : bytes) : list bytes :=
  if bool_decide (gateway = []) then []
  else
    match parse_addr gateway with
    | Ok gw => check (negb (prefix_contains prefix gw)) (idx_msg "subnets[%d].gateway not in cidr" [FZ (Z.of_nat i)])
    | _ => [idx_msg "subnets[%d].gateway invalid" [FZ (Z.of_nat i)]]
    end.

Definition validate_subnet_dhcp (prefix : prefix) (i : nat) (s : SubnetConfig) : list bytes :=
  let at_ fmt := idx_msg fmt [FZ (Z.of_nat i)] in
  if sc_dhcp_enabled s then
    match parse_addr (sc_pool_start s), parse_addr (sc_pool_end s) with
    | Ok start, Ok end_ =>
        check (negb (prefix_contains prefix start) || negb (prefix_contains prefix end_))
          (at_ "subnets[%d].dhcp pool range outside subnet"%string) ++
        check (bool_decide (addr_compare (Some start) (Some end_) = Gt))
          (at_ "subnets[%d].dhcp pool_start must be <= pool_end"%string)
    | _, _ => [at_ "subnets[%d].dhcp pool_start/pool_end invalid"%string]
    end ++
    check ((sc_lease_time s <? 0) || (sc_max_lease_time s <? 0))
      (at_ "subnets[%d].dhcp lease durations must be >= 0"%string) ++
    check ((0 <? sc_max_lease_time s) && (0 <? sc_lease_time s) && (sc_max_lease_time s <? sc_lease_time s))
      (at_ "subnets[%d].dhcp.max_lease_time must be >= lease_time"%string)
  else [].

(** The loop over the subnets; [prefixes] are those parsed so far. *)
Fixpoint validate_subnets (i : nat) (prefixes : list prefix) (subnets : list SubnetConfig) : list bytes :=
  match subnets with
  | [] => []
  | s :: rest =>
      match parse_prefix (sc_cidr s) with
      | Ok prefix =>
          collect (λ j existing, check (prefixes_overlap prefix existing)
            (idx_msg "subnets[%d].cidr overlaps subnets[%d].cidr" [FZ (Z.of_nat i); FZ (Z.of_nat j)])) 0 prefixes ++
          validate_gateway prefix i (sc_gateway s) ++
          collect (validate_reservation_config prefix i) 0 (sc_reservations s) ++
          validate_subnet_dhcp prefix i s ++
          validate_subnets (S i) (prefixes ++ [prefix]) rest
      | _ =>
          idx_msg "subnets[%d].cidr invalid" [FZ (Z.of_nat i)] :: validate_subnets (S i) prefixes rest
      end
  end.

Definition validation_messages (c : Config) : list bytes :=
  validate_server (cf_server c) ++ validate_dhcp (cf_dhcp c) ++ validate_api (au_enabled (cf_auth c)) (cf_api c) ++
  collect validate_webhook 0 (cf_webhooks c) ++ validate_auth (cf_auth c) ++ validate_ha (cf_ha c) ++
  validate_subnets 0 [] (cf_subnets c).

(** [Validate] *)
Definition validate (c : Config) : option error :=
  match validation_messages c with
  | [] => None
  | errs => Some (Errorf "%s" [FB (join errs (bs "; "))])
  end.

(** ** config.go and reload.go *)

(** What [os.ReadFile] gives, and [yaml.Unmarshal] over the defaults. *)
Inductive config_file :=
| FileMissing
| FileError (e : error)
| FileText (text : bytes).

Definition default_config_path : bytes := bs "/etc/monsoon/monsoon.yaml".

(** [Load] *)
Definition load (read_file : bytes → config_file) (yaml_unmarshal : bytes → Config → result Config)
    (lookup_env : bytes → option bytes) (path : bytes) : result Config :=
  let path := if bool_decide (trim_space path = []) then default_config_path else path in
  let finish (cfg : Config) : result Config :=
    cfg ← apply_env_overrides lookup_env cfg;
    match validate cfg with Some e => Err e | None => Ok cfg end in
  match read_file path with
  | FileMissing => finish default_config
  | FileError e => Err (Errorf "read config: %s" [FB (error_text e)])
  | FileText text =>
      match yaml_unmarshal text default_config with
      | Ok cfg => finish cfg
      | Err e => Err (Errorf "parse yaml: %s" [FB (error_text e)])
      | Panic m => Panic m
      end
  end.

(** [config.Manager]: the callbacks are known by the order they were registered in. *)
Record ConfigManager := mkConfigManager { cm_path : bytes; cm_cfg : Config; cm_on_reloads : list nat }.

(** [Reload]: the new manager and the callbacks that are called with the new configuration. *)
Definition reload (read_file : bytes → config_file) (yaml_unmarshal : bytes → Config → result Config)
    (lookup_env : bytes → option bytes) (m : ConfigManager) : ConfigManager * list (nat * Config) * option error :=
  match load read_file yaml_unmarshal lookup_env (cm_path m) with
  | Ok cfg => (mkConfigManager (cm_path m) cfg (cm_on_reloads m), (λ cb, (cb, cfg)) <$> cm_on_reloads m, None)
  | Err e => (m, [], Some (Errorf "reload config: %s" [FB (error_text e)]))
  | Panic e => (m, [], Some (ErrIO e))
  end.

Definition new_config_manager (read_file : bytes → config_file) (yaml_unmarshal : bytes → Config → result Config)
    (lookup_env : bytes → option bytes) (path : bytes) : result ConfigManager :=
  cfg ← load read_file yaml_unmarshal lookup_env path; Ok (mkConfigManager path cfg []).

(** [RegisterOnReload] of a callback that is not nil. *)
Definition register_on_reload (m : ConfigManager) (cb : nat) : ConfigManager :=
  mkConfigManager (cm_path m) (cm_cfg m) (cm_on_reloads m ++ [cb]).
End validate.
