(* ===== verification/StorageTree.v ===== *)
(** internal/storage/btree.go and internal/storage/index.go.

    [BTree] is the sorted key slice with the item map; [IndexManager] the
    secondary indexes kept in such trees.  The trees copy every slice they take
    or return, so values need no aliasing here. *)

From S2P Require Import Prelude.
From S2P Require Import GoBytes.
From S2P Require Import GoStrings.

Module BTree.

Record t := mk { keys : list bytes; items : gmap bytes bytes }.

(** [NewBTree] *)
Definition new : t := mk [] ∅.

(** The [sort.Search] call of [Set], [Delete] and [Iterate]. *)
Definition lower_bound (ks : list bytes) (key : bytes) : nat :=
  Z.to_nat (sort_search (zlen ks) (λ i,
    match ks !! Z.to_nat i with
    | Some k => bool_decide (bytes_compare k key ≠ Lt)
    | None => false
    end)).

Definition get (tr : t) (key : bytes) : option bytes := items tr !! key.

Definition set (tr : t) (key value : bytes) : t :=
  let ks := match items tr !! key with
    | None =>
        let idx := lower_bound (keys tr) key in
        let ks := keys tr ++ [[]] in
        let ks := go_copy ks (idx + 1) (drop idx ks) in
        <[idx := key]> ks
    | Some _ => keys tr
    end in
  mk ks (<[key := value]> (items tr)).

Definition delete (tr : t) (key : bytes) : t * bool :=
  match items tr !! key with
  | None => (tr, false)
  | Some _ =>
      let idx := lower_bound (keys tr) key in
      let ks :=
        if bool_decide (keys tr !! idx = Some key) then
          let ks := go_copy (keys tr) idx (drop (idx + 1) (keys tr)) in
          take (length (keys tr) - 1) ks
        else keys tr in
      (mk ks (base.delete key (items tr)), true)
  end.

Definition len (tr : t) : Z := Z.of_nat (size (items tr)).

(** [t.items[string(k)]]: a missing key reads as the nil slice. *)
Definition item (tr : t) (k : bytes) : bytes := default [] (items tr !! k).

Definition snapshot (tr : t) : list (bytes * bytes) :=
  map (λ k, (k, item tr k)) (keys tr).

(** The loop of [Iterate]; [fn] carries the variables its closure captures. *)
Fixpoint iterate_loop {S} (tr : t) (ks : list bytes) (end_ : bytes)
    (fn : S → bytes → bytes → S * bool) (s : S) : S :=
  match ks with
  | [] => s
  | k :: ks' =>
      if (0 <? zlen end_) && bool_decide (bytes_compare k end_ = Gt) then s
      else
        let '(s', more) := fn s k (item tr k) in
        if more : bool then iterate_loop tr ks' end_ fn s' else s'
  end.

Definition iterate {S} (tr : t) (start end_ : bytes)
    (fn : S → bytes → bytes → S * bool) (s : S) : S :=
  let idx := if 0 <? zlen start then lower_bound (keys tr) start else O in
  iterate_loop tr (drop idx (keys tr)) end_ fn s.

(** ** The invariant: the slice lists the keys of the map in order *)

Record wf (tr : t) : Prop := {
  wf_sorted : StronglySorted bytes_lt (keys tr);
  wf_dom : ∀ k, k ∈ keys tr ↔ k ∈ dom (items tr);
}.

Lemma wf_new : wf new.
Proof. split; simpl; [constructor|set_solver]. Qed.

(** On sorted keys the binary search splits them around [key]. *)
Lemma lower_bound_split ks key :
  StronglySorted bytes_lt ks →
  ∃ l r, ks = l ++ r ∧ length l = lower_bound ks key ∧
    Forall (λ k, bytes_lt k key) l ∧ Forall (bytes_le key) r.
Proof.
  intros Hs. unfold lower_bound. set (f := λ i : Z, match _ with Some _ => _ | _ => _ end).
  assert (Hf : ∀ i k, ks !! i = Some k → f (Z.of_nat i) = bool_decide (bytes_le key k)).
  { intros i k Hk. unfold f. rewrite Nat2Z.id, Hk. apply bool_decide_ext.
    by rewrite <-bytes_not_lt. }
  destruct (sort_search_spec f (zlen ks)) as (Hr & Hlo & Hhi); [apply zlen_nonneg|..].
  { intros a b Ha Hab Hb. unfold zlen in Hb.
    destruct (lookup_lt_is_Some_2 ks (Z.to_nat a)) as [x Hx]; [lia|].
    destruct (lookup_lt_is_Some_2 ks (Z.to_nat b)) as [y Hy]; [lia|].
    rewrite <-(Z2Nat.id a), <-(Z2Nat.id b), (Hf _ x), (Hf _ y), !bool_decide_eq_true by (done || lia).
    intros ?. transitivity x; [done|]. apply bytes_le_lt_eq.
    eapply StronglySorted_lookup; [done..|lia]. }
  set (r := sort_search (zlen ks) f) in *. unfold zlen in Hr, Hhi.
  exists (take (Z.to_nat r) ks), (drop (Z.to_nat r) ks).
  rewrite take_drop, length_take. split_and!; [done|lia|..]; apply Forall_lookup.
  - intros i k [Hk Hi]%lookup_take_Some.
    specialize (Hlo (Z.of_nat i) ltac:(lia)). rewrite (Hf _ _ Hk) in Hlo.
    apply bool_decide_eq_false in Hlo. apply dec_stable. by rewrite bytes_not_lt.
  - intros i k Hk. rewrite lookup_drop in Hk. pose proof (lookup_lt_Some _ _ _ Hk).
    eapply bool_decide_eq_true. rewrite <-(Hf _ _ Hk). apply Hhi. lia.
Qed.

Lemma lower_bound_absent ks key :
  StronglySorted bytes_lt ks → key ∉ ks →
  ∃ l r, ks = l ++ r ∧ lower_bound ks key = length l ∧
    Forall (λ k, bytes_lt k key) l ∧ Forall (bytes_lt key) r.
Proof.
  intros Hs Hk. destruct (lower_bound_split ks key Hs) as (l & r & -> & Hl & Hlt & Hle).
  exists l, r. split_and!; try done. rewrite Forall_forall in Hle |- *.
  intros x Hx. destruct (proj1 (bytes_le_lt_eq _ _) (Hle x Hx)) as [?| ->]; set_solver.
Qed.

Lemma lower_bound_present l key r :
  StronglySorted bytes_lt (l ++ key :: r) → lower_bound (l ++ key :: r) key = length l.
Proof.
  intros Hs. destruct (lower_bound_split _ key Hs) as (l' & r' & E & <- & Hlt & Hle).
  apply StronglySorted_app in Hs as (Hc & _ & _). rewrite Forall_lookup in Hlt, Hle.
  destruct (lt_eq_lt_dec (length l') (length l)) as [[Hn|?]|Hn]; [|done|]; exfalso.
  - destruct (lookup_lt_is_Some_2 l (length l')) as [x Hx]; [done|].
    assert (Hr : r' !! 0%nat = Some x).
    { rewrite <-(Nat.sub_diag (length l')), <-lookup_app_r, <-E by lia.
      by apply lookup_app_l_Some. }
    apply (proj2 (bytes_not_lt x key) (Hle _ _ Hr)), Hc; [|left].
    by eapply list_elem_of_lookup_2.
  - apply (bytes_lt_irrefl key), (Hlt (length l)).
    rewrite <-(lookup_app_l l' r') by done. rewrite <-E.
    by rewrite list_lookup_middle.
Qed.

(** The slice surgery of [Set] and [Delete] is list insertion and removal. *)
Lemma insert_surgery (l r : list bytes) key :
  let ks := (l ++ r) ++ [[]] in
  <[length l := key]> (go_copy ks (length l + 1) (drop (length l) ks)) = l ++ key :: r.
Proof.
  intros ks. unfold go_copy, ks. rewrite <-app_assoc, drop_app_length.
  rewrite (drop_ge _ (_ + length _)) by (rewrite !length_app; simpl; lia).
  rewrite app_nil_r, take_app_add.
  rewrite (take_app_length' r _ (_ - _)) by (rewrite !length_app; simpl; lia).
  destruct (r ++ [[]]) as [|y r'] eqn:E; [by destruct r|]. simpl.
  rewrite <-app_assoc, insert_app_r_alt, Nat.sub_diag by done. done.
Qed.

Lemma delete_surgery (l r : list bytes) key :
  let ks := l ++ key :: r in
  take (length ks - 1) (go_copy ks (length l) (drop (length l + 1) ks)) = l ++ r.
Proof.
  intros ks. unfold go_copy, ks.
  rewrite drop_app_add, take_app_length. simpl. rewrite drop_0.
  rewrite (take_ge r) by (rewrite length_app; simpl; lia).
  rewrite (app_assoc l r), take_app_length'; [done|].
  rewrite !length_app. simpl. lia.
Qed.

(** ** Functional behaviour *)

Lemma set_items tr k v : items (set tr k v) = <[k := v]> (items tr).
Proof. done. Qed.

Lemma set_wf tr k v : wf tr → wf (set tr k v).
Proof.
  intros [Hs Hd]. unfold set. destruct (items tr !! k) as [w|] eqn:E.
  - split; simpl; [done|]. intros x. rewrite Hd, dom_insert_L.
    assert (k ∈ dom (items tr)) by (by eapply elem_of_dom_2). set_solver.
  - assert (k ∉ keys tr) as Hk by (by rewrite Hd, not_elem_of_dom).
    destruct (lower_bound_absent _ _ Hs Hk) as (l & r & El & -> & Hl & Hr).
    cbv zeta. rewrite El, insert_surgery. rewrite El in Hs.
    split; simpl; [by apply StronglySorted_insert|].
    intros x. rewrite dom_insert_L, elem_of_union, <-Hd, El. set_solver.
Qed.

Lemma delete_items tr k : items (delete tr k).1 = base.delete k (items tr).
Proof.
  unfold delete. destruct (items tr !! k) eqn:E; [done|].
  simpl. by rewrite delete_id.
Qed.

Lemma delete_found tr k : (delete tr k).2 = bool_decide (is_Some (items tr !! k)).
Proof.
  unfold delete. by destruct (items tr !! k).
Qed.

Lemma delete_wf tr k : wf tr → wf (delete tr k).1.
Proof.
  intros [Hs Hd]. unfold delete. destruct (items tr !! k) as [w|] eqn:E; [|done].
  assert (k ∈ keys tr) as Hk by (rewrite Hd; by eapply elem_of_dom_2).
  apply list_elem_of_split in Hk as (l & r & El).
  rewrite El in *. rewrite (lower_bound_present l k r Hs).
  rewrite bool_decide_eq_true_2 by by apply list_lookup_middle.
  cbv zeta. rewrite delete_surgery.
  split; simpl; [by eapply StronglySorted_delete|].
  assert (k ∉ l ++ r) as Hnk.
  { pose proof (StronglySorted_NoDup _ _ Hs) as Hnd.
    rewrite <-Permutation_middle in Hnd. by apply NoDup_cons in Hnd as [? _]. }
  intros x. rewrite dom_delete_L. specialize (Hd x). set_solver.
Qed.

Lemma keys_NoDup tr : wf tr → NoDup (keys tr).
Proof. intros [Hs _]. exact (StronglySorted_NoDup _ _ Hs). Qed.

(** A well-formed tree is determined by its map. *)
Lemma wf_eq tr tr' : wf tr → wf tr' → items tr = items tr' → tr = tr'.
Proof.
  intros Hwf Hwf' E. pose proof (keys_NoDup tr Hwf). pose proof (keys_NoDup tr' Hwf').
  destruct Hwf as [Hs Hd], Hwf' as [Hs' Hd'], tr as [ks m], tr' as [ks' m'].
  simpl in *. subst m'. f_equal. apply (StronglySorted_unique_strong bytes_lt); [|done..|].
  - intros x y _ _ Hxy Hyx. destruct (bytes_lt_irrefl x). by eapply bytes_lt_trans.
  - apply NoDup_Permutation; [done..|]. intros x. by rewrite Hd, Hd'.
Qed.

Lemma elem_of_snapshot tr k v : wf tr → (k, v) ∈ snapshot tr ↔ items tr !! k = Some v.
Proof.
  intros [_ Hd]. unfold snapshot, item. rewrite list_elem_of_fmap. split.
  - intros (k' & [= <- ->] & [w Hw]%Hd%elem_of_dom). by rewrite Hw.
  - intros Hk. exists k. rewrite Hk. split; [done|]. apply Hd. by eapply elem_of_dom_2.
Qed.

Lemma snapshot_sorted tr : wf tr → StronglySorted bytes_lt (snapshot tr).*1.
Proof.
  intros [Hs _]. unfold snapshot. rewrite <-list_fmap_compose.
  erewrite list_fmap_ext; [by rewrite list_fmap_id|done].
Qed.

(** ** [Iterate]: the rows of a closed range, in order *)

Definition range (tr : t) (start end_ : bytes) : list (bytes * bytes) :=
  filter (λ kv, bytes_le start kv.1 ∧ (end_ = [] ∨ bytes_le kv.1 end_)) (snapshot tr).

Fixpoint fold_until {S} (fn : S → bytes → bytes → S * bool) (s : S)
    (rows : list (bytes * bytes)) : S :=
  match rows with
  | [] => s
  | (k, v) :: rows' =>
      let '(s', more) := fn s k v in
      if more : bool then fold_until fn s' rows' else s'
  end.

Lemma iterate_loop_spec {S} tr ks end_ (fn : S → bytes → bytes → S * bool) s :
  StronglySorted bytes_lt ks →
  iterate_loop tr ks end_ fn s =
    fold_until fn s (filter (λ kv, end_ = [] ∨ bytes_le kv.1 end_)
                       (map (λ k, (k, item tr k)) ks)).
Proof.
  intros Hs. revert s. induction Hs as [|k ks Hs IH Hk]; intros s; [done|]. simpl.
  assert (Hlen : (0 <? zlen end_) = bool_decide (end_ ≠ [])).
  { destruct end_; [done|]. rewrite zlen_cons, bool_decide_eq_true_2 by done.
    apply Z.ltb_lt. pose proof (zlen_nonneg end_). lia. }
  rewrite Hlen. destruct (decide (end_ = [] ∨ bytes_le k end_)) as [Hin|Hout].
  - rewrite filter_cons_True by done. simpl.
    replace (_ && _) with false; [by destruct (fn s k _) as [s' []]|].
    symmetry. apply andb_false_iff. rewrite !bool_decide_eq_false. unfold bytes_le in Hin.
    tauto.
  - rewrite filter_cons_False by done.
    replace (_ && _) with true.
    + rewrite (proj2 (list_filter_nil_iff _ _)); [done|]. rewrite Forall_fmap, Forall_forall.
      simpl. intros k' Hk'. rewrite Forall_forall in Hk. specialize (Hk _ Hk').
      intros [Hn|Hle]; [by apply Hout; left|]. apply Hout. right.
      transitivity k'; [|done]. apply bytes_le_lt_eq. by left.
    + symmetry. apply andb_true_iff. rewrite !bool_decide_eq_true. unfold bytes_le in Hout.
      split; [tauto|]. apply dec_stable. tauto.
Qed.

Lemma iterate_spec {S} tr start end_ (fn : S → bytes → bytes → S * bool) s :
  wf tr → iterate tr start end_ fn s = fold_until fn s (range tr start end_).
Proof.
  intros [Hs _]. unfold iterate, range, snapshot.
  destruct (lower_bound_split (keys tr) start Hs) as (l & r & El & Hl & Hlt & Hle).
  set (idx := if 0 <? zlen start then lower_bound (keys tr) start else O).
  assert (∃ l' r', keys tr = l' ++ r' ∧ length l' = idx ∧
    Forall (λ k, bytes_lt k start) l' ∧ Forall (bytes_le start) r') as (l' & r' & E & <- & Hlt' & Hle').
  { subst idx. destruct start as [|x start]; [|by exists l, r].
    exists [], (keys tr). split_and!; [done..|]. apply Forall_forall.
    intros k _. by destruct k. }
  rewrite E, drop_app_length, iterate_loop_spec.
  - f_equal. rewrite map_app, filter_app.
    rewrite (proj2 (list_filter_nil_iff _ (map _ l'))); simpl.
    + clear -Hle'. induction Hle' as [|k r' Hk Hr IH]; [done|]. simpl.
      rewrite !filter_cons. simpl. repeat case_decide; try tauto; by rewrite IH.
    + rewrite Forall_fmap. eapply Forall_impl; [done|]. simpl.
      intros k Hk [Hk' _]. by apply (proj2 (bytes_not_lt k start) Hk').
  - rewrite E in Hs. by apply StronglySorted_app in Hs as (_ & _ & ?).
Qed.

(** The callback of the prefix scans: collect the values, stop past the prefix. *)
Definition collect_prefix (prefix : bytes) (res : list bytes) (k v : bytes)
    : list bytes * bool :=
  if has_prefix k prefix then (res ++ [v], true) else (res, false).

Lemma fold_collect_prefix prefix res rows :
  StronglySorted bytes_lt rows.*1 → Forall (λ kv, bytes_le prefix kv.1) rows →
  fold_until (collect_prefix prefix) res rows =
    res ++ (filter (λ kv, has_prefix kv.1 prefix = true) rows).*2.
Proof.
  revert res. induction rows as [|[k v] rows IH]; intros res Hs Hle; simpl.
  { by rewrite app_nil_r. }
  rewrite fmap_cons, StronglySorted_cons in Hs. destruct Hs as [Hk Hs].
  apply Forall_cons in Hle as [Hlek Hle]. unfold collect_prefix at 1.
  destruct (has_prefix k prefix) eqn:E.
  - rewrite filter_cons_True by done. rewrite IH by done. simpl. by rewrite <-app_assoc.
  - rewrite filter_cons_False by (simpl; congruence).
    rewrite (proj2 (list_filter_nil_iff _ _)); [by rewrite app_nil_r|].
    rewrite Forall_fmap in Hk. eapply Forall_impl; [exact Hk|]. simpl.
    intros kv Hlt. rewrite (prefix_range_end prefix k); done.
Qed.

Lemma iterate_prefix tr prefix :
  wf tr →
  iterate tr prefix [] (collect_prefix prefix) [] =
    (filter (λ kv, has_prefix kv.1 prefix = true) (snapshot tr)).*2.
Proof.
  intros Hwf. rewrite iterate_spec by done. unfold range.
  rewrite fold_collect_prefix.
  - simpl. f_equal. rewrite list_filter_filter. apply list_filter_iff.
    intros [k v]. simpl. split; [tauto|]. intros Hp. split; [done|]. split; [|by left].
    apply has_prefix_spec in Hp as [r ->]. apply bytes_le_app.
  - apply (StronglySorted_map fst), StronglySorted_filter.
    by apply (proj1 (StronglySorted_map fst _ _)), snapshot_sorted.
  - apply Forall_forall. intros kv Hkv. by apply list_elem_of_filter in Hkv as [[? _] _].
Qed.
End BTree.

Module IndexManager.

(** [IndexFunc]: the index keys of a row. *)
Definition index_func := bytes → bytes → list bytes.

Record t := mk { indexes : gmap bytes index_func; trees : gmap bytes BTree.t }.

(** [NewIndexManager] *)
Definition new : t := mk ∅ ∅.

Definition create (m : t) (name : bytes) (fn : index_func) : t * option error :=
  match indexes m !! name with
  | Some _ => (m, Some (Errorf "index %s already exists" [FB name]))
  | None => (mk (<[name := fn]> (indexes m)) (<[name := BTree.new]> (trees m)), None)
  end.

(** [composeIndexKey] *)
Definition compose_index_key (index_key primary_key : bytes) : bytes :=
  index_key ++ Init.Byte.x00 :: primary_key.

(** The body of [Update]'s loop, for one index.  A nil slice is [None]. *)
Definition update_tree (fn : index_func) (pk : bytes) (old new : option bytes)
    (tr : BTree.t) : BTree.t :=
  let tr := match old with
    | Some v => foldl (λ tr ik, (BTree.delete tr (compose_index_key ik pk)).1) tr (fn pk v)
    | None => tr
    end in
  match new with
  | Some v => foldl (λ tr ik, BTree.set tr (compose_index_key ik pk) pk) tr (fn pk v)
  | None => tr
  end.

(** Each index has a tree of its own, so the order of the map does not matter. *)
Definition update (m : t) (pk : bytes) (old new : option bytes) : t :=
  mk (indexes m)
     (map_imap (λ name tr, Some match indexes m !! name with
                                | Some fn => update_tree fn pk old new tr
                                | None => tr
                                end) (trees m)).

Definition scan (m : t) (name prefix : bytes) : list bytes :=
  match trees m !! name with
  | None => []
  | Some tr => BTree.iterate tr prefix [] (BTree.collect_prefix prefix) []
  end.

(** ** An index lists exactly the rows of the primary map *)

(** Index keys without the separator byte can be told apart from the
    primary key they are composed with. *)
Definition sep_free (fn : index_func) : Prop :=
  ∀ pk v ik, ik ∈ fn pk v → Init.Byte.x00 ∉ ik.

Definition indexed (fn : index_func) (rows : gmap bytes bytes) (tr : BTree.t) : Prop :=
  BTree.wf tr ∧
  ∀ key w, BTree.items tr !! key = Some w ↔
    ∃ v ik, rows !! w = Some v ∧ ik ∈ fn w v ∧ key = compose_index_key ik w.

Lemma compose_inj ik ik' pk pk' :
  Init.Byte.x00 ∉ ik → Init.Byte.x00 ∉ ik' →
  compose_index_key ik pk = compose_index_key ik' pk' → ik = ik' ∧ pk = pk'.
Proof. apply sep_prefix_inj. Qed.

Lemma foldl_delete iks pk tr :
  BTree.wf tr →
  let tr' := foldl (λ tr ik, (BTree.delete tr (compose_index_key ik pk)).1) tr iks in
  BTree.wf tr' ∧ ∀ key w, BTree.items tr' !! key = Some w ↔
    BTree.items tr !! key = Some w ∧ key ∉ map (λ ik, compose_index_key ik pk) iks.
Proof.
  revert tr. induction iks as [|ik iks IH]; intros tr Hwf; simpl.
  - split; [done|]. intros. rewrite elem_of_nil. tauto.
  - destruct (IH _ (BTree.delete_wf tr (compose_index_key ik pk) Hwf)) as [Hwf' Hi].
    split; [done|]. intros key w.
    rewrite Hi, BTree.delete_items, lookup_delete_Some, not_elem_of_cons. naive_solver.
Qed.

Lemma foldl_set iks pk tr :
  BTree.wf tr →
  let tr' := foldl (λ tr ik, BTree.set tr (compose_index_key ik pk) pk) tr iks in
  BTree.wf tr' ∧ ∀ key w, BTree.items tr' !! key = Some w ↔
    key ∈ map (λ ik, compose_index_key ik pk) iks ∧ w = pk ∨
    key ∉ map (λ ik, compose_index_key ik pk) iks ∧ BTree.items tr !! key = Some w.
Proof.
  revert tr. induction iks as [|ik iks IH]; intros tr Hwf; simpl.
  - split; [done|]. intros. rewrite elem_of_nil. tauto.
  - destruct (IH _ (BTree.set_wf tr (compose_index_key ik pk) pk Hwf)) as [Hwf' Hi].
    split; [done|]. intros key w.
    rewrite Hi, BTree.set_items, lookup_insert_Some, not_elem_of_cons, elem_of_cons.
    destruct (decide (key ∈ map (λ ik, compose_index_key ik pk) iks)),
      (decide (key = compose_index_key ik pk)); naive_solver.
Qed.

Definition set_row (rows : gmap bytes bytes) (pk : bytes) (new : option bytes) :=
  match new with Some v => <[pk := v]> rows | None => delete pk rows end.

Lemma update_tree_indexed fn rows pk new tr :
  sep_free fn → indexed fn rows tr →
  indexed fn (set_row rows pk new) (update_tree fn pk (rows !! pk) new tr).
Proof.
  intros Hsep [Hwf Hi]. unfold update_tree.
  set (tr1 := match rows !! pk with Some v => _ | None => tr end).
  assert (BTree.wf tr1 ∧ ∀ key w, BTree.items tr1 !! key = Some w ↔
    w ≠ pk ∧ ∃ v ik, rows !! w = Some v ∧ ik ∈ fn w v ∧ key = compose_index_key ik w)
    as [Hwf1 Hi1].
  { subst tr1. destruct (rows !! pk) as [old|] eqn:Hold.
    - destruct (foldl_delete (fn pk old) pk tr Hwf) as [Hwf1 Hi1]. split; [done|].
      intros key w. rewrite Hi1, Hi, list_elem_of_fmap. split.
      + intros [(v & ik & Hw & Hik & ->) Hn]. split; [|by eauto]. intros ->.
        simplify_eq. apply Hn. eauto.
      + intros (Hne & v & ik & Hw & Hik & ->). split; [by eauto|].
        intros (ik' & E & Hik'). apply compose_inj in E as [? ?]; [by subst|by eapply Hsep..].
    - split; [done|]. intros key w. rewrite Hi. naive_solver. }
  destruct new as [v|]; simpl.
  - destruct (foldl_set (fn pk v) pk tr1 Hwf1) as [Hwf2 Hi2]. split; [done|].
    intros key w. rewrite Hi2, Hi1, list_elem_of_fmap. split.
    + intros [[(ik & -> & Hik) ->]|[Hn (Hne & v' & ik & Hw & Hik & ->)]].
      * exists v, ik. by rewrite lookup_insert_eq.
      * exists v', ik. by rewrite lookup_insert_ne.
    + intros (v' & ik & Hw & Hik & ->). apply lookup_insert_Some in Hw as [[<- <-]|[Hne Hw]].
      * left. eauto.
      * right. split; [|by eauto 10]. intros (ik' & E & Hik').
        apply compose_inj in E as [? ?]; [by subst|by eapply Hsep..].
  - split; [done|]. intros key w. rewrite Hi1. split.
    + intros (Hne & v & ik & Hw & Hr). exists v, ik. by rewrite lookup_delete_ne.
    + intros (v & ik & [Hne Hw]%lookup_delete_Some & Hr). eauto 10.
Qed.

(** Every index of the manager lists the rows of the primary map. *)
Definition ok (m : t) (rows : gmap bytes bytes) : Prop :=
  ∀ name fn, indexes m !! name = Some fn → sep_free fn →
    ∃ tr, trees m !! name = Some tr ∧ indexed fn rows tr.

Lemma ok_new rows : ok new rows.
Proof. intros name fn H. simpl in H. by rewrite lookup_empty in H. Qed.

Lemma update_ok m rows pk new :
  ok m rows → ok (update m pk (rows !! pk) new) (set_row rows pk new).
Proof.
  intros Hok name fn Hn Hsep. destruct (Hok name fn Hn Hsep) as (tr & Htr & Hi).
  eexists. simpl in *. rewrite map_lookup_imap, Htr. simpl. rewrite Hn.
  split; [done|]. by apply update_tree_indexed.
Qed.

Lemma scan_ok m rows name fn prefix pk :
  ok m rows → indexes m !! name = Some fn → sep_free fn →
  pk ∈ scan m name prefix ↔
    ∃ v ik, rows !! pk = Some v ∧ ik ∈ fn pk v ∧
      has_prefix (compose_index_key ik pk) prefix = true.
Proof.
  intros Hok Hn Hsep. destruct (Hok name fn Hn Hsep) as (tr & Htr & Hwf & Hi).
  unfold scan. rewrite Htr, BTree.iterate_prefix, list_elem_of_fmap by done. split.
  - intros ([key w] & -> & [Hp Hs]%list_elem_of_filter). simpl in *.
    apply BTree.elem_of_snapshot, Hi in Hs as (v & ik & ? & ? & ->); eauto.
  - intros (v & ik & Hv & Hik & Hp). exists (compose_index_key ik pk, pk).
    split; [done|]. apply list_elem_of_filter. split; [done|].
    apply BTree.elem_of_snapshot, Hi; eauto.
Qed.
End IndexManager.
