(* ===== verification/Wal.v ===== *)
(** internal/storage/wal.go, with types.go and numeric.go of the same package.

    A write-ahead log is a directory of segments, numbered files of frames
    [length:4][crc32:4][payload].  The directory is a map from segment number to
    file contents; the failures of file operations are the input [append_io]. *)

From S2P Require Import Prelude.
From S2P Require Import GoBytes.

(** * numeric.go *)

Definition safe_uint16_from_int (value : Z) (field : string) : result Z :=
  if (value <? 0) || (65535 <? value)
  then Err (Errorf "%s out of uint16 range: %d" [FB (bs field); FZ value])
  else Ok (u16 value).

Definition safe_uint32_from_int (value : Z) (field : string) : result Z :=
  if (value <? 0) || (4294967295 <? value)
  then Err (Errorf "%s out of uint32 range: %d" [FB (bs field); FZ value])
  else Ok (u32 value).

#[global] Arguments safe_uint16_from_int : simpl never.
#[global] Arguments safe_uint32_from_int : simpl never.

Lemma safe_uint16_ok value field z :
  safe_uint16_from_int value field = Ok z ↔ 0 ≤ value < 65536 ∧ z = value.
Proof.
  unfold safe_uint16_from_int. destruct (_ || _) eqn:E.
  - split; [done|]. rewrite orb_true_iff, !Z.ltb_lt in E. lia.
  - bools. unfold u16. rewrite Z.mod_small by lia. naive_solver lia.
Qed.

Lemma safe_uint32_ok value field z :
  safe_uint32_from_int value field = Ok z ↔ 0 ≤ value < 4294967296 ∧ z = value.
Proof.
  unfold safe_uint32_from_int. destruct (_ || _) eqn:E.
  - split; [done|]. rewrite orb_true_iff, !Z.ltb_lt in E. lia.
  - bools. rewrite u32_id by lia. naive_solver lia.
Qed.

(** * types.go *)

(** [OpType] is a byte; [OpPut] and [OpDel] are the values the code writes. *)
Definition OpPut : byte := Init.Byte.x01.
Definition OpDel : byte := Init.Byte.x02.

Record Mutation := mkMutation {
  m_tree : bytes; m_op : byte; m_key : bytes; m_value : bytes
}.

(** * [crc32.ChecksumIEEE]: the reflected polynomial, bit by bit *)

Definition crc_bit (c : Z) : Z :=
  if Z.odd c then Z.lxor (Z.shiftr c 1) 3988292384 else Z.shiftr c 1.
Definition crc_byte (c : Z) (b : byte) : Z :=
  Nat.iter 8 crc_bit (Z.lxor c (byte_to_Z b)).
Definition crc32 (s : bytes) : Z := Z.lxor (foldl crc_byte max_u32 s) max_u32.

Example crc32_check : crc32 (bs "123456789") = 3421780262.
Proof. vm_compute. reflexivity. Qed.

Lemma lxor_range a b n :
  0 ≤ n → 0 ≤ a < 2 ^ n → 0 ≤ b < 2 ^ n → 0 ≤ Z.lxor a b < 2 ^ n.
Proof.
  intros Hn [Ha0 Ha] [Hb0 Hb]. assert (0 ≤ Z.lxor a b) by (apply Z.lxor_nonneg; lia).
  split; [done|].
  apply Z.bounded_iff_bits_nonneg; [done..|]. intros l Hl. rewrite Z.lxor_spec.
  rewrite (proj1 (Z.bounded_iff_bits_nonneg n a Hn Ha0) Ha l Hl).
  by rewrite (proj1 (Z.bounded_iff_bits_nonneg n b Hn Hb0) Hb l Hl).
Qed.

Lemma crc_bit_range c : 0 ≤ c < 2 ^ 32 → 0 ≤ crc_bit c < 2 ^ 32.
Proof.
  intros Hc. assert (0 ≤ Z.shiftr c 1 < 2 ^ 32).
  { rewrite Z.shiftr_div_pow2 by lia.
    split; [apply Z.div_pos; lia|apply Z.div_lt_upper_bound; lia]. }
  unfold crc_bit. destruct (Z.odd c); [|done]. by apply lxor_range.
Qed.

Lemma crc32_range s : 0 ≤ crc32 s < 2 ^ 32.
Proof.
  unfold crc32. apply lxor_range; [done| |done].
  assert (∀ c, 0 ≤ c < 2 ^ 32 → 0 ≤ foldl crc_byte c s < 2 ^ 32) as H; [|by apply H].
  induction s as [|b s IH]; intros c Hc; simpl; [done|]. apply IH.
  unfold crc_byte. pose proof (byte_to_Z_range b).
  assert (0 ≤ Z.lxor c (byte_to_Z b) < 2 ^ 32) by (apply lxor_range; lia).
  generalize dependent (Z.lxor c (byte_to_Z b)). intros x Hx.
  induction (8%nat) as [|n IHn]; simpl; [done|by apply crc_bit_range].
Qed.

(** * The payload of an entry *)

Definition marshal_payload (op : byte) (key value : bytes) : result bytes :=
  key_len ← safe_uint16_from_int (zlen key) "wal key length";
  value_len ← safe_uint32_from_int (zlen value) "wal value length";
  Ok ([op] ++ be_put 2 key_len ++ key ++ be_put 4 value_len ++ value).

(** The frame [Append] writes. *)
Definition frame (payload : bytes) : result bytes :=
  n ← safe_uint32_from_int (zlen payload) "wal payload length";
  Ok (be_put 4 n ++ be_put 4 (crc32 payload) ++ payload).

Definition encode_entry (op : byte) (key value : bytes) : result bytes :=
  payload ← marshal_payload op key value; frame payload.

(** * The log *)

Definition default_segment_size : Z := 64 * 1024 * 1024.

Inductive file_state := FileNil | FileOpen | FileClosed.

Record WAL := mkWAL {
  w_file : file_state; w_offset : Z; w_segment_id : Z; w_segment_size : Z
}.

(** The [wal] directory: segment number to file contents. *)
Abbreviation wal_dir := (gmap Z bytes).

(** How the file operations of one [Append] go. *)
Inductive append_io :=
  | IoOk
  | IoCloseFail          (** closing the full segment fails *)
  | IoOpenFail           (** opening the next segment fails *)
  | IoWriteFail (n : nat)  (** only [n] bytes of the frame reach the file *)
  | IoSyncFail.          (** the frame is written, [fsync] fails *)

(** [os.O_CREATE]: opening a segment creates the file. *)
Definition touch (d : wal_dir) (id : Z) : wal_dir :=
  match d !! id with Some _ => d | None => <[id := []]> d end.

(** [openLatest]; it cannot fail here, the directory is readable. *)
Definition open_wal (d : wal_dir) : WAL * wal_dir :=
  let ids := merge_sort Z.le (elements (dom d)) in
  match last ids with
  | None => (mkWAL FileOpen 0 1 default_segment_size, touch d 1)
  | Some id => (mkWAL FileOpen (zlen (default [] (d !! id))) id default_segment_size, touch d id)
  end.

Definition rotate_if_needed (w : WAL) (d : wal_dir) (next_entry_bytes : Z) (io : append_io)
    : WAL * wal_dir * option error :=
  match w_file w with
  | FileNil => (w, d, Some (errorNew "wal not opened"))
  | _ =>
      if w_offset w + next_entry_bytes <=? w_segment_size w then (w, d, None)
      else
        match w_file w, io with
        | FileClosed, _ | _, IoCloseFail => (w, d, Some (ErrIO "close wal segment"))
        | _, _ =>
            let w' := mkWAL FileClosed 0 (w_segment_id w + 1) (w_segment_size w) in
            match io with
            | IoOpenFail => (w', d, Some (ErrIO "open wal segment"))
            | _ => (mkWAL FileOpen 0 (w_segment_id w + 1) (w_segment_size w),
                    touch d (w_segment_id w + 1), None)
            end
        end
  end.

(** Files are opened with [O_APPEND]: a write goes to the end of the file. *)
Definition append_file (d : wal_dir) (id : Z) (raw : bytes) : wal_dir :=
  <[id := default [] (d !! id) ++ raw]> d.

Definition append (w : WAL) (d : wal_dir) (op : byte) (key value : bytes) (io : append_io)
    : WAL * wal_dir * option error :=
  match encode_entry op key value with
  | Err e => (w, d, Some e)
  | Panic s => (w, d, Some (ErrIO s))
  | Ok buf =>
      match rotate_if_needed w d (zlen buf) io with
      | (w, d, Some e) => (w, d, Some e)
      | (w, d, None) =>
          match w_file w, io with
          | FileOpen, IoWriteFail n =>
              (w, append_file d (w_segment_id w) (take n buf), Some (ErrIO "write wal"))
          | FileOpen, IoSyncFail =>
              (mkWAL (w_file w) (w_offset w + zlen buf) (w_segment_id w) (w_segment_size w),
               append_file d (w_segment_id w) buf, Some (ErrIO "sync wal"))
          | FileOpen, _ =>
              (mkWAL (w_file w) (w_offset w + zlen buf) (w_segment_id w) (w_segment_size w),
               append_file d (w_segment_id w) buf, None)
          | _, _ => (w, d, Some (ErrIO "write on closed file"))
          end
      end
  end.

Definition close (w : WAL) : WAL * option error :=
  match w_file w with
  | FileNil => (w, None)
  | FileOpen => (mkWAL FileClosed (w_offset w) (w_segment_id w) (w_segment_size w), None)
  | FileClosed => (w, Some (ErrIO "file already closed"))
  end.

(** * Replay *)

(** What one turn of [replayFile]'s loop reads from the rest of the file. *)
Inductive frame_read :=
  | FEnd                                              (** [return nil] *)
  | FBad (e : error)
  | FEntry (op : byte) (key value : bytes) (rest : bytes).

(** [path] is the segment number, all the error messages use of the path. *)
Definition read_frame (path : Z) (raw : bytes) : frame_read :=
  if zlen raw <? 8 then FEnd
  else
    let length := be_get (take 4 raw) in
    let expected_crc := be_get (take 4 (drop 4 raw)) in
    let raw := drop 8 raw in
    if length =? 0 then FEnd
    else if zlen raw <? length then FEnd
    else
      let payload := take (Z.to_nat length) raw in
      let rest := drop (Z.to_nat length) raw in
      if negb (crc32 payload =? expected_crc)
      then FBad (Errorf "wal crc mismatch in %d" [FZ path])
      else if zlen payload <? 7 then FBad (Errorf "invalid wal payload in %d" [FZ path])
      else
        let op := nth 0 payload OpPut in
        let klen := be_get (take 2 (drop 1 payload)) in
        if zlen payload <? 3 + klen + 4
        then FBad (Errorf "invalid wal key length in %d" [FZ path])
        else
          let key := take (Z.to_nat klen) (drop 3 payload) in
          let vlen_pos := 3 + klen in
          let vlen := be_get (take 4 (drop (Z.to_nat vlen_pos) payload)) in
          if zlen payload <? vlen_pos + 4 + vlen
          then FBad (Errorf "invalid wal value length in %d" [FZ path])
          else
            let value := take (Z.to_nat vlen) (drop (Z.to_nat (vlen_pos + 4)) payload) in
            FEntry op key value rest.

(** An [apply] callback, with the state its closure captures. *)
Abbreviation applier S := (S → byte → bytes → bytes → S * option error).

(** Every entry is at least 8 bytes long, so the length of the file is enough
    fuel ([replay_file_fuel]). *)
Fixpoint replay_loop {S} (fuel : nat) (path : Z) (raw : bytes) (apply : applier S) (s : S)
    : S * option error :=
  match fuel with
  | O => (s, None)
  | Datatypes.S fuel' =>
      match read_frame path raw with
      | FEnd => (s, None)
      | FBad e => (s, Some e)
      | FEntry op key value rest =>
          match apply s op key value with
          | (s', Some e) => (s', Some e)
          | (s', None) => replay_loop fuel' path rest apply s'
          end
      end
  end.

Definition replay_file {S} (path : Z) (raw : bytes) (apply : applier S) (s : S)
    : S * option error :=
  replay_loop (length raw) path raw apply s.

(** [segmentPaths]: the segments in order of their numbers. *)
Definition segment_paths (d : wal_dir) : list Z := merge_sort Z.le (elements (dom d)).

Fixpoint replay_segments {S} (d : wal_dir) (paths : list Z) (apply : applier S) (s : S)
    : S * option error :=
  match paths with
  | [] => (s, None)
  | p :: ps =>
      match replay_file p (default [] (d !! p)) apply s with
      | (s', Some e) => (s', Some e)
      | (s', None) => replay_segments d ps apply s'
      end
  end.

Definition replay {S} (d : wal_dir) (apply : applier S) (s : S) : S * option error :=
  replay_segments d (segment_paths d) apply s.

(** * The codec *)

Record entry := mkEntry { e_op : byte; e_key : bytes; e_value : bytes }.

(** [encodes es raw]: the file [raw] is the frames of [es], in order. *)
Inductive encodes : list entry → bytes → Prop :=
  | encodes_nil : encodes [] []
  | encodes_cons e es buf raw :
      encode_entry (e_op e) (e_key e) (e_value e) = Ok buf →
      encodes es raw → encodes (e :: es) (buf ++ raw).

(** Applying entries until one fails. *)
Fixpoint run_entries {S} (apply : applier S) (s : S) (es : list entry) : S * option error :=
  match es with
  | [] => (s, None)
  | e :: es' =>
      match apply s (e_op e) (e_key e) (e_value e) with
      | (s', Some err) => (s', Some err)
      | (s', None) => run_entries apply s' es'
      end
  end.

(** What [encode_entry] produces. *)
Lemma encode_entry_ok op key value buf :
  encode_entry op key value = Ok buf ↔
  ∃ payload, buf = be_put 4 (zlen payload) ++ be_put 4 (crc32 payload) ++ payload ∧
    payload = [op] ++ be_put 2 (zlen key) ++ key ++ be_put 4 (zlen value) ++ value ∧
    zlen key < 65536 ∧ zlen value < 4294967296 ∧ zlen payload < 4294967296.
Proof.
  unfold encode_entry, marshal_payload, frame. rewrite bind_ok. split.
  - intros (payload & (kl & [Hk ->]%safe_uint16_ok & (vl & [Hv ->]%safe_uint32_ok &
      [= <-])%bind_ok)%bind_ok & (n & [Hn ->]%safe_uint32_ok & [= <-])%bind_ok).
    eexists. split_and!; [done|done|lia..].
  - intros (payload & -> & -> & Hk & Hv & Hp). eexists. split.
    + apply bind_ok. eexists. split; [apply safe_uint16_ok; split; [|done]; split; [apply zlen_nonneg|lia]|].
      apply bind_ok. eexists. split; [apply safe_uint32_ok; split; [|done]; split; [apply zlen_nonneg|lia]|].
      done.
    + apply bind_ok. eexists. split; [apply safe_uint32_ok; split; [|done]; split; [apply zlen_nonneg|lia]|].
      done.
Qed.

Lemma encode_entry_length op key value buf :
  encode_entry op key value = Ok buf → zlen buf = 15 + zlen key + zlen value.
Proof.
  intros (payload & -> & -> & _)%encode_entry_ok.
  unfold zlen. rewrite !length_app, !be_put_length. simpl. lia.
Qed.

(** The exact set of entries that can be logged. *)
Lemma encode_entry_is_ok op key value :
  is_ok (encode_entry op key value) = true ↔
    zlen key < 65536 ∧ zlen value < 4294967296 ∧ zlen key + zlen value + 7 < 4294967296.
Proof.
  assert (Hl : zlen ([op] ++ be_put 2 (zlen key) ++ key ++ be_put 4 (zlen value) ++ value)
    = zlen key + zlen value + 7).
  { unfold zlen. rewrite !length_app, !be_put_length. simpl. lia. }
  split.
  - destruct (encode_entry op key value) as [buf|e|m] eqn:E; [|done..]. intros _.
    apply encode_entry_ok in E as (p & -> & -> & ? & ? & Hp). rewrite Hl in Hp. done.
  - intros (Hk & Hv & Hp). assert (∃ buf, encode_entry op key value = Ok buf) as [buf ->]; [|done].
    eexists. apply encode_entry_ok. eexists. split_and!; [done|done|done|done|by rewrite Hl].
Qed.

Lemma drop_8 (raw : bytes) : drop 8 raw = drop 4 (drop 4 raw).
Proof. by rewrite drop_drop. Qed.

(** A whole frame is read back, whatever follows it. *)
Lemma read_frame_entry path op key value buf rest :
  encode_entry op key value = Ok buf → read_frame path (buf ++ rest) = FEntry op key value rest.
Proof.
  intros (payload & -> & Hp & Hk & Hv & Hl)%encode_entry_ok.
  pose proof (zlen_nonneg key). pose proof (zlen_nonneg value). pose proof (zlen_nonneg rest).
  assert (Hpl : zlen payload = 7 + zlen key + zlen value).
  { rewrite Hp, !zlen_app, !zlen_be. unfold zlen. simpl. lia. }
  pose proof (crc32_range payload).
  unfold read_frame. rewrite drop_8, <-!app_assoc, !zlen_app, !zlen_be, take_be, drop_be, take_be,
    drop_be, !be_get_put_id, take_zlen, drop_zlen, zlen_app by lia.
  rewrite Z.eqb_refl. simpl negb.
  rewrite !(proj2 (Z.ltb_ge _ _)), (proj2 (Z.eqb_neq _ _)) by lia.
  assert (Hd1 : drop 1 payload = be_put 2 (zlen key) ++ key ++ be_put 4 (zlen value) ++ value)
    by by rewrite Hp.
  assert (Hd3 : drop 3 payload = key ++ be_put 4 (zlen value) ++ value)
    by by rewrite <-(drop_be 2 (zlen key) (key ++ _)), <-Hd1, drop_drop.
  assert (Hdv : drop (Z.to_nat (3 + zlen key)) payload = be_put 4 (zlen value) ++ value)
    by (rewrite drop_Z_add by lia; change (Z.to_nat 3) with 3%nat; by rewrite Hd3, drop_zlen).
  rewrite Hd1, take_be, be_get_put_id, Hd3, Hdv, take_be, take_zlen, be_get_put_id by lia.
  rewrite !(proj2 (Z.ltb_ge _ _)) by lia.
  rewrite (drop_Z_add (3 + zlen key)), Hdv by lia.
  change (Z.to_nat 4) with 4%nat. rewrite drop_be.
  rewrite take_ge by (unfold zlen; lia). by rewrite Hp.
Qed.

(** A frame cut anywhere reads as the end of the log. *)
Lemma read_frame_torn path op key value buf n :
  encode_entry op key value = Ok buf → (n < length buf)%nat → read_frame path (take n buf) = FEnd.
Proof.
  intros E Hn. pose proof (encode_entry_length _ _ _ _ E) as Hl.
  apply encode_entry_ok in E as (payload & -> & Hp & Hk & Hv & Hpl).
  pose proof (zlen_nonneg payload).
  unfold read_frame. rewrite zlen_take by lia.
  destruct (Z.ltb_spec (Z.of_nat n) 8) as [|Hn8]; [done|].
  rewrite take_take, Nat.min_l, take_be, be_get_put_id by lia.
  destruct (zlen payload =? 0); [done|].
  rewrite (proj2 (Z.ltb_lt _ _)); [done|].
  unfold zlen at 1. rewrite length_drop, length_take.
  rewrite !length_app, !be_put_length in Hn |- *. unfold zlen. lia.
Qed.

Lemma read_frame_nil path : read_frame path [] = FEnd.
Proof. done. Qed.

(** Enough fuel: each entry shortens the file. *)
Lemma read_frame_shorter path raw op key value rest :
  read_frame path raw = FEntry op key value rest → (length rest + 8 ≤ length raw)%nat.
Proof.
  unfold read_frame. destruct (Z.ltb_spec (zlen raw) 8); [done|].
  repeat (case_match; try done). intros [= <- <- <- <-].
  unfold zlen in *. rewrite !length_drop. lia.
Qed.

Lemma replay_loop_fuel {S} (apply : applier S) path n m raw s :
  (length raw ≤ n)%nat → (n ≤ m)%nat →
  replay_loop n path raw apply s = replay_loop m path raw apply s.
Proof.
  revert m raw s. induction n as [|n IH]; intros m raw s Hn Hm.
  - destruct raw; [|simpl in *; lia]. by destruct m.
  - destruct m as [|m]; [lia|]. simpl.
    destruct (read_frame path raw) as [| |op key value rest] eqn:E; [done..|].
    apply read_frame_shorter in E.
    destruct (apply s op key value) as [s' [e|]]; [done|]. apply IH; lia.
Qed.

(** The turn of the loop, without fuel. *)
Lemma replay_file_unfold {S} (apply : applier S) path raw s :
  replay_file path raw apply s =
    match read_frame path raw with
    | FEnd => (s, None)
    | FBad e => (s, Some e)
    | FEntry op key value rest =>
        match apply s op key value with
        | (s', Some e) => (s', Some e)
        | (s', None) => replay_file path rest apply s'
        end
    end.
Proof.
  unfold replay_file. destruct (length raw) as [|n] eqn:El.
  - apply nil_length_inv in El as ->. done.
  - simpl. destruct (read_frame path raw) as [| |op key value rest] eqn:E; [done..|].
    apply read_frame_shorter in E.
    destruct (apply s op key value) as [s' [e|]]; [done|].
    symmetry. apply replay_loop_fuel; lia.
Qed.

(** A file of frames followed by a tail that reads as the end. *)
Lemma replay_file_encodes {S} (apply : applier S) path es raw tail s :
  encodes es raw → read_frame path tail = FEnd →
  replay_file path (raw ++ tail) apply s = run_entries apply s es.
Proof.
  intros He Ht. revert s. induction He as [|e es buf raw Hb He IH]; intros s.
  - by rewrite replay_file_unfold, app_nil_l, Ht.
  - rewrite replay_file_unfold, <-app_assoc, (read_frame_entry _ _ _ _ _ _ Hb). simpl.
    by destruct (apply s _ _ _) as [s' [?|]].
Qed.

Lemma encodes_app es1 es2 raw1 raw2 :
  encodes es1 raw1 → encodes es2 raw2 → encodes (es1 ++ es2) (raw1 ++ raw2).
Proof.
  induction 1 as [|e es buf raw Hb He IH]; [done|]. intros H2. simpl.
  rewrite <-app_assoc. constructor; auto.
Qed.

Lemma run_entries_app {S} (apply : applier S) s es1 es2 :
  run_entries apply s (es1 ++ es2) =
    match run_entries apply s es1 with
    | (s', Some e) => (s', Some e)
    | (s', None) => run_entries apply s' es2
    end.
Proof.
  revert s. induction es1 as [|e es1 IH]; intros s; simpl; [done|].
  destruct (apply s _ _ _) as [s' [?|]]; auto.
Qed.

(** A file of frames cut at any byte holds whole entries and a torn tail. *)
Lemma encodes_take es raw n :
  encodes es raw →
  ∃ es' tail raw', es' `prefix_of` es ∧ encodes es' raw' ∧ take n raw = raw' ++ tail ∧
    (∀ path, read_frame path tail = FEnd) ∧ (length raw ≤ n → es' = es)%nat.
Proof.
  intros He. revert n. induction He as [|e es buf raw Hb He IH]; intros n.
  - exists [], [], []. rewrite take_nil. split_and!; [done|constructor|done..].
  - destruct (decide (n < length buf)%nat) as [Hn|Hn].
    + exists [], (take n buf), []. rewrite take_app_le by lia.
      split_and!; [apply prefix_nil|constructor|done|eauto using read_frame_torn|].
      rewrite length_app. lia.
    + destruct (IH (n - length buf)%nat) as (es' & tail & raw' & Hp & He' & Et & Hend & Hall).
      exists (e :: es'), tail, (buf ++ raw'). rewrite take_app_ge, Et by lia.
      split_and!; [by apply prefix_cons|by constructor|by rewrite app_assoc|done|].
      rewrite length_app. intros. by rewrite Hall by lia.
Qed.

(** A file determines the entries in front of its torn tail. *)
Lemma run_entries_collect (l es : list entry) :
  run_entries (λ l op k v, (l ++ [mkEntry op k v], None)) l es = (l ++ es, None).
Proof.
  revert l. induction es as [|[op k v] es IH]; intros l; simpl; [by rewrite app_nil_r|].
  by rewrite IH, <-app_assoc.
Qed.

Lemma encodes_inj es es' raw raw' tail tail' :
  encodes es raw → encodes es' raw' →
  (∀ p, read_frame p tail = FEnd) → (∀ p, read_frame p tail' = FEnd) →
  raw ++ tail = raw' ++ tail' → es = es'.
Proof.
  intros H H' Ht Ht' E.
  pose proof (replay_file_encodes (λ l op k v, (l ++ [mkEntry op k v], None)) 0 es raw tail []
    H (Ht 0)) as R.
  rewrite E, (replay_file_encodes _ 0 es' raw' tail' _ H' (Ht' 0)) in R.
  rewrite !run_entries_collect in R. by simplify_eq/=.
Qed.
