(* ===== verification/Snapshot.v ===== *)
(** internal/storage/snapshot.go.

    A snapshot file is the magic, the number of trees, and for each tree its
    name and its rows, lengths first.  Writing goes through a writer that may
    stop early; reading is a reader over the remaining bytes. *)

From S2P Require Import Prelude.
From S2P Require Import GoBytes.
From S2P Require Import StorageTree.
From S2P Require Import Wal.

(** * The writer: the bytes written so far and the error that stopped it *)

Abbreviation written := (bytes * option error)%type.

Definition emit (raw : bytes) : written := (raw, None).
Definition wstop (e : error) : written := ([], Some e).
Definition wthen (a b : written) : written :=
  match a with
  | (x, None) => (x ++ b.1, b.2)
  | stopped => stopped
  end.
Infix ">>>" := wthen (at level 55, right associativity) : go_scope.
Open Scope go_scope.

(** A checked length and the encoder that uses it. *)
Definition with_len (r : result Z) (k : Z → written) : written :=
  match r with Ok n => k n | Err e => wstop e | Panic s => wstop (ErrIO s) end.

#[global] Arguments emit : simpl never.
#[global] Arguments wthen : simpl never.
#[global] Arguments with_len : simpl never.

Definition wconcat (ws : list written) : written := foldr wthen (emit []) ws.

Definition snapshot_magic : bytes := bs "MONSNAP1".

Definition write_row (row : bytes * bytes) : written :=
  with_len (safe_uint32_from_int (zlen row.1) "snapshot key length") (λ key_len,
  emit (be_put 4 key_len) >>> emit row.1 >>>
  with_len (safe_uint32_from_int (zlen row.2) "snapshot value length") (λ value_len,
  emit (be_put 4 value_len) >>> emit row.2)).

Definition write_tree (nt : bytes * BTree.t) : written :=
  let rows := BTree.snapshot nt.2 in
  with_len (safe_uint16_from_int (zlen nt.1) "snapshot tree name length") (λ name_len,
  emit (be_put 2 name_len) >>> emit nt.1 >>>
  with_len (safe_uint32_from_int (zlen rows) "snapshot row count") (λ row_count,
  emit (be_put 4 row_count) >>> wconcat (map write_row rows))).

(** [WriteSnapshot]; [order] is the order in which the map is ranged over. *)
Definition write_snapshot (order : list (bytes * BTree.t)) : written :=
  emit snapshot_magic >>>
  with_len (safe_uint32_from_int (zlen order) "snapshot tree count") (λ tree_count,
  emit (be_put 4 tree_count) >>> wconcat (map write_tree order)).

#[global] Arguments write_snapshot : simpl never.

(** The file: opened with [O_TRUNC] and written in place through a buffer.
    [SnapOk n]: the file operations succeed, and [n] bytes have left the buffer
    if a length is refused.  [SnapCut n] is a write, flush or sync that fails, or
    a crash, with [n] bytes in the file. *)
Inductive snap_io := SnapOk (n : nat) | SnapOpenFail | SnapCut (n : nat).

Definition write_snapshot_file (old : option bytes) (order : list (bytes * BTree.t))
    (io : snap_io) : option bytes * option error :=
  match io, write_snapshot order with
  | SnapOpenFail, _ => (old, Some (ErrIO "open snapshot"))
  | SnapOk _, (raw, None) => (Some raw, None)
  | SnapOk n, (raw, Some e) => (Some (take n raw), Some e)
  | SnapCut n, (raw, Some e) => (Some (take n raw), Some e)
  | SnapCut n, (raw, None) => (Some (take n raw), Some (ErrIO "write snapshot"))
  end.

(** * The reader *)

Abbreviation reader A := (bytes → result (A * bytes)).

Definition rret {A} (a : A) : reader A := λ raw, Ok (a, raw).
Definition rbind {A B} (r : reader A) (k : A → reader B) : reader B := λ raw,
  match r raw with
  | Ok (a, rest) => k a rest
  | Err e => Err e
  | Panic s => Panic s
  end.
Notation "'let!' x := r 'in' k" := (rbind r (λ x, k))
  (at level 200, x name, r at level 100, k at level 200) : go_scope.

(** [io.ReadFull] of [n] bytes *)
Definition read_full (n : nat) : reader bytes := λ raw,
  if decide (length raw < n)%nat then Err (ErrIO "unexpected EOF")
  else Ok (take n raw, drop n raw).

(** [binary.Read] of a big-endian integer of [n] bytes *)
Definition read_uint (n : nat) : reader Z :=
  let! raw := read_full n in rret (be_get raw).

Fixpoint read_rows (count : nat) (tree : BTree.t) : reader BTree.t :=
  match count with
  | O => rret tree
  | S count' =>
      let! key_len := read_uint 4 in
      let! key := read_full (Z.to_nat key_len) in
      let! value_len := read_uint 4 in
      let! value := read_full (Z.to_nat value_len) in
      read_rows count' (BTree.set tree key value)
  end.

Definition read_tree : reader (bytes * BTree.t) :=
  let! name_len := read_uint 2 in
  let! name := read_full (Z.to_nat name_len) in
  let! row_count := read_uint 4 in
  let! tree := read_rows (Z.to_nat row_count) BTree.new in
  rret (name, tree).

Fixpoint read_trees (count : nat) (out : gmap bytes BTree.t) : reader (gmap bytes BTree.t) :=
  match count with
  | O => rret out
  | S count' =>
      let! nt := read_tree in
      read_trees count' (<[nt.1 := nt.2]> out)
  end.

(** [ReadSnapshot] of a file that opens; bytes past the last tree are ignored. *)
Definition read_snapshot (raw : bytes) : result (gmap bytes BTree.t) :=
  match (let! magic := read_full (length snapshot_magic) in
         if bool_decide (magic = snapshot_magic) then
           let! tree_count := read_uint 4 in
           read_trees (Z.to_nat tree_count) ∅
         else λ _, Err (errorNew "invalid snapshot file")) raw with
  | Ok (trees, _) => Ok trees
  | Err e => Err e
  | Panic s => Panic s
  end.

(** * Exact readers

    [exact r raw a]: [r] reads [raw] as [a], consumes exactly [raw], and fails
    on every proper prefix of it. *)
Definition exact {A} (r : reader A) (raw : bytes) (a : A) : Prop :=
  (∀ tail, r (raw ++ tail) = Ok (a, tail)) ∧
  (∀ n, (n < length raw)%nat → ∃ e, r (take n raw) = Err e).

Lemma exact_ret {A} (a : A) : exact (rret a) [] a.
Proof. split; [done|]. simpl. lia. Qed.

Lemma exact_bind {A B} (r : reader A) (k : A → reader B) raw1 raw2 a b :
  exact r raw1 a → exact (k a) raw2 b → exact (rbind r k) (raw1 ++ raw2) b.
Proof.
  intros [H1 F1] [H2 F2]. split.
  - intros tail. unfold rbind. rewrite <-app_assoc, H1. apply H2.
  - intros n Hn. rewrite length_app in Hn. unfold rbind.
    destruct (decide (n < length raw1)%nat) as [Hlt|Hge].
    + rewrite take_app_le by lia. destruct (F1 n Hlt) as [e ->]. eauto.
    + rewrite take_app_ge, H1 by lia. apply F2. lia.
Qed.

Lemma exact_bind_ret {A B} (r : reader A) (f : A → B) raw a :
  exact r raw a → exact (let! x := r in rret (f x)) raw (f a).
Proof.
  intros H. rewrite <-(app_nil_r raw). eapply exact_bind; [done|apply exact_ret].
Qed.

Lemma exact_full raw n : n = length raw → exact (read_full n) raw raw.
Proof.
  intros ->. unfold read_full. split.
  - intros tail. rewrite length_app, decide_False by lia.
    by rewrite take_app_length, drop_app_length.
  - intros n Hn. rewrite length_take, decide_True by lia. eauto.
Qed.

Lemma exact_uint n z : 0 ≤ z < 256 ^ Z.of_nat n → exact (read_uint n) (be_put n z) z.
Proof.
  intros Hz. rewrite <-(be_get_put_id n z) at 2 by done. unfold read_uint.
  apply (exact_bind_ret (read_full n) be_get), exact_full. by rewrite be_put_length.
Qed.

(** * Writing then reading *)

Lemma wthen_ok a b raw :
  a >>> b = (raw, None) ↔ ∃ x y, a = (x, None) ∧ b = (y, None) ∧ raw = x ++ y.
Proof.
  unfold wthen. destruct a as [x [e|]], b as [y e']; simpl; split; naive_solver.
Qed.

Lemma with_len_ok r k raw : with_len r k = (raw, None) ↔ ∃ n, r = Ok n ∧ k n = (raw, None).
Proof. unfold with_len. destruct r; simpl; naive_solver. Qed.

Lemma emit_ok x raw : emit x = (raw, None) ↔ raw = x.
Proof. unfold emit. naive_solver. Qed.

Definition set_row (tree : BTree.t) (row : bytes * bytes) := BTree.set tree row.1 row.2.

Lemma exact_rows rows raw tree :
  wconcat (map write_row rows) = (raw, None) →
  exact (read_rows (length rows) tree) raw (foldl set_row tree rows).
Proof.
  revert raw tree. induction rows as [|[k v] rows IH]; intros raw tree; simpl.
  { intros [= <-]. apply exact_ret. }
  rewrite wthen_ok. intros (x & y & Hx & Hy & ->). unfold write_row in Hx. simpl in Hx.
  apply with_len_ok in Hx as (n & [Hn ->]%safe_uint32_ok & Hx).
  repeat (apply wthen_ok in Hx as (? & ? & ->%emit_ok & Hx & ->)).
  apply with_len_ok in Hx as (n & [Hn' ->]%safe_uint32_ok & Hx).
  apply wthen_ok in Hx as (? & ? & ->%emit_ok & ->%emit_ok & ->).
  rewrite <-!app_assoc.
  eapply exact_bind; [by apply exact_uint|].
  eapply exact_bind; [apply exact_full; unfold zlen; lia|].
  eapply exact_bind; [by apply exact_uint|].
  eapply exact_bind; [apply exact_full; unfold zlen; lia|]. by apply IH.
Qed.

Lemma foldl_set_row_items tree rows :
  BTree.items (foldl set_row tree rows) =
    foldl (λ m kv, <[kv.1 := kv.2]> m) (BTree.items tree) rows.
Proof. revert tree. induction rows as [|row rows IH]; intros tree; [done|]. apply IH. Qed.

Lemma foldl_set_row_wf tree rows : BTree.wf tree → BTree.wf (foldl set_row tree rows).
Proof.
  revert tree. induction rows as [|row rows IH]; intros tree Hwf; [done|].
  by apply IH, BTree.set_wf.
Qed.

(** Setting the rows of a tree again gives the tree. *)
Lemma rebuild_tree tr : BTree.wf tr → foldl set_row BTree.new (BTree.snapshot tr) = tr.
Proof.
  intros Hwf. apply BTree.wf_eq; [apply foldl_set_row_wf, BTree.wf_new|done|].
  apply map_eq. intros k. apply option_eq. intros v.
  rewrite foldl_set_row_items, foldl_insert_lookup.
  - rewrite BTree.elem_of_snapshot by done. simpl. rewrite lookup_empty. naive_solver.
  - apply (StronglySorted_NoDup bytes_lt). by apply BTree.snapshot_sorted.
Qed.

Lemma exact_tree name tr raw :
  BTree.wf tr → write_tree (name, tr) = (raw, None) → exact read_tree raw (name, tr).
Proof.
  intros Hwf Hw. unfold write_tree in Hw. simpl in Hw.
  apply with_len_ok in Hw as (n & [Hn ->]%safe_uint16_ok & Hw).
  repeat (apply wthen_ok in Hw as (? & ? & ->%emit_ok & Hw & ->)).
  apply with_len_ok in Hw as (n & [Hn' ->]%safe_uint32_ok & Hw).
  apply wthen_ok in Hw as (? & ? & ->%emit_ok & Hw & ->).
  unfold read_tree.
  eapply exact_bind; [by apply exact_uint|].
  eapply exact_bind; [apply exact_full; unfold zlen; lia|].
  eapply exact_bind; [by apply exact_uint|].
  apply (exact_rows _ _ BTree.new) in Hw. rewrite rebuild_tree in Hw by done.
  apply (exact_bind_ret _ (λ t, (name, t))).
  by replace (Z.to_nat _) with (length (BTree.snapshot tr)) by (unfold zlen; lia).
Qed.

Lemma exact_trees order raw out :
  Forall (λ nt, BTree.wf nt.2) order →
  wconcat (map write_tree order) = (raw, None) →
  exact (read_trees (length order) out) raw (foldl (λ m nt, <[nt.1 := nt.2]> m) out order).
Proof.
  intros Hwf. revert raw out.
  induction Hwf as [|[name tr] order Htr Hwf IH]; intros raw out; simpl.
  { intros [= <-]. apply exact_ret. }
  intros (x & y & Hx & Hy & ->)%wthen_ok.
  eapply exact_bind; [by apply exact_tree|]. by apply IH.
Qed.

Lemma exact_snapshot order raw :
  Forall (λ nt, BTree.wf nt.2) order → write_snapshot order = (raw, None) →
  (∀ tail, read_snapshot (raw ++ tail) = Ok (foldl (λ m nt, <[nt.1 := nt.2]> m) ∅ order)) ∧
  (∀ n, (n < length raw)%nat → ∃ e, read_snapshot (take n raw) = Err e).
Proof.
  intros Hwf Hw. unfold write_snapshot in Hw.
  apply wthen_ok in Hw as (? & ? & ->%emit_ok & Hw & ->).
  apply with_len_ok in Hw as (n & [Hn ->]%safe_uint32_ok & Hw).
  apply wthen_ok in Hw as (? & ? & ->%emit_ok & Hw & ->).
  apply (exact_trees _ _ ∅ Hwf) in Hw. unfold read_snapshot.
  set (r := rbind _ _). set (v := foldl _ _ _).
  assert (exact r (snapshot_magic ++ be_put 4 (zlen order) ++ x1) v) as [H1 H2].
  { eapply exact_bind; [by apply exact_full|]. rewrite bool_decide_eq_true_2 by done.
    eapply exact_bind; [by apply exact_uint|].
    by replace (Z.to_nat _) with (length order) by (unfold zlen; lia). }
  split.
  - intros tail. by rewrite H1.
  - intros k Hk. destruct (H2 k Hk) as [e ->]. eauto.
Qed.

(** For any iteration order of the map, the snapshot reads back as the map. *)
Lemma foldl_insert_permutation {V} (trees : gmap bytes V) order :
  order ≡ₚ map_to_list trees → foldl (λ m nt, <[nt.1 := nt.2]> m) ∅ order = trees.
Proof.
  intros Hp. apply map_eq. intros k. apply option_eq. intros v.
  rewrite foldl_insert_lookup.
  - rewrite lookup_empty, Hp, elem_of_map_to_list. naive_solver.
  - rewrite Hp. apply NoDup_fst_map_to_list.
Qed.

Lemma read_write_snapshot (trees : gmap bytes BTree.t) order raw tail :
  map_Forall (λ _, BTree.wf) trees → order ≡ₚ map_to_list trees →
  write_snapshot order = (raw, None) → read_snapshot (raw ++ tail) = Ok trees.
Proof.
  intros Hwf Hp Hw. destruct (exact_snapshot order raw) as [H _]; [|done|].
  - rewrite Hp. apply map_Forall_to_list in Hwf.
    eapply Forall_impl; [exact Hwf|]. by intros [].
  - rewrite H. f_equal. by apply foldl_insert_permutation.
Qed.
