(* ===== verification/StorageEngine.v ===== *)
(** internal/storage/engine.go.

    [Engine] is the record of the Go struct with its files in the field [disk]
    (a crash keeps [disk] and loses the rest).  Locks are not modelled here:
    every operation runs under [e.mu]; the one place where the locking matters
    is modelled in Auth, with the sessions. *)

From S2P Require Import Prelude.
From S2P Require Import GoBytes.
From S2P Require Import GoStrings.
From S2P Require Import GoChan.
From S2P Require Import StorageTree.
From S2P Require Import Wal.
From S2P Require Import Snapshot.

(** Time stamps of events: nanoseconds, as in [GoTime]. *)
Record TxEvent := mkTxEvent {
  ev_sequence : Z; ev_timestamp : Z; ev_mutations : list Mutation
}.

Record Disk := mkDisk { d_snapshot : option bytes; d_wal : wal_dir }.

Record Engine := mkEngine {
  trees : gmap bytes BTree.t;
  index : IndexManager.t;
  wal : WAL;
  closed : bool;
  sequence : Z;
  next_watch_id : Z;
  watchers : gmap Z (chan TxEvent);
  drained : gmap Z (chan TxEvent);  (** closed channels their readers still hold *)
  disk : Disk;
}.

Definition tree_key_sep : byte := Init.Byte.x1f.

(** [makeTreeKey] and [splitTreeKey] *)
Definition make_tree_key (tree key : bytes) : bytes := tree ++ tree_key_sep :: key.

Definition split_tree_key (key : bytes) : result (bytes * bytes) :=
  let idx := index_byte key tree_key_sep in
  if idx <=? 0 then Err (errorNew "invalid wal tree key")
  else Ok (take (Z.to_nat idx) key, drop (Z.to_nat (idx + 1)) key).

(** [mustTree] and [mustTreeUnlocked]: the tree, and the map that holds it. *)
Definition must_tree (ts : gmap bytes BTree.t) (name : bytes)
    : BTree.t * gmap bytes BTree.t :=
  match ts !! name with
  | Some tr => (tr, ts)
  | None => (BTree.new, <[name := BTree.new]> ts)
  end.

(** The callback [OpenEngine] replays the log with. *)
Definition apply_wal : applier (gmap bytes BTree.t) := λ ts op key value,
  match split_tree_key key with
  | Err e => (ts, Some e)
  | Panic s => (ts, Some (ErrIO s))
  | Ok (name, real_key) =>
      let '(tr, ts) := must_tree ts name in
      if bool_decide (op = OpPut) then (<[name := BTree.set tr real_key value]> ts, None)
      else if bool_decide (op = OpDel)
      then (<[name := (BTree.delete tr real_key).1]> ts, None)
      else (ts, Some (Errorf "unknown wal op %d" [FZ (byte_to_Z op)]))
  end.

(** [loadSnapshot] *)
Definition load_snapshot (d : Disk) : result (gmap bytes BTree.t) :=
  match d_snapshot d with
  | None => Ok ∅
  | Some raw => read_snapshot raw
  end.

Definition ensure_tree (ts : gmap bytes BTree.t) (name : bytes) : gmap bytes BTree.t :=
  match ts !! name with Some _ => ts | None => <[name := BTree.new]> ts end.

Definition open_engine (d : Disk) (tree_names : list bytes) : result Engine :=
  ts ← load_snapshot d;
  let ts := foldl ensure_tree ts tree_names in
  let '(w, dir) := open_wal (d_wal d) in
  match replay dir apply_wal ts with
  | (_, Some e) => Err e
  | (ts, None) =>
      Ok (mkEngine ts IndexManager.new w false 0 0 ∅ ∅ (mkDisk (d_snapshot d) dir))
  end.

(** ** Reads *)

Definition get (e : Engine) (tree key : bytes) : result bytes :=
  match trees e !! tree with
  | None => Err ErrNotFound
  | Some tr => match BTree.get tr key with Some v => Ok v | None => Err ErrNotFound end
  end.

Definition iterate {S} (e : Engine) (tree start end_ : bytes)
    (fn : S → bytes → bytes → S * bool) (s : S) : S * option error :=
  match trees e !! tree with
  | None => (s, Some ErrNotFound)
  | Some tr => (BTree.iterate tr start end_ fn s, None)
  end.

(** ** Transactions *)

(** [Tx.Put] and [Tx.Delete]: the mutation appended to the transaction. *)
Definition tx_put (tree key value : bytes) : Mutation := mkMutation tree OpPut key value.
Definition tx_delete (tree key : bytes) : Mutation := mkMutation tree OpDel key [].

(** A slice that [append([]byte(nil), v...)] made: nil when it is empty. *)
Definition cloned (v : bytes) : option bytes := match v with [] => None | _ => Some v end.

(** The body of the loop of [tx]. *)
Definition tx_step (e : Engine) (m : Mutation) (io : append_io) : Engine * option error :=
  let '(tr, ts) := must_tree (trees e) (m_tree m) in
  let combined := make_tree_key (m_tree m) (m_key m) in
  let '(w, dir, err) := append (wal e) (d_wal (disk e)) (m_op m) combined (m_value m) io in
  let e1 := mkEngine ts (index e) w (closed e) (sequence e) (next_watch_id e) (watchers e)
              (drained e) (mkDisk (d_snapshot (disk e)) dir) in
  match err with
  | Some er => (e1, Some er)
  | None =>
      let old := BTree.get tr (m_key m) ≫= cloned in
      let '(tr, ix) :=
        if bool_decide (m_op m = OpPut) then
          (BTree.set tr (m_key m) (m_value m),
           IndexManager.update (index e1) (m_key m) old (cloned (m_value m)))
        else if bool_decide (m_op m = OpDel) then
          ((BTree.delete tr (m_key m)).1, IndexManager.update (index e1) (m_key m) old None)
        else (tr, index e1) in
      (mkEngine (<[m_tree m := tr]> (trees e1)) ix (wal e1) (closed e1) (sequence e1)
         (next_watch_id e1) (watchers e1) (drained e1) (disk e1), None)
  end.

Fixpoint tx_loop (e : Engine) (ms : list Mutation) (io : list append_io)
    : Engine * option error :=
  match ms with
  | [] => (e, None)
  | m :: ms' =>
      match tx_step e m (hd IoOk io) with
      | (e', Some er) => (e', Some er)
      | (e', None) => tx_loop e' ms' (tl io)
      end
  end.

(** The event a committed transaction publishes. *)
Definition publish (e : Engine) (now : Z) (ms : list Mutation) : Engine :=
  let seq := sequence e + 1 in
  mkEngine (trees e) (index e) (wal e) (closed e) seq (next_watch_id e)
    (broadcast (mkTxEvent seq now ms) (watchers e)) (drained e) (disk e).

(** [tx]; [fn] is what the callback returns, with the mutations it recorded.
    [io] lists how the appends go ([IoOk] past its end). *)
Definition tx (e : Engine) (fn : result (list Mutation)) (notify : bool) (now : Z)
    (io : list append_io) : Engine * option error :=
  if closed e then (e, Some (errorNew "engine closed"))
  else
    match fn with
    | Err er => (e, Some er)
    | Panic s => (e, Some (ErrIO s))
    | Ok [] => (e, None)
    | Ok ms =>
        match tx_loop e ms io with
        | (e', Some er) => (e', Some er)
        | (e', None) => (if notify then publish e' now ms else e', None)
        end
    end.

Definition put (e : Engine) (tree key value : bytes) (now : Z) (io : list append_io) :=
  tx e (Ok [tx_put tree key value]) true now io.
Definition delete (e : Engine) (tree key : bytes) (now : Z) (io : list append_io) :=
  tx e (Ok [tx_delete tree key]) true now io.
Definition Tx (e : Engine) fn now io := tx e fn true now io.
Definition TxSilent (e : Engine) fn now io := tx e fn false now io.

(** ** Watchers *)

Definition watch_tx (e : Engine) : Engine * Z * chan TxEvent :=
  if closed e then (e, 0, close_chan (make_chan 0))
  else
    let id := next_watch_id e + 1 in
    let c := make_chan 32 in
    (mkEngine (trees e) (index e) (wal e) (closed e) (sequence e) id
       (<[id := c]> (watchers e)) (drained e) (disk e), id, c).

(** The [unsubscribe] function [WatchTx] returns. *)
Definition unsubscribe (e : Engine) (id : Z) : Engine :=
  match watchers e !! id with
  | None => e
  | Some c =>
      mkEngine (trees e) (index e) (wal e) (closed e) (sequence e) (next_watch_id e)
        (base.delete id (watchers e)) (<[id := close_chan c]> (drained e)) (disk e)
  end.

Definition current_sequence (e : Engine) : Z := sequence e.

(** ** Snapshots *)

(** [CreateSnapshot]; [order] is the order of the map's range. *)
Definition create_snapshot (e : Engine) (order : list (bytes * BTree.t)) (io : snap_io)
    : Engine * option error :=
  let '(file, err) := write_snapshot_file (d_snapshot (disk e)) order io in
  (mkEngine (trees e) (index e) (wal e) (closed e) (sequence e) (next_watch_id e)
     (watchers e) (drained e) (mkDisk file (d_wal (disk e))), err).

(** The map [RestoreSnapshot] builds: every known tree, empty unless restored. *)
Definition merge_restored (current restored : gmap bytes BTree.t) : gmap bytes BTree.t :=
  restored ∪ ((λ _, BTree.new) <$> current).

(** [RestoreSnapshot]; [source] is the file at [path], [order] the order in
    which the merged map is ranged over. *)
Definition restore_snapshot (e : Engine) (source : result bytes)
    (order : list (bytes * BTree.t)) (io : snap_io) : Engine * option error :=
  match (raw ← source; read_snapshot raw) with
  | Err er => (e, Some er)
  | Panic s => (e, Some (ErrIO s))
  | Ok restored =>
      if closed e then (e, Some (errorNew "engine closed"))
      else
        let merged := merge_restored (trees e) restored in
        let '(file, err) := write_snapshot_file (d_snapshot (disk e)) order io in
        let with_disk w dir ts :=
          mkEngine ts (index e) w (closed e) (sequence e) (next_watch_id e) (watchers e)
            (drained e) (mkDisk file dir) in
        match err with
        | Some er => (with_disk (wal e) (d_wal (disk e)) (trees e), Some er)
        | None =>
            match close (wal e) with
            | (w, Some er) => (with_disk w (d_wal (disk e)) (trees e), Some er)
            | (_, None) =>
                let '(w, dir) := open_wal ∅ in
                (with_disk w dir merged, None)
            end
        end
  end.

Definition close_engine (e : Engine) : Engine * option error :=
  let '(w, err) := close (wal e) in
  (mkEngine (trees e) (index e) w true (sequence e) (next_watch_id e) ∅
     ((close_chan <$> watchers e) ∪ drained e) (disk e), err).
