(* ===== verification/StorageSpec.v ===== *)
(** What the storage engine promises, and that it keeps the promise.

    The abstract state is a flat map from (tree, key) to value.  The refinement
    invariant [durable] says that the files of an engine hold that map: replaying
    the log over the snapshot gives the trees in memory.  Tree names that hold
    the key separator or are empty do not survive the log, so [good] excludes
    them. *)

From S2P Require Import Prelude.
From S2P Require Import GoBytes.
From S2P Require Import GoStrings.
From S2P Require Import GoChan.
From S2P Require Import StorageTree.
From S2P Require Import Wal.
From S2P Require Import Snapshot.
From S2P Require Import StorageEngine.

(** * The abstract state *)

Abbreviation kv := (gmap (bytes * bytes) bytes).

Definition view (ts : gmap bytes BTree.t) : kv := map_uncurry (M12 := gmap (bytes * bytes)) (BTree.items <$> ts).

Definition trees_wf (ts : gmap bytes BTree.t) : Prop := map_Forall (λ _, BTree.wf) ts.

Definition apply_mut (m : Mutation) (s : kv) : kv :=
  if bool_decide (m_op m = OpPut) then <[(m_tree m, m_key m) := m_value m]> s
  else base.delete (m_tree m, m_key m) s.

Definition apply_muts (ms : list Mutation) (s : kv) : kv := foldl (λ s m, apply_mut m s) s ms.

(** The last mutation of a key, if the log has one. *)
Definition last_write (k : bytes * bytes) (ms : list Mutation) : option (option bytes) :=
  foldl (λ acc m, if bool_decide ((m_tree m, m_key m) = k)
                  then Some (if bool_decide (m_op m = OpPut) then Some (m_value m) else None)
                  else acc) None ms.

Definition valid_op (m : Mutation) : Prop := m_op m = OpPut ∨ m_op m = OpDel.

(** Mutations the log can carry. *)
Definition good_name (t : bytes) : Prop := t ≠ [] ∧ tree_key_sep ∉ t.
Definition good (m : Mutation) : Prop := valid_op m ∧ good_name (m_tree m).

Definition entry_of (m : Mutation) : entry :=
  mkEntry (m_op m) (make_tree_key (m_tree m) (m_key m)) (m_value m).

#[global] Instance good_name_dec t : Decision (good_name t).
Proof. unfold good_name. apply _. Defined.
#[global] Instance good_dec m : Decision (good m).
Proof. unfold good, valid_op. apply _. Defined.

(** ** Views of trees *)

Lemma lookup_view ts t k : view ts !! (t, k) = ts !! t ≫= λ tr, BTree.items tr !! k.
Proof.
  unfold view. rewrite lookup_map_uncurry, lookup_fmap. by destruct (ts !! t).
Qed.

Lemma view_insert ts t tr k : view (<[t := tr]> ts) !! (t, k) = BTree.items tr !! k.
Proof. by rewrite lookup_view, lookup_insert_eq. Qed.

Lemma view_insert_ne ts t t' tr k : t ≠ t' → view (<[t := tr]> ts) !! (t', k) = view ts !! (t', k).
Proof. intros. by rewrite !lookup_view, lookup_insert_ne. Qed.

(** An empty tree shows nothing: the view is coarser than the map of trees. *)
Lemma view_insert_new ts t : ts !! t = None → view (<[t := BTree.new]> ts) = view ts.
Proof.
  intros E. apply map_eq. intros [t' k]. destruct (decide (t = t')) as [<- | Hne].
  - by rewrite view_insert, lookup_view, E.
  - by apply view_insert_ne.
Qed.

Lemma must_tree_spec ts t tr ts' :
  must_tree ts t = (tr, ts') → trees_wf ts →
  BTree.wf tr ∧ trees_wf ts' ∧ view ts' = view ts ∧ ts' !! t = Some tr ∧
  dom ts' = {[t]} ∪ dom ts.
Proof.
  unfold must_tree. intros E Hwf. destruct (ts !! t) as [tr0|] eqn:Ht; simplify_eq.
  - split_and!; [by eapply Hwf|done..|].
    assert (t ∈ dom ts') by by eapply elem_of_dom_2. set_solver.
  - split_and!; [apply BTree.wf_new| |by apply view_insert_new|by apply lookup_insert_eq|
      by apply dom_insert_L].
    apply map_Forall_insert_2; [apply BTree.wf_new|done].
Qed.

Lemma ensure_tree_spec ts t :
  trees_wf ts →
  trees_wf (ensure_tree ts t) ∧ view (ensure_tree ts t) = view ts ∧
  dom (ensure_tree ts t) = {[t]} ∪ dom ts.
Proof.
  intros Hwf. destruct (must_tree ts t) as [tr ts'] eqn:E.
  destruct (must_tree_spec _ _ _ _ E Hwf) as (_ & H1 & H2 & _ & H3).
  unfold must_tree, ensure_tree in *. destruct (ts !! t); by simplify_eq.
Qed.

Lemma ensure_trees_spec ts names :
  trees_wf ts →
  trees_wf (foldl ensure_tree ts names) ∧ view (foldl ensure_tree ts names) = view ts.
Proof.
  revert ts. induction names as [|n names IH]; intros ts Hwf; [done|]. simpl.
  destruct (ensure_tree_spec ts n Hwf) as (H1 & H2 & _).
  destruct (IH _ H1) as [H3 H4]. by rewrite H4.
Qed.

(** ** Mutations on views *)

Lemma apply_mut_lookup m s k :
  apply_mut m s !! k =
    if bool_decide ((m_tree m, m_key m) = k)
    then (if bool_decide (m_op m = OpPut) then Some (m_value m) else None)
    else s !! k.
Proof.
  unfold apply_mut. case_bool_decide as Hop; case_bool_decide as Hk; subst.
  - apply lookup_insert_eq.
  - by apply lookup_insert_ne.
  - apply lookup_delete_eq.
  - by apply lookup_delete_ne.
Qed.

Lemma last_write_acc k ms acc :
  foldl (λ acc m, if bool_decide ((m_tree m, m_key m) = k)
                  then Some (if bool_decide (m_op m = OpPut) then Some (m_value m) else None)
                  else acc) acc ms =
    match last_write k ms with Some o => Some o | None => acc end.
Proof.
  unfold last_write. induction ms as [|m ms IH] using rev_ind; [done|].
  rewrite !foldl_app. simpl. rewrite IH. by case_bool_decide.
Qed.

Lemma apply_muts_lookup ms s k :
  apply_muts ms s !! k = match last_write k ms with Some o => o | None => s !! k end.
Proof.
  unfold apply_muts. induction ms as [|m ms IH] using rev_ind; [done|].
  rewrite foldl_app. simpl. unfold last_write. rewrite foldl_app. simpl.
  rewrite apply_mut_lookup, IH. by case_bool_decide.
Qed.

(** Replaying a log over a state it has already reached changes nothing: the log
    is not truncated when a snapshot is taken. *)
Lemma apply_muts_idemp ms s : apply_muts ms (apply_muts ms s) = apply_muts ms s.
Proof.
  apply map_eq. intros k. rewrite !apply_muts_lookup. by destruct (last_write k ms).
Qed.

Lemma apply_muts_app ms ms' s : apply_muts (ms ++ ms') s = apply_muts ms' (apply_muts ms s).
Proof. apply foldl_app. Qed.

(** ** Mutations on trees *)

Definition tree_step (m : Mutation) (tr : BTree.t) : BTree.t :=
  if bool_decide (m_op m = OpPut) then BTree.set tr (m_key m) (m_value m)
  else (BTree.delete tr (m_key m)).1.

Lemma tree_step_view ts m tr ts' :
  must_tree ts (m_tree m) = (tr, ts') → trees_wf ts →
  trees_wf (<[m_tree m := tree_step m tr]> ts') ∧
  view (<[m_tree m := tree_step m tr]> ts') = apply_mut m (view ts).
Proof.
  intros E Hwf. destruct (must_tree_spec _ _ _ _ E Hwf) as (H1 & H2 & H3 & H4 & _). split.
  - apply map_Forall_insert_2; [|done]. unfold tree_step.
    case_bool_decide; [by apply BTree.set_wf|by apply BTree.delete_wf].
  - apply map_eq. intros [t k]. rewrite apply_mut_lookup, <-H3.
    destruct (decide (m_tree m = t)) as [<- | Hne].
    + rewrite view_insert, lookup_view, H4. simpl. unfold tree_step.
      destruct (decide (m_key m = k)) as [<- | Hk].
      * rewrite (bool_decide_eq_true_2 (_ = (_, m_key m))) by done.
        case_bool_decide; [apply lookup_insert_eq|].
        rewrite BTree.delete_items. apply lookup_delete_eq.
      * rewrite (bool_decide_eq_false_2 (_ = (_, k))) by naive_solver.
        case_bool_decide; [by apply lookup_insert_ne|].
        rewrite BTree.delete_items. by apply lookup_delete_ne.
    + rewrite view_insert_ne, bool_decide_eq_false_2 by naive_solver. done.
Qed.

Lemma split_make_tree_key t k : good_name t → split_tree_key (make_tree_key t k) = Ok (t, k).
Proof.
  intros [Hne Hsep]. unfold split_tree_key, make_tree_key.
  rewrite index_byte_app by done. pose proof (zlen_nonneg t).
  destruct (Z.leb_spec (zlen t) 0) as [Hz|Hz].
  { destruct t; [done|]. rewrite zlen_cons in Hz. pose proof (zlen_nonneg t). lia. }
  by rewrite take_zlen, drop_Z_add, drop_zlen by lia.
Qed.

(** Replaying one logged mutation is the tree step. *)
Lemma apply_wal_good ts m :
  good m →
  apply_wal ts (e_op (entry_of m)) (e_key (entry_of m)) (e_value (entry_of m)) =
    (let '(tr, ts') := must_tree ts (m_tree m) in
     (<[m_tree m := tree_step m tr]> ts', None)).
Proof.
  intros [Hop Hn]. unfold apply_wal. simpl. rewrite split_make_tree_key by done.
  destruct (must_tree ts (m_tree m)) as [tr ts']. unfold tree_step.
  case_bool_decide; [done|]. rewrite bool_decide_eq_true_2; [done|].
  by destruct Hop.
Qed.

Lemma run_entries_view ms ts :
  Forall good ms → trees_wf ts →
  ∃ ts', run_entries apply_wal ts (entry_of <$> ms) = (ts', None) ∧ trees_wf ts' ∧
    view ts' = apply_muts ms (view ts).
Proof.
  intros Hg. revert ts. induction Hg as [|m ms Hm Hg IH]; intros ts Hwf; [eauto|].
  rewrite fmap_cons. cbn [run_entries]. rewrite apply_wal_good by done.
  destruct (must_tree ts (m_tree m)) as [tr ts1] eqn:E.
  destruct (tree_step_view _ _ _ _ E Hwf) as [H1 H2].
  destruct (IH _ H1) as (ts' & -> & H3 & H4). exists ts'. split_and!; [done..|].
  by rewrite H4, H2.
Qed.

(** * The log on disk *)

(** A segment holds the entries [es], perhaps with a torn tail behind them. *)
Definition seg_holds (d : wal_dir) (id : Z) (es : list entry) : Prop :=
  ∃ raw tail, default [] (d !! id) = raw ++ tail ∧ encodes es raw ∧
    ∀ path, read_frame path tail = FEnd.

(** The segments, in order, hold the mutations [ms]. *)
Definition log_holds (d : wal_dir) (ms : list Mutation) : Prop :=
  ∃ ess, Forall2 (seg_holds d) (segment_paths d) ess ∧ concat ess = entry_of <$> ms.

(** The segment open for appending is the last one and has no torn tail. *)
Record wal_ready (w : WAL) (d : wal_dir) : Prop := {
  ready_open : w_file w = FileOpen;
  ready_last : last (segment_paths d) = Some (w_segment_id w);
  ready_clean : ∃ es, encodes es (default [] (d !! w_segment_id w));
}.

Lemma elem_of_segment_paths d id : id ∈ segment_paths d ↔ id ∈ dom d.
Proof. unfold segment_paths. by rewrite merge_sort_Permutation, elem_of_elements. Qed.

Lemma segment_paths_NoDup d : NoDup (segment_paths d).
Proof. unfold segment_paths. rewrite merge_sort_Permutation. apply NoDup_elements. Qed.

Lemma segment_paths_sorted d : StronglySorted Z.le (segment_paths d).
Proof. apply (StronglySorted_merge_sort Z.le). Qed.

Lemma segment_paths_unique d l :
  StronglySorted Z.le l → NoDup l → (∀ id, id ∈ l ↔ id ∈ dom d) → segment_paths d = l.
Proof.
  intros Hs Hnd Hl. apply (StronglySorted_unique Z.le).
  - apply segment_paths_sorted.
  - done.
  - apply NoDup_Permutation; [apply segment_paths_NoDup|done|].
    intros id. by rewrite elem_of_segment_paths.
Qed.

Lemma segment_paths_overwrite d id raw :
  id ∈ dom d → segment_paths (<[id := raw]> d) = segment_paths d.
Proof.
  intros. apply segment_paths_unique; [apply segment_paths_sorted|apply segment_paths_NoDup|].
  intros i. rewrite elem_of_segment_paths, dom_insert_L. set_solver.
Qed.

Lemma last_segment_max d id i : last (segment_paths d) = Some id → i ∈ dom d → i ≤ id.
Proof.
  intros (l & E)%last_Some Hi. apply elem_of_segment_paths in Hi. rewrite E in Hi.
  pose proof (segment_paths_sorted d) as Hs. rewrite E, StronglySorted_app in Hs.
  destruct Hs as (Hc & _ & _). apply elem_of_app in Hi as [Hi|Hi]; [|set_solver].
  apply Hc; set_solver.
Qed.

Lemma last_segment_dom d id : last (segment_paths d) = Some id → id ∈ dom d.
Proof.
  intros (l & E)%last_Some. apply elem_of_segment_paths. rewrite E. set_solver.
Qed.

Lemma segment_paths_next d id raw :
  (∀ i, i ∈ dom d → i < id) → segment_paths (<[id := raw]> d) = segment_paths d ++ [id].
Proof.
  intros Hmax. assert (id ∉ dom d) as Hid by (intros Hi; specialize (Hmax _ Hi); lia).
  apply segment_paths_unique.
  - apply StronglySorted_app. split_and!; [|apply segment_paths_sorted|by repeat constructor].
    intros x y Hx ->%list_elem_of_singleton. apply elem_of_segment_paths in Hx.
    specialize (Hmax _ Hx). lia.
  - apply NoDup_app. split_and!; [apply segment_paths_NoDup| |apply NoDup_singleton].
    intros x Hx ->%list_elem_of_singleton. by apply elem_of_segment_paths in Hx.
  - intros i. rewrite elem_of_app, elem_of_segment_paths, dom_insert_L. set_solver.
Qed.

(** ** Replaying *)

Lemma replay_segments_holds {S} (apply : applier S) d paths ess s :
  Forall2 (seg_holds d) paths ess →
  replay_segments d paths apply s = run_entries apply s (concat ess).
Proof.
  intros H. revert s. induction H as [|id es paths ess (raw & tail & E & He & Ht) H IH]; intros s.
  { done. }
  simpl. rewrite E, (replay_file_encodes _ _ _ _ _ _ He) by done.
  rewrite run_entries_app. by destruct (run_entries apply s es) as [s' [e|]].
Qed.

Lemma replay_log d ms ts :
  log_holds d ms → Forall good ms → trees_wf ts →
  ∃ ts', replay d apply_wal ts = (ts', None) ∧ trees_wf ts' ∧
    view ts' = apply_muts ms (view ts).
Proof.
  intros (ess & Hess & Hc) Hg Hwf. unfold replay.
  rewrite (replay_segments_holds _ _ _ _ _ Hess), Hc. by apply run_entries_view.
Qed.

(** ** Appending *)

Lemma seg_holds_ext d d' id es :
  default [] (d !! id) = default [] (d' !! id) → seg_holds d id es → seg_holds d' id es.
Proof. unfold seg_holds. by intros ->. Qed.

Lemma Forall2_seg_holds_ext d d' ids ess :
  (∀ id, id ∈ ids → default [] (d !! id) = default [] (d' !! id)) →
  Forall2 (seg_holds d) ids ess → Forall2 (seg_holds d') ids ess.
Proof.
  intros Hext H. induction H as [|id es ids ess Hid H IH]; constructor.
  - apply (seg_holds_ext d); [|done]. apply Hext. left.
  - apply IH. intros i Hi. apply Hext. by right.
Qed.

Lemma seg_holds_nil d id : default [] (d !! id) = [] → seg_holds d id [].
Proof. intros E. exists [], []. rewrite E. split_and!; [done|constructor|done]. Qed.

(** An empty segment at the end changes nothing. *)
Lemma log_holds_next d ms id :
  (∀ i, i ∈ dom d → i < id) → log_holds d ms → log_holds (<[id := []]> d) ms.
Proof.
  intros Hmax (ess & H & Hc). exists (ess ++ [[]]). split.
  - rewrite segment_paths_next by done. apply Forall2_app.
    + eapply Forall2_seg_holds_ext; [|done]. intros i Hi%elem_of_segment_paths.
      rewrite lookup_insert_ne; [done|]. specialize (Hmax _ Hi). lia.
    + constructor; [|done]. apply seg_holds_nil. by rewrite lookup_insert_eq.
  - by rewrite concat_app, Hc, app_nil_r.
Qed.

(** Frames added to a clean last segment are added to the log; a torn frame
    behind them does not matter. *)
Lemma log_holds_append d ms id es raw tail ms' :
  last (segment_paths d) = Some id → log_holds d ms →
  (∃ es0, encodes es0 (default [] (d !! id))) →
  encodes es raw → es = entry_of <$> ms' → (∀ path, read_frame path tail = FEnd) →
  log_holds (append_file d id (raw ++ tail)) (ms ++ ms').
Proof.
  intros Hlast (ess & H & Hc) [es0 He0] Hes -> Ht.
  pose proof (last_segment_dom _ _ Hlast) as Hid.
  pose proof (segment_paths_NoDup d) as Hnd.
  apply last_Some in Hlast as [ids Eids].
  rewrite Eids in H, Hnd. apply Forall2_app_inv_l in H as (ess1 & ess2 & H1 & H2 & ->).
  apply Forall2_cons_inv_l in H2 as (es1 & ess3 & (raw1 & tail1 & Er & He1 & Ht1) & H3 & ->).
  apply Forall2_nil_inv_l in H3 as ->.
  exists (ess1 ++ [es0 ++ (entry_of <$> ms')]). split.
  - unfold append_file. rewrite segment_paths_overwrite, Eids by done.
    apply Forall2_app; [|constructor; [|done]].
    + eapply Forall2_seg_holds_ext; [|exact H1]. intros i Hi.
      rewrite lookup_insert_ne; [done|]. intros ->.
      apply NoDup_app in Hnd as (_ & Hn & _). by apply (Hn i Hi); left.
    + exists (default [] (d !! id) ++ raw), tail. rewrite lookup_insert_eq. simpl.
      split_and!; [by rewrite app_assoc|by apply encodes_app|done].
  - assert (es1 = es0) as ->.
    { rewrite Er in He0. rewrite <-(app_nil_r (raw1 ++ tail1)) in He0.
      apply (encodes_inj es1 es0 raw1 (raw1 ++ tail1) tail1 []); [done| |done|done|].
      - by rewrite app_nil_r in He0.
      - by rewrite app_nil_r. }
    rewrite !concat_app in Hc |- *. simpl in *. rewrite app_nil_r in Hc |- *.
    by rewrite fmap_app, <-Hc, app_assoc.
Qed.

(** * The refinement invariant *)

Definition durable (e : Engine) : Prop :=
  trees_wf (trees e) ∧ wal_ready (wal e) (d_wal (disk e)) ∧
  ∃ ms ts0, Forall good ms ∧ log_holds (d_wal (disk e)) ms ∧
    load_snapshot (disk e) = Ok ts0 ∧ trees_wf ts0 ∧
    view (trees e) = apply_muts ms (view ts0).

(** The files without the engine: what is left after a crash. *)
Definition disk_holds (d : Disk) (s : kv) : Prop :=
  ∃ ms ts0, Forall good ms ∧ log_holds (d_wal d) ms ∧
    load_snapshot d = Ok ts0 ∧ trees_wf ts0 ∧ s = apply_muts ms (view ts0).

Lemma durable_disk e : durable e → disk_holds (disk e) (view (trees e)).
Proof. intros (_ & _ & ms & ts0 & H). exists ms, ts0. tauto. Qed.

(** ** Opening *)

Lemma open_wal_paths d w d' :
  open_wal d = (w, d') →
  w_file w = FileOpen ∧ last (segment_paths d') = Some (w_segment_id w) ∧
  (∀ id, default [] (d' !! id) = default [] (d !! id)) ∧
  (∀ ms, log_holds d ms → log_holds d' ms).
Proof.
  unfold open_wal. fold (segment_paths d). intros E.
  destruct (last (segment_paths d)) as [id|] eqn:El; simplify_eq; simpl.
  - pose proof (last_segment_dom _ _ El) as Hid. apply elem_of_dom in Hid as [raw Hraw].
    unfold touch. rewrite Hraw. by split_and!.
  - apply last_None in El.
    assert (d = ∅) as ->.
    { apply dom_empty_inv_L. apply elem_of_equiv_empty_L. intros i Hi.
      apply elem_of_segment_paths in Hi. rewrite El in Hi. by apply elem_of_nil in Hi. }
    unfold touch. rewrite lookup_empty.
    split_and!; [done| | |].
    + by rewrite segment_paths_next, last_snoc by (intros i; rewrite dom_empty_L; set_solver).
    + intros id. destruct (decide (id = 1)) as [-> | Hne].
      * by rewrite lookup_insert_eq, lookup_empty.
      * by rewrite lookup_insert_ne.
    + intros ms. apply log_holds_next. intros i. rewrite dom_empty_L. set_solver.
Qed.

(** Opening the files gives the state they hold, and no error. *)
Lemma open_engine_disk d s names :
  disk_holds d s →
  ∃ e, open_engine d names = Ok e ∧ view (trees e) = s ∧ trees_wf (trees e) ∧
    disk_holds (disk e) s ∧ closed e = false ∧
    w_file (wal e) = FileOpen ∧ last (segment_paths (d_wal (disk e))) = Some (w_segment_id (wal e)) ∧
    (∀ id, default [] (d_wal (disk e) !! id) = default [] (d_wal d !! id)).
Proof.
  intros (ms & ts0 & Hg & Hlog & Hsnap & Hwf & ->). unfold open_engine. rewrite Hsnap. simpl.
  destruct (open_wal (d_wal d)) as [w dir] eqn:Ew.
  destruct (open_wal_paths _ _ _ Ew) as (H1 & H2 & H3 & H4). specialize (H4 _ Hlog).
  destruct (ensure_trees_spec ts0 names Hwf) as [Hwf' Hv].
  destruct (replay_log dir ms _ H4 Hg Hwf') as (ts' & -> & Hwf'' & Hv').
  eexists. split; [done|]. simpl. rewrite Hv', Hv. split_and!; [done..| |done|done|done|done].
  exists ms, ts0. by split_and!.
Qed.

(** ** Appending one mutation *)

Lemma append_ready w d m ms :
  wal_ready w d → log_holds d ms → good m →
  ∃ w' d' err, append w d (m_op m) (make_tree_key (m_tree m) (m_key m)) (m_value m) IoOk
      = (w', d', err) ∧ wal_ready w' d' ∧
    match err with None => log_holds d' (ms ++ [m]) | Some _ => w' = w ∧ d' = d end.
Proof.
  intros [Hopen Hlast Hclean] Hlog Hm. unfold append.
  destruct (encode_entry _ _ _) as [buf|er|msg] eqn:E; [|by eexists _, _, _..].
  unfold rotate_if_needed. rewrite Hopen.
  assert (Henc : encodes [entry_of m] (buf ++ [])) by (by constructor; [|constructor]).
  destruct (Z.leb_spec (w_offset w + zlen buf) (w_segment_size w)) as [Hfit|Hrot].
  - rewrite Hopen. eexists _, _, None. split; [done|]. simpl.
    pose proof (last_segment_dom _ _ Hlast) as Hid. rewrite app_nil_r in Henc. split.
    + split; simpl; [done|by unfold append_file; rewrite (segment_paths_overwrite _ _ _ Hid)|].
      destruct Hclean as [es Hes]. unfold append_file. rewrite lookup_insert_eq. simpl.
      exists (es ++ [entry_of m]). by apply encodes_app.
    + rewrite <-(app_nil_r buf). by apply (log_holds_append _ _ _ [entry_of m]).
  - simpl. set (id := w_segment_id w + 1).
    assert (Hmax : ∀ i, i ∈ dom d → i < id).
    { intros i Hi. pose proof (last_segment_max _ _ _ Hlast Hi). subst id. lia. }
    assert (d !! id = None) as Hnone.
    { apply not_elem_of_dom. intros Hi. specialize (Hmax _ Hi). lia. }
    unfold touch. rewrite Hnone. rewrite app_nil_r in Henc.
    assert (Hlast' : last (segment_paths (<[id := []]> d)) = Some id).
    { by rewrite segment_paths_next, last_snoc by done. }
    eexists _, _, None. split; [done|]. split.
    + pose proof (last_segment_dom _ _ Hlast') as Hid.
      split; simpl; [done| |].
      * unfold append_file. by rewrite segment_paths_overwrite.
      * unfold append_file. rewrite lookup_insert_eq, lookup_insert_eq. simpl. by eexists.
    + rewrite <-(app_nil_r buf). apply (log_holds_append _ _ _ [entry_of m]); try done.
      * by apply log_holds_next.
      * exists []. rewrite lookup_insert_eq. constructor.
Qed.

(** An append on a ready log fails only on lengths the frame cannot carry. *)
Lemma append_err_iff w d op key value w' d' err :
  w_file w = FileOpen → append w d op key value IoOk = (w', d', err) →
  (err = None ↔ is_ok (encode_entry op key value) = true).
Proof.
  intros Hopen. unfold append. destruct (encode_entry op key value) as [buf| |]; simpl.
  - unfold rotate_if_needed. rewrite Hopen.
    destruct (_ <=? _); simpl; rewrite ?Hopen; by intros [= _ _ <-].
  - intros [= _ _ <-]. split; congruence.
  - intros [= _ _ <-]. split; congruence.
Qed.

(** ** Transactions *)

Lemma tx_step_durable e m :
  durable e → good m →
  ∃ e' err, tx_step e m IoOk = (e', err) ∧ durable e' ∧
    view (trees e') = match err with None => apply_mut m (view (trees e))
                                  | Some _ => view (trees e) end ∧
    d_snapshot (disk e') = d_snapshot (disk e) ∧
    (err = None ↔ is_ok (encode_entry (m_op m) (make_tree_key (m_tree m) (m_key m)) (m_value m)) = true).
Proof.
  intros (Hwf & Hready & ms & ts0 & Hg & Hlog & Hsnap & Hwf0 & Hv) Hm. unfold tx_step.
  destruct (must_tree (trees e) (m_tree m)) as [tr ts'] eqn:Emt.
  destruct (must_tree_spec _ _ _ _ Emt Hwf) as (Htr & Hwf' & Hv' & _ & _).
  destruct (append_ready _ _ _ _ Hready Hlog Hm) as (w' & d' & err & Ea & Hready' & Herr).
  pose proof (append_err_iff _ _ _ _ _ _ _ _ (ready_open _ _ Hready) Ea) as Hok.
  rewrite Ea. destruct err as [er|].
  - eexists _, (Some er). split; [done|]. simpl. destruct Herr as [-> ->].
    split_and!; [|done|done|done]. split; [done|]. split; [done|].
    exists ms, ts0. simpl. rewrite Hv'. by split_and!.
  - destruct (tree_step_view _ _ _ _ Emt Hwf) as [Hw2 Hv2].
    set (p := if bool_decide (m_op m = OpPut) then _ else _).
    assert (Hp : p.1 = tree_step m tr).
    { subst p. unfold tree_step. case_bool_decide; [done|].
      rewrite bool_decide_eq_true_2; [done|]. by destruct Hm as [[?|?] _]. }
    destruct p as [tr' ix]. simpl in Hp. subst tr'.
    eexists _, None. split; [done|]. simpl. split_and!; [|done|done|done].
    split; [done|]. split; [done|]. exists (ms ++ [m]), ts0. simpl.
    split_and!; [by apply Forall_app; split; [|constructor]|done|done|done|].
    by rewrite Hv2, apply_muts_app, Hv.
Qed.
