(* ===== verification/StorageTheorems.v ===== *)
(** What the storage engine guarantees: transactions, crashes, reopening,
    snapshots, restores and the order of events. *)

From S2P Require Import Prelude.
From S2P Require Import GoBytes.
From S2P Require Import GoStrings.
From S2P Require Import GoChan.
From S2P Require Import StorageTree.
From S2P Require Import Wal.
From S2P Require Import Snapshot.
From S2P Require Import StorageEngine.
From S2P Require Import StorageSpec.

(** * Appending with faults *)

Lemma rotate_ready w d n io w' d' err ms :
  wal_ready w d → log_holds d ms → rotate_if_needed w d n io = (w', d', err) →
  log_holds d' ms ∧ (err = None → wal_ready w' d').
Proof.
  intros [Hopen Hlast Hclean] Hlog. unfold rotate_if_needed. rewrite Hopen.
  destruct (_ <=? _); [by intros [= <- <- <-]|].
  assert (Hmax : ∀ i, i ∈ dom d → i < w_segment_id w + 1).
  { intros i Hi. pose proof (last_segment_max _ _ _ Hlast Hi). lia. }
  assert (Hnone : d !! (w_segment_id w + 1) = None).
  { apply not_elem_of_dom. intros Hi. specialize (Hmax _ Hi). lia. }
  assert (Hnext : log_holds (touch d (w_segment_id w + 1)) ms ∧
    wal_ready (mkWAL FileOpen 0 (w_segment_id w + 1) (w_segment_size w))
      (touch d (w_segment_id w + 1))).
  { unfold touch. rewrite Hnone. split; [by apply log_holds_next|]. split; simpl.
    - done.
    - by rewrite segment_paths_next, last_snoc.
    - exists []. rewrite lookup_insert_eq. constructor. }
  destruct io; intros E; simplify_eq/=; naive_solver.
Qed.

(** Writing a frame, whole or cut, to a ready log. *)
Lemma append_file_ready w d m ms buf n :
  wal_ready w d → log_holds d ms →
  encode_entry (m_op m) (make_tree_key (m_tree m) (m_key m)) (m_value m) = Ok buf →
  let d' := append_file d (w_segment_id w) (take n buf) in
  log_holds d' (ms ++ if decide (n < length buf)%nat then [] else [m]).
Proof.
  intros [_ Hlast Hclean] Hlog E. simpl. case_decide as Hn.
  - by apply (log_holds_append d ms _ [] [] (take n buf) []);
      [..|constructor|done|intros p; eapply read_frame_torn].
  - rewrite take_ge, <-(app_nil_r buf) by lia.
    apply (log_holds_append d ms _ [entry_of m]); try done.
    rewrite <-(app_nil_r buf). by constructor; [|constructor].
Qed.

Lemma append_any w d m ms io w' d' err :
  wal_ready w d → log_holds d ms →
  append w d (m_op m) (make_tree_key (m_tree m) (m_key m)) (m_value m) io = (w', d', err) →
  (log_holds d' ms ∧ err ≠ None) ∨ log_holds d' (ms ++ [m]).
Proof.
  intros Hready Hlog. unfold append. destruct (encode_entry _ _ _) as [buf| |] eqn:E;
    [|intros [= <- <- <-]; by left..].
  destruct (rotate_if_needed _ _ _ _) as [[w1 d1] err1] eqn:Er.
  destruct (rotate_ready _ _ _ _ _ _ _ _ Hready Hlog Er) as [Hlog1 Hr1].
  destruct err1 as [er|]; [intros [= <- <- <-]; by left|].
  specialize (Hr1 eq_refl). rewrite (ready_open _ _ Hr1).
  assert (Hall : log_holds (append_file d1 (w_segment_id w1) buf) (ms ++ [m])).
  { pose proof (append_file_ready w1 d1 m ms buf (length buf) Hr1 Hlog1 E) as H.
    simpl in H. rewrite firstn_all, decide_False in H by lia. done. }
  destruct io as [| | |n|]; intros [= <- <- <-]; try by right.
  pose proof (append_file_ready w1 d1 m ms buf n Hr1 Hlog1 E) as H. simpl in H.
  case_decide; [left|by right]. rewrite app_nil_r in H. done.
Qed.

(** * Transactions *)

(** What a step leaves alone. *)
Definition same_frame (e e' : Engine) : Prop :=
  closed e' = closed e ∧ sequence e' = sequence e ∧ watchers e' = watchers e ∧
  drained e' = drained e ∧ next_watch_id e' = next_watch_id e ∧
  d_snapshot (disk e') = d_snapshot (disk e).

#[export] Instance same_frame_preorder : PreOrder same_frame.
Proof.
  split; [by intros e; unfold same_frame|].
  intros e1 e2 e3 (?&?&?&?&?&?) (?&?&?&?&?&?). unfold same_frame. split_and!; congruence.
Qed.

Lemma tx_step_frame e m io e' err : tx_step e m io = (e', err) → same_frame e e'.
Proof.
  unfold tx_step. destruct (must_tree _ _) as [tr ts].
  destruct (append _ _ _ _ _ _) as [[w d] [er|]]; [by intros [= <- <-]|].
  destruct (if bool_decide (m_op m = OpPut) then _ else _) as [tr' ix].
  by intros [= <- <-].
Qed.

Lemma tx_loop_frame ms : ∀ e io e' err, tx_loop e ms io = (e', err) → same_frame e e'.
Proof.
  induction ms as [|m ms IH]; intros e io e' err; simpl; [by intros [= <- <-]|].
  destruct (tx_step e m _) as [e1 [er|]] eqn:E; apply tx_step_frame in E.
  - by intros [= <- <-].
  - intros H%IH. by etrans.
Qed.

(** The entry of a mutation fits the width of the frame's length fields. *)
Definition loggable (m : Mutation) : bool :=
  is_ok (encode_entry (m_op m) (make_tree_key (m_tree m) (m_key m)) (m_value m)).

Lemma tx_loop_durable ms : ∀ e,
  durable e → Forall good ms →
  ∃ e' err n, tx_loop e ms [] = (e', err) ∧ durable e' ∧ (n ≤ length ms)%nat ∧
    view (trees e') = apply_muts (take n ms) (view (trees e)) ∧
    match err with
    | None => n = length ms ∧ Forall (λ m, loggable m = true) ms
    | Some _ => ∃ m, ms !! n = Some m ∧ loggable m = false
    end.
Proof.
  induction ms as [|m ms IH]; intros e Hd Hg; simpl.
  { exists e, None, 0%nat. by split_and!. }
  apply Forall_cons in Hg as [Hm Hg].
  destruct (tx_step_durable e m Hd Hm) as (e1 & [er|] & -> & Hd1 & Hv1 & _ & Hok).
  - exists e1, (Some er), 0%nat. split_and!; [done..|lia|done|].
    exists m. split; [done|]. unfold loggable. destruct (is_ok _); [|done].
    by destruct Hok as [_ Hok]; specialize (Hok eq_refl).
  - destruct (IH e1 Hd1 Hg) as (e' & err & n & -> & Hd' & Hn & Hv & Herr).
    exists e', err, (S n). split_and!; [done|done|simpl; lia| |].
    + simpl. by rewrite Hv, Hv1.
    + destruct err; [done|]. destruct Herr as [-> Hall]. split; [done|].
      constructor; [by apply Hok|done].
Qed.

(** Faults leave the files holding a prefix of the transaction, possibly with
    the mutation whose append was reported as failed. *)
Lemma tx_step_disk e m io e' err :
  durable e → good m → tx_step e m io = (e', err) →
  (disk_holds (disk e') (view (trees e)) ∧ err ≠ None) ∨
  disk_holds (disk e') (apply_mut m (view (trees e))).
Proof.
  intros (_ & Hready & ms & ts0 & Hg & Hlog & Hsnap & Hwf0 & Hv) Hm. unfold tx_step.
  destruct (must_tree _ _) as [tr ts].
  destruct (append _ _ _ _ _ _) as [[w d] er] eqn:Ea.
  assert (Hds : ∀ e1 : Engine, disk e1 = mkDisk (d_snapshot (disk e)) d →
    (disk_holds (disk e1) (view (trees e)) ∧ er ≠ None) ∨
    disk_holds (disk e1) (apply_mut m (view (trees e)))).
  { intros e1 ->. destruct (append_any _ _ _ _ _ _ _ _ Hready Hlog Ea) as [[Hl He]|Hl].
    - left. split; [|done]. exists ms, ts0. by split_and!.
    - right. exists (ms ++ [m]), ts0. split_and!; [|done..|].
      + apply Forall_app. by split; [|constructor].
      + by rewrite Hv, apply_muts_app. }
  destruct er as [er|]; [intros [= <- <-]; by apply Hds|].
  destruct (if bool_decide (m_op m = OpPut) then _ else _) as [tr' ix].
  intros [= <- <-]. by apply Hds.
Qed.

(** An operation that succeeds does what it does without faults. *)
Lemma append_success w d op key value io w' d' :
  append w d op key value io = (w', d', None) → append w d op key value IoOk = (w', d', None).
Proof.
  unfold append. destruct (encode_entry _ _ _) as [buf| |]; [|done..].
  assert (Hrot : ∀ w1 d1, rotate_if_needed w d (zlen buf) io = (w1, d1, None) →
    rotate_if_needed w d (zlen buf) IoOk = (w1, d1, None)).
  { intros w1 d1. unfold rotate_if_needed.
    destruct (w_file w); [done|destruct (_ <=? _), io; done..]. }
  destruct (rotate_if_needed w d (zlen buf) io) as [[w1 d1] [er|]]; [done|].
  rewrite (Hrot _ _ eq_refl). by destruct (w_file w1), io.
Qed.

Lemma tx_step_success e m io e' : tx_step e m io = (e', None) → tx_step e m IoOk = (e', None).
Proof.
  unfold tx_step. destruct (must_tree _ _) as [tr ts].
  destruct (append _ _ _ _ _ io) as [[w d] [er|]] eqn:E; [done|].
  by rewrite (append_success _ _ _ _ _ _ _ _ E).
Qed.

Lemma tx_loop_disk ms : ∀ e io e' err,
  durable e → Forall good ms → tx_loop e ms io = (e', err) →
  ∃ n, (n ≤ length ms)%nat ∧
    disk_holds (disk e') (apply_muts (take n ms) (view (trees e))) ∧
    (err = None → n = length ms ∧ durable e' ∧ view (trees e') = apply_muts ms (view (trees e))).
Proof.
  induction ms as [|m ms IH]; intros e io e' err Hd Hg; simpl.
  { intros [= <- <-]. exists 0%nat. split_and!; [lia|by apply durable_disk|done]. }
  apply Forall_cons in Hg as [Hm Hg].
  destruct (tx_step e m _) as [e1 [er|]] eqn:E; intros Hrun.
  - simplify_eq. destruct (tx_step_disk _ _ _ _ _ Hd Hm E) as [[Hdisk _]|Hdisk].
    + exists 0%nat. split_and!; [lia|done|done].
    + exists 1%nat. split_and!; [lia|done|done].
  - apply tx_step_success in E.
    destruct (tx_step_durable e m Hd Hm) as (e2 & err2 & E2 & Hd1 & Hv1 & _).
    rewrite E in E2. simplify_eq.
    destruct (IH _ _ _ _ Hd1 Hg Hrun) as (n & Hn & Hdisk & Hok). rewrite Hv1 in Hdisk, Hok.
    exists (S n). simpl. split_and!; [lia|done|]. intros Herr.
    destruct (Hok Herr) as (-> & ? & ?). by split_and!.
Qed.

(** * Opening *)

Lemma open_wal_ready d w d' w0 :
  wal_ready w0 d → open_wal d = (w, d') → wal_ready w d' ∧ d' = d.
Proof.
  intros [_ Hlast Hclean] Eo.
  destruct (open_wal_paths _ _ _ Eo) as (H1 & H2 & H3 & _).
  unfold open_wal in Eo. fold (segment_paths d) in Eo. rewrite Hlast in Eo.
  pose proof (last_segment_dom _ _ Hlast) as Hid. apply elem_of_dom in Hid as [raw Hraw].
  unfold touch in Eo. rewrite Hraw in Eo. injection Eo as <- <-. by split_and!.
Qed.

Lemma open_engine_durable e names :
  durable e →
  ∃ e', open_engine (disk e) names = Ok e' ∧ durable e' ∧ view (trees e') = view (trees e) ∧
    closed e' = false ∧ sequence e' = 0.
Proof.
  intros (_ & Hready & ms & ts0 & Hg & Hlog & Hsnap & Hwf & Hv). unfold open_engine.
  rewrite Hsnap. simpl. destruct (open_wal (d_wal (disk e))) as [w dir] eqn:Ew.
  destruct (open_wal_ready _ _ _ _ Hready Ew) as [Hready' ->].
  destruct (ensure_trees_spec ts0 names Hwf) as [Hwf' Hv'].
  destruct (replay_log _ ms _ Hlog Hg Hwf') as (ts' & -> & Hwf'' & Hv'').
  eexists. split; [done|]. simpl. rewrite Hv'', Hv', Hv. split_and!; [|done..].
  split; [done|]. split; [done|]. exists ms, ts0. split_and!; try done.
  simpl. by rewrite Hv'', Hv'.
Qed.

(** A new data directory. *)
Lemma log_holds_empty : log_holds ∅ [].
Proof. exists []. by split; [constructor|]. Qed.

Lemma open_engine_empty names :
  ∃ e, open_engine (mkDisk None ∅) names = Ok e ∧ durable e ∧ view (trees e) = ∅ ∧
    closed e = false ∧ sequence e = 0.
Proof.
  assert (Hv0 : view ∅ = ∅).
  { apply map_eq. intros [t k]. by rewrite lookup_view, !lookup_empty. }
  unfold open_engine. simpl.
  destruct (ensure_trees_spec ∅ names) as [Hwf Hv]; [apply map_Forall_empty|].
  assert (Hlog1 : log_holds (touch ∅ 1) []).
  { unfold touch. rewrite lookup_empty. apply log_holds_next; [|apply log_holds_empty].
    intros i. rewrite dom_empty_L. set_solver. }
  assert (open_wal ∅ = (mkWAL FileOpen 0 1 default_segment_size, touch ∅ 1)) as ->.
  { unfold open_wal. by rewrite dom_empty_L, elements_empty. }
  destruct (replay_log _ [] (foldl ensure_tree ∅ names) Hlog1 ltac:(constructor) Hwf)
    as (ts' & -> & Hwf' & Hv').
  eexists. split; [done|]. simpl. rewrite Hv', Hv. simpl. split_and!; [|done..].
  split; [done|]. split.
  - split; simpl; [done| |].
    + unfold touch. rewrite lookup_empty, segment_paths_next, last_snoc; [done|].
      intros i. rewrite dom_empty_L. set_solver.
    + exists []. unfold touch. rewrite lookup_empty, lookup_insert_eq. constructor.
  - exists [], ∅. split_and!; [constructor|done|done|apply map_Forall_empty|].
    simpl. by rewrite Hv', Hv.
Qed.

(** * Reads *)

Lemma get_view e t k :
  get e t k = match view (trees e) !! (t, k) with Some v => Ok v | None => Err ErrNotFound end.
Proof.
  unfold get. rewrite lookup_view. destruct (trees e !! t) as [tr|]; [|done]. simpl.
  unfold BTree.get. by destruct (BTree.items tr !! k).
Qed.

(** * Events *)

Definition seq_lt (a b : TxEvent) : Prop := ev_sequence a < ev_sequence b.

(** What a subscriber may hold: events in the order they were published. *)
Definition in_order (seq : Z) (c : chan TxEvent) : Prop :=
  chan_ok c ∧ StronglySorted seq_lt (ch_buf c) ∧
  Forall (λ ev, 0 < ev_sequence ev ≤ seq) (ch_buf c).

(** The steps of an engine that is up: transactions with any faults, watchers
    that come, go and receive, snapshots, restores and closing. *)
Inductive engine_step (e : Engine) : Engine → Prop :=
  | step_tx fn notify now io : engine_step e (tx e fn notify now io).1
  | step_watch : engine_step e (watch_tx e).1.1
  | step_unsubscribe id : engine_step e (unsubscribe e id)
  | step_receive id c :
      watchers e !! id = Some c →
      engine_step e (mkEngine (trees e) (index e) (wal e) (closed e) (sequence e)
        (next_watch_id e) (<[id := (recv_nb c).2]> (watchers e)) (drained e) (disk e))
  | step_snapshot order io : engine_step e (create_snapshot e order io).1
  | step_restore source order io : engine_step e (restore_snapshot e source order io).1
  | step_close : engine_step e (close_engine e).1.

Definition watchers_ok (e : Engine) : Prop :=
  0 ≤ sequence e ∧ map_Forall (λ _, in_order (sequence e)) (watchers e).

Lemma in_order_publish seq now ms c :
  0 ≤ seq → in_order seq c → in_order (seq + 1) (send_nb (mkTxEvent (seq + 1) now ms) c).
Proof.
  intros Hseq (Hc & Hs & Hf). split; [by apply send_nb_ok|]. unfold send_nb.
  assert (Hle : Forall (λ ev, 0 < ev_sequence ev ≤ seq + 1) (ch_buf c)).
  { eapply Forall_impl; [exact Hf|]. simpl. lia. }
  destruct (_ <? _); [|done]. simpl. split.
  - apply StronglySorted_app. split_and!; [|done|by repeat constructor].
    intros x y Hx ->%list_elem_of_singleton. rewrite Forall_forall in Hf.
    unfold seq_lt. simpl. specialize (Hf _ Hx). lia.
  - apply Forall_app. split; [done|]. constructor; [simpl; lia|done].
Qed.

Lemma in_order_recv seq c : in_order seq c → in_order seq (recv_nb c).2.
Proof.
  unfold recv_nb. destruct c as [cap [|ev buf] cl]; [done|]. intros (Hc & Hs & Hf). simpl in *.
  unfold in_order, chan_ok in *. simpl in *. rewrite zlen_cons in Hc.
  apply StronglySorted_inv in Hs as [Hs _]. apply Forall_cons in Hf as [_ Hf].
  split_and!; [lia|done|done].
Qed.

Lemma watchers_ok_publish e now ms : watchers_ok e → watchers_ok (publish e now ms).
Proof.
  intros [Hs Hw]. split; simpl; [lia|]. intros id c. unfold broadcast. rewrite lookup_fmap.
  intros (c0 & Hc & ->)%fmap_Some. apply in_order_publish; [done|]. by eapply Hw.
Qed.

Lemma watchers_ok_frame e e' : same_frame e e' → watchers_ok e → watchers_ok e'.
Proof. intros (_ & Hs & Hw & _). unfold watchers_ok. by rewrite Hs, Hw. Qed.

Lemma tx_watchers_ok e fn notify now io : watchers_ok e → watchers_ok (tx e fn notify now io).1.
Proof.
  intros H. unfold tx. destruct (closed e); [done|].
  destruct fn as [[|m ms]| |]; [done| |done..].
  destruct (tx_loop e (m :: ms) io) as [e' [er|]] eqn:E; apply tx_loop_frame in E;
    apply (watchers_ok_frame _ _ E) in H; [done|].
  by destruct notify; [apply watchers_ok_publish|].
Qed.

Lemma watchers_ok_step e e' : watchers_ok e → engine_step e e' → watchers_ok e'.
Proof.
  intros H Hstep. destruct Hstep as [fn notify now io| |id|id c Hc|order io|source order io|].
  - by apply tx_watchers_ok.
  - unfold watch_tx. destruct (closed e); [done|]. simpl. destruct H as [Hs Hw].
    split; [done|]. simpl. apply map_Forall_insert_2; [|done].
    split_and!; [by unfold chan_ok|constructor|constructor].
  - unfold unsubscribe. destruct (watchers e !! id); [|done]. destruct H as [Hs Hw].
    split; [done|]. simpl. by apply map_Forall_delete.
  - destruct H as [Hs Hw]. split; [done|]. simpl. apply map_Forall_insert_2; [|done].
    apply in_order_recv. by eapply Hw.
  - unfold create_snapshot. by destruct (write_snapshot_file _ _ _).
  - unfold restore_snapshot. destruct (_ ≫= _); [|done..]. destruct (closed e); [done|].
    destruct (write_snapshot_file _ _ _) as [f [er|]]; [done|].
    destruct (close (wal e)) as [w [er|]]; [done|]. by destruct (open_wal ∅).
  - unfold close_engine. destruct (close _). destruct H. split; [done|]. apply map_Forall_empty.
Qed.

(** * Snapshots *)

Lemma read_rows_wf n : ∀ tr raw tr' rest,
  read_rows n tr raw = Ok (tr', rest) → BTree.wf tr → BTree.wf tr'.
Proof.
  induction n as [|n IH]; intros tr raw tr' rest; simpl; [by intros [= <- <-]|].
  unfold rbind at 1. destruct (read_uint 4 raw) as [[kl r1]| |]; [|done..].
  unfold rbind at 1. destruct (read_full _ r1) as [[k r2]| |]; [|done..].
  unfold rbind at 1. destruct (read_uint 4 r2) as [[vl r3]| |]; [|done..].
  unfold rbind at 1. destruct (read_full _ r3) as [[v r4]| |]; [|done..].
  intros H Hwf. eapply IH; [exact H|by apply BTree.set_wf].
Qed.

Lemma read_tree_wf raw name tr rest : read_tree raw = Ok ((name, tr), rest) → BTree.wf tr.
Proof.
  unfold read_tree. unfold rbind at 1. destruct (read_uint 2 raw) as [[nl r1]| |]; [|done..].
  unfold rbind at 1. destruct (read_full _ r1) as [[nm r2]| |]; [|done..].
  unfold rbind at 1. destruct (read_uint 4 r2) as [[rc r3]| |]; [|done..].
  unfold rbind. destruct (read_rows _ _ r3) as [[tr' r4]| |] eqn:E; [|done..].
  intros [= <- <- <-]. eapply read_rows_wf; [exact E|apply BTree.wf_new].
Qed.

Lemma read_trees_wf n : ∀ out raw ts rest,
  read_trees n out raw = Ok (ts, rest) → trees_wf out → trees_wf ts.
Proof.
  induction n as [|n IH]; intros out raw ts rest; simpl; [by intros [= <- <-]|].
  unfold rbind. destruct (read_tree raw) as [[[nm tr] r1]| |] eqn:E; [|done..].
  intros H Hwf. eapply IH; [exact H|]. apply map_Forall_insert_2; [|done].
  by eapply read_tree_wf.
Qed.

(** Whatever the file holds, the trees read from it are well formed. *)
Lemma read_snapshot_wf raw ts : read_snapshot raw = Ok ts → trees_wf ts.
Proof.
  unfold read_snapshot, rbind at 1. destruct (read_full _ raw) as [[mg r1]| |]; [|done..].
  case_bool_decide; [|done]. unfold rbind. destruct (read_uint 4 r1) as [[n r2]| |]; [|done..].
  destruct (read_trees _ _ _) as [[ts' r3]| |] eqn:E; [|done..]. intros [= <-].
  eapply read_trees_wf; [exact E|apply map_Forall_empty].
Qed.

Lemma view_merge_restored current restored :
  view (merge_restored current restored) = view restored.
Proof.
  apply map_eq. intros [t k]. rewrite !lookup_view. unfold merge_restored.
  rewrite lookup_union, lookup_fmap.
  destruct (restored !! t) as [tr|]; [by destruct (current !! t)|].
  by destruct (current !! t).
Qed.

Lemma merge_restored_wf current restored :
  trees_wf restored → trees_wf (merge_restored current restored).
Proof.
  intros H t tr. unfold merge_restored. rewrite lookup_union_Some_raw, lookup_fmap.
  intros [Ht|[_ (? & _ & ->)%fmap_Some]]; [by eapply H|apply BTree.wf_new].
Qed.

(** A new log directory, as [RestoreSnapshot] and a new data directory open it. *)
Lemma open_wal_empty :
  ∃ w d, open_wal ∅ = (w, d) ∧ wal_ready w d ∧ log_holds d [].
Proof.
  destruct (open_wal ∅) as [w d] eqn:E. exists w, d. split; [done|].
  destruct (open_wal_paths _ _ _ E) as (H1 & H2 & H3 & H4).
  specialize (H4 _ log_holds_empty). split; [|done]. split; [done..|].
  exists []. rewrite H3, lookup_empty. constructor.
Qed.

(** A frame header in front of too few bytes is read as the end of the log,
    whatever the bytes are. *)
Lemma read_frame_short path op key value buf n x :
  encode_entry op key value = Ok buf → (8 ≤ n)%nat → (n + length x < length buf)%nat →
  read_frame path (take n buf ++ x) = FEnd.
Proof.
  intros E Hn Hx.
  apply encode_entry_ok in E as (payload & -> & Hp & Hk & Hv & Hpl).
  pose proof (zlen_nonneg payload).
  assert (Hlen : zlen (take n (be_put 4 (zlen payload) ++ be_put 4 (crc32 payload) ++ payload) ++ x)
    = Z.of_nat n + zlen x).
  { rewrite zlen_app, zlen_take; [done|]. lia. }
  unfold read_frame. rewrite Hlen.
  rewrite (proj2 (Z.ltb_ge _ _)) by (pose proof (zlen_nonneg x); lia).
  rewrite take_app_le by (rewrite length_take, !length_app, !be_put_length in *; lia).
  rewrite take_take, Nat.min_l, take_be, be_get_put_id by lia.
  destruct (zlen payload =? 0); [done|]. rewrite (proj2 (Z.ltb_lt _ _)); [done|].
  unfold zlen in *. rewrite length_drop, !length_app, length_take, !length_app, !be_put_length in *.
  lia.
Qed.

(** * An engine to try the theorems on *)

Definition demo_engine : Engine :=
  match open_engine (mkDisk None ∅) [bs "leases"] with
  | Ok e => e
  | _ => mkEngine ∅ IndexManager.new (mkWAL FileNil 0 0 0) true 0 0 ∅ ∅ (mkDisk None ∅)
  end.

Lemma demo_engine_ok : durable demo_engine ∧ closed demo_engine = false.
Proof.
  destruct (open_engine_empty [bs "leases"]) as (e & E & Hd & _ & Hc & _).
  unfold demo_engine. by rewrite E.
Qed.

Definition demo_put (k v : string) : Mutation := tx_put (bs "leases") (bs k) (bs v).

Lemma demo_put_good k v : good (demo_put k v).
Proof. split; [by left|]. by apply (bool_decide_unpack _). Qed.

(** A transaction without faults. *)
Lemma tx_run (e : Engine) (ms : list Mutation) (notify : bool) (now : Z) :
  durable e → closed e = false → Forall good ms →
  ∃ e' err n, tx e (Ok ms) notify now [] = (e', err) ∧ durable e' ∧ closed e' = false ∧
    (n ≤ length ms)%nat ∧
    view (trees e') = apply_muts (take n ms) (view (trees e)) ∧
    match err with
    | None => n = length ms ∧ Forall (λ m, loggable m = true) ms ∧
        sequence e' = sequence e + (if notify && negb (bool_decide (ms = [])) then 1 else 0)
    | Some _ => (∃ m, ms !! n = Some m ∧ loggable m = false) ∧
        sequence e' = sequence e ∧ watchers e' = watchers e
    end.
Proof.
  intros Hd Hc Hg. unfold tx. rewrite Hc.
  destruct ms as [|m ms].
  { exists e, None, 0%nat. rewrite andb_false_r. split_and!; done || (simpl; lia). }
  destruct (tx_loop_durable _ e Hd Hg) as (e' & err & n & E & Hd' & Hn & Hv & Herr).
  rewrite E. apply tx_loop_frame in E as (Hc' & Hs & Hw & _). rewrite Hc in Hc'.
  destruct err as [er|].
  - exists e', (Some er), n. by split_and!.
  - destruct Herr as [-> Hall].
    eexists _, None, _. split; [done|]. destruct notify; simpl; rewrite ?Hs;
      split_and!; try done; lia.
Qed.

(** * The theorems *)

(** C1: a transaction on an engine whose files hold its trees applies a prefix of
    its mutations, all of them exactly when every entry fits the frame's length
    fields; the files again hold the trees, and an event is published (the
    sequence number advances by one) only for a whole, non-empty, notifying
    transaction. *)
Theorem tx_refines (e : Engine) (ms : list Mutation) (notify : bool) (now : Z) :
  durable e → closed e = false → Forall good ms →
  ∃ e' err n, tx e (Ok ms) notify now [] = (e', err) ∧ durable e' ∧ (n ≤ length ms)%nat ∧
    view (trees e') = apply_muts (take n ms) (view (trees e)) ∧
    match err with
    | None => n = length ms ∧ Forall (λ m, loggable m = true) ms ∧
        sequence e' = sequence e + (if notify && negb (bool_decide (ms = [])) then 1 else 0)
    | Some _ => (∃ m, ms !! n = Some m ∧ loggable m = false) ∧
        sequence e' = sequence e ∧ watchers e' = watchers e
    end.
Proof.
  intros Hd Hc Hg.
  destruct (tx_run e ms notify now Hd Hc Hg) as (e' & err & n & E & Hd' & _ & H).
  by exists e', err, n.
Qed.

Lemma tx_refines_witness :
  ∃ e' err n, tx demo_engine (Ok [demo_put "a" "1"; demo_put "b" "2"]) true 7 [] = (e', err) ∧
    durable e' ∧ (n ≤ 2)%nat ∧
    view (trees e') = apply_muts (take n [demo_put "a" "1"; demo_put "b" "2"])
      (view (trees demo_engine)) ∧
    match err with
    | None => n = 2%nat ∧ Forall (λ m, loggable m = true) [demo_put "a" "1"; demo_put "b" "2"] ∧
        sequence e' = sequence demo_engine + 1
    | Some _ => (∃ m, [demo_put "a" "1"; demo_put "b" "2"] !! n = Some m ∧ loggable m = false) ∧
        sequence e' = sequence demo_engine ∧ watchers e' = watchers demo_engine
    end.
Proof.
  apply (tx_refines demo_engine [demo_put "a" "1"; demo_put "b" "2"] true 7);
    [apply demo_engine_ok|apply demo_engine_ok|].
  repeat constructor; by apply (bool_decide_unpack _).
Defined.

(** C2: whatever goes wrong during a transaction (a frame cut at any byte, a
    failed rotation, a failed sync, a crash), opening the files again succeeds
    and gives the state before the transaction with some prefix of its mutations
    applied; with all of them when the transaction reported success. *)
Theorem tx_crash_recovers (e : Engine) ms notify now io e1 err names :
  durable e → closed e = false → Forall good ms →
  tx e (Ok ms) notify now io = (e1, err) →
  ∃ n e2, (n ≤ length ms)%nat ∧ open_engine (disk e1) names = Ok e2 ∧
    view (trees e2) = apply_muts (take n ms) (view (trees e)) ∧
    (err = None → n = length ms).
Proof.
  intros Hd Hc Hg. unfold tx. rewrite Hc. intros Hrun.
  assert (H : ∃ n, (n ≤ length ms)%nat ∧
    disk_holds (disk e1) (apply_muts (take n ms) (view (trees e))) ∧
    (err = None → n = length ms)).
  { destruct ms as [|m ms].
    { simplify_eq. exists 0%nat. split_and!; [done|by apply durable_disk|done]. }
    destruct (tx_loop e (m :: ms) io) as [e' err'] eqn:E.
    destruct (tx_loop_disk _ _ _ _ _ Hd Hg E) as (n & Hn & Hdisk & Hok).
    exists n. destruct err' as [er|]; simplify_eq.
    - done.
    - destruct (Hok eq_refl) as [-> _]. by destruct notify. }
  destruct H as (n & Hn & Hdisk & Hok).
  destruct (open_engine_disk _ _ names Hdisk) as (e2 & Ho & Hv & _).
  by exists n, e2.
Qed.

Lemma tx_crash_recovers_witness :
  let ms := [demo_put "a" "1"; demo_put "b" "2"] in
  let io := [IoOk; IoWriteFail 10] in
  let e1 := (tx demo_engine (Ok ms) true 7 io).1 in
  ∃ n e2, (n ≤ 2)%nat ∧ open_engine (disk e1) [] = Ok e2 ∧
    view (trees e2) = apply_muts (take n ms) (view (trees demo_engine)) ∧
    ((tx demo_engine (Ok ms) true 7 io).2 = None → n = 2%nat).
Proof.
  intros ms io e1.
  apply (tx_crash_recovers demo_engine ms true 7 io e1); [apply demo_engine_ok..| |].
  - repeat constructor; by apply (bool_decide_unpack _).
  - apply surjective_pairing.
Defined.

(** C3: opening the files of a running engine gives an engine with the same
    contents whose files again hold its trees, for any set of tree names; a
    transaction committed to either is therefore never lost by a restart. *)
Theorem reopen_refines (e : Engine) names t k :
  durable e →
  ∃ e', open_engine (disk e) names = Ok e' ∧ durable e' ∧
    get e' t k = get e t k ∧ sequence e' = 0.
Proof.
  intros Hd. destruct (open_engine_durable e names Hd) as (e' & -> & Hd' & Hv & _ & Hs).
  exists e'. by rewrite !get_view, Hv.
Qed.

Lemma reopen_refines_witness :
  ∃ e', open_engine (disk demo_engine) [bs "sessions"] = Ok e' ∧ durable e' ∧
    get e' (bs "leases") (bs "a") = get demo_engine (bs "leases") (bs "a") ∧ sequence e' = 0.
Proof. apply (reopen_refines demo_engine). apply demo_engine_ok. Defined.

(** A snapshot that succeeds changes no key and keeps the files good: the
    log is not truncated, and replaying it over the snapshot that already
    contains it gives the same state. *)
Theorem snapshot_refines (e : Engine) order n e' :
  durable e → order ≡ₚ map_to_list (trees e) →
  create_snapshot e order (SnapOk n) = (e', None) →
  durable e' ∧ trees e' = trees e ∧ load_snapshot (disk e') = Ok (trees e).
Proof.
  intros (Hwf & Hready & ms & ts0 & Hg & Hlog & Hsnap & Hwf0 & Hv) Hp.
  unfold create_snapshot, write_snapshot_file.
  destruct (write_snapshot order) as [raw [er|]] eqn:Ew; [done|]. intros [= <-].
  assert (Hload : load_snapshot (mkDisk (Some raw) (d_wal (disk e))) = Ok (trees e)).
  { unfold load_snapshot. simpl. rewrite <-(app_nil_r raw).
    by eapply read_write_snapshot. }
  split; [|done]. split; [done|]. split; [done|].
  exists ms, (trees e). split_and!; try done. simpl. by rewrite Hv, apply_muts_idemp.
Qed.

Lemma snapshot_refines_witness :
  let order := map_to_list (trees demo_engine) in
  let e' := (create_snapshot demo_engine order (SnapOk 0)).1 in
  durable e' ∧ trees e' = trees demo_engine ∧
  load_snapshot (disk e') = Ok (trees demo_engine).
Proof.
  intros order e'.
  apply (snapshot_refines demo_engine order 0 e'); [apply demo_engine_ok|done|].
  apply (injective_projections _ _); [done|]. vm_compute. reflexivity.
Defined.

(** Restoring replaces the whole state by the snapshot's, in memory and on
    disk, whatever the engine held before; a file that cannot be read as a
    snapshot changes nothing. *)
Theorem restore_refines (e : Engine) raw restored order n :
  closed e = false → w_file (wal e) = FileOpen →
  order ≡ₚ map_to_list (merge_restored (trees e) restored) →
  (write_snapshot order).2 = None →
  (read_snapshot raw = Ok restored →
   ∃ e', restore_snapshot e (Ok raw) order (SnapOk n) = (e', None) ∧ durable e' ∧
     view (trees e') = view restored) ∧
  (∀ er, read_snapshot raw = Err er →
     restore_snapshot e (Ok raw) order (SnapOk n) = (e, Some er)).
Proof.
  intros Hc Hw Hp Hnone. split.
  - intros Hread. unfold restore_snapshot. cbn [mbind result_bind]. rewrite Hread, Hc.
    pose proof (merge_restored_wf (trees e) _ (read_snapshot_wf _ _ Hread)) as Hwf.
    unfold write_snapshot_file.
    destruct (write_snapshot order) as [raw' [er|]] eqn:Ew.
    { by simplify_eq. }
    unfold close. rewrite Hw.
    destruct open_wal_empty as (w & dir & -> & Hready & Hlog).
    eexists. split; [done|]. simpl. split; [|apply view_merge_restored].
    split; [done|]. split; [done|].
    exists [], (merge_restored (trees e) restored). split_and!; [constructor|done| |done|done].
    unfold load_snapshot. simpl. rewrite <-(app_nil_r raw'). by eapply read_write_snapshot.
  - intros er Hread. unfold restore_snapshot. simpl. by rewrite Hread.
Qed.

Lemma restore_refines_witness :
  let order := map_to_list (merge_restored (trees demo_engine) ∅) in
  let raw := snapshot_magic ++ be_put 4 0 in
  (read_snapshot raw = Ok ∅ →
   ∃ e', restore_snapshot demo_engine (Ok raw) order (SnapOk 0) = (e', None) ∧ durable e' ∧
     view (trees e') = view ∅) ∧
  (∀ er, read_snapshot raw = Err er →
     restore_snapshot demo_engine (Ok raw) order (SnapOk 0) = (demo_engine, Some er)).
Proof.
  intros order raw. apply restore_refines; [by apply demo_engine_ok|done|done|].
  vm_compute. reflexivity.
Defined.

(** A snapshot interrupted anywhere (a crash, a failed write) leaves a file
    that is not a snapshot: the engine cannot be opened again, although the log
    still holds every acknowledged transaction. *)
Theorem interrupted_snapshot_blocks_open (e : Engine) order n names raw :
  trees_wf (trees e) → order ≡ₚ map_to_list (trees e) →
  write_snapshot order = (raw, None) → (n < length raw)%nat →
  ∃ er er', (create_snapshot e order (SnapCut n)).2 = Some er ∧
    open_engine (disk (create_snapshot e order (SnapCut n)).1) names = Err er'.
Proof.
  intros Hwf Hp Hw Hn. unfold create_snapshot, write_snapshot_file. rewrite Hw. simpl.
  destruct (exact_snapshot order raw) as [_ Hcut]; [|done|].
  { rewrite Hp. apply map_Forall_to_list in Hwf. eapply Forall_impl; [exact Hwf|]. by intros []. }
  destruct (Hcut n Hn) as [er' Her]. eexists _, er'. split; [done|].
  unfold open_engine, load_snapshot. simpl. by rewrite Her.
Qed.

Lemma interrupted_snapshot_blocks_open_witness :
  let order := map_to_list (trees demo_engine) in
  ∃ er er', (create_snapshot demo_engine order (SnapCut 5)).2 = Some er ∧
    open_engine (disk (create_snapshot demo_engine order (SnapCut 5)).1) [] = Err er'.
Proof.
  intros order.
  apply (interrupted_snapshot_blocks_open demo_engine order 5 [] (write_snapshot order).1);
    [apply demo_engine_ok|done|vm_compute; reflexivity|].
  apply Nat.ltb_lt. vm_compute. reflexivity.
Defined.

(** The log is written in append mode and a failed write is not cut off.  A
    later transaction whose whole frame is shorter than what the torn one still
    lacks is acknowledged and visible, and lost by the next restart. *)
Theorem torn_write_loses_later_transaction (e : Engine) m1 m2 n buf1 buf2 now names :
  durable e → closed e = false → good m1 → good m2 →
  encode_entry (m_op m1) (make_tree_key (m_tree m1) (m_key m1)) (m_value m1) = Ok buf1 →
  encode_entry (m_op m2) (make_tree_key (m_tree m2) (m_key m2)) (m_value m2) = Ok buf2 →
  (8 ≤ n)%nat → (n + length buf2 < length buf1)%nat →
  w_offset (wal e) + zlen buf1 ≤ w_segment_size (wal e) →
  let e1 := (tx e (Ok [m1]) true now [IoWriteFail n]).1 in
  let e2 := (tx e1 (Ok [m2]) true now [IoOk]).1 in
  (tx e1 (Ok [m2]) true now [IoOk]).2 = None ∧
  view (trees e2) = apply_mut m2 (view (trees e)) ∧
  ∃ e3, open_engine (disk e2) names = Ok e3 ∧ view (trees e3) = view (trees e).
Proof.
  intros Hd Hc Hg1 Hg2 E1 E2 Hn Hlen Hfit.
  destruct Hd as (Hwf & [Hopen Hlast Hclean] & ms & ts0 & Hg & Hlog & Hsnap & Hwf0 & Hv).
  set (d' := append_file (d_wal (disk e)) (w_segment_id (wal e)) (take n buf1 ++ buf2)).
  assert (Hholds : disk_holds (mkDisk (d_snapshot (disk e)) d') (view (trees e))).
  { exists ms, ts0. split_and!; try done. simpl. rewrite <-(app_nil_r ms). subst d'.
    apply (log_holds_append _ _ _ [] [] (take n buf1 ++ buf2) []); try done; [constructor|].
    intros p. by eapply read_frame_short. }
  assert (Hzl : zlen buf2 ≤ zlen buf1) by (unfold zlen; lia).
  destruct (must_tree (trees e) (m_tree m1)) as [tr1 ts1'] eqn:Em1.
  destruct (must_tree_spec _ _ _ _ Em1 Hwf) as (_ & Hwf1 & Hv1 & _).
  destruct (must_tree ts1' (m_tree m2)) as [tr2 ts2] eqn:Em2.
  destruct (tree_step_view _ _ _ _ Em2 Hwf1) as [_ Hv2].
  destruct (open_engine_disk _ _ names Hholds) as (e3 & Ho & Hv3 & _).
  assert (Hrun : ∃ e2, tx (tx e (Ok [m1]) true now [IoWriteFail n]).1 (Ok [m2]) true now [IoOk]
      = (e2, None) ∧ trees e2 = <[m_tree m2 := tree_step m2 tr2]> ts2 ∧
      disk e2 = mkDisk (d_snapshot (disk e)) d').
  { unfold tx at 2. rewrite Hc. cbn [tx_loop hd tl]. unfold tx_step at 1. rewrite Em1.
    unfold append. rewrite E1. unfold rotate_if_needed. rewrite Hopen.
    rewrite (proj2 (Z.leb_le _ _)) by done. rewrite Hopen. cbn [fst].
    unfold tx. cbn [closed]. rewrite Hc. cbn [tx_loop hd tl]. unfold tx_step. cbn [trees]. rewrite Em2.
    cbn [wal disk d_wal]. unfold append. rewrite E2. unfold rotate_if_needed. rewrite Hopen.
    rewrite (proj2 (Z.leb_le _ _)) by lia. rewrite Hopen.
    set (p := if bool_decide (m_op m2 = OpPut) then _ else _).
    assert (p.1 = tree_step m2 tr2) as Hp.
    { subst p. unfold tree_step. case_bool_decide; [done|].
      rewrite bool_decide_eq_true_2; [done|]. by destruct Hg2 as [[?|?] _]. }
    destruct p as [tr' ix]. simpl in Hp. subst tr'.
    eexists. split; [done|]. split; [done|]. simpl. f_equal. subst d'. unfold append_file.
    by rewrite lookup_insert_eq, insert_insert_eq, app_assoc. }
  destruct Hrun as (e2 & E & Ht & Hdisk). simpl. rewrite E. simpl. split; [done|]. split.
  - by rewrite Ht, Hv2, Hv1.
  - exists e3. by rewrite Hdisk.
Qed.

Definition frame_of (m : Mutation) : bytes :=
  match encode_entry (m_op m) (make_tree_key (m_tree m) (m_key m)) (m_value m) with
  | Ok buf => buf
  | _ => []
  end.

Lemma torn_write_loses_later_transaction_witness :
  let m1 := demo_put "long key" "a value that is longer than the frame of the next put" in
  let m2 := demo_put "b" "2" in
  let e1 := (tx demo_engine (Ok [m1]) true 7 [IoWriteFail 10]).1 in
  let e2 := (tx e1 (Ok [m2]) true 7 [IoOk]).1 in
  (tx e1 (Ok [m2]) true 7 [IoOk]).2 = None ∧
  view (trees e2) = apply_mut m2 (view (trees demo_engine)) ∧
  ∃ e3, open_engine (disk e2) [] = Ok e3 ∧ view (trees e3) = view (trees demo_engine).
Proof.
  intros m1 m2.
  apply (torn_write_loses_later_transaction demo_engine m1 m2 10 (frame_of m1) (frame_of m2) 7 []);
    [apply demo_engine_ok|apply demo_engine_ok|apply demo_put_good|apply demo_put_good|
     vm_compute; reflexivity|vm_compute; reflexivity|
     apply Nat.leb_le; vm_compute; reflexivity|apply Nat.ltb_lt; vm_compute; reflexivity|
     apply Z.leb_le; vm_compute; reflexivity].
Defined.

(** In every state an engine can reach, each subscriber holds events in
    strictly increasing order of sequence number, none from the future, and
    never more than its buffer: a publisher never blocks on it. *)
Theorem subscribers_in_order (e0 e : Engine) d names id c :
  open_engine d names = Ok e0 → rtc engine_step e0 e → watchers e !! id = Some c →
  StronglySorted seq_lt (ch_buf c) ∧ Forall (λ ev, 0 < ev_sequence ev ≤ sequence e) (ch_buf c) ∧
  zlen (ch_buf c) ≤ ch_cap c.
Proof.
  intros Ho Hr.
  assert (H0 : watchers_ok e0).
  { unfold open_engine in Ho. destruct (load_snapshot d) as [ts| |]; [|done..]. simpl in Ho.
    destruct (open_wal (d_wal d)) as [w dir]. destruct (replay _ _ _) as [ts' [er|]]; [done|].
    injection Ho as <-. split; [done|apply map_Forall_empty]. }
  assert (H : watchers_ok e).
  { clear Ho. induction Hr as [|x y z Hxy _ IH]; [done|]. apply IH. by eapply watchers_ok_step. }
  destruct H as [_ H]. intros Hc. destruct (H _ _ Hc) as (? & ? & ?). by split_and!.
Qed.

(** A watcher subscribes, two transactions commit. *)
Definition demo_watched : Engine :=
  (put (put (watch_tx demo_engine).1.1 (bs "leases") (bs "a") (bs "1") 5 []).1
     (bs "leases") (bs "b") (bs "2") 6 []).1.

Lemma subscribers_in_order_witness :
  ∃ c, watchers demo_watched !! 1 = Some c ∧ length (ch_buf c) = 2%nat ∧
  StronglySorted seq_lt (ch_buf c) ∧
  Forall (λ ev, 0 < ev_sequence ev ≤ sequence demo_watched) (ch_buf c) ∧
  zlen (ch_buf c) ≤ ch_cap c.
Proof.
  eexists. split; [vm_compute; reflexivity|]. split; [reflexivity|].
  apply (subscribers_in_order demo_engine demo_watched (mkDisk None ∅) [bs "leases"] 1).
  - vm_compute. reflexivity.
  - eapply rtc_l; [apply step_watch|]. eapply rtc_l; [apply step_tx|].
    apply rtc_once. apply step_tx.
  - vm_compute. reflexivity.
Defined.

(** * Ordered iteration and secondary indexes *)

(** The manager after a run of row updates, each told the row it replaces as the
    engine does. *)
Definition run_updates (m : IndexManager.t) (ups : list (bytes * option bytes))
    : IndexManager.t * gmap bytes bytes :=
  foldl (λ st up, (IndexManager.update st.1 up.1 (st.2 !! up.1) up.2,
                   IndexManager.set_row st.2 up.1 up.2)) (m, ∅) ups.

(** After any sequence of row updates, a scan of an index returns exactly the
    primary keys of the current rows that have an index key with the prefix: no
    stale entry survives an update or a delete, and no row is missed. *)
Theorem index_scan_exact (name : bytes) (fn : IndexManager.index_func) ups prefix pk :
  IndexManager.sep_free fn →
  let m0 := (IndexManager.create IndexManager.new name fn).1 in
  let '(m, rows) := run_updates m0 ups in
  pk ∈ IndexManager.scan m name prefix ↔
    ∃ v ik, rows !! pk = Some v ∧ ik ∈ fn pk v ∧
      has_prefix (IndexManager.compose_index_key ik pk) prefix = true.
Proof.
  intros Hsep m0. destruct (run_updates m0 ups) as [m rows] eqn:E.
  assert (H : IndexManager.ok m rows ∧ IndexManager.indexes m !! name = Some fn).
  { replace m with (run_updates m0 ups).1 by by rewrite E.
    replace rows with (run_updates m0 ups).2 by by rewrite E. clear E m rows.
    unfold run_updates. induction ups as [|up ups [IH1 IH2]] using rev_ind.
    - assert (m0 = IndexManager.mk {[name := fn]} {[name := BTree.new]}) as -> by done.
      cbn [foldl fst snd IndexManager.indexes IndexManager.trees].
      split; [|apply lookup_singleton_eq].
      intros n f Hf _. cbn in Hf.
      apply lookup_singleton_Some in Hf as [<- <-]. cbn [IndexManager.trees].
      exists BTree.new. split; [apply lookup_singleton_eq|]. split; [apply BTree.wf_new|]. intros key w.
      cbn [fst snd BTree.items BTree.new]. rewrite !(lookup_empty (M := gmap bytes)).
      split; [done|]. by intros (v & ik & Hw & _).
    - rewrite foldl_app. simpl. split; [by apply IndexManager.update_ok|done]. }
  destruct H as [Hok Hn]. by apply IndexManager.scan_ok.
Qed.

(** An index on the value itself. *)
Definition by_value : IndexManager.index_func := λ _ v, filter (λ ik, Init.Byte.x00 ∉ ik) [v].

Lemma index_scan_exact_witness :
  let m0 := (IndexManager.create IndexManager.new (bs "i") by_value).1 in
  let '(m, rows) := run_updates m0 [(bs "p", Some (bs "red")); (bs "q", Some (bs "blue"));
                                    (bs "p", Some (bs "blue")); (bs "q", None)] in
  bs "p" ∈ IndexManager.scan m (bs "i") (bs "bl") ↔
    ∃ v ik, rows !! bs "p" = Some v ∧ ik ∈ by_value (bs "p") v ∧
      has_prefix (IndexManager.compose_index_key ik (bs "p")) (bs "bl") = true.
Proof.
  apply (index_scan_exact (bs "i") by_value). intros pk v ik Hik.
  by apply list_elem_of_filter in Hik as [? _].
Defined.
