(* ===== verification/RowTable.v ===== *)
(** Rows of JSON records in a tree of the engine.

    The IPAM engine, the users, the API tokens, the sessions and the settings all
    keep records this way: the key of a row is a field of the record, the value
    its JSON.  [table] relates a tree to the map it stands for; the laws of the
    operations are proved once here. *)

From S2P Require Import Prelude.
From S2P Require Import GoBytes.
From S2P Require Import GoTime.
From S2P Require Import GoJson.
From S2P Require Import StorageTree.
From S2P Require Import Wal.
From S2P Require Import StorageEngine.
From S2P Require Import StorageSpec.
From S2P Require Import StorageTheorems.

(** An engine whose files hold its trees and that is open. *)
Definition engine_ok (e : Engine) : Prop := durable e ∧ closed e = false.

(** The rows of an engine. *)
Definition rows (e : Engine) : kv := view (trees e).

Section table.
Context {A : Type} `{Json A} (tree : bytes).

(** [store.Get] and [json.Unmarshal] *)
Definition row_get (e : Engine) (key : bytes) : result A := raw ← get e tree key; unmarshal raw.

(** The callback of a listing: a row that does not decode is skipped. *)
Definition row_decode (out : list A) (_ v : bytes) : list A * bool :=
  match unmarshal v with Ok a => (out ++ [a], true) | _ => (out, true) end.

(** [store.Iterate] over the whole tree; a missing tree is an empty one. *)
Definition row_list (e : Engine) : result (list A) :=
  match iterate e tree [] [] row_decode [] with
  | (out, None) | (out, Some ErrNotFound) => Ok out
  | (_, Some er) => Err er
  end.

(** [json.Marshal] and [store.Put] *)
Definition row_put (e : Engine) (key : bytes) (a : A) (now : time) (io : list append_io)
    : Engine * option error :=
  match marshal a with
  | Ok raw => put e tree key raw now io
  | Err er => (e, Some er)
  | Panic p => (e, Some (ErrIO p))
  end.

(** [store.Delete] *)
Definition row_delete (e : Engine) (key : bytes) (now : time) (io : list append_io)
    : Engine * option error := delete e tree key now io.

(** * The map a tree stands for *)

Definition table (s : kv) (m : gmap bytes A) : Prop :=
  ∀ k, match m !! k with
       | Some a => ∃ raw, s !! (tree, k) = Some raw ∧ unmarshal raw = Ok a
       | None => s !! (tree, k) = None
       end.

Lemma row_get_table e m k :
  table (rows e) m → row_get e k = match m !! k with Some a => Ok a | None => Err ErrNotFound end.
Proof.
  intros Ht. unfold row_get. rewrite get_view. specialize (Ht k). unfold rows in Ht.
  destruct (m !! k); [|by rewrite Ht]. by destruct Ht as (raw & -> & Hraw).
Qed.

Lemma fold_row_decode rs (as_ : list A) : ∀ out,
  Forall2 (λ (kv : bytes * bytes) a, unmarshal kv.2 = Ok a) rs as_ →
  BTree.fold_until row_decode out rs = out ++ as_.
Proof.
  intros out Hr. revert out. induction Hr as [|[k v] a rs as_ Ha _ IH]; intros out; simpl in *.
  { by rewrite app_nil_r. }
  unfold row_decode at 1. rewrite Ha, IH. by rewrite <-app_assoc.
Qed.

(** The keys between two bounds, an empty one being none. *)
Definition between (start end_ : bytes) (k : bytes) : Prop := bytes_le start k ∧ (end_ = [] ∨ bytes_le k end_).

#[global] Instance between_dec start end_ k : Decision (between start end_ k).
Proof. unfold between. apply _. Defined.

(** A scan of the tree meets the rows of the map, in the order of their keys. *)
Lemma row_scan_between e m :
  trees_wf (trees e) → table (rows e) m →
  ∃ rs as_, (∀ S (f : S → bytes → bytes → S * bool) (s : S) start end_, ∃ err,
      iterate e tree start end_ f s = (BTree.fold_until f s (filter (λ kv, between start end_ kv.1) rs), err) ∧
      (err = None ∨ err = Some ErrNotFound ∧ rs = [])) ∧
    Forall2 (λ (kv : bytes * bytes) a, unmarshal kv.2 = Ok a) rs as_ ∧ StronglySorted bytes_lt rs.*1 ∧
    ∀ k a, (k, a) ∈ zip rs.*1 as_ ↔ m !! k = Some a.
Proof.
  intros Hwf Ht. destruct (trees e !! tree) as [tr|] eqn:E.
  - assert (BTree.wf tr) as Htr by by eapply Hwf.
    assert (Hsnap : ∀ k v, (k, v) ∈ BTree.snapshot tr ↔ rows e !! (tree, k) = Some v).
    { intros k v. rewrite BTree.elem_of_snapshot by done. unfold rows. by rewrite lookup_view, E. }
    assert (Hsort : StronglySorted bytes_lt (BTree.snapshot tr).*1) by by apply BTree.snapshot_sorted.
    assert (Hit : ∀ S (f : S → bytes → bytes → S * bool) (s : S) start end_,
      iterate e tree start end_ f s =
        (BTree.fold_until f s (filter (λ kv, between start end_ kv.1) (BTree.snapshot tr)), None)).
    { intros S f s start end_. unfold iterate. by rewrite E, BTree.iterate_spec. }
    revert Hsnap Hsort Hit. set (rs := BTree.snapshot tr). intros Hsnap Hsort Hit.
    assert (∃ as_, Forall2 (λ (kv : bytes * bytes) a, unmarshal kv.2 = Ok a ∧ m !! kv.1 = Some a) rs as_)
      as [as_ Has].
    { assert (Hall : ∀ kv, kv ∈ rs → ∃ a, unmarshal kv.2 = Ok a ∧ m !! kv.1 = Some a).
      { intros [k v] Hkv%Hsnap. specialize (Ht k). simpl.
        destruct (m !! k) as [a|]; [|congruence]. destruct Ht as (raw & ? & ?). exists a. split; congruence. }
      clear -Hall. induction rs as [|kv rs IH]; [by exists []|].
      destruct IH as [as_ Has]; [by intros; apply Hall; right|].
      destruct (Hall kv) as [a Ha]; [left|]. exists (a :: as_). by constructor. }
    exists rs, as_. split; [|split; [|split; [done|]]].
    + intros S f s start end_. exists None. split; [apply Hit|by left].
    + eapply Forall2_impl; [exact Has|]. by intros ?? [].
    + intros k a. split.
      * intros Hin. apply list_elem_of_lookup in Hin as [i Hi].
        apply lookup_zip_Some in Hi as [Hk Ha]. rewrite list_lookup_fmap in Hk.
        destruct (rs !! i) as [kv|] eqn:Ekv; [|done]. injection Hk as <-.
        destruct (Forall2_lookup_lr _ _ _ _ _ _ Has Ekv Ha) as [_ ?]. done.
      * intros Hm. pose proof (Ht k) as Hk. rewrite Hm in Hk. destruct Hk as (raw & Hraw & Hun).
        apply Hsnap, list_elem_of_lookup in Hraw as [i Hi].
        destruct (Forall2_lookup_l _ _ _ _ _ Has Hi) as (a' & Ha' & _ & Hm'). simpl in Hm'.
        apply list_elem_of_lookup. exists i. apply lookup_zip_Some. rewrite list_lookup_fmap, Hi.
        split; [done|congruence].
  - exists [], []. split; [|split; [done|split; [constructor|]]].
    + intros S f s start end_. exists (Some ErrNotFound). unfold iterate. rewrite E. split; [done|by right].
    + intros k a. rewrite elem_of_nil. split; [done|].
      intros Hm. specialize (Ht k). rewrite Hm in Ht. destruct Ht as (raw & Hraw & _).
      unfold rows in Hraw. by rewrite lookup_view, E in Hraw.
Qed.

Lemma row_scan e m :
  trees_wf (trees e) → table (rows e) m →
  ∃ rs as_, (∀ S (f : S → bytes → bytes → S * bool) (s : S), ∃ err, iterate e tree [] [] f s = (BTree.fold_until f s rs, err) ∧
      (err = None ∨ err = Some ErrNotFound ∧ rs = [])) ∧
    Forall2 (λ (kv : bytes * bytes) a, unmarshal kv.2 = Ok a) rs as_ ∧ StronglySorted bytes_lt rs.*1 ∧
    ∀ k a, (k, a) ∈ zip rs.*1 as_ ↔ m !! k = Some a.
Proof.
  intros Hwf Ht. destruct (row_scan_between e m Hwf Ht) as (rs & as_ & Hit & Hrest). exists rs, as_.
  split; [|done]. intros S f s. destruct (Hit S f s [] []) as (err & E & Herr). exists err. split; [|done]. rewrite E.
  f_equal. f_equal. clear. induction rs as [|kv rs IH]; [done|]. rewrite filter_cons_True; [by f_equal|].
  split; [by destruct kv.1|by left].
Qed.

(** A listing has the rows of the map, in the order of their keys. *)
Lemma row_list_table e m :
  trees_wf (trees e) → table (rows e) m →
  ∃ kvs, row_list e = Ok kvs.*2 ∧ StronglySorted bytes_lt kvs.*1 ∧
    ∀ k a, (k, a) ∈ kvs ↔ m !! k = Some a.
Proof.
  intros Hwf Ht. destruct (row_scan e m Hwf Ht) as (rs & as_ & Hit & Has & Hsort & Hin).
  exists (zip rs.*1 as_).
  assert (Hlen : length rs.*1 = length as_) by (rewrite length_fmap; by eapply Forall2_length).
  rewrite snd_zip, fst_zip by lia. split; [|done].
  unfold row_list. destruct (Hit (list A) row_decode []) as (err & -> & Herr).
  rewrite (fold_row_decode _ as_) by done. by destruct Herr as [-> |[-> _]].
Qed.

(** * Writes *)

(** What the log needs of a row: a tree name and key that fit, and a JSON text that fits. *)
Definition row_fits (key : bytes) (a : A) : Prop :=
  json_ok a ∧ zlen key < 4096 ∧ ∀ raw, marshal a = Ok raw → zlen raw < 4294900000.

Definition tree_ok : Prop := good_name tree ∧ zlen tree < 4096.

(** The other rows. *)
Definition same_but (s s' : kv) : Prop := ∀ t k, t ≠ tree → s' !! (t, k) = s !! (t, k).

Lemma single_write e m now :
  engine_ok e → good m → loggable m = true →
  ∃ e', tx e (Ok [m]) true now [] = (e', None) ∧ engine_ok e' ∧ rows e' = apply_mut m (rows e).
Proof.
  intros [Hd Hc] Hg Hl. destruct (tx_run e [m] true now Hd Hc) as (e' & err & n & E & Hd' & Hc' & Hn & Hv & Herr).
  { by constructor. }
  destruct err as [er|].
  - destruct Herr as [(x & Hx & Hbad) _]. destruct n; simpl in Hx; [|by destruct n]. simplify_eq. congruence.
  - destruct Herr as (-> & _). exists e'. split; [done|]. split; [by split|]. unfold rows. by rewrite Hv.
Qed.

Lemma loggable_row (key value : bytes) op :
  zlen tree < 4096 → zlen key < 4096 → zlen value < 4294900000 →
  loggable (mkMutation tree op key value) = true.
Proof.
  intros Ht Hk Hv. apply encode_entry_is_ok. unfold make_tree_key. cbn [m_tree m_key m_value].
  rewrite zlen_app, zlen_cons. pose proof (zlen_nonneg value). lia.
Qed.

(** A row that fits is written, and no other row changes. *)
Lemma row_put_table e m k a now :
  tree_ok → engine_ok e → table (rows e) m → row_fits k a →
  ∃ e', row_put e k a now [] = (e', None) ∧ engine_ok e' ∧
    table (rows e') (<[k := a]> m) ∧ same_but (rows e) (rows e').
Proof.
  intros [Hname Hlen] He Ht (Hok & Hk & Hsize). unfold row_put.
  destruct (marshal_ok a Hok) as [raw Hraw]. rewrite Hraw. unfold put.
  destruct (single_write e (tx_put tree k raw) now He) as (e' & -> & He' & Hv).
  { split; [by left|done]. }
  { apply loggable_row; auto. }
  assert (Hm : ∀ t k', rows e' !! (t, k') = <[(tree, k) := raw]> (rows e) !! (t, k')).
  { intros t k'. rewrite Hv. done. }
  exists e'. split; [done|]. split; [done|]. split.
  - intros k'. rewrite Hm. destruct (decide (k' = k)) as [-> |Hne].
    + rewrite !lookup_insert_eq. exists raw. split; [done|]. by apply unmarshal_marshal.
    + rewrite !lookup_insert_ne by congruence. apply Ht.
  - intros t k' Hne. rewrite Hm. by rewrite lookup_insert_ne by congruence.
Qed.

Lemma row_delete_table e m k now :
  tree_ok → engine_ok e → table (rows e) m → zlen k < 4096 →
  ∃ e', row_delete e k now [] = (e', None) ∧ engine_ok e' ∧
    table (rows e') (base.delete k m) ∧ same_but (rows e) (rows e').
Proof.
  intros [Hname Hlen] He Ht Hk. unfold row_delete, delete.
  destruct (single_write e (tx_delete tree k) now He) as (e' & -> & He' & Hv).
  { split; [by right|done]. }
  { by apply loggable_row. }
  assert (Hm : ∀ t k', rows e' !! (t, k') = base.delete (tree, k) (rows e) !! (t, k')).
  { intros t k'. rewrite Hv. done. }
  exists e'. split; [done|]. split; [done|]. split.
  - intros k'. rewrite Hm. destruct (decide (k' = k)) as [-> |Hne].
    + by rewrite !lookup_delete_eq.
    + rewrite !lookup_delete_ne by congruence. apply Ht.
  - intros t k' Hne. rewrite Hm. by rewrite lookup_delete_ne by congruence.
Qed.

(** A delete that does not fit the log is refused; the map has no such row. *)
Lemma row_delete_any e m k now :
  tree_ok → engine_ok e → table (rows e) m → (is_Some (m !! k) → zlen k < 4096) →
  ∃ e' err, row_delete e k now [] = (e', err) ∧ engine_ok e' ∧
    table (rows e') (base.delete k m) ∧ same_but (rows e) (rows e').
Proof.
  intros Htree He Ht Hk. destruct (decide (zlen k < 4096)) as [Hlt|Hge].
  { destruct (row_delete_table e m k now Htree He Ht Hlt) as (e' & ? & ? & ? & ?). by exists e', None. }
  assert (Hm : m !! k = None).
  { destruct (m !! k) eqn:E; [|done]. exfalso. apply Hge, Hk. by eexists. }
  rewrite delete_id by done. destruct Htree as [Hname Hlen]. destruct He as [Hd Hc].
  destruct (tx_run e [tx_delete tree k] true now Hd Hc) as (e' & err & n & E & Hd' & Hc' & Hn & Hv & Herr).
  { constructor; [|done]. split; [by right|done]. }
  exists e', err. split; [exact E|]. split; [by split|].
  assert (Hsame : ∀ t k', rows e' !! (t, k') = rows e !! (t, k')).
  { intros t k'. unfold rows. rewrite Hv. destruct err as [er|].
    - destruct Herr as [(x & Hx & _) _]. destruct n; [done|]. destruct n; simpl in Hx; done.
    - destruct Herr as (-> & _). cbn [length take apply_muts foldl]. unfold apply_mut. cbn.
      case_bool_decide; [done|]. destruct (decide ((tree, k) = (t, k'))) as [<-|Hne].
      + rewrite lookup_delete_eq. specialize (Ht k). rewrite Hm in Ht. done.
      + by rewrite lookup_delete_ne. }
  split; [|by intros t k' _]. intros k'. specialize (Ht k'). by rewrite Hsame.
Qed.
End table.

(** Tables of other trees are kept. *)
Lemma table_same_but {A} `{Json A} (t t' : bytes) (s s' : kv) (m : gmap bytes A) :
  same_but t s s' → t' ≠ t → table t' s m → table t' s' m.
Proof. intros Hs Hne Ht k. rewrite Hs by done. apply Ht. Qed.

(** The writes of one transaction. *)
Lemma multi_write e ms now :
  engine_ok e → Forall good ms → Forall (λ m, loggable m = true) ms →
  ∃ e', tx e (Ok ms) true now [] = (e', None) ∧ engine_ok e' ∧ rows e' = apply_muts ms (rows e).
Proof.
  intros [Hd Hc] Hg Hl. destruct (tx_run e ms true now Hd Hc Hg) as (e' & err & n & E & Hd' & Hc' & Hn & Hv & Herr).
  destruct err as [er|].
  - destruct Herr as [(x & Hx & Hbad) _]. rewrite Forall_lookup in Hl. apply Hl in Hx. congruence.
  - destruct Herr as (-> & _). exists e'. split; [done|]. split; [by split|]. unfold rows. by rewrite Hv, firstn_all.
Qed.

(** The rows of the instance the witnesses run with. *)
Lemma packed_row_fits {A} n put get ok Hok (key : bytes) (a : A) `{Decision (ok a)} :
  bool_decide (ok a ∧ zlen key < 4096 ∧ zlen (pack (put a)) < 4294900000) = true →
  row_fits (H := packed n put get ok Hok) key a.
Proof. rewrite bool_decide_eq_true. intros (H1 & H2 & H3). split; [done|]. split; [done|]. by intros raw [= <-]. Qed.
