(* ===== verification/Lease.v ===== *)
(** internal/lease/types.go: the lease record.

    A lease state is a Go string, so it is [bytes]: rows read from disk may hold
    any.  A nil slice and an empty one are the same value here, as they are to
    the JSON encoding ([omitempty]) and to every test of the code ([len]). *)

From S2P Require Import Prelude.
From S2P Require Import GoBytes.
From S2P Require Import GoTime.
From S2P Require Import GoJson.

(** * States *)

Definition StateFree := bs "free".
Definition StateOffered := bs "offered".
Definition StateBound := bs "bound".
Definition StateRenewing := bs "renewing".
Definition StateReleased := bs "released".
Definition StateDeclined := bs "declined".
Definition StateQuarantined := bs "quarantined".
Definition StateExpired := bs "expired".

(** * The record *)

Record Lease := mkLease {
  l_ip : bytes;
  l_mac : bytes;
  l_client_id : bytes;
  l_hostname : bytes;
  l_state : bytes;
  l_start_time : time;
  l_duration : duration;
  l_t1 : duration;
  l_t2 : duration;
  l_expiry_time : time;
  l_quarantine_until : time;
  l_subnet_id : bytes;
  l_relay_addr : bytes;
  l_relay_info : bytes;
  l_circuit_id : bytes;
  l_remote_id : bytes;
  l_vendor_class : bytes;
  l_user_class : bytes;
  l_last_seen : time;
  l_ddns_forward : bytes;
  l_ddns_reverse : bytes;
  l_tags : gmap bytes bytes;
  l_created_at : time;
  l_updated_at : time;
}.

#[global] Instance eta_Lease : Eta Lease := λ l,
  mkLease (l_ip l) (l_mac l) (l_client_id l) (l_hostname l) (l_state l) (l_start_time l)
    (l_duration l) (l_t1 l) (l_t2 l) (l_expiry_time l) (l_quarantine_until l) (l_subnet_id l)
    (l_relay_addr l) (l_relay_info l) (l_circuit_id l) (l_remote_id l) (l_vendor_class l)
    (l_user_class l) (l_last_seen l) (l_ddns_forward l) (l_ddns_reverse l) (l_tags l)
    (l_created_at l) (l_updated_at l).

#[global] Instance lease_eq_dec : EqDecision Lease.
Proof. solve_decision. Defined.

(** The zero value [Lease{}]. *)
Definition zero_lease : Lease :=
  mkLease [] [] [] [] [] 0 0 0 0 0 0 [] [] [] [] [] [] [] 0 [] [] ∅ 0 0.

(** [if cond { assign }] on a lease *)
Definition when (c : Lease → bool) (assign : Lease → Lease) (l : Lease) : Lease :=
  if c l then assign l else l.

(** [NormalizeDefaults] *)
Definition normalize_defaults (now : time) (default_duration : duration) (l : Lease) : Lease :=
  let l := when (λ l, is_zero (l_start_time l)) (λ l, l <| l_start_time := now |>) l in
  let l := when (λ l, l_duration l <=? 0) (λ l, l <| l_duration := default_duration |>) l in
  let l := when (λ l, l_t1 l <=? 0) (λ l, l <| l_t1 := dur_quot (l_duration l) 2 |>) l in
  let l := when (λ l, l_t2 l <=? 0)
             (λ l, l <| l_t2 := dur_quot (dur_mul (l_duration l) 7) 8 |>) l in
  let l := when (λ l, is_zero (l_expiry_time l))
             (λ l, l <| l_expiry_time := time_add (l_start_time l) (l_duration l) |>) l in
  let l := when (λ l, is_zero (l_created_at l)) (λ l, l <| l_created_at := now |>) l in
  let l := when (λ l, is_zero (l_last_seen l)) (λ l, l <| l_last_seen := now |>) l in
  l <| l_updated_at := now |>.

#[global] Arguments normalize_defaults : simpl never.

Lemma when_frame {T} (p : Lease → T) c f l : (∀ l, p (f l) = p l) → p (when c f l) = p l.
Proof. intros H. unfold when. destruct (c l); [apply H|done]. Qed.

(** What [NormalizeDefaults] never touches. *)
Lemma normalize_identity now d l :
  let l' := normalize_defaults now d l in
  l_ip l' = l_ip l ∧ l_mac l' = l_mac l ∧ l_client_id l' = l_client_id l ∧
  l_subnet_id l' = l_subnet_id l ∧ l_state l' = l_state l ∧
  l_quarantine_until l' = l_quarantine_until l ∧ l_updated_at l' = now.
Proof.
  unfold normalize_defaults. cbn [l_ip l_mac l_client_id l_subnet_id l_state
    l_quarantine_until l_updated_at setter]. by rewrite !when_frame.
Qed.

Lemma normalize_expiry now d l :
  l_expiry_time l ≠ 0 → l_expiry_time (normalize_defaults now d l) = l_expiry_time l.
Proof.
  intros Hne. unfold normalize_defaults. cbn [l_expiry_time setter].
  rewrite 2!(when_frame l_expiry_time) by done.
  assert (E : ∀ x, l_expiry_time x = l_expiry_time l →
    l_expiry_time (when (λ l, is_zero (l_expiry_time l))
      (λ l, l <| l_expiry_time := time_add (l_start_time l) (l_duration l) |>) x)
    = l_expiry_time l).
  { intros x Hx. unfold when, is_zero. rewrite Hx, (proj2 (Z.eqb_neq _ _)); done. }
  apply E. by rewrite !when_frame.
Qed.

(** * The codec the witnesses run with *)

Definition lease_fields (l : Lease) : list bytes :=
  [l_ip l; l_mac l; l_client_id l; l_hostname l; l_state l; put_int (l_start_time l);
   put_int (l_duration l); put_int (l_t1 l); put_int (l_t2 l); put_int (l_expiry_time l);
   put_int (l_quarantine_until l); l_subnet_id l; l_relay_addr l; l_relay_info l;
   l_circuit_id l; l_remote_id l; l_vendor_class l; l_user_class l; put_int (l_last_seen l);
   l_ddns_forward l; l_ddns_reverse l; put_map (l_tags l); put_int (l_created_at l);
   put_int (l_updated_at l)].

Definition lease_of_fields (fs : list bytes) : option Lease :=
  match fs with
  | [f1; f2; f3; f4; f5; f6; f7; f8; f9; f10; f11; f12; f13; f14; f15; f16; f17; f18; f19;
     f20; f21; f22; f23; f24] =>
      Some (mkLease f1 f2 f3 f4 f5 (get_int f6) (get_int f7) (get_int f8) (get_int f9)
        (get_int f10) (get_int f11) f12 f13 f14 f15 f16 f17 f18 (get_int f19) f20 f21
        (get_map f22) (get_int f23) (get_int f24))
  | _ => None
  end.

Definition lease_packed_ok (l : Lease) : Prop :=
  Forall (λ f, zlen f < 256 ^ 8) (lease_fields l) ∧
  Forall int_ok [l_start_time l; l_duration l; l_t1 l; l_t2 l; l_expiry_time l;
    l_quarantine_until l; l_last_seen l; l_created_at l; l_updated_at l] ∧
  map_ok (l_tags l).

#[global] Instance lease_packed_ok_dec l : Decision (lease_packed_ok l).
Proof. unfold lease_packed_ok. apply _. Defined.

Lemma lease_of_to_fields l : lease_packed_ok l → lease_of_fields (lease_fields l) = Some l.
Proof.
  intros (_ & Hi & Hm). unfold lease_of_fields, lease_fields.
  rewrite get_put_map by done.
  repeat match goal with H : Forall int_ok (_ :: _) |- _ =>
    apply Forall_cons in H as [? H] end.
  rewrite !get_put_int by done. by destruct l.
Qed.

Definition packed_lease : Json Lease.
Proof.
  refine {|
    marshal := λ l, Ok (pack (lease_fields l));
    unmarshal := λ raw,
      match lease_of_fields (unpack 24 raw) with
      | Some l => Ok l
      | None => Err (errorNew "unexpected end of JSON input")
      end;
    json_ok := lease_packed_ok;
  |}.
  - eauto.
  - intros l raw Hok [= <-].
    change 24%nat with (length (lease_fields l)). rewrite unpack_pack by apply Hok.
    by rewrite lease_of_to_fields.
Defined.
