(* ===== verification/LeaseStore.v ===== *)
(** internal/lease/store.go: leases in the storage engine.

    A lease is one row of the tree [leases] and up to four rows of index trees,
    whose keys end with the separator and the address.  The mutation feed of the
    store is a goroutine that reads the engine's events; its loop body is
    [consume_one]. *)

From S2P Require Import Prelude.
From S2P Require Import GoBytes.
From S2P Require Import GoStrings.
From S2P Require Import GoChan.
From S2P Require Import GoTime.
From S2P Require Import GoJson.
From S2P Require Import StorageTree.
From S2P Require Import Wal.
From S2P Require Import StorageEngine.
From S2P Require Import Lease.

Definition treeLeases := bs "leases".
Definition treeLeaseByMAC := bs "leases_by_mac".
Definition treeLeaseByExpiry := bs "leases_by_expiry".
Definition treeLeaseBySubnet := bs "leases_by_subnet".
Definition treeLeaseByClient := bs "leases_by_client".
Definition index_sep : byte := Init.Byte.x1f.

Record MutationEvent := mkMutationEvent {
  me_sequence : Z; me_timestamp : time; me_op : byte; me_ip : bytes; me_lease : option Lease
}.

Record EngineStore := mkEngineStore {
  eng : Engine;
  es_next_watch_id : Z;
  es_watchers : gmap Z (chan MutationEvent);
  es_watch_started : bool;
  es_tx_id : Z;              (** the engine subscription the loop reads *)
}.

#[global] Instance eta_EngineStore : Eta EngineStore := λ s,
  mkEngineStore (eng s) (es_next_watch_id s) (es_watchers s) (es_watch_started s) (es_tx_id s).

(** [NewStore] *)
Definition new_store (e : Engine) : EngineStore := mkEngineStore e 0 ∅ false 0.

Section lease_store.
Context `{UnicodeTables} `{Json Lease}.

Definition normalize_mac (mac : bytes) : bytes := to_upper (trim_space mac).

(** * Index keys *)

(** [field + indexSep + ip] *)
Definition index_key (field ip : bytes) : bytes := field ++ index_sep :: ip.

(** The keys of a lease in the four index trees, where it has one. *)
Definition mac_key (l : Lease) : option bytes :=
  if bool_decide (l_mac l = []) then None else Some (index_key (normalize_mac (l_mac l)) (l_ip l)).
Definition client_key (l : Lease) : option bytes :=
  if 0 <? zlen (l_client_id l) then Some (index_key (l_client_id l) (l_ip l)) else None.
Definition subnet_key (l : Lease) : option bytes :=
  if bool_decide (l_subnet_id l = []) then None else Some (index_key (l_subnet_id l) (l_ip l)).
Definition expiry_key (l : Lease) : option bytes :=
  if is_zero (l_expiry_time l) then None
  else Some (index_key (fmt_020d (unix (l_expiry_time l))) (l_ip l)).

(** The trees in the order the code touches them. *)
Definition lease_indexes : list (bytes * (Lease → option bytes)) :=
  [(treeLeaseByMAC, mac_key); (treeLeaseByClient, client_key);
   (treeLeaseBySubnet, subnet_key); (treeLeaseByExpiry, expiry_key)].

Definition add_secondary_indexes (l : Lease) : list Mutation :=
  lease_indexes ≫= λ ix,
    match ix.2 l with Some k => [tx_put ix.1 k (l_ip l)] | None => [] end.

Definition remove_secondary_indexes (l : Lease) : list Mutation :=
  lease_indexes ≫= λ ix,
    match ix.2 l with Some k => [tx_delete ix.1 k] | None => [] end.

(** * Reads *)

Definition get_by_ip (s : EngineStore) (ip : bytes) : result Lease :=
  raw ← get (eng s) treeLeases ip; unmarshal raw.

Fixpoint fetch_by_ips (s : EngineStore) (ips : list bytes) : result (list Lease) :=
  match ips with
  | [] => Ok []
  | ip :: ips' =>
      match get_by_ip s ip with
      | Ok l => out ← fetch_by_ips s ips'; Ok (l :: out)
      | Err ErrNotFound => fetch_by_ips s ips'
      | Err e => Err e
      | Panic p => Panic p
      end
  end.

(** The callback of [fetchBySecondaryPrefix]. *)
Definition prefix_fn (prefix : bytes) (ips : list bytes) (k v : bytes) : list bytes * bool :=
  if (0 <? zlen prefix) &&
     negb (bool_decide (take (Z.to_nat (Z.min (zlen k) (zlen prefix))) k = prefix))
  then (ips, false) else (ips ++ [v], true).

Definition fetch_by_secondary_prefix (s : EngineStore) (tree prefix : bytes)
    : result (list Lease) :=
  match iterate (eng s) tree prefix [] (prefix_fn prefix) [] with
  | (_, Some ErrNotFound) => Ok []
  | (_, Some e) => Err e
  | (ips, None) => fetch_by_ips s ips
  end.

Definition get_by_mac (s : EngineStore) (mac : bytes) : result (list Lease) :=
  fetch_by_secondary_prefix s treeLeaseByMAC (normalize_mac mac ++ [index_sep]).

Definition get_by_client_id (s : EngineStore) (client_id : bytes) : result (list Lease) :=
  fetch_by_secondary_prefix s treeLeaseByClient (client_id ++ [index_sep]).

Definition list_by_subnet (s : EngineStore) (subnet_id : bytes) : result (list Lease) :=
  fetch_by_secondary_prefix s treeLeaseBySubnet (subnet_id ++ [index_sep]).

(** A callback that collects every value. *)
Definition collect_values (ips : list bytes) (_ v : bytes) : list bytes * bool := (ips ++ [v], true).

Definition list_expiring_before (s : EngineStore) (t : time) : result (list Lease) :=
  match iterate (eng s) treeLeaseByExpiry [] (fmt_020d (unix t)) collect_values [] with
  | (ips, None) | (ips, Some ErrNotFound) => fetch_by_ips s ips
  | (_, Some e) => Err e
  end.

(** The callback of [ListAll]: rows that cannot be decoded are skipped. *)
Definition decode_row (out : list Lease) (_ v : bytes) : list Lease * bool :=
  match unmarshal v with Ok l => (out ++ [l], true) | _ => (out, true) end.

Definition list_all (s : EngineStore) : result (list Lease) :=
  match iterate (eng s) treeLeases [] [] decode_row [] with
  | (out, None) | (out, Some ErrNotFound) => Ok out
  | (_, Some e) => Err e
  end.

Definition es_current_sequence (s : EngineStore) : Z := current_sequence (eng s).

(** * Writes *)

(** [upsert]; [now] is its clock, [tx_now] the one of the event. *)
Definition upsert (s : EngineStore) (lease : Lease) (silent : bool) (now tx_now : time)
    (io : list append_io) : EngineStore * option error :=
  if bool_decide (trim_space (l_ip lease) = []) then (s, Some (errorNew "lease.ip is required"))
  else
    let lease := normalize_defaults now (12 * hour) lease in
    match marshal lease with
    | Err e => (s, Some e)
    | Panic p => (s, Some (ErrIO p))
    | Ok raw =>
        let commit ms :=
          let '(e, err) := (if silent then TxSilent else Tx) (eng s) (Ok ms) tx_now io in
          (s <| eng := e |>, err) in
        match get_by_ip s (l_ip lease) with
        | Ok old =>
            commit (tx_put treeLeases (l_ip lease) raw
                    :: remove_secondary_indexes old ++ add_secondary_indexes lease)
        | Err ErrNotFound =>
            commit (tx_put treeLeases (l_ip lease) raw :: add_secondary_indexes lease)
        | Err e => (s, Some e)
        | Panic p => (s, Some (ErrIO p))
        end
    end.

Definition Upsert (s : EngineStore) (lease : Lease) := upsert s lease false.
Definition UpsertSilent (s : EngineStore) (lease : Lease) := upsert s lease true.

(** [delete] *)
Definition delete_lease (s : EngineStore) (ip : bytes) (silent : bool) (tx_now : time)
    (io : list append_io) : EngineStore * option error :=
  match get_by_ip s ip with
  | Err ErrNotFound => (s, None)
  | Err e => (s, Some e)
  | Panic p => (s, Some (ErrIO p))
  | Ok lease =>
      let '(e, err) := (if silent then TxSilent else Tx) (eng s)
        (Ok (tx_delete treeLeases ip :: remove_secondary_indexes lease)) tx_now io in
      (s <| eng := e |>, err)
  end.

Definition Delete (s : EngineStore) (ip : bytes) := delete_lease s ip false.
Definition DeleteSilent (s : EngineStore) (ip : bytes) := delete_lease s ip true.

(** * The mutation feed *)

(** [extractLeaseMutation]: the first mutation of the tree [leases]. *)
Fixpoint extract_loop (evt : TxEvent) (items : list Mutation) : option MutationEvent :=
  match items with
  | [] => None
  | item :: items' =>
      if negb (bool_decide (m_tree item = treeLeases)) then extract_loop evt items'
      else if bool_decide (m_op item = OpPut) then
        match unmarshal (m_value item) with
        | Ok l => Some (mkMutationEvent (ev_sequence evt) (ev_timestamp evt) (m_op item)
                          (m_key item) (Some l))
        | _ => None
        end
      else Some (mkMutationEvent (ev_sequence evt) (ev_timestamp evt) (m_op item) (m_key item) None)
  end.

Definition extract_lease_mutation (evt : TxEvent) : option MutationEvent :=
  extract_loop evt (ev_mutations evt).

(** [ensureWatchLoopLocked] *)
Definition ensure_watch_loop (s : EngineStore) : EngineStore :=
  if es_watch_started s then s
  else let '(e, id, _) := watch_tx (eng s) in
       s <| eng := e |> <| es_watch_started := true |> <| es_tx_id := id |>.

(** [WatchMutations] and the function it returns. *)
Definition watch_mutations (s : EngineStore) : EngineStore * Z * chan MutationEvent :=
  let s := ensure_watch_loop s in
  let id := es_next_watch_id s + 1 in
  let c := make_chan 32 in
  (s <| es_next_watch_id := id |> <| es_watchers := <[id := c]> (es_watchers s) |>, id, c).

Definition unsubscribe_mutations (s : EngineStore) (id : Z) : EngineStore :=
  s <| es_watchers := base.delete id (es_watchers s) |>.

(** One turn of [consumeTxEvents], for the event it received. *)
Definition consume_one (s : EngineStore) (evt : TxEvent) : EngineStore :=
  match extract_lease_mutation evt with
  | None => s
  | Some m => s <| es_watchers := broadcast m (es_watchers s) |>
  end.

(** The end of [consumeTxEvents], when the engine closes the channel. *)
Definition consume_end (s : EngineStore) : EngineStore := s <| es_watchers := ∅ |>.

End lease_store.
