(* ===== verification/LeaseInterface.v ===== *)
(** The interface [lease.Store] and what its clients rely on.

    [LeaseStore] has the methods of the Go interface; [LeaseStoreLaws] is the
    contract: the store is a finite map from addresses to leases, writes that
    [ls_writable] allows succeed and are visible to every query at once.  The
    silent writes, for replicas, announce nothing and do the same.  The sweeper,
    the DHCP handlers and the replication proofs use only this file. *)

From S2P Require Import Prelude.
From S2P Require Import GoBytes.
From S2P Require Import GoStrings.
From S2P Require Import GoTime.
From S2P Require Import Lease.
From S2P Require Import LeaseStore.

Abbreviation lease_map := (gmap bytes Lease).

(** [env] is what a write reads from outside: clocks and file operations. *)
Class LeaseStore (S : Type) := {
  ls_env : Type;
  ls_now : ls_env → time;
  ls_upsert : S → Lease → ls_env → S * option error;
  ls_delete : S → bytes → ls_env → S * option error;
  ls_upsert_silent : S → Lease → ls_env → S * option error;
  ls_delete_silent : S → bytes → ls_env → S * option error;
  ls_get_by_ip : S → bytes → result Lease;
  ls_get_by_mac : S → bytes → result (list Lease);
  ls_get_by_client_id : S → bytes → result (list Lease);
  ls_list_by_subnet : S → bytes → result (list Lease);
  ls_list_expiring_before : S → time → result (list Lease);
  ls_list_all : S → result (list Lease);
}.

(** A lease as [Upsert] writes it. *)
Definition stored (now : time) (l : Lease) : Lease := normalize_defaults now (12 * hour) l.

Class LeaseStoreLaws (S : Type) `{UnicodeTables} `{LeaseStore S} := {
  ls_map : S → lease_map → Prop;
  ls_writable : ls_env → Lease → Prop;
  ls_keyed s m ip l : ls_map s m → m !! ip = Some l → l_ip l = ip;
  ls_get_by_ip_law s m ip :
    ls_map s m →
    ls_get_by_ip s ip = match m !! ip with Some l => Ok l | None => Err ErrNotFound end;
  ls_get_by_mac_law s m mac :
    ls_map s m →
    ∃ ls, ls_get_by_mac s mac = Ok ls ∧ ∀ l, l ∈ ls ↔
      m !! l_ip l = Some l ∧ l_mac l ≠ [] ∧ normalize_mac (l_mac l) = normalize_mac mac;
  ls_get_by_client_id_law s m cid :
    ls_map s m →
    ∃ ls, ls_get_by_client_id s cid = Ok ls ∧ ∀ l, l ∈ ls ↔
      m !! l_ip l = Some l ∧ l_client_id l ≠ [] ∧
      has_prefix (index_key (l_client_id l) (l_ip l)) (cid ++ [index_sep]) = true;
  ls_list_all_law s m :
    ls_map s m →
    ∃ ls, ls_list_all s = Ok ls ∧ NoDup (l_ip <$> ls) ∧ ∀ l, l ∈ ls ↔ m !! l_ip l = Some l;
  ls_list_expiring_before_law s m t :
    ls_map s m → 0 ≤ unix t < 10 ^ 20 →
    ∃ ls, ls_list_expiring_before s t = Ok ls ∧ NoDup (l_ip <$> ls) ∧ ∀ l, l ∈ ls ↔
      m !! l_ip l = Some l ∧ l_expiry_time l ≠ 0 ∧ unix (l_expiry_time l) < unix t;
  ls_upsert_law s m l env :
    ls_map s m → ls_writable env l →
    ∃ s', ls_upsert s l env = (s', None) ∧
      ls_map s' (<[l_ip l := stored (ls_now env) l]> m);
  ls_delete_law s m ip env :
    ls_map s m → (∀ l, m !! ip = Some l → ls_writable env l) →
    ∃ s', ls_delete s ip env = (s', None) ∧ ls_map s' (base.delete ip m);
  ls_upsert_silent_law s m l env :
    ls_map s m → ls_writable env l →
    ∃ s', ls_upsert_silent s l env = (s', None) ∧
      ls_map s' (<[l_ip l := stored (ls_now env) l]> m);
  ls_delete_silent_law s m ip env :
    ls_map s m → (∀ l, m !! ip = Some l → ls_writable env l) →
    ∃ s', ls_delete_silent s ip env = (s', None) ∧ ls_map s' (base.delete ip m);
}.
