(* ===== verification/LeaseSpec.v ===== *)
(** What the lease store promises: a map from addresses to leases.

    [holds s m] relates the rows of the engine to the abstract map [m]: the tree
    [leases] holds exactly [m], and each index tree holds exactly the keys of
    the leases of [m].  Addresses without the separator byte are what makes the
    index keys of different leases different. *)

From S2P Require Import Prelude.
From S2P Require Import GoBytes.
From S2P Require Import GoStrings.
From S2P Require Import GoTime.
From S2P Require Import GoJson.
From S2P Require Import StorageTree.
From S2P Require Import Wal.
From S2P Require Import StorageEngine.
From S2P Require Import StorageSpec.
From S2P Require Import StorageTheorems.
From S2P Require Import Lease.
From S2P Require Import LeaseStore.
From S2P Require Import LeaseInterface.

Section lease_spec.
Context `{UnicodeTables} `{Json Lease}.

(** * The abstraction relation *)

Definition row_holds (s : kv) (ip : bytes) (o : option Lease) : Prop :=
  match o with
  | Some l => l_ip l = ip ∧ index_sep ∉ ip ∧
      ∃ raw, s !! (treeLeases, ip) = Some raw ∧ unmarshal raw = Ok l
  | None => s !! (treeLeases, ip) = None
  end.

Definition index_holds (s : kv) (m : lease_map) (ix : bytes * (Lease → option bytes)) : Prop :=
  ∀ k v, s !! (ix.1, k) = Some v ↔ ∃ l, m !! v = Some l ∧ ix.2 l = Some k.

Definition holds (s : kv) (m : lease_map) : Prop :=
  (∀ ip, row_holds s ip (m !! ip)) ∧ Forall (index_holds s m) lease_indexes.

(** A store whose engine's files hold its trees and whose trees hold [m]. *)
Definition store_ok (s : EngineStore) (m : lease_map) : Prop :=
  durable (eng s) ∧ closed (eng s) = false ∧ holds (view (trees (eng s))) m.

(** ** Index keys *)

Lemma index_key_ip ix l k :
  ix ∈ lease_indexes → ix.2 l = Some k → ∃ f, k = index_key f (l_ip l).
Proof.
  unfold lease_indexes. intros Hix. repeat setoid_rewrite elem_of_cons in Hix.
  destruct Hix as [-> |[-> |[-> |[-> |[]%elem_of_nil]]]]; simpl;
    unfold mac_key, client_key, subnet_key, expiry_key; case_match; naive_solver.
Qed.

Lemma index_key_inj f g ip ip' :
  index_sep ∉ ip → index_sep ∉ ip' → index_key f ip = index_key g ip' → f = g ∧ ip = ip'.
Proof. apply sep_suffix_inj. Qed.

Lemma index_keys_differ ix l l' k :
  ix ∈ lease_indexes → index_sep ∉ l_ip l → index_sep ∉ l_ip l' → l_ip l ≠ l_ip l' →
  ix.2 l = Some k → ix.2 l' ≠ Some k.
Proof.
  intros Hix Hs Hs' Hne Hk Hk'. destruct (index_key_ip _ _ _ Hix Hk) as [f ->].
  destruct (index_key_ip _ _ _ Hix Hk') as [g E].
  by apply index_key_inj in E as [_ ?].
Qed.

Lemma index_trees_NoDup : NoDup lease_indexes.*1.
Proof. apply (bool_decide_unpack _). vm_compute. done. Qed.

Lemma index_tree_not_leases ix : ix ∈ lease_indexes → ix.1 ≠ treeLeases.
Proof.
  unfold lease_indexes. intros Hix. repeat setoid_rewrite elem_of_cons in Hix.
  by destruct Hix as [-> |[-> |[-> |[-> |[]%elem_of_nil]]]].
Qed.

(** A key of a given index among the keys of all. *)
Lemma index_exists ix l k :
  ix ∈ lease_indexes →
  Exists (λ jx, jx.1 = ix.1 ∧ jx.2 l = Some k) lease_indexes ↔ ix.2 l = Some k.
Proof.
  intros Hix. rewrite Exists_exists. split; [|naive_solver].
  intros (jx & Hjx & E & Hk). replace ix with jx; [done|].
  pose proof index_trees_NoDup as Hnd.
  apply list_elem_of_lookup in Hix as [i Hi], Hjx as [j Hj].
  assert (i = j) as ->; [|congruence].
  eapply NoDup_lookup; [exact Hnd|rewrite list_lookup_fmap, Hi; done|].
  rewrite list_lookup_fmap, Hj. simpl. by rewrite E.
Qed.

(** ** Mutations of the indexes *)

Lemma lookup_remove_indexes ixs l s t k :
  apply_muts (ixs ≫= λ ix : bytes * (Lease → option bytes),
                match ix.2 l with Some k => [tx_delete ix.1 k] | None => [] end) s !! (t, k) =
  if decide (Exists (λ ix, ix.1 = t ∧ ix.2 l = Some k) ixs) then None else s !! (t, k).
Proof.
  revert s. induction ixs as [|ix ixs IH]; intros s; cbn [mbind list_bind].
  { rewrite decide_False; [done|]. by intros ?%Exists_nil. }
  rewrite apply_muts_app, IH.
  destruct (decide (Exists _ ixs)) as [Hin|Hout].
  { rewrite decide_True; [done|]. by apply Exists_cons_tl. }
  destruct (ix.2 l) as [k'|] eqn:Ek.
  - unfold apply_muts, apply_mut. simpl.
    destruct (decide (ix.1 = t ∧ k' = k)) as [[<- <-]|Hne].
    + rewrite lookup_delete_eq, decide_True; [done|]. by apply Exists_cons_hd.
    + rewrite lookup_delete_ne, decide_False; [done| |naive_solver].
      intros [[??]|]%Exists_cons; naive_solver congruence.
  - unfold apply_muts. simpl. rewrite decide_False; [done|].
    intros [[??]|]%Exists_cons; congruence.
Qed.

Lemma lookup_add_indexes ixs l s t k :
  apply_muts (ixs ≫= λ ix : bytes * (Lease → option bytes),
                match ix.2 l with Some k => [tx_put ix.1 k (l_ip l)] | None => [] end) s !! (t, k) =
  if decide (Exists (λ ix, ix.1 = t ∧ ix.2 l = Some k) ixs) then Some (l_ip l) else s !! (t, k).
Proof.
  revert s. induction ixs as [|ix ixs IH]; intros s; cbn [mbind list_bind].
  { rewrite decide_False; [done|]. by intros ?%Exists_nil. }
  rewrite apply_muts_app, IH.
  destruct (decide (Exists _ ixs)) as [Hin|Hout].
  { rewrite decide_True; [done|]. by apply Exists_cons_tl. }
  destruct (ix.2 l) as [k'|] eqn:Ek.
  - unfold apply_muts, apply_mut. simpl.
    destruct (decide (ix.1 = t ∧ k' = k)) as [[<- <-]|Hne].
    + rewrite lookup_insert_eq, decide_True; [done|]. by apply Exists_cons_hd.
    + rewrite lookup_insert_ne, decide_False; [done| |naive_solver].
      intros [[??]|]%Exists_cons; naive_solver congruence.
  - unfold apply_muts. simpl. rewrite decide_False; [done|].
    intros [[??]|]%Exists_cons; congruence.
Qed.

(** The row of an address is in no index tree. *)
Lemma leases_not_index l ip :
  ¬ Exists (λ ix, ix.1 = treeLeases ∧ ix.2 l = Some ip) lease_indexes.
Proof.
  intros (ix & Hix & E & _)%Exists_exists. by apply index_tree_not_leases in Hix.
Qed.

Definition remove_old (o : option Lease) : list Mutation :=
  match o with Some l => remove_secondary_indexes l | None => [] end.

Definition old_key (o : option Lease) (t k : bytes) : Prop :=
  match o with
  | Some l => Exists (λ ix, ix.1 = t ∧ ix.2 l = Some k) lease_indexes
  | None => False
  end.

#[local] Instance old_key_dec o t k : Decision (old_key o t k).
Proof. destruct o; simpl; apply _. Defined.

Lemma old_key_some o t k :
  old_key o t k ↔ ∃ l, o = Some l ∧ Exists (λ ix, ix.1 = t ∧ ix.2 l = Some k) lease_indexes.
Proof. destruct o; simpl; naive_solver. Qed.

Lemma lookup_remove_old o s t k :
  apply_muts (remove_old o) s !! (t, k) = if decide (old_key o t k) then None else s !! (t, k).
Proof.
  destruct o as [l|]; cbn [remove_old]; [|rewrite decide_False; [done|by intros []]].
  unfold remove_secondary_indexes. rewrite lookup_remove_indexes. by apply decide_ext.
Qed.

Lemma holds_upsert s m l raw :
  holds s m → index_sep ∉ l_ip l → unmarshal raw = Ok l →
  holds (apply_muts (tx_put treeLeases (l_ip l) raw
           :: remove_old (m !! l_ip l) ++ add_secondary_indexes l) s) (<[l_ip l := l]> m).
Proof.
  intros [Hrows Hix] Hsep Hraw.
  assert (Hlook : ∀ t k, apply_muts (tx_put treeLeases (l_ip l) raw
      :: remove_old (m !! l_ip l) ++ add_secondary_indexes l) s !! (t, k) =
    if decide (Exists (λ ix, ix.1 = t ∧ ix.2 l = Some k) lease_indexes) then Some (l_ip l)
    else if decide (old_key (m !! l_ip l) t k) then None
    else <[(treeLeases, l_ip l) := raw]> s !! (t, k)).
  { intros t k. change (?x :: ?r) with ([x] ++ r). rewrite !apply_muts_app.
    unfold add_secondary_indexes. by rewrite lookup_add_indexes, lookup_remove_old. }
  split.
  - intros ip. unfold row_holds. rewrite Hlook.
    rewrite decide_False, decide_False; [|rewrite old_key_some|apply leases_not_index];
      [|by intros (o & _ & ?%leases_not_index)].
    destruct (decide (ip = l_ip l)) as [-> |Hne].
    + rewrite !lookup_insert_eq. eauto.
    + rewrite !lookup_insert_ne by congruence. apply Hrows.
  - apply Forall_forall. intros ix Hin. rewrite Forall_forall in Hix.
    specialize (Hix ix Hin). intros k v. rewrite Hlook.
    rewrite (decide_ext _ _ _ _ (index_exists ix l k Hin)).
    pose proof (Hrows (l_ip l)) as Hold.
    destruct (decide (ix.2 l = Some k)) as [Hk|Hk].
    { split.
      - intros [= <-]. exists l. by rewrite lookup_insert_eq.
      - intros (l' & [[<- <-]|[Hne Hl']]%lookup_insert_Some & Hk'); [done|].
        specialize (Hrows v). rewrite Hl' in Hrows. destruct Hrows as (Hip & Hs & _). subst v.
        by destruct (index_keys_differ ix l' l k). }
    destruct (decide (old_key _ _ _)) as [(o & Ho & Hok)%old_key_some|Hno].
    1: apply index_exists in Hok; [|done].
    { split; [done|]. intros (l' & [[<- <-]|[Hne Hl']]%lookup_insert_Some & Hk'); [done|].
      pose proof (Hrows v) as Hv. rewrite Hl' in Hv. destruct Hv as (Hip & Hs & _). subst v.
      rewrite Ho in Hold. destruct Hold as (Hipo & _ & _).
      rewrite <-Hipo in Hne, Hsep. by destruct (index_keys_differ ix l' o k). }
    rewrite lookup_insert_ne by (intros [= E _]; by eapply index_tree_not_leases).
    unfold index_holds in Hix. rewrite (Hix k v). split.
    + intros (l' & Hl' & Hk'). exists l'. split; [|done].
      rewrite lookup_insert_ne; [done|]. intros <-. apply Hno, old_key_some.
      exists l'. by rewrite index_exists.
    + intros (l' & [[<- <-]|[Hne Hl']]%lookup_insert_Some & Hk'); [done|]. eauto.
Qed.

Lemma holds_delete s m l :
  holds s m → m !! l_ip l = Some l →
  holds (apply_muts (tx_delete treeLeases (l_ip l) :: remove_secondary_indexes l) s)
    (base.delete (l_ip l) m).
Proof.
  intros [Hrows Hix] Hl.
  assert (Hlook : ∀ t k, apply_muts (tx_delete treeLeases (l_ip l) :: remove_secondary_indexes l) s
      !! (t, k) =
    if decide (Exists (λ ix, ix.1 = t ∧ ix.2 l = Some k) lease_indexes) then None
    else base.delete (treeLeases, l_ip l) s !! (t, k)).
  { intros t k. change (?x :: ?r) with ([x] ++ r). rewrite apply_muts_app.
    unfold remove_secondary_indexes. by rewrite lookup_remove_indexes. }
  split.
  - intros ip. unfold row_holds. rewrite Hlook, decide_False by apply leases_not_index.
    destruct (decide (ip = l_ip l)) as [-> |Hne].
    + by rewrite !lookup_delete_eq.
    + rewrite !lookup_delete_ne by congruence. apply Hrows.
  - apply Forall_forall. intros ix Hin. rewrite Forall_forall in Hix.
    specialize (Hix ix Hin). intros k v. rewrite Hlook.
    rewrite (decide_ext _ _ _ _ (index_exists ix l k Hin)).
    pose proof (Hrows (l_ip l)) as Hold. rewrite Hl in Hold. destruct Hold as (_ & Hsep & _).
    destruct (decide (ix.2 l = Some k)) as [Hk|Hk].
    { split; [done|]. intros (l' & [Hne Hl']%lookup_delete_Some & Hk').
      pose proof (Hrows v) as Hv. rewrite Hl' in Hv. destruct Hv as (Hip & Hs & _). subst v.
      by destruct (index_keys_differ ix l' l k). }
    rewrite lookup_delete_ne by (intros [= E _]; by eapply index_tree_not_leases).
    unfold index_holds in Hix. rewrite (Hix k v). split.
    + intros (l' & Hl' & Hk'). exists l'. split; [|done].
      rewrite lookup_delete_ne; [done|]. intros <-. congruence.
    + intros (l' & [Hne Hl']%lookup_delete_Some & Hk'). eauto.
Qed.

(** * Reads *)

Lemma get_by_ip_holds s m ip :
  holds (view (trees (eng s))) m →
  get_by_ip s ip = match m !! ip with Some l => Ok l | None => Err ErrNotFound end.
Proof.
  intros [Hrows _]. unfold get_by_ip. rewrite get_view. specialize (Hrows ip).
  destruct (m !! ip) as [l|]; [|by rewrite Hrows].
  destruct Hrows as (_ & _ & raw & -> & Hraw). done.
Qed.

Lemma fetch_by_ips_holds s m ips :
  holds (view (trees (eng s))) m → fetch_by_ips s ips = Ok (omap (m !!.) ips).
Proof.
  intros Hh. induction ips as [|ip ips IH]; [done|]. simpl.
  rewrite (get_by_ip_holds _ m) by done. destruct (m !! ip); [|done]. by rewrite IH.
Qed.

Lemma prefix_fn_collect prefix ips k v :
  prefix ≠ [] → prefix_fn prefix ips k v = BTree.collect_prefix prefix ips k v.
Proof.
  intros Hne. unfold prefix_fn, BTree.collect_prefix, has_prefix.
  destruct prefix as [|x p]; [done|]. set (q := x :: p) in *.
  rewrite (proj2 (Z.ltb_lt 0 (zlen q))).
  2:{ subst q. rewrite zlen_cons. pose proof (zlen_nonneg p). lia. }
  rewrite andb_true_l.
  assert (E : take (Z.to_nat (Z.min (zlen k) (zlen q))) k = take (length q) k).
  { unfold zlen. destruct (decide (length k ≤ length q)%nat).
    - rewrite !take_ge by lia. done.
    - f_equal. lia. }
  rewrite E. by case_bool_decide.
Qed.

Lemma fold_until_ext {S} (f g : S → bytes → bytes → S * bool) s rows :
  (∀ s k v, f s k v = g s k v) → BTree.fold_until f s rows = BTree.fold_until g s rows.
Proof.
  intros E. revert s. induction rows as [|[k v] rows IH]; intros s; [done|]. simpl.
  rewrite E. destruct (g s k v) as [s' []]; auto.
Qed.

Lemma fold_collect_values ips rows :
  BTree.fold_until collect_values ips rows = ips ++ rows.*2.
Proof.
  revert ips. induction rows as [|[k v] rows IH]; intros ips; simpl; [by rewrite app_nil_r|].
  by rewrite IH, <-app_assoc.
Qed.

(** The rows of one index tree, by key order. *)
Definition index_rows (e : Engine) (tree : bytes) : list (bytes * bytes) :=
  match trees e !! tree with Some tr => BTree.snapshot tr | None => [] end.

Lemma index_rows_spec e tree k v :
  trees_wf (trees e) → (k, v) ∈ index_rows e tree ↔ view (trees e) !! (tree, k) = Some v.
Proof.
  intros Hwf. unfold index_rows. rewrite lookup_view.
  destruct (trees e !! tree) as [tr|] eqn:E; simpl.
  - apply BTree.elem_of_snapshot. by eapply Hwf.
  - rewrite elem_of_nil. naive_solver.
Qed.

Lemma index_rows_sorted e tree :
  trees_wf (trees e) → StronglySorted bytes_lt (index_rows e tree).*1.
Proof.
  intros Hwf. unfold index_rows. destruct (trees e !! tree) as [tr|] eqn:E; [|constructor].
  apply BTree.snapshot_sorted. by eapply Hwf.
Qed.

Lemma fetch_by_prefix_rows s tree prefix :
  trees_wf (trees (eng s)) → prefix ≠ [] →
  fetch_by_secondary_prefix s tree prefix =
    fetch_by_ips s (filter (λ kv, has_prefix kv.1 prefix = true) (index_rows (eng s) tree)).*2.
Proof.
  intros Hwf Hne. unfold fetch_by_secondary_prefix, iterate, index_rows.
  destruct (trees (eng s) !! tree) as [tr|] eqn:E; [|done]. f_equal.
  assert (BTree.wf tr) as Htr by by eapply Hwf.
  rewrite <-BTree.iterate_prefix, !BTree.iterate_spec by done.
  apply fold_until_ext. intros. by apply prefix_fn_collect.
Qed.

(** The leases behind the rows of an index that satisfy [P]. *)
Lemma index_query s m ix (P : bytes → Prop) `{∀ k, Decision (P k)} :
  trees_wf (trees (eng s)) → holds (view (trees (eng s))) m → ix ∈ lease_indexes →
  let ls := omap (m !!.) (filter (λ kv, P kv.1) (index_rows (eng s) ix.1)).*2 in
  NoDup ls ∧
  (∀ l, l ∈ ls ↔ ∃ k, m !! l_ip l = Some l ∧ ix.2 l = Some k ∧ P k) ∧
  StronglySorted (λ a b, ∃ ka kb, ix.2 a = Some ka ∧ ix.2 b = Some kb ∧ bytes_lt ka kb) ls.
Proof.
  intros Hwf [Hrows Hix] Hin. rewrite Forall_forall in Hix. specialize (Hix ix Hin).
  assert (Hkv : ∀ kv, kv ∈ filter (λ kv, P kv.1) (index_rows (eng s) ix.1) →
    ∃ l, m !! kv.2 = Some l ∧ ix.2 l = Some kv.1 ∧ P kv.1 ∧ l_ip l = kv.2).
  { intros [k v] [HP Hr]%list_elem_of_filter. apply index_rows_spec in Hr; [|done].
    apply Hix in Hr as (l & Hl & Hk). exists l. split_and!; try done.
    specialize (Hrows v). rewrite Hl in Hrows. by destruct Hrows. }
  assert (Hsorted : StronglySorted (λ a b, ∃ ka kb, ix.2 a = Some ka ∧ ix.2 b = Some kb ∧
    bytes_lt ka kb) (omap (m !!.) (filter (λ kv, P kv.1) (index_rows (eng s) ix.1)).*2)).
  { assert (Hs : StronglySorted (λ a b : bytes * bytes, bytes_lt a.1 b.1)
      (filter (λ kv, P kv.1) (index_rows (eng s) ix.1))).
    { apply StronglySorted_filter. apply (StronglySorted_map fst). by apply index_rows_sorted. }
    revert Hs Hkv. generalize (filter (λ kv, P kv.1) (index_rows (eng s) ix.1)).
    intros rows Hs. induction Hs as [|kv rows Hs IH Hall]; intros Hkv; [constructor|].
    rewrite fmap_cons. cbn [omap list_omap].
    destruct (Hkv kv) as (l & Hl & Hk & _ & _); [left|]. rewrite Hl.
    constructor; [apply IH; intros ??; apply Hkv; by right|].
    apply Forall_forall. intros l' Hl'.
    apply list_elem_of_omap in Hl' as (ip & (kv' & -> & Hkv')%list_elem_of_fmap & Hl').
    destruct (Hkv kv') as (l2 & Hl2 & Hk2 & _ & _); [by right|].
    rewrite Hl' in Hl2. simplify_eq. exists kv.1, kv'.1. split_and!; try done.
    rewrite Forall_forall in Hall. by apply Hall. }
  split_and!; [|intros l; split|done].
  - eapply StronglySorted_NoDup; [|exact Hsorted].
    intros l (ka & kb & Ha & Hb & Hlt). simplify_eq. by apply bytes_lt_irrefl in Hlt.
  - intros (ip & (kv & -> & Hin')%list_elem_of_fmap & Hl)%list_elem_of_omap.
    destruct (Hkv kv Hin') as (l' & Hl' & Hk & HP & Hip). simplify_eq.
    exists kv.1. by rewrite Hip.
  - intros (k & Hl & Hk & HP). apply list_elem_of_omap. exists (l_ip l). split; [|done].
    apply list_elem_of_fmap. exists (k, l_ip l). split; [done|]. apply list_elem_of_filter.
    split; [done|]. apply index_rows_spec; [done|]. apply Hix. eauto.
Qed.

(** * Writes *)

(** The keys of a lease fit the log's length fields, and its texts have no
    separator byte where the indexes need that. *)
Definition lease_fits (l : Lease) : Prop :=
  index_sep ∉ l_ip l ∧ index_sep ∉ normalize_mac (l_mac l) ∧
  zlen (l_ip l) < 4096 ∧ zlen (normalize_mac (l_mac l)) < 4096 ∧
  zlen (l_client_id l) < 4096 ∧ zlen (l_subnet_id l) < 4096 ∧
  (l_expiry_time l = 0 ∨ 0 ≤ unix (l_expiry_time l) < 10 ^ 20).

#[export] Instance lease_fits_dec l : Decision (lease_fits l).
Proof. unfold lease_fits. apply _. Defined.

Lemma lease_index_names_good ix : ix ∈ lease_indexes → good_name ix.1 ∧ zlen ix.1 < 100.
Proof.
  unfold lease_indexes. intros Hix. repeat setoid_rewrite elem_of_cons in Hix.
  destruct Hix as [-> |[-> |[-> |[-> |[]%elem_of_nil]]]];
    (split; [apply (bool_decide_unpack _); vm_compute; done|vm_compute; done]).
Qed.

Lemma treeLeases_good : good_name treeLeases.
Proof. apply (bool_decide_unpack _). vm_compute. done. Qed.

Lemma index_key_fits ix l k :
  ix ∈ lease_indexes → lease_fits l → ix.2 l = Some k → zlen k < 10000.
Proof.
  unfold lease_indexes. intros Hix (_ & _ & Hip & Hmac & Hcid & Hsub & Hexp).
  assert (Hlen : ∀ f, zlen f < 4096 → zlen (index_key f (l_ip l)) < 10000).
  { intros f Hf. unfold index_key. rewrite zlen_app, zlen_cons. lia. }
  repeat setoid_rewrite elem_of_cons in Hix.
  destruct Hix as [-> |[-> |[-> |[-> |[]%elem_of_nil]]]]; simpl;
    unfold mac_key, client_key, subnet_key, expiry_key; case_match eqn:E;
    intros [= <-]; apply Hlen; try done.
  destruct Hexp as [Hz|Hexp]; [unfold is_zero in E; bools; lia|].
  rewrite fmt_020d_nonneg by lia. unfold zlen. by rewrite dec_pad_length.
Qed.

Lemma loggable_iff m :
  loggable m = true ↔
    zlen (make_tree_key (m_tree m) (m_key m)) < 65536 ∧ zlen (m_value m) < 4294967296 ∧
    zlen (make_tree_key (m_tree m) (m_key m)) + zlen (m_value m) + 7 < 4294967296.
Proof. apply encode_entry_is_ok. Qed.

Lemma index_mutation_ok ix l k m :
  ix ∈ lease_indexes → lease_fits l → ix.2 l = Some k →
  m = tx_put ix.1 k (l_ip l) ∨ m = tx_delete ix.1 k → good m ∧ loggable m = true.
Proof.
  intros Hix Hfit Hk Hm. destruct (lease_index_names_good ix Hix) as [Hg Hl].
  pose proof (index_key_fits ix l k Hix Hfit Hk). destruct Hfit as (_ & _ & Hip & _).
  pose proof (zlen_nonneg (l_ip l)). rewrite loggable_iff. unfold make_tree_key, good, valid_op.
  destruct Hm as [-> | ->]; simpl; rewrite zlen_app, zlen_cons, ?zlen_nil;
    (split; [split; [auto|done]|lia]).
Qed.

Lemma index_mutations_ok l :
  lease_fits l →
  Forall (λ m, good m ∧ loggable m = true) (add_secondary_indexes l) ∧
  Forall (λ m, good m ∧ loggable m = true) (remove_secondary_indexes l).
Proof.
  intros Hfit. unfold add_secondary_indexes, remove_secondary_indexes.
  split; apply Forall_forall; intros m (ix & Hm & Hix)%list_elem_of_bind;
    destruct (ix.2 l) as [k|] eqn:Hk; try (by apply elem_of_nil in Hm);
    apply list_elem_of_singleton in Hm; eapply index_mutation_ok; eauto.
Qed.

Lemma row_mutation_ok ip raw m :
  zlen ip < 4096 → zlen raw < 4294900000 →
  m = tx_put treeLeases ip raw ∨ m = tx_delete treeLeases ip → good m ∧ loggable m = true.
Proof.
  intros Hip Hraw Hm. pose proof treeLeases_good. pose proof (zlen_nonneg raw).
  assert (zlen treeLeases = 6) by done.
  rewrite loggable_iff. unfold make_tree_key, good, valid_op.
  destruct Hm as [-> | ->]; cbn [tx_put tx_delete m_tree m_key m_op m_value];
    rewrite zlen_app, zlen_cons, ?zlen_nil; (split; [split; [auto|done]|lia]).
Qed.

(** The map a store holds: rows, indexes, and leases that fit. *)
Definition store_map (s : EngineStore) (m : lease_map) : Prop :=
  store_ok s m ∧ map_Forall (λ _, lease_fits) m.

(** What [upsert] needs of the lease it writes. *)
Definition upsert_ok (now : time) (l : Lease) : Prop :=
  trim_space (l_ip l) ≠ [] ∧ json_ok (stored now l) ∧ lease_fits (stored now l) ∧
  ∀ raw, marshal (stored now l) = Ok raw → zlen raw < 4294900000.

Lemma commit_ok s m (silent : bool) ms now :
  store_ok s m → Forall (λ m, good m ∧ loggable m = true) ms →
  ∃ e, (if silent then TxSilent else Tx) (eng s) (Ok ms) now [] = (e, None) ∧
    durable e ∧ closed e = false ∧ view (trees e) = apply_muts ms (view (trees (eng s))).
Proof.
  intros (Hd & Hc & _) Hms. apply Forall_and in Hms as [Hg Hl].
  assert (H' : ∀ notify, ∃ e, tx (eng s) (Ok ms) notify now [] = (e, None) ∧
    durable e ∧ closed e = false ∧ view (trees e) = apply_muts ms (view (trees (eng s)))).
  { intros notify. destruct (tx_run _ ms notify now Hd Hc Hg)
      as (e & [er|] & n & E & Hd' & Hc' & Hn & Hv & Herr).
    - destruct Herr as [(mu & Hmu & Hbad) _].
      rewrite Forall_forall in Hl. apply list_elem_of_lookup_2 in Hmu.
      specialize (Hl _ Hmu). congruence.
    - destruct Herr as (-> & _). exists e. rewrite Hv, take_ge by lia. done. }
  destruct silent; apply H'.
Qed.

Lemma upsert_refines_lemma s m l silent now tx_now :
  store_map s m → upsert_ok now l →
  ∃ s', upsert s l silent now tx_now [] = (s', None) ∧
    store_map s' (<[l_ip l := stored now l]> m).
Proof.
  intros [Hs Hfits] (Htrim & Hjson & Hfit & Hsize). unfold upsert.
  rewrite bool_decide_eq_false_2 by done.
  fold (stored now l). set (l' := stored now l) in *.
  destruct (normalize_identity now (12 * hour) l) as [Hip _]. fold (stored now l) in Hip.
  fold l' in Hip.
  destruct (marshal_ok l' Hjson) as [raw Hraw]. rewrite Hraw.
  pose proof (unmarshal_marshal _ _ Hjson Hraw) as Hun. specialize (Hsize _ Hraw).
  assert (Hget := get_by_ip_holds s m (l_ip l') (proj2 (proj2 Hs))).
  destruct (index_mutations_ok l' Hfit) as [Hadd _].
  pose proof (row_mutation_ok (l_ip l') raw _ ltac:(apply Hfit) Hsize (or_introl eq_refl)) as Hrow.
  assert (Hrem : Forall (λ m, good m ∧ loggable m = true) (remove_old (m !! l_ip l'))).
  { destruct (m !! l_ip l') as [old|] eqn:Eold; [|constructor].
    apply index_mutations_ok. by eapply Hfits. }
  assert (Hms : Forall (λ m, good m ∧ loggable m = true)
    (tx_put treeLeases (l_ip l') raw :: remove_old (m !! l_ip l') ++ add_secondary_indexes l')).
  { constructor; [done|]. by apply Forall_app. }
  destruct (commit_ok s m silent _ tx_now Hs Hms) as (e & Etx & Hd & Hc & Hv).
  assert (Hnew : store_map (s <| eng := e |>) (<[l_ip l := l']> m)).
  { split; [|apply map_Forall_insert_2; [done|done]].
    split; [done|]. split; [done|]. simpl. rewrite Hv, <-Hip.
    apply holds_upsert; [apply Hs|apply Hfit|done]. }
  rewrite Hget. destruct (m !! l_ip l') as [old|]; simpl in Etx |- *.
  - rewrite Etx. eauto.
  - rewrite Etx. eauto.
Qed.

Lemma delete_refines_lemma s m ip silent tx_now :
  store_map s m →
  ∃ s', delete_lease s ip silent tx_now [] = (s', None) ∧ store_map s' (base.delete ip m).
Proof.
  intros [Hs Hfits]. unfold delete_lease.
  rewrite (get_by_ip_holds s m ip (proj2 (proj2 Hs))).
  destruct (m !! ip) as [l|] eqn:El.
  2:{ exists s. rewrite delete_id by done. done. }
  pose proof (proj1 (proj2 (proj2 Hs)) ip) as Hrow. rewrite El in Hrow.
  destruct Hrow as (<- & _ & _).
  assert (Hfit : lease_fits l) by by eapply Hfits.
  assert (Hms : Forall (λ m, good m ∧ loggable m = true)
    (tx_delete treeLeases (l_ip l) :: remove_secondary_indexes l)).
  { constructor; [|by apply index_mutations_ok].
    by apply (row_mutation_ok (l_ip l) []); [apply Hfit|done|right]. }
  destruct (commit_ok s m silent _ tx_now Hs Hms) as (e & -> & Hd & Hc & Hv).
  eexists. split; [done|]. split; [|by apply map_Forall_delete].
  split; [done|]. split; [done|]. simpl. rewrite Hv. by apply holds_delete; [apply Hs|].
Qed.

End lease_spec.
