(* ===== verification/LeaseTheorems.v ===== *)
(** The engine-backed store keeps the contract of [LeaseStore]. *)

From S2P Require Import Prelude.
From S2P Require Import GoBytes.
From S2P Require Import GoStrings.
From S2P Require Import GoTime.
From S2P Require Import GoJson.
From S2P Require Import StorageTree.
From S2P Require Import Wal.
From S2P Require Import StorageEngine.
From S2P Require Import StorageSpec.
From S2P Require Import StorageTheorems.
From S2P Require Import RowTable.
From S2P Require Import Lease.
From S2P Require Import LeaseStore.
From S2P Require Import LeaseInterface.
From S2P Require Import LeaseSpec.

Record write_env := mkWriteEnv { env_now : time; env_tx_now : time; env_io : list append_io }.

Section instance.
Context `{UnicodeTables} `{Json Lease}.

#[export] Instance engine_lease_store : LeaseStore EngineStore := {|
  ls_env := write_env;
  ls_now := env_now;
  ls_upsert := λ s l env, upsert s l false (env_now env) (env_tx_now env) (env_io env);
  ls_delete := λ s ip env, delete_lease s ip false (env_tx_now env) (env_io env);
  ls_upsert_silent := λ s l env, upsert s l true (env_now env) (env_tx_now env) (env_io env);
  ls_delete_silent := λ s ip env, delete_lease s ip true (env_tx_now env) (env_io env);
  ls_get_by_ip := get_by_ip;
  ls_get_by_mac := get_by_mac;
  ls_get_by_client_id := get_by_client_id;
  ls_list_by_subnet := list_by_subnet;
  ls_list_expiring_before := list_expiring_before;
  ls_list_all := list_all;
|}.

(** A key [f + sep + ip] under the prefix [q + sep]. *)
Lemma index_key_prefix f ip q :
  index_sep ∉ f → index_sep ∉ ip →
  has_prefix (index_key f ip) (q ++ [index_sep]) = true ↔ f = q.
Proof.
  intros Hf Hip. rewrite has_prefix_spec. unfold index_key. split.
  - intros [r E]. rewrite <-app_assoc in E. simpl in E.
    destruct (decide (index_sep ∈ q)) as [Hq|Hq].
    + exfalso. apply list_elem_of_split in Hq as (q1 & q2 & ->).
      rewrite <-app_assoc in E. simpl in E.
      assert (∃ q3 q4, q1 ++ index_sep :: q2 ++ index_sep :: r = q3 ++ index_sep :: q4 ∧
        index_sep ∉ q3 ∧ index_sep ∈ q4) as (q3 & q4 & E' & Hq3 & Hq4).
      { clear. induction q1 as [|x q1 IH].
        - exists [], (q2 ++ index_sep :: r). split_and!; [done|set_solver|set_solver].
        - destruct (decide (x = index_sep)) as [-> |Hne].
          + exists [], (q1 ++ index_sep :: q2 ++ index_sep :: r). set_solver.
          + destruct IH as (q3 & q4 & E & H3 & H4). exists (x :: q3), q4. simpl. rewrite E.
            set_solver. }
      rewrite E' in E. apply sep_prefix_inj in E as [_ ->]; done.
    + by apply sep_prefix_inj in E as [-> _].
  - intros ->. exists ip. by rewrite <-app_assoc.
Qed.

(** A prefix query, with the index it reads. *)
Lemma prefix_query s m ix q :
  store_map s m → ix ∈ lease_indexes →
  ∃ ls, fetch_by_secondary_prefix s ix.1 (q ++ [index_sep]) = Ok ls ∧ NoDup ls ∧
    ∀ l, l ∈ ls ↔ ∃ k, m !! l_ip l = Some l ∧ ix.2 l = Some k ∧
      has_prefix k (q ++ [index_sep]) = true.
Proof.
  intros [(Hd & _ & Hh) _] Hix. pose proof Hd as (Hwf & _).
  rewrite fetch_by_prefix_rows by (done || by destruct q).
  rewrite (fetch_by_ips_holds _ m) by done. eexists. split; [done|].
  destruct (index_query s m ix (λ k, has_prefix k (q ++ [index_sep]) = true) Hwf Hh Hix)
    as (Hnd & Hin & _). done.
Qed.

Lemma row_of_map s m ip l :
  store_map s m → m !! ip = Some l → l_ip l = ip ∧ lease_fits l.
Proof.
  intros [(_ & _ & Hrows & _) Hfit] Hl. split; [|by eapply Hfit].
  specialize (Hrows ip). rewrite Hl in Hrows. by destruct Hrows.
Qed.

Lemma get_by_mac_holds s m mac :
  store_map s m →
  ∃ ls, get_by_mac s mac = Ok ls ∧ NoDup ls ∧ ∀ l, l ∈ ls ↔
    m !! l_ip l = Some l ∧ l_mac l ≠ [] ∧ normalize_mac (l_mac l) = normalize_mac mac.
Proof.
  intros Hs.
  destruct (prefix_query s m (treeLeaseByMAC, mac_key) (normalize_mac mac) Hs)
    as (ls & Hls & Hnd & Hin); [left|].
  exists ls. split_and!; [done..|]. intros l. rewrite Hin. simpl. unfold mac_key. split.
  - intros (k & Hl & Hk & Hp). case_bool_decide; simplify_eq.
    destruct (row_of_map _ _ _ _ Hs Hl) as (_ & Hip & Hmac & _).
    by apply index_key_prefix in Hp.
  - intros (Hl & Hne & E). destruct (row_of_map _ _ _ _ Hs Hl) as (_ & Hip & Hmac & _).
    eexists. rewrite bool_decide_eq_false_2 by done. split_and!; [done..|].
    by apply index_key_prefix.
Qed.

Lemma get_by_client_id_holds s m cid :
  store_map s m →
  ∃ ls, get_by_client_id s cid = Ok ls ∧ NoDup ls ∧ ∀ l, l ∈ ls ↔
    m !! l_ip l = Some l ∧ l_client_id l ≠ [] ∧
    has_prefix (index_key (l_client_id l) (l_ip l)) (cid ++ [index_sep]) = true.
Proof.
  intros Hs.
  destruct (prefix_query s m (treeLeaseByClient, client_key) cid Hs)
    as (ls & Hls & Hnd & Hin); [right; left|].
  exists ls. split_and!; [done..|]. intros l. rewrite Hin. simpl. unfold client_key.
  assert (Hz : (0 <? zlen (l_client_id l)) = true ↔ l_client_id l ≠ []).
  { rewrite Z.ltb_lt. unfold zlen. destruct (l_client_id l); simpl; split; (done || lia). }
  destruct (0 <? zlen (l_client_id l)); naive_solver.
Qed.

(** The rows of the leases are a table of JSON records. *)
Lemma store_table s m : store_map s m → table treeLeases (rows (eng s)) m.
Proof.
  intros [(_ & _ & Hrows & _) _] k. specialize (Hrows k). unfold rows.
  destruct (m !! k); [by destruct Hrows as (_ & _ & ?)|done].
Qed.

Lemma list_all_holds s m :
  store_map s m →
  ∃ ls, list_all s = Ok ls ∧ NoDup (l_ip <$> ls) ∧ ∀ l, l ∈ ls ↔ m !! l_ip l = Some l.
Proof.
  intros Hs. pose proof Hs as [((Hwf & _) & _) _].
  destruct (row_list_table treeLeases (eng s) m Hwf (store_table _ _ Hs)) as (kvs & E & Hsort & Hin).
  assert (Hk : ∀ k l, (k, l) ∈ kvs → l_ip l = k).
  { intros k l Hl%Hin. by apply (row_of_map s m) in Hl as [? _]. }
  exists kvs.*2. split; [exact E|]. split.
  - assert (l_ip <$> kvs.*2 = kvs.*1) as ->.
    { rewrite <-list_fmap_compose. apply list_fmap_ext. intros i [k l] Hi. simpl.
      apply Hk. by eapply list_elem_of_lookup_2. }
    eapply StronglySorted_NoDup; [|exact Hsort]. intros x Hx. by apply bytes_lt_irrefl in Hx.
  - intros l. rewrite list_elem_of_fmap. split.
    + intros ([k l'] & -> & Hl). simpl. by rewrite (Hk _ _ Hl), <-Hin.
    + intros Hl. exists (l_ip l, l). split; [done|]. by apply Hin.
Qed.

(** Zero-padded seconds and the address: below the bound means earlier. *)
Lemma expiry_key_below u t ip :
  0 ≤ u < 10 ^ 20 → 0 ≤ t < 10 ^ 20 →
  bytes_le (index_key (fmt_020d u) ip) (fmt_020d t) ↔ u < t.
Proof.
  intros Hu Ht. unfold bytes_le, index_key. rewrite !fmt_020d_nonneg by lia.
  rewrite <-(app_nil_r (dec_pad 20 t)).
  rewrite bytes_compare_app_len by by rewrite !dec_pad_length.
  rewrite dec_pad_compare by (simpl; lia).
  destruct (Z.compare_spec u t); simpl; split; (done || lia).
Qed.

Lemma list_expiring_holds s m t :
  store_map s m → 0 ≤ unix t < 10 ^ 20 →
  ∃ ls, list_expiring_before s t = Ok ls ∧ NoDup ls ∧
    (∀ l, l ∈ ls ↔
      m !! l_ip l = Some l ∧ l_expiry_time l ≠ 0 ∧ unix (l_expiry_time l) < unix t) ∧
    StronglySorted (λ a b, unix (l_expiry_time a) ≤ unix (l_expiry_time b)) ls.
Proof.
  intros Hs Ht. pose proof Hs as [(Hd & _ & Hh) _]. pose proof Hd as (Hwf & _).
  destruct (index_query s m (treeLeaseByExpiry, expiry_key)
    (λ k, bytes_le k (fmt_020d (unix t))) Hwf Hh) as (Hnd & Hin & Hsort).
  { by do 3 right; left. }
  assert (Hkey : ∀ l k, m !! l_ip l = Some l → expiry_key l = Some k →
    l_expiry_time l ≠ 0 ∧ 0 ≤ unix (l_expiry_time l) < 10 ^ 20 ∧
    k = index_key (fmt_020d (unix (l_expiry_time l))) (l_ip l)).
  { intros l k Hl. unfold expiry_key, is_zero.
    destruct (Z.eqb_spec (l_expiry_time l) 0) as [|Hne]; [done|]. intros [= <-].
    destruct (row_of_map _ _ _ _ Hs Hl) as (_ & _ & _ & _ & _ & _ & _ & Hexp).
    split_and!; naive_solver. }
  set (ls := omap _ _) in *. exists ls. split_and!.
  - assert (Hrun : list_expiring_before s t = fetch_by_ips s
      (filter (λ kv, bytes_le kv.1 (fmt_020d (unix t))) (index_rows (eng s) treeLeaseByExpiry)).*2).
    { unfold list_expiring_before, iterate, index_rows.
      destruct (trees (eng s) !! treeLeaseByExpiry) as [tr|] eqn:E; [|done].
      assert (BTree.wf tr) as Htr by by eapply Hwf.
      rewrite BTree.iterate_spec, fold_collect_values by done. simpl. f_equal. f_equal.
      unfold BTree.range. apply list_filter_iff. intros [k v]. simpl. split; [|by intros; split; [destruct k|right]].
      intros [_ [Hnil|]]; [|done]. exfalso. revert Hnil. rewrite fmt_020d_nonneg by lia.
      intros Hnil. apply (f_equal length) in Hnil. by rewrite dec_pad_length in Hnil. }
    rewrite Hrun. by apply fetch_by_ips_holds.
  - done.
  - intros l. rewrite Hin. simpl. split.
    + intros (k & Hl & Hk & Hle). destruct (Hkey _ _ Hl Hk) as (? & ? & ->).
      by apply expiry_key_below in Hle.
    + intros (Hl & Hne & Hlt). exists (index_key (fmt_020d (unix (l_expiry_time l))) (l_ip l)).
      assert (Hk : expiry_key l = Some (index_key (fmt_020d (unix (l_expiry_time l))) (l_ip l))).
      { unfold expiry_key, is_zero. by rewrite (proj2 (Z.eqb_neq _ _)). }
      destruct (Hkey _ _ Hl Hk) as (_ & ? & _). split_and!; [done..|]. by apply expiry_key_below.
  - assert (Hall : ∀ l, l ∈ ls → m !! l_ip l = Some l) by (intros l (? & ? & _)%Hin; done).
    clear Hin Hnd. induction Hsort as [|l ls' Hsort IH Hl]; constructor.
    + apply IH. intros. apply Hall. by right.
    + rewrite Forall_forall in Hl |- *. intros l' Hl'.
      destruct (Hl l' Hl') as (ka & kb & Ha & Hb & Hlt). simpl in *.
      destruct (Hkey l ka) as (_ & ? & ->); [apply Hall; left|done|].
      destruct (Hkey l' kb) as (_ & ? & ->); [apply Hall; by right|done|].
      unfold bytes_lt, index_key in Hlt. rewrite !fmt_020d_nonneg in Hlt by lia.
      rewrite bytes_compare_app_len in Hlt by by rewrite !dec_pad_length.
      rewrite dec_pad_compare in Hlt by (simpl; lia).
      destruct (Z.compare_spec (unix (l_expiry_time l)) (unix (l_expiry_time l'))); (lia || done).
Qed.
End instance.

Section laws.
Context {U : UnicodeTables} {J : Json Lease}.

Definition engine_writable (env : write_env) (l : Lease) : Prop :=
  env_io env = [] ∧ upsert_ok (env_now env) l.

#[export] Instance engine_lease_store_laws : LeaseStoreLaws EngineStore.
Proof.
  refine {| ls_map := store_map; ls_writable := engine_writable |}; simpl.
  - intros s m ip l Hs Hl. by apply (row_of_map s m ip l) in Hl as [? _].
  - intros s m ip [(_ & _ & Hh) _]. by apply get_by_ip_holds.
  - intros s m mac Hs. destruct (get_by_mac_holds s m mac Hs) as (ls & ? & _ & ?). eauto.
  - intros s m cid Hs. destruct (get_by_client_id_holds s m cid Hs) as (ls & ? & _ & ?). eauto.
  - intros s m Hs. by apply list_all_holds.
  - intros s m t Hs Ht. destruct (list_expiring_holds s m t Hs Ht) as (ls & E & Hnd & Hin & _).
    exists ls. split_and!; [done| |done]. apply NoDup_fmap_2_strong; [|done].
    intros a b [Ha _]%Hin [Hb _]%Hin E'. congruence.
  - intros s m l [now txn io] Hs [Hio Hok]. simpl in *. subst io. by apply upsert_refines_lemma.
  - intros s m ip [now txn io] Hs Hw. simpl in *. destruct (m !! ip) as [l|] eqn:El.
    + destruct (Hw l eq_refl) as [Hio _]. simpl in Hio. subst io. by apply delete_refines_lemma.
    + exists s. unfold delete_lease. pose proof Hs as [(_ & _ & Hh) _].
      rewrite (get_by_ip_holds s m ip Hh), El. by rewrite delete_id.
  - intros s m l [now txn io] Hs [Hio Hok]. simpl in *. subst io. by apply upsert_refines_lemma.
  - intros s m ip [now txn io] Hs Hw. simpl in *. destruct (m !! ip) as [l|] eqn:El.
    + destruct (Hw l eq_refl) as [Hio _]. simpl in Hio. subst io. by apply delete_refines_lemma.
    + exists s. unfold delete_lease. pose proof Hs as [(_ & _ & Hh) _].
      rewrite (get_by_ip_holds s m ip Hh), El. by rewrite delete_id.
Defined.
End laws.

(** * A store to try the theorems on *)

#[local] Existing Instance ascii_tables.
#[local] Existing Instance packed_lease.

Definition demo_store : EngineStore := new_store demo_engine.

Lemma demo_store_map : store_map demo_store ∅.
Proof.
  destruct (open_engine_empty [bs "leases"]) as (e & E & _ & Hv & _).
  assert (Hd : eng demo_store = e) by (unfold demo_store, demo_engine; by rewrite E).
  split; [|apply map_Forall_empty]. split; [apply demo_engine_ok|].
  split; [apply demo_engine_ok|]. rewrite Hd, Hv. split.
  - intros ip. simpl. by rewrite !lookup_empty.
  - apply Forall_forall. intros ix _ k v. rewrite !lookup_empty. split; [done|].
    by intros (l & Hl & _).
Qed.

(** 2025-01-01T00:00:00Z, in nanoseconds since the zero time. *)
Definition demo_now : time := 63871286400 * second.

Definition demo_lease : Lease :=
  zero_lease <| l_ip := bs "10.0.0.10" |> <| l_mac := bs "aa:bb:cc:00:11:22" |>
    <| l_client_id := map byte_of_Z [1; 31; 7] |> <| l_state := StateBound |>
    <| l_subnet_id := bs "10.0.0.0/24" |> <| l_expiry_time := demo_now + hour |>.

(** Whether the packed codec can carry a lease is decidable. *)
Lemma upsert_ok_check now l :
  bool_decide (trim_space (l_ip l) ≠ [] ∧ lease_packed_ok (stored now l) ∧
    lease_fits (stored now l) ∧ zlen (pack (lease_fields (stored now l))) < 4294900000) = true →
  upsert_ok now l.
Proof.
  intros (H1 & H2 & H3 & H4)%bool_decide_eq_true_1. 
  split; [exact H1|]. split; [exact H2|]. split; [exact H3|].
  revert H4. generalize (stored now l). intros x H4 raw [= <-]. exact H4.
Qed.

Lemma demo_upsert_ok : upsert_ok demo_now demo_lease.
Proof. apply upsert_ok_check. vm_compute. reflexivity. Qed.

Definition demo_store1 : EngineStore := (upsert demo_store demo_lease false demo_now demo_now []).1.
Definition demo_map1 : lease_map := {[ bs "10.0.0.10" := stored demo_now demo_lease ]}.

Lemma demo_store1_map : store_map demo_store1 demo_map1.
Proof.
  destruct (upsert_refines_lemma demo_store ∅ demo_lease false demo_now demo_now
    demo_store_map demo_upsert_ok) as (s' & E & Hs).
  unfold demo_store1. rewrite E. exact Hs.
Qed.

(** * The theorems *)

(** An upsert of a lease that fits succeeds: the lease is stored with its
    defaults filled in, every other lease is unchanged, and all four indexes
    again list exactly the stored leases; nothing of the replaced lease is left
    in them. *)
Theorem upsert_refines `{UnicodeTables} `{Json Lease} s m l silent now tx_now :
  store_map s m → upsert_ok now l →
  ∃ s', upsert s l silent now tx_now [] = (s', None) ∧
    store_map s' (<[l_ip l := stored now l]> m) ∧
    ∀ ip, get_by_ip s' ip =
      if bool_decide (ip = l_ip l) then Ok (stored now l) else get_by_ip s ip.
Proof.
  intros Hs Hok.
  destruct (upsert_refines_lemma s m l silent now tx_now Hs Hok) as (s' & E & Hs').
  exists s'. split_and!; [done..|]. intros ip.
  pose proof Hs as [(_ & _ & Hh) _]. pose proof Hs' as [(_ & _ & Hh') _].
  rewrite (get_by_ip_holds _ _ _ Hh'), (get_by_ip_holds _ _ _ Hh).
  case_bool_decide as Hip; [subst; by rewrite lookup_insert_eq|by rewrite lookup_insert_ne].
Qed.

Lemma upsert_refines_witness :
  ∃ s', upsert demo_store demo_lease true demo_now demo_now [] = (s', None) ∧
    store_map s' (<[l_ip demo_lease := stored demo_now demo_lease]> ∅) ∧
    ∀ ip, get_by_ip s' ip =
      if bool_decide (ip = l_ip demo_lease) then Ok (stored demo_now demo_lease)
      else get_by_ip demo_store ip.
Proof. apply (upsert_refines demo_store ∅); [apply demo_store_map|apply demo_upsert_ok]. Defined.

(** A delete succeeds, removes the lease and its index entries and nothing
    else; deleting an address without a lease changes nothing. *)
Theorem delete_refines `{UnicodeTables} `{Json Lease} s m ip silent tx_now :
  store_map s m →
  ∃ s', delete_lease s ip silent tx_now [] = (s', None) ∧ store_map s' (base.delete ip m) ∧
    (m !! ip = None → s' = s).
Proof.
  intros Hs. destruct (delete_refines_lemma s m ip silent tx_now Hs) as (s' & E & Hs').
  exists s'. split_and!; [done..|]. intros Hnone. revert E. unfold delete_lease.
  pose proof Hs as [(_ & _ & Hh) _]. rewrite (get_by_ip_holds _ _ _ Hh), Hnone. congruence.
Qed.

Lemma delete_refines_witness :
  ∃ s', delete_lease demo_store1 (bs "10.0.0.10") false demo_now [] = (s', None) ∧
    store_map s' (base.delete (bs "10.0.0.10") demo_map1) ∧
    (demo_map1 !! bs "10.0.0.10" = None → s' = demo_store1).
Proof. apply delete_refines. apply demo_store1_map. Defined.

(** A lookup by hardware address returns exactly the leases whose address is
    the same up to case and surrounding space, each once. *)
Theorem get_by_mac_exact `{UnicodeTables} `{Json Lease} s m mac :
  store_map s m →
  ∃ ls, get_by_mac s mac = Ok ls ∧ NoDup ls ∧ ∀ l, l ∈ ls ↔
    m !! l_ip l = Some l ∧ l_mac l ≠ [] ∧ normalize_mac (l_mac l) = normalize_mac mac.
Proof. apply get_by_mac_holds. Qed.

Lemma get_by_mac_exact_witness :
  ∃ ls, get_by_mac demo_store1 (bs " AA:bb:cc:00:11:22") = Ok ls ∧ NoDup ls ∧ ∀ l, l ∈ ls ↔
    demo_map1 !! l_ip l = Some l ∧ l_mac l ≠ [] ∧
    normalize_mac (l_mac l) = normalize_mac (bs " AA:bb:cc:00:11:22").
Proof. apply get_by_mac_exact. apply demo_store1_map. Defined.

(** The expiry index returns, in order of expiry, exactly the leases that
    expire in an earlier second than the given instant: zero-padded decimal keys
    compare as numbers. *)
Theorem list_expiring_exact `{UnicodeTables} `{Json Lease} s m t :
  store_map s m → 0 ≤ unix t < 10 ^ 20 →
  ∃ ls, list_expiring_before s t = Ok ls ∧ NoDup ls ∧
    (∀ l, l ∈ ls ↔
      m !! l_ip l = Some l ∧ l_expiry_time l ≠ 0 ∧ unix (l_expiry_time l) < unix t) ∧
    StronglySorted (λ a b, unix (l_expiry_time a) ≤ unix (l_expiry_time b)) ls.
Proof. apply list_expiring_holds. Qed.

Lemma list_expiring_exact_witness :
  ∃ ls, list_expiring_before demo_store1 (demo_now + 2 * hour) = Ok ls ∧ NoDup ls ∧
    (∀ l, l ∈ ls ↔ demo_map1 !! l_ip l = Some l ∧ l_expiry_time l ≠ 0 ∧
      unix (l_expiry_time l) < unix (demo_now + 2 * hour)) ∧
    StronglySorted (λ a b, unix (l_expiry_time a) ≤ unix (l_expiry_time b)) ls.
Proof.
  apply list_expiring_exact; [apply demo_store1_map|].
  split; [apply Z.leb_le|apply Z.ltb_lt]; vm_compute; reflexivity.
Defined.

(** Client identifiers are binary, and one that extends another by the
    separator byte is found by a lookup of the shorter: the lookup then returns
    a lease of a different client. *)
Theorem client_id_lookup_collides `{UnicodeTables} `{Json Lease} s m l cid z :
  store_map s m → m !! l_ip l = Some l → l_client_id l = cid ++ index_sep :: z →
  ∃ ls, get_by_client_id s cid = Ok ls ∧ l ∈ ls ∧ l_client_id l ≠ cid.
Proof.
  intros Hs Hl Hcid. destruct (get_by_client_id_holds s m cid Hs) as (ls & E & _ & Hin).
  exists ls. split; [done|]. rewrite Hin, Hcid. split_and!; [done|by destruct cid| |].
  - apply has_prefix_spec. exists (z ++ index_sep :: l_ip l). unfold index_key.
    by rewrite <-!app_assoc.
  - intros E'. apply (f_equal length) in E'. rewrite length_app in E'. simpl in E'. lia.
Qed.

Lemma client_id_lookup_collides_witness :
  ∃ ls, get_by_client_id demo_store1 (map byte_of_Z [1]) = Ok ls ∧
    stored demo_now demo_lease ∈ ls ∧
    l_client_id (stored demo_now demo_lease) ≠ map byte_of_Z [1].
Proof.
  apply (client_id_lookup_collides demo_store1 demo_map1 (stored demo_now demo_lease)
    (map byte_of_Z [1]) (map byte_of_Z [7]));
    [apply demo_store1_map|vm_compute; reflexivity|vm_compute; reflexivity].
Defined.
