(* ===== verification/Sweeper.v ===== *)
(** internal/lease/expiry.go: the sweeper that ages leases.

    [tick] is one turn of the goroutine's loop, over any store that keeps the
    contract of [LeaseInterface]; the ticker and the stop channel only decide
    when it runs.  The theorems follow, against the map of leases of the store. *)

From S2P Require Import Prelude.
From S2P Require Import GoBytes.
From S2P Require Import GoStrings.
From S2P Require Import GoTime.
From S2P Require Import GoJson.
From S2P Require Import Lease.
From S2P Require Import LeaseStore.
From S2P Require Import LeaseInterface.
From S2P Require Import LeaseSpec.
From S2P Require Import LeaseTheorems.

Record Sweeper := mkSweeper { sw_interval : duration; sw_quarantine : duration }.

(** [NewSweeper] *)
Definition new_sweeper (interval quarantine : duration) : Sweeper :=
  mkSweeper (if interval <=? 0 then second * 30 else interval)
            (if quarantine <=? 0 then 15 * minute else quarantine).

(** The [switch] of [tick]: the changed lease, if it changes. *)
Definition sweep_lease (quarantine : duration) (now : time) (l : Lease) : option Lease :=
  if bool_decide (l_state l ∈ [StateBound; StateRenewing; StateOffered]) then
    Some (l <| l_state := StateExpired |>
            <| l_quarantine_until := time_add now quarantine |> <| l_updated_at := now |>)
  else if bool_decide (l_state l = StateExpired) then
    if is_zero (l_quarantine_until l) then
      Some (l <| l_quarantine_until := time_add now quarantine |>
              <| l_state := StateQuarantined |> <| l_updated_at := now |>)
    else if after now (l_quarantine_until l) then
      Some (l <| l_state := StateFree |> <| l_updated_at := now |>)
    else None
  else if bool_decide (l_state l = StateQuarantined) then
    if negb (is_zero (l_quarantine_until l)) && after now (l_quarantine_until l) then
      Some (l <| l_state := StateFree |> <| l_updated_at := now |>)
    else None
  else None.

Section sweeper.
Context {S : Type} `{UnicodeTables} `{LeaseStore S}.
Context (env : Lease → ls_env).  (** what the write of each lease reads *)

(** The loop of [tick]; the second result is what [onChange] is called with. *)
Fixpoint sweep_loop (quarantine : duration) (now : time) (s : S) (leases : list Lease)
    : S * list Lease :=
  match leases with
  | [] => (s, [])
  | l :: ls =>
      match sweep_lease quarantine now l with
      | None => sweep_loop quarantine now s ls
      | Some l' =>
          match ls_upsert s l' (env l') with
          | (s', Some _) => sweep_loop quarantine now s' ls
          | (s', None) =>
              let '(s'', evs) := sweep_loop quarantine now s' ls in (s'', l' :: evs)
          end
      end
  end.

Definition tick (sw : Sweeper) (now : time) (s : S) : S * list Lease :=
  match ls_list_expiring_before s now with
  | Ok leases => sweep_loop (sw_quarantine sw) now s leases
  | _ => (s, [])
  end.

(** * What a tick does to the map *)

Context `{!LeaseStoreLaws S}.

Definition due (now : time) (l : Lease) : bool :=
  negb (is_zero (l_expiry_time l)) && (unix (l_expiry_time l) <? unix now).

(** One lease before and after a tick. *)
Definition swept (quarantine : duration) (now : time) (l : Lease) : Lease :=
  if due now l then
    match sweep_lease quarantine now l with
    | Some l' => stored (ls_now (env l')) l'
    | None => l
    end
  else l.

Lemma sweep_lease_ip q now l l' : sweep_lease q now l = Some l' → l_ip l' = l_ip l.
Proof. unfold sweep_lease. repeat case_match; intros; by simplify_eq. Qed.

Lemma sweep_loop_spec q now m ls : ∀ s m0,
  NoDup (l_ip <$> ls) → ls_map s m0 →
  (∀ l, l ∈ ls → m0 !! l_ip l = Some l ∧ due now l = true) →
  (∀ l l', l ∈ ls → sweep_lease q now l = Some l' → ls_writable (env l') l') →
  (∀ ip l, m !! ip = Some l → l_ip l = ip) →
  (∀ ip, m0 !! ip = if decide (ip ∈ l_ip <$> ls) then m !! ip else swept q now <$> m !! ip) →
  ∃ s' evs, sweep_loop q now s ls = (s', evs) ∧ ls_map s' (swept q now <$> m).
Proof.
  induction ls as [|l ls IH]; intros s m0 Hnd Hs Hls Hw Hkey Hm0; simpl.
  { exists s, []. split; [done|]. replace (swept q now <$> m) with m0; [done|].
    apply map_eq. intros ip. rewrite Hm0, lookup_fmap. by rewrite decide_False by set_solver. }
  rewrite fmap_cons, NoDup_cons in Hnd. destruct Hnd as [Hl Hnd].
  destruct (Hls l) as [Hml Hdue]; [left|].
  assert (Hmm : m !! l_ip l = Some l).
  { rewrite Hm0 in Hml. rewrite decide_True in Hml by (rewrite fmap_cons; left). done. }
  destruct (sweep_lease q now l) as [l'|] eqn:Esw.
  - destruct (ls_upsert_law s m0 l' (env l') Hs) as (s1 & Eup & Hs1).
    { eapply Hw; [left|done]. }
    rewrite Eup. pose proof (sweep_lease_ip _ _ _ _ Esw) as Hip.
    destruct (IH s1 (<[l_ip l' := stored (ls_now (env l')) l']> m0)) as (s' & evs & -> & Hs'); eauto.
    + intros l2 Hl2. destruct (Hls l2) as [Hml2 Hdue2]; [by right|]. split; [|done].
      rewrite lookup_insert_ne; [done|]. rewrite Hip. intros E. apply Hl. rewrite E.
      apply list_elem_of_fmap. eauto.
    + intros l2 l2' Hl2. apply Hw. by right.
    + intros ip. destruct (decide (ip = l_ip l)) as [-> |Hne].
      * rewrite <-Hip at 1. rewrite lookup_insert_eq, decide_False, Hmm by done. simpl.
        unfold swept. by rewrite Hdue, Esw.
      * rewrite Hip, lookup_insert_ne, Hm0 by done. rewrite fmap_cons. apply decide_ext.
        rewrite elem_of_cons. naive_solver.
  - destruct (IH s m0) as (s' & evs & -> & Hs'); eauto.
    + intros l2 Hl2. apply Hls. by right.
    + intros l2 l2' Hl2. apply Hw. by right.
    + intros ip. rewrite Hm0. destruct (decide (ip = l_ip l)) as [-> |Hne].
      * rewrite decide_True, decide_False, Hmm by (done || (rewrite fmap_cons; left)). simpl.
        unfold swept. by rewrite Hdue, Esw.
      * rewrite fmap_cons. apply decide_ext. rewrite elem_of_cons. naive_solver.
Qed.

Lemma due_spec now l :
  due now l = true ↔ l_expiry_time l ≠ 0 ∧ unix (l_expiry_time l) < unix now.
Proof.
  unfold due, is_zero. rewrite andb_true_iff, negb_true_iff, Z.eqb_neq, Z.ltb_lt. done.
Qed.

Lemma tick_map sw now s m :
  ls_map s m → 0 ≤ unix now < 10 ^ 20 →
  (∀ ip l l', m !! ip = Some l → sweep_lease (sw_quarantine sw) now l = Some l' →
    ls_writable (env l') l') →
  ∃ s' evs, tick sw now s = (s', evs) ∧ ls_map s' (swept (sw_quarantine sw) now <$> m).
Proof.
  intros Hs Hnow Hw. unfold tick.
  destruct (ls_list_expiring_before_law s m now Hs Hnow) as (ls & -> & Hnd & Hin).
  apply (sweep_loop_spec _ _ m ls s m); try done.
  - intros l Hl. rewrite due_spec. by apply Hin in Hl.
  - intros l l' Hl. apply Hin in Hl as [Hl _]. by eapply Hw.
  - intros ip l Hl. by eapply ls_keyed.
  - intros ip. case_decide as Hip; [done|]. destruct (m !! ip) as [l|] eqn:Hl; [|done].
    simpl. unfold swept. destruct (due now l) eqn:Hdue; [|done].
    exfalso. apply Hip. apply due_spec in Hdue. pose proof (ls_keyed s m ip l Hs Hl) as <-.
    apply list_elem_of_fmap. exists l. split; [done|]. by apply Hin.
Qed.
End sweeper.

(** What the sweeper guarantees, over any store that keeps the contract. *)

Section theorems.
Context {S : Type} `{UnicodeTables} `{LeaseStore S} `{!LeaseStoreLaws S}.

(** The store accepts every write of a tick. *)
Definition tick_writable (env : Lease → ls_env) (sw : Sweeper) (now : time) (m : lease_map) : Prop :=
  ∀ ip l l', m !! ip = Some l → sweep_lease (sw_quarantine sw) now l = Some l' →
    ls_writable (env l') l'.

(** A turn of the sweeper's loop whose writes the store accepts, with the map it
    works on. *)
Inductive sweeps (sw : Sweeper) : S * lease_map → S * lease_map → Prop :=
  | sweeps_tick env now s m :
      0 ≤ unix now < 10 ^ 20 →
      tick_writable env sw now m →
      sweeps sw (s, m)
        ((tick env sw now s).1, swept env (sw_quarantine sw) now <$> m).

Lemma sweeps_map sw x y : sweeps sw x y → ls_map x.1 x.2 → ls_map y.1 y.2.
Proof.
  intros [env now s m Hnow Hw] Hs. simpl in *.
  by destruct (tick_map env sw now s m Hs Hnow Hw) as (s' & evs & -> & Hs').
Qed.

(** States the sweeper moves. *)
Definition sweepable (st : bytes) : Prop :=
  st ∈ [StateBound; StateRenewing; StateOffered; StateExpired; StateQuarantined].

Lemma sweep_lease_not_sweepable q now l : ¬ sweepable (l_state l) → sweep_lease q now l = None.
Proof.
  unfold sweepable, sweep_lease. intros Hn.
  rewrite !bool_decide_eq_false_2 by set_solver. done.
Qed.

(** A lease whose time ran out: what one tick makes of it. *)
Lemma swept_expire env q now l :
  l_state l ∈ [StateBound; StateRenewing; StateOffered] → due now l = true →
  let l' := swept env q now l in
  l_state l' = StateExpired ∧ l_quarantine_until l' = now + q ∧
  l_expiry_time l' = l_expiry_time l ∧ l_ip l' = l_ip l.
Proof.
  intros Hst Hdue. unfold swept. rewrite Hdue. unfold sweep_lease.
  rewrite bool_decide_eq_true_2 by done. apply due_spec in Hdue as [Hne _].
  match goal with |- context [stored _ ?x] => set (l1 := x) end.
  pose proof (normalize_identity (ls_now (env l1)) (12 * hour) l1) as (Hip & _ & _ & _ & Hs & Hq & _).
  pose proof (normalize_expiry (ls_now (env l1)) (12 * hour) l1 Hne) as He.
  unfold stored. by rewrite Hip, Hs, Hq, He.
Qed.

(** The second tick frees it when the quarantine is over, and not before. *)
Lemma swept_free env q now l :
  l_state l = StateExpired → l_quarantine_until l ≠ 0 → due now l = true →
  l_state (swept env q now l) =
    if l_quarantine_until l <? now then StateFree else StateExpired.
Proof.
  intros Hst Hq Hdue. unfold swept. rewrite Hdue. unfold sweep_lease, is_zero, after.
  rewrite Hst, bool_decide_eq_false_2, bool_decide_eq_true_2, (proj2 (Z.eqb_neq _ _)) by (done || set_solver).
  destruct (l_quarantine_until l <? now); [|done].
  match goal with |- context [stored _ ?x] => set (l1 := x) end.
  unfold stored.
  by pose proof (normalize_identity (ls_now (env l1)) (12 * hour) l1) as (_ & _ & _ & _ & -> & _).
Qed.
End theorems.

(** * The theorems *)

(** C4: a tick of the sweeper changes exactly the leases that expire in an
    earlier second, each as the state machine says, and stores the result; all
    other leases keep their rows. *)
Theorem tick_refines {S} `{UnicodeTables} `{LeaseStore S} `{!LeaseStoreLaws S}
    (env : Lease → ls_env) sw now (s : S) m :
  ls_map s m → 0 ≤ unix now < 10 ^ 20 →
  tick_writable env sw now m →
  ls_map (tick env sw now s).1 (swept env (sw_quarantine sw) now <$> m).
Proof.
  intros Hs Hnow Hw. by destruct (tick_map env sw now s m Hs Hnow Hw) as (s' & evs & -> & Hs').
Qed.

(** C5: an offered, bound or renewing lease whose time is over is expired by the
    next tick and freed by the first later tick after its quarantine; a tick
    within the quarantine leaves it expired. *)
Theorem expired_lease_reclaimed {S} `{UnicodeTables} `{LeaseStore S} `{!LeaseStoreLaws S}
    (env1 env2 : Lease → ls_env) sw now1 now2 (s : S) m ip l :
  ls_map s m → m !! ip = Some l →
  l_state l ∈ [StateBound; StateRenewing; StateOffered] →
  due now1 l = true → 0 < now1 ≤ now2 → unix now2 < 10 ^ 20 → 0 ≤ unix now1 →
  0 ≤ sw_quarantine sw →
  tick_writable env1 sw now1 m →
  tick_writable env2 sw now2 (swept env1 (sw_quarantine sw) now1 <$> m) →
  let s1 := (tick env1 sw now1 s).1 in
  let s2 := (tick env2 sw now2 s1).1 in
  (∃ l1, ls_get_by_ip s1 ip = Ok l1 ∧ l_state l1 = StateExpired) ∧
  (∃ l2, ls_get_by_ip s2 ip = Ok l2 ∧
     l_state l2 = if now1 + sw_quarantine sw <? now2 then StateFree else StateExpired).
Proof.
  intros Hs Hl Hst Hdue Hnow Hu2 Hu1 Hq Hw1 Hw2 s1 s2.
  pose proof (unix_mono now1 now2 ltac:(lia)) as Hmono.
  assert (Hs1 : ls_map s1 (swept env1 (sw_quarantine sw) now1 <$> m)).
  { destruct (tick_map env1 sw now1 s m Hs) as (s' & evs & E & Hs'); [lia|eauto|].
    subst s1. by rewrite E. }
  assert (Hs2 : ls_map s2 (swept env2 (sw_quarantine sw) now2 <$>
    (swept env1 (sw_quarantine sw) now1 <$> m))).
  { destruct (tick_map env2 sw now2 s1 _ Hs1) as (s' & evs & E & Hs'); [lia|eauto|].
    subst s2. by rewrite E. }
  destruct (swept_expire env1 (sw_quarantine sw) now1 l Hst Hdue) as (Hs1' & Hq1 & He1 & _).
  split.
  - rewrite (ls_get_by_ip_law _ _ _ Hs1), lookup_fmap, Hl. simpl. eauto.
  - rewrite (ls_get_by_ip_law _ _ _ Hs2), !lookup_fmap, Hl. simpl. eexists. split; [done|].
    rewrite swept_free, Hq1; [done|done|lia|].
    apply due_spec. rewrite He1. apply due_spec in Hdue as [? ?]. split; [done|lia].
Qed.

(** A declined or released lease, or one whose state the sweeper does not
    know, is left as it is by every run of the sweeper: an address a client
    declined is never freed again. *)
Theorem declined_never_reclaimed {S} `{UnicodeTables} `{LeaseStore S} `{!LeaseStoreLaws S}
    sw (s s' : S) m m' ip l :
  rtc (sweeps sw) (s, m) (s', m') → ls_map s m → m !! ip = Some l → ¬ sweepable (l_state l) →
  ls_get_by_ip s' ip = Ok l.
Proof.
  intros Hrun Hs Hl Hst.
  assert (Hinv : ls_map s' m' ∧ m' !! ip = Some l).
  { change (ls_map (s', m').1 (s', m').2 ∧ (s', m').2 !! ip = Some l).
    change (ls_map (s, m).1 (s, m).2) in Hs. change ((s, m).2 !! ip = Some l) in Hl.
    induction Hrun as [x|x y z Hxy _ IH]; [done|]. apply IH.
    - by eapply sweeps_map.
    - destruct Hxy as [env now t mt _ _]. simpl in *. rewrite lookup_fmap, Hl. simpl.
      unfold swept. rewrite sweep_lease_not_sweepable by done. by destruct (due now l). }
  destruct Hinv as [Hs' Hl']. by rewrite (ls_get_by_ip_law _ _ _ Hs'), Hl'.
Qed.

(** * Witnesses: a bound lease in the engine-backed store *)

#[local] Existing Instance ascii_tables.
#[local] Existing Instance packed_lease.

Definition demo_sweeper : Sweeper := new_sweeper 0 0.
Definition env_at (t : time) : Lease → write_env := λ _, mkWriteEnv t t [].

(** The write of one swept lease, when it computes to an accepted one. *)
Lemma demo_sweep_writable l now l' :
  match sweep_lease (sw_quarantine demo_sweeper) now l with
  | Some x => bool_decide (trim_space (l_ip x) ≠ [] ∧ lease_packed_ok (stored now x) ∧
      lease_fits (stored now x) ∧ zlen (pack (lease_fields (stored now x))) < 4294900000)
  | None => true
  end = true →
  sweep_lease (sw_quarantine demo_sweeper) now l = Some l' → engine_writable (mkWriteEnv now now []) l'.
Proof. intros Hc E. rewrite E in Hc. split; [done|]. by apply upsert_ok_check. Qed.

Lemma demo_writable1 :
  tick_writable (S := EngineStore) (env_at (demo_now + 2 * hour)) demo_sweeper
    (demo_now + 2 * hour) demo_map1.
Proof.
  intros ip l l' Hl E. unfold demo_map1 in Hl.
  apply lookup_singleton_Some in Hl as [_ <-].
  eapply demo_sweep_writable; [|exact E]. vm_compute. reflexivity.
Qed.

Lemma tick_refines_witness :
  ls_map (tick (S := EngineStore) (env_at (demo_now + 2 * hour)) demo_sweeper
            (demo_now + 2 * hour) demo_store1).1
    (swept (S := EngineStore) (env_at (demo_now + 2 * hour)) (sw_quarantine demo_sweeper)
       (demo_now + 2 * hour) <$> demo_map1).
Proof.
  apply (tick_refines (S := EngineStore)); [apply demo_store1_map| |apply demo_writable1].
  split; [apply Z.leb_le|apply Z.ltb_lt]; vm_compute; reflexivity.
Defined.

Lemma demo_writable2 :
  tick_writable (S := EngineStore) (env_at (demo_now + 3 * hour)) demo_sweeper
    (demo_now + 3 * hour)
    (swept (S := EngineStore) (env_at (demo_now + 2 * hour)) (sw_quarantine demo_sweeper)
       (demo_now + 2 * hour) <$> demo_map1).
Proof.
  intros ip l l' Hl E. rewrite lookup_fmap in Hl.
  apply fmap_Some in Hl as (l0 & Hl0 & ->). unfold demo_map1 in Hl0.
  apply lookup_singleton_Some in Hl0 as [_ <-].
  eapply demo_sweep_writable; [|exact E]. vm_compute. reflexivity.
Qed.

Lemma expired_lease_reclaimed_witness :
  let s1 := (tick (S := EngineStore) (env_at (demo_now + 2 * hour)) demo_sweeper
               (demo_now + 2 * hour) demo_store1).1 in
  let s2 := (tick (S := EngineStore) (env_at (demo_now + 3 * hour)) demo_sweeper
               (demo_now + 3 * hour) s1).1 in
  (∃ l1, ls_get_by_ip s1 (bs "10.0.0.10") = Ok l1 ∧ l_state l1 = StateExpired) ∧
  (∃ l2, ls_get_by_ip s2 (bs "10.0.0.10") = Ok l2 ∧
     l_state l2 = if demo_now + 2 * hour + sw_quarantine demo_sweeper <? demo_now + 3 * hour
                  then StateFree else StateExpired).
Proof.
  apply (expired_lease_reclaimed (S := EngineStore) _ _ demo_sweeper _ _ demo_store1 demo_map1
    (bs "10.0.0.10") (stored demo_now demo_lease)).
  - apply demo_store1_map.
  - apply lookup_singleton_eq.
  - apply (bool_decide_unpack _). vm_compute. done.
  - vm_compute. reflexivity.
  - split; [apply Z.ltb_lt|apply Z.leb_le]; vm_compute; reflexivity.
  - apply Z.ltb_lt. vm_compute. reflexivity.
  - apply Z.leb_le. vm_compute. reflexivity.
  - apply Z.leb_le. vm_compute. reflexivity.
  - apply demo_writable1.
  - apply demo_writable2.
Defined.

(** A declined lease. *)
Definition demo_declined : Lease := stored demo_now (demo_lease <| l_state := StateDeclined |>).
Definition demo_store2 : EngineStore :=
  (upsert demo_store (demo_lease <| l_state := StateDeclined |>) false demo_now demo_now []).1.

Lemma demo_store2_map : store_map demo_store2 {[ bs "10.0.0.10" := demo_declined ]}.
Proof.
  destruct (upsert_refines_lemma demo_store ∅ (demo_lease <| l_state := StateDeclined |>) false
    demo_now demo_now demo_store_map) as (s' & E & Hs).
  { apply upsert_ok_check. vm_compute. reflexivity. }
  unfold demo_store2. rewrite E. exact Hs.
Qed.

Definition demo_map2 : lease_map :=
  swept (S := EngineStore) (env_at (demo_now + 2 * hour)) (sw_quarantine demo_sweeper)
    (demo_now + 2 * hour) <$> {[ bs "10.0.0.10" := demo_declined ]}.

Lemma declined_never_reclaimed_witness :
  ls_get_by_ip (tick (S := EngineStore) (env_at (demo_now + 2 * hour)) demo_sweeper
    (demo_now + 2 * hour) demo_store2).1 (bs "10.0.0.10") = Ok demo_declined.
Proof.
  apply (declined_never_reclaimed (S := EngineStore) demo_sweeper demo_store2 _
    {[ bs "10.0.0.10" := demo_declined ]}
    demo_map2).
  - apply rtc_once. constructor.
    + split; [apply Z.leb_le|apply Z.ltb_lt]; vm_compute; reflexivity.
    + intros ip l l' Hl E. apply lookup_singleton_Some in Hl as [_ <-].
      vm_compute in E. discriminate.
  - apply demo_store2_map.
  - apply lookup_singleton_eq.
  - apply (bool_decide_unpack _). vm_compute. done.
Defined.
