(* ===== verification/Ipam.v ===== *)
(** internal/ipam: types.go and engine.go, the IPAM engine.

    The engine keeps subnets, reservations and stored addresses as rows of three
    trees of the storage engine, and reads the leases through the lease store.
    Reads take the storage engine and the lease store, writes also give the
    storage engine back; the clock and the faults of the log are arguments.  A Go
    map that is ranged over is given with an order.  The text of a library error
    that the code wraps is left out of its own. *)

From S2P Require Import Prelude.
From S2P Require Import GoBytes.
From S2P Require Import GoStrings.
From S2P Require Import GoTime.
From S2P Require Import GoJson.
From S2P Require Import GoNet.
From S2P Require Import GoNet6.
From S2P Require Import GoPrefix.
From S2P Require Import GoPort.
From S2P Require Import GoSort.
From S2P Require Import IpamCidr.
From S2P Require Import ConfigTypes.
From S2P Require Import Wal.
From S2P Require Import StorageEngine.
From S2P Require Import RowTable.
From S2P Require Import Lease.
From S2P Require Import LeaseInterface.

Definition treeSubnets := bs "subnets".
Definition treeAddresses := bs "addresses".
Definition treeReservations := bs "reservations".

(** * types.go *)

Record DHCPPool := mkDHCPPool {
  dp_enabled : bool; dp_pool_start : bytes; dp_pool_end : bytes; dp_lease_time_sec : Z
}.

Record Subnet := mkSubnet {
  sn_cidr : bytes; sn_name : bytes; sn_vlan : Z; sn_gateway : bytes; sn_dns : list bytes;
  sn_dhcp : DHCPPool; sn_created_at : time; sn_updated_at : time
}.
#[global] Instance eta_Subnet : Eta Subnet := λ s,
  mkSubnet (sn_cidr s) (sn_name s) (sn_vlan s) (sn_gateway s) (sn_dns s) (sn_dhcp s)
    (sn_created_at s) (sn_updated_at s).

Record SubnetSummary := mkSubnetSummary {
  ss_cidr : bytes; ss_name : bytes; ss_vlan : Z; ss_active_leases : Z; ss_total_leases : Z;
  ss_utilization : Z
}.

Record UpsertSubnetInput := mkUpsertSubnetInput {
  us_cidr : bytes; us_name : bytes; us_vlan : Z; us_gateway : bytes; us_dns : list bytes;
  us_dhcp_enable : bool; us_pool_start : bytes; us_pool_end : bytes; us_lease_sec : Z
}.

(** [IPState] is a string. *)
Definition IPStateAvailable := bs "available".
Definition IPStateDHCP := bs "dhcp".
Definition IPStateReserved := bs "reserved".
Definition IPStateConflict := bs "conflict".
Definition IPStateQuarantined := bs "quarantined".

Record AddressRecord := mkAddressRecord {
  ad_ip : bytes; ad_subnet_cidr : bytes; ad_state : bytes; ad_mac : bytes; ad_hostname : bytes;
  ad_lease_state : bytes; ad_source : bytes; ad_updated_at : time
}.
#[global] Instance eta_AddressRecord : Eta AddressRecord := λ a,
  mkAddressRecord (ad_ip a) (ad_subnet_cidr a) (ad_state a) (ad_mac a) (ad_hostname a)
    (ad_lease_state a) (ad_source a) (ad_updated_at a).

Definition zero_record : AddressRecord := mkAddressRecord [] [] [] [] [] [] [] 0.

Record UpsertAddressInput := mkUpsertAddressInput {
  ua_ip : bytes; ua_subnet_cidr : bytes; ua_state : bytes; ua_mac : bytes; ua_hostname : bytes;
  ua_source : bytes; ua_updated_at : time
}.

Record AddressFilter := mkAddressFilter {
  af_subnet_cidr : bytes; af_state : bytes; af_query : bytes; af_limit : Z
}.

Record Reservation := mkReservation {
  rv_mac : bytes; rv_ip : bytes; rv_hostname : bytes; rv_subnet_cidr : bytes;
  rv_created_at : time; rv_updated_at : time
}.

Record UpsertReservationInput := mkUpsertReservationInput {
  ur_mac : bytes; ur_ip : bytes; ur_hostname : bytes; ur_subnet_cidr : bytes
}.

#[global] Instance subnet_eq_dec : EqDecision Subnet.
Proof. assert (EqDecision DHCPPool) by solve_decision. solve_decision. Defined.
#[global] Instance address_record_eq_dec : EqDecision AddressRecord.
Proof. solve_decision. Defined.
#[global] Instance reservation_eq_dec : EqDecision Reservation.
Proof. solve_decision. Defined.

Abbreviation record_map := (gmap bytes AddressRecord).

Section ipam.
Context `{UnicodeTables} `{SliceSort} `{Json Subnet} `{Json Reservation} `{Json AddressRecord}.

(** * Helpers *)

Definition normalize_dns (l : list bytes) : list bytes :=
  filter (λ s, s ≠ []) (trim_space <$> l).

Definition lease_to_ip_state (l : Lease) : bytes :=
  if bool_decide (l_state l = StateDeclined) then IPStateConflict
  else if bool_decide (l_state l ∈ [StateQuarantined; StateExpired; StateReleased])
  then IPStateQuarantined
  else IPStateDHCP.

Definition ipam_normalize_mac (s : bytes) : bytes := to_upper (trim_space s).

Fixpoint find_subnet (normalized : bytes) (subnets : list Subnet) : option Subnet :=
  match subnets with
  | [] => None
  | s :: ss => if bool_decide (sn_cidr s = normalized) then Some s else find_subnet normalized ss
  end.
Definition lookup_subnet (subnets : list Subnet) (cidr : bytes) : option Subnet :=
  find_subnet (trim_space cidr) subnets.

Fixpoint infer_subnet_for_addr (a : addr) (subnets : list Subnet) : bytes :=
  match subnets with
  | [] => []
  | s :: ss =>
      match parse_prefix (sn_cidr s) with
      | Ok p => if prefix_contains p a then sn_cidr s else infer_subnet_for_addr a ss
      | _ => infer_subnet_for_addr a ss
      end
  end.

(** [a.Compare(b) > 0], for addresses that were parsed *)
Definition addr_gt (a b : addr) : bool := bool_decide (addr_compare (Some a) (Some b) = Gt).

Definition pool_range (s : Subnet) : option (addr * addr) :=
  match parse_addr (trim_space (dp_pool_start (sn_dhcp s))) with
  | Ok start =>
      match parse_addr (trim_space (dp_pool_end (sn_dhcp s))) with
      | Ok end_ =>
          if negb (is4 start) || negb (is4 end_) || addr_gt start end_ then None else Some (start, end_)
      | _ => None
      end
  | _ => None
  end.

Definition ipv4_span (start end_ : addr) : Z :=
  match start, end_ with
  | A4 x, A4 y => if addr_gt start end_ then 0 else u32 (be_get y - be_get x) + 1
  | _, _ => 0
  end.

Definition max_int : Z := 2 ^ 63 - 1.

Definition subnet_capacity (s : Subnet) : Z :=
  match pool_range s with
  | Some (start, end_) => ipv4_span start end_
  | None =>
      match parse_prefix (trim_space (sn_cidr s)) with
      | Ok p =>
          let total := address_count p in
          let total := if is4 (p_addr p) && (p_bits p <=? 30) && (2 <=? total) then total - 2 else total in
          if max_int <? total then max_int else total
      | _ => 0
      end
  end.

Definition utilization_percent (active capacity : Z) : Z :=
  if (active <=? 0) || (capacity <=? 0) then 0
  else if capacity <=? active then 100
  else float_trunc (float_mul (float_div (to_float active) (to_float capacity)) (to_float 100)).

Definition rank_state (s : bytes) : Z :=
  if bool_decide (s = IPStateConflict) then 5
  else if bool_decide (s = IPStateDHCP) then 4
  else if bool_decide (s = IPStateQuarantined) then 3
  else if bool_decide (s = IPStateReserved) then 2
  else 1.

(** [if a == "" && b != "" { a = b }] *)
Definition fill (a b : bytes) : bytes := if bool_decide (a = []) then b else a.

Definition merge_source (a b : bytes) : bytes :=
  if bool_decide (a = []) then b
  else if negb (bool_decide (b = [])) && negb (bool_decide (a = b)) && negb (contains a b)
  then a ++ bs "+" ++ b
  else a.

Definition merge_address_record (current next : AddressRecord) : AddressRecord :=
  if bool_decide (ad_ip current = []) then next
  else
    let out := mkAddressRecord (ad_ip current) (fill (ad_subnet_cidr current) (ad_subnet_cidr next))
      (ad_state current) (fill (ad_mac current) (ad_mac next))
      (fill (ad_hostname current) (ad_hostname next))
      (fill (ad_lease_state current) (ad_lease_state next))
      (merge_source (ad_source current) (ad_source next))
      (if after (ad_updated_at next) (ad_updated_at current) then ad_updated_at next
       else ad_updated_at current) in
    if negb (bool_decide (ad_mac out = [])) && negb (bool_decide (ad_mac next = []))
       && negb (bool_decide (ad_mac out = ad_mac next))
    then out <| ad_state := IPStateConflict |>
    else if rank_state (ad_state out) <? rank_state (ad_state next)
    then out <| ad_state := ad_state next |>
    else out.

Definition less_record (x y : AddressRecord) : bool :=
  match parse_addr (ad_ip x), parse_addr (ad_ip y) with
  | Ok a, Ok b => bool_decide (addr_compare (Some a) (Some b) = Lt)
  | _, _ => bytes_ltb (ad_ip x) (ad_ip y)
  end.
Definition sort_address_records (items : list AddressRecord) : list AddressRecord :=
  sort_slice less_record items.

(** * Subnets *)

Definition half_day_seconds : Z := 12 * 3600.

(** [if leaseSec <= 0 { leaseSec = 12h }] *)
Definition default_lease_sec (z : Z) : Z := if z <=? 0 then half_day_seconds else z.

Definition validate_subnet_input (i : UpsertSubnetInput) : result Subnet :=
  match parse_prefix (trim_space (us_cidr i)) with
  | Ok p =>
      let cidr := prefix_string (prefix_masked p) in
      let gateway : option error :=
        if bool_decide (us_gateway i = []) then None
        else
          match parse_addr (trim_space (us_gateway i)) with
          | Ok gw => if prefix_contains p gw then None else Some (errorNew "gateway outside subnet")
          | _ => Some (errorNew "invalid gateway")
          end in
      let range : option error :=
        if negb (us_dhcp_enable i) then None
        else
          match parse_addr (trim_space (us_pool_start i)) with
          | Ok start =>
              match parse_addr (trim_space (us_pool_end i)) with
              | Ok end_ =>
                  if negb (prefix_contains p start) || negb (prefix_contains p end_)
                  then Some (errorNew "pool range outside subnet")
                  else if addr_gt start end_ then Some (errorNew "pool_start must be <= pool_end")
                  else None
              | _ => Some (errorNew "invalid pool_end")
              end
          | _ => Some (errorNew "invalid pool_start")
          end in
      match gateway, range with
      | Some e, _ => Err e
      | None, Some e => Err e
      | None, None =>
          if (us_vlan i <? 0) || (4094 <? us_vlan i) then Err (errorNew "vlan must be between 0 and 4094")
          else
            Ok (mkSubnet cidr (trim_space (us_name i)) (us_vlan i) (trim_space (us_gateway i))
                  (normalize_dns (us_dns i))
                  (mkDHCPPool (us_dhcp_enable i) (trim_space (us_pool_start i)) (trim_space (us_pool_end i))
                     (default_lease_sec (us_lease_sec i))) 0 0)
      end
  | _ => Err (errorNew "invalid cidr")
  end.

Definition get_subnet (e : Engine) (cidr : bytes) : result Subnet := row_get treeSubnets e (trim_space cidr).

Definition list_subnets (e : Engine) : result (list Subnet) :=
  out ← row_list treeSubnets e;
  Ok (sort_slice (λ x y, bytes_ltb (sn_cidr x) (sn_cidr y)) out).

(** [a, _ := netip.ParsePrefix(s)] *)
Definition prefix_or_zero (s : bytes) : option prefix :=
  match parse_prefix s with Ok p => Some p | _ => None end.

(** The loop of [ValidateSubnet]: the first other subnet that overlaps. *)
Fixpoint find_overlap (cidr : bytes) (current : list Subnet) : option bytes :=
  match current with
  | [] => None
  | s :: ss =>
      if bool_decide (sn_cidr s = cidr) then find_overlap cidr ss
      else if overlaps (prefix_or_zero (sn_cidr s)) (prefix_or_zero cidr) then Some (sn_cidr s)
      else find_overlap cidr ss
  end.

Definition validate_subnet (e : Engine) (i : UpsertSubnetInput) : result Subnet :=
  normalized ← validate_subnet_input i;
  let current := match list_subnets e with Ok l => l | _ => [] end in
  match find_overlap (sn_cidr normalized) current with
  | Some other => Err (Errorf "subnet %s overlaps with %s" [FB (sn_cidr normalized); FB other])
  | None => Ok normalized
  end.

(** The result of a write: the record, if it was written. *)
Definition written_row {A} (w : Engine * option error) (a : A) : Engine * result A :=
  match w with (e, None) => (e, Ok a) | (e, Some er) => (e, Err er) end.

Definition upsert_subnet (e : Engine) (i : UpsertSubnetInput) (now tx_now : time) (io : list append_io)
    : Engine * result Subnet :=
  match validate_subnet e i with
  | Ok normalized =>
      let created := match get_subnet e (sn_cidr normalized) with Ok old => sn_created_at old | _ => now end in
      let s := normalized <| sn_created_at := created |> <| sn_updated_at := now |> in
      written_row (row_put treeSubnets e (sn_cidr s) s tx_now io) s
  | Err er => (e, Err er)
  | Panic p => (e, Panic p)
  end.

Definition delete_subnet (e : Engine) (cidr : bytes) (now : time) (io : list append_io)
    : Engine * option error := row_delete treeSubnets e (trim_space cidr) now io.

(** [SeedFromConfig]; each write has its clock and faults. *)
Definition seed_input (s : SubnetConfig) : UpsertSubnetInput :=
  mkUpsertSubnetInput (sc_cidr s) (sc_name s) (sc_vlan s) (sc_gateway s) (sc_dns s) (sc_dhcp_enabled s)
    (sc_pool_start s) (sc_pool_end s) (default_lease_sec (float_trunc (seconds (sc_lease_time s)))).

Fixpoint seed_from_config (e : Engine) (subnets : list SubnetConfig) (now : time) (io : list (list append_io))
    : Engine * option error :=
  match subnets with
  | [] => (e, None)
  | s :: ss =>
      if bool_decide (trim_space (sc_cidr s) = []) then seed_from_config e ss now io
      else
        match get_subnet e (sc_cidr s) with
        | Ok _ => seed_from_config e ss now io
        | _ =>
            match upsert_subnet e (seed_input s) now now (hd [] io) with
            | (e, Ok _) => seed_from_config e ss now (tl io)
            | (e, Err er) => (e, Some er)
            | (e, Panic p) => (e, Some (ErrIO p))
            end
        end
  end.

(** * Reservations *)

Definition get_reservation_by_mac (e : Engine) (mac : bytes) : result Reservation :=
  row_get treeReservations e (ipam_normalize_mac mac).

Definition list_reservations (e : Engine) : result (list Reservation) :=
  out ← row_list treeReservations e;
  Ok (sort_slice (λ x y, if bool_decide (rv_ip x = rv_ip y) then bytes_ltb (rv_mac x) (rv_mac y)
                         else bytes_ltb (rv_ip x) (rv_ip y)) out).

(** The subnet of an address: the one named, or the one found. *)
Definition resolve_subnet (subnets : list Subnet) (a : addr) (subnet_cidr : bytes) : result bytes :=
  let subnet_cidr := trim_space subnet_cidr in
  if negb (bool_decide (subnet_cidr = [])) then
    match lookup_subnet subnets subnet_cidr with
    | None => Err (Errorf "subnet not found: %s" [FB subnet_cidr])
    | Some s =>
        match parse_prefix (sn_cidr s) with
        | Ok p => if prefix_contains p a then Ok (sn_cidr s)
                  else Err (Errorf "ip is outside subnet %s" [FB (sn_cidr s)])
        | _ => Err (Errorf "ip is outside subnet %s" [FB (sn_cidr s)])
        end
    end
  else
    let found := infer_subnet_for_addr a subnets in
    if bool_decide (found = []) then Err (errorNew "ip does not belong to a configured subnet") else Ok found.

(** The loop of [ValidateReservation]: the first other owner of the address. *)
Fixpoint find_owner (mac ip : bytes) (records : list Reservation) : option Reservation :=
  match records with
  | [] => None
  | r :: rs =>
      if bool_decide (rv_ip r = ip) && negb (bool_decide (ipam_normalize_mac (rv_mac r) = mac)) then Some r
      else find_owner mac ip rs
  end.

Definition validate_reservation (e : Engine) (i : UpsertReservationInput) (now : time) : result Reservation :=
  let mac := ipam_normalize_mac (ur_mac i) in
  if bool_decide (mac = []) then Err (errorNew "mac is required")
  else
    match parse_mac mac with
    | None => Err (errorNew "invalid mac")
    | Some _ =>
        match parse_addr (trim_space (ur_ip i)) with
        | Ok a =>
            subnets ← list_subnets e;
            subnet_cidr ← resolve_subnet subnets a (ur_subnet_cidr i);
            records ← list_reservations e;
            match find_owner mac (addr_string a) records with
            | Some r => Err (Errorf "ip %s is already reserved for %s" [FB (rv_ip r); FB (rv_mac r)])
            | None =>
                let created := match get_reservation_by_mac e mac with
                               | Ok old => rv_created_at old | _ => now end in
                Ok (mkReservation mac (addr_string a) (trim_space (ur_hostname i)) subnet_cidr created now)
            end
        | _ => Err (errorNew "invalid ip")
        end
    end.

Definition upsert_reservation (e : Engine) (i : UpsertReservationInput) (now tx_now : time)
    (io : list append_io) : Engine * result Reservation :=
  match validate_reservation e i now with
  | Ok r => written_row (row_put treeReservations e (rv_mac r) r tx_now io) r
  | Err er => (e, Err er)
  | Panic p => (e, Panic p)
  end.

Definition delete_reservation (e : Engine) (mac : bytes) (now : time) (io : list append_io)
    : Engine * option error := row_delete treeReservations e (ipam_normalize_mac mac) now io.

(** * Stored addresses *)

Definition get_stored_address (e : Engine) (ip : bytes) : result AddressRecord :=
  row_get treeAddresses e (trim_space ip).

Definition delete_stored_address (e : Engine) (ip : bytes) (now : time) (io : list append_io)
    : Engine * option error := row_delete treeAddresses e (trim_space ip) now io.

Definition list_stored_addresses (e : Engine) : result (list AddressRecord) :=
  out ← row_list treeAddresses e; Ok (sort_address_records out).

Definition known_states : list bytes :=
  [IPStateAvailable; IPStateDHCP; IPStateReserved; IPStateConflict; IPStateQuarantined].

Definition validate_address (e : Engine) (i : UpsertAddressInput) (now : time) : result AddressRecord :=
  match parse_addr (trim_space (ua_ip i)) with
  | Ok a =>
      subnets ← list_subnets e;
      subnet_cidr ← resolve_subnet subnets a (ua_subnet_cidr i);
      let state := fill (ua_state i) IPStateAvailable in
      if negb (bool_decide (state ∈ known_states))
      then Err (Errorf "invalid address state: %s" [FB state])
      else
        let updated_at := if is_zero (ua_updated_at i) then now else ua_updated_at i in
        Ok (mkAddressRecord (addr_string a) subnet_cidr state (ipam_normalize_mac (ua_mac i))
              (trim_space (ua_hostname i)) [] (fill (trim_space (ua_source i)) (bs "manual")) updated_at)
  | _ => Err (errorNew "invalid ip")
  end.

Definition upsert_address (e : Engine) (i : UpsertAddressInput) (now tx_now : time) (io : list append_io)
    : Engine * result AddressRecord :=
  match validate_address e i now with
  | Ok r => written_row (row_put treeAddresses e (ad_ip r) r tx_now io) r
  | Err er => (e, Err er)
  | Panic p => (e, Panic p)
  end.

(** * The merged view *)

(** [records[ip] = mergeAddressRecord(records[ip], item)] *)
Definition merge_into (records : record_map) (r : AddressRecord) : record_map :=
  <[ad_ip r := merge_address_record (default zero_record (records !! ad_ip r)) r]> records.

Definition reservation_record (r : Reservation) : AddressRecord :=
  mkAddressRecord (rv_ip r) (rv_subnet_cidr r) IPStateReserved (rv_mac r) (rv_hostname r) []
    (bs "reservation") (rv_updated_at r).

(** The subnet of a lease: its own, or the one its address is in. *)
Definition lease_subnet (subnets : list Subnet) (l : Lease) (ip : bytes) : bytes :=
  let cidr := trim_space (l_subnet_id l) in
  if bool_decide (cidr = []) then
    match parse_addr ip with Ok a => infer_subnet_for_addr a subnets | _ => cidr end
  else cidr.

Definition lease_record (l : Lease) (subnet_cidr : bytes) : AddressRecord :=
  mkAddressRecord (l_ip l) subnet_cidr (lease_to_ip_state l) (ipam_normalize_mac (l_mac l)) (l_hostname l)
    (l_state l) (bs "lease") (l_updated_at l).

(** [targetSubnet != "" && cidr != targetSubnet] *)
Definition outside (target cidr : bytes) : bool := negb (bool_decide (target = [])) && negb (bool_decide (cidr = target)).

Definition pool_record (key cidr : bytes) : AddressRecord :=
  mkAddressRecord key cidr IPStateAvailable [] [] [] (bs "pool") 0.

(** The loop over the pool: [fuel] is [maxFill - seen]. *)
Fixpoint fill_loop (fuel : nat) (cidr : bytes) (end_ ip : addr) (records : record_map) : record_map :=
  let key := addr_string ip in
  let records := match records !! key with
                 | Some _ => records
                 | None => <[key := pool_record key cidr]> records
                 end in
  match fuel with
  | O | 1%nat => records
  | S fuel' =>
      if bool_decide (addr_compare (Some ip) (Some end_) = Eq) then records
      else match addr_next ip with
           | Some ip => fill_loop fuel' cidr end_ ip records
           | None => records
           end
  end.
Definition max_fill : nat := Z.to_nat 4096.

(** The haystack of a query. *)
Definition haystack (r : AddressRecord) : bytes :=
  to_lower (join [ad_ip r; ad_mac r; ad_hostname r; ad_subnet_cidr r; ad_source r; ad_lease_state r]
              [byte_of_Z 32]).

Definition matches_filter (f : AddressFilter) (query : bytes) (r : AddressRecord) : bool :=
  negb (negb (bool_decide (af_state f = [])) && negb (bool_decide (ad_state r = af_state f)))
  && (bool_decide (query = []) || contains (haystack r) query).

Context {S : Type} `{LeaseStore S}.

(** What the lease store lists; its errors are ignored. *)
Definition listed_leases (leases : option S) : list Lease :=
  match leases with
  | Some ls => match ls_list_all ls with Ok l => l | _ => [] end
  | None => []
  end.

(** The map [records] before the pool is filled in. *)
Definition gather_records (subnets : list Subnet) (target : bytes) (stored : list AddressRecord)
    (reservations : list Reservation) (leases : list Lease) : record_map :=
  let records := foldl merge_into ∅ (filter (λ r, outside target (ad_subnet_cidr r) = false) stored) in
  let records := foldl merge_into records
    (reservation_record <$> filter (λ r, outside target (rv_subnet_cidr r) = false) reservations) in
  foldl merge_into records
    ((λ l, lease_record l (lease_subnet subnets l (trim_space (l_ip l)))) <$>
       filter (λ l, outside target (lease_subnet subnets l (trim_space (l_ip l))) = false) leases).

Definition fill_pool (subnets : list Subnet) (target : bytes) (records : record_map) : record_map :=
  if bool_decide (target = []) then records
  else
    match lookup_subnet subnets target with
    | Some s =>
        if dp_enabled (sn_dhcp s) then
          match pool_range s with
          | Some (start, end_) => fill_loop max_fill (sn_cidr s) end_ start records
          | None => records
          end
        else records
    | None => records
    end.

(** [ListAddresses]; [range] is the order of the range over the map. *)
Definition list_addresses (e : Engine) (leases : option S) (f : AddressFilter)
    (range : record_map → list AddressRecord) : result (list AddressRecord) :=
  subnets ← list_subnets e;
  let target := trim_space (af_subnet_cidr f) in
  target ← (if negb (bool_decide (target = [])) && negb (bool_decide (target = bs "all")) then
              match lookup_subnet subnets target with
              | None => Err (Errorf "subnet not found: %s" [FB target])
              | Some s => Ok (sn_cidr s)
              end
            else Ok target);
  stored ← list_stored_addresses e;
  reservations ← list_reservations e;
  let records := gather_records subnets target stored reservations (listed_leases leases) in
  let records := fill_pool subnets target records in
  let query := to_lower (trim_space (af_query f)) in
  let out := sort_address_records (filter (λ r, matches_filter f query r = true) (range records)) in
  Ok (if (0 <? af_limit f) && (af_limit f <? zlen out) then take (Z.to_nat (af_limit f)) out else out).

(** [GetAddress] *)
Definition get_address (e : Engine) (leases : option S) (ip : bytes) : result AddressRecord :=
  let candidate := trim_space ip in
  match parse_addr candidate with
  | Ok a =>
      subnets ← list_subnets e;
      let out : option AddressRecord :=
        match get_stored_address e candidate with
        | Ok stored => Some (merge_address_record zero_record stored)
        | _ => None
        end in
      reservations ← list_reservations e;
      let out := foldl (λ out r, Some (merge_address_record (default zero_record out) (reservation_record r)))
                   out (filter (λ r, rv_ip r = candidate) reservations) in
      let out := match leases with
                 | Some ls =>
                     match ls_get_by_ip ls candidate with
                     | Ok l => Some (merge_address_record (default zero_record out)
                                 (lease_record l (lease_subnet subnets l candidate)))
                     | _ => out
                     end
                 | None => out
                 end in
      match out with
      | Some r => Ok r
      | None =>
          let cidr := infer_subnet_for_addr a subnets in
          if bool_decide (cidr = []) then Err ErrNotFound
          else Ok (mkAddressRecord candidate cidr IPStateAvailable [] [] [] (bs "subnet") 0)
      end
  | _ => Err (errorNew "invalid ip")
  end.

(** * Summaries *)

(** The entry of a subnet: total and active leases. *)
Definition count_lease (m : gmap bytes (Z * Z)) (l : Lease) : gmap bytes (Z * Z) :=
  let s := if bool_decide (l_subnet_id l = []) then bs "unassigned" else l_subnet_id l in
  let '(total, active) := default (0, 0) (m !! s) in
  <[s := (total + 1, if bool_decide (l_state l ∈ [StateBound; StateRenewing]) then active + 1 else active)]> m.

Definition summary_of (m : gmap bytes (Z * Z)) (s : Subnet) : SubnetSummary :=
  let '(total, active) := default (0, 0) (m !! sn_cidr s) in
  mkSubnetSummary (sn_cidr s) (sn_name s) (sn_vlan s) active total
    (utilization_percent active (subnet_capacity s)).

Definition list_summaries (e : Engine) (leases : option S) : result (list SubnetSummary) :=
  subnets ← list_subnets e;
  let m := foldl count_lease ∅ (listed_leases leases) in
  let result := summary_of m <$> subnets in
  let result := match m !! bs "unassigned" with
                | Some (total, active) =>
                    result ++ [mkSubnetSummary (bs "unassigned") (bs "Unassigned") 0 active total 0]
                | None => result
                end in
  Ok (sort_slice (λ x y, bytes_ltb (ss_cidr x) (ss_cidr y)) result).
End ipam.
