(* ===== verification/IpamSpec.v ===== *)
(** What the IPAM engine keeps true of its rows.

    [ipam_state e ms mr ma] relates an engine to its three tables; [subnets_ok],
    [reservations_ok] and [addresses_ok] are the well-formedness of the tables. *)

From S2P Require Import Prelude.
From S2P Require Import GoBytes.
From S2P Require Import GoStrings.
From S2P Require Import GoTime.
From S2P Require Import GoJson.
From S2P Require Import GoNet.
From S2P Require Import GoNet6.
From S2P Require Import GoPrefix.
From S2P Require Import GoPort.
From S2P Require Import GoSort.
From S2P Require Import IpamCidr.
From S2P Require Import Wal.
From S2P Require Import StorageEngine.
From S2P Require Import StorageSpec.
From S2P Require Import RowTable.
From S2P Require Import Lease.
From S2P Require Import LeaseInterface.
From S2P Require Import Ipam.

(** * Hardware addresses are in normal form *)

Definition mac_char (c : byte) : Prop := is_Some (hex_of c) ∨ c ∈ [colon; hyphen; dot].

Lemma hex_printable c : is_Some (hex_of c) → printable c.
Proof.
  unfold hex_of, printable. intros [d Hd]. cbv zeta in Hd.
  destruct ((48 <=? _) && _) eqn:E1; [bools; lia|].
  destruct ((97 <=? _) && _) eqn:E2; [bools; lia|].
  destruct ((65 <=? _) && _) eqn:E3; [bools; lia|done].
Qed.

Lemma mac_char_printable c : mac_char c → printable c.
Proof.
  intros [Hh|Hc]; [by apply hex_printable|]. unfold printable.
  repeat setoid_rewrite elem_of_cons in Hc. destruct Hc as [-> |[-> |[-> |Hc]]];
    [vm_compute; split; congruence..|by apply elem_of_nil in Hc].
Qed.

Lemma xtoi2_chars s e b :
  xtoi2 s e = Some b → ∃ x y r, s = x :: y :: r ∧ mac_char x ∧ mac_char y ∧
    match e with Some c => ∃ r', r = c :: r' | None => True end.
Proof.
  unfold xtoi2. destruct s as [|x [|y r]]; try done. intros E.
  destruct (match e with None => true | _ => _ end) eqn:Ec; [|done].
  destruct (hex_of x) eqn:Ex; [|done]. simpl in E. destruct (hex_of y) eqn:Ey; [|done].
  exists x, y, r. split_and!; [done|left; by eexists..|].
  destruct e as [c|]; [|done]. apply bool_decide_eq_true in Ec. destruct r; [done|]. simpl in Ec.
  injection Ec as ->. by eexists.
Qed.

Lemma mac_pairs_chars n sep : ∀ s r,
  mac_char sep → mac_pairs (S n) sep s = Some r → length s = (3 * S n - 1)%nat → Forall mac_char s.
Proof.
  induction n as [|n IH]; intros s r Hsep E Hl.
  - simpl in E. destruct (xtoi2 s None) eqn:Ex; [|done]. apply xtoi2_chars in Ex as (x & y & t & -> & Hx & Hy & _).
    destruct t; [do 2 (constructor; [done|]); constructor|simpl in Hl; lia].
  - change (mac_pairs (S (S n)) sep s) with
      (b ← xtoi2 s (Some sep); r ← mac_pairs (S n) sep (drop 3 s); Some (b :: r)) in E.
    destruct (xtoi2 s (Some sep)) eqn:Ex; [|done]. cbn [mbind option_bind] in E.
    apply xtoi2_chars in Ex as (x & y & t & -> & Hx & Hy & t' & ->). cbn [drop] in E. rewrite drop_0 in E.
    destruct (mac_pairs (S n) sep t') eqn:Em; [|done].
    do 3 (constructor; [done|]). eapply IH; [done|exact Em|]. simpl in Hl |- *. lia.
Qed.

Lemma mac_groups_chars n : ∀ s r,
  mac_groups (S n) s = Some r → length s = (5 * S n - 1)%nat → Forall mac_char s.
Proof.
  assert (Hdot : mac_char dot) by (right; set_solver).
  induction n as [|n IH]; intros s r E Hl.
  - simpl in E. destruct (xtoi2 s None) eqn:Ex; [|done]. cbn [mbind option_bind] in E.
    apply xtoi2_chars in Ex as (x & y & t & -> & Hx & Hy & _). cbn [drop] in E. rewrite drop_0 in E.
    destruct (xtoi2 t None) eqn:Et; [|done]. apply xtoi2_chars in Et as (x' & y' & t' & -> & Hx' & Hy' & _).
    destruct t'; [do 4 (constructor; [done|]); constructor|simpl in Hl; lia].
  - change (mac_groups (S (S n)) s) with
      (a ← xtoi2 s None; b ← xtoi2 (drop 2 s) (Some dot); r ← mac_groups (S n) (drop 5 s); Some (a :: b :: r)) in E.
    destruct (xtoi2 s None) eqn:Ex; [|done]. cbn [mbind option_bind] in E.
    apply xtoi2_chars in Ex as (x & y & t & -> & Hx & Hy & _). cbn [drop] in E. rewrite drop_0 in E.
    destruct (xtoi2 t (Some dot)) eqn:Et; [|done]. cbn [mbind option_bind] in E.
    apply xtoi2_chars in Et as (x' & y' & t' & -> & Hx' & Hy' & t2 & ->). cbn [drop] in E. rewrite drop_0 in E.
    destruct (mac_groups (S n) t2) eqn:Em; [|done].
    do 5 (constructor; [done|]). eapply IH; [exact Em|]. simpl in Hl |- *. lia.
Qed.

Lemma parse_mac_chars s m : parse_mac s = Some m → Forall mac_char s.
Proof.
  unfold parse_mac. destruct (zlen s <? 14); [done|].
  destruct (s !! 2%nat) as [c2|]; [|done]. destruct (s !! 4%nat) as [c4|]; [|done].
  destruct (bool_decide (c2 = colon) || bool_decide (c2 = hyphen)) eqn:Ec.
  - destruct (Z.eqb_spec ((zlen s + 1) mod 3) 0) as [E3|]; [|done]. cbn [negb].
    destruct (bool_decide (_ ∈ _)) eqn:Hn; cbn [negb]; [|done]. apply bool_decide_eq_true in Hn.
    assert (Hl : zlen s + 1 = 3 * ((zlen s + 1) / 3)) by (pose proof (Z.div_mod (zlen s + 1) 3 ltac:(done)); lia).
    assert (∃ k, Z.to_nat ((zlen s + 1) / 3) = S k ∧ length s = (3 * S k - 1)%nat) as (k & -> & Hlen).
    { unfold zlen in *. exists (Z.to_nat ((Z.of_nat (length s) + 1) / 3) - 1)%nat. lia. }
    intros Em. eapply mac_pairs_chars; [|exact Em|done]. right. apply orb_true_iff in Ec as [E|E];
      apply bool_decide_eq_true in E as ->; set_solver.
  - destruct (bool_decide (c4 = dot)); [|done]. destruct (Z.eqb_spec ((zlen s + 1) mod 5) 0) as [E5|]; [|done]. cbn [negb].
    destruct (bool_decide (_ ∈ _)) eqn:Hn; cbn [negb]; [|done]. apply bool_decide_eq_true in Hn.
    pose proof (Z.div_mod (zlen s + 1) 5 ltac:(lia)) as Hl. rewrite E5, Z.add_0_r in Hl.
    set (q := (zlen s + 1) / 5) in *.
    assert (Hq : 2 * (zlen s + 1) / 5 = 2 * q).
    { rewrite Hl. replace (2 * (5 * q)) with (2 * q * 5) by lia. by rewrite Z.div_mul. }
    rewrite Hq. rewrite (Z.mul_comm 2), Z.div_mul by lia.
    assert (∃ k, Z.to_nat q = S k ∧ length s = (5 * S k - 1)%nat) as (k & -> & Hlen).
    { unfold zlen in *. exists (Z.to_nat q - 1)%nat. lia. }
    intros Em. by eapply mac_groups_chars.
Qed.

(** A hardware address the code accepts is its own normal form. *)
Lemma normal_mac `{UnicodeTables} x m :
  parse_mac (ipam_normalize_mac x) = Some m →
  ipam_normalize_mac (ipam_normalize_mac x) = ipam_normalize_mac x.
Proof.
  intros Hc%parse_mac_chars. unfold ipam_normalize_mac at 1.
  rewrite trim_printable by (eapply Forall_impl; [exact Hc|apply mac_char_printable]).
  unfold ipam_normalize_mac. apply to_upper_idemp.
Qed.

(** * The tables *)

Section spec.
Context `{UnicodeTables} `{SliceSort} `{Json Subnet} `{Json Reservation} `{Json AddressRecord}.

Record ipam_state (e : Engine) (ms : gmap bytes Subnet) (mr : gmap bytes Reservation)
    (ma : gmap bytes AddressRecord) : Prop := {
  is_engine : engine_ok e;
  is_subnets : table treeSubnets (rows e) ms;
  is_reservations : table treeReservations (rows e) mr;
  is_addresses : table treeAddresses (rows e) ma;
}.

Lemma ipam_trees_ok : tree_ok treeSubnets ∧ tree_ok treeReservations ∧ tree_ok treeAddresses.
Proof. unfold tree_ok. split_and!; try done; apply (bool_decide_unpack _); vm_compute; done. Qed.

(** A listing gives the values of the map, sorted somehow. *)
Lemma sorted_rows {A} `{Json A} (tree : bytes) (e : Engine) (m : gmap bytes A) (less : A → A → bool) :
  engine_ok e → table tree (rows e) m →
  ∃ l, (out ← row_list tree e; Ok (sort_slice less out)) = Ok l ∧ l ≡ₚ (map_to_list m).*2.
Proof.
  intros [(Hwf & _) _] Ht. destruct (row_list_table tree e m Hwf Ht) as (kvs & -> & Hs & Hin).
  cbn [mbind result_bind]. eexists. split; [done|]. rewrite sort_slice_perm.
  apply fmap_Permutation, NoDup_Permutation; [|apply NoDup_map_to_list|].
  - apply (NoDup_fmap_1 fst). eapply StronglySorted_NoDup; [|exact Hs].
    intros x Hx. by apply bytes_lt_irrefl in Hx.
  - intros [k a]. by rewrite Hin, elem_of_map_to_list.
Qed.

Lemma elem_of_values {A} (m : gmap bytes A) l a : l ≡ₚ (map_to_list m).*2 → a ∈ l ↔ ∃ k, m !! k = Some a.
Proof.
  intros ->. rewrite list_elem_of_fmap. split.
  - intros ([k a'] & -> & Hk). exists k. by apply elem_of_map_to_list.
  - intros [k Hk]. exists (k, a). split; [done|]. by apply elem_of_map_to_list.
Qed.

(** ** Subnets *)

Definition gateway_ok (p : prefix) (gw : bytes) : Prop :=
  gw = [] ∨ ∃ a, parse_addr gw = Ok a ∧ member p a.

Definition range_ok (p : prefix) (d : DHCPPool) : Prop :=
  dp_enabled d = true →
  ∃ a b, parse_addr (dp_pool_start d) = Ok a ∧ parse_addr (dp_pool_end d) = Ok b ∧
    member p a ∧ member p b ∧ addr_value a ≤ addr_value b.

(** A subnet as the engine stores it, with its prefix. *)
Record subnet_wf (s : Subnet) (p : prefix) : Prop := {
  sw_parse : parse_prefix (sn_cidr s) = Ok p;
  sw_text : prefix_string p = sn_cidr s;
  sw_masked : prefix_masked p = p;
  sw_gateway : gateway_ok p (sn_gateway s);
  sw_range : range_ok p (sn_dhcp s);
  sw_vlan : 0 ≤ sn_vlan s ≤ 4094;
  sw_lease : 0 < dp_lease_time_sec (sn_dhcp s);
}.

Record subnets_ok (ms : gmap bytes Subnet) : Prop := {
  so_wf k s : ms !! k = Some s → sn_cidr s = k ∧ ∃ p, subnet_wf s p;
  so_disjoint k k' s s' p p' a :
    ms !! k = Some s → ms !! k' = Some s' → parse_prefix k = Ok p → parse_prefix k' = Ok p' →
    member p a → member p' a → k = k';
}.

Lemma range_value a b : addr_wf a → addr_wf b → is4 a = is4 b → addr_gt a b = false → addr_value a ≤ addr_value b.
Proof.
  unfold addr_gt, addr_compare, addr_value. intros Wa Wb H4 Hg%bool_decide_eq_false_1.
  destruct a as [x|x zx], b as [y|y zy]; try done; cbn [addr_bits addr_num as_slice] in *;
    rewrite Z.compare_refl in Hg; destruct (Z.compare_spec (be_get x) (be_get y)); try lia; done.
Qed.

Lemma parsed_member p a s : parse_addr s = Ok a → prefix_contains p a = true → member p a.
Proof. intros Hs Hc. split; [by eapply parse_addr_wf|done]. Qed.

Lemma member_is4 p a : prefix_wf p → member p a → is4 a = is4 (p_addr p).
Proof. intros Hp Hm. by apply member_interval in Hm as (_ & ? & _). Qed.

(** What [validateSubnet] accepts. *)
Lemma validate_input_wf i s :
  validate_subnet_input i = Ok s → ∃ p, subnet_wf s p.
Proof.
  unfold validate_subnet_input. destruct (parse_prefix (trim_space (us_cidr i))) as [p0| |] eqn:Ep; [|done..].
  pose proof (parse_prefix_wf _ _ Ep) as Hp. set (gateway := if bool_decide _ then _ else _).
  set (range := if negb _ then _ else _). intros E.
  assert (gateway = None ∧ range = None ∧ 0 ≤ us_vlan i ≤ 4094) as (Eg & Er & Hv).
  { destruct gateway, range; try done. destruct (_ || _) eqn:Ev in E; [done|]. bools. split_and!; done || lia. }
  rewrite Eg, Er in E. destruct (_ || _) in E; [done|]. injection E as <-.
  destruct (prefix_masked_spec p0 Hp) as (Hm & _).
  exists (prefix_masked p0). split; cbn.
  - by apply parse_prefix_string.
  - done.
  - by apply prefix_masked_idemp.
  - subst gateway. unfold gateway_ok. case_bool_decide as Hg; [left; by rewrite Hg|].
    destruct (parse_addr (trim_space (us_gateway i))) as [gw| |] eqn:Ew; [|done..].
    destruct (prefix_contains p0 gw) eqn:Ec; [|done]. right. exists gw. split; [done|].
    apply member_masked; [done|]. by eapply parsed_member.
  - subst range. intros He. cbn in He |- *. rewrite He in Er. cbn [negb] in Er.
    destruct (parse_addr (trim_space (us_pool_start i))) as [a| |] eqn:Ea; [|done..].
    destruct (parse_addr (trim_space (us_pool_end i))) as [b| |] eqn:Eb; [|done..].
    destruct (prefix_contains p0 a) eqn:Ca; [|done]. destruct (prefix_contains p0 b) eqn:Cb; [|done]. cbn in Er.
    destruct (addr_gt a b) eqn:Egt; [done|].
    pose proof (parsed_member _ _ _ Ea Ca) as Ma. pose proof (parsed_member _ _ _ Eb Cb) as Mb.
    exists a, b. split_and!; [done|done|by apply member_masked..|].
    apply range_value; [apply Ma|apply Mb| |done]. by rewrite (member_is4 p0 a), (member_is4 p0 b).
  - done.
  - unfold default_lease_sec, half_day_seconds. destruct (Z.leb_spec (us_lease_sec i) 0); lia.
Qed.

Lemma find_overlap_none cidr l s :
  find_overlap cidr l = None → s ∈ l → sn_cidr s ≠ cidr →
  overlaps (prefix_or_zero (sn_cidr s)) (prefix_or_zero cidr) = false.
Proof.
  induction l as [|x l IH]; [by intros _ ?%elem_of_nil|]. simpl. intros Hf [-> |Hin]%elem_of_cons Hne.
  - rewrite bool_decide_eq_false_2 in Hf by done. by destruct (overlaps _ _).
  - case_bool_decide; [by apply IH|]. destruct (overlaps (prefix_or_zero (sn_cidr x)) _); [done|]. by apply IH.
Qed.

Lemma list_subnets_spec e ms mr ma :
  ipam_state e ms mr ma → ∃ l, list_subnets e = Ok l ∧ l ≡ₚ (map_to_list ms).*2.
Proof. intros Hs. apply sorted_rows; apply Hs. Qed.

Lemma list_reservations_spec e ms mr ma :
  ipam_state e ms mr ma → ∃ l, list_reservations e = Ok l ∧ l ≡ₚ (map_to_list mr).*2.
Proof. intros Hs. apply sorted_rows; apply Hs. Qed.

Lemma list_stored_spec e ms mr ma :
  ipam_state e ms mr ma → ∃ l, list_stored_addresses e = Ok l ∧ l ≡ₚ (map_to_list ma).*2.
Proof. intros Hs. apply sorted_rows; apply Hs. Qed.

(** A new subnet shares no address with the others. *)
Lemma validate_subnet_disjoint e ms mr ma i s p k s' p' a :
  ipam_state e ms mr ma → subnets_ok ms → validate_subnet e i = Ok s → subnet_wf s p →
  ms !! k = Some s' → k ≠ sn_cidr s → parse_prefix k = Ok p' → member p a → member p' a → False.
Proof.
  intros Hs Hok Hv Hw Hk Hne Hp' Ma Ma'. unfold validate_subnet in Hv.
  destruct (validate_subnet_input i) as [s0| |] eqn:Ei; [|done..]. cbn [mbind result_bind] in Hv.
  destruct (list_subnets_spec _ _ _ _ Hs) as (l & El & Hl). rewrite El in Hv.
  destruct (find_overlap (sn_cidr s0) l) eqn:Eo; [done|]. injection Hv as <-.
  destruct (so_wf _ Hok k s' Hk) as [Hc _]. subst k.
  pose proof (find_overlap_none _ _ s' Eo) as Ho. unfold prefix_or_zero in Ho. rewrite Hp', (sw_parse _ _ Hw) in Ho.
  assert (overlaps (Some p') (Some p) = true) as Ht.
  { apply overlaps_spec; [by eapply parse_prefix_wf|by eapply parse_prefix_wf, Hw|by exists a]. }
  assert (s' ∈ l) as Hin by (rewrite (elem_of_values ms) by done; by exists (sn_cidr s')).
  specialize (Ho Hin Hne). congruence.
Qed.

Lemma subnets_ok_insert e ms mr ma i s0 s :
  ipam_state e ms mr ma → subnets_ok ms → validate_subnet e i = Ok s0 →
  sn_cidr s = sn_cidr s0 → (∃ p, subnet_wf s p) → subnets_ok (<[sn_cidr s := s]> ms).
Proof.
  intros Hs Hok Hv Hc [p Hp].
  assert (Hdis : ∀ k s' p' a, ms !! k = Some s' → k ≠ sn_cidr s → parse_prefix k = Ok p' →
    member p a → member p' a → False).
  { intros k s' p' a Hk Hne Hp' Ma Ma'. pose proof Hv as Hv0. unfold validate_subnet in Hv0.
    destruct (validate_subnet_input i) as [x| |] eqn:Ei; [|done..]. cbn [mbind result_bind] in Hv0.
    destruct (find_overlap _ _); [done|]. injection Hv0 as ->.
    destruct (validate_input_wf _ _ Ei) as [q Hq].
    assert (q = p) as ->.
    { pose proof (sw_parse _ _ Hq) as E1. rewrite <-Hc, (sw_parse _ _ Hp) in E1. congruence. }
    eapply (validate_subnet_disjoint e ms mr ma i s0 p k s' p' a); try done. congruence. }
  split.
  - intros k x [[<- <-]|[Hne Hx]]%lookup_insert_Some; [split; [done|by exists p]|by apply (so_wf _ Hok)].
  - intros k k' x x' q q' a [[<- <-]|[Hne Hx]]%lookup_insert_Some [[<- <-]|[Hne' Hx']]%lookup_insert_Some
      Hq Hq' Ma Ma'; [done| | |by eapply (so_disjoint _ Hok)].
    + exfalso. rewrite (sw_parse _ _ Hp) in Hq. injection Hq as <-. by eapply Hdis.
    + exfalso. rewrite (sw_parse _ _ Hp) in Hq'. injection Hq' as <-. by eapply Hdis.
Qed.

(** The overlap check is exact. *)
Lemma find_overlap_some cidr l other :
  find_overlap cidr l = Some other →
  ∃ s, s ∈ l ∧ sn_cidr s ≠ cidr ∧ overlaps (prefix_or_zero (sn_cidr s)) (prefix_or_zero cidr) = true.
Proof.
  induction l as [|x l IH]; [done|]. simpl. case_bool_decide.
  - intros E. destruct (IH E) as (s & ? & ?). exists s. split; [by right|done].
  - destruct (overlaps _ _) eqn:Eo.
    + intros _. exists x. split; [by left|done].
    + intros E. destruct (IH E) as (s & ? & ?). exists s. split; [by right|done].
Qed.

Lemma validate_subnet_iff e ms mr ma i s p :
  ipam_state e ms mr ma → subnets_ok ms → validate_subnet_input i = Ok s → parse_prefix (sn_cidr s) = Ok p →
  validate_subnet e i = Ok s ↔
  ∀ k p' a, k ∈ dom ms → k ≠ sn_cidr s → parse_prefix k = Ok p' → member p' a → ¬ member p a.
Proof.
  intros Hs Hok Hi Hp. destruct (validate_input_wf _ _ Hi) as [q Hq].
  assert (q = p) as -> by (pose proof (sw_parse _ _ Hq); congruence). split.
  - intros Hv k p' a [s' Hk]%elem_of_dom Hne Hp' Ma' Ma. by eapply (validate_subnet_disjoint e ms mr ma i s p k s' p' a).
  - intros Hd. unfold validate_subnet. rewrite Hi. cbn [mbind result_bind].
    destruct (list_subnets_spec _ _ _ _ Hs) as (l & -> & Hl).
    destruct (find_overlap (sn_cidr s) l) as [o|] eqn:Eo; [|done]. exfalso.
    apply find_overlap_some in Eo as (s' & Hin & Hne & Ho). apply (elem_of_values ms) in Hin as [k Hk]; [|done].
    destruct (so_wf _ Hok _ _ Hk) as [<- [p' Hp']].
    unfold prefix_or_zero in Ho. rewrite Hp, (sw_parse _ _ Hp') in Ho.
    apply overlaps_spec in Ho as (a & Ma' & Ma); [|by eapply parse_prefix_wf, Hp'|by eapply parse_prefix_wf].
    eapply (Hd (sn_cidr s') p' a); try done; [by apply elem_of_dom; eexists|apply Hp'].
Qed.

(** The record [UpsertSubnet] writes. *)
Definition subnet_to_write (e : Engine) (i : UpsertSubnetInput) (now : time) : option Subnet :=
  match validate_subnet e i with
  | Ok s =>
      let created := match get_subnet e (sn_cidr s) with Ok old => sn_created_at old | _ => now end in
      Some (s <| sn_created_at := created |> <| sn_updated_at := now |>)
  | _ => None
  end.
End spec.
