(* ===== verification/IpamOps.v ===== *)
(** The writes of the IPAM engine on its tables.

    Each operation of the engine is an [IpamOp]; [ipam_effect] is what it does to
    the three tables, [run_op] what the code does to the storage engine.  The
    operations keep the tables well formed and implement their effects. *)

From S2P Require Import Prelude.
From S2P Require Import GoBytes.
From S2P Require Import GoStrings.
From S2P Require Import GoTime.
From S2P Require Import GoJson.
From S2P Require Import GoNet.
From S2P Require Import GoNet6.
From S2P Require Import GoPrefix.
From S2P Require Import GoPort.
From S2P Require Import GoSort.
From S2P Require Import IpamCidr.
From S2P Require Import Wal.
From S2P Require Import StorageEngine.
From S2P Require Import StorageSpec.
From S2P Require Import RowTable.
From S2P Require Import Lease.
From S2P Require Import LeaseInterface.
From S2P Require Import Ipam.
From S2P Require Import IpamSpec.

Section ops.
Context `{UnicodeTables} `{SliceSort} `{Json Subnet} `{Json Reservation} `{Json AddressRecord}.

(** * Reservations and addresses are in a subnet *)

(** The text is that of an address of the prefix. *)
Definition located (ip cidr : bytes) : Prop :=
  ∃ a p, ip = addr_string a ∧ parse_prefix cidr = Ok p ∧ member p a.

Lemma infer_member a subnets cidr :
  addr_wf a → infer_subnet_for_addr a subnets = cidr → cidr ≠ [] →
  ∃ p, parse_prefix cidr = Ok p ∧ member p a ∧ ∃ s, s ∈ subnets ∧ sn_cidr s = cidr.
Proof.
  intros Ha. induction subnets as [|s ss IH]; intros E Hne; simpl in E; [by subst|].
  assert (infer_subnet_for_addr a ss = cidr →
    ∃ p, parse_prefix cidr = Ok p ∧ member p a ∧ ∃ s', s' ∈ s :: ss ∧ sn_cidr s' = cidr) as Hrec.
  { intros E'. destruct (IH E' Hne) as (p & Hp & Hm & s' & Hs' & Hc). exists p. split; [done|]. split; [done|].
    exists s'. split; [by right|done]. }
  destruct (parse_prefix (sn_cidr s)) as [p| |] eqn:Ep; [|by apply Hrec..].
  destruct (prefix_contains p a) eqn:Ec; [|by apply Hrec].
  subst cidr. exists p. split; [done|]. split; [by split|]. exists s. split; [by left|done].
Qed.

Lemma find_subnet_some n subnets s : find_subnet n subnets = Some s → s ∈ subnets ∧ sn_cidr s = n.
Proof.
  induction subnets as [|x l IH]; [done|]. simpl. case_bool_decide.
  - intros [= ->]. split; [by left|done].
  - intros Hs. destruct (IH Hs). split; [by right|done].
Qed.

(** The subnet found for an address has it. *)
Lemma resolve_subnet_member subnets a cidr c :
  addr_wf a → resolve_subnet subnets a cidr = Ok c →
  ∃ p, parse_prefix c = Ok p ∧ member p a ∧ ∃ s, s ∈ subnets ∧ sn_cidr s = c.
Proof.
  intros Ha. unfold resolve_subnet. destruct (bool_decide (trim_space cidr = [])) eqn:Et; cbn [negb].
  - clear Et. case_bool_decide as He; [done|]. intros [= <-]. by eapply infer_member.
  - unfold lookup_subnet. destruct (find_subnet _ subnets) as [s|] eqn:Es; [|done].
    apply find_subnet_some in Es as [Hin _].
    destruct (parse_prefix (sn_cidr s)) as [p| |] eqn:Ep; [|done..].
    destruct (prefix_contains p a) eqn:Ec; [|done]. intros [= <-].
    exists p. split; [done|]. split; [by split|]. by exists s.
Qed.

Record reservation_wf (r : Reservation) : Prop := {
  rw_mac : is_Some (parse_mac (rv_mac r));
  rw_normal : ipam_normalize_mac (rv_mac r) = rv_mac r;
  rw_located : located (rv_ip r) (rv_subnet_cidr r);
}.

(** No address is reserved twice. *)
Record reservations_ok (mr : gmap bytes Reservation) : Prop := {
  ro_wf k r : mr !! k = Some r → rv_mac r = k ∧ reservation_wf r;
  ro_unique k k' r r' : mr !! k = Some r → mr !! k' = Some r' → rv_ip r = rv_ip r' → k = k';
}.

Record address_wf (r : AddressRecord) : Prop := {
  aw_state : ad_state r ∈ known_states;
  aw_lease_state : ad_lease_state r = [];
  aw_source : ad_source r ≠ [];
  aw_located : located (ad_ip r) (ad_subnet_cidr r);
}.

Definition addresses_ok (ma : gmap bytes AddressRecord) : Prop :=
  ∀ k r, ma !! k = Some r → ad_ip r = k ∧ address_wf r.

Lemma find_owner_none mac ip l r :
  find_owner mac ip l = None → r ∈ l → rv_ip r = ip → ipam_normalize_mac (rv_mac r) = mac.
Proof.
  induction l as [|x l IH]; [by intros _ ?%elem_of_nil|]. simpl. intros Hf [-> |Hin]%elem_of_cons Hip.
  - rewrite (bool_decide_eq_true_2 _ Hip) in Hf. simpl in Hf. by case_bool_decide.
  - apply IH; [|done..]. by destruct (_ && _) in Hf.
Qed.

(** What [ValidateReservation] accepts. *)
Lemma validate_reservation_wf e ms mr ma i now r :
  ipam_state e ms mr ma → reservations_ok mr → validate_reservation e i now = Ok r →
  reservation_wf r ∧ rv_mac r = ipam_normalize_mac (ur_mac i) ∧
  (∀ k r', mr !! k = Some r' → rv_ip r' = rv_ip r → k = rv_mac r) ∧
  ∃ s, ms !! rv_subnet_cidr r = Some s ∨ ∃ k, ms !! k = Some s ∧ sn_cidr s = rv_subnet_cidr r.
Proof.
  intros Hs Hok. unfold validate_reservation. case_bool_decide as Hm; [done|].
  destruct (parse_mac _) as [m|] eqn:Em; [|done].
  destruct (parse_addr (trim_space (ur_ip i))) as [a| |] eqn:Ea; [|done..].
  pose proof (parse_addr_wf _ _ Ea) as Ha.
  destruct (list_subnets_spec _ _ _ _ Hs) as (subnets & -> & Hsub). cbn [mbind result_bind].
  destruct (resolve_subnet subnets a (ur_subnet_cidr i)) as [c| |] eqn:Ec; [|done..]. cbn [mbind result_bind].
  destruct (resolve_subnet_member _ _ _ _ Ha Ec) as (p & Hp & Hmem & s & Hin & Hsc).
  destruct (list_reservations_spec _ _ _ _ Hs) as (records & -> & Hrec). cbn [mbind result_bind].
  destruct (find_owner _ _ records) as [o|] eqn:Eo; [done|]. intros [= <-]. cbn.
  split; [split; cbn|split; [done|split]].
  - rewrite Em. by eexists.
  - by eapply normal_mac.
  - by exists a, p.
  - intros k r' Hk Hip. destruct (ro_wf _ Hok _ _ Hk) as [<- Hw]. rewrite <-(rw_normal _ Hw).
    eapply find_owner_none; [exact Eo| |done]. apply (elem_of_values mr); [done|]. by eexists.
  - exists s. right. apply (elem_of_values ms) in Hin as [k Hk]; [|done]. by exists k.
Qed.

(** What [UpsertAddress] accepts. *)
Lemma validate_address_wf e ms mr ma i now r :
  ipam_state e ms mr ma → validate_address e i now = Ok r → address_wf r.
Proof.
  intros Hs. unfold validate_address.
  destruct (parse_addr (trim_space (ua_ip i))) as [a| |] eqn:Ea; [|done..].
  pose proof (parse_addr_wf _ _ Ea) as Ha.
  destruct (list_subnets_spec _ _ _ _ Hs) as (subnets & -> & Hsub). cbn [mbind result_bind].
  destruct (resolve_subnet subnets a (ua_subnet_cidr i)) as [c| |] eqn:Ec; [|done..]. cbn [mbind result_bind].
  destruct (resolve_subnet_member _ _ _ _ Ha Ec) as (p & Hp & Hmem & _).
  destruct (bool_decide (_ ∈ known_states)) eqn:Ek; [|done]. apply bool_decide_eq_true in Ek.
  intros [= <-]. split; cbn; [done|done| |by exists a, p].
  unfold fill. by case_bool_decide.
Qed.

(** * The operations *)

Inductive IpamOp :=
| OpSubnet (i : UpsertSubnetInput)
| OpDropSubnet (cidr : bytes)
| OpReservation (i : UpsertReservationInput)
| OpDropReservation (mac : bytes)
| OpAddress (i : UpsertAddressInput)
| OpDropAddress (ip : bytes).

Definition result_err {A} (r : result A) : option error :=
  match r with Ok _ => None | Err er => Some er | Panic p => Some (ErrIO p) end.

Definition run_op (e : Engine) (op : IpamOp) (now tx_now : time) : Engine * option error :=
  match op with
  | OpSubnet i => let '(e', r) := upsert_subnet e i now tx_now [] in (e', result_err r)
  | OpDropSubnet cidr => delete_subnet e cidr tx_now []
  | OpReservation i => let '(e', r) := upsert_reservation e i now tx_now [] in (e', result_err r)
  | OpDropReservation mac => delete_reservation e mac tx_now []
  | OpAddress i => let '(e', r) := upsert_address e i now tx_now [] in (e', result_err r)
  | OpDropAddress ip => delete_stored_address e ip tx_now []
  end.

(** The tables. *)
Record Tables := mkTables {
  t_subnets : gmap bytes Subnet;
  t_reservations : gmap bytes Reservation;
  t_addresses : gmap bytes AddressRecord;
}.

Definition ipam_view (e : Engine) (t : Tables) : Prop :=
  ipam_state e (t_subnets t) (t_reservations t) (t_addresses t).

Record tables_ok (t : Tables) : Prop := {
  to_subnets : subnets_ok (t_subnets t);
  to_reservations : reservations_ok (t_reservations t);
  to_addresses : addresses_ok (t_addresses t);
}.

Lemma empty_tables_ok : tables_ok (mkTables ∅ ∅ ∅).
Proof. split; [split|split|]; intros *; simpl; rewrite ?lookup_empty; done. Qed.

(** The effect of an operation that the checks of the code accept. *)
Definition ipam_effect (e : Engine) (op : IpamOp) (now : time) (t : Tables) : option Tables :=
  match op with
  | OpSubnet i =>
      s ← subnet_to_write e i now;
      Some (mkTables (<[sn_cidr s := s]> (t_subnets t)) (t_reservations t) (t_addresses t))
  | OpDropSubnet cidr =>
      Some (mkTables (base.delete (trim_space cidr) (t_subnets t)) (t_reservations t) (t_addresses t))
  | OpReservation i =>
      match validate_reservation e i now with
      | Ok r => Some (mkTables (t_subnets t) (<[rv_mac r := r]> (t_reservations t)) (t_addresses t))
      | _ => None
      end
  | OpDropReservation mac =>
      Some (mkTables (t_subnets t) (base.delete (ipam_normalize_mac mac) (t_reservations t)) (t_addresses t))
  | OpAddress i =>
      match validate_address e i now with
      | Ok r => Some (mkTables (t_subnets t) (t_reservations t) (<[ad_ip r := r]> (t_addresses t)))
      | _ => None
      end
  | OpDropAddress ip =>
      Some (mkTables (t_subnets t) (t_reservations t) (base.delete (trim_space ip) (t_addresses t)))
  end.

(** The row of an operation fits the log. *)
Definition op_fits (e : Engine) (op : IpamOp) (now : time) : Prop :=
  match op with
  | OpSubnet i => ∀ s, subnet_to_write e i now = Some s → row_fits (sn_cidr s) s
  | OpDropSubnet cidr => zlen (trim_space cidr) < 4096
  | OpReservation i => ∀ r, validate_reservation e i now = Ok r → row_fits (rv_mac r) r
  | OpDropReservation mac => zlen (ipam_normalize_mac mac) < 4096
  | OpAddress i => ∀ r, validate_address e i now = Ok r → row_fits (ad_ip r) r
  | OpDropAddress ip => zlen (trim_space ip) < 4096
  end.

Lemma subnet_to_write_some e i now s :
  subnet_to_write e i now = Some s →
  ∃ s0, validate_subnet e i = Ok s0 ∧ sn_cidr s = sn_cidr s0 ∧ ∃ p, subnet_wf s p.
Proof.
  unfold subnet_to_write. destruct (validate_subnet e i) as [s0| |] eqn:Ev; [|done..]. intros [= <-].
  exists s0. split; [done|]. split; [done|]. unfold validate_subnet in Ev.
  destruct (validate_subnet_input i) as [s1| |] eqn:Ei; [|done..]. cbn [mbind result_bind] in Ev.
  destruct (find_overlap _ _); [done|]. injection Ev as <-.
  destruct (validate_input_wf _ _ Ei) as [p []]. by exists p.
Qed.

(** An accepted operation does its effect, a rejected one gives an error and
    changes nothing. *)
Lemma run_op_effect e t op now tx_now :
  ipam_view e t → op_fits e op now →
  match ipam_effect e op now t with
  | Some t' => ∃ e', run_op e op now tx_now = (e', None) ∧ ipam_view e' t'
  | None => ∃ er, run_op e op now tx_now = (e, Some er)
  end.
Proof.
  intros [He Hs Hr Ha] Hf. destruct ipam_trees_ok as (Ts & Tr & Ta). destruct op as [i|c|i|m|i|ip]; cbn [run_op ipam_effect op_fits] in *.
  - unfold upsert_subnet, subnet_to_write in *. destruct (validate_subnet e i) as [s| |]; [|by eexists..]. cbn [mbind option_bind].
    set (s' := s <| sn_created_at := _ |> <| sn_updated_at := now |>) in *.
    destruct (row_put_table treeSubnets e _ (sn_cidr s') s' tx_now Ts He Hs (Hf _ eq_refl)) as (e' & E & He' & Ht & Hsb).
    rewrite E. exists e'. split; [done|]. split; [done|done| |]; eapply table_same_but; try done.
  - destruct (row_delete_table treeSubnets e _ (trim_space c) tx_now Ts He Hs Hf) as (e' & E & He' & Ht & Hsb).
    exists e'. split; [exact E|]. split; [done|done| |]; eapply table_same_but; try done.
  - unfold upsert_reservation in *. destruct (validate_reservation e i now) as [r| |]; [|by eexists..].
    destruct (row_put_table treeReservations e _ (rv_mac r) r tx_now Tr He Hr (Hf _ eq_refl)) as (e' & E & He' & Ht & Hsb).
    rewrite E. exists e'. split; [done|]. split; [done| |done|]; eapply table_same_but; try done.
  - destruct (row_delete_table treeReservations e _ (ipam_normalize_mac m) tx_now Tr He Hr Hf) as (e' & E & He' & Ht & Hsb).
    exists e'. split; [exact E|]. split; [done| |done|]; eapply table_same_but; try done.
  - unfold upsert_address in *. destruct (validate_address e i now) as [r| |]; [|by eexists..].
    destruct (row_put_table treeAddresses e _ (ad_ip r) r tx_now Ta He Ha (Hf _ eq_refl)) as (e' & E & He' & Ht & Hsb).
    rewrite E. exists e'. split; [done|]. split; [done| | |done]; eapply table_same_but; try done.
  - destruct (row_delete_table treeAddresses e _ (trim_space ip) tx_now Ta He Ha Hf) as (e' & E & He' & Ht & Hsb).
    exists e'. split; [exact E|]. split; [done| | |done]; eapply table_same_but; try done.
Qed.

Lemma subnets_ok_delete k ms : subnets_ok ms → subnets_ok (base.delete k ms).
Proof.
  intros [Hw Hd]. split.
  - intros k' s [_ Hk]%lookup_delete_Some. by apply Hw.
  - intros k1 k2 s1 s2 p1 p2 a [_ H1']%lookup_delete_Some [_ H2']%lookup_delete_Some. by apply (Hd k1 k2 s1 s2).
Qed.

Lemma reservations_ok_delete k mr : reservations_ok mr → reservations_ok (base.delete k mr).
Proof.
  intros [Hw Hd]. split.
  - intros k' s [_ Hk]%lookup_delete_Some. by apply Hw.
  - intros k1 k2 s1 s2 [_ H1']%lookup_delete_Some [_ H2']%lookup_delete_Some. by apply (Hd k1 k2 s1 s2).
Qed.

Lemma reservations_ok_insert mr r :
  reservations_ok mr → reservation_wf r →
  (∀ k r', mr !! k = Some r' → rv_ip r' = rv_ip r → k = rv_mac r) →
  reservations_ok (<[rv_mac r := r]> mr).
Proof.
  intros [Hw Hd] Hr Hu. split.
  - intros k x [[<- <-]|[Hne Hx]]%lookup_insert_Some; [done|by apply Hw].
  - intros k k' x x' [[<- <-]|[Hne Hx]]%lookup_insert_Some [[<- <-]|[Hne' Hx']]%lookup_insert_Some Hip.
    + done.
    + symmetry. by apply (Hu k' x').
    + by apply (Hu k x).
    + by apply (Hd k k' x x').
Qed.

(** The effects keep the tables well formed. *)
Lemma ipam_effect_ok e t t' op now :
  ipam_view e t → tables_ok t → ipam_effect e op now t = Some t' → tables_ok t'.
Proof.
  intros Hv [Hs Hr Ha]. destruct op as [i|c|i|m|i|ip]; cbn [ipam_effect].
  - destruct (subnet_to_write e i now) as [s|] eqn:Es; [|done]. intros [= <-]. split; [|done..].
    apply subnet_to_write_some in Es as (s0 & Hv0 & Hc & Hw). by eapply subnets_ok_insert.
  - intros [= <-]. split; [by apply subnets_ok_delete|done..].
  - destruct (validate_reservation e i now) as [r| |] eqn:Er; [|done..]. intros [= <-]. split; [done| |done].
    destruct (validate_reservation_wf _ _ _ _ _ _ _ Hv Hr Er) as (Hw & _ & Hu & _). by apply reservations_ok_insert.
  - intros [= <-]. split; [done|by apply reservations_ok_delete|done].
  - destruct (validate_address e i now) as [r| |] eqn:Er; [|done..]. intros [= <-]. split; [done..|]. cbn [t_addresses].
    intros k x [[<- <-]|[Hne Hx]]%lookup_insert_Some; [|by apply Ha].
    split; [done|]. by eapply validate_address_wf.
  - intros [= <-]. split; [done..|]. cbn [t_addresses]. intros k x [_ Hx]%lookup_delete_Some. by apply Ha.
Qed.

(** * Sequences of operations *)

(** Each operation is given with the clock it reads. *)
Fixpoint run_ops (e : Engine) (ops : list (IpamOp * time)) : Engine :=
  match ops with
  | [] => e
  | (op, now) :: ops => run_ops (run_op e op now now).1 ops
  end.

Fixpoint ops_fit (e : Engine) (ops : list (IpamOp * time)) : Prop :=
  match ops with
  | [] => True
  | (op, now) :: ops => op_fits e op now ∧ ops_fit (run_op e op now now).1 ops
  end.

Lemma run_ops_ok ops : ∀ e t,
  ipam_view e t → tables_ok t → ops_fit e ops →
  ∃ t', ipam_view (run_ops e ops) t' ∧ tables_ok t'.
Proof.
  induction ops as [|[op now] ops IH]; intros e t Hv Hok Hf; [by exists t|]. cbn [run_ops ops_fit] in *.
  destruct Hf as [Hop Hf]. pose proof (run_op_effect e t op now now Hv Hop) as Hrun.
  destruct (ipam_effect e op now t) as [t'|] eqn:Ee.
  - destruct Hrun as (e' & E & Hv'). rewrite E in *. apply (IH e' t'); [done| |done]. by apply (ipam_effect_ok e t t' op now).
  - destruct Hrun as (er & E). rewrite E in *. by apply (IH e t).
Qed.
End ops.
