(* ===== verification/IpamView.v ===== *)
(** The merged view of an address: the listing and the single lookup.

    Both fold the same three sources over the records: the stored addresses, the
    reservations and the leases.  [view_of] is the record the sources make for one
    address; the lookup computes it directly, the listing through a map. *)

From S2P Require Import Prelude.
From S2P Require Import GoBytes.
From S2P Require Import GoStrings.
From S2P Require Import GoTime.
From S2P Require Import GoJson.
From S2P Require Import GoNet.
From S2P Require Import GoNet6.
From S2P Require Import GoPrefix.
From S2P Require Import GoSort.
From S2P Require Import Wal.
From S2P Require Import StorageEngine.
From S2P Require Import StorageSpec.
From S2P Require Import RowTable.
From S2P Require Import Lease.
From S2P Require Import LeaseInterface.
From S2P Require Import Ipam.
From S2P Require Import IpamSpec.
From S2P Require Import IpamOps.

(** A list with unique keys has at most one element of a key. *)
Lemma filter_unique {A} (f : A → bytes) (l : list A) k :
  NoDup (f <$> l) →
  filter (λ x, f x = k) l = [] ∨ ∃ x, filter (λ x, f x = k) l = [x] ∧ x ∈ l ∧ f x = k.
Proof.
  induction l as [|x l IH]; [by left|]. rewrite fmap_cons. intros [Hx Hn]%NoDup_cons.
  rewrite filter_cons. case_decide as E.
  - right. exists x. split; [|split; [by left|done]]. f_equal.
    destruct (IH Hn) as [-> |(y & -> & Hy & Ey)]; [done|]. exfalso. apply Hx.
    apply list_elem_of_fmap. exists y. by rewrite Ey.
  - destruct (IH Hn) as [-> |(y & -> & Hy & Ey)]; [by left|]. right. exists y. split; [done|]. split; [by right|done].
Qed.

Section view.
Context `{UnicodeTables} `{SliceSort} `{Json Subnet} `{Json Reservation} `{Json AddressRecord}.

(** One more source. *)
Definition merge_opt (out : option AddressRecord) (r : AddressRecord) : option AddressRecord :=
  Some (merge_address_record (default zero_record out) r).

Lemma merge_into_lookup l : ∀ m k,
  foldl merge_into m l !! k = foldl merge_opt (m !! k) (filter (λ r, ad_ip r = k) l).
Proof.
  induction l as [|r l IH]; intros m k; [done|]. cbn [foldl]. rewrite IH, filter_cons. unfold merge_into.
  case_decide as E.
  - cbn [foldl]. subst k. by rewrite lookup_insert_eq.
  - by rewrite lookup_insert_ne by done.
Qed.

(** ** Merging *)

Lemma merge_ip current next :
  ad_ip (merge_address_record current next) = if bool_decide (ad_ip current = []) then ad_ip next else ad_ip current.
Proof.
  unfold merge_address_record. destruct (bool_decide (ad_ip current = [])); [done|]. cbv zeta.
  destruct (_ && _); [done|]. destruct (_ <? _); done.
Qed.

(** ** Conflicts *)

(** Two records name different hardware addresses, or one is a conflict itself. *)
Definition clash (ps : list AddressRecord) : Prop :=
  (∃ r r', r ∈ ps ∧ r' ∈ ps ∧ ad_mac r ≠ [] ∧ ad_mac r' ≠ [] ∧ ad_mac r ≠ ad_mac r') ∨
  ∃ r, r ∈ ps ∧ ad_state r = IPStateConflict.

(** The record merged from [ps] knows their conflicts. *)
Record merged (ps : list AddressRecord) (x : AddressRecord) : Prop := {
  mg_mac : ad_mac x ≠ [] → ∃ r, r ∈ ps ∧ ad_mac r = ad_mac x;
  mg_no_mac : ad_mac x = [] → ∀ r, r ∈ ps → ad_mac r = [];
  mg_state : ad_state x = IPStateConflict ↔ clash ps;
}.

Lemma rank_conflict s : 5 ≤ rank_state s → s = IPStateConflict.
Proof. unfold rank_state. repeat case_bool_decide; done || lia. Qed.

Lemma rank_state_max s : rank_state s ≤ 5.
Proof. unfold rank_state. repeat case_bool_decide; lia. Qed.

Lemma merged_one x : merged [x] x.
Proof.
  split.
  - intros _. exists x. split; [by left|done].
  - intros E r ->%list_elem_of_singleton. done.
  - split.
    + intros E. right. exists x. split; [by left|done].
    + intros [(r & r' & ->%list_elem_of_singleton & ->%list_elem_of_singleton & _ & _ & ?)
        |(r & ->%list_elem_of_singleton & ?)]; done.
Qed.

(** The state when the hardware addresses agree. *)
Lemma higher_state_conflict x n :
  (if rank_state x <? rank_state n then n else x) = IPStateConflict ↔ x = IPStateConflict ∨ n = IPStateConflict.
Proof.
  assert (H5 : rank_state IPStateConflict = 5) by done.
  pose proof (rank_state_max x). pose proof (rank_state_max n).
  destruct (Z.ltb_spec (rank_state x) (rank_state n)); split; try tauto.
  - intros [-> | ->]; [lia|done].
  - intros [-> | ->]; [done|]. apply rank_conflict. lia.
Qed.

Lemma clash_snoc ps n :
  clash (ps ++ [n]) ↔ clash ps ∨ ad_state n = IPStateConflict ∨
    ∃ r, r ∈ ps ∧ ad_mac r ≠ [] ∧ ad_mac n ≠ [] ∧ ad_mac r ≠ ad_mac n.
Proof.
  unfold clash. setoid_rewrite elem_of_app. setoid_rewrite list_elem_of_singleton. split.
  - intros [(r & r' & [Hr| ->] & [Hr'| ->] & H1' & H2' & H3')|(r & [Hr| ->] & Hc)]; [|right; right..| |tauto].
    + left. left. by exists r, r'.
    + by exists r.
    + exists r'. by split_and!.
    + done.
    + left. right. by exists r.
  - intros [[(r & r' & ? & ? & ?)|(r & ? & ?)]|[Hc|(r & ? & ?)]].
    + left. exists r, r'. tauto.
    + right. exists r. tauto.
    + right. exists n. tauto.
    + left. exists r, n. naive_solver.
Qed.

Lemma merged_snoc ps x n :
  ad_ip x ≠ [] → merged ps x → merged (ps ++ [n]) (merge_address_record x n).
Proof.
  intros Hip [Hm Hn Hst]. unfold merge_address_record. rewrite bool_decide_eq_false_2 by done. cbv zeta.
  set (out := mkAddressRecord _ _ _ _ _ _ _ _).
  assert (Hmac : ad_mac out = fill (ad_mac x) (ad_mac n)) by done.
  assert (Hfill : (ad_mac out ≠ [] → ∃ r, r ∈ ps ++ [n] ∧ ad_mac r = ad_mac out) ∧
    (ad_mac out = [] → ∀ r, r ∈ ps ++ [n] → ad_mac r = [])).
  { rewrite Hmac. unfold fill. destruct (decide (ad_mac x = [])) as [E|E].
    - rewrite bool_decide_eq_true_2 by done. split.
      + intros _. exists n. split; [apply elem_of_app; right; by left|done].
      + intros En r [Hr| ->%list_elem_of_singleton]%elem_of_app; [by apply Hn|done].
    - rewrite bool_decide_eq_false_2 by done. split; [|done].
      intros _. destruct (Hm E) as (r & Hr & Er). exists r. split; [apply elem_of_app; by left|done]. }
  destruct Hfill as [F1 F2].
  assert (Hsplit : ∀ s, (s = IPStateConflict ↔ clash (ps ++ [n])) → merged (ps ++ [n]) (out <| ad_state := s |>)).
  { intros s Hs. by split. }
  destruct (negb (bool_decide (ad_mac out = [])) && negb (bool_decide (ad_mac n = [])) &&
    negb (bool_decide (ad_mac out = ad_mac n))) eqn:E.
  - rewrite !andb_true_iff, !negb_true_iff, !bool_decide_eq_false in E. destruct E as [[E1 E2] E3].
    apply Hsplit. split; [intros _|done]. apply clash_snoc. right. right.
    rewrite Hmac in E1, E3. unfold fill in E1, E3. destruct (bool_decide (ad_mac x = [])) eqn:Ex; [done|].
    apply bool_decide_eq_false in Ex. destruct (Hm Ex) as (r & Hr & Er). exists r. rewrite Er. done.
  - assert (Hagree : clash (ps ++ [n]) ↔ ad_state x = IPStateConflict ∨ ad_state n = IPStateConflict).
    { rewrite clash_snoc, Hst. split; [|tauto]. intros [?|[?|(r & Hr & R1 & R2 & R3)]]; [tauto..|].
      left. left. assert (ad_mac x ≠ []) as Ex by (intros Ex; by apply R1, Hn).
      assert (ad_mac x = ad_mac n) as Exn.
      { rewrite Hmac in E. unfold fill in E. rewrite (bool_decide_eq_false_2 (ad_mac x = [])) in E by done.
        rewrite !bool_decide_eq_false_2 in E by done. simpl in E. by destruct (bool_decide_reflect (ad_mac x = ad_mac n)). }
      destruct (Hm Ex) as (r0 & Hr0 & Er0). exists r, r0. split_and!; [done|done|done|congruence|congruence]. }
    change (ad_state out) with (ad_state x). rewrite <-higher_state_conflict in Hagree.
    destruct (rank_state (ad_state x) <? rank_state (ad_state n)).
    + apply Hsplit. by rewrite Hagree.
    + specialize (Hsplit (ad_state x)). change (out <| ad_state := ad_state x |>) with out in Hsplit.
      apply Hsplit. by rewrite Hagree.
Qed.

Lemma fold_merged k l : k ≠ [] → ∀ ps x,
  ad_ip x = k → merged ps x → Forall (λ r, ad_ip r = k) l →
  ∃ y, foldl merge_opt (Some x) l = Some y ∧ ad_ip y = k ∧ merged (ps ++ l) y.
Proof.
  intros Hk. induction l as [|n l IH]; intros ps x Hx Hm Hl.
  { exists x. by rewrite app_nil_r. }
  apply Forall_cons in Hl as [Hn Hl]. cbn [foldl].
  destruct (IH (ps ++ [n]) (merge_address_record x n)) as (y & Ey & Hy & My); [..|done|].
  - rewrite merge_ip. by rewrite Hx, bool_decide_eq_false_2.
  - apply merged_snoc; [congruence|done].
  - exists y. split; [exact Ey|]. split; [done|]. by rewrite <-app_assoc in My.
Qed.

(** The merge of the records of one address. *)
Lemma fold_merge_merged k l : k ≠ [] → Forall (λ r, ad_ip r = k) l →
  match foldl merge_opt None l with
  | Some y => ad_ip y = k ∧ merged l y
  | None => l = []
  end.
Proof.
  intros Hk Hl. destruct l as [|x l]; [done|]. apply Forall_cons in Hl as [Hx Hl]. cbn [foldl].
  destruct (fold_merged k l Hk [x] x Hx (merged_one x) Hl) as (y & Ey & Hy & My).
  unfold merge_opt at 2. change (merge_address_record (default zero_record None) x) with x. by rewrite Ey.
Qed.

(** ** The three sources *)

Context {S : Type} `{LeaseStore S} `{!LeaseStoreLaws S}.

(** The records of an address, in the order they are merged. *)
Definition view_sources (subnets : list Subnet) (stored : list AddressRecord) (reservations : list Reservation)
    (leases : list Lease) (ip : bytes) : list AddressRecord :=
  filter (λ r, ad_ip r = ip) stored ++
  (reservation_record <$> filter (λ r, rv_ip r = ip) reservations) ++
  ((λ l, lease_record l (lease_subnet subnets l (trim_space (l_ip l)))) <$> filter (λ l, l_ip l = ip) leases).

(** The record of an address. *)
Definition view_of (subnets : list Subnet) (stored : list AddressRecord) (reservations : list Reservation)
    (leases : list Lease) (ip : bytes) : option AddressRecord :=
  foldl merge_opt None (view_sources subnets stored reservations leases ip).

Lemma filter_all {A} (P : A → Prop) `{∀ x, Decision (P x)} (l : list A) : (∀ x, P x) → filter P l = l.
Proof. intros Hp. induction l as [|x l IH]; [done|]. rewrite filter_cons_True by done. by f_equal. Qed.

Lemma filter_fmap_ip {A} (f : A → AddressRecord) (g : A → bytes) k (l : list A) :
  (∀ a, ad_ip (f a) = g a) → filter (λ r, ad_ip r = k) (f <$> l) = f <$> filter (λ a, g a = k) l.
Proof.
  intros Hf. induction l as [|a l IH]; [done|]. rewrite fmap_cons, !filter_cons, IH.
  destruct (decide (g a = k)) as [E|E].
  - rewrite decide_True by (by rewrite Hf). done.
  - rewrite decide_False by (by rewrite Hf). done.
Qed.

Lemma gather_records_lookup subnets stored reservations leases k :
  gather_records subnets [] stored reservations leases !! k = view_of subnets stored reservations leases k.
Proof.
  unfold gather_records, view_of, view_sources. rewrite !filter_all by done. rewrite !merge_into_lookup, lookup_empty, !foldl_app.
  rewrite (filter_fmap_ip _ rv_ip) by done. by rewrite (filter_fmap_ip _ l_ip) by done.
Qed.

Lemma view_sources_ip subnets stored reservations leases k :
  Forall (λ r, ad_ip r = k) (view_sources subnets stored reservations leases k).
Proof.
  unfold view_sources. rewrite !Forall_app, !Forall_fmap.
  split; [|split]; apply Forall_forall; by intros x [? _]%list_elem_of_filter.
Qed.

Lemma view_of_ip subnets stored reservations leases k r :
  k ≠ [] → view_of subnets stored reservations leases k = Some r → ad_ip r = k.
Proof.
  intros Hk Hv. pose proof (fold_merge_merged k _ Hk (view_sources_ip subnets stored reservations leases k)) as Hf.
  fold (view_of subnets stored reservations leases k) in Hf. rewrite Hv in Hf. apply Hf.
Qed.

(** A record with no address replaces another. *)
Lemma view_of_nil subnets stored reservations leases r :
  view_of subnets stored reservations leases [] = Some r → ad_ip r = [].
Proof.
  pose proof (view_sources_ip subnets stored reservations leases []) as Hf.
  change (view_of subnets stored reservations leases []) with
    (foldl merge_opt None (view_sources subnets stored reservations leases [])).
  revert Hf. generalize (view_sources subnets stored reservations leases []) as l. intros l Hf.
  assert (Hgen : ∀ out, (∀ x, out = Some x → ad_ip x = []) → ∀ x, foldl merge_opt out l = Some x → ad_ip x = []);
    [|by eapply Hgen].
  induction Hf as [|x l Hx _ IH]; intros out Ho; [done|]. cbn [foldl]. apply IH.
  intros y [= <-]. rewrite merge_ip. destruct (bool_decide (ad_ip (default zero_record out) = [])) eqn:E; [done|]. apply bool_decide_eq_false in E. destruct out as [z|]; [by destruct (E (Ho z eq_refl))|done].
Qed.

Definition no_filter : AddressFilter := mkAddressFilter [] [] [] 0.

(** An order of the range over a map. *)
Definition ranges_map (range : record_map → list AddressRecord) : Prop := ∀ m, range m ≡ₚ (map_to_list m).*2.

(** What the engine and the lease store hold. *)
Record sources (e : Engine) (leases : option S) (t : Tables) (subnets : list Subnet)
    (stored : list AddressRecord) (reservations : list Reservation) (ls : list Lease) : Prop := {
  src_view : ipam_view e t;
  src_subnets : list_subnets e = Ok subnets;
  src_stored : list_stored_addresses e = Ok stored;
  src_reservations : list_reservations e = Ok reservations;
  src_leases : listed_leases leases = ls;
  src_in_stored : stored ≡ₚ (map_to_list (t_addresses t)).*2;
  src_in_reservations : reservations ≡ₚ (map_to_list (t_reservations t)).*2;
}.

Lemma sources_exist e leases t :
  ipam_view e t → ∃ subnets stored reservations ls, sources e leases t subnets stored reservations ls.
Proof.
  intros Hv. destruct (list_subnets_spec _ _ _ _ Hv) as (subnets & Es & _).
  destruct (list_stored_spec _ _ _ _ Hv) as (st & Est & Hst).
  destruct (list_reservations_spec _ _ _ _ Hv) as (rs & Er & Hr).
  exists subnets, st, rs, (listed_leases leases). by split.
Qed.

(** The unfiltered listing has exactly the records of the view. *)
Lemma list_addresses_view e leases t subnets stored reservations ls range :
  sources e leases t subnets stored reservations ls → ranges_map range →
  ∃ out, list_addresses e leases no_filter range = Ok out ∧
    ∀ r, r ∈ out ↔ ∃ k, view_of subnets stored reservations ls k = Some r.
Proof.
  intros [Hv Es Est Er El _ _] Hrange. unfold list_addresses. rewrite Es, Est, Er, El. cbn [mbind result_bind].
  change (trim_space (af_subnet_cidr no_filter)) with (@nil byte).
  change (0 <? af_limit no_filter) with false. cbn [andb negb bool_decide fill_pool mbind result_bind].
  rewrite (bool_decide_eq_true_2 (@nil byte = [])) by done. cbn [negb andb mbind result_bind].
  eexists. split; [done|]. intros r. unfold sort_address_records. rewrite elem_of_sort_slice, list_elem_of_filter.
  change (matches_filter no_filter (to_lower (trim_space (af_query no_filter))) r) with true.
  assert (Hf : ∀ m, fill_pool subnets [] m = m) by done. rewrite Hf.
  rewrite elem_of_values by apply Hrange. split.
  - intros [_ [k Hk]]. exists k. by rewrite <-gather_records_lookup.
  - intros [k Hk]. split; [done|]. exists k. by rewrite gather_records_lookup.
Qed.

Lemma elem_of_keyed {A} (m : gmap bytes A) (l : list A) (key : A → bytes) k :
  l ≡ₚ (map_to_list m).*2 → (∀ k a, m !! k = Some a → key a = k) →
  filter (λ a, key a = k) l = match m !! k with Some a => [a] | None => [] end.
Proof.
  intros Hl Hkey.
  assert (Hn : NoDup (key <$> l)).
  { rewrite Hl. rewrite <-list_fmap_compose.
    assert (key ∘ snd <$> map_to_list m = (map_to_list m).*1) as ->.
    { apply list_fmap_ext. intros i [k' a] Hi. simpl. apply Hkey, elem_of_map_to_list. by eapply list_elem_of_lookup_2. }
    apply NoDup_fst_map_to_list. }
  assert (Hin : ∀ a, a ∈ l ∧ key a = k ↔ m !! k = Some a).
  { intros a. rewrite (elem_of_values m) by done. split.
    - intros [[k' Hk'] <-]. by rewrite (Hkey _ _ Hk').
    - intros Hk. split; [by exists k|by apply Hkey]. }
  destruct (filter_unique key l k Hn) as [E|(x & E & Hx & Ek)]; rewrite E.
  - destruct (m !! k) as [a|] eqn:Em; [|done]. exfalso.
    assert (a ∈ filter (λ a, key a = k) l) as Ha by (apply list_elem_of_filter; by apply and_comm, Hin).
    rewrite E in Ha. by apply elem_of_nil in Ha.
  - assert (m !! k = Some x) as -> by by apply Hin. done.
Qed.

(** The leases of an address. *)
Lemma listed_lease (leases : option S) (ls : S) m ip :
  leases = Some ls → ls_map ls m →
  filter (λ l, l_ip l = ip) (listed_leases leases) = match m !! ip with Some l => [l] | None => [] end.
Proof.
  intros -> Hm. simpl. destruct (ls_list_all_law ls m Hm) as (all & -> & Hn & Hin).
  destruct (filter_unique l_ip all ip Hn) as [E|(x & E & Hx & Ek)]; rewrite E.
  - destruct (m !! ip) as [l|] eqn:Em; [|done]. exfalso.
    assert (l_ip l = ip) as Hip by by eapply ls_keyed.
    assert (l ∈ filter (λ l, l_ip l = ip) all) as Ha.
    { apply list_elem_of_filter. split; [done|]. apply Hin. by rewrite Hip. }
    rewrite E in Ha. by apply elem_of_nil in Ha.
  - apply Hin in Hx. rewrite Ek in Hx. by rewrite Hx.
Qed.

Lemma filter_nil_fold {A} (l : list A) (P : A → Prop) `{∀ x, Decision (P x)} (f : A → AddressRecord) out :
  foldl (λ out r, Some (merge_address_record (default zero_record out) (f r))) out (filter P l) =
  foldl merge_opt out (f <$> filter P l).
Proof. generalize (filter P l) as l'. intros l'. revert out. induction l' as [|x l' IH]; intros out; [done|]. apply IH. Qed.

(** The lookup computes the view. *)
Lemma get_address_view e leases t subnets stored reservations ls ip a :
  sources e leases t subnets stored reservations ls → tables_ok t →
  (∀ s, leases = Some s → ∃ m, ls_map s m) →
  trim_space ip = ip → parse_addr ip = Ok a →
  get_address e leases ip =
    match view_of subnets stored reservations ls ip with
    | Some r => Ok r
    | None =>
        let cidr := infer_subnet_for_addr a subnets in
        if bool_decide (cidr = []) then Err ErrNotFound
        else Ok (mkAddressRecord ip cidr IPStateAvailable [] [] [] (bs "subnet") 0)
    end.
Proof.
  intros [Hv Es Est Er <- Hst Hrs] Hok Hls Hip Ha. unfold get_address. rewrite Hip, Ha, Es, Er. cbn [mbind result_bind].
  assert (Hget : get_stored_address e ip = match t_addresses t !! ip with Some r => Ok r | None => Err ErrNotFound end).
  { unfold get_stored_address. rewrite Hip. apply row_get_table. apply Hv. }
  unfold view_of, view_sources. rewrite !foldl_app. rewrite filter_nil_fold.
  rewrite (elem_of_keyed (t_addresses t) stored ad_ip) by (done || (intros k r Hk; by apply (to_addresses _ Hok))).
  assert (Hfin : ∀ out1 : option AddressRecord, match leases with
    | Some s => match ls_get_by_ip s ip with
        | Ok l => Some (merge_address_record (default zero_record out1) (lease_record l (lease_subnet subnets l ip)))
        | _ => out1 end
    | None => out1 end =
    foldl merge_opt out1 ((λ l, lease_record l (lease_subnet subnets l (trim_space (l_ip l)))) <$>
      filter (λ l, l_ip l = ip) (listed_leases leases))).
  { intros out1. destruct leases as [s|]; [|done]. destruct (Hls s eq_refl) as [m Hm].
    rewrite (listed_lease (Some s) s m ip) by done. rewrite (ls_get_by_ip_law s m ip Hm).
    destruct (m !! ip) as [l|] eqn:Em; [|done]. cbn.
    by rewrite (ls_keyed _ _ _ _ Hm Em), Hip. }
  rewrite Hget. destruct (t_addresses t !! ip) as [st|]; rewrite Hfin; done.
Qed.

(** ** The sources of an address, in the tables *)

(** A hardware address and a state that a source gives an address. *)
Inductive source (t : Tables) (m : lease_map) (ip : bytes) : bytes → bytes → Prop :=
| source_stored r : t_addresses t !! ip = Some r → source t m ip (ad_mac r) (ad_state r)
| source_reservation k r : t_reservations t !! k = Some r → rv_ip r = ip → source t m ip k IPStateReserved
| source_lease l : m !! ip = Some l → source t m ip (ipam_normalize_mac (l_mac l)) (lease_to_ip_state l).

Lemma source_of_record e (s : S) t m subnets stored reservations ls ip mac st :
  sources e (Some s) t subnets stored reservations ls → tables_ok t → ls_map s m →
  source t m ip mac st ↔
  ∃ r, r ∈ view_sources subnets stored reservations ls ip ∧ ad_mac r = mac ∧ ad_state r = st.
Proof.
  intros Hsrc Hok Hm. unfold view_sources.
  rewrite (elem_of_keyed (t_addresses t) stored ad_ip) by (apply Hsrc || (intros k r Hk; by apply (to_addresses _ Hok))).
  rewrite <-(src_leases _ _ _ _ _ _ _ Hsrc), (listed_lease (Some s) s m ip) by done. split.
  - intros [r Hr|k r Hr Hip|l Hl].
    + exists r. rewrite Hr. split; [by left|done].
    + exists (reservation_record r). destruct (ro_wf _ (to_reservations _ Hok) _ _ Hr) as [<- _].
      split; [|done]. apply elem_of_app. right. apply elem_of_app. left. apply list_elem_of_fmap_2, list_elem_of_filter.
      split; [done|]. apply (elem_of_values (t_reservations t)); [by apply Hsrc|]. by eexists.
    + rewrite Hl. exists (lease_record l (lease_subnet subnets l (trim_space (l_ip l)))).
      split; [|done]. apply elem_of_app. right. apply elem_of_app. right.
      apply list_elem_of_fmap. exists l. split; [done|by left].
  - intros (r & [Hr|[Hr|Hr]%elem_of_app]%elem_of_app & <- & <-).
    + destruct (t_addresses t !! ip) as [r'|] eqn:E; [|by apply elem_of_nil in Hr].
      apply list_elem_of_singleton in Hr as ->. by constructor.
    + apply list_elem_of_fmap in Hr as (x & -> & [Hip Hx]%list_elem_of_filter).
      apply (elem_of_values (t_reservations t)) in Hx as [k Hk]; [|by apply Hsrc].
      destruct (ro_wf _ (to_reservations _ Hok) _ _ Hk) as [<- _]. by eapply source_reservation.
    + apply list_elem_of_fmap in Hr as (l & -> & Hl). destruct (m !! ip) as [l'|] eqn:E; [|by apply elem_of_nil in Hl].
      apply list_elem_of_singleton in Hl as ->. by constructor.
Qed.

Lemma clash_sources e (s : S) t m subnets stored reservations ls ip :
  sources e (Some s) t subnets stored reservations ls → tables_ok t → ls_map s m →
  clash (view_sources subnets stored reservations ls ip) ↔
    (∃ mac mac' st st', source t m ip mac st ∧ source t m ip mac' st' ∧ mac ≠ [] ∧ mac' ≠ [] ∧ mac ≠ mac') ∨
    ∃ mac, source t m ip mac IPStateConflict.
Proof.
  intros Hsrc Hok Hm. pose proof (λ mac st, source_of_record e s t m _ _ _ _ ip mac st Hsrc Hok Hm) as Hs.
  unfold clash. setoid_rewrite Hs. split.
  - intros [(r & r' & Hr & Hr' & H1' & H2' & H3')|(r & Hr & Hc)]; [left|right].
    + exists (ad_mac r), (ad_mac r'), (ad_state r), (ad_state r'). split; [by exists r|]. split; [by exists r'|done].
    + exists (ad_mac r). by exists r.
  - intros [(mac & mac' & st & st' & (r & Hr & <- & _) & (r' & Hr' & <- & _) & ?)|(mac & r & Hr & _ & Hc)].
    + left. by exists r, r'.
    + right. by exists r.
Qed.
End view.
