(* ===== verification/IpamTheorems.v ===== *)
(** The theorems on the IPAM engine. *)

From S2P Require Import Prelude.
From S2P Require Import GoBytes.
From S2P Require Import GoStrings.
From S2P Require Import GoTime.
From S2P Require Import GoJson.
From S2P Require Import GoNet.
From S2P Require Import GoNet6.
From S2P Require Import GoPrefix.
From S2P Require Import GoPort.
From S2P Require Import GoSort.
From S2P Require Import IpamCidr.
From S2P Require Import ConfigTypes.
From S2P Require Import Wal.
From S2P Require Import StorageEngine.
From S2P Require Import StorageSpec.
From S2P Require Import StorageTheorems.
From S2P Require Import RowTable.
From S2P Require Import Lease.
From S2P Require Import LeaseStore.
From S2P Require Import LeaseInterface.
From S2P Require Import LeaseSpec.
From S2P Require Import LeaseTheorems.
From S2P Require Import Ipam.
From S2P Require Import IpamSpec.
From S2P Require Import IpamOps.
From S2P Require Import IpamView.

Section theorems.
Context `{UnicodeTables} `{SliceSort} `{Json Subnet} `{Json Reservation} `{Json AddressRecord}.

(** C16: the tables of the IPAM engine are well formed and stay so.  After any
    sequence of writes and deletes of subnets, reservations and addresses whose
    rows fit the log, every stored subnet is keyed by the text of a masked
    prefix that contains its gateway and its pool range, its VLAN and lease time
    are in range, no two subnets share an address; every reservation is keyed by
    its normalized hardware address and no address is reserved twice; every
    stored address has a known state; and reservations and addresses are inside
    the prefix of the subnet they name. *)
Theorem ipam_tables_stay_ok e t ops :
  ipam_view e t → tables_ok t → ops_fit e ops →
  ∃ t', ipam_view (run_ops e ops) t' ∧ tables_ok t'.
Proof. apply run_ops_ok. Qed.

(** C17: each write of the IPAM engine does to the tables what it means to, and
    nothing else: an input that the checks accept inserts (or removes) the one
    row and gives no error, one that they reject gives an error and leaves the
    storage engine as it was.  A subnet whose fields are fine is accepted exactly
    when it shares no address with another stored subnet. *)
Theorem ipam_writes_refine e t op now tx_now :
  ipam_view e t → tables_ok t → op_fits e op now →
  match ipam_effect e op now t with
  | Some t' => ∃ e', run_op e op now tx_now = (e', None) ∧ ipam_view e' t'
  | None => ∃ er, run_op e op now tx_now = (e, Some er)
  end ∧
  ∀ i s p, validate_subnet_input i = Ok s → parse_prefix (sn_cidr s) = Ok p →
    validate_subnet e i = Ok s ↔
    ∀ k p' a, k ∈ dom (t_subnets t) → k ≠ sn_cidr s → parse_prefix k = Ok p' → member p' a → ¬ member p a.
Proof.
  intros Hv Hok Hf. split; [by apply run_op_effect|]. intros i s p Hi Hp. exact (validate_subnet_iff e _ _ _ i s p Hv (to_subnets _ Hok) Hi Hp).
Qed.

Context {S : Type} `{LeaseStore S} `{!LeaseStoreLaws S}.

(** The single lookup of an address agrees with the listing.  For an address
    text without surrounding space, the record the lookup gives is the one the
    unfiltered listing has, when it has one; otherwise the lookup says that the
    address is available in the first subnet that contains it, or that it is not
    found. *)
Theorem lookup_agrees_with_listing e leases t range ip a :
  ipam_view e t → tables_ok t → (∀ s : S, leases = Some s → ∃ m, ls_map s m) →
  ranges_map range → trim_space ip = ip → parse_addr ip = Ok a →
  ∃ out subnets, list_addresses e leases no_filter range = Ok out ∧ list_subnets e = Ok subnets ∧
    ((∃ r, get_address e leases ip = Ok r ∧ ad_ip r = ip ∧ ∀ r', r' ∈ out ∧ ad_ip r' = ip ↔ r' = r) ∨
     ((∀ r', r' ∈ out → ad_ip r' ≠ ip) ∧
      get_address e leases ip =
        let cidr := infer_subnet_for_addr a subnets in
        if bool_decide (cidr = []) then Err ErrNotFound
        else Ok (mkAddressRecord ip cidr IPStateAvailable [] [] [] (bs "subnet") 0))).
Proof.
  intros Hv Hok Hls Hr Hip Ha.
  destruct (sources_exist e leases t Hv) as (subnets & stored & reservations & ls & Hsrc).
  destruct (list_addresses_view _ _ _ _ _ _ _ _ Hsrc Hr) as (out & El & Hout).
  exists out, subnets. split; [done|]. split; [by apply Hsrc|].
  rewrite (get_address_view _ _ _ _ _ _ _ _ _ Hsrc Hok Hls Hip Ha).
  assert (Hne : ip ≠ []) by (intros ->; by vm_compute in Ha).
  assert (Hk : ∀ k r, view_of subnets stored reservations ls k = Some r → ad_ip r = ip → k = ip).
  { intros k r Hk Er. destruct (decide (k = [])) as [-> |Hk0]; [|by rewrite <-Er; symmetry; eapply view_of_ip].
    exfalso. apply Hne. rewrite <-Er. by eapply view_of_nil. }
  destruct (view_of subnets stored reservations ls ip) as [r|] eqn:E.
  - left. exists r. split; [done|]. split; [by eapply view_of_ip|]. intros r'. split.
    + intros [[k Hr']%Hout Er']. rewrite (Hk _ _ Hr' Er') in Hr'. congruence.
    + intros ->. split; [apply Hout; by exists ip|by eapply view_of_ip].
  - right. split; [|done]. intros r' [k Hr']%Hout Er'. rewrite (Hk _ _ Hr' Er') in Hr'. congruence.
Qed.

(** Two owners of one address are reported.  The record of an address is in
    the state conflict exactly when two of its sources, among the stored address,
    the reservations and the lease, name different hardware addresses, or one of
    them is in conflict itself (a stored conflict or a declined lease). *)
Theorem conflicts_are_reported e (s : S) t m ip a r :
  ipam_view e t → tables_ok t → ls_map s m → trim_space ip = ip → parse_addr ip = Ok a →
  get_address e (Some s) ip = Ok r →
  ad_state r = IPStateConflict ↔
    (∃ mac mac' st st', source t m ip mac st ∧ source t m ip mac' st' ∧ mac ≠ [] ∧ mac' ≠ [] ∧ mac ≠ mac') ∨
    ∃ mac, source t m ip mac IPStateConflict.
Proof.
  intros Hv Hok Hm Hip Ha Hget.
  destruct (sources_exist e (Some s) t Hv) as (subnets & stored & reservations & ls & Hsrc).
  rewrite (get_address_view _ _ _ _ _ _ _ _ _ Hsrc Hok ltac:(intros ? [= <-]; by exists m) Hip Ha) in Hget.
  rewrite <-(clash_sources e s t m subnets stored reservations ls ip) by done.
  assert (Hne : ip ≠ []) by (intros ->; by vm_compute in Ha).
  pose proof (fold_merge_merged ip _ Hne (view_sources_ip subnets stored reservations ls ip)) as Hf.
  unfold view_of in Hget. destruct (foldl merge_opt None _) as [y|].
  - injection Hget as ->. apply Hf.
  - rewrite Hf. destruct (bool_decide _); [done|]. injection Hget as <-.
    split; [done|]. intros [(x & y & Hx & _)|(x & Hx & _)]; by apply elem_of_nil in Hx.
Qed.
End theorems.

(** * Witnesses *)

#[local] Existing Instance ascii_tables.
#[local] Existing Instance small_slices.
#[local] Existing Instance packed_lease.

Definition subnet_fields (s : Subnet) : list bytes :=
  [sn_cidr s; sn_name s; put_int (sn_vlan s); sn_gateway s; put_list (sn_dns s);
   put_bool (dp_enabled (sn_dhcp s)); dp_pool_start (sn_dhcp s); dp_pool_end (sn_dhcp s);
   put_int (dp_lease_time_sec (sn_dhcp s)); put_int (sn_created_at s); put_int (sn_updated_at s)].
Definition subnet_of_fields (fs : list bytes) : option Subnet :=
  match fs with
  | [f1; f2; f3; f4; f5; f6; f7; f8; f9; f10; f11] =>
      Some (mkSubnet f1 f2 (get_int f3) f4 (get_list f5)
        (mkDHCPPool (get_bool f6) f7 f8 (get_int f9)) (get_int f10) (get_int f11))
  | _ => None
  end.
Definition subnet_json_ok (s : Subnet) : Prop :=
  Forall bytes_ok (subnet_fields s) ∧ list_ok (sn_dns s) ∧
  Forall int_ok [sn_vlan s; dp_lease_time_sec (sn_dhcp s); sn_created_at s; sn_updated_at s].
#[local] Instance subnet_json_ok_dec s : Decision (subnet_json_ok s).
Proof. unfold subnet_json_ok. apply _. Defined.

#[local] Instance packed_subnet : Json Subnet.
Proof.
  refine (packed 11 subnet_fields subnet_of_fields subnet_json_ok _).
  intros [c n v g d [en ps pe lt] ct ut] (Hf & Hl & Hi). split; [done|]. split; [exact Hf|].
  cbn [sn_vlan sn_dhcp dp_lease_time_sec sn_created_at sn_updated_at sn_dns] in *.
  rewrite !Forall_cons in Hi. destruct Hi as (? & ? & ? & ? & _). cbn [subnet_of_fields subnet_fields].
  cbn [sn_vlan sn_dhcp dp_lease_time_sec sn_created_at sn_updated_at sn_dns dp_enabled sn_cidr sn_name sn_gateway
    dp_pool_start dp_pool_end].
  rewrite !get_put_int, get_put_list, get_put_bool by done. done.
Defined.

Definition reservation_fields (r : Reservation) : list bytes :=
  [rv_mac r; rv_ip r; rv_hostname r; rv_subnet_cidr r; put_int (rv_created_at r); put_int (rv_updated_at r)].
Definition reservation_of_fields (fs : list bytes) : option Reservation :=
  match fs with
  | [f1; f2; f3; f4; f5; f6] => Some (mkReservation f1 f2 f3 f4 (get_int f5) (get_int f6))
  | _ => None
  end.
Definition reservation_json_ok (r : Reservation) : Prop :=
  Forall bytes_ok (reservation_fields r) ∧ Forall int_ok [rv_created_at r; rv_updated_at r].
#[local] Instance reservation_json_ok_dec s : Decision (reservation_json_ok s).
Proof. unfold reservation_json_ok. apply _. Defined.

#[local] Instance packed_reservation : Json Reservation.
Proof.
  refine (packed 6 reservation_fields reservation_of_fields reservation_json_ok _).
  intros [m i h s c u] [Hf Hi]. split; [done|]. split; [exact Hf|].
  rewrite !Forall_cons in Hi. destruct Hi as (? & ? & _). cbn [reservation_of_fields reservation_fields] in *.
  rewrite !get_put_int by done. done.
Defined.

Definition address_fields (a : AddressRecord) : list bytes :=
  [ad_ip a; ad_subnet_cidr a; ad_state a; ad_mac a; ad_hostname a; ad_lease_state a; ad_source a;
   put_int (ad_updated_at a)].
Definition address_of_fields (fs : list bytes) : option AddressRecord :=
  match fs with
  | [f1; f2; f3; f4; f5; f6; f7; f8] => Some (mkAddressRecord f1 f2 f3 f4 f5 f6 f7 (get_int f8))
  | _ => None
  end.
Definition address_json_ok (a : AddressRecord) : Prop :=
  Forall bytes_ok (address_fields a) ∧ int_ok (ad_updated_at a).
#[local] Instance address_json_ok_dec s : Decision (address_json_ok s).
Proof. unfold address_json_ok. apply _. Defined.

#[local] Instance packed_address : Json AddressRecord.
Proof.
  refine (packed 8 address_fields address_of_fields address_json_ok _).
  intros [i s st m h l so u] [Hf Hi]. split; [done|]. split; [exact Hf|].
  cbn [address_of_fields address_fields] in *. rewrite get_put_int by done. done.
Defined.

(** A check that a row fits. *)
Lemma packed_fits {A} n put get ok Hok (key : bytes) (a : A) `{Decision (ok a)} :
  bool_decide (ok a ∧ zlen key < 4096 ∧ zlen (pack (put a)) < 4294900000) = true →
  row_fits (H := packed n put get ok Hok) key a.
Proof. rewrite bool_decide_eq_true. intros (H1 & H2 & H3). split; [done|]. split; [done|]. by intros raw [= <-]. Qed.

(** A subnet, a reservation in it and a stored address. *)
Definition demo_subnet_input : UpsertSubnetInput :=
  mkUpsertSubnetInput (bs "10.0.0.5/24") (bs "office") 10 (bs "10.0.0.1") [bs " 10.0.0.2 "; bs ""] true
    (bs "10.0.0.10") (bs "10.0.0.20") 0.
Definition demo_reservation_input : UpsertReservationInput :=
  mkUpsertReservationInput (bs "aa-bb-cc-00-11-33") (bs "10.0.0.10") (bs "printer") [].
Definition demo_address_input : UpsertAddressInput :=
  mkUpsertAddressInput (bs "10.0.0.10") (bs "10.0.0.0/24") (bs "reserved") [] (bs "desk") [] 0.
Definition demo_ops : list (IpamOp * time) :=
  [(OpSubnet demo_subnet_input, demo_now); (OpReservation demo_reservation_input, demo_now);
   (OpAddress demo_address_input, demo_now)].
Definition no_tables : Tables := mkTables ∅ ∅ ∅.

Lemma no_tables_ok : tables_ok no_tables.
Proof. apply empty_tables_ok. Qed.

Lemma demo_ipam_view : ipam_view demo_engine no_tables.
Proof.
  destruct demo_engine_ok as [Hd Hc]. split; [by split| | |]; intros k; cbn; rewrite lookup_empty; vm_compute; done.
Qed.

Lemma demo_ops_fit : ops_fit demo_engine demo_ops.
Proof.
  unfold demo_ops. cbn [ops_fit op_fits]. split; [|split; [|split; [|done]]].
  - intros s Hs. assert (E : subnet_to_write demo_engine demo_subnet_input demo_now = Some s) by exact Hs.
    vm_compute in E. injection E as <-. refine (packed_fits _ _ _ _ _ _ _ _); vm_compute; reflexivity.
  - intros r Hr. vm_compute in Hr. injection Hr as <-. refine (packed_fits _ _ _ _ _ _ _ _); vm_compute; reflexivity.
  - intros r Hr. vm_compute in Hr. injection Hr as <-. refine (packed_fits _ _ _ _ _ _ _ _); vm_compute; reflexivity.
Qed.

Lemma ipam_tables_stay_ok_witness :
  ∃ t', ipam_view (run_ops demo_engine demo_ops) t' ∧ tables_ok t'.
Proof.
  refine (ipam_tables_stay_ok demo_engine no_tables demo_ops _ _ _);
    [apply demo_ipam_view|apply no_tables_ok|apply demo_ops_fit].
Defined.

(** The engine with the subnet, and an input that overlaps it. *)
Definition demo_ipam : Engine := run_ops demo_engine (take 1 demo_ops).
Definition demo_overlapping : UpsertSubnetInput :=
  mkUpsertSubnetInput (bs "10.0.0.128/25") (bs "lab") 0 [] [] false [] [] 60.

Lemma demo_ipam_ok : ∃ t, ipam_view demo_ipam t ∧ tables_ok t.
Proof.
  apply (run_ops_ok (take 1 demo_ops) demo_engine no_tables);
    [apply demo_ipam_view|apply no_tables_ok|split; [apply demo_ops_fit|done]].
Qed.

Lemma ipam_writes_refine_witness :
  ∃ t, ipam_effect demo_ipam (OpSubnet demo_overlapping) demo_now t = None ∧
  (match ipam_effect demo_ipam (OpSubnet demo_overlapping) demo_now t with
   | Some t' => ∃ e', run_op demo_ipam (OpSubnet demo_overlapping) demo_now demo_now = (e', None) ∧ ipam_view e' t'
   | None => ∃ er, run_op demo_ipam (OpSubnet demo_overlapping) demo_now demo_now = (demo_ipam, Some er)
   end ∧
   ∀ i s p, validate_subnet_input i = Ok s → parse_prefix (sn_cidr s) = Ok p →
    validate_subnet demo_ipam i = Ok s ↔
    ∀ k p' a, k ∈ dom (t_subnets t) → k ≠ sn_cidr s → parse_prefix k = Ok p' → member p' a → ¬ member p a).
Proof.
  destruct demo_ipam_ok as (t & Hv & Hok). exists t.
  assert (E : subnet_to_write demo_ipam demo_overlapping demo_now = None) by (vm_compute; reflexivity).
  assert (Hf : op_fits demo_ipam (OpSubnet demo_overlapping) demo_now) by (intros s Hs; rewrite E in Hs; discriminate Hs).
  pose proof (ipam_writes_refine demo_ipam t (OpSubnet demo_overlapping) demo_now demo_now Hv Hok Hf) as Hw.
  split; [unfold ipam_effect; rewrite E; reflexivity|exact Hw].
Defined.

(** All three sources know 10.0.0.10; the lease has another hardware address. *)
Definition demo_ipam3 : Engine := run_ops demo_engine demo_ops.
Definition demo_range (m : record_map) : list AddressRecord := (map_to_list m).*2.

Lemma demo_ipam3_ok : ∃ t, ipam_view demo_ipam3 t ∧ tables_ok t.
Proof.
  apply (run_ops_ok demo_ops demo_engine no_tables); [apply demo_ipam_view|apply no_tables_ok|apply demo_ops_fit].
Qed.

Lemma lookup_agrees_with_listing_witness :
  ∃ out subnets, list_addresses demo_ipam3 (Some demo_store1) no_filter demo_range = Ok out ∧
    list_subnets demo_ipam3 = Ok subnets ∧
    ((∃ r, get_address demo_ipam3 (Some demo_store1) (bs "10.0.0.10") = Ok r ∧ ad_ip r = bs "10.0.0.10" ∧
        ∀ r', r' ∈ out ∧ ad_ip r' = bs "10.0.0.10" ↔ r' = r) ∨
     ((∀ r', r' ∈ out → ad_ip r' ≠ bs "10.0.0.10") ∧
      get_address demo_ipam3 (Some demo_store1) (bs "10.0.0.10") =
        let cidr := infer_subnet_for_addr (A4 (map byte_of_Z [10; 0; 0; 10])) subnets in
        if bool_decide (cidr = []) then Err ErrNotFound
        else Ok (mkAddressRecord (bs "10.0.0.10") cidr IPStateAvailable [] [] [] (bs "subnet") 0))).
Proof.
  destruct demo_ipam3_ok as (t & Hv & Hok).
  refine (lookup_agrees_with_listing (S := EngineStore) demo_ipam3 (Some demo_store1) t demo_range
    (bs "10.0.0.10") (A4 (map byte_of_Z [10; 0; 0; 10])) Hv Hok _ _ _ _).
  - intros s Hs. exists demo_map1. rewrite <-(Some_inj _ _ Hs). apply demo_store1_map.
  - intros m. exact (Permutation_refl ((map_to_list m).*2)).
  - vm_compute. reflexivity.
  - vm_compute. reflexivity.
Defined.

Lemma conflicts_are_reported_witness :
  ∃ t r, ad_mac r = bs "AA-BB-CC-00-11-33" ∧ ad_state r = IPStateConflict ∧
    (ad_state r = IPStateConflict ↔
      (∃ mac mac' st st', source t demo_map1 (bs "10.0.0.10") mac st ∧ source t demo_map1 (bs "10.0.0.10") mac' st' ∧
        mac ≠ [] ∧ mac' ≠ [] ∧ mac ≠ mac') ∨
      ∃ mac, source t demo_map1 (bs "10.0.0.10") mac IPStateConflict).
Proof.
  destruct demo_ipam3_ok as (t & Hv & Hok). exists t.
  set (r := match get_address demo_ipam3 (Some demo_store1) (bs "10.0.0.10") with
            | Ok r => r | _ => zero_record end).
  exists r. split; [vm_compute; reflexivity|]. split; [vm_compute; reflexivity|].
  refine (conflicts_are_reported (S := EngineStore) demo_ipam3 demo_store1 t demo_map1 (bs "10.0.0.10")
    (A4 (map byte_of_Z [10; 0; 0; 10])) r Hv Hok _ _ _ _).
  - apply demo_store1_map.
  - vm_compute. reflexivity.
  - vm_compute. reflexivity.
  - vm_compute. reflexivity.
Defined.

(** The filter [subnet=all] is compared with the subnet of each record, so it
    lists nothing. *)
Example all_filter_lists_nothing :
  list_addresses demo_ipam3 (Some demo_store1) (mkAddressFilter (bs "all") [] [] 0) demo_range = Ok [] ∧
  ∃ r, list_addresses demo_ipam3 (Some demo_store1) no_filter demo_range = Ok [r].
Proof. split; [vm_compute; reflexivity|]. eexists. vm_compute. reflexivity. Qed.

(** Two spellings of one hardware address are two owners. *)
Example spelling_is_a_conflict :
  parse_mac (bs "AA-BB-CC-00-11-22") = parse_mac (bs "AA:BB:CC:00:11:22") ∧
  ad_state (merge_address_record
    (mkAddressRecord (bs "10.0.0.10") [] IPStateReserved (bs "AA-BB-CC-00-11-22") [] [] (bs "reservation") 0)
    (mkAddressRecord (bs "10.0.0.10") [] IPStateDHCP (bs "AA:BB:CC:00:11:22") [] [] (bs "lease") 0))
  = IPStateConflict.
Proof. split; vm_compute; reflexivity. Qed.
