(* ===== verification/Dhcp4Wire.v ===== *)
(** internal/dhcpv4: options.go, packet.go, relay.go, rapid_commit.go and
    broadcast.go: the wire format of DHCPv4.

    The options are a map; its encoding ranges over the map in the order given
    as an argument. *)

From S2P Require Import Prelude.
From S2P Require Import GoBytes.
From S2P Require Import GoStrings.
From S2P Require Import GoNet.

(** * options.go *)

Definition opt (z : Z) : byte := byte_of_Z z.
Definition OptionPad := opt 0.
Definition OptionSubnetMask := opt 1.
Definition OptionRouter := opt 3.
Definition OptionDomainNameServer := opt 6.
Definition OptionHostName := opt 12.
Definition OptionRequestedIP := opt 50.
Definition OptionIPAddressLeaseTime := opt 51.
Definition OptionMessageType := opt 53.
Definition OptionServerIdentifier := opt 54.
Definition OptionMessage := opt 56.
Definition OptionRenewalTimeValue := opt 58.
Definition OptionRebindingTimeValue := opt 59.
Definition OptionVendorClassID := opt 60.
Definition OptionClientIdentifier := opt 61.
Definition OptionUserClass := opt 77.
Definition OptionRelayAgentInfo := opt 82.
Definition OptionRapidCommit := opt 80.
Definition OptionEnd := opt 255.

Definition MessageDiscover := opt 1.
Definition MessageOffer := opt 2.
Definition MessageRequest := opt 3.
Definition MessageDecline := opt 4.
Definition MessageAck := opt 5.
Definition MessageNak := opt 6.
Definition MessageRelease := opt 7.
Definition MessageInform := opt 8.

Abbreviation options := (gmap byte bytes).

(** [DecodeOptions]; each turn consumes a byte. *)
Fixpoint decode_options_loop (fuel : nat) (raw : bytes) (opts : options) : result options :=
  match fuel, raw with
  | O, _ | _, [] => Ok opts
  | S fuel', code :: raw =>
      if bool_decide (code = OptionPad) then decode_options_loop fuel' raw opts
      else if bool_decide (code = OptionEnd) then Ok opts
      else
        match raw with
        | [] => Err (errorNew "truncated option length")
        | l :: raw =>
            let n := Z.to_nat (byte_to_Z l) in
            if decide (length raw < n)%nat
            then Err (Errorf "option %d truncated" [FZ (byte_to_Z code)])
            else decode_options_loop fuel' (drop n raw) (<[code := take n raw]> opts)
        end
  end.
Definition decode_options (raw : bytes) : result options :=
  decode_options_loop (length raw) raw ∅.

(** The loop of [Options.Encode] over the map's rows. *)
Fixpoint encode_rows (rows : list (byte * bytes)) : result bytes :=
  match rows with
  | [] => Ok [OptionEnd]
  | (code, val) :: rows' =>
      if bool_decide (code = OptionPad) || bool_decide (code = OptionEnd) then encode_rows rows'
      else if 255 <? zlen val then Err (Errorf "option %d too large" [FZ (byte_to_Z code)])
      else rest ← encode_rows rows'; Ok (code :: byte_of_Z (zlen val) :: val ++ rest)
  end.
Definition encode_options (order : list (byte * bytes)) : result bytes := encode_rows order.

Definition message_type (o : options) : option byte :=
  match o !! OptionMessageType with Some [t] => Some t | _ => None end.
Definition set_message_type (t : byte) (o : options) : options := <[OptionMessageType := [t]]> o.

(** [RequestedIP]; the nil address when there is none. *)
Definition requested_ip (o : options) : bytes :=
  match o !! OptionRequestedIP with
  | Some v => if bool_decide (length v = 4%nat) then to4 v else []
  | None => []
  end.

Definition client_identifier (o : options) : bytes := default [] (o !! OptionClientIdentifier).
Definition hostname (o : options) : bytes := default [] (o !! OptionHostName).
Definition vendor_class (o : options) : bytes := default [] (o !! OptionVendorClassID).
Definition user_class (o : options) : bytes := default [] (o !! OptionUserClass).

Definition set_ipv4 (code : byte) (a : bytes) (o : options) : options := <[code := to4 a]> o.
Definition set_ipv4_list (code : byte) (ips : list bytes) (o : options) : options :=
  <[code := ips ≫= to4]> o.
Definition set_duration_seconds (code : byte) (sec : Z) (o : options) : options :=
  <[code := be_put 4 sec]> o.
Definition set_string (code : byte) (s : bytes) (o : options) : options := <[code := s]> o.

(** rapid_commit.go *)
Definition has_rapid_commit (o : options) : bool := bool_decide (is_Some (o !! OptionRapidCommit)).
Definition enable_rapid_commit (o : options) : options := <[OptionRapidCommit := []]> o.

(** * packet.go *)

Definition bootp_header_len : Z := 236.
Definition magic_cookie : Z := 1669485411.  (* 0x63825363 *)

Record Packet := mkPacket {
  pk_op : byte; pk_htype : byte; pk_hlen : byte; pk_hops : byte;
  pk_xid : Z; pk_secs : Z; pk_flags : Z;
  pk_ciaddr : bytes; pk_yiaddr : bytes; pk_siaddr : bytes; pk_giaddr : bytes;
  pk_chaddr : bytes;   (** 16 bytes *)
  pk_sname : bytes;    (** 64 bytes *)
  pk_file : bytes;     (** 128 bytes *)
  pk_options : options;
}.

#[global] Instance eta_Packet : Eta Packet := λ p,
  mkPacket (pk_op p) (pk_htype p) (pk_hlen p) (pk_hops p) (pk_xid p) (pk_secs p) (pk_flags p)
    (pk_ciaddr p) (pk_yiaddr p) (pk_siaddr p) (pk_giaddr p) (pk_chaddr p) (pk_sname p)
    (pk_file p) (pk_options p).

(** The zero packet. *)
Definition zeros (n : nat) : bytes := replicate n (byte_of_Z 0).
Definition zero_packet : Packet :=
  mkPacket (opt 0) (opt 0) (opt 0) (opt 0) 0 0 0 [] [] [] [] (zeros 16) (zeros 64) (zeros 128) ∅.

(** [raw[i:j]] *)
Definition slice (raw : bytes) (i j : nat) : bytes := take (j - i) (drop i raw).

Definition decode_packet (raw : bytes) : result Packet :=
  if zlen raw <? bootp_header_len + 4 then Err (errorNew "packet too short")
  else
    let b i := nth i raw (opt 0) in
    let cookie := be_get (slice raw 236 240) in
    if negb (cookie =? magic_cookie) then Err (Errorf "invalid magic cookie: %x" [FZ cookie])
    else
      opts ← decode_options (drop 240 raw);
      Ok (mkPacket (b 0%nat) (b 1%nat) (b 2%nat) (b 3%nat)
            (be_get (slice raw 4 8)) (be_get (slice raw 8 10)) (be_get (slice raw 10 12))
            (to4 (slice raw 12 16)) (to4 (slice raw 16 20)) (to4 (slice raw 20 24))
            (to4 (slice raw 24 28)) (slice raw 28 44) (slice raw 44 108) (slice raw 108 236)
            opts).

(** [copy(out[i:i+4], ip.To4())]: zeros when the address is nil. *)
Definition put_ip (a : bytes) : bytes := to4 a ++ drop (length (to4 a)) (zeros 4).

(** The 240 bytes in front of the options. *)
Definition packet_header (p : Packet) : bytes :=
  [pk_op p; pk_htype p; pk_hlen p; pk_hops p] ++ be_put 4 (pk_xid p)
  ++ be_put 2 (pk_secs p) ++ be_put 2 (pk_flags p)
  ++ put_ip (pk_ciaddr p) ++ put_ip (pk_yiaddr p) ++ put_ip (pk_siaddr p) ++ put_ip (pk_giaddr p)
  ++ pk_chaddr p ++ pk_sname p ++ pk_file p ++ be_put 4 magic_cookie.

Definition encode_packet (p : Packet) (order : list (byte * bytes)) : result bytes :=
  opts ← encode_options order; Ok (packet_header p ++ opts).

#[global] Arguments packet_header : simpl never.

(** [ClientMAC] *)
Definition client_mac (p : Packet) : bytes :=
  let hlen := byte_to_Z (pk_hlen p) in
  let hlen := if (hlen <=? 0) || (16 <? hlen) then 6 else hlen in
  take (Z.to_nat hlen) (pk_chaddr p).

(** * relay.go *)

Record RelayInfo := mkRelayInfo { ri_raw : bytes; ri_circuit_id : bytes; ri_remote_id : bytes }.

Fixpoint relay_loop (fuel : nat) (raw : bytes) (info : RelayInfo) : RelayInfo :=
  match fuel, raw with
  | S fuel', sub_code :: sub_len :: raw =>
      let n := Z.to_nat (byte_to_Z sub_len) in
      if decide (length raw < n)%nat then info
      else
        let data := take n raw in
        let info :=
          if bool_decide (sub_code = opt 1) then
            mkRelayInfo (ri_raw info) (trim_space data) (ri_remote_id info)
          else if bool_decide (sub_code = opt 2) then
            mkRelayInfo (ri_raw info) (ri_circuit_id info) (trim_space data)
          else info in
        relay_loop fuel' (drop n raw) info
  | _, _ => info
  end.
Definition parse_relay_agent_info (raw : bytes) : RelayInfo :=
  relay_loop (length raw) raw (mkRelayInfo raw [] []).

(** * broadcast.go *)

Record UDPAddr := mkUDPAddr { u_ip : bytes; u_port : Z }.

Definition is_zero_ipv4 (a : bytes) : bool :=
  let a := to4 a in bool_decide (a = []) || bool_decide (a = zeros 4).

Definition response_target (req : Packet) (remote : UDPAddr) (resp : Packet) : UDPAddr :=
  if negb (bool_decide (pk_giaddr req = [])) && negb (is_zero_ipv4 (pk_giaddr req))
  then mkUDPAddr (to4 (pk_giaddr req)) 67
  else if negb (bool_decide (pk_ciaddr req = [])) && negb (is_zero_ipv4 (pk_ciaddr req))
  then mkUDPAddr (to4 (pk_ciaddr req)) 68
  else if negb (bool_decide (pk_yiaddr resp = [])) && negb (is_zero_ipv4 (pk_yiaddr resp))
  then mkUDPAddr (to4 (pk_yiaddr resp)) 68
  else remote.

(** The DHCPv4 wire format: encoding and decoding are inverse, and the decoder
    takes any bytes without going out of bounds. *)

(** Codes that stand for themselves on the wire. *)
Definition coded (code : byte) : bool :=
  negb (bool_decide (code = OptionPad)) && negb (bool_decide (code = OptionEnd)).

(** The options the wire can carry: the others are dropped by the encoder. *)
Definition wire_options (o : options) : options := filter (λ kv, coded kv.1 = true) o.

Lemma encode_rows_ok rows raw :
  encode_rows rows = Ok raw →
  Forall (λ kv : byte * bytes, coded kv.1 = true → zlen kv.2 ≤ 255) rows.
Proof.
  revert raw. induction rows as [|[code val] rows IH]; intros raw; simpl; [constructor|].
  destruct (bool_decide (code = OptionPad)) eqn:Hpad; simpl.
  { intros E. constructor; [|eauto]. unfold coded. simpl. by rewrite Hpad. }
  destruct (bool_decide (code = OptionEnd)) eqn:Hend; simpl.
  { intros E. constructor; [|eauto]. unfold coded. simpl. by rewrite Hend, andb_false_r. }
  destruct (Z.ltb_spec 255 (zlen val)); [done|]. intros (rest & E & _)%bind_ok.
  constructor; [simpl; lia|eauto].
Qed.

Lemma decode_encode_rows rows : ∀ raw tail opts n,
  encode_rows rows = Ok raw → (length (raw ++ tail) ≤ n)%nat →
  decode_options_loop n (raw ++ tail) opts =
    Ok (foldl (λ m kv, <[kv.1 := kv.2]> m) opts (filter (λ kv, coded kv.1 = true) rows)).
Proof.
  induction rows as [|[code val] rows IH]; intros raw tail opts n.
  - intros [= <-] Hn. destruct n; simpl in *; [lia|]. done.
  - simpl. destruct (bool_decide (code = OptionPad)) eqn:Hpad; simpl.
    { intros E. rewrite filter_cons_False by (unfold coded; simpl; by rewrite Hpad). by apply IH. }
    destruct (bool_decide (code = OptionEnd)) eqn:Hend; simpl.
    { intros E. rewrite filter_cons_False by (unfold coded; simpl; by rewrite Hend, andb_false_r).
      by apply IH. }
    destruct (Z.ltb_spec 255 (zlen val)) as [|Hlen]; [done|].
    intros (rest & E & [= <-])%bind_ok Hn.
    rewrite filter_cons_True by (unfold coded; simpl; by rewrite Hpad, Hend). simpl.
    destruct n as [|n]; [simpl in Hn; lia|]. simpl. rewrite Hpad, Hend.
    pose proof (zlen_nonneg val).
    rewrite byte_to_of_Z, Z.mod_small, <-app_assoc by lia.
    rewrite decide_False by (rewrite length_app; unfold zlen; lia).
    rewrite take_zlen, drop_zlen. apply IH; [done|]. simpl in Hn. rewrite !length_app in *. lia.
Qed.

Lemma foldl_filter_rows (o : options) order :
  order ≡ₚ map_to_list o →
  foldl (λ m kv, <[kv.1 := kv.2]> m) ∅ (filter (λ kv, coded kv.1 = true) order) = wire_options o.
Proof.
  intros Hp. apply map_eq. intros k. apply option_eq. intros v.
  rewrite foldl_insert_lookup.
  - rewrite lookup_empty, list_elem_of_filter, Hp, elem_of_map_to_list.
    unfold wire_options. rewrite map_lookup_filter_Some. naive_solver.
  - eapply (sublist_NoDup _ order.*1).
    + rewrite Hp. apply NoDup_fst_map_to_list.
    + by apply fmap_sublist, sublist_filter.
Qed.

Lemma decode_encode_options (o : options) order raw tail :
  order ≡ₚ map_to_list o → encode_options order = Ok raw →
  decode_options (raw ++ tail) = Ok (wire_options o).
Proof.
  intros Hp E. unfold decode_options.
  rewrite (decode_encode_rows order raw tail ∅ _ E) by done. by rewrite (foldl_filter_rows o).
Qed.

(** Every encoding ends with the end mark. *)
Lemma encode_rows_is_ok rows :
  Forall (λ kv : byte * bytes, coded kv.1 = true → zlen kv.2 ≤ 255) rows →
  ∃ raw, encode_rows rows = Ok raw.
Proof.
  induction 1 as [|[code val] rows Hv _ [raw IH]]; [by eexists|]. simpl in *.
  unfold coded in Hv.
  destruct (bool_decide (code = OptionPad)); simpl in *; [eauto|].
  destruct (bool_decide (code = OptionEnd)); simpl in *; [eauto|].
  rewrite (proj2 (Z.ltb_ge _ _)) by (apply Hv; done). rewrite IH. by eexists.
Qed.

(** ** Fixed fields *)

Lemma slice_skip (a r : bytes) (n i j : nat) :
  length a = n → (n ≤ i)%nat → slice (a ++ r) i j = slice r (i - n) (j - n).
Proof.
  intros <- Hi. unfold slice. rewrite drop_app_ge by done. f_equal. lia.
Qed.

Lemma slice_here (a r : bytes) (j : nat) : length a = j → slice (a ++ r) 0 j = a.
Proof. intros <-. unfold slice. rewrite drop_0, Nat.sub_0_r. apply take_app_length. Qed.

Lemma put_ip_length a : length (put_ip a) = 4%nat.
Proof.
  unfold put_ip. rewrite length_app, length_drop. unfold zeros. rewrite length_replicate.
  assert (length (to4 a) = 4 ∨ length (to4 a) = 0)%nat; [|lia].
  destruct (decide (to4 a = [])) as [-> |Hne]; [by right|left; by apply to4_length].
Qed.

Lemma put_ip_id a : length a = 4%nat → put_ip a = a.
Proof.
  intros Ha. unfold put_ip. rewrite to4_id, Ha by done. simpl. by rewrite app_nil_r.
Qed.

(** What a packet must look like to survive the wire as it is. *)
Record packet_ok (p : Packet) : Prop := {
  ok_xid : 0 ≤ pk_xid p < 2 ^ 32;
  ok_secs : 0 ≤ pk_secs p < 2 ^ 16;
  ok_flags : 0 ≤ pk_flags p < 2 ^ 16;
  ok_chaddr : length (pk_chaddr p) = 16%nat;
  ok_sname : length (pk_sname p) = 64%nat;
  ok_file : length (pk_file p) = 128%nat;
}.

(** The packet the receiver sees: nil addresses become 0.0.0.0. *)
Definition on_wire (p : Packet) : Packet :=
  p <| pk_ciaddr := put_ip (pk_ciaddr p) |> <| pk_yiaddr := put_ip (pk_yiaddr p) |>
    <| pk_siaddr := put_ip (pk_siaddr p) |> <| pk_giaddr := put_ip (pk_giaddr p) |>
    <| pk_options := wire_options (pk_options p) |>.

(** Finds a field by walking over the ones in front of it. *)
Ltac field_length :=
  solve [apply be_put_length | apply put_ip_length | eassumption | reflexivity].
Ltac find_field :=
  unfold packet_header; rewrite <-?app_assoc;
  repeat (erewrite slice_skip; [|field_length|cbn [length]; lia]; cbn [Nat.sub length]);
  apply slice_here; field_length.

Lemma decode_encode_packet p order raw tail :
  packet_ok p → order ≡ₚ map_to_list (pk_options p) → encode_packet p order = Ok raw →
  decode_packet (raw ++ tail) = Ok (on_wire p).
Proof.
  intros [Hxid Hsecs Hflags Hch Hsn Hfi] Hp (opts & Eo & E)%bind_ok.
  assert (raw = packet_header p ++ opts) as -> by congruence. clear E.
  assert (Hh : length (packet_header p) = 240%nat).
  { unfold packet_header. by rewrite !length_app, !be_put_length, !put_ip_length, Hch, Hsn, Hfi. }
  rewrite <-app_assoc. set (all := packet_header p ++ opts ++ tail).
  assert (Hdrop : drop 240 all = opts ++ tail) by by apply drop_app_length'.
  assert (Hlen : (zlen all <? bootp_header_len + 4) = false).
  { apply Z.ltb_ge. subst all. unfold bootp_header_len, zlen. rewrite !length_app, Hh. lia. }
  unfold decode_packet. rewrite Hdrop, Hlen, (decode_encode_options _ _ _ _ Hp Eo).
  assert (slice all 236 240 = be_put 4 magic_cookie) as -> by (subst all; find_field).
  assert (slice all 4 8 = be_put 4 (pk_xid p)) as -> by (subst all; find_field).
  assert (slice all 8 10 = be_put 2 (pk_secs p)) as -> by (subst all; find_field).
  assert (slice all 10 12 = be_put 2 (pk_flags p)) as -> by (subst all; find_field).
  assert (slice all 12 16 = put_ip (pk_ciaddr p)) as -> by (subst all; find_field).
  assert (slice all 16 20 = put_ip (pk_yiaddr p)) as -> by (subst all; find_field).
  assert (slice all 20 24 = put_ip (pk_siaddr p)) as -> by (subst all; find_field).
  assert (slice all 24 28 = put_ip (pk_giaddr p)) as -> by (subst all; find_field).
  assert (slice all 28 44 = pk_chaddr p) as -> by (subst all; find_field).
  assert (slice all 44 108 = pk_sname p) as -> by (subst all; find_field).
  assert (slice all 108 236 = pk_file p) as -> by (subst all; find_field).
  rewrite !be_get_put_id by (unfold magic_cookie; simpl; lia).
  rewrite Z.eqb_refl. rewrite !(to4_id (put_ip _)) by apply put_ip_length. done.
Qed.

(** * The theorems *)

(** C9: a packet that is encoded, for any order of the option map and with any
    padding behind it, decodes to itself: every header field, and every option
    except the two codes that are not options.  Missing addresses arrive as
    0.0.0.0. *)
Theorem packet_roundtrip p order raw tail :
  packet_ok p → order ≡ₚ map_to_list (pk_options p) → encode_packet p order = Ok raw →
  decode_packet (raw ++ tail) = Ok (on_wire p).
Proof. apply decode_encode_packet. Qed.

Definition demo_packet : Packet :=
  zero_packet <| pk_op := opt 1 |> <| pk_htype := opt 1 |> <| pk_hlen := opt 6 |>
    <| pk_xid := 305419896 |> <| pk_flags := 32768 |>
    <| pk_chaddr := map byte_of_Z [170; 187; 204; 0; 17; 34] ++ zeros 10 |>
    <| pk_options := {[ OptionMessageType := [MessageDiscover];
                        OptionRequestedIP := map byte_of_Z [10; 0; 0; 77] ]} |>.

Lemma packet_roundtrip_witness :
  decode_packet (match encode_packet demo_packet (map_to_list (pk_options demo_packet)) with
                 | Ok raw => raw | _ => [] end ++ zeros 60) = Ok (on_wire demo_packet).
Proof.
  apply (packet_roundtrip demo_packet (map_to_list (pk_options demo_packet))).
  - split; simpl; (done || lia).
  - done.
  - vm_compute. reflexivity.
Defined.
