(* ===== verification/Dhcp4Pool.v ===== *)
(** internal/dhcpv4/pool.go: the address pools.

    A pool is a range of addresses with a bitmap.  The manager's map of pools is
    keyed by subnet; code that ranges over the map takes the order as an
    argument.  Go panics on an index outside a bitmap, and so does the model. *)

From S2P Require Import Prelude.
From S2P Require Import GoBytes.
From S2P Require Import GoStrings.
From S2P Require Import GoTime.
From S2P Require Import GoNet.
From S2P Require Import ConfigTypes.
From S2P Require Import Lease.
From S2P Require Import LeaseInterface.
From S2P Require Import Dhcp4Wire.

Record AllocationRequest := mkAllocationRequest {
  rq_mac : bytes; rq_client_id : bytes; rq_requested_ip : bytes; rq_relay_addr : bytes
}.

Record AllocationResult := mkAllocationResult {
  ar_ip : bytes; ar_subnet_id : bytes; ar_prefix : prefix; ar_gateway : bytes;
  ar_dns : list bytes; ar_lease_duration : duration
}.

(** [ScopeProvider]: nil, or a function of the pool and its range. *)
Abbreviation scope_provider := (option (bytes → Z → Z → Z * Z * bool)).

Record subnetPool := mkSubnetPool {
  sp_id : bytes; sp_prefix : prefix; sp_start : Z; sp_end : Z; sp_bitmap : list bool;
  sp_gateway : bytes; sp_dns : list bytes; sp_lease_dur : duration
}.
#[global] Instance eta_subnetPool : Eta subnetPool := λ p,
  mkSubnetPool (sp_id p) (sp_prefix p) (sp_start p) (sp_end p) (sp_bitmap p) (sp_gateway p)
    (sp_dns p) (sp_lease_dur p).

Record PoolManager := mkPoolManager { pm_pools : gmap bytes subnetPool; pm_order : list bytes }.
#[global] Instance eta_PoolManager : Eta PoolManager := λ pm,
  mkPoolManager (pm_pools pm) (pm_order pm).

Definition ipv4_to_uint32 (a : bytes) : Z := be_get a.
Definition uint32_to_ipv4 (v : Z) : bytes := be_put 4 v.

Definition parse_ips (raw : list bytes) : list bytes :=
  filter (λ a, a ≠ []) (map (λ s, to4 (parse_ip s)) raw).

(** * Construction *)

(** The body of the loop of [NewPoolManager]. *)
Definition add_subnet (default_lease : duration) (pm : PoolManager) (s : SubnetConfig)
    : result PoolManager :=
  if negb (sc_dhcp_enabled s) then Ok pm
  else
    prefix ← parse_prefix (sc_cidr s);
    start_addr ← parse_addr (sc_pool_start s);
    end_addr ← parse_addr (sc_pool_end s);
    a ← as4 start_addr;
    b ← as4 end_addr;
    let start := ipv4_to_uint32 a in
    let end_ := ipv4_to_uint32 b in
    if end_ <? start then Err (Errorf "invalid range %s-%s" [FB (sc_pool_start s); FB (sc_pool_end s)])
    else
      let lease_dur := if sc_lease_time s <=? 0 then default_lease else sc_lease_time s in
      let pool := mkSubnetPool (sc_cidr s) prefix start end_
        (replicate (Z.to_nat (u32 (end_ - start + 1))) false)
        (to4 (parse_ip (sc_gateway s))) (parse_ips (sc_dns s)) lease_dur in
      Ok (mkPoolManager (<[sp_id pool := pool]> (pm_pools pm)) (pm_order pm ++ [sp_id pool])).

Fixpoint add_subnets (default_lease : duration) (pm : PoolManager) (subnets : list SubnetConfig)
    : result PoolManager :=
  match subnets with
  | [] => Ok pm
  | s :: ss => pm ← add_subnet default_lease pm s; add_subnets default_lease pm ss
  end.

(** * Bitmaps *)

Definition set_used (p : subnetPool) (a : bytes) (used : bool) : result subnetPool :=
  if bool_decide (a = []) then Ok p
  else
    let u := ipv4_to_uint32 a in
    if (u <? sp_start p) || (sp_end p <? u) then Ok p
    else
      let off := Z.to_nat (u - sp_start p) in
      match sp_bitmap p !! off with
      | None => Panic "index out of range"
      | Some _ => Ok (p <| sp_bitmap := <[off := used]> (sp_bitmap p) |>)
      end.

(** [setUsed] on the pool of a subnet; the pools of the map are shared. *)
Definition set_used_in (pm : PoolManager) (id a : bytes) (used : bool) : result PoolManager :=
  match pm_pools pm !! id with
  | None => Ok pm
  | Some p => p' ← set_used p a used; Ok (pm <| pm_pools := <[id := p']> (pm_pools pm) |>)
  end.

(** [pool.prefix.Contains] for the pool of a subnet. *)
Definition pool_contains (pm : PoolManager) (a : addr) (id : bytes) : bool :=
  match pm_pools pm !! id with Some p => prefix_contains (sp_prefix p) a | None => false end.

(** [markAllocated] and [markFree]; [ord] is the order of the map. *)
Definition mark (pm : PoolManager) (ord : list bytes) (a subnet_id : bytes) (used : bool)
    : result PoolManager :=
  let by_prefix :=
    if bool_decide (a = []) && negb (bool_decide (ord = [])) then Panic "index out of range"
    else
      match filter (λ id, pool_contains pm (A4 a) id = true) ord with
      | id :: _ => set_used_in pm id a used
      | [] => Ok pm
      end in
  if bool_decide (subnet_id ≠ []) then
    match pm_pools pm !! subnet_id with
    | Some _ => set_used_in pm subnet_id a used
    | None => by_prefix
    end
  else by_prefix.

Definition mark_allocated pm ord a subnet_id := mark pm ord a subnet_id true.
Definition mark_free pm ord a subnet_id := mark pm ord a subnet_id false.

(** [Release]; an address that is not IPv4 only gets as far as its subnet. *)
Definition release (pm : PoolManager) (ord : list bytes) (a subnet_id : bytes) : result PoolManager :=
  mark_free pm ord (to4 a) subnet_id.

(** States whose address stays marked. *)
Definition holds_address (st : bytes) : bool :=
  bool_decide (st ∈ [StateBound; StateRenewing; StateOffered; StateQuarantined; StateDeclined]).

Fixpoint sync_loop (pm : PoolManager) (ord : Lease → list bytes) (ls : list Lease)
    : result PoolManager :=
  match ls with
  | [] => Ok pm
  | l :: ls' =>
      let a := to4 (parse_ip (l_ip l)) in
      if holds_address (l_state l) && bool_decide (a ≠ []) then
        pm ← mark_allocated pm (ord l) a (l_subnet_id l); sync_loop pm ord ls'
      else sync_loop pm ord ls'
  end.

Definition clear_bitmaps (pm : PoolManager) : PoolManager :=
  pm <| pm_pools := (λ p, p <| sp_bitmap := (λ _, false) <$> sp_bitmap p |>) <$> pm_pools pm |>.

Section with_store.
Context {S : Type} `{LeaseStore S}.

(** [SyncFromLeases] *)
Definition sync_from_leases (pm : PoolManager) (s : S) (ord : Lease → list bytes)
    : result (PoolManager * option error) :=
  let pm := clear_bitmaps pm in
  match ls_list_all s with
  | Ok ls => pm ← sync_loop pm ord ls; Ok (pm, None)
  | Err e => Ok (pm, Some e)
  | Panic p => Panic p
  end.

(** [NewPoolManager] *)
Definition new_pool_manager (subnets : list SubnetConfig) (default_lease : duration) (s : S)
    (ord : Lease → list bytes) : result PoolManager :=
  pm ← add_subnets default_lease (mkPoolManager ∅ []) subnets;
  '(pm, _) ← sync_from_leases pm s ord;
  Ok pm.

(** * Allocation *)

Definition effective_range (scope : scope_provider) (p : subnetPool) : option (Z * Z) :=
  match scope with
  | None => Some (sp_start p, sp_end p)
  | Some f =>
      let '(start, end_, ok) := f (sp_id p) (sp_start p) (sp_end p) in
      if negb ok then None
      else
        let start := if start <? sp_start p then sp_start p else start in
        let end_ := if sp_end p <? end_ then sp_end p else end_ in
        if end_ <? start then None else Some (start, end_)
  end.

Definition build_result (p : subnetPool) (a : bytes) : AllocationResult :=
  mkAllocationResult a (sp_id p) (sp_prefix p) (sp_gateway p) (sp_dns p) (sp_lease_dur p).

(** The pools are looked up by subnet; the ones of [order] are in the map. *)
Fixpoint try_allocate_specific (scope : scope_provider) (pm : PoolManager)
    (candidates : list bytes) (a : bytes) : result (option (PoolManager * AllocationResult)) :=
  if bool_decide (a = []) then Ok None
  else
    let u := ipv4_to_uint32 a in
    match candidates with
    | [] => Ok None
    | id :: ids =>
        match pm_pools pm !! id with
        | None => try_allocate_specific scope pm ids a
        | Some p =>
            match effective_range scope p with
            | None => try_allocate_specific scope pm ids a
            | Some (start, end_) =>
                if (u <? start) || (end_ <? u) then try_allocate_specific scope pm ids a
                else
                  let off := Z.to_nat (u - sp_start p) in
                  match sp_bitmap p !! off with
                  | None => Panic "index out of range"
                  | Some true => try_allocate_specific scope pm ids a
                  | Some false =>
                      let p' := p <| sp_bitmap := <[off := true]> (sp_bitmap p) |> in
                      Ok (Some (pm <| pm_pools := <[id := p']> (pm_pools pm) |>, build_result p a))
                  end
            end
        end
    end.

(** The loop of [nextFree] from [u] on; [fuel] bounds the addresses left. *)
Fixpoint next_free_loop (fuel : nat) (p : subnetPool) (u end_ : Z) : result (option bytes) :=
  match fuel with
  | O => Ok None
  | Datatypes.S fuel' =>
      if end_ <? u then Ok None
      else
        match sp_bitmap p !! Z.to_nat (u - sp_start p) with
        | None => Panic "index out of range"
        | Some false => Ok (Some (uint32_to_ipv4 u))
        | Some true => if u =? max_u32 then Ok None else next_free_loop fuel' p (u32 (u + 1)) end_
        end
  end.

Definition next_free (scope : scope_provider) (p : subnetPool) : result (option bytes) :=
  match effective_range scope p with
  | None => Ok None
  | Some (start, end_) => next_free_loop (Z.to_nat (end_ - start + 1)) p start end_
  end.

Definition select_candidate_pools (pm : PoolManager) (req : AllocationRequest) : list bytes :=
  match addr_from_slice (to4 (rq_relay_addr req)) with
  | Some a =>
      match filter (λ id, pool_contains pm a id = true) (pm_order pm) with
      | id :: _ => [id]
      | [] => pm_order pm
      end
  | None => pm_order pm
  end.

(** The loop over the leases of the client. *)
Fixpoint reuse_loop (pm : PoolManager) (now : time) (leases : list Lease)
    : result (option (PoolManager * AllocationResult)) :=
  match leases with
  | [] => Ok None
  | l :: ls =>
      if before (l_expiry_time l) now then reuse_loop pm now ls
      else if bool_decide (l_state l ∈ [StateBound; StateRenewing; StateOffered]) then
        match pm_pools pm !! l_subnet_id l with
        | None => reuse_loop pm now ls
        | Some p =>
            let a := to4 (parse_ip (l_ip l)) in
            if bool_decide (a = []) then reuse_loop pm now ls
            else pm ← set_used_in pm (l_subnet_id l) a true; Ok (Some (pm, build_result p a))
        end
      else reuse_loop pm now ls
  end.

Fixpoint first_free (scope : scope_provider) (pm : PoolManager) (candidates : list bytes)
    : result (PoolManager * AllocationResult) :=
  match candidates with
  | [] => Err (errorNew "no free address available")
  | id :: ids =>
      match pm_pools pm !! id with
      | None => first_free scope pm ids
      | Some p =>
          r ← next_free scope p;
          match r with
          | None => first_free scope pm ids
          | Some a => pm ← set_used_in pm id a true; Ok (pm, build_result p a)
          end
      end
  end.

(** [Allocate]; the manager does not change when it fails. *)
Definition allocate (scope : scope_provider) (pm : PoolManager) (s : S) (req : AllocationRequest)
    (now : time) : result (PoolManager * AllocationResult) :=
  reused ← match (if bool_decide (rq_mac req = []) then Ok [] else ls_get_by_mac s (rq_mac req)) with
           | Ok leases => reuse_loop pm now leases
           | _ => Ok None
           end;
  match reused with
  | Some r => Ok r
  | None =>
      let candidates := select_candidate_pools pm req in
      specific ← (if bool_decide (rq_requested_ip req = []) then Ok None
                  else try_allocate_specific scope pm candidates (to4 (rq_requested_ip req)));
      match specific with
      | Some r => Ok r
      | None => first_free scope pm candidates
      end
  end.
End with_store.
