(* ===== verification/Dhcp4PoolSpec.v ===== *)
(** Invariants of the DHCPv4 pools and what allocation does to the bitmaps. *)

From S2P Require Import Prelude.
From S2P Require Import GoBytes.
From S2P Require Import GoStrings.
From S2P Require Import GoTime.
From S2P Require Import GoNet.
From S2P Require Import Lease.
From S2P Require Import LeaseStore.
From S2P Require Import LeaseInterface.
From S2P Require Import Dhcp4Wire.
From S2P Require Import Dhcp4Pool.

(** * Well-formed pools *)

Record pool_ok (p : subnetPool) : Prop := {
  pool_start : 0 ≤ sp_start p;
  pool_range : sp_start p ≤ sp_end p;
  pool_end : sp_end p < 2 ^ 32;
  pool_bitmap : Z.of_nat (length (sp_bitmap p)) = sp_end p - sp_start p + 1;
}.

Definition in_range (p : subnetPool) (v : Z) : Prop := sp_start p ≤ v ≤ sp_end p.

#[global] Instance in_range_dec p v : Decision (in_range p v).
Proof. unfold in_range. apply _. Defined.

(** The bit of an address. *)
Definition bit (p : subnetPool) (v : Z) : option bool := sp_bitmap p !! Z.to_nat (v - sp_start p).

Lemma bit_in_range p v : pool_ok p → in_range p v → ∃ b, bit p v = Some b.
Proof.
  intros [? ? ? Hb] [Hlo Hhi]. apply lookup_lt_is_Some. lia.
Qed.

(** Two versions of a pool that differ in the bitmap only. *)
Definition same_pool (p p' : subnetPool) : Prop :=
  sp_id p' = sp_id p ∧ sp_prefix p' = sp_prefix p ∧ sp_start p' = sp_start p ∧
  sp_end p' = sp_end p ∧ sp_gateway p' = sp_gateway p ∧ sp_dns p' = sp_dns p ∧
  sp_lease_dur p' = sp_lease_dur p.

#[export] Instance same_pool_preorder : PreOrder same_pool.
Proof.
  split; [by intros p; unfold same_pool|].
  intros p q r (?&?&?&?&?&?&?) (?&?&?&?&?&?&?). unfold same_pool. split_and!; congruence.
Qed.

Lemma same_pool_range p p' v : same_pool p p' → in_range p' v ↔ in_range p v.
Proof. intros (_ & _ & Hs & He & _). unfold in_range. by rewrite Hs, He. Qed.

Definition is_ipv4 (a : bytes) : Prop := length a = 4%nat.

Lemma ipv4_range a : is_ipv4 a → 0 ≤ ipv4_to_uint32 a < 2 ^ 32.
Proof.
  intros Ha. unfold ipv4_to_uint32. pose proof (be_get_range a) as H. rewrite Ha in H. lia.
Qed.

Lemma ipv4_roundtrip a : is_ipv4 a → uint32_to_ipv4 (ipv4_to_uint32 a) = a.
Proof. intros Ha. by apply be_put_get_n. Qed.

Lemma uint32_roundtrip v : 0 ≤ v < 2 ^ 32 → ipv4_to_uint32 (uint32_to_ipv4 v) = v.
Proof. intros. by apply be_get_put_id. Qed.

Lemma uint32_is_ipv4 v : is_ipv4 (uint32_to_ipv4 v).
Proof. apply be_put_length. Qed.

Lemma ipv4_inj a b : is_ipv4 a → is_ipv4 b → ipv4_to_uint32 a = ipv4_to_uint32 b → a = b.
Proof. intros Ha Hb E. by rewrite <-(ipv4_roundtrip a), E, ipv4_roundtrip. Qed.

Lemma is_ipv4_nonnil a : is_ipv4 a → a ≠ [].
Proof. by intros ? ->. Qed.

Lemma set_bit_ok p v b : pool_ok p → pool_ok (p <| sp_bitmap := <[Z.to_nat v := b]> (sp_bitmap p) |>).
Proof. intros [? ? ? Hb]. split; simpl; try done. by rewrite length_insert. Qed.

Lemma bit_insert p v w b :
  pool_ok p → in_range p v → in_range p w →
  bit (p <| sp_bitmap := <[Z.to_nat (v - sp_start p) := b]> (sp_bitmap p) |>) w =
    if decide (w = v) then Some b else bit p w.
Proof.
  intros Hp Hv Hw. unfold bit. simpl. unfold in_range in *. pose proof (pool_bitmap p Hp).
  case_decide as E.
  - subst. apply list_lookup_insert_eq. lia.
  - apply list_lookup_insert_ne. lia.
Qed.

Lemma set_used_spec p a used :
  pool_ok p → is_ipv4 a →
  ∃ p', set_used p a used = Ok p' ∧ pool_ok p' ∧ same_pool p p' ∧
    ∀ v, in_range p v → bit p' v = if decide (v = ipv4_to_uint32 a) then Some used else bit p v.
Proof.
  intros Hp Ha. unfold set_used. rewrite bool_decide_eq_false_2 by by apply is_ipv4_nonnil.
  set (u := ipv4_to_uint32 a).
  destruct ((u <? sp_start p) || (sp_end p <? u)) eqn:E.
  - exists p. split_and!; try done. intros v Hv. rewrite decide_False; [done|]. intros ->.
    unfold in_range in Hv. apply orb_true_iff in E as [?%Z.ltb_lt|?%Z.ltb_lt]; lia.
  - bools. assert (Hu : in_range p u) by by split.
    destruct (bit_in_range p u Hp Hu) as [b Hb]. unfold bit in Hb. rewrite Hb.
    eexists. split_and!; [done|by apply set_bit_ok|done|]. intros v Hv. by apply bit_insert.
Qed.

(** * The manager *)

Record pm_ok (pm : PoolManager) : Prop := {
  pm_pool_ok id p : pm_pools pm !! id = Some p → sp_id p = id ∧ pool_ok p;
  pm_order_ok id : id ∈ pm_order pm → is_Some (pm_pools pm !! id);
}.

(** Ranges of different subnets do not overlap. *)
Definition pm_disjoint (pm : PoolManager) : Prop :=
  ∀ id id' p p' v, pm_pools pm !! id = Some p → pm_pools pm !! id' = Some p' →
    in_range p v → in_range p' v → id = id'.

Definition same_pools (pm pm' : PoolManager) : Prop :=
  pm_order pm' = pm_order pm ∧
  ∀ id, option_Forall2 same_pool (pm_pools pm !! id) (pm_pools pm' !! id).

#[export] Instance same_pools_preorder : PreOrder same_pools.
Proof.
  split.
  - intros pm. split; [done|]. intros id. apply option_Forall2_refl. apply _.
  - intros a b c [Ho H] [Ho' H']. split; [congruence|]. intros id.
    specialize (H id). specialize (H' id).
    destruct H as [p q Hpq|]; inversion H' as [? r Hqr|]; simplify_eq; constructor. by etrans.
Qed.

Lemma same_pools_lookup pm pm' id p' :
  same_pools pm pm' → pm_pools pm' !! id = Some p' →
  ∃ p, pm_pools pm !! id = Some p ∧ same_pool p p'.
Proof.
  intros [_ H] E. specialize (H id). rewrite E in H. inversion H; simplify_eq. eauto.
Qed.

Lemma same_pools_disjoint pm pm' : same_pools pm pm' → pm_disjoint pm → pm_disjoint pm'.
Proof.
  intros Hs Hd id id' p p' v Hp Hp' Hv Hv'.
  destruct (same_pools_lookup _ _ _ _ Hs Hp) as (q & Hq & Hsq).
  destruct (same_pools_lookup _ _ _ _ Hs Hp') as (q' & Hq' & Hsq').
  eapply Hd; [exact Hq|exact Hq'|by apply (same_pool_range q p)|by apply (same_pool_range q' p')].
Qed.

(** An address is marked in the pool of a subnet. *)
Definition marked (pm : PoolManager) (id : bytes) (v : Z) : Prop :=
  ∃ p, pm_pools pm !! id = Some p ∧ in_range p v ∧ bit p v = Some true.

(** Replacing a pool by one with another bitmap. *)
Lemma replace_pool_ok pm id p p' :
  pm_ok pm → pm_pools pm !! id = Some p → same_pool p p' → pool_ok p' →
  let pm' := pm <| pm_pools := <[id := p']> (pm_pools pm) |> in
  pm_ok pm' ∧ same_pools pm pm'.
Proof.
  intros [Hpool Hord] Hp Hsame Hok pm'. split; [split|].
  - intros id' q. simpl. intros [[<- <-]|[_ Hq]]%lookup_insert_Some; [|by apply Hpool].
    destruct (Hpool _ _ Hp) as [Hid _]. destruct Hsame as [-> _]. done.
  - intros id' Hin. simpl. apply lookup_insert_is_Some'. auto.
  - split; [done|]. intros id'. simpl. destruct (decide (id = id')) as [<- |Hne].
    + rewrite lookup_insert_eq, Hp. by constructor.
    + rewrite lookup_insert_ne by done. apply option_Forall2_refl. apply _.
Qed.

Lemma set_used_in_spec pm id a used :
  pm_ok pm → is_ipv4 a →
  ∃ pm', set_used_in pm id a used = Ok pm' ∧ pm_ok pm' ∧ same_pools pm pm' ∧
    (∀ id' v, (id' ≠ id ∨ v ≠ ipv4_to_uint32 a) → marked pm' id' v ↔ marked pm id' v) ∧
    (∀ p, pm_pools pm !! id = Some p → in_range p (ipv4_to_uint32 a) →
       (marked pm' id (ipv4_to_uint32 a) ↔ used = true)).
Proof.
  intros Hpm Ha. unfold set_used_in. destruct (pm_pools pm !! id) as [p|] eqn:Hp.
  2:{ exists pm. split_and!; done. }
  destruct (pm_pool_ok pm Hpm _ _ Hp) as [Hid Hok].
  destruct (set_used_spec p a used Hok Ha) as (p' & -> & Hok' & Hsame & Hbit). simpl.
  destruct (replace_pool_ok pm id p p' Hpm Hp Hsame Hok') as [Hpm' Hsames].
  eexists. split_and!; [done..| |].
  - intros id' v Hne. unfold marked. simpl. destruct (decide (id = id')) as [<- |Hid'].
    + rewrite lookup_insert_eq, Hp.
      assert (v ≠ ipv4_to_uint32 a) as Hv by naive_solver.
      split; intros (q & [= <-] & Hr & Hb).
      * exists p. apply (same_pool_range p p' v Hsame) in Hr. rewrite Hbit, decide_False in Hb by done.
        done.
      * exists p'. rewrite (same_pool_range p p' v Hsame), Hbit, decide_False by done. done.
    + by rewrite lookup_insert_ne.
  - intros q [= <-] Hr. unfold marked. simpl. rewrite lookup_insert_eq. split.
    + intros (q & [= <-] & _ & Hb). rewrite Hbit, decide_True in Hb by done. congruence.
    + intros ->. exists p'. rewrite (same_pool_range p p' _ Hsame), Hbit, decide_True by done. done.
Qed.

(** The bit found clear is set. *)
Lemma mark_found pm id p v :
  pm_ok pm → pm_pools pm !! id = Some p → in_range p v →
  let pm' := pm <| pm_pools := <[id := p <| sp_bitmap := <[Z.to_nat (v - sp_start p) := true]>
                                               (sp_bitmap p) |>]> (pm_pools pm) |> in
  pm_ok pm' ∧ same_pools pm pm' ∧ marked pm' id v ∧
  (∀ id' w, marked pm id' w → marked pm' id' w) ∧
  (∀ id' w, (id' ≠ id ∨ w ≠ v) → marked pm' id' w → marked pm id' w).
Proof.
  intros Hpm Hp Hv pm'. destruct (pm_pool_ok pm Hpm _ _ Hp) as [Hid Hok].
  set (p' := p <| sp_bitmap := <[Z.to_nat (v - sp_start p) := true]> (sp_bitmap p) |>).
  destruct (replace_pool_ok pm id p p' Hpm Hp) as [Hpm' Hsame];
    [by unfold same_pool|by apply set_bit_ok|].
  assert (Hbit : ∀ w, in_range p w → bit p' w = if decide (w = v) then Some true else bit p w)
    by (intros; by apply bit_insert).
  split_and!; [done..| | |].
  - exists p'. simpl. rewrite lookup_insert_eq. split_and!; [done..|].
    by rewrite Hbit, decide_True.
  - intros id' w (q & Hq & Hr & Hb). unfold marked. simpl.
    destruct (decide (id = id')) as [<- |Hne].
    + rewrite Hp in Hq. simplify_eq. exists p'. rewrite lookup_insert_eq. split_and!; [done..|].
      rewrite Hbit by done. by case_decide.
    + exists q. by rewrite lookup_insert_ne.
  - intros id' w Hne (q & Hq & Hr & Hb). simpl in Hq. unfold marked.
    destruct (decide (id = id')) as [<- |Hid'].
    + rewrite lookup_insert_eq in Hq. simplify_eq. exists p.
      change (in_range p w) in Hr. rewrite Hbit, decide_False in Hb by (done || naive_solver). done.
    + rewrite lookup_insert_ne in Hq by done. by exists q.
Qed.

(** * Scopes *)

Section scope.
Context {S : Type} `{LeaseStore S}.

Lemma effective_range_sub scope p start end_ :
  effective_range scope p = Some (start, end_) → pool_ok p →
  sp_start p ≤ start ∧ start ≤ end_ ∧ end_ ≤ sp_end p.
Proof.
  intros E [? ? ? _]. unfold effective_range in E. destruct scope as [f|].
  - destruct (f _ _ _) as [[s e] ok]. destruct ok; simpl in E; [|done].
    destruct (Z.ltb_spec s (sp_start p)), (Z.ltb_spec (sp_end p) e), (Z.ltb_spec (sp_end p) (sp_start p));
      try lia; repeat case_match; simplify_eq; bools; lia.
  - simplify_eq. lia.
Qed.

(** [nextFree] finds the least free address of the scope, if there is one. *)
Lemma next_free_loop_spec p fuel u end_ :
  pool_ok p → sp_start p ≤ u → end_ ≤ sp_end p → end_ - u < Z.of_nat fuel →
  ∃ r, next_free_loop fuel p u end_ = Ok r ∧
    match r with
    | Some a => ∃ v, a = uint32_to_ipv4 v ∧ u ≤ v ≤ end_ ∧ bit p v = Some false ∧
        ∀ w, u ≤ w < v → bit p w = Some true
    | None => ∀ w, u ≤ w ≤ end_ → bit p w = Some true
    end.
Proof.
  intros Hp. revert u. induction fuel as [|fuel IH]; intros u Hu He Hf; simpl.
  { exists None. split; [done|]. intros; lia. }
  pose proof Hp as [? ? ? _].
  destruct (Z.ltb_spec end_ u) as [Hlt|Hge].
  { exists None. split; [done|]. intros; lia. }
  destruct (bit_in_range p u Hp) as [b Hb]; [by split; lia|]. pose proof Hb as Hb'.
  unfold bit in Hb'. rewrite Hb'. destruct b.
  - destruct (Z.eqb_spec u max_u32) as [->|Hmax].
    + exists None. split; [done|]. intros w Hw. assert (w = max_u32) as -> by lia. done.
    + rewrite u32_id by lia. destruct (IH (u + 1)) as (r & -> & Hr); [lia..|].
      exists r. split; [done|]. destruct r as [a|].
      * destruct Hr as (v & -> & Hv & Hbv & Hall). exists v. split_and!; [done|lia|lia|done|].
        intros w Hw. destruct (decide (w = u)) as [-> |]; [done|apply Hall; lia].
      * intros w Hw. destruct (decide (w = u)) as [-> |]; [done|apply Hr; lia].
  - exists (Some (uint32_to_ipv4 u)). split; [done|]. exists u. split_and!; [done|lia|lia|done|].
    intros; lia.
Qed.

Lemma next_free_spec scope p :
  pool_ok p →
  ∃ r, next_free scope p = Ok r ∧
    match effective_range scope p, r with
    | None, r => r = None
    | Some (start, end_), Some a => ∃ v, a = uint32_to_ipv4 v ∧ start ≤ v ≤ end_ ∧
        bit p v = Some false ∧ ∀ w, start ≤ w < v → bit p w = Some true
    | Some (start, end_), None => ∀ w, start ≤ w ≤ end_ → bit p w = Some true
    end.
Proof.
  intros Hp. unfold next_free. destruct (effective_range scope p) as [[start end_]|] eqn:E.
  - destruct (effective_range_sub _ _ _ _ E Hp) as (? & ? & ?).
    destruct (next_free_loop_spec p (Z.to_nat (end_ - start + 1)) start end_ Hp)
      as (r & -> & Hr); [lia..|]. exists r. split; [done|]. by destruct r.
  - by exists None.
Qed.
End scope.

(** * Allocation *)

Definition active (l : Lease) : Prop := l_state l ∈ [StateBound; StateRenewing; StateOffered].

#[global] Instance active_dec l : Decision (active l).
Proof. unfold active. apply _. Defined.

(** The IPv4 address of a lease; nil for others. *)
Definition lease_addr (l : Lease) : bytes := to4 (parse_ip (l_ip l)).

Section allocate.
Context {S : Type} `{UnicodeTables} `{LeaseStore S} `{!LeaseStoreLaws S}.

(** A result drawn from a pool. *)
Definition from_pool (pm : PoolManager) (res : AllocationResult) : Prop :=
  is_ipv4 (ar_ip res) ∧
  ∃ p, pm_pools pm !! ar_subnet_id res = Some p ∧ res = build_result p (ar_ip res).

(** The manager before and after an allocation. *)
Definition allocated (pm pm' : PoolManager) (res : AllocationResult) : Prop :=
  pm_ok pm' ∧ same_pools pm pm' ∧ from_pool pm res ∧
  (∀ id v, marked pm id v → marked pm' id v) ∧
  (∀ id v, (id ≠ ar_subnet_id res ∨ v ≠ ipv4_to_uint32 (ar_ip res)) →
     marked pm' id v → marked pm id v).

(** An address nobody had. *)
Definition fresh (scope : scope_provider) (pm pm' : PoolManager) (res : AllocationResult) : Prop :=
  ¬ marked pm (ar_subnet_id res) (ipv4_to_uint32 (ar_ip res)) ∧
  marked pm' (ar_subnet_id res) (ipv4_to_uint32 (ar_ip res)) ∧
  ∃ p start end_, pm_pools pm !! ar_subnet_id res = Some p ∧
    effective_range scope p = Some (start, end_) ∧
    start ≤ ipv4_to_uint32 (ar_ip res) ≤ end_.

(** Every address the scope allows in a pool is taken. *)
Definition exhausted (scope : scope_provider) (pm : PoolManager) (id : bytes) : Prop :=
  ∀ p start end_, pm_pools pm !! id = Some p → effective_range scope p = Some (start, end_) →
    ∀ v, start ≤ v ≤ end_ → marked pm id v.

(** A lease the client is given back. *)
Definition reusable (pm : PoolManager) (now : time) (l : Lease) : Prop :=
  now ≤ l_expiry_time l ∧ active l ∧ is_Some (pm_pools pm !! l_subnet_id l) ∧ lease_addr l ≠ [].

(** A lease of the map the client can have again. *)
Definition own_lease (m : lease_map) (pm : PoolManager) (req : AllocationRequest) (now : time)
    (l : Lease) : Prop :=
  m !! l_ip l = Some l ∧ reusable pm now l ∧ rq_mac req ≠ [] ∧ l_mac l ≠ [] ∧
  normalize_mac (l_mac l) = normalize_mac (rq_mac req).

Lemma take_bit_spec scope pm id p start end_ a :
  pm_ok pm → pm_pools pm !! id = Some p → effective_range scope p = Some (start, end_) →
  is_ipv4 a → start ≤ ipv4_to_uint32 a ≤ end_ → bit p (ipv4_to_uint32 a) = Some false →
  let pm' := pm <| pm_pools := <[id := p <| sp_bitmap :=
    <[Z.to_nat (ipv4_to_uint32 a - sp_start p) := true]> (sp_bitmap p) |>]> (pm_pools pm) |> in
  allocated pm pm' (build_result p a) ∧ fresh scope pm pm' (build_result p a).
Proof.
  intros Hpm Hp He Ha Hv Hb pm'. destruct (pm_pool_ok pm Hpm _ _ Hp) as [Hid Hok].
  destruct (effective_range_sub _ _ _ _ He Hok) as (? & ? & ?).
  assert (Hr : in_range p (ipv4_to_uint32 a)) by (split; lia).
  destruct (mark_found pm id p (ipv4_to_uint32 a) Hpm Hp Hr) as (F1 & F2 & F3 & F4 & F5).
  unfold allocated, fresh, from_pool. cbn [build_result ar_ip ar_subnet_id]. rewrite Hid.
  split; [split_and!; try done; eauto|]. split_and!; [|done|by exists p, start, end_].
  intros (q & Hq & _ & Hbq). rewrite Hp in Hq. injection Hq as <-. congruence.
Qed.

Lemma reuse_loop_spec pm now ls :
  pm_ok pm →
  ∃ r, reuse_loop pm now ls = Ok r ∧
    match r with
    | Some (pm', res) => allocated pm pm' res ∧
        ∃ l, l ∈ ls ∧ reusable pm now l ∧ ar_ip res = lease_addr l ∧
          ar_subnet_id res = l_subnet_id l
    | None => ∀ l, l ∈ ls → ¬ reusable pm now l
    end.
Proof.
  intros Hpm. induction ls as [|l ls IH]; simpl.
  { exists None. split; [done|]. intros l. by rewrite elem_of_nil. }
  destruct IH as (r & Er & Hr).
  assert (Hskip : ¬ reusable pm now l →
    match r with
    | Some (pm', res) => allocated pm pm' res ∧ ∃ l0, l0 ∈ l :: ls ∧ reusable pm now l0 ∧
        ar_ip res = lease_addr l0 ∧ ar_subnet_id res = l_subnet_id l0
    | None => ∀ l0, l0 ∈ l :: ls → ¬ reusable pm now l0
    end).
  { intros Hn. destruct r as [[pm' res]|].
    - destruct Hr as (Ha & l0 & Hin & Hl0). split; [done|]. exists l0. split; [by right|done].
    - intros l0 [-> |Hin]%elem_of_cons; auto. }
  unfold before. destruct (Z.ltb_spec (l_expiry_time l) now) as [Hexp|Hexp].
  { exists r. split; [done|]. apply Hskip. intros (? & _). lia. }
  case_bool_decide as Hact.
  2:{ exists r. split; [done|]. apply Hskip. by intros (_ & ? & _). }
  destruct (pm_pools pm !! l_subnet_id l) as [p|] eqn:Hp.
  2:{ exists r. split; [done|]. apply Hskip. intros (_ & _ & [? ?] & _). congruence. }
  fold (lease_addr l). case_bool_decide as Hnil.
  { exists r. split; [done|]. apply Hskip. by intros (_ & _ & _ & ?). }
  assert (Ha : is_ipv4 (lease_addr l)) by by apply to4_length.
  destruct (set_used_in_spec pm (l_subnet_id l) (lease_addr l) true Hpm Ha)
    as (pm' & -> & Hpm' & Hsame & Hother & Hset). simpl.
  destruct (pm_pool_ok pm Hpm _ _ Hp) as [Hid _].
  eexists. split; [done|]. cbn. unfold allocated, from_pool.
  cbn [build_result ar_ip ar_subnet_id]. rewrite Hid.
  split; [|by exists l; split; [left|]].
  split_and!; [done..|by eexists| |].
  - intros id v Hm.
    destruct (decide (id = l_subnet_id l ∧ v = ipv4_to_uint32 (lease_addr l))) as [[-> ->]|Hne].
    + destruct Hm as (q & Hq & Hr' & _). by apply (Hset q).
    + apply Hother; [|done]. destruct (decide (id = l_subnet_id l)); [right|left]; naive_solver.
  - intros id v Hne Hm. by apply Hother.
Qed.

Lemma try_allocate_specific_spec scope pm candidates a :
  pm_ok pm → (a = [] ∨ is_ipv4 a) →
  ∃ r, try_allocate_specific scope pm candidates a = Ok r ∧
    match r with
    | Some (pm', res) => allocated pm pm' res ∧ fresh scope pm pm' res ∧ ar_ip res = a ∧
        ar_subnet_id res ∈ candidates
    | None => ∀ id p start end_, id ∈ candidates → is_ipv4 a → pm_pools pm !! id = Some p →
        effective_range scope p = Some (start, end_) → start ≤ ipv4_to_uint32 a ≤ end_ →
        marked pm id (ipv4_to_uint32 a)
    end.
Proof.
  intros Hpm Ha. destruct Ha as [-> |Ha].
  { exists None. split; [by destruct candidates|]. done. }
  assert (Hnil : bool_decide (a = []) = false)
    by (apply bool_decide_eq_false_2; by apply is_ipv4_nonnil).
  induction candidates as [|id ids IH]; simpl; rewrite Hnil.
  { exists None. split; [done|]. intros id p start end_ Hin. by apply elem_of_nil in Hin. }
  destruct IH as (r & Er & Hr).
  assert (Hskip : (∀ p start end_, pm_pools pm !! id = Some p →
      effective_range scope p = Some (start, end_) → start ≤ ipv4_to_uint32 a ≤ end_ →
      marked pm id (ipv4_to_uint32 a)) →
    match r with
    | Some (pm', res) => allocated pm pm' res ∧ fresh scope pm pm' res ∧ ar_ip res = a ∧
        ar_subnet_id res ∈ id :: ids
    | None => ∀ id0 p start end_, id0 ∈ id :: ids → is_ipv4 a → pm_pools pm !! id0 = Some p →
        effective_range scope p = Some (start, end_) → start ≤ ipv4_to_uint32 a ≤ end_ →
        marked pm id0 (ipv4_to_uint32 a)
    end).
  { intros Hn. destruct r as [[pm' res]|].
    - destruct Hr as (? & ? & ? & ?). split_and!; try done. by right.
    - intros id0 p start end_ [-> |Hin]%elem_of_cons; eauto. }
  destruct (pm_pools pm !! id) as [p|] eqn:Hp.
  2:{ exists r. split; [done|]. apply Hskip. congruence. }
  destruct (effective_range scope p) as [[start end_]|] eqn:He.
  2:{ exists r. split; [done|]. apply Hskip. intros ? ? ? [= <-] E. congruence. }
  destruct ((_ <? start) || (end_ <? _)) eqn:Hout.
  { exists r. split; [done|]. apply Hskip. intros ? ? ? [= <-] E ?. rewrite He in E. injection E as <- <-.
    apply orb_true_iff in Hout as [?%Z.ltb_lt|?%Z.ltb_lt]; lia. }
  bools. destruct (pm_pool_ok pm Hpm _ _ Hp) as [Hid Hok].
  destruct (effective_range_sub _ _ _ _ He Hok) as (? & ? & ?).
  assert (Hin : in_range p (ipv4_to_uint32 a)) by (split; lia).
  destruct (bit_in_range p _ Hok Hin) as [b Hb]. pose proof Hb as Hb'. unfold bit in Hb'.
  rewrite Hb'. destruct b.
  - exists r. split; [done|]. apply Hskip. intros ? ? ? [= <-] _ _. by exists p.
  - destruct (take_bit_spec scope pm id p start end_ a Hpm Hp He Ha) as [F1 F2]; [lia|done|].
    eexists. split; [done|]. split_and!; [done..|]. cbn. rewrite Hid. left.
Qed.

Lemma first_free_spec scope pm candidates :
  pm_ok pm →
  match first_free scope pm candidates with
  | Ok (pm', res) => allocated pm pm' res ∧ fresh scope pm pm' res ∧ ar_subnet_id res ∈ candidates
  | Err _ => ∀ id, id ∈ candidates → exhausted scope pm id
  | Panic _ => False
  end.
Proof.
  intros Hpm. induction candidates as [|id ids IH]; simpl.
  { intros id Hin. by apply elem_of_nil in Hin. }
  assert (Hskip : exhausted scope pm id →
    match first_free scope pm ids with
    | Ok (pm', res) => allocated pm pm' res ∧ fresh scope pm pm' res ∧
        ar_subnet_id res ∈ id :: ids
    | Err _ => ∀ id0, id0 ∈ id :: ids → exhausted scope pm id0
    | Panic _ => False
    end).
  { intros Hx. destruct (first_free scope pm ids) as [[pm' res]| |]; [|by intros ? [-> |?]%elem_of_cons; auto|done].
    destruct IH as (? & ? & ?). split_and!; try done. by right. }
  destruct (pm_pools pm !! id) as [p|] eqn:Hp.
  2:{ apply Hskip. intros q ? ? Hq. congruence. }
  destruct (pm_pool_ok pm Hpm _ _ Hp) as [Hid Hok].
  destruct (next_free_spec scope p Hok) as (r & -> & Hr). simpl.
  destruct (effective_range scope p) as [[start end_]|] eqn:He.
  2:{ subst r. apply Hskip. intros q ? ? Hq E. rewrite Hp in Hq. injection Hq as <-. congruence. }
  destruct (effective_range_sub _ _ _ _ He Hok) as (? & ? & ?). pose proof Hok as [? ? ? _].
  destruct r as [a|].
  - destruct Hr as (v & -> & Hv & Hb & _).
    set (a := uint32_to_ipv4 v). assert (Ea : ipv4_to_uint32 a = v) by (apply uint32_roundtrip; lia).
    assert (Hva : is_ipv4 a) by apply uint32_is_ipv4.
    destruct (take_bit_spec scope pm id p start end_ a Hpm Hp He Hva) as [F1 F2];
      [lia|by rewrite Ea|].
    unfold set_used_in. rewrite Hp. unfold set_used.
    rewrite bool_decide_eq_false_2 by by apply is_ipv4_nonnil.
    rewrite Ea. rewrite !(proj2 (Z.ltb_ge _ _)) by lia. simpl.
    unfold bit in Hb. rewrite Hb. simpl. rewrite Ea in F1, F2.
    split_and!; [done..|]. rewrite Hid. left.
  - apply Hskip. intros q st e Hq E w Hw. rewrite Hp in Hq. injection Hq as <-. rewrite He in E. injection E as <- <-. exists p.
    split_and!; [done|split; lia|by apply Hr].
Qed.

(** The whole of [Allocate]. *)
Lemma allocate_spec scope pm s m req now :
  ls_map s m → pm_ok pm →
  match allocate scope pm s req now with
  | Ok (pm', res) => allocated pm pm' res ∧
      ((∃ l, own_lease m pm req now l ∧
          ar_ip res = lease_addr l ∧ ar_subnet_id res = l_subnet_id l)
       ∨ (fresh scope pm pm' res ∧ ar_subnet_id res ∈ select_candidate_pools pm req ∧
          ∀ l, ¬ own_lease m pm req now l))
  | Err _ => (∀ l, ¬ own_lease m pm req now l) ∧
      ∀ id, id ∈ select_candidate_pools pm req → exhausted scope pm id
  | Panic _ => False
  end.
Proof.
  intros Hs Hpm. unfold allocate.
  assert (Hreuse : ∃ r, match (if bool_decide (rq_mac req = []) then Ok []
                               else ls_get_by_mac s (rq_mac req)) with
           | Ok leases => reuse_loop pm now leases
           | _ => Ok None
           end = Ok r ∧
    match r with
    | Some (pm', res) => allocated pm pm' res ∧
        ∃ l, own_lease m pm req now l ∧
          ar_ip res = lease_addr l ∧ ar_subnet_id res = l_subnet_id l
    | None => ∀ l, ¬ own_lease m pm req now l
    end).
  { case_bool_decide as Hmac; [exists None; split; [done|]; by intros l (_ & _ & ? & _)|].
    destruct (ls_get_by_mac_law s m (rq_mac req) Hs) as (ls & -> & Hin).
    destruct (reuse_loop_spec pm now ls Hpm) as (r & -> & Hr). exists r. split; [done|].
    destruct r as [[pm' res]|].
    - destruct Hr as (? & l & (? & ? & ?)%Hin & ? & ? & ?).
      split; [done|]. exists l. by split_and!.
    - intros l (? & ? & _ & ? & ?). apply (Hr l); [|done]. by apply Hin. }
  destruct Hreuse as (r & -> & Hr). simpl. destruct r as [[pm' res]|].
  { destruct Hr as [? Hl]. split; [done|]. by left. }
  rename Hr into Hnone. set (cands := select_candidate_pools pm req).
  assert (Hspec : ∃ r, (if bool_decide (rq_requested_ip req = []) then Ok None
      else try_allocate_specific scope pm cands (to4 (rq_requested_ip req))) = Ok r ∧
    match r with
    | Some (pm', res) => allocated pm pm' res ∧ fresh scope pm pm' res ∧ ar_subnet_id res ∈ cands
    | None => True
    end).
  { case_bool_decide; [by exists None|].
    destruct (try_allocate_specific_spec scope pm cands (to4 (rq_requested_ip req)) Hpm)
      as (r & -> & Hr).
    { destruct (decide (to4 (rq_requested_ip req) = [])); [by left|right; by apply to4_length]. }
    exists r. split; [done|]. destruct r as [[pm' res]|]; [|done].
    destruct Hr as (? & ? & _ & ?). by split_and!. }
  destruct Hspec as (r & -> & Hr). simpl. destruct r as [[pm' res]|].
  { destruct Hr as (? & ? & ?). split; [done|]. right. by split_and!. }
  pose proof (first_free_spec scope pm cands Hpm) as Hff.
  destruct (first_free scope pm cands) as [[pm' res]| |]; [|done..].
  destruct Hff as (? & ? & ?). split; [done|]. right. by split_and!.
Qed.
End allocate.
