(* ===== verification/Dhcp4Handler.v ===== *)
(** internal/dhcpv4/handler.go: what the server does with a message.

    A handler call reads three clocks and one write environment ([Inputs]).  It
    returns the new store and pools with the reply, the error and the lease
    events it announced; [Panic] is a Go panic. *)

From S2P Require Import Prelude.
From S2P Require Import GoBytes.
From S2P Require Import GoStrings.
From S2P Require Import GoTime.
From S2P Require Import GoNet.
From S2P Require Import Lease.
From S2P Require Import LeaseInterface.
From S2P Require Import Dhcp4Wire.
From S2P Require Import Dhcp4Pool.

Record Handler := mkHandler {
  h_server_ip : bytes; h_default_lease : duration; h_max_lease : duration
}.

(** [NewHandler] *)
Definition new_handler (server_ip : bytes) (default_lease max_lease : duration) : Handler :=
  mkHandler (to4 server_ip)
    (if default_lease <=? 0 then 12 * hour else default_lease)
    (if max_lease <=? 0 then 24 * hour else max_lease).

(** [durationToUint32Seconds] *)
Definition duration_to_uint32_seconds (value : duration) : Z :=
  if value <=? 0 then 0
  else
    let seconds := dur_quot value second in
    if seconds <=? 0 then 1
    else if max_u32 <? seconds then max_u32
    else u32 seconds.

Definition base_response (req : Packet) : Packet :=
  zero_packet <| pk_op := opt 2 |> <| pk_htype := pk_htype req |> <| pk_hlen := pk_hlen req |>
    <| pk_xid := pk_xid req |> <| pk_flags := pk_flags req |> <| pk_ciaddr := pk_ciaddr req |>
    <| pk_giaddr := pk_giaddr req |> <| pk_chaddr := pk_chaddr req |>.

Definition lease_options (h : Handler) (msg_type : byte) (alloc : AllocationResult) : options :=
  let lease_sec := duration_to_uint32_seconds (ar_lease_duration alloc) in
  let opts := set_message_type msg_type ∅ in
  let opts := set_ipv4 OptionServerIdentifier (h_server_ip h) opts in
  let opts := set_duration_seconds OptionIPAddressLeaseTime lease_sec opts in
  let opts := set_duration_seconds OptionRenewalTimeValue (lease_sec / 2) opts in
  let opts := set_duration_seconds OptionRebindingTimeValue (u32 (lease_sec - lease_sec / 8)) opts in
  let opts := <[OptionSubnetMask := cidr_mask32 (p_bits (ar_prefix alloc))]> opts in
  let opts := if bool_decide (ar_gateway alloc = []) then opts
              else set_ipv4 OptionRouter (ar_gateway alloc) opts in
  if bool_decide (ar_dns alloc = []) then opts
  else set_ipv4_list OptionDomainNameServer (ar_dns alloc) opts.

(** The NAK of [handleRequest]. *)
Definition nak_response (h : Handler) (req : Packet) : Packet :=
  base_response req <| pk_options :=
    set_string OptionMessage (bs "unable to allocate requested address")
      (set_ipv4 OptionServerIdentifier (h_server_ip h) (set_message_type MessageNak ∅)) |>.

Section handler.
Context {S : Type} `{LeaseStore S}.

Record Inputs := mkInputs {
  in_alloc_now : time; in_now : time; in_env : ls_env;
  in_order : list bytes   (** the order of the map of pools, for [Release] *)
}.

Record Outcome := mkOutcome {
  o_store : S; o_pools : PoolManager; o_reply : option Packet; o_err : option error;
  o_events : list (bytes * Lease)
}.

Definition allocation_request (req : Packet) (ip : bytes) : AllocationRequest :=
  mkAllocationRequest (mac_string (client_mac req)) (client_identifier (pk_options req)) ip
    (pk_giaddr req).

(** The lease both handlers build from the request and the allocation. *)
Definition new_lease (req : Packet) (alloc : AllocationResult) (state : bytes) (now : time) : Lease :=
  zero_lease <| l_ip := ip_string (ar_ip alloc) |>
    <| l_mac := mac_string (client_mac req) |>
    <| l_client_id := client_identifier (pk_options req) |>
    <| l_hostname := hostname (pk_options req) |>
    <| l_state := state |>
    <| l_start_time := now |>
    <| l_duration := ar_lease_duration alloc |>
    <| l_expiry_time := time_add now (ar_lease_duration alloc) |>
    <| l_subnet_id := ar_subnet_id alloc |>
    <| l_relay_addr := ip_string (pk_giaddr req) |>
    <| l_vendor_class := vendor_class (pk_options req) |>
    <| l_user_class := user_class (pk_options req) |>
    <| l_last_seen := now |>.

Definition with_relay_info (req : Packet) (l : Lease) : Lease :=
  match pk_options req !! OptionRelayAgentInfo with
  | None => l
  | Some raw =>
      let ri := parse_relay_agent_info raw in
      l <| l_relay_info := ri_raw ri |> <| l_circuit_id := ri_circuit_id ri |>
        <| l_remote_id := ri_remote_id ri |>
  end.

Definition handle_discover (h : Handler) (scope : scope_provider) (s : S) (pm : PoolManager)
    (req : Packet) (rapid_commit : bool) (i : Inputs) : result Outcome :=
  match allocate scope pm s (allocation_request req (requested_ip (pk_options req)))
          (in_alloc_now i) with
  | Panic p => Panic p
  | Err e => Ok (mkOutcome s pm None (Some e) [])
  | Ok (pm, alloc) =>
      let state := if rapid_commit then StateBound else StateOffered in
      let msg := if rapid_commit then MessageAck else MessageOffer in
      let l := with_relay_info req (new_lease req alloc state (in_now i)) in
      match ls_upsert s l (in_env i) with
      | (s, Some e) => Ok (mkOutcome s pm None (Some e) [])
      | (s, None) =>
          let opts := lease_options h msg alloc in
          let opts := if rapid_commit then enable_rapid_commit opts else opts in
          let resp := base_response req <| pk_yiaddr := ar_ip alloc |> <| pk_options := opts |> in
          Ok (mkOutcome s pm (Some resp) None
                (if rapid_commit then [(bs "lease.created", l)] else []))
      end
  end.

Definition handle_request (h : Handler) (scope : scope_provider) (s : S) (pm : PoolManager)
    (req : Packet) (i : Inputs) : result Outcome :=
  let ci := to4 (pk_ciaddr req) in
  let target := if negb (bool_decide (ci = [])) && negb (is_zero_ipv4 ci) then ci
                else requested_ip (pk_options req) in
  match allocate scope pm s (allocation_request req target) (in_alloc_now i) with
  | Panic p => Panic p
  | Err e => Ok (mkOutcome s pm (Some (nak_response h req)) None [])
  | Ok (pm, alloc) =>
      let old := ls_get_by_ip s (ip_string (ar_ip alloc)) in
      let l := new_lease req alloc StateBound (in_now i) in
      match ls_upsert s l (in_env i) with
      | (s, Some e) => Ok (mkOutcome s pm None (Some e) [])
      | (s, None) =>
          let event := match old with
                       | Ok o => if bool_decide (l_state o ≠ StateFree)
                                 then bs "lease.renewed" else bs "lease.created"
                       | _ => bs "lease.created"
                       end in
          let resp := base_response req <| pk_yiaddr := ar_ip alloc |>
                        <| pk_options := lease_options h MessageAck alloc |> in
          Ok (mkOutcome s pm (Some resp) None [(event, l)])
      end
  end.

Definition handle_release (s : S) (pm : PoolManager) (req : Packet) (i : Inputs) : result Outcome :=
  let ci := to4 (pk_ciaddr req) in
  let ip := if bool_decide (ci = []) || is_zero_ipv4 ci then requested_ip (pk_options req) else ci in
  let quiet := Ok (mkOutcome s pm None None []) in
  if bool_decide (ip = []) then quiet
  else
    match ls_get_by_ip s (ip_string ip) with
    | Ok l =>
        let l := l <| l_state := StateReleased |> <| l_updated_at := in_now i |>
                   <| l_expiry_time := in_now i |> in
        match ls_upsert s l (in_env i) with
        | (s, Some e) => Ok (mkOutcome s pm None (Some e) [])
        | (s, None) =>
            pm ← release pm (in_order i) ip (l_subnet_id l);
            Ok (mkOutcome s pm None None [(bs "lease.released", l)])
        end
    | _ => quiet
    end.

Definition handle_decline (s : S) (pm : PoolManager) (req : Packet) (i : Inputs) : result Outcome :=
  let ip := requested_ip (pk_options req) in
  let ip := if bool_decide (ip = []) then to4 (pk_ciaddr req) else ip in
  let quiet := Ok (mkOutcome s pm None None []) in
  if bool_decide (ip = []) || is_zero_ipv4 ip then quiet
  else
    match ls_get_by_ip s (ip_string ip) with
    | Ok l =>
        let l := l <| l_state := StateDeclined |>
                   <| l_quarantine_until := time_add (in_now i) (15 * minute) |>
                   <| l_updated_at := in_now i |> in
        match ls_upsert s l (in_env i) with
        | (s, Some e) => Ok (mkOutcome s pm None (Some e) [])
        | (s, None) => Ok (mkOutcome s pm None None [(bs "lease.conflict", l)])
        end
    | _ => quiet
    end.

Definition handle_inform (h : Handler) (s : S) (pm : PoolManager) (req : Packet) : result Outcome :=
  let resp := base_response req <| pk_yiaddr := [] |> <| pk_options :=
    set_ipv4 OptionServerIdentifier (h_server_ip h) (set_message_type MessageAck ∅) |> in
  Ok (mkOutcome s pm (Some resp) None []).

(** [Handle] *)
Definition handle (h : Handler) (scope : scope_provider) (s : S) (pm : PoolManager)
    (req : Packet) (i : Inputs) : result Outcome :=
  match message_type (pk_options req) with
  | None => Ok (mkOutcome s pm None (Some (errorNew "missing dhcp message type")) [])
  | Some t =>
      if bool_decide (t = MessageDiscover) then
        handle_discover h scope s pm req (has_rapid_commit (pk_options req)) i
      else if bool_decide (t = MessageRequest) then handle_request h scope s pm req i
      else if bool_decide (t = MessageRelease) then handle_release s pm req i
      else if bool_decide (t = MessageDecline) then handle_decline s pm req i
      else if bool_decide (t = MessageInform) then handle_inform h s pm req
      else Ok (mkOutcome s pm None None [])
  end.

(** One datagram through [Server.Start]'s loop: the reply's bytes and where they
    go, if it is answered; [order] ranges over the reply's options. *)
Definition serve (h : Handler) (scope : scope_provider) (s : S) (pm : PoolManager)
    (raw : bytes) (remote : UDPAddr) (i : Inputs) (order : options → list (byte * bytes))
    : result (S * PoolManager * option (bytes * UDPAddr)) :=
  match decode_packet raw with
  | Panic p => Panic p
  | Err _ => Ok (s, pm, None)
  | Ok req =>
      o ← handle h scope s pm req i;
      match o_err o, o_reply o with
      | None, Some resp =>
          match encode_packet resp (order (pk_options resp)) with
          | Ok out => Ok (o_store o, o_pools o, Some (out, response_target req remote resp))
          | _ => Ok (o_store o, o_pools o, None)
          end
      | _, _ => Ok (o_store o, o_pools o, None)
      end
  end.

End handler.
