(* ===== verification/Dhcp4Spec.v ===== *)
(** The DHCPv4 server as a transition system: the invariant that ties the lease
    map to the bitmaps, and that every message keeps it. *)

From S2P Require Import Prelude.
From S2P Require Import GoBytes.
From S2P Require Import GoStrings.
From S2P Require Import GoTime.
From S2P Require Import GoNet.
From S2P Require Import ConfigTypes.
From S2P Require Import Lease.
From S2P Require Import LeaseStore.
From S2P Require Import LeaseInterface.
From S2P Require Import Dhcp4Wire.
From S2P Require Import Dhcp4Pool.
From S2P Require Import Dhcp4PoolSpec.
From S2P Require Import Dhcp4Handler.

Section spec.
Context {S : Type} `{U : UnicodeTables} `{LS : LeaseStore S} `{!LeaseStoreLaws S}.

(** Every pool that could hand out the address of an active lease has it marked,
    and is the pool of the lease. *)
Definition lease_safe (pm : PoolManager) (l : Lease) : Prop :=
  active l → lease_addr l ≠ [] →
  ∀ id p, pm_pools pm !! id = Some p → in_range p (ipv4_to_uint32 (lease_addr l)) →
    marked pm id (ipv4_to_uint32 (lease_addr l)) ∧ id = l_subnet_id l.

(** IPv4 rows are keyed by the canonical text. *)
Definition lease_canonical (l : Lease) : Prop :=
  lease_addr l ≠ [] → ip_string (lease_addr l) = l_ip l.

Record dhcp_inv (s : S) (pm : PoolManager) (m : lease_map) : Prop := {
  inv_store : ls_map s m;
  inv_pools : pm_ok pm;
  inv_disjoint : pm_disjoint pm;
  inv_canonical : map_Forall (λ _, lease_canonical) m;
  inv_safe : map_Forall (λ _, lease_safe pm) m;
}.

Lemma stored_fields now l :
  l_ip (stored now l) = l_ip l ∧ l_mac (stored now l) = l_mac l ∧
  l_subnet_id (stored now l) = l_subnet_id l ∧ l_state (stored now l) = l_state l ∧
  lease_addr (stored now l) = lease_addr l.
Proof.
  destruct (normalize_identity now (12 * hour) l) as (Hip & Hmac & _ & Hsub & Hst & _).
  unfold stored, lease_addr. by rewrite Hip, Hmac, Hsub, Hst.
Qed.

Lemma lease_safe_stored pm now l : lease_safe pm l → lease_safe pm (stored now l).
Proof.
  destruct (stored_fields now l) as (_ & _ & Hsub & Hst & Ha).
  unfold lease_safe, active. by rewrite Hsub, Hst, Ha.
Qed.

Lemma lease_canonical_stored now l : lease_canonical l → lease_canonical (stored now l).
Proof.
  destruct (stored_fields now l) as (Hip & _ & _ & _ & Ha).
  unfold lease_canonical. by rewrite Hip, Ha.
Qed.

(** More marks and the same ranges keep a lease safe. *)
Lemma lease_safe_mono pm pm' l :
  same_pools pm pm' →
  (lease_addr l ≠ [] → ∀ id, marked pm id (ipv4_to_uint32 (lease_addr l)) →
     marked pm' id (ipv4_to_uint32 (lease_addr l))) →
  lease_safe pm l → lease_safe pm' l.
Proof.
  intros Hsame Hmono Hl Hact Ha id p' Hp' Hr.
  destruct (same_pools_lookup _ _ _ _ Hsame Hp') as (p & Hp & Hs).
  apply (same_pool_range p p' _ Hs) in Hr. destruct (Hl Hact Ha id p Hp Hr). eauto.
Qed.

(** ** Writing one lease *)

(** The new row is safe and canonical, the other rows still are. *)
Lemma inv_write s pm m s' pm' l now :
  dhcp_inv s pm m → ls_map s' (<[l_ip l := stored now l]> m) →
  pm_ok pm' → same_pools pm pm' → lease_canonical l → lease_safe pm' l →
  (∀ ip l', m !! ip = Some l' → ip ≠ l_ip l → lease_addr l' ≠ [] →
     ∀ id, marked pm id (ipv4_to_uint32 (lease_addr l')) →
       marked pm' id (ipv4_to_uint32 (lease_addr l'))) →
  dhcp_inv s' pm' (<[l_ip l := stored now l]> m).
Proof.
  intros [Hs Hpm Hd Hcan Hsafe] Hs' Hpm' Hsame Hlc Hls Hmono. split; try done.
  - by eapply same_pools_disjoint.
  - intros ip x [[<- <-]|[Hne Hx]]%lookup_insert_Some; [by apply lease_canonical_stored|by eapply Hcan].
  - intros ip x [[<- <-]|[Hne Hx]]%lookup_insert_Some; [by apply lease_safe_stored|].
    eapply lease_safe_mono; [done| |by eapply Hsafe]. intros. by eapply Hmono.
Qed.

(** Rows of the same IPv4 address are the same row. *)
Lemma row_unique s pm m ip ip' l l' :
  dhcp_inv s pm m → m !! ip = Some l → m !! ip' = Some l' →
  lease_addr l ≠ [] → lease_addr l = lease_addr l' → ip = ip'.
Proof.
  intros Hi Hl Hl' Hne E.
  rewrite <-(ls_keyed _ _ _ _ (inv_store _ _ _ Hi) Hl), <-(ls_keyed _ _ _ _ (inv_store _ _ _ Hi) Hl').
  rewrite <-(inv_canonical _ _ _ Hi _ _ Hl Hne).
  rewrite E in Hne |- *. apply (inv_canonical _ _ _ Hi _ _ Hl' Hne).
Qed.

(** ** Allocation and the lease map *)

Definition result_of (pm : PoolManager) (m : lease_map) (req : AllocationRequest) (now : time)
    (scope : scope_provider) (pm' : PoolManager) (res : AllocationResult) : Prop :=
  allocated pm pm' res ∧
  ((∃ l, own_lease m pm req now l ∧ ar_ip res = lease_addr l ∧ ar_subnet_id res = l_subnet_id l)
   ∨ (fresh scope pm pm' res ∧ ar_subnet_id res ∈ select_candidate_pools pm req ∧
      ∀ l, ¬ own_lease m pm req now l)).

(** An active lease of the allocated address is the client's own. *)
Lemma allocated_owner s pm m req now scope pm' res old :
  dhcp_inv s pm m → result_of pm m req now scope pm' res →
  m !! ip_string (ar_ip res) = Some old → active old →
  normalize_mac (l_mac old) = normalize_mac (rq_mac req).
Proof.
  intros Hi [(Hpm' & Hsame & (Hv4 & p & Hp & _) & _) Hres] Hold Hact.
  pose proof (ls_keyed _ _ _ _ (inv_store _ _ _ Hi) Hold) as Hkey.
  assert (Ha : lease_addr old = ar_ip res).
  { unfold lease_addr. rewrite Hkey. by apply parse_ip_string. }
  destruct Hres as [(l & (Hl & (_ & _ & _ & Hne) & _ & _ & Hmac) & Eip & _)|[(Hfree & _ & q & st & en & Hq & He & Hr) _]].
  - assert (l_ip l = ip_string (ar_ip res)) as E.
    { rewrite Eip. symmetry. by apply (inv_canonical _ _ _ Hi _ _ Hl). }
    rewrite E in Hl. congruence.
  - exfalso. rewrite Hp in Hq. injection Hq as <-.
    destruct (pm_pool_ok _ (inv_pools _ _ _ Hi) _ _ Hp) as [_ Hok].
    destruct (effective_range_sub _ _ _ _ He Hok) as (? & ? & ?).
    destruct (inv_safe _ _ _ Hi _ _ Hold Hact) with (ar_subnet_id res) p as [Hm _].
    + rewrite Ha. by apply is_ipv4_nonnil.
    + done.
    + rewrite Ha. split; lia.
    + rewrite Ha in Hm. done.
Qed.

(** The lease a handler builds from an allocation. *)
Lemma allocated_safe s pm m req now scope pm' res l :
  dhcp_inv s pm m → result_of pm m req now scope pm' res →
  l_ip l = ip_string (ar_ip res) → l_subnet_id l = ar_subnet_id res →
  lease_canonical l ∧ lease_safe pm' l.
Proof.
  intros Hi [(Hpm' & Hsame & (Hv4 & p & Hp & _) & Hmono & _) Hres] Hip Hsub.
  assert (Ha : lease_addr l = ar_ip res).
  { unfold lease_addr. rewrite Hip. by apply parse_ip_string. }
  split; [intros _; by rewrite Ha, Hip|].
  intros _ _ id q' Hq' Hr. rewrite Ha, Hsub in *.
  destruct (same_pools_lookup _ _ _ _ Hsame Hq') as (q & Hq & Hs).
  apply (same_pool_range q q' _ Hs) in Hr.
  destruct Hres as [(l0 & (Hl0 & (_ & Hact & _ & Hne) & _) & Eip & Esub)|[(_ & Hm & p0 & st & en & Hp0 & He & Hr0) _]].
  - rewrite Eip in Hr |- *. destruct (inv_safe _ _ _ Hi _ _ Hl0 Hact Hne id q Hq Hr).
    rewrite Esub. split; [by apply Hmono|done].
  - assert (id = ar_subnet_id res) as ->; [|done].
    destruct (pm_pool_ok _ (inv_pools _ _ _ Hi) _ _ Hp0) as [_ Hok].
    destruct (effective_range_sub _ _ _ _ He Hok) as (? & ? & ?).
    eapply (inv_disjoint _ _ _ Hi); [exact Hq|exact Hp0|exact Hr|split; lia].
Qed.

Lemma inv_allocate s pm m req now scope pm' res l s' wnow :
  dhcp_inv s pm m → result_of pm m req now scope pm' res →
  l_ip l = ip_string (ar_ip res) → l_subnet_id l = ar_subnet_id res →
  ls_map s' (<[l_ip l := stored wnow l]> m) →
  dhcp_inv s' pm' (<[l_ip l := stored wnow l]> m).
Proof.
  intros Hi Hres Hip Hsub Hs'.
  destruct (allocated_safe _ _ _ _ _ _ _ _ l Hi Hres Hip Hsub) as [Hc Hsafe].
  destruct Hres as [(Hpm' & Hsame & _ & Hmono & _) _].
  apply (inv_write s pm m s' pm' l wnow Hi Hs' Hpm' Hsame Hc Hsafe). eauto.
Qed.

(** Marks that only grow keep the invariant. *)
Lemma inv_marks s pm m pm' :
  dhcp_inv s pm m → pm_ok pm' → same_pools pm pm' →
  (∀ id v, marked pm id v → marked pm' id v) → dhcp_inv s pm' m.
Proof.
  intros [Hs Hpm Hd Hcan Hsafe] Hpm' Hsame Hmono. split; try done.
  - by eapply same_pools_disjoint.
  - intros ip l Hl. eapply lease_safe_mono; [done|eauto|by eapply Hsafe].
Qed.

(** A row whose lease becomes inactive. *)
Lemma inv_deactivate s pm m l0 l s' wnow :
  dhcp_inv s pm m → m !! l_ip l0 = Some l0 → l_ip l = l_ip l0 → ¬ active l →
  ls_map s' (<[l_ip l := stored wnow l]> m) →
  dhcp_inv s' pm (<[l_ip l := stored wnow l]> m).
Proof.
  intros Hi Hl0 Hip Hact Hs'. apply (inv_write s pm m s' pm l wnow Hi Hs'); try done.
  - apply (inv_pools _ _ _ Hi).
  - intros Ha. unfold lease_addr in *. rewrite Hip in *. by apply (inv_canonical _ _ _ Hi _ _ Hl0).
Qed.

(** Freeing the address of a row that is inactive. *)
Lemma mark_free_inv s pm m ord l subnet :
  dhcp_inv s pm m → m !! l_ip l = Some l → ¬ active l → lease_addr l ≠ [] →
  ∃ pm', mark_free pm ord (lease_addr l) subnet = Ok pm' ∧ dhcp_inv s pm' m.
Proof.
  intros Hi Hl Hact Ha. assert (Hv4 : is_ipv4 (lease_addr l)) by by apply to4_length.
  assert (Hset : ∀ id, ∃ pm', set_used_in pm id (lease_addr l) false = Ok pm' ∧ dhcp_inv s pm' m).
  { intros id. destruct (set_used_in_spec pm id (lease_addr l) false (inv_pools _ _ _ Hi) Hv4)
      as (pm' & E & Hpm' & Hsame & Hother & _).
    exists pm'. split; [done|]. destruct Hi as [Hs Hpm Hd Hcan Hsafe]. split; try done.
    - by eapply same_pools_disjoint.
    - intros ip l' Hl'. destruct (decide (active l')) as [Hact'|Hn]; [|by intros ?].
      eapply lease_safe_mono; [done| |by eapply Hsafe]. intros Ha' id' Hm.
      apply Hother; [|done]. right. intros E'. apply Hact.
      assert (lease_addr l' = lease_addr l) as E2.
      { apply ipv4_inj; [by apply to4_length|done|done]. }
      assert (ip = l_ip l) as ->; [|congruence].
      by apply (row_unique s pm m ip (l_ip l) l' l (Build_dhcp_inv s pm m Hs Hpm Hd Hcan Hsafe)). }
  unfold mark_free, mark. rewrite (bool_decide_eq_false_2 (lease_addr l = [])) by done.
  cbn [andb]. set (by_prefix := match filter _ ord with id :: _ => _ | [] => _ end).
  assert (Hby : ∃ pm', by_prefix = Ok pm' ∧ dhcp_inv s pm' m).
  { subst by_prefix. destruct (filter _ ord); [by exists pm|apply Hset]. }
  case_bool_decide; [|done]. destruct (pm_pools pm !! subnet); [apply Hset|done].
Qed.

(** * Start-up *)

Lemma set_used_in_mono pm id a :
  pm_ok pm → is_ipv4 a →
  ∃ pm', set_used_in pm id a true = Ok pm' ∧ pm_ok pm' ∧ same_pools pm pm' ∧
    (∀ id' v, marked pm id' v → marked pm' id' v) ∧
    (∀ p, pm_pools pm !! id = Some p → in_range p (ipv4_to_uint32 a) →
       marked pm' id (ipv4_to_uint32 a)).
Proof.
  intros Hpm Ha. destruct (set_used_in_spec pm id a true Hpm Ha)
    as (pm' & E & Hpm' & Hsame & Hother & Hset).
  exists pm'. split_and!; try done.
  - intros id' v Hm. destruct (decide (id' = id ∧ v = ipv4_to_uint32 a)) as [[-> ->]|Hne].
    + destruct Hm as (p & Hp & Hr & _). by apply (Hset p).
    + apply Hother; [|done]. destruct (decide (id' = id)); [right|left]; naive_solver.
  - intros p Hp Hr. by apply (Hset p).
Qed.

Lemma mark_allocated_spec pm ord a subnet :
  pm_ok pm → is_ipv4 a →
  ∃ pm', mark_allocated pm ord a subnet = Ok pm' ∧ pm_ok pm' ∧ same_pools pm pm' ∧
    (∀ id v, marked pm id v → marked pm' id v) ∧
    (∀ p, subnet ≠ [] → pm_pools pm !! subnet = Some p → in_range p (ipv4_to_uint32 a) →
       marked pm' subnet (ipv4_to_uint32 a)).
Proof.
  intros Hpm Ha. unfold mark_allocated, mark.
  rewrite (bool_decide_eq_false_2 (a = [])) by by apply is_ipv4_nonnil. cbn [andb].
  set (by_prefix := match filter _ ord with id :: _ => _ | [] => _ end).
  assert (Hby : ∃ pm', by_prefix = Ok pm' ∧ pm_ok pm' ∧ same_pools pm pm' ∧
    (∀ id v, marked pm id v → marked pm' id v)).
  { subst by_prefix. destruct (filter _ ord) as [|id ids]; [by exists pm|].
    destruct (set_used_in_mono pm id a Hpm Ha) as (pm' & ? & ? & ? & ? & _). by exists pm'. }
  case_bool_decide as Hsub.
  - destruct (pm_pools pm !! subnet) as [q|] eqn:Hq.
    + destruct (set_used_in_mono pm subnet a Hpm Ha) as (pm' & ? & ? & ? & ? & Hset).
      exists pm'. split_and!; try done. intros p _ [= <-]. by apply Hset.
    + destruct Hby as (pm' & ? & ? & ? & ?). exists pm'. by split_and!.
  - destruct Hby as (pm' & ? & ? & ? & ?). exists pm'. by split_and!.
Qed.

Lemma sync_loop_spec ord ls : ∀ pm,
  pm_ok pm →
  ∃ pm', sync_loop pm ord ls = Ok pm' ∧ pm_ok pm' ∧ same_pools pm pm' ∧
    (∀ id v, marked pm id v → marked pm' id v) ∧
    (∀ l p, l ∈ ls → holds_address (l_state l) = true → lease_addr l ≠ [] → l_subnet_id l ≠ [] →
       pm_pools pm !! l_subnet_id l = Some p → in_range p (ipv4_to_uint32 (lease_addr l)) →
       marked pm' (l_subnet_id l) (ipv4_to_uint32 (lease_addr l))).
Proof.
  induction ls as [|l ls IH]; intros pm Hpm; simpl.
  { exists pm. split_and!; try done. intros l p Hin. by apply elem_of_nil in Hin. }
  fold (lease_addr l). destruct (holds_address (l_state l) && bool_decide (lease_addr l ≠ [])) eqn:E.
  - bools. assert (Hv4 : is_ipv4 (lease_addr l)) by by apply to4_length.
    destruct (mark_allocated_spec pm (ord l) (lease_addr l) (l_subnet_id l) Hpm Hv4)
      as (pm1 & -> & Hpm1 & Hs1 & Hm1 & Hset). simpl.
    destruct (IH pm1 Hpm1) as (pm' & -> & Hpm' & Hs' & Hm' & Hall).
    exists pm'. split_and!; try done; [by etrans|eauto|].
    intros l' p [-> |Hin]%elem_of_cons Hh Ha Hsub Hp Hr; [eauto|].
    assert (is_Some (pm_pools pm1 !! l_subnet_id l')) as [p1 Hp1].
    { destruct Hs1 as [_ Hs1]. specialize (Hs1 (l_subnet_id l')). rewrite Hp in Hs1.
      inversion Hs1. eauto. }
    destruct (same_pools_lookup _ _ _ _ Hs1 Hp1) as (p0 & Hp0 & Hsp). rewrite Hp in Hp0.
    simplify_eq. apply (Hall l' p1); try done. by apply (same_pool_range p0 p1 _ Hsp).
  - destruct (IH pm Hpm) as (pm' & -> & Hpm' & Hs' & Hm' & Hall).
    exists pm'. split_and!; try done. intros l' p [-> |Hin]%elem_of_cons Hh Ha; [|by eauto].
    exfalso. by rewrite Hh, (bool_decide_eq_true_2 (lease_addr l ≠ [])) in E.
Qed.

Lemma clear_bitmaps_spec pm : pm_ok pm → pm_ok (clear_bitmaps pm) ∧ same_pools pm (clear_bitmaps pm).
Proof.
  intros [Hp Ho]. unfold clear_bitmaps. split; [split|split]; simpl.
  - intros id p. rewrite lookup_fmap. intros (q & Hq & ->)%fmap_Some.
    destruct (Hp _ _ Hq) as [? [? ? ? ?]]. split; [done|]. split; simpl; try done.
    by rewrite length_fmap.
  - intros id Hin. rewrite lookup_fmap. apply fmap_is_Some. auto.
  - done.
  - intros id. rewrite lookup_fmap. by destruct (pm_pools pm !! id); constructor.
Qed.

(** Every active lease lies in the range of its own subnet only. *)
Definition placed (pm : PoolManager) (l : Lease) : Prop :=
  active l → lease_addr l ≠ [] →
  ∀ id p, pm_pools pm !! id = Some p → in_range p (ipv4_to_uint32 (lease_addr l)) →
    id = l_subnet_id l ∧ id ≠ [].

Lemma sync_inv s pm m ord :
  ls_map s m → pm_ok pm → pm_disjoint pm →
  map_Forall (λ _, lease_canonical) m → map_Forall (λ _, placed pm) m →
  ∃ pm', sync_from_leases pm s ord = Ok (pm', None) ∧ same_pools pm pm' ∧ dhcp_inv s pm' m.
Proof.
  intros Hs Hpm Hd Hcan Hpl. unfold sync_from_leases.
  destruct (clear_bitmaps_spec pm Hpm) as [Hpm0 Hs0].
  destruct (ls_list_all_law s m Hs) as (ls & -> & _ & Hin).
  destruct (sync_loop_spec ord ls (clear_bitmaps pm) Hpm0) as (pm' & -> & Hpm' & Hs' & _ & Hall).
  assert (Hsame : same_pools pm pm') by by etrans.
  exists pm'. split; [done|]. split; [done|]. split; try done.
  - by eapply same_pools_disjoint.
  - intros ip l Hl Hact Ha id p Hp Hr.
    destruct (same_pools_lookup _ _ _ _ Hsame Hp) as (q & Hq & Hsq).
    pose proof (proj1 (same_pool_range q p _ Hsq) Hr) as Hrq.
    destruct (Hpl _ _ Hl Hact Ha id q Hq Hrq) as [-> Hne]. split; [|done].
    destruct (same_pools_lookup _ _ _ _ Hs' Hp) as (q0 & Hq0 & Hsq0).
    apply (Hall l q0); try done.
    + apply Hin. by rewrite (ls_keyed _ _ _ _ Hs Hl).
    + unfold holds_address. apply bool_decide_eq_true_2. unfold active in Hact. set_solver.
    + by apply (same_pool_range q0 p _ Hsq0).
Qed.

(** The pools the configuration makes are well formed, unless a range starts at
    0.0.0.0: the size of the whole address space does not fit 32 bits. *)
Definition starts_positive (x : SubnetConfig) : Prop :=
  ∀ ad a, parse_addr (sc_pool_start x) = Ok ad → as4 ad = Ok a → 0 < ipv4_to_uint32 a.

Lemma add_subnet_ok default pm pm' x :
  starts_positive x → pm_ok pm → add_subnet default pm x = Ok pm' → pm_ok pm'.
Proof.
  intros Hpos [Hp Ho]. unfold add_subnet. destruct (negb _); [by intros [= <-]|].
  intros (pf & _ & (sa & Hsa & (ea & Hea & (a & Ha & (b & Hb & E)%bind_ok)%bind_ok)%bind_ok)%bind_ok)%bind_ok.
  destruct (Z.ltb_spec (ipv4_to_uint32 b) (ipv4_to_uint32 a)) as [|Hle]; [done|].
  injection E as <-.
  pose proof (ipv4_range a (parse_addr_as4 _ _ _ Hsa Ha)).
  pose proof (ipv4_range b (parse_addr_as4 _ _ _ Hea Hb)). pose proof (Hpos sa a Hsa Ha).
  split; simpl.
  - intros id p [[<- <-]|[_ Hid]]%lookup_insert_Some; [|by apply Hp]. split; [done|].
    split; simpl; try lia. rewrite length_replicate, u32_id by lia. lia.
  - intros id [Hin| ->%list_elem_of_singleton]%elem_of_app; apply lookup_insert_is_Some'; auto.
Qed.

Lemma add_subnets_ok default subnets : ∀ pm pm',
  Forall starts_positive subnets → pm_ok pm → add_subnets default pm subnets = Ok pm' → pm_ok pm'.
Proof.
  induction subnets as [|x ss IH]; simpl; intros pm pm' Hpos Hpm; [by intros [= <-]|].
  apply Forall_cons in Hpos as [Hx Hss]. intros (pm1 & E1 & E2)%bind_ok.
  eapply IH; [done| |exact E2]. by eapply add_subnet_ok.
Qed.

Lemma startup_inv subnets default s m ord pm0 :
  ls_map s m → Forall starts_positive subnets →
  add_subnets default (mkPoolManager ∅ []) subnets = Ok pm0 → pm_disjoint pm0 →
  map_Forall (λ _, lease_canonical) m → map_Forall (λ _, placed pm0) m →
  ∃ pm, new_pool_manager subnets default s ord = Ok pm ∧ dhcp_inv s pm m.
Proof.
  intros Hs Hpos Hadd Hd Hcan Hpl.
  assert (Hpm0 : pm_ok pm0).
  { eapply add_subnets_ok; [done| |exact Hadd]. split; [done|]. intros id Hin. by apply elem_of_nil in Hin. }
  destruct (sync_inv s pm0 m ord Hs Hpm0 Hd Hcan Hpl) as (pm & E & _ & Hinv).
  exists pm. unfold new_pool_manager. rewrite Hadd. simpl. by rewrite E.
Qed.

(** * Messages *)

(** The lease a message writes to the store, if it does. *)
Definition written_discover scope (s : S) pm (req : Packet) (i : Inputs) : option Lease :=
  match allocate scope pm s (allocation_request req (requested_ip (pk_options req))) (in_alloc_now i) with
  | Ok (_, alloc) =>
      Some (with_relay_info req (new_lease req alloc
        (if has_rapid_commit (pk_options req) then StateBound else StateOffered) (in_now i)))
  | _ => None
  end.

(** The address a REQUEST asks for. *)
Definition request_target (req : Packet) : bytes :=
  let ci := to4 (pk_ciaddr req) in
  if negb (bool_decide (ci = [])) && negb (is_zero_ipv4 ci) then ci
  else requested_ip (pk_options req).

Definition written_request scope (s : S) pm (req : Packet) (i : Inputs) : option Lease :=
  match allocate scope pm s (allocation_request req (request_target req)) (in_alloc_now i) with
  | Ok (_, alloc) => Some (new_lease req alloc StateBound (in_now i))
  | _ => None
  end.

(** The address a RELEASE gives back. *)
Definition release_target (req : Packet) : bytes :=
  let ci := to4 (pk_ciaddr req) in
  if bool_decide (ci = []) || is_zero_ipv4 ci then requested_ip (pk_options req) else ci.

Definition written_release (s : S) (req : Packet) (i : Inputs) : option Lease :=
  if bool_decide (release_target req = []) then None
  else match ls_get_by_ip s (ip_string (release_target req)) with
       | Ok l => Some (l <| l_state := StateReleased |> <| l_updated_at := in_now i |>
                         <| l_expiry_time := in_now i |>)
       | _ => None
       end.

(** The address a DECLINE is about. *)
Definition decline_target (req : Packet) : bytes :=
  let ip := requested_ip (pk_options req) in
  if bool_decide (ip = []) then to4 (pk_ciaddr req) else ip.

Definition written_decline (s : S) (req : Packet) (i : Inputs) : option Lease :=
  if bool_decide (decline_target req = []) || is_zero_ipv4 (decline_target req) then None
  else match ls_get_by_ip s (ip_string (decline_target req)) with
       | Ok l => Some (l <| l_state := StateDeclined |>
                         <| l_quarantine_until := time_add (in_now i) (15 * minute) |>
                         <| l_updated_at := in_now i |>)
       | _ => None
       end.

Definition written (scope : scope_provider) (s : S) (pm : PoolManager) (req : Packet) (i : Inputs)
    : option Lease :=
  match message_type (pk_options req) with
  | None => None
  | Some t =>
      if bool_decide (t = MessageDiscover) then written_discover scope s pm req i
      else if bool_decide (t = MessageRequest) then written_request scope s pm req i
      else if bool_decide (t = MessageRelease) then written_release s req i
      else if bool_decide (t = MessageDecline) then written_decline s req i
      else None
  end.

(** The map after a write. *)
Definition after_write (m : lease_map) (env : ls_env) (w : option Lease) : lease_map :=
  match w with Some l => <[l_ip l := stored (ls_now env) l]> m | None => m end.

Lemma with_relay_info_fields req l :
  let l' := with_relay_info req l in
  l_ip l' = l_ip l ∧ l_mac l' = l_mac l ∧ l_subnet_id l' = l_subnet_id l ∧ l_state l' = l_state l ∧
  l_duration l' = l_duration l ∧ l_expiry_time l' = l_expiry_time l.
Proof. unfold with_relay_info. by destruct (pk_options req !! _). Qed.
End spec.
