(* ===== verification/Dhcp4Theorems.v ===== *)
(** What the DHCPv4 server guarantees. *)

From S2P Require Import Prelude.
From S2P Require Import GoBytes.
From S2P Require Import GoStrings.
From S2P Require Import GoTime.
From S2P Require Import GoJson.
From S2P Require Import GoNet.
From S2P Require Import StorageEngine.
From S2P Require Import ConfigTypes.
From S2P Require Import Lease.
From S2P Require Import LeaseStore.
From S2P Require Import LeaseInterface.
From S2P Require Import LeaseSpec.
From S2P Require Import LeaseTheorems.
From S2P Require Import Dhcp4Wire.
From S2P Require Import Dhcp4Pool.
From S2P Require Import Dhcp4PoolSpec.
From S2P Require Import Dhcp4Handler.
From S2P Require Import Dhcp4Spec.

Section lemmas.
Context {S : Type} `{U : UnicodeTables} `{LS : LeaseStore S} `{!LeaseStoreLaws S}.

(** The messages that give an address back, or declare it in use: a RELEASE or a DECLINE
    that names it, whoever sends it. *)
Definition frees (req : Packet) (ip : bytes) : Prop :=
  (message_type (pk_options req) = Some MessageRelease ∧ ip = ip_string (release_target req)) ∨
  (message_type (pk_options req) = Some MessageDecline ∧ ip = ip_string (decline_target req)).

(** What every message does to the server's state: the holder of an address stays its
    holder, and keeps it unless it is freed. *)
Definition handled (m : lease_map) (env : ls_env) (w : option Lease) (freed : bytes → Prop)
    (r : result (Outcome (S := S))) : Prop :=
  ∃ o, r = Ok o ∧ dhcp_inv (o_store o) (o_pools o) (after_write m env w) ∧
    ∀ ip old, m !! ip = Some old → active old →
      ∃ new, after_write m env w !! ip = Some new ∧
        normalize_mac (l_mac new) = normalize_mac (l_mac old) ∧ (active new ∨ freed ip).

(** The rows of active leases after a write that keeps the owner. *)
Lemma owner_kept m env l (freed : bytes → Prop) :
  (∀ old, m !! l_ip l = Some old → active old →
     normalize_mac (l_mac l) = normalize_mac (l_mac old)) →
  active l ∨ freed (l_ip l) →
  ∀ ip old, m !! ip = Some old → active old →
    ∃ new, after_write m env (Some l) !! ip = Some new ∧
      normalize_mac (l_mac new) = normalize_mac (l_mac old) ∧ (active new ∨ freed ip).
Proof.
  intros Hl Hf ip old Hold Hact. simpl. destruct (decide (ip = l_ip l)) as [-> |Hne].
  - rewrite lookup_insert_eq. eexists. split; [done|].
    destruct (stored_fields (ls_now env) l) as (_ & -> & _ & Hst & _). unfold active in *. rewrite Hst.
    split; [by apply Hl|done].
  - rewrite lookup_insert_ne by done. eauto 6.
Qed.

Lemma allocate_result s pm m req now scope :
  dhcp_inv s pm m →
  match allocate scope pm s req now with
  | Ok (pm', res) => result_of pm m req now scope pm' res
  | Err _ => True
  | Panic _ => False
  end.
Proof.
  intros Hi.
  pose proof (allocate_spec scope pm s m req now (inv_store _ _ _ Hi) (inv_pools _ _ _ Hi)) as Ha.
  by destruct (allocate scope pm s req now) as [[pm' res]| |].
Qed.

(** The branches that change nothing. *)
Ltac quiet := eexists; split; [done|]; split; [done|by eauto 6].

(** A message that only writes a lease back as inactive. *)
Lemma write_back s pm m ip0 l l' env :
  dhcp_inv s pm m → m !! ip0 = Some l → l_ip l' = l_ip l → l_mac l' = l_mac l → ¬ active l' →
  ls_writable env l' →
  ∃ s', ls_upsert s l' env = (s', None) ∧
    dhcp_inv s' pm (<[l_ip l' := stored (ls_now env) l']> m) ∧
    (∀ old, m !! l_ip l' = Some old → active old →
       normalize_mac (l_mac l') = normalize_mac (l_mac old)).
Proof.
  intros Hi Hl Hip Hmac Hact Hw.
  pose proof (ls_keyed _ _ _ _ (inv_store _ _ _ Hi) Hl) as <-.
  destruct (ls_upsert_law s m l' env (inv_store _ _ _ Hi) Hw) as (s' & E & Hs').
  exists s'. split; [done|]. split; [by eapply inv_deactivate|].
  intros old Hold _. rewrite Hip, Hl in Hold. congruence.
Qed.

Lemma handle_discover_ok h scope s pm m req i :
  dhcp_inv s pm m →
  (∀ l, written_discover scope s pm req i = Some l → ls_writable (in_env i) l) →
  handled m (in_env i) (written_discover scope s pm req i) (frees req)
    (handle_discover h scope s pm req (has_rapid_commit (pk_options req)) i).
Proof.
  intros Hi Hw. unfold handled, written_discover, handle_discover in *.
  pose proof (allocate_result s pm m (allocation_request req (requested_ip (pk_options req)))
    (in_alloc_now i) scope Hi) as Hres.
  destruct (allocate _ _ _ _ _) as [[pm' res]|e|p]; [|quiet|done].
  set (st := if has_rapid_commit (pk_options req) then StateBound else StateOffered) in *.
  set (l := with_relay_info req _) in *.
  destruct (with_relay_info_fields req (new_lease req res st (in_now i)))
    as (Hip & Hmac & Hsub & Hst & _).
  change (l_ip l = ip_string (ar_ip res)) in Hip.
  change (l_mac l = mac_string (client_mac req)) in Hmac.
  change (l_subnet_id l = ar_subnet_id res) in Hsub. change (l_state l = st) in Hst. clearbody l.
  destruct (ls_upsert_law s m l (in_env i) (inv_store _ _ _ Hi) (Hw l eq_refl)) as (s' & -> & Hs').
  eexists. split; [done|]. cbn. split.
  - by apply (inv_allocate _ _ _ _ _ _ _ _ l s' _ Hi Hres).
  - apply owner_kept; [|left; unfold active; rewrite Hst; subst st; destruct (has_rapid_commit _); set_solver].
    intros old Hold Hact. rewrite Hmac. symmetry.
    rewrite Hip in Hold. by apply (allocated_owner _ _ _ _ _ _ _ _ _ Hi Hres).
Qed.

Lemma handle_request_ok h scope s pm m req i :
  dhcp_inv s pm m →
  (∀ l, written_request scope s pm req i = Some l → ls_writable (in_env i) l) →
  handled m (in_env i) (written_request scope s pm req i) (frees req)
    (handle_request h scope s pm req i).
Proof.
  intros Hi Hw. unfold handled, written_request, handle_request in *.
  fold (request_target req). set (target := request_target req) in *.
  pose proof (allocate_result s pm m (allocation_request req target)
    (in_alloc_now i) scope Hi) as Hres.
  destruct (allocate _ _ _ _ _) as [[pm' res]|e|p]; [|quiet|done].
  set (l := new_lease req res StateBound (in_now i)) in *.
  destruct (ls_upsert_law s m l (in_env i) (inv_store _ _ _ Hi) (Hw l eq_refl)) as (s' & -> & Hs').
  eexists. split; [done|]. cbn [o_store o_pools]. split.
  - by apply (inv_allocate _ _ _ _ _ _ _ _ l s' _ Hi Hres).
  - apply owner_kept; [|left; unfold active; simpl; set_solver]. intros old Hold Hact. symmetry.
    by apply (allocated_owner _ _ _ _ _ _ _ _ _ Hi Hres).
Qed.

Lemma handle_release_ok s pm m req i :
  dhcp_inv s pm m → message_type (pk_options req) = Some MessageRelease →
  (∀ l, written_release s req i = Some l → ls_writable (in_env i) l) →
  handled m (in_env i) (written_release s req i) (frees req)
    (handle_release s pm req i).
Proof.
  intros Hi Ht Hw. unfold handled, written_release, handle_release in *.
  fold (release_target req). set (ip := release_target req) in *.
  case_bool_decide as Hnil; [quiet|].
  assert (Hv4 : is_ipv4 ip).
  { subst ip. unfold release_target in *. destruct (_ || _) eqn:E in Hnil |- *.
    - unfold requested_ip in *. destruct (pk_options req !! _) as [v|]; [|done].
      case_bool_decide; [by apply to4_length|done].
    - by apply to4_length. }
  rewrite (ls_get_by_ip_law _ _ _ (inv_store _ _ _ Hi)) in *.
  destruct (m !! ip_string ip) as [l|] eqn:El; [|quiet].
  set (l' := setter _ _) in *.
  pose proof (ls_keyed _ _ _ _ (inv_store _ _ _ Hi) El) as Hkey.
  assert (Hact : ¬ active l') by (unfold active; simpl; apply (bool_decide_unpack _); done).
  destruct (write_back s pm m _ l l' (in_env i) Hi El eq_refl eq_refl Hact (Hw l' eq_refl))
    as (s' & -> & Hi' & Hown).
  assert (Ha : lease_addr l = ip) by (unfold lease_addr; rewrite Hkey; by apply parse_ip_string).
  destruct (mark_free_inv s' pm (<[l_ip l' := stored (ls_now (in_env i)) l']> m) (in_order i)
    (stored (ls_now (in_env i)) l') (l_subnet_id l') Hi') as (pm' & Epm & Hi'').
  - destruct (stored_fields (ls_now (in_env i)) l') as (-> & _). apply lookup_insert_eq.
  - destruct (stored_fields (ls_now (in_env i)) l') as (_ & _ & _ & Hst & _).
    unfold active. by rewrite Hst.
  - destruct (stored_fields (ls_now (in_env i)) l') as (_ & _ & _ & _ & ->).
    change (lease_addr l ≠ []). by rewrite Ha.
  - destruct (stored_fields (ls_now (in_env i)) l') as (_ & _ & _ & _ & Eaddr).
    rewrite Eaddr in Epm. change (lease_addr l') with (lease_addr l) in Epm. rewrite Ha in Epm.
    unfold release. rewrite to4_id by done. rewrite Epm.
    eexists. split; [done|]. cbn [o_store o_pools]. split; [done|]. apply owner_kept; [done|].
    right. left. split; [done|]. exact Hkey.
Qed.

Lemma handle_decline_ok s pm m req i :
  dhcp_inv s pm m → message_type (pk_options req) = Some MessageDecline →
  (∀ l, written_decline s req i = Some l → ls_writable (in_env i) l) →
  handled m (in_env i) (written_decline s req i) (frees req)
    (handle_decline s pm req i).
Proof.
  intros Hi Ht Hw. unfold handled, written_decline, handle_decline in *.
  fold (decline_target req). set (ip := decline_target req) in *.
  destruct (bool_decide (ip = []) || is_zero_ipv4 ip); [quiet|].
  rewrite (ls_get_by_ip_law _ _ _ (inv_store _ _ _ Hi)) in *.
  destruct (m !! ip_string ip) as [l|] eqn:El; [|quiet].
  set (l' := setter _ _) in *.
  assert (Hact : ¬ active l') by (unfold active; simpl; apply (bool_decide_unpack _); done).
  destruct (write_back s pm m _ l l' (in_env i) Hi El eq_refl eq_refl Hact (Hw l' eq_refl))
    as (s' & -> & Hi' & Hown).
  eexists. split; [done|]. cbn [o_store o_pools]. split; [done|]. apply owner_kept; [done|].
  right. right. split; [done|]. exact (ls_keyed _ _ _ _ (inv_store _ _ _ Hi) El).
Qed.

Lemma handled_quiet s pm m env freed o :
  dhcp_inv s pm m → o_store o = s → o_pools o = pm → handled m env None freed (Ok o).
Proof. intros Hi <- <-. exists o. split_and!; [done|done|eauto 6]. Qed.

Lemma handle_ok h scope s pm m req i :
  dhcp_inv s pm m →
  (∀ l, written scope s pm req i = Some l → ls_writable (in_env i) l) →
  handled m (in_env i) (written scope s pm req i) (frees req) (handle h scope s pm req i).
Proof.
  intros Hi. unfold written, handle.
  destruct (message_type (pk_options req)) as [t|] eqn:Et; [|intros _; by eapply handled_quiet].
  case_bool_decide; [by apply handle_discover_ok|].
  case_bool_decide; [by apply handle_request_ok|].
  case_bool_decide; [apply handle_release_ok; congruence|].
  case_bool_decide; [apply handle_decline_ok; congruence|].
  intros _. case_bool_decide; by eapply handled_quiet.
Qed.

(** ** Many messages *)

(** The messages of all clients, one after the other, each with its inputs. *)
Fixpoint handle_all (h : Handler) (scope : scope_provider) (s : S) (pm : PoolManager) (msgs : list (Packet * Inputs))
    : result (S * PoolManager) :=
  match msgs with
  | [] => Ok (s, pm)
  | (req, i) :: msgs => o ← handle h scope s pm req i; handle_all h scope (o_store o) (o_pools o) msgs
  end.
(** The lease each of them writes can be stored. *)
Fixpoint writable_all (h : Handler) (scope : scope_provider) (s : S) (pm : PoolManager) (msgs : list (Packet * Inputs)) : Prop :=
  match msgs with
  | [] => True
  | (req, i) :: msgs =>
      (∀ l, written scope s pm req i = Some l → ls_writable (in_env i) l) ∧
      ∀ o, handle h scope s pm req i = Ok o → writable_all h scope (o_store o) (o_pools o) msgs
  end.

Lemma handle_all_ok h scope s pm m msgs :
  dhcp_inv s pm m → writable_all h scope s pm msgs →
  ∃ s' pm' m', handle_all h scope s pm msgs = Ok (s', pm') ∧ dhcp_inv s' pm' m' ∧
    ∀ ip old, m !! ip = Some old → active old → Forall (λ x, ¬ frees x.1 ip) msgs →
      ∃ new, m' !! ip = Some new ∧ active new ∧ normalize_mac (l_mac new) = normalize_mac (l_mac old).
Proof.
  revert s pm m. induction msgs as [|[req i] msgs IH]; intros s pm m Hi; cbn [handle_all writable_all].
  - intros _. exists s, pm, m. split_and!; eauto.
  - intros [Hw Hws]. destruct (handle_ok h scope s pm m req i Hi Hw) as (o & E & Hi' & Hkept). rewrite E. cbn [mbind result_bind].
    destruct (IH _ _ _ Hi' (Hws o E)) as (s' & pm' & m' & E' & Hi'' & Hall). exists s', pm', m'. split_and!; [done..|].
    intros ip old Hold Hact Hf. apply Forall_cons in Hf as [Hf Hfs].
    destruct (Hkept ip old Hold Hact) as (new & Hnew & Hmac & [Hact'|?]); [|done].
    destruct (Hall ip new Hnew Hact' Hfs) as (new' & ? & ? & ?). exists new'. split_and!; congruence.
Qed.
End lemmas.

(** * Replies *)

Section replies.
Context {S : Type} `{U : UnicodeTables} `{LS : LeaseStore S} `{!LeaseStoreLaws S}.

(** What a client is promised with an address. *)
Definition promised (m' : lease_map) (req : Packet) (st : bytes) (resp : Packet) : Prop :=
  is_ipv4 (pk_yiaddr resp) ∧
  ∃ l, m' !! ip_string (pk_yiaddr resp) = Some l ∧ l_state l = st ∧
    l_mac l = mac_string (client_mac req) ∧ lease_addr l = pk_yiaddr resp.

Lemma promised_new req alloc st l m env resp :
  is_ipv4 (ar_ip alloc) → l_ip l = ip_string (ar_ip alloc) → l_mac l = mac_string (client_mac req) →
  l_state l = st → pk_yiaddr resp = ar_ip alloc →
  promised (after_write m env (Some l)) req st resp.
Proof.
  intros Hv4 Hip Hmac Hst Hy. unfold promised. rewrite Hy. split; [done|]. simpl.
  exists (stored (ls_now env) l). rewrite <-Hip, lookup_insert_eq.
  destruct (stored_fields (ls_now env) l) as (_ & -> & _ & -> & ->). split_and!; try done.
  unfold lease_addr. rewrite Hip. by apply parse_ip_string.
Qed.

(** The messages that promise an address. *)
Definition promises (t : byte) (st : bytes) : Prop :=
  (t = MessageOffer ∧ st = StateOffered) ∨ (t = MessageAck ∧ st = StateBound).

Lemma lease_options_type h t alloc : message_type (lease_options h t alloc) = Some t.
Proof.
  unfold lease_options, message_type, set_ipv4_list, set_ipv4, set_duration_seconds, set_message_type.
  assert (E : ∀ (o : options) k v, k ≠ OptionMessageType →
    <[k := v]> o !! OptionMessageType = o !! OptionMessageType) by (intros; by apply lookup_insert_ne).
  repeat case_bool_decide; rewrite !E by done; by rewrite lookup_insert_eq.
Qed.

Lemma release_silent s pm req i o : handle_release s pm req i = Ok o → o_reply o = None.
Proof.
  unfold handle_release. case_bool_decide; [by intros [= <-]|].
  destruct (ls_get_by_ip s _) as [l| |]; try by intros [= <-].
  destruct (ls_upsert _ _ _) as [s' [e|]]; [by intros [= <-]|].
  by intros (pm' & _ & [= <-])%bind_ok.
Qed.

Lemma decline_silent s pm req i o : handle_decline s pm req i = Ok o → o_reply o = None.
Proof.
  unfold handle_decline. destruct (_ || _); [by intros [= <-]|].
  destruct (ls_get_by_ip s _) as [l| |]; try by intros [= <-].
  destruct (ls_upsert _ _ _) as [s' [e|]]; by intros [= <-].
Qed.

Lemma enable_rapid_type o : message_type (enable_rapid_commit o) = message_type o.
Proof. unfold message_type, enable_rapid_commit. by rewrite lookup_insert_ne by done. Qed.
End replies.

(** * The theorems *)


(** Start-up establishes the invariant: the pools of a configuration without
    a range at 0.0.0.0 are well formed, and after the synchronisation with the
    stored leases every active lease's address is marked, so a restart cannot
    hand it out. *)
Theorem startup_establishes {S} `{UnicodeTables} `{LeaseStore S} `{!LeaseStoreLaws S}
    subnets default (s : S) m ord pm0 :
  ls_map s m → Forall starts_positive subnets →
  add_subnets default (mkPoolManager ∅ []) subnets = Ok pm0 → pm_disjoint pm0 →
  map_Forall (λ _, lease_canonical) m → map_Forall (λ _, placed pm0) m →
  ∃ pm, new_pool_manager subnets default s ord = Ok pm ∧ dhcp_inv s pm m.
Proof. apply startup_inv. Qed.

(** C7: an address is promised only after it is stored: whenever the server
    answers with an OFFER or an ACK that carries an address, the store holds a
    lease of that address for the client's hardware address, offered or bound
    accordingly. *)
Theorem replies_are_leased {S} `{UnicodeTables} `{LeaseStore S} `{!LeaseStoreLaws S}
    h scope (s : S) pm m req i o resp t :
  dhcp_inv s pm m →
  (∀ l, written scope s pm req i = Some l → ls_writable (in_env i) l) →
  handle h scope s pm req i = Ok o → o_reply o = Some resp →
  message_type (pk_options resp) = Some t → t ∈ [MessageOffer; MessageAck] → pk_yiaddr resp ≠ [] →
  ∃ st m', promises t st ∧ ls_map (o_store o) m' ∧ promised m' req st resp.
Proof.
  intros Hi Hw Hh Hresp Ht Htin Hy.
  destruct (handle_ok h scope s pm m req i Hi Hw) as (o' & Eo & Hinv & _).
  rewrite Hh in Eo. injection Eo as <-.
  cut (∃ st, promises t st ∧
    promised (after_write m (in_env i) (written scope s pm req i)) req st resp).
  { intros (st & Hp & Hpr). exists st, (after_write m (in_env i) (written scope s pm req i)).
    split_and!; [done|by apply inv_store in Hinv|done]. }
  clear Hinv Hw. revert Hh. unfold handle, written.
  destruct (message_type (pk_options req)) as [t0|]; [|by intros [= <-]].
  case_bool_decide.
  { unfold handle_discover, written_discover.
    pose proof (allocate_result s pm m (allocation_request req (requested_ip (pk_options req)))
      (in_alloc_now i) scope Hi) as Hres.
    destruct (allocate _ _ _ _ _) as [[pm' res]| |]; [|by intros [= <-]|done].
    destruct Hres as [(_ & _ & (Hv4 & _) & _) _].
    destruct (ls_upsert _ _ _) as [s' [er|]]; [by intros [= <-]|]. intros E. injection E as <-.
    cbn in Hresp. injection Hresp as <-. destruct (has_rapid_commit _); cbn in Ht.
    - rewrite enable_rapid_type, lease_options_type in Ht. injection Ht as <-.
      exists StateBound. split; [by right|].
      by eapply (promised_new _ res); try done; apply with_relay_info_fields.
    - rewrite lease_options_type in Ht. injection Ht as <-.
      exists StateOffered. split; [by left|].
      by eapply (promised_new _ res); try done; apply with_relay_info_fields. }
  case_bool_decide.
  { unfold handle_request, written_request. fold (request_target req).
    pose proof (allocate_result s pm m (allocation_request req (request_target req))
      (in_alloc_now i) scope Hi) as Hres.
    destruct (allocate _ _ _ _ _) as [[pm' res]| |]; [| |done].
    - destruct Hres as [(_ & _ & (Hv4 & _) & _) _].
      destruct (ls_upsert _ _ _) as [s' [er|]]; [by intros [= <-]|]. intros E. injection E as <-.
      cbn in Hresp. injection Hresp as <-. cbn in Ht. rewrite lease_options_type in Ht.
      injection Ht as <-. exists StateBound. split; [by right|].
      by eapply (promised_new _ res).
    - intros E. injection E as <-. cbn in Hresp. injection Hresp as <-. done. }
  case_bool_decide.
  { intros E%release_silent. congruence. }
  case_bool_decide.
  { intros E%decline_silent. congruence. }
  case_bool_decide.
  - unfold handle_inform. intros E. injection E as <-. cbn in Hresp. by injection Hresp as <-.
  - by intros [= <-].
Qed.

(** C8: the allocator never fails while an address is left.  It gives the client
    back one of the active leases it holds, if there is one; otherwise it gives an
    address of a candidate pool, inside the scope, that was not marked and now
    is, and changes no other mark; it fails only when every address the scope
    allows in every candidate pool is marked; and it never panics. *)
Theorem allocation_complete {S} `{UnicodeTables} `{LeaseStore S} `{!LeaseStoreLaws S}
    scope pm (s : S) m req now :
  ls_map s m → pm_ok pm →
  match allocate scope pm s req now with
  | Ok (pm', res) => allocated pm pm' res ∧
      ((∃ l, own_lease m pm req now l ∧
          ar_ip res = lease_addr l ∧ ar_subnet_id res = l_subnet_id l)
       ∨ (fresh scope pm pm' res ∧ ar_subnet_id res ∈ select_candidate_pools pm req ∧
          ∀ l, ¬ own_lease m pm req now l))
  | Err _ => (∀ l, ¬ own_lease m pm req now l) ∧
      ∀ id, id ∈ select_candidate_pools pm req → exhausted scope pm id
  | Panic _ => False
  end.
Proof. apply allocate_spec. Qed.

(** A REQUEST for an address the client does not hold is acknowledged with a
    different address, not refused, when the client holds an active lease: the
    allocator looks at the client's leases before the requested address. *)
Theorem request_acks_other_address {S} `{UnicodeTables} `{LeaseStore S} `{!LeaseStoreLaws S}
    h scope (s : S) pm m req i l :
  dhcp_inv s pm m →
  let areq := allocation_request req (request_target req) in
  own_lease m pm areq (in_alloc_now i) l →
  (∀ l', own_lease m pm areq (in_alloc_now i) l' → lease_addr l' ≠ request_target req) →
  (∀ l', written_request scope s pm req i = Some l' → ls_writable (in_env i) l') →
  ∃ o resp, handle_request h scope s pm req i = Ok o ∧ o_reply o = Some resp ∧
    message_type (pk_options resp) = Some MessageAck ∧ pk_yiaddr resp ≠ request_target req.
Proof.
  intros Hi areq Hl Hne Hw. unfold handle_request, written_request in *.
  fold (request_target req). fold areq in Hw |- *.
  pose proof (allocate_result s pm m areq (in_alloc_now i) scope Hi) as Hres.
  pose proof (allocate_spec scope pm s m areq (in_alloc_now i) (inv_store _ _ _ Hi)
    (inv_pools _ _ _ Hi)) as Hspec.
  destruct (allocate scope pm s areq (in_alloc_now i)) as [[pm' res]|e|p]; [| |done].
  - destruct (ls_upsert_law s m _ (in_env i) (inv_store _ _ _ Hi) (Hw _ eq_refl)) as (s' & -> & _).
    eexists _, _. split; [done|]. split; [done|]. cbn. rewrite lease_options_type. split; [done|].
    destruct Hres as [_ [(l' & Hl' & -> & _)|(_ & _ & Hnone)]]; [by apply Hne|].
    by destruct (Hnone l).
  - by destruct (proj1 Hspec l).
Qed.

(** The seconds an option holds. *)
Definition option_seconds (o : options) (code : byte) : option Z := be_get <$> o !! code.

(** The times of a reply are consistent: renewal before rebinding before the
    lease time, all of them 32-bit numbers, and the lease time is the pool's in
    whole seconds, rounded up below one second and capped at 2^32-1. *)
Theorem lease_times_ordered h t alloc :
  let o := lease_options h t alloc in
  ∃ lease t1 t2, option_seconds o OptionIPAddressLeaseTime = Some lease ∧
    option_seconds o OptionRenewalTimeValue = Some t1 ∧
    option_seconds o OptionRebindingTimeValue = Some t2 ∧
    0 ≤ t1 ≤ t2 ∧ t2 ≤ lease < 2 ^ 32 ∧ (8 ≤ lease → t1 < t2 < lease) ∧
    (0 < ar_lease_duration alloc →
     lease = Z.max 1 (Z.min (ar_lease_duration alloc / second) (2 ^ 32 - 1))).
Proof.
  intros o. set (lease := duration_to_uint32_seconds (ar_lease_duration alloc)).
  assert (Hb : 0 ≤ lease < 2 ^ 32 ∧ (0 < ar_lease_duration alloc →
     lease = Z.max 1 (Z.min (ar_lease_duration alloc / second) (2 ^ 32 - 1)))).
  { subst lease. unfold duration_to_uint32_seconds, dur_quot.
    destruct (Z.leb_spec (ar_lease_duration alloc) 0); [lia|].
    rewrite Z.quot_div_nonneg by (done || lia). set (q := _ / second).
    assert (0 ≤ q) by (apply Z.div_pos; done || lia).
    destruct (Z.leb_spec q 0); [lia|]. destruct (Z.ltb_spec max_u32 q); [lia|].
    rewrite u32_id; lia. }
  destruct Hb as [Hb Hdur].
  pose proof (Z.div_mod lease 2 ltac:(lia)). pose proof (Z.mod_pos_bound lease 2 ltac:(lia)).
  pose proof (Z.div_mod lease 8 ltac:(lia)). pose proof (Z.mod_pos_bound lease 8 ltac:(lia)).
  assert (Hu : u32 (lease - lease / 8) = lease - lease / 8) by (apply u32_id; lia).
  exists lease, (lease / 2), (lease - lease / 8).
  assert (Hget : ∀ k v, o !! k = Some (be_put 4 v) → 0 ≤ v < 2 ^ 32 → option_seconds o k = Some v).
  { intros k v E Hv. unfold option_seconds. rewrite E. simpl. f_equal. by apply be_get_put_id. }
  split_and!; try lia; try (by intros H1; apply Hdur); apply Hget; try lia;
    subst o; unfold lease_options, set_duration_seconds, set_ipv4, set_ipv4_list; fold lease;
    rewrite ?Hu; repeat case_bool_decide;
    repeat (rewrite lookup_insert_eq || rewrite lookup_insert_ne by done); done.
Qed.

(** * Witnesses: one subnet, one bound lease *)

#[local] Existing Instance ascii_tables.
#[local] Existing Instance packed_lease.

Definition demo_subnet : SubnetConfig :=
  mkSubnetConfig (bs "10.0.0.0/24") (bs "lab") 0 (bs "10.0.0.1") [bs "10.0.0.53"] true (bs "10.0.0.10")
    (bs "10.0.0.14") (2 * hour) 0 [] [].
Definition demo_order : Lease → list bytes := λ _, [bs "10.0.0.0/24"].
Definition demo_pool (used : bool) : subnetPool :=
  mkSubnetPool (bs "10.0.0.0/24") (mkPrefix (A4 (map byte_of_Z [10; 0; 0; 0])) 24) 167772170 167772174
    [used; false; false; false; false] (map byte_of_Z [10; 0; 0; 1])
    [map byte_of_Z [10; 0; 0; 53]] (2 * hour).
Definition demo_pm (used : bool) : PoolManager :=
  mkPoolManager {[ bs "10.0.0.0/24" := demo_pool used ]} [bs "10.0.0.0/24"].

Lemma demo_pm_disjoint used : pm_disjoint (demo_pm used).
Proof.
  intros id id' p p' v Hp Hp' _ _. simpl in *.
  apply lookup_singleton_Some in Hp as [<- _]. by apply lookup_singleton_Some in Hp' as [<- _].
Qed.

Lemma demo_added : add_subnets (12 * hour) (mkPoolManager ∅ []) [demo_subnet] = Ok (demo_pm false).
Proof. vm_compute. reflexivity. Qed.

Lemma demo_canonical : map_Forall (λ _, lease_canonical) demo_map1.
Proof.
  unfold demo_map1. apply map_Forall_singleton. intros _. vm_compute. reflexivity.
Qed.

Lemma demo_placed : map_Forall (λ _, placed (demo_pm false)) demo_map1.
Proof.
  unfold demo_map1. apply map_Forall_singleton. intros _ _ id p Hp _. simpl in Hp.
  apply lookup_singleton_Some in Hp as [<- _].
  split; [vm_compute; reflexivity|done].
Qed.

Lemma startup_establishes_witness :
  ∃ pm, new_pool_manager [demo_subnet] (12 * hour) demo_store1 demo_order = Ok pm ∧
    dhcp_inv demo_store1 pm demo_map1.
Proof.
  apply (startup_establishes _ _ _ _ _ (demo_pm false)).
  - apply demo_store1_map.
  - constructor; [|constructor]. intros ad a E1 E2. vm_compute in E1. injection E1 as <-.
    vm_compute in E2. injection E2 as <-. vm_compute. done.
  - apply demo_added.
  - apply demo_pm_disjoint.
  - apply demo_canonical.
  - apply demo_placed.
Defined.

Lemma demo_started : new_pool_manager [demo_subnet] (12 * hour) demo_store1 demo_order = Ok (demo_pm true).
Proof. vm_compute. reflexivity. Qed.

Lemma demo_inv : dhcp_inv demo_store1 (demo_pm true) demo_map1.
Proof.
  destruct (startup_inv [demo_subnet] (12 * hour) demo_store1 demo_map1 demo_order (demo_pm false))
    as (pm & E & Hi).
  - apply demo_store1_map.
  - constructor; [|constructor]. intros ad a E1 E2. vm_compute in E1. injection E1 as <-.
    vm_compute in E2. injection E2 as <-. vm_compute. done.
  - apply demo_added.
  - apply demo_pm_disjoint.
  - apply demo_canonical.
  - apply demo_placed.
  - rewrite demo_started in E. by injection E as <-.
Qed.

(** A REQUEST of a second client for the address of the first. *)
Definition demo_request (mac : Z) : Packet :=
  demo_packet <| pk_chaddr := map byte_of_Z [170; 187; 204; 0; 17; mac] ++ zeros 10 |>
    <| pk_options := {[ OptionMessageType := [MessageRequest];
                        OptionRequestedIP := map byte_of_Z [10; 0; 0; 12] ]} |>.
Definition demo_inputs : Inputs (S := EngineStore) :=
  mkInputs (demo_now + minute) (demo_now + minute)
    (mkWriteEnv (demo_now + minute) (demo_now + minute) []) [].

(** The write of a message, when it computes to an accepted one. *)
Lemma demo_write_ok (w : option Lease) :
  match w with
  | Some x => bool_decide (trim_space (l_ip x) ≠ [] ∧
      lease_packed_ok (stored (demo_now + minute) x) ∧ lease_fits (stored (demo_now + minute) x) ∧
      zlen (pack (lease_fields (stored (demo_now + minute) x))) < 4294900000)
  | None => true
  end = true →
  ∀ l, w = Some l → ls_writable (S := EngineStore) (in_env demo_inputs) l.
Proof. intros Hc l ->. split; [done|]. by apply upsert_ok_check. Qed.

Definition demo_handler : Handler := new_handler (map byte_of_Z [10; 0; 0; 1]) 0 0.

Definition demo_outcome (mac : Z) : Outcome (S := EngineStore) :=
  match handle demo_handler None demo_store1 (demo_pm true) (demo_request mac) demo_inputs with
  | Ok o => o
  | _ => mkOutcome demo_store1 (demo_pm true) None None []
  end.

Definition demo_reply (mac : Z) : Packet := default zero_packet (o_reply (demo_outcome mac)).

Lemma demo_handled mac :
  match handle demo_handler None demo_store1 (demo_pm true) (demo_request mac) demo_inputs with
  | Ok o => bool_decide (is_Some (o_reply o))
  | _ => false
  end = true →
  handle demo_handler None demo_store1 (demo_pm true) (demo_request mac) demo_inputs
    = Ok (demo_outcome mac) ∧ o_reply (demo_outcome mac) = Some (demo_reply mac).
Proof.
  unfold demo_reply, demo_outcome. destruct (handle _ _ _ _ _ _) as [o| |]; [|done..].
  intros Hr. apply bool_decide_eq_true in Hr as [resp Hr]. by rewrite Hr.
Qed.

(** The second client asks twice for the address of the first. *)
Definition demo_messages : list (Packet * Inputs (S := EngineStore)) :=
  [(demo_request 35, demo_inputs); (demo_request 35, demo_inputs)].
Lemma demo_messages_writable : writable_all demo_handler None demo_store1 (demo_pm true) demo_messages.
Proof.
  split; [apply demo_write_ok; vm_compute; reflexivity|]. intros o Ho.
  destruct (demo_handled 35) as [Hh _]; [vm_compute; reflexivity|]. assert (o = demo_outcome 35) as -> by congruence.
  split; [apply demo_write_ok; vm_compute; reflexivity|done].
Qed.

(** Another client releases the address of the first, asks for it, and gets it. *)
Definition demo_release : Packet :=
  demo_request 35 <| pk_options := {[ OptionMessageType := [MessageRelease]; OptionRequestedIP := map byte_of_Z [10; 0; 0; 10] ]} |>.
Definition demo_take : Packet :=
  demo_request 35 <| pk_options := {[ OptionMessageType := [MessageRequest]; OptionRequestedIP := map byte_of_Z [10; 0; 0; 10] ]} |>.
Lemma release_by_another :
  let holder (msgs : list (Packet * Inputs (S := EngineStore))) :=
    match handle_all demo_handler None demo_store1 (demo_pm true) msgs with
    | Ok (s, _) => match ls_get_by_ip s (bs "10.0.0.10") with Ok l => (l_mac l, l_state l) | _ => ([], []) end
    | _ => ([], [])
    end in
  holder [] = (bs "aa:bb:cc:00:11:22", StateBound) ∧
  holder [(demo_release, demo_inputs); (demo_take, demo_inputs)] = (bs "aa:bb:cc:00:11:23", StateBound).
Proof. vm_compute. split; reflexivity. Qed.

Lemma replies_are_leased_witness :
  ∃ st m', promises MessageAck st ∧ ls_map (o_store (demo_outcome 35)) m' ∧
    promised m' (demo_request 35) st (demo_reply 35).
Proof.
  destruct (demo_handled 35) as [Hh Hr]; [vm_compute; reflexivity|].
  apply (replies_are_leased demo_handler None demo_store1 (demo_pm true) demo_map1 (demo_request 35)
    demo_inputs).
  - apply demo_inv.
  - apply demo_write_ok. vm_compute. reflexivity.
  - exact Hh.
  - exact Hr.
  - vm_compute. reflexivity.
  - apply (bool_decide_unpack _). vm_compute. done.
  - vm_compute. done.
Defined.

Lemma allocation_complete_witness :
  let req := allocation_request (demo_request 35) (request_target (demo_request 35)) in
  match allocate None (demo_pm true) demo_store1 req demo_now with
  | Ok (pm', res) => allocated (demo_pm true) pm' res ∧
      ((∃ l, own_lease demo_map1 (demo_pm true) req demo_now l ∧
          ar_ip res = lease_addr l ∧ ar_subnet_id res = l_subnet_id l)
       ∨ (fresh None (demo_pm true) pm' res ∧
          ar_subnet_id res ∈ select_candidate_pools (demo_pm true) req ∧
          ∀ l, ¬ own_lease demo_map1 (demo_pm true) req demo_now l))
  | Err _ => (∀ l, ¬ own_lease demo_map1 (demo_pm true) req demo_now l) ∧
      ∀ id, id ∈ select_candidate_pools (demo_pm true) req → exhausted None (demo_pm true) id
  | Panic _ => False
  end.
Proof. apply allocation_complete; [apply demo_store1_map|apply (inv_pools _ _ _ demo_inv)]. Defined.

(** The first client asks for 10.0.0.12 while it holds 10.0.0.10. *)
Lemma request_acks_other_address_witness :
  ∃ o resp, handle_request demo_handler None demo_store1 (demo_pm true) (demo_request 34) demo_inputs
      = Ok o ∧ o_reply o = Some resp ∧
    message_type (pk_options resp) = Some MessageAck ∧
    pk_yiaddr resp ≠ request_target (demo_request 34).
Proof.
  apply (request_acks_other_address demo_handler None demo_store1 (demo_pm true) demo_map1
    (demo_request 34) demo_inputs (stored demo_now demo_lease)).
  - apply demo_inv.
  - unfold own_lease, reusable. apply (bool_decide_unpack _). vm_compute. done.
  - intros l' (Hl & _). unfold demo_map1 in Hl. apply lookup_singleton_Some in Hl as [_ <-].
    vm_compute. done.
  - apply (demo_write_ok (written_request None demo_store1 (demo_pm true) (demo_request 34) demo_inputs)).
    vm_compute. reflexivity.
Defined.
