(* ===== verification/Dhcp6Wire.v ===== *)
(** internal/dhcpv6: options.go, packet.go, relay.go and duid.go: the wire format
    of DHCPv6.

    The options are a list, in the order of the wire.  Names carry a 6 where
    DHCPv4 has the same one. *)

From S2P Require Import Prelude.
From S2P Require Import GoBytes.
From S2P Require Import GoStrings.
From S2P Require Import GoNet.

(** * Codes *)

Definition OptionClientID : Z := 1.
Definition OptionServerID : Z := 2.
Definition OptionIANA : Z := 3.
Definition OptionIAAddr : Z := 5.
Definition OptionRelayMessage : Z := 9.
Definition OptionStatusCode : Z := 13.
Definition OptionRapidCommit6 : Z := 14.
Definition OptionInterfaceID : Z := 18.
Definition OptionDNSServers : Z := 23.
Definition OptionDomainList : Z := 24.

Definition StatusSuccess : Z := 0.
Definition StatusUnspecFail : Z := 1.
Definition StatusNoAddrsAvail : Z := 2.
Definition StatusNoBinding : Z := 3.

Definition msg (z : Z) : byte := byte_of_Z z.
Definition MessageSolicit := msg 1.
Definition MessageAdvertise := msg 2.
Definition MessageRequest6 := msg 3.
Definition MessageRenew := msg 5.
Definition MessageRebind := msg 6.
Definition MessageReply := msg 7.
Definition MessageRelease6 := msg 8.
Definition MessageDecline6 := msg 9.
Definition MessageInformationRequest := msg 11.
Definition MessageRelayForward := msg 12.
Definition MessageRelayReply := msg 13.

(** * Options *)

Record Option6 := mkOption6 { o_code : Z; o_value : bytes }.
Abbreviation Options6 := (list Option6).

(** [DecodeOptions]; each turn consumes four bytes. *)
Fixpoint decode_options6_loop (fuel : nat) (raw : bytes) : result Options6 :=
  match fuel, raw with
  | _, [] => Ok []
  | O, _ => Ok []
  | S fuel', _ =>
      if zlen raw <? 4 then Err (errorNew "truncated option header")
      else
        let code := be_get (take 2 raw) in
        let length := be_get (take 2 (drop 2 raw)) in
        let raw := drop 4 raw in
        if zlen raw <? length then Err (Errorf "option %d truncated" [FZ code])
        else
          let value := take (Z.to_nat length) raw in
          out ← decode_options6_loop fuel' (drop (Z.to_nat length) raw);
          Ok (mkOption6 code value :: out)
  end.
Definition decode_options6 (raw : bytes) : result Options6 := decode_options6_loop (length raw) raw.

(** [Options.Encode] *)
Fixpoint encode_options6 (o : Options6) : result bytes :=
  match o with
  | [] => Ok []
  | item :: o' =>
      if 65535 <? zlen (o_value item) then Err (Errorf "option %d too large" [FZ (o_code item)])
      else
        rest ← encode_options6 o';
        Ok (be_put 2 (o_code item) ++ be_put 2 (u16 (zlen (o_value item))) ++ o_value item ++ rest)
  end.

(** [opts, _ := o.Encode()] *)
Definition encode_or_nil (o : Options6) : bytes :=
  match encode_options6 o with Ok raw => raw | _ => [] end.

Fixpoint get6 (o : Options6) (code : Z) : option bytes :=
  match o with
  | [] => None
  | item :: o' => if o_code item =? code then Some (o_value item) else get6 o' code
  end.

Definition values6 (o : Options6) (code : Z) : list bytes :=
  o_value <$> filter (λ item, o_code item = code) o.

Definition set6 (code : Z) (value : bytes) (o : Options6) : Options6 :=
  filter (λ item, o_code item ≠ code) o ++ [mkOption6 code value].

Definition add6 (code : Z) (value : bytes) (o : Options6) : Options6 := o ++ [mkOption6 code value].

(** [value, _ := o.Get(code)] *)
Definition client_id6 (o : Options6) : bytes := default [] (get6 o OptionClientID).
Definition set_client_id (duid : bytes) (o : Options6) : Options6 := set6 OptionClientID duid o.
Definition server_id6 (o : Options6) : bytes := default [] (get6 o OptionServerID).
Definition set_server_id (duid : bytes) (o : Options6) : Options6 := set6 OptionServerID duid o.
Definition has_rapid_commit6 (o : Options6) : bool := bool_decide (is_Some (get6 o OptionRapidCommit6)).
Definition set_rapid_commit6 (o : Options6) : Options6 := set6 OptionRapidCommit6 [] o.

Definition set_dns_servers (ips : list bytes) (o : Options6) : Options6 :=
  set6 OptionDNSServers (ips ≫= to16) o.

(** [encodeDomainList] *)
Definition encode_label (label : bytes) : bytes :=
  if bool_decide (label = []) || (63 <? zlen label) then []
  else byte_of_Z (zlen label) :: label.
Definition encode_domain (domain : bytes) : bytes :=
  let domain := trim_space domain in
  if bool_decide (domain = []) then []
  else (split_byte domain dot ≫= encode_label) ++ [byte_of_Z 0].
Definition encode_domain_list (domains : list bytes) : bytes := domains ≫= encode_domain.

Definition set_domain_list (domains : list bytes) (o : Options6) : Options6 :=
  set6 OptionDomainList (encode_domain_list domains) o.

Definition set_status (code : Z) (message : bytes) (o : Options6) : Options6 :=
  set6 OptionStatusCode (be_put 2 code ++ message) o.

(** * Identity associations *)

Record IANA := mkIANA { ia_id : Z; ia_t1 : Z; ia_t2 : Z; ia_options : Options6 }.
Definition zero_iana : IANA := mkIANA 0 0 0 [].

Definition encode_iana (i : IANA) : bytes :=
  be_put 4 (ia_id i) ++ be_put 4 (ia_t1 i) ++ be_put 4 (ia_t2 i) ++ encode_or_nil (ia_options i).

Definition decode_iana (raw : bytes) : result IANA :=
  if zlen raw <? 12 then Err (errorNew "iana too short")
  else
    opts ← decode_options6 (drop 12 raw);
    Ok (mkIANA (be_get (take 4 raw)) (be_get (take 4 (drop 4 raw))) (be_get (take 4 (drop 8 raw))) opts).

Record IAAddress := mkIAAddress {
  iaa_address : bytes; iaa_preferred : Z; iaa_valid : Z; iaa_options : Options6
}.

(** [copy(buf[0:16], ip)] into zeros *)
Definition copy16 (a : bytes) : bytes := take 16 a ++ drop (length (take 16 a)) (replicate 16 (byte_of_Z 0)).

Definition encode_iaaddress (i : IAAddress) : bytes :=
  copy16 (to16 (iaa_address i)) ++ be_put 4 (iaa_preferred i) ++ be_put 4 (iaa_valid i)
  ++ encode_or_nil (iaa_options i).

Definition decode_iaaddress (raw : bytes) : result IAAddress :=
  if zlen raw <? 24 then Err (errorNew "iaaddr too short")
  else
    opts ← decode_options6 (drop 24 raw);
    Ok (mkIAAddress (take 16 raw) (be_get (take 4 (drop 16 raw))) (be_get (take 4 (drop 20 raw))) opts).

(** [IANAs]: the ones that decode. *)
Definition ianas (o : Options6) : list IANA :=
  omap (λ value, match decode_iana value with Ok item => Some item | _ => None end)
    (values6 o OptionIANA).

Definition add_iana (item : IANA) (o : Options6) : Options6 := add6 OptionIANA (encode_iana item) o.

(** * Packets *)

Record Packet6 := mkPacket6 {
  p6_type : byte;
  p6_xid : bytes;      (** 3 bytes *)
  p6_hops : byte;
  p6_link : bytes; p6_peer : bytes;
  p6_options : Options6
}.

#[global] Instance eta_Packet6 : Eta Packet6 := λ p,
  mkPacket6 (p6_type p) (p6_xid p) (p6_hops p) (p6_link p) (p6_peer p) (p6_options p).

Definition is_relay_type (t : byte) : bool := bool_decide (t ∈ [MessageRelayForward; MessageRelayReply]).

Definition decode_packet6 (raw : bytes) : result Packet6 :=
  if zlen raw <? 4 then Err (errorNew "packet too short")
  else
    let b i := nth i raw (msg 0) in
    if is_relay_type (b 0%nat) then
      if zlen raw <? 34 then Err (errorNew "relay packet too short")
      else
        opts ← decode_options6 (drop 34 raw);
        Ok (mkPacket6 (b 0%nat) (replicate 3 (msg 0)) (b 1%nat) (take 16 (drop 2 raw))
              (take 16 (drop 18 raw)) opts)
    else
      opts ← decode_options6 (drop 4 raw);
      Ok (mkPacket6 (b 0%nat) (take 3 (drop 1 raw)) (msg 0) [] [] opts).

(** [copyIPv6] into zeros. *)
Definition copy_ipv6 (a : bytes) : bytes :=
  if bool_decide (to16 a = []) then replicate 16 (byte_of_Z 0) else to16 a.

Definition encode_packet6 (p : Packet6) : result bytes :=
  opts ← encode_options6 (p6_options p);
  if is_relay_type (p6_type p) then
    Ok (p6_type p :: p6_hops p :: copy_ipv6 (p6_link p) ++ copy_ipv6 (p6_peer p) ++ opts)
  else Ok (p6_type p :: p6_xid p ++ opts).

Definition is_relay (p : Packet6) : bool := is_relay_type (p6_type p).

(** [Encapsulated]: the second result of the pair tells whether there is one. *)
Definition encapsulated (p : Packet6) : result (option Packet6) :=
  match get6 (p6_options p) OptionRelayMessage with
  | None => Ok None
  | Some raw => inner ← decode_packet6 raw; Ok (Some inner)
  end.

(** relay.go: [encapsulateRelayReply]; an inner reply that cannot be encoded
    leaves an empty relay message. *)
Definition encapsulate_relay_reply (req inner : Packet6) : Packet6 :=
  let o := match get6 (p6_options req) OptionInterfaceID with
           | Some raw => add6 OptionInterfaceID raw []
           | None => []
           end in
  let raw := match encode_packet6 inner with Ok raw => raw | _ => [] end in
  mkPacket6 MessageRelayReply (replicate 3 (msg 0)) (p6_hops req) (p6_link req) (p6_peer req)
    (add6 OptionRelayMessage raw o).

(** duid.go *)
Definition generate_duid_uuid (uuid : bytes) : bytes := be_put 2 4 ++ uuid.

(** The DHCPv6 wire format round trips. *)

(** Options a header can carry. *)
Definition option_fits (item : Option6) : Prop := 0 ≤ o_code item < 65536.

Lemma option_text (item : Option6) rest :
  option_fits item → zlen (o_value item) ≤ 65535 →
  ∀ fuel, decode_options6_loop (S fuel)
    (be_put 2 (o_code item) ++ be_put 2 (u16 (zlen (o_value item))) ++ o_value item ++ rest)
  = (out ← decode_options6_loop fuel rest; Ok (item :: out)).
Proof.
  intros Hc Hl fuel. unfold option_fits in Hc. pose proof (zlen_nonneg (o_value item)).
  set (raw := be_put 2 _ ++ _). assert (Hz : 4 ≤ zlen raw).
  { subst raw. rewrite !zlen_app, !zlen_be. pose proof (zlen_nonneg rest). lia. }
  assert (Hne : raw ≠ []) by (intros E; rewrite E in Hz; unfold zlen in Hz; simpl in Hz; lia).
  assert (H1 : be_get (take 2 raw) = o_code item).
  { subst raw. rewrite take_be, be_get_put_id; [done|simpl; lia]. }
  assert (Hu : u16 (zlen (o_value item)) = zlen (o_value item)) by (apply Z.mod_small; lia).
  assert (H2 : be_get (take 2 (drop 2 raw)) = zlen (o_value item)).
  { subst raw. rewrite drop_be, take_be, Hu, be_get_put_id; [done|simpl; lia]. }
  assert (H3 : drop 4 raw = o_value item ++ rest).
  { subst raw. rewrite app_assoc, drop_app_length'; [done|]. by rewrite length_app, !be_put_length. }
  clearbody raw. destruct raw as [|x raw]; [done|]. cbn [decode_options6_loop].
  rewrite (proj2 (Z.ltb_ge _ _)) by lia. rewrite H1, H2, H3.
  rewrite (proj2 (Z.ltb_ge _ _)) by (rewrite zlen_app; pose proof (zlen_nonneg rest); lia).
  rewrite take_zlen, drop_zlen. by destruct item.
Qed.

Lemma decode_encode_options6 (o : Options6) raw : ∀ fuel,
  Forall option_fits o → encode_options6 o = Ok raw → (length raw ≤ fuel)%nat →
  decode_options6_loop fuel raw = Ok o.
Proof.
  revert raw. induction o as [|item o IH]; intros raw fuel Ho; cbn [encode_options6].
  { intros [= <-] _. by destruct fuel. }
  apply Forall_cons in Ho as [Hi Ho]. destruct (Z.ltb_spec 65535 (zlen (o_value item))); [done|].
  intros (rest & Hr & E)%bind_ok Hf.
  assert (raw = be_put 2 (o_code item) ++ be_put 2 (u16 (zlen (o_value item))) ++ o_value item ++ rest)
    as -> by congruence.
  rewrite !length_app, !be_put_length in Hf.
  destruct fuel as [|fuel]; [lia|]. rewrite option_text by done.
  rewrite (IH rest) by (done || lia). done.
Qed.

Lemma options6_roundtrip o raw :
  Forall option_fits o → encode_options6 o = Ok raw → decode_options6 raw = Ok o.
Proof. intros Ho E. by apply (decode_encode_options6 o raw). Qed.

(** Options of values that fit can be encoded. *)
Lemma encode_options6_ok o :
  Forall (λ item, zlen (o_value item) ≤ 65535) o → ∃ raw, encode_options6 o = Ok raw.
Proof.
  induction 1 as [|item o Hi _ [raw IH]]; simpl; [by exists []|].
  rewrite (proj2 (Z.ltb_ge _ _)) by lia. rewrite IH. by eexists.
Qed.

Definition options_ok (o : Options6) : Prop :=
  Forall option_fits o ∧ Forall (λ item, zlen (o_value item) ≤ 65535) o.

Lemma decode_or_nil o : options_ok o → decode_options6 (encode_or_nil o) = Ok o.
Proof.
  intros [Hf Hl]. destruct (encode_options6_ok o Hl) as [raw E]. unfold encode_or_nil. rewrite E.
  by apply options6_roundtrip.
Qed.

Definition u32_ok (z : Z) : Prop := 0 ≤ z < 2 ^ 32.

Lemma be4 z : u32_ok z → be_get (be_put 4 z) = z.
Proof. intros. by apply be_get_put_id. Qed.

Lemma take_skip {A} (n : nat) (l r : list A) : length l = n → take n (l ++ r) = l.
Proof. intros <-. apply take_app_length. Qed.
Lemma drop_skip {A} (n k : nat) (l r : list A) : length l = n → drop (n + k) (l ++ r) = drop k r.
Proof. intros <-. apply drop_app_add. Qed.

Lemma iana_fields i :
  u32_ok (ia_id i) → u32_ok (ia_t1 i) → u32_ok (ia_t2 i) → options_ok (ia_options i) →
  decode_iana (encode_iana i) = Ok i.
Proof.
  intros H1 H2 H3 Ho. unfold decode_iana, encode_iana.
  set (raw := be_put 4 (ia_id i) ++ _).
  assert (Hz : 12 ≤ zlen raw).
  { subst raw. rewrite !zlen_app, !zlen_be. pose proof (zlen_nonneg (encode_or_nil (ia_options i))). lia. }
  rewrite (proj2 (Z.ltb_ge _ _)) by done. subst raw.
  rewrite (drop_skip 4 8 (be_put 4 (ia_id i))), (drop_skip 4 4 (be_put 4 (ia_t1 i))) by apply be_put_length.
  rewrite (drop_be 4 (ia_t2 i)), decode_or_nil by done.
  rewrite (drop_skip 4 4 (be_put 4 (ia_id i))) by apply be_put_length.
  rewrite !drop_be, !take_be, !be4 by done. by destruct i.
Qed.

Lemma copy16_length a : length (copy16 a) = 16%nat.
Proof. unfold copy16. rewrite length_app, length_drop, length_take, length_replicate. lia. Qed.

Lemma copy16_id a : length a = 16%nat → copy16 a = a.
Proof.
  intros Ha. unfold copy16. rewrite take_ge by lia.
  rewrite drop_ge by (rewrite length_replicate; lia). apply app_nil_r.
Qed.

Lemma iaaddress_fields i :
  u32_ok (iaa_preferred i) → u32_ok (iaa_valid i) → options_ok (iaa_options i) →
  decode_iaaddress (encode_iaaddress i)
  = Ok (mkIAAddress (copy16 (to16 (iaa_address i))) (iaa_preferred i) (iaa_valid i) (iaa_options i)).
Proof.
  intros H1 H2 Ho. unfold decode_iaaddress, encode_iaaddress.
  set (ad := copy16 _). assert (Had : length ad = 16%nat) by apply copy16_length.
  set (raw := ad ++ _).
  assert (Hz : 24 ≤ zlen raw).
  { subst raw. rewrite !zlen_app, !zlen_be. pose proof (zlen_nonneg (encode_or_nil (iaa_options i))).
    unfold zlen at 1. lia. }
  rewrite (proj2 (Z.ltb_ge _ _)) by done. subst raw.
  rewrite (drop_skip 16 8 ad), (drop_skip 4 4 (be_put 4 (iaa_preferred i)))
    by (done || apply be_put_length).
  rewrite (drop_be 4 (iaa_valid i)), decode_or_nil by done.
  rewrite (drop_skip 16 4 ad), (drop_skip 16 0 ad), drop_0, (take_skip 16) by done.
  rewrite drop_be, !take_be, !be4 by done. done.
Qed.

(** * Packets *)

(** What the format carries of a packet. *)
Definition on_wire6 (p : Packet6) : Packet6 :=
  if is_relay p
  then mkPacket6 (p6_type p) (replicate 3 (msg 0)) (p6_hops p) (copy_ipv6 (p6_link p))
         (copy_ipv6 (p6_peer p)) (p6_options p)
  else mkPacket6 (p6_type p) (p6_xid p) (msg 0) [] [] (p6_options p).

Definition packet6_ok (p : Packet6) : Prop :=
  length (p6_xid p) = 3%nat ∧ Forall option_fits (p6_options p).

Lemma copy_ipv6_length a : length (copy_ipv6 a) = 16%nat.
Proof.
  unfold copy_ipv6. case_bool_decide as Hn; [done|]. unfold to16 in *.
  case_bool_decide as H4; [by rewrite length_app, H4|]. by case_bool_decide.
Qed.

Lemma decode_encode_packet6 p raw :
  packet6_ok p → encode_packet6 p = Ok raw → decode_packet6 raw = Ok (on_wire6 p).
Proof.
  intros [Hx Ho]. unfold encode_packet6, on_wire6, is_relay.
  intros (opts & Hopts & E)%bind_ok. pose proof (options6_roundtrip _ _ Ho Hopts) as Hd.
  unfold decode_packet6. destruct (is_relay_type (p6_type p)) eqn:Ht.
  - set (link := copy_ipv6 (p6_link p)) in *. set (peer := copy_ipv6 (p6_peer p)) in *.
    assert (Hl : length link = 16%nat) by apply copy_ipv6_length.
    assert (Hp : length peer = 16%nat) by apply copy_ipv6_length.
    injection E as <-. rewrite !zlen_cons, !zlen_app. unfold zlen at 1 2 4 5. rewrite Hl, Hp.
    pose proof (zlen_nonneg opts).
    rewrite (proj2 (Z.ltb_ge _ 4)) by lia. cbn [nth]. rewrite Ht.
    rewrite (proj2 (Z.ltb_ge _ 34)) by lia.
    change (drop 34 (p6_type p :: p6_hops p :: link ++ peer ++ opts)) with (drop 32 (link ++ peer ++ opts)).
    change (drop 2 (p6_type p :: p6_hops p :: link ++ peer ++ opts)) with (link ++ peer ++ opts).
    change (drop 18 (p6_type p :: p6_hops p :: link ++ peer ++ opts)) with (drop 16 (link ++ peer ++ opts)).
    rewrite (drop_skip 16 16 link), (drop_skip 16 0 peer), drop_0, Hd by done.
    rewrite (drop_skip 16 0 link), drop_0, !take_skip by done. done.
  - injection E as <-. rewrite zlen_cons, zlen_app. unfold zlen at 1. rewrite Hx.
    pose proof (zlen_nonneg opts). rewrite (proj2 (Z.ltb_ge _ 4)) by lia. cbn [nth]. rewrite Ht.
    change (drop 4 (p6_type p :: p6_xid p ++ opts)) with (drop 3 (p6_xid p ++ opts)).
    change (drop 1 (p6_type p :: p6_xid p ++ opts)) with (p6_xid p ++ opts).
    rewrite (drop_skip 3 0), drop_0, Hd, take_skip by done. done.
Qed.

(** Decoding never panics. *)
Lemma decode_options6_total fuel : ∀ raw p, decode_options6_loop fuel raw ≠ Panic p.
Proof.
  induction fuel as [|fuel IH]; intros raw p; simpl; [by destruct raw|].
  destruct raw as [|x raw]; [done|]. destruct (_ <? 4); [done|]. destruct (_ <? _); [done|].
  destruct (decode_options6_loop fuel _) as [o|e|q] eqn:E; [done|done|]. by apply IH in E.
Qed.

Lemma decode_packet6_total raw p : decode_packet6 raw ≠ Panic p.
Proof.
  assert (Ho : ∀ r q, decode_options6 r ≠ Panic q) by (intros r q; apply decode_options6_total).
  unfold decode_packet6. destruct (_ <? 4); [done|]. destruct (is_relay_type _).
  - destruct (_ <? 34); [done|]. destruct (decode_options6 (drop 34 raw)) eqn:E; [done|done|].
    by apply Ho in E.
  - destruct (decode_options6 (drop 4 raw)) eqn:E; [done|done|]. by apply Ho in E.
Qed.

Lemma get6_add_other o code code' v : code ≠ code' → get6 (add6 code v o) code' = get6 o code'.
Proof.
  intros Hne. unfold add6. induction o as [|item o IH]; simpl.
  - by rewrite (proj2 (Z.eqb_neq _ _)).
  - by rewrite IH.
Qed.

Lemma get6_add_new o code v : get6 o code = None → get6 (add6 code v o) code = Some v.
Proof.
  unfold add6. induction o as [|item o IH]; simpl; [by rewrite Z.eqb_refl|]. by destruct (_ =? _).
Qed.

Lemma get6_in o code v : get6 o code = Some v → mkOption6 code v ∈ o.
Proof.
  induction o as [|item o IH]; simpl; [done|]. destruct (Z.eqb_spec (o_code item) code) as [<- |].
  - intros [= <-]. destruct item. left.
  - intros. right. auto.
Qed.

(** A DHCPv6 packet, relayed or not, survives encoding and decoding: every
    option in order, the addresses of a relay message padded to sixteen bytes. *)
Theorem packet6_roundtrip p raw :
  packet6_ok p → encode_packet6 p = Ok raw → decode_packet6 raw = Ok (on_wire6 p).
Proof. apply decode_encode_packet6. Qed.

(** A relayed answer arrives: the relay that decodes the encapsulated reply
    finds the hop count, link and peer address of its own message, its
    interface identifier, and inside it exactly the reply the server made for
    the client. *)
Theorem relay_reply_arrives req inner inner_raw :
  packet6_ok inner → encode_packet6 inner = Ok inner_raw → zlen inner_raw ≤ 65535 →
  Forall (λ item, zlen (o_value item) ≤ 65535) (p6_options req) →
  ∃ raw p, encode_packet6 (encapsulate_relay_reply req inner) = Ok raw ∧
    decode_packet6 raw = Ok p ∧ p6_type p = MessageRelayReply ∧ p6_hops p = p6_hops req ∧
    p6_link p = copy_ipv6 (p6_link req) ∧ p6_peer p = copy_ipv6 (p6_peer req) ∧
    get6 (p6_options p) OptionInterfaceID = get6 (p6_options req) OptionInterfaceID ∧
    encapsulated p = Ok (Some (on_wire6 inner)).
Proof.
  intros Hi Ei Hlen Hreq. set (p := encapsulate_relay_reply req inner).
  assert (Hopts : p6_options p = add6 OptionRelayMessage inner_raw
    (match get6 (p6_options req) OptionInterfaceID with
     | Some raw => add6 OptionInterfaceID raw [] | None => [] end)).
  { subst p. unfold encapsulate_relay_reply. cbn [p6_options]. by rewrite Ei. }
  assert (Hfit : options_ok (p6_options p)).
  { rewrite Hopts. unfold options_ok, add6, option_fits.
    destruct (get6 (p6_options req) OptionInterfaceID) as [v|] eqn:Ev.
    - apply get6_in in Ev. rewrite Forall_forall in Hreq. apply Hreq in Ev.
      split; repeat constructor; done.
    - split; repeat constructor; done. }
  destruct (encode_options6_ok _ (proj2 Hfit)) as [opts Eo].
  assert (∃ raw, encode_packet6 p = Ok raw) as [raw Er].
  { unfold encode_packet6. rewrite Eo. subst p. by eexists. }
  exists raw, (on_wire6 p). split; [done|].
  assert (Hd : decode_packet6 raw = Ok (on_wire6 p)).
  { apply decode_encode_packet6; [|done]. split; [done|apply Hfit]. }
  split; [done|]. change (on_wire6 p) with (mkPacket6 MessageRelayReply (replicate 3 (msg 0)) (p6_hops req)
    (copy_ipv6 (p6_link req)) (copy_ipv6 (p6_peer req)) (p6_options p)).
  cbn [p6_type p6_hops p6_link p6_peer p6_options]. split_and!; try done.
  - rewrite Hopts, get6_add_other by done.
    destruct (get6 (p6_options req) OptionInterfaceID) as [v|]; [by rewrite get6_add_new|done].
  - unfold encapsulated. cbn [p6_options]. rewrite Hopts, get6_add_new.
    + by rewrite (decode_encode_packet6 inner inner_raw).
    + destruct (get6 (p6_options req) OptionInterfaceID) as [v|]; [|done]. by rewrite get6_add_other.
Qed.

(** * Witnesses *)

Definition demo_solicit : Packet6 :=
  mkPacket6 MessageSolicit (map byte_of_Z [1; 2; 3]) (msg 0) [] []
    [mkOption6 OptionClientID (map byte_of_Z [0; 3; 0; 1; 170]);
     mkOption6 OptionIANA (encode_iana (mkIANA 7 0 0 []))].
Definition demo_relay : Packet6 :=
  mkPacket6 MessageRelayForward (map byte_of_Z [0; 0; 0]) (msg 1)
    (parse_ip (bs "2001:db8::1")) (parse_ip (bs "fe80::2"))
    [mkOption6 OptionInterfaceID (bs "eth0")].
Definition raw_of (p : Packet6) : bytes := match encode_packet6 p with Ok raw => raw | _ => [] end.

Lemma packet6_roundtrip_witness : decode_packet6 (raw_of demo_relay) = Ok (on_wire6 demo_relay).
Proof.
  apply packet6_roundtrip; [|vm_compute; reflexivity].
  split; [done|]. repeat constructor; done.
Defined.

Lemma relay_reply_arrives_witness :
  ∃ raw p, encode_packet6 (encapsulate_relay_reply demo_relay demo_solicit) = Ok raw ∧
    decode_packet6 raw = Ok p ∧ p6_type p = MessageRelayReply ∧ p6_hops p = p6_hops demo_relay ∧
    p6_link p = copy_ipv6 (p6_link demo_relay) ∧ p6_peer p = copy_ipv6 (p6_peer demo_relay) ∧
    get6 (p6_options p) OptionInterfaceID = get6 (p6_options demo_relay) OptionInterfaceID ∧
    encapsulated p = Ok (Some (on_wire6 demo_solicit)).
Proof.
  apply (relay_reply_arrives demo_relay demo_solicit (raw_of demo_solicit)).
  - split; [done|]. repeat constructor; done.
  - vm_compute. reflexivity.
  - vm_compute. done.
  - repeat constructor; done.
Defined.
