(* ===== verification/Dhcp6Pool.v ===== *)
(** internal/dhcpv6/pool.go and numeric.go: the address pools of DHCPv6.

    A pool keeps no bitmap: an address is free when the store has no lease of it
    that another client holds.  The store is always present, as main passes one. *)

From S2P Require Import Prelude.
From S2P Require Import GoBytes.
From S2P Require Import GoStrings.
From S2P Require Import GoTime.
From S2P Require Import GoNet.
From S2P Require Import GoNet6.
From S2P Require Import ConfigTypes.
From S2P Require Import Lease.
From S2P Require Import LeaseInterface.
From S2P Require Import Dhcp4Pool.

(** numeric.go: [durationToUint32Seconds] *)
Definition duration_to_uint32_seconds6 (value : duration) : Z :=
  if value <=? 0 then 0
  else
    let seconds := dur_quot value second in
    if seconds <=? 0 then 1
    else if max_u32 <? seconds then max_u32
    else u32 seconds.

Record AllocationRequest6 := mkAllocationRequest6 {
  r6_duid : bytes; r6_iaid : Z; r6_requested : bytes; r6_relay : bytes
}.

Record AllocationResult6 := mkAllocationResult6 {
  a6_ip : bytes; a6_prefix : option prefix; a6_gateway : bytes; a6_dns : list bytes;
  a6_duration : duration; a6_subnet_id : bytes; a6_iaid : Z; a6_preferred : Z; a6_valid : Z
}.

Record managedPool := mkManagedPool {
  mp_id : bytes; mp_prefix : prefix; mp_start : addr; mp_end : addr; mp_gateway : bytes;
  mp_dns : list bytes; mp_lease_dur : duration
}.

Record PoolManager6 := mkPoolManager6 { p6_pools : list managedPool; p6_default : duration }.

(** * Construction *)

(** The body of the loop of [NewPoolManager]: the pool of a subnet, if it has one. *)
Definition new_pool6 (default_lease : duration) (subnet : SubnetConfig) : result (option managedPool) :=
  match parse_prefix (trim_space (sc_cidr subnet)) with
  | Ok prefix =>
      if negb (is6 (p_addr prefix)) then Ok None
      else if negb (sc_dhcp_enabled subnet) then Ok None
      else
        let bad_start := Err (Errorf "invalid dhcpv6 pool_start for %s" [FB (sc_cidr subnet)]) in
        let bad_end := Err (Errorf "invalid dhcpv6 pool_end for %s" [FB (sc_cidr subnet)]) in
        match parse_addr (trim_space (sc_pool_start subnet)) with
        | Ok start =>
            if negb (prefix_contains prefix start) then bad_start
            else
              match parse_addr (trim_space (sc_pool_end subnet)) with
              | Ok end_ =>
                  if negb (prefix_contains prefix end_)
                     || bool_decide (addr_compare (Some start) (Some end_) = Gt) then bad_end
                  else
                    let lease_dur := if sc_lease_time subnet <=? 0 then default_lease
                                     else sc_lease_time subnet in
                    Ok (Some (mkManagedPool (prefix_string prefix) prefix start end_
                          (to16 (parse_ip (trim_space (sc_gateway subnet))))
                          (filter (λ a, a ≠ [])
                             (map (λ dns, to16 (parse_ip (trim_space dns))) (sc_dns subnet)))
                          lease_dur))
              | _ => bad_end
              end
        | _ => bad_start
        end
  | _ => Ok None
  end.

Fixpoint new_pools6 (default_lease : duration) (subnets : list SubnetConfig) : result (list managedPool) :=
  match subnets with
  | [] => Ok []
  | subnet :: rest =>
      item ← new_pool6 default_lease subnet;
      items ← new_pools6 default_lease rest;
      Ok (match item with Some p => p :: items | None => items end)
  end.

(** [NewPoolManager] *)
Definition new_pool_manager6 (subnets : list SubnetConfig) (default_lease : duration)
    : result PoolManager6 :=
  let default_lease := if default_lease <=? 0 then 12 * hour else default_lease in
  pools ← new_pools6 default_lease subnets;
  if bool_decide (pools = []) then Err (errorNew "no dhcpv6 pools configured")
  else Ok (mkPoolManager6 pools default_lease).

(** * Allocation *)

(** The loops of [selectPool]: the first pool of an address. *)
Definition pool_of (pools : list managedPool) (ip : bytes) : option managedPool :=
  match addr_from_slice (to16 ip) with
  | Some a => hd_error (filter (λ p, prefix_contains (mp_prefix p) a = true) pools)
  | None => None
  end.

Definition select_pool (m : PoolManager6) (req : AllocationRequest6) : result managedPool :=
  match pool_of (p6_pools m) (r6_requested req) with
  | Some p => Ok p
  | None =>
      match pool_of (p6_pools m) (r6_relay req) with
      | Some p => Ok p
      | None =>
          match p6_pools m with p :: _ => Ok p | [] => Panic "index out of range" end
      end
  end.

(** [resultFor]; the zero [Addr] has the nil slice. *)
Definition result_for (m : PoolManager6) (pool : managedPool) (a : option addr) (iaid : Z)
    : AllocationResult6 :=
  let sec := duration_to_uint32_seconds6 (mp_lease_dur pool) in
  let sec := if sec =? 0 then duration_to_uint32_seconds6 (p6_default m) else sec in
  let sec := if sec =? 0 then duration_to_uint32_seconds6 (12 * hour) else sec in
  let preferred := sec / 2 in
  let preferred := if preferred =? 0 then sec else preferred in
  mkAllocationResult6 (from_option as_slice [] a) (Some (mp_prefix pool)) (mp_gateway pool)
    (mp_dns pool) (mp_lease_dur pool) (mp_id pool) iaid preferred sec.

(** [Addr.String], also of the zero [Addr]. *)
Definition opt_addr_string (a : option addr) : bytes := from_option addr_string (bs "invalid IP") a.

Section with_store.
Context {S : Type} `{LeaseStore S}.

Definition available_for_client (s : S) (a : option addr) (client_id : bytes) : bool :=
  match ls_get_by_ip s (opt_addr_string a) with
  | Ok item =>
      if (0 <? zlen client_id) && bool_decide (l_client_id item = client_id) then true
      else bool_decide (l_state item ∈ [StateReleased; StateExpired; StateFree])
  | _ => true
  end.

(** The loop over the leases of the client. *)
Fixpoint existing_address (pool : managedPool) (ls : list Lease) : option addr :=
  match ls with
  | [] => None
  | item :: ls' =>
      match parse_addr (trim_space (l_ip item)) with
      | Ok ip => if prefix_contains (mp_prefix pool) ip then Some ip else existing_address pool ls'
      | _ => existing_address pool ls'
      end
  end.

(** One turn of the loop over the range. *)
Definition range_step (s : S) (pool : managedPool) (client_id : bytes) (current : option addr)
    : option addr + option (option addr) :=
  if bool_decide (addr_compare current (Some (mp_end pool)) = Gt) then inr None
  else if available_for_client s current client_id then inr (Some current)
  else inl (current ≫= addr_next).

(** Two turns more than the range has addresses. *)
Definition range_fuel (pool : managedPool) : positive :=
  Z.to_pos (addr_num (Some (mp_end pool)) - addr_num (Some (mp_start pool)) + 2).

Definition allocate6 (m : PoolManager6) (s : S) (req : AllocationRequest6) : result AllocationResult6 :=
  pool ← select_pool m req;
  let existing :=
    if 0 <? zlen (r6_duid req) then
      match ls_get_by_client_id s (r6_duid req) with
      | Ok ls => existing_address pool ls
      | _ => None
      end
    else None in
  match existing with
  | Some ip => Ok (result_for m pool (Some ip) (r6_iaid req))
  | None =>
      let requested :=
        match addr_from_slice (to16 (r6_requested req)) with
        | Some a =>
            if prefix_contains (mp_prefix pool) a && available_for_client s (Some a) (r6_duid req)
            then Some a else None
        | None => None
        end in
      match requested with
      | Some a => Ok (result_for m pool (Some a) (r6_iaid req))
      | None =>
          match loop_pos (range_step s pool (r6_duid req)) (range_fuel pool) (Some (mp_start pool)) with
          | inr (Some a) => Ok (result_for m pool a (r6_iaid req))
          | inr None => Err (Errorf "no dhcpv6 addresses available in %s" [FB (prefix_string (mp_prefix pool))])
          | inl _ => Panic "the loop does not end"
          end
      end
  end.
End with_store.
