(* ===== verification/Dhcp6Handler.v ===== *)
(** internal/dhcpv6/handler.go: what the server does with a message.

    A handler reads one clock and one write environment ([Inputs6]) and returns
    the new store with the reply, the error and the lease events it announced. *)

From S2P Require Import Prelude.
From S2P Require Import GoBytes.
From S2P Require Import GoStrings.
From S2P Require Import GoTime.
From S2P Require Import GoNet.
From S2P Require Import GoNet6.
From S2P Require Import Lease.
From S2P Require Import LeaseInterface.
From S2P Require Import Dhcp6Wire.
From S2P Require Import Dhcp6Pool.

Record Handler6 := mkHandler6 {
  h6_pools : PoolManager6; h6_duid : bytes; h6_default : duration; h6_max : duration;
  h6_domains : list bytes
}.

(** [NewHandler] *)
Definition new_handler6 (pools : PoolManager6) (duid : bytes) (default_lease max_lease : duration) : Handler6 :=
  mkHandler6 pools duid (if default_lease <=? 0 then 12 * hour else default_lease)
    (if max_lease <=? 0 then 24 * hour else max_lease) [].

(** * Replies *)

Definition base_response6 (req : Packet6) (msg_type : byte) : Packet6 :=
  mkPacket6 msg_type (p6_xid req) (msg 0) [] [] [].

Definition reply_options (h : Handler6) (req : Packet6) (alloc : AllocationResult6) (rapid : bool)
    : Options6 :=
  let opts := set_client_id (client_id6 (p6_options req)) [] in
  let opts := set_server_id (h6_duid h) opts in
  let opts := if rapid && has_rapid_commit6 (p6_options req) then set_rapid_commit6 opts else opts in
  let ad := mkIAAddress (a6_ip alloc) (a6_preferred alloc) (a6_valid alloc) [] in
  let opts := add_iana (mkIANA (a6_iaid alloc) (a6_preferred alloc)
                (u32 (a6_valid alloc - a6_valid alloc / 8))
                [mkOption6 OptionIAAddr (encode_iaaddress ad)]) opts in
  let opts := if bool_decide (a6_dns alloc = []) then opts else set_dns_servers (a6_dns alloc) opts in
  if bool_decide (h6_domains h = []) then opts else set_domain_list (h6_domains h) opts.

Definition error_reply (h : Handler6) (req : Packet6) (status : Z) (message : bytes) : Packet6 :=
  let opts := if bool_decide (client_id6 (p6_options req) = []) then []
              else set_client_id (client_id6 (p6_options req)) [] in
  base_response6 req MessageReply <| p6_options :=
    set_status status message (set_server_id (h6_duid h) opts) |>.

(** The answer to a RELEASE or a DECLINE. *)
Definition done_reply (h : Handler6) (req : Packet6) (message : bytes) : Packet6 :=
  base_response6 req MessageReply <| p6_options :=
    set_status StatusSuccess message
      (set_server_id (h6_duid h) (set_client_id (client_id6 (p6_options req)) [])) |>.

Definition ensure_server_id (h : Handler6) (req : Packet6) : option error :=
  let id := server_id6 (p6_options req) in
  if (0 <? zlen id) && negb (bool_decide (id = h6_duid h))
  then Some (errorNew "server identifier mismatch") else None.

Definition first_iana (items : list IANA) : IANA :=
  match items with [] => zero_iana | i :: _ => i end.

(** [requestedIAAddr] *)
Fixpoint requested_ia_loop (o : Options6) : bytes :=
  match o with
  | [] => []
  | item :: o' =>
      if negb (o_code item =? OptionIAAddr) then requested_ia_loop o'
      else match decode_iaaddress (o_value item) with
           | Ok ad => iaa_address ad
           | _ => requested_ia_loop o'
           end
  end.
Definition requested_ia_addr (iana : IANA) : bytes := requested_ia_loop (ia_options iana).

Definition build_lease_record (req : Packet6) (alloc : AllocationResult6) (relay : bytes)
    (state : bytes) (now : time) : Lease :=
  zero_lease <| l_ip := ip_string (a6_ip alloc) |>
    <| l_client_id := client_id6 (p6_options req) |>
    <| l_state := state |>
    <| l_start_time := now |>
    <| l_duration := a6_duration alloc |>
    <| l_expiry_time := time_add now (a6_duration alloc) |>
    <| l_subnet_id := a6_subnet_id alloc |>
    <| l_relay_addr := ip_string relay |>
    <| l_last_seen := now |>.

Section handler.
Context {S : Type} `{LeaseStore S}.

Record Inputs6 := mkInputs6 { in6_now : time; in6_env : ls_env }.

Record Outcome6 := mkOutcome6 {
  o6_store : S; o6_reply : option Packet6; o6_err : option error;
  o6_events : list (bytes * Lease)
}.

(** The allocation both handlers ask for. *)
Definition allocation_request6 (req : Packet6) (relay : bytes) : AllocationRequest6 :=
  let iana := first_iana (ianas (p6_options req)) in
  mkAllocationRequest6 (client_id6 (p6_options req)) (ia_id iana) (requested_ia_addr iana) relay.

Definition handle_solicit (h : Handler6) (s : S) (req : Packet6) (relay : bytes) (i : Inputs6)
    : result Outcome6 :=
  if bool_decide (client_id6 (p6_options req) = []) then
    Ok (mkOutcome6 s None (Some (errorNew "missing client identifier")) [])
  else
    match allocate6 (h6_pools h) s (allocation_request6 req relay) with
    | Panic p => Panic p
    | Err e => Ok (mkOutcome6 s None (Some e) [])
    | Ok alloc =>
        let rapid := has_rapid_commit6 (p6_options req) in
        let state := if rapid then StateBound else StateOffered in
        let msg_type := if rapid then MessageReply else MessageAdvertise in
        let record := build_lease_record req alloc relay state (in6_now i) in
        match ls_upsert s record (in6_env i) with
        | (s, Some e) => Ok (mkOutcome6 s None (Some e) [])
        | (s, None) =>
            let resp := base_response6 req msg_type
                          <| p6_options := reply_options h req alloc true |> in
            Ok (mkOutcome6 s (Some resp) None
                  (if rapid then [(bs "lease.created", record)] else []))
        end
    end.

Definition handle_request6 (h : Handler6) (s : S) (req : Packet6) (relay : bytes) (i : Inputs6)
    : result Outcome6 :=
  let fail status message := Ok (mkOutcome6 s (Some (error_reply h req status message)) None []) in
  match ensure_server_id h req with
  | Some e => fail StatusUnspecFail (error_text e)
  | None =>
      if bool_decide (client_id6 (p6_options req) = [])
      then fail StatusUnspecFail (bs "missing client identifier")
      else
        match allocate6 (h6_pools h) s (allocation_request6 req relay) with
        | Panic p => Panic p
        | Err e => fail StatusNoAddrsAvail (error_text e)
        | Ok alloc =>
            let old := ls_get_by_ip s (ip_string (a6_ip alloc)) in
            let record := build_lease_record req alloc relay StateBound (in6_now i) in
            match ls_upsert s record (in6_env i) with
            | (s, Some e) => Ok (mkOutcome6 s None (Some e) [])
            | (s, None) =>
                let event := match old with
                             | Ok o => if 0 <? zlen (l_client_id o) then bs "lease.renewed"
                                       else bs "lease.created"
                             | _ => bs "lease.created"
                             end in
                let resp := base_response6 req MessageReply
                              <| p6_options := reply_options h req alloc false |> in
                Ok (mkOutcome6 s (Some resp) None [(event, record)])
            end
        end
  end.

(** The first lease of the client, of the store's answer. *)
Definition first_lease (s : S) (client_id : bytes) : option Lease :=
  match ls_get_by_client_id s client_id with Ok (item :: _) => Some item | _ => None end.

(** What RENEW, RELEASE and DECLINE write. *)
Definition renewed (item : Lease) (relay : bytes) (now : time) : Lease :=
  item <| l_state := StateRenewing |> <| l_last_seen := now |>
    <| l_expiry_time := time_add now (l_duration item) |> <| l_updated_at := now |>
    <| l_relay_addr := ip_string relay |>.
Definition released (item : Lease) (relay : bytes) (now : time) : Lease :=
  item <| l_state := StateReleased |> <| l_expiry_time := now |> <| l_updated_at := now |>
    <| l_last_seen := now |> <| l_relay_addr := ip_string relay |>.
Definition declined (item : Lease) (relay : bytes) (now : time) : Lease :=
  item <| l_state := StateDeclined |> <| l_quarantine_until := time_add now (15 * minute) |>
    <| l_updated_at := now |> <| l_last_seen := now |> <| l_relay_addr := ip_string relay |>.

Definition handle_renew (h : Handler6) (s : S) (req : Packet6) (relay : bytes) (i : Inputs6)
    : result Outcome6 :=
  let fail message := Ok (mkOutcome6 s (Some (error_reply h req StatusNoBinding message)) None []) in
  match ensure_server_id h req with
  | Some e => fail (error_text e)
  | None =>
      if bool_decide (client_id6 (p6_options req) = []) then fail (bs "missing client identifier")
      else
        match first_lease s (client_id6 (p6_options req)) with
        | None => fail (bs "lease not found")
        | Some item =>
            let item := renewed item relay (in6_now i) in
            match ls_upsert s item (in6_env i) with
            | (s, Some e) => Ok (mkOutcome6 s None (Some e) [])
            | (s, None) =>
                let sec := duration_to_uint32_seconds6 (l_duration item) in
                let alloc := mkAllocationResult6 (parse_ip (l_ip item)) None [] [] (l_duration item)
                  (l_subnet_id item) (ia_id (first_iana (ianas (p6_options req)))) (sec / 2) sec in
                let resp := base_response6 req MessageReply
                              <| p6_options := reply_options h req alloc false |> in
                Ok (mkOutcome6 s (Some resp) None [(bs "lease.renewed", item)])
            end
        end
  end.

(** The common body of [handleRelease] and [handleDecline]. *)
Definition handle_give_up (h : Handler6) (s : S) (req : Packet6) (i : Inputs6)
    (change : Lease → Lease) (event message : bytes) : result Outcome6 :=
  let fail message := Ok (mkOutcome6 s (Some (error_reply h req StatusNoBinding message)) None []) in
  if bool_decide (client_id6 (p6_options req) = []) then fail (bs "missing client identifier")
  else
    match first_lease s (client_id6 (p6_options req)) with
    | None => fail (bs "lease not found")
    | Some item =>
        match ls_upsert s (change item) (in6_env i) with
        | (s, Some e) => Ok (mkOutcome6 s None (Some e) [])
        | (s, None) => Ok (mkOutcome6 s (Some (done_reply h req message)) None [(event, change item)])
        end
    end.

Definition handle_release6 (h : Handler6) (s : S) (req : Packet6) (relay : bytes) (i : Inputs6) :=
  handle_give_up h s req i (λ item, released item relay (in6_now i)) (bs "lease.released") (bs "released").
Definition handle_decline6 (h : Handler6) (s : S) (req : Packet6) (relay : bytes) (i : Inputs6) :=
  handle_give_up h s req i (λ item, declined item relay (in6_now i)) (bs "lease.conflict") (bs "declined").

Definition handle_information_request (h : Handler6) (s : S) (req : Packet6) : result Outcome6 :=
  let opts := if bool_decide (client_id6 (p6_options req) = []) then []
              else set_client_id (client_id6 (p6_options req)) [] in
  let opts := set_server_id (h6_duid h) opts in
  let opts := if bool_decide (h6_domains h = []) then opts else set_domain_list (h6_domains h) opts in
  Ok (mkOutcome6 s (Some (base_response6 req MessageReply <| p6_options := opts |>)) None []).

(** The switch on the message type, which [Handle] and [handleRelay] share. *)
Definition dispatch6 (h : Handler6) (s : S) (req : Packet6) (relay : bytes) (i : Inputs6)
    : result Outcome6 :=
  let t := p6_type req in
  if bool_decide (t = MessageSolicit) then handle_solicit h s req relay i
  else if bool_decide (t = MessageRequest6) then handle_request6 h s req relay i
  else if bool_decide (t ∈ [MessageRenew; MessageRebind]) then handle_renew h s req relay i
  else if bool_decide (t = MessageRelease6) then handle_release6 h s req relay i
  else if bool_decide (t = MessageDecline6) then handle_decline6 h s req relay i
  else if bool_decide (t = MessageInformationRequest) then handle_information_request h s req
  else Ok (mkOutcome6 s None None []).

Definition handle_relay (h : Handler6) (s : S) (req : Packet6) (i : Inputs6) : result Outcome6 :=
  match encapsulated req with
  | Panic p => Panic p
  | Err e => Ok (mkOutcome6 s None (Some e) [])
  | Ok None => Ok (mkOutcome6 s None (Some (errorNew "relay-forward missing relay-message option")) [])
  | Ok (Some inner) =>
      o ← dispatch6 h s inner (p6_link req) i;
      match o6_err o, o6_reply o with
      | None, Some resp =>
          Ok (mkOutcome6 (o6_store o) (Some (encapsulate_relay_reply req resp)) None (o6_events o))
      | _, _ => Ok o
      end
  end.

(** [Handle] *)
Definition handle6 (h : Handler6) (s : S) (req : Packet6) (i : Inputs6) : result Outcome6 :=
  if is_relay req then handle_relay h s req i else dispatch6 h s req [] i.

(** One datagram through [Server.Start]'s loop: the bytes sent back to the sender. *)
Definition serve6 (h : Handler6) (s : S) (raw : bytes) (i : Inputs6) : result (S * option bytes) :=
  match decode_packet6 raw with
  | Panic p => Panic p
  | Err _ => Ok (s, None)
  | Ok req =>
      o ← handle6 h s req i;
      match o6_err o, o6_reply o with
      | None, Some resp =>
          match encode_packet6 resp with
          | Ok out => Ok (o6_store o, Some out)
          | _ => Ok (o6_store o, None)
          end
      | _, _ => Ok (o6_store o, None)
      end
  end.
End handler.
