(* ===== verification/Dhcp6Spec.v ===== *)
(** The DHCPv6 allocator and handler against the map of leases. *)

From S2P Require Import Prelude.
From S2P Require Import GoBytes.
From S2P Require Import GoStrings.
From S2P Require Import GoTime.
From S2P Require Import GoNet.
From S2P Require Import GoNet6.
From S2P Require Import Lease.
From S2P Require Import LeaseStore.
From S2P Require Import LeaseInterface.
From S2P Require Import Dhcp4PoolSpec.
From S2P Require Import Dhcp4Spec.
From S2P Require Import Dhcp6Wire.
From S2P Require Import Dhcp6Pool.
From S2P Require Import Dhcp6Handler.

(** * Addresses of a pool *)

(** The address of a number. *)
Definition at6 (v : Z) : bytes := be_put 16 v.

Lemma at6_get v : 0 ≤ v < 2 ^ 128 → be_get (at6 v) = v.
Proof. intros. by apply be_get_put_id. Qed.

Lemma get_at6 a : length a = 16%nat → at6 (be_get a) = a.
Proof. apply be_put_get_n. Qed.

Lemma compare6 x y :
  addr_compare (Some (A6 x [])) (Some (A6 y [])) = (be_get x ?= be_get y).
Proof. unfold addr_compare. cbn [addr_bits addr_num addr_zone]. simpl. by destruct (be_get x ?= be_get y). Qed.

(** A prefix holds the numbers with its leading bits. *)
Lemma contains6_spec p x y z :
  p_addr p = A6 x z → p_bits p ≤ 128 →
  prefix_contains p (A6 y []) = true ↔
  be_get x / 2 ^ (128 - p_bits p) = be_get y / 2 ^ (128 - p_bits p).
Proof.
  intros E Hb. unfold prefix_contains. rewrite E, Z.eqb_eq, Z.shiftr_lxor, Z.lxor_eq_0_iff.
  by rewrite !Z.shiftr_div_pow2 by lia.
Qed.

(** A pool as the constructor makes it, without IPv4-mapped addresses and not
    reaching the last address. *)
Record pool6_ok (p : managedPool) : Prop := {
  pool6_is6 : is6 (p_addr (mp_prefix p)) = true;
  pool6_bits : p_bits (mp_prefix p) ≤ 128;
  pool6_range : ∃ a b, mp_start p = A6 a [] ∧ mp_end p = A6 b [] ∧ length a = 16%nat ∧
    length b = 16%nat ∧ be_get a ≤ be_get b ∧
    prefix_contains (mp_prefix p) (A6 a []) = true ∧ prefix_contains (mp_prefix p) (A6 b []) = true;
  pool6_proper x : length x = 16%nat → prefix_contains (mp_prefix p) (A6 x []) = true →
    proper6 x ∧ be_get x < 2 ^ 128 - 1;
}.

Definition range_lo (p : managedPool) : Z := addr_num (Some (mp_start p)).
Definition range_hi (p : managedPool) : Z := addr_num (Some (mp_end p)).

Lemma range_le p : pool6_ok p → range_lo p ≤ range_hi p.
Proof.
  intros Hok. destruct (pool6_range p Hok) as (a & b & Ea & Eb & _ & _ & Hab & _).
  unfold range_lo, range_hi. by rewrite Ea, Eb.
Qed.

(** Every address of the range is in the prefix. *)
Lemma range_contained p v :
  pool6_ok p → range_lo p ≤ v ≤ range_hi p →
  0 ≤ v < 2 ^ 128 - 1 ∧ prefix_contains (mp_prefix p) (A6 (at6 v) []) = true ∧ proper6 (at6 v).
Proof.
  intros [Hs Hb (a & b & Ea & Eb & Ha & Hlb & Hab & Hca & Hcb) Hp] Hv.
  unfold range_lo, range_hi in Hv. rewrite Ea, Eb in Hv. simpl in Hv.
  pose proof (be_get_range a) as Hra. pose proof (proj2 (Hp b Hlb Hcb)).
  assert (Hc : prefix_contains (mp_prefix p) (A6 (at6 v) []) = true).
  { destruct (p_addr (mp_prefix p)) as [|x z] eqn:Ex; [done|].
    apply (contains6_spec _ x (at6 v) z Ex Hb). rewrite at6_get by lia.
    apply (contains6_spec _ x a z Ex Hb) in Hca. apply (contains6_spec _ x b z Ex Hb) in Hcb.
    assert (0 < 2 ^ (128 - p_bits (mp_prefix p))) by (apply Z.pow_pos_nonneg; lia).
    pose proof (Z.div_le_mono (be_get a) v _ H0 ltac:(lia)).
    pose proof (Z.div_le_mono v (be_get b) _ H0 ltac:(lia)). lia. }
  split; [lia|]. split; [done|]. apply Hp; [apply be_put_length|done].
Qed.

(** An address found in the prefix of a pool. *)
Lemma contained_proper p ad :
  pool6_ok p → prefix_contains (mp_prefix p) ad = true →
  match ad with A4 a => length a = 4%nat | A6 a _ => length a = 16%nat end →
  ∃ a, ad = A6 a [] ∧ proper6 a.
Proof.
  intros [Hs _ _ Hp] Hc Hl. unfold prefix_contains in Hc.
  destruct (p_addr (mp_prefix p)) as [|x z] eqn:Ex; [done|].
  destruct ad as [|a [|? ?]]; try done. exists a. split; [done|]. apply Hp; [done|].
  unfold prefix_contains. by rewrite Ex.
Qed.

(** * Rows *)

Section spec.
Context {S : Type} `{U : UnicodeTables} `{LS : LeaseStore S} `{!LeaseStoreLaws S}.

(** A lease that keeps others off its address. *)
Definition held6 (l : Lease) : Prop := l_state l ∉ [StateReleased; StateExpired; StateFree].

(** Rows are keyed by the text Go prints. *)
Definition row_canonical (l : Lease) : Prop :=
  ∀ ad, parse_addr (trim_space (l_ip l)) = Ok ad → ip_string (as_slice ad) = l_ip l.

Record inv6 (s : S) (m : lease_map) : Prop := {
  inv6_store : ls_map s m;
  inv6_canonical : map_Forall (λ _, row_canonical) m;
}.

(** The client may have the row: it is its own or nobody holds it. *)
Definition free_for (m : lease_map) (duid key : bytes) : Prop :=
  ∀ l, m !! key = Some l → l_client_id l = duid ∨ ¬ held6 l.

(** A lease of another client whose identifier is the client's followed by the separator
    byte: the index gives it with the client's own. *)
Definition collides (l : Lease) (duid : bytes) : Prop :=
  l_client_id l ≠ [] ∧ has_prefix (index_key (l_client_id l) (l_ip l)) (duid ++ [index_sep]) = true ∧ l_client_id l ≠ duid.

(** No identifier in the store is the client's followed by the separator byte. *)
Definition no_collision (m : lease_map) (duid : bytes) : Prop :=
  ∀ l, m !! l_ip l = Some l → l_client_id l ≠ [] →
    has_prefix (index_key (l_client_id l) (l_ip l)) (duid ++ [index_sep]) = true →
    l_client_id l = duid.

Lemma available_spec s m duid a :
  ls_map s m → proper6 a →
  available_for_client s (Some (A6 a [])) duid = true ↔
  (duid ≠ [] ∧ ∃ l, m !! ip_string a = Some l ∧ l_client_id l = duid) ∨
  (∀ l, m !! ip_string a = Some l → ¬ held6 l).
Proof.
  intros Hs Ha. unfold available_for_client. rewrite (ls_get_by_ip_law s m _ Hs).
  destruct (proper6_string a Ha) as (E1 & E2 & _). change (opt_addr_string (Some (A6 a []))) with (addr_string (A6 a [])). rewrite E2, <-E1.
  destruct (m !! ip_string a) as [l|]; [|naive_solver].
  assert (Hz : (0 <? zlen duid) = true ↔ duid ≠ []).
  { rewrite Z.ltb_lt. unfold zlen. destruct duid; simpl; split; (done || lia). }
  assert (Hst : bool_decide (l_state l ∈ [StateReleased; StateExpired; StateFree]) = true ↔ ¬ held6 l).
  { rewrite bool_decide_eq_true. unfold held6.
    destruct (decide (l_state l ∈ [StateReleased; StateExpired; StateFree])); naive_solver. }
  destruct (0 <? zlen duid) eqn:Ez; cbn [andb].
  - destruct (decide (l_client_id l = duid)) as [Heq|Hneq].
    + rewrite bool_decide_eq_true_2 by done. naive_solver.
    + rewrite bool_decide_eq_false_2, Hst by done. naive_solver.
  - rewrite Hst. assert (¬ duid ≠ []) by (intros ?%Hz; done). naive_solver.
Qed.

Lemma available_free s m duid a :
  ls_map s m → proper6 a → available_for_client s (Some (A6 a [])) duid = true →
  free_for m duid (ip_string a).
Proof.
  intros Hs Ha Hav l Hl. apply (available_spec s m duid a Hs Ha) in Hav as [(_ & l' & Hl' & E)|Hn].
  - left. congruence.
  - right. auto.
Qed.

(** * The loop over the range *)

Lemma range_step_in s p duid v :
  pool6_ok p → range_lo p ≤ v ≤ range_hi p →
  range_step s p duid (Some (A6 (at6 v) [])) =
    if available_for_client s (Some (A6 (at6 v) [])) duid then inr (Some (Some (A6 (at6 v) [])))
    else inl (Some (A6 (at6 (v + 1)) [])).
Proof.
  intros Hok Hv. destruct (range_contained p v Hok Hv) as (Hb & _ & _).
  destruct (pool6_range p Hok) as (a & b & Ea & Eb & _). unfold range_lo, range_hi in Hv.
  unfold range_step. rewrite Ea, Eb in *. simpl in Hv.
  rewrite compare6, at6_get by lia.
  rewrite bool_decide_eq_false_2 by (rewrite Z.compare_gt_iff; lia).
  destruct (available_for_client _ _ _); [done|]. cbn [mbind option_bind].
  unfold addr_next. rewrite at6_get by lia. rewrite (proj2 (Z.eqb_neq _ _)) by lia. done.
Qed.

Lemma range_loop_spec s p duid n : ∀ v,
  pool6_ok p → range_lo p ≤ v ≤ range_hi p + 1 → range_hi p - v + 1 < Z.of_nat n →
  ∃ r, loop_nat (range_step s p duid) n (Some (A6 (at6 v) [])) = inr r ∧
    match r with
    | Some o => ∃ w, o = Some (A6 (at6 w) []) ∧ v ≤ w ≤ range_hi p ∧
        available_for_client s o duid = true ∧
        ∀ u, v ≤ u < w → available_for_client s (Some (A6 (at6 u) [])) duid = false
    | None => ∀ u, v ≤ u ≤ range_hi p → available_for_client s (Some (A6 (at6 u) [])) duid = false
    end.
Proof.
  induction n as [|n IH]; intros v Hok Hv Hn; [lia|]. cbn [loop_nat].
  destruct (decide (v ≤ range_hi p)) as [Hle|Hgt].
  - rewrite range_step_in by (done || lia).
    destruct (available_for_client s (Some (A6 (at6 v) [])) duid) eqn:Hav.
    + exists (Some (Some (A6 (at6 v) []))). split; [done|]. exists v. split_and!; [done|lia..|done|].
      intros; lia.
    + destruct (IH (v + 1)) as (r & Er & Hr); [done|lia|lia|]. exists r. split; [done|].
      destruct r as [o|].
      * destruct Hr as (w & Eo & Hw & Ha & Hall). exists w. split_and!; [done|lia..|done|].
        intros u Hu. destruct (decide (u = v)) as [-> |]; [done|apply Hall; lia].
      * intros u Hu. destruct (decide (u = v)) as [-> |]; [done|apply Hr; lia].
  - assert (v = range_hi p + 1) as -> by lia.
    pose proof (range_le p Hok).
    destruct (range_contained p (range_hi p) Hok) as (Hb & _ & _); [lia|].
    destruct (pool6_range p Hok) as (a & b & Ea & Eb & _ & Hlb & _).
    exists None. split; [|intros; lia]. unfold range_step. rewrite Eb.
    assert (Eh : range_hi p = be_get b) by (unfold range_hi; by rewrite Eb).
    rewrite compare6, at6_get, <-Eh by lia.
    rewrite bool_decide_eq_true_2; [reflexivity|]. rewrite Z.compare_gt_iff. lia.
Qed.

(** The bound of the loop is enough. *)
Lemma range_search s p duid :
  pool6_ok p →
  ∃ r, loop_pos (range_step s p duid) (range_fuel p) (Some (mp_start p)) = inr r ∧
    match r with
    | Some o => ∃ w, o = Some (A6 (at6 w) []) ∧ range_lo p ≤ w ≤ range_hi p ∧
        available_for_client s o duid = true ∧
        ∀ u, range_lo p ≤ u < w → available_for_client s (Some (A6 (at6 u) [])) duid = false
    | None => ∀ u, range_lo p ≤ u ≤ range_hi p →
        available_for_client s (Some (A6 (at6 u) [])) duid = false
    end.
Proof.
  intros Hok. destruct (pool6_range p Hok) as (a & b & Ea & Eb & Hla & Hlb & Hab & _).
  rewrite loop_pos_nat. unfold range_fuel.
  assert (Hst : mp_start p = A6 (at6 (range_lo p)) []).
  { unfold range_lo. rewrite Ea. simpl. by rewrite get_at6. }
  pose proof (range_le p Hok).
  fold (range_lo p) (range_hi p). rewrite Hst. apply range_loop_spec; [done|lia|].
  rewrite positive_nat_Z, Z2Pos.id by lia. lia.
Qed.

(** * Allocation *)

Lemma pool_of_in pools ip p : pool_of pools ip = Some p → p ∈ pools.
Proof.
  unfold pool_of. destruct (addr_from_slice _) as [a|]; [|done].
  destruct (filter _ pools) as [|q qs] eqn:E; [done|]. intros [= <-].
  assert (Hin : q ∈ filter (λ p, prefix_contains (mp_prefix p) a = true) pools) by (rewrite E; left).
  by apply list_elem_of_filter in Hin as [_ ?].
Qed.

Lemma select_pool_spec pm req :
  p6_pools pm ≠ [] → ∃ p, select_pool pm req = Ok p ∧ p ∈ p6_pools pm.
Proof.
  intros Hne. unfold select_pool.
  destruct (pool_of (p6_pools pm) (r6_requested req)) eqn:E1; [eauto using pool_of_in|].
  destruct (pool_of (p6_pools pm) (r6_relay req)) eqn:E2; [eauto using pool_of_in|].
  destruct (p6_pools pm) as [|p ps]; [done|]. exists p. split; [done|left].
Qed.

Lemma existing_address_spec p ls :
  match existing_address p ls with
  | Some ip => ∃ item, item ∈ ls ∧ parse_addr (trim_space (l_ip item)) = Ok ip ∧
      prefix_contains (mp_prefix p) ip = true
  | None => ∀ item ip, item ∈ ls → parse_addr (trim_space (l_ip item)) = Ok ip →
      prefix_contains (mp_prefix p) ip = false
  end.
Proof.
  induction ls as [|item ls IH]; simpl; [intros ? ? Hin; by apply elem_of_nil in Hin|].
  destruct (parse_addr (trim_space (l_ip item))) as [ip| |] eqn:E.
  - destruct (prefix_contains (mp_prefix p) ip) eqn:Ec.
    + exists item. split_and!; [left|done..].
    + destruct (existing_address p ls) as [ip'|].
      * destruct IH as (x & ? & ? & ?). exists x. split_and!; [by right|done..].
      * intros x ip' [-> |Hin]%elem_of_cons Hx; [congruence|eauto].
  - destruct (existing_address p ls) as [ip'|].
    * destruct IH as (x & ? & ? & ?). exists x. split_and!; [by right|done..].
    * intros x ip' [-> |Hin]%elem_of_cons Hx; [congruence|eauto].
  - destruct (existing_address p ls) as [ip'|].
    * destruct IH as (x & ? & ? & ?). exists x. split_and!; [by right|done..].
    * intros x ip' [-> |Hin]%elem_of_cons Hx; [congruence|eauto].
Qed.

Definition pools6_ok (pm : PoolManager6) : Prop := p6_pools pm ≠ [] ∧ Forall pool6_ok (p6_pools pm).

(** An address of the selected pool that the client may have, or that a lease it collides
    with holds. *)
Definition granted (pm : PoolManager6) (m : lease_map) (req : AllocationRequest6)
    (res : AllocationResult6) : Prop :=
  ∃ p a, p ∈ p6_pools pm ∧ select_pool pm req = Ok p ∧ proper6 a ∧
    prefix_contains (mp_prefix p) (A6 a []) = true ∧
    res = result_for pm p (Some (A6 a [])) (r6_iaid req) ∧
    (free_for m (r6_duid req) (ip_string a) ∨ ∃ l, m !! ip_string a = Some l ∧ collides l (r6_duid req)).

(** An address of a pool the client may have. *)
Definition grant (pm : PoolManager6) (m : lease_map) (req : AllocationRequest6)
    (res : AllocationResult6) : Prop :=
  ∃ p a, p ∈ p6_pools pm ∧ select_pool pm req = Ok p ∧ proper6 a ∧
    prefix_contains (mp_prefix p) (A6 a []) = true ∧
    res = result_for pm p (Some (A6 a [])) (r6_iaid req) ∧ free_for m (r6_duid req) (ip_string a).

(** Nothing left for the client in the pool that was selected. *)
Definition exhausted6 (pm : PoolManager6) (m : lease_map) (req : AllocationRequest6) : Prop :=
  ∀ p, select_pool pm req = Ok p → ∀ v, range_lo p ≤ v ≤ range_hi p →
    ∃ l, m !! ip_string (at6 v) = Some l ∧ held6 l ∧ (r6_duid req ≠ [] → l_client_id l ≠ r6_duid req).

Lemma not_available_spec s m duid a :
  ls_map s m → proper6 a → available_for_client s (Some (A6 a [])) duid = false →
  ∃ l, m !! ip_string a = Some l ∧ held6 l ∧ (duid ≠ [] → l_client_id l ≠ duid).
Proof.
  intros Hs Ha Hav. destruct (m !! ip_string a) as [l|] eqn:El.
  - exists l. split; [done|]. apply not_true_iff_false in Hav. rewrite available_spec in Hav by done.
    split.
    + unfold held6. intros Hin. apply Hav. right. intros l' Hl'. rewrite El in Hl'. injection Hl' as <-.
      unfold held6. auto.
    + intros Hne E. apply Hav. left. eauto.
  - exfalso. apply not_true_iff_false in Hav. apply Hav. apply (available_spec s m); [done..|].
    right. intros l Hl. congruence.
Qed.

Lemma allocate6_cases s m pm req :
  inv6 s m → pools6_ok pm →
  match allocate6 pm s req with
  | Ok res => granted pm m req res
  | Err _ => exhausted6 pm m req
  | Panic _ => False
  end.
Proof.
  intros [Hs Hcan] [Hne Hok]. unfold allocate6.
  destruct (select_pool_spec pm req Hne) as (p & Hsel & Hp). rewrite Hsel. cbn [mbind result_bind].
  assert (Hpok : pool6_ok p) by by eapply Forall_forall in Hok.
  set (may a := free_for m (r6_duid req) (ip_string a) ∨ ∃ l, m !! ip_string a = Some l ∧ collides l (r6_duid req)).
  assert (Hgrant : ∀ a, proper6 a → prefix_contains (mp_prefix p) (A6 a []) = true → may a →
    granted pm m req (result_for pm p (Some (A6 a [])) (r6_iaid req))) by (intros a; by exists p, a).
  set (existing := if 0 <? zlen (r6_duid req) then _ else None).
  assert (Hex : ∀ ip, existing = Some ip → ∃ a, ip = A6 a [] ∧ proper6 a ∧
    prefix_contains (mp_prefix p) (A6 a []) = true ∧ may a).
  { intros ip. subst existing. destruct (0 <? zlen (r6_duid req)); [|done].
    destruct (ls_get_by_client_id_law s m (r6_duid req) Hs) as (ls & -> & Hin).
    pose proof (existing_address_spec p ls) as He. intros E. rewrite E in He.
    destruct He as (item & Hitem & Hparse & Hc). apply Hin in Hitem as (Hrow & Hcid & Hpre).
    destruct (contained_proper p ip Hpok Hc (parse_addr_length _ _ Hparse)) as (a & -> & Ha).
    exists a. split_and!; try done.
    pose proof (Hcan _ _ Hrow _ Hparse) as Hk. simpl in Hk. unfold may. rewrite Hk.
    destruct (decide (l_client_id item = r6_duid req)); [left|right; by exists item].
    intros l Hl. left. congruence. }
  destruct existing as [ip|].
  { destruct (Hex ip eq_refl) as (a & -> & Ha & Hc & Hf). by apply Hgrant. }
  set (requested := match addr_from_slice _ with Some a => _ | None => None end).
  assert (Hreq : ∀ ip, requested = Some ip → ∃ a, ip = A6 a [] ∧ proper6 a ∧
    prefix_contains (mp_prefix p) (A6 a []) = true ∧ may a).
  { intros ip. subst requested. destruct (addr_from_slice (to16 (r6_requested req))) as [ad|] eqn:Ead; [|done].
    destruct (prefix_contains (mp_prefix p) ad) eqn:Hc; [|done]. cbn [andb].
    destruct (available_for_client _ _ _) eqn:Hav; [|done]. intros [= <-].
    destruct (contained_proper p ad Hpok Hc) as (a & -> & Ha).
    { unfold addr_from_slice in Ead. repeat case_bool_decide; simplify_eq; done. }
    exists a. split_and!; try done. left. by eapply available_free. }
  destruct requested as [ip|].
  { destruct (Hreq ip eq_refl) as (a & -> & Ha & Hc & Hf). by apply Hgrant. }
  destruct (range_search s p (r6_duid req) Hpok) as (r & -> & Hr). destruct r as [o|].
  - destruct Hr as (w & -> & Hw & Hav & _). destruct (range_contained p w Hpok Hw) as (_ & Hc & Ha).
    apply Hgrant; [done|done|]. left. by eapply available_free.
  - intros p' Hsel' v Hv. rewrite Hsel in Hsel'. injection Hsel' as <-.
    destruct (range_contained p v Hpok Hv) as (_ & _ & Ha).
    apply (not_available_spec s m); [done..|]. by apply Hr.
Qed.
Lemma allocate6_spec s m pm req :
  inv6 s m → pools6_ok pm → no_collision m (r6_duid req) →
  match allocate6 pm s req with
  | Ok res => grant pm m req res
  | Err _ => exhausted6 pm m req
  | Panic _ => False
  end.
Proof.
  intros Hi Hpm Hnc. pose proof (allocate6_cases s m pm req Hi Hpm) as Ha. destruct (allocate6 pm s req) as [res| |]; [|done..].
  destruct Ha as (p & a & Hp & Hsel & Hprop & Hc & -> & Hf). exists p, a. split_and!; try done.
  destruct Hf as [|(l & Hl & Hne & Hpre & Hd)]; [done|]. exfalso. apply Hd, Hnc; [|done..].
  by rewrite (ls_keyed _ _ _ _ (inv6_store _ _ Hi) Hl).
Qed.

(** * Writing a lease *)

(** A row the client may have is replaced; the other rows stay. *)
Lemma inv6_write s m s' l now :
  inv6 s m → ls_map s' (<[l_ip l := stored now l]> m) → row_canonical l →
  inv6 s' (<[l_ip l := stored now l]> m).
Proof.
  intros [Hs Hcan] Hs' Hl. split; [done|]. apply map_Forall_insert_2; [|done].
  intros ad Had. destruct (stored_fields now l) as (Eip & _). rewrite Eip in *. by apply Hl.
Qed.

Lemma canonical_proper l a : proper6 a → l_ip l = ip_string a → row_canonical l.
Proof.
  intros Ha E ad. rewrite E, trim_proper6, proper6_parse by done. by intros [= <-].
Qed.

(** Rows of other clients that hold their address. *)
Definition others_kept (m m' : lease_map) (duid : bytes) : Prop :=
  ∀ ip old, m !! ip = Some old → held6 old → l_client_id old ≠ duid → m' !! ip = Some old.

Lemma others_insert m duid l x :
  free_for m duid (l_ip l) → others_kept m (<[l_ip l := x]> m) duid.
Proof.
  intros Hf ip old Hold Hh Hne. destruct (decide (ip = l_ip l)) as [-> |Hi].
  - by destruct (Hf old Hold).
  - by rewrite lookup_insert_ne.
Qed.
End spec.
