(* ===== verification/Dhcp6Theorems.v ===== *)
(** What the DHCPv6 server guarantees. *)

From S2P Require Import Prelude.
From S2P Require Import GoBytes.
From S2P Require Import GoStrings.
From S2P Require Import GoTime.
From S2P Require Import GoJson.
From S2P Require Import GoNet.
From S2P Require Import GoNet6.
From S2P Require Import StorageEngine.
From S2P Require Import ConfigTypes.
From S2P Require Import Lease.
From S2P Require Import LeaseStore.
From S2P Require Import LeaseInterface.
From S2P Require Import LeaseSpec.
From S2P Require Import LeaseTheorems.
From S2P Require Import Dhcp4Pool.
From S2P Require Import Dhcp4Spec.
From S2P Require Import Dhcp6Wire.
From S2P Require Import Dhcp6Pool.
From S2P Require Import Dhcp6Handler.
From S2P Require Import Dhcp6Spec.

(** * The lease a message writes *)

Section lemmas.
Context {S : Type} `{U : UnicodeTables} `{LS : LeaseStore S} `{!LeaseStoreLaws S}.

Definition written_alloc (h : Handler6) (s : S) (req : Packet6) (relay : bytes) (i : Inputs6)
    (state : bytes) : option Lease :=
  match allocate6 (h6_pools h) s (allocation_request6 req relay) with
  | Ok alloc => Some (build_lease_record req alloc relay state (in6_now i))
  | _ => None
  end.

Definition written_own (s : S) (req : Packet6) (change : Lease → Lease) : option Lease :=
  change <$> first_lease s (client_id6 (p6_options req)).

Definition written_dispatch (h : Handler6) (s : S) (req : Packet6) (relay : bytes) (i : Inputs6)
    : option Lease :=
  let t := p6_type req in
  if bool_decide (client_id6 (p6_options req) = []) then None
  else if bool_decide (t = MessageSolicit) then
    written_alloc h s req relay i
      (if has_rapid_commit6 (p6_options req) then StateBound else StateOffered)
  else if bool_decide (t = MessageRequest6) then
    match ensure_server_id h req with
    | Some _ => None | None => written_alloc h s req relay i StateBound end
  else if bool_decide (t ∈ [MessageRenew; MessageRebind]) then
    match ensure_server_id h req with
    | Some _ => None | None => written_own s req (λ l, renewed l relay (in6_now i)) end
  else if bool_decide (t = MessageRelease6) then written_own s req (λ l, released l relay (in6_now i))
  else if bool_decide (t = MessageDecline6) then written_own s req (λ l, declined l relay (in6_now i))
  else None.

(** The client's message in a datagram, and the address of its relay. *)
Definition inner_message (req : Packet6) : option (Packet6 * bytes) :=
  if is_relay req then
    match encapsulated req with Ok (Some inner) => Some (inner, p6_link req) | _ => None end
  else Some (req, []).

Definition written6 (h : Handler6) (s : S) (req : Packet6) (i : Inputs6) : option Lease :=
  '(inner, relay) ← inner_message req; written_dispatch h s inner relay i.

Definition sender (req : Packet6) : bytes :=
  match inner_message req with Some (inner, _) => client_id6 (p6_options inner) | None => [] end.

Lemma first_lease_own s m duid l :
  inv6 s m → no_collision m duid → first_lease s duid = Some l →
  m !! l_ip l = Some l ∧ l_client_id l = duid.
Proof.
  intros [Hs _] Hnc. unfold first_lease.
  destruct (ls_get_by_client_id_law s m duid Hs) as (ls & -> & Hin).
  destruct ls as [|x ls]; [done|]. intros [= <-].
  destruct (proj1 (Hin x)) as (Hrow & Hcid & Hpre); [left|]. split; [done|]. by apply Hnc.
Qed.

(** What handling a message does to the leases. *)
Definition handled6 (m : lease_map) (env : ls_env) (duid : bytes) (w : option Lease)
    (r : result (Outcome6 (S := S))) : Prop :=
  ∃ o, r = Ok o ∧ inv6 (o6_store o) (after_write m env w) ∧ others_kept m (after_write m env w) duid.

Lemma handled6_quiet s m env duid o :
  inv6 s m → o6_store o = s → handled6 m env duid None (Ok o).
Proof. intros Hi <-. exists o. split_and!; [done|done|]. by intros ip old Hold _ _. Qed.

(** The write of a row the client may have. *)
Lemma write6 s m l env duid :
  inv6 s m → ls_writable env l → row_canonical l → free_for m duid (l_ip l) →
  ∃ s', ls_upsert s l env = (s', None) ∧ inv6 s' (after_write m env (Some l)) ∧
    others_kept m (after_write m env (Some l)) duid.
Proof.
  intros Hi Hw Hc Hf. destruct (ls_upsert_law s m l env (inv6_store _ _ Hi) Hw) as (s' & E & Hs').
  exists s'. split; [done|]. split; [by eapply inv6_write|by apply others_insert].
Qed.

(** A grant, written. *)
Lemma write_grant s m pm req relay alloc areq state now env :
  inv6 s m → grant pm m areq alloc →
  let l := build_lease_record req alloc relay state now in
  ls_writable env l →
  ∃ s', ls_upsert s l env = (s', None) ∧ inv6 s' (after_write m env (Some l)) ∧
    others_kept m (after_write m env (Some l)) (r6_duid areq).
Proof.
  intros Hi (p & a & _ & _ & Ha & _ & -> & Hf) l Hw. apply write6; [done..| |done].
  by apply (canonical_proper l a).
Qed.

(** A change of the client's own row. *)
Lemma write_own s m duid l change env :
  inv6 s m → no_collision m duid → first_lease s duid = Some l →
  l_ip (change l) = l_ip l → ls_writable env (change l) →
  ∃ s', ls_upsert s (change l) env = (s', None) ∧ inv6 s' (after_write m env (Some (change l))) ∧
    others_kept m (after_write m env (Some (change l))) duid.
Proof.
  intros Hi Hnc Hl Hip Hw. destruct (first_lease_own s m duid l Hi Hnc Hl) as [Hrow Hcid].
  apply write6; [done..| |].
  - intros ad. rewrite Hip. apply (inv6_canonical _ _ Hi _ _ Hrow).
  - rewrite Hip. intros l' Hl'. left. congruence.
Qed.

Lemma handle_solicit_ok h s m req relay i :
  inv6 s m → pools6_ok (h6_pools h) → no_collision m (client_id6 (p6_options req)) →
  client_id6 (p6_options req) ≠ [] →
  let w := written_alloc h s req relay i
    (if has_rapid_commit6 (p6_options req) then StateBound else StateOffered) in
  (∀ l, w = Some l → ls_writable (in6_env i) l) →
  handled6 m (in6_env i) (client_id6 (p6_options req)) w (handle_solicit h s req relay i).
Proof.
  intros Hi Hpm Hnc Hcid w Hw. unfold handled6, handle_solicit, w, written_alloc in *.
  rewrite (bool_decide_eq_false_2 (client_id6 (p6_options req) = [])) by done.
  pose proof (allocate6_spec s m (h6_pools h) (allocation_request6 req relay) Hi Hpm Hnc) as Ha.
  destruct (allocate6 _ _ _) as [alloc|e|]; [|by eapply handled6_quiet|done].
  destruct (write_grant s m _ req relay alloc _ _ (in6_now i) _ Hi Ha (Hw _ eq_refl))
    as (s' & -> & Hi' & Ho). eexists. split; [done|]. by split.
Qed.

Lemma handle_request6_ok h s m req relay i :
  inv6 s m → pools6_ok (h6_pools h) → no_collision m (client_id6 (p6_options req)) →
  client_id6 (p6_options req) ≠ [] →
  let w := match ensure_server_id h req with
           | Some _ => None | None => written_alloc h s req relay i StateBound end in
  (∀ l, w = Some l → ls_writable (in6_env i) l) →
  handled6 m (in6_env i) (client_id6 (p6_options req)) w (handle_request6 h s req relay i).
Proof.
  intros Hi Hpm Hnc Hcid w Hw. unfold handle_request6, w in *.
  destruct (ensure_server_id h req) as [e|]; [by eapply handled6_quiet|].
  rewrite (bool_decide_eq_false_2 (client_id6 (p6_options req) = [])) by done.
  unfold handled6, written_alloc in *.
  pose proof (allocate6_spec s m (h6_pools h) (allocation_request6 req relay) Hi Hpm Hnc) as Ha.
  destruct (allocate6 _ _ _) as [alloc|e|]; [|by eapply handled6_quiet|done].
  destruct (write_grant s m _ req relay alloc _ _ (in6_now i) _ Hi Ha (Hw _ eq_refl))
    as (s' & -> & Hi' & Ho). eexists. split; [done|]. by split.
Qed.

Lemma handle_renew_ok h s m req relay i :
  inv6 s m → no_collision m (client_id6 (p6_options req)) → client_id6 (p6_options req) ≠ [] →
  let w := match ensure_server_id h req with
           | Some _ => None | None => written_own s req (λ l, renewed l relay (in6_now i)) end in
  (∀ l, w = Some l → ls_writable (in6_env i) l) →
  handled6 m (in6_env i) (client_id6 (p6_options req)) w (handle_renew h s req relay i).
Proof.
  intros Hi Hnc Hcid w Hw. unfold handle_renew, w in *.
  destruct (ensure_server_id h req) as [e|]; [by eapply handled6_quiet|].
  rewrite (bool_decide_eq_false_2 (client_id6 (p6_options req) = [])) by done.
  unfold handled6, written_own in *.
  destruct (first_lease s _) as [l|] eqn:El; [|by eapply handled6_quiet]. cbn [fmap option_fmap option_map] in *.
  destruct (write_own s m _ l (λ l, renewed l relay (in6_now i)) (in6_env i) Hi Hnc El eq_refl (Hw _ eq_refl))
    as (s' & -> & Hi' & Ho). eexists. split; [done|]. by split.
Qed.

Lemma handle_give_up_ok h s m req i change event message :
  inv6 s m → no_collision m (client_id6 (p6_options req)) → client_id6 (p6_options req) ≠ [] →
  (∀ l, l_ip (change l) = l_ip l) →
  let w := written_own s req change in
  (∀ l, w = Some l → ls_writable (in6_env i) l) →
  handled6 m (in6_env i) (client_id6 (p6_options req)) w (handle_give_up h s req i change event message).
Proof.
  intros Hi Hnc Hcid Hip w Hw. unfold handle_give_up, handled6, w, written_own in *.
  rewrite (bool_decide_eq_false_2 (client_id6 (p6_options req) = [])) by done.
  destruct (first_lease s _) as [l|] eqn:El; [|by eapply handled6_quiet]. cbn [fmap option_fmap option_map] in *.
  destruct (write_own s m _ l change (in6_env i) Hi Hnc El (Hip l) (Hw _ eq_refl))
    as (s' & -> & Hi' & Ho). eexists. split; [done|]. by split.
Qed.

Lemma dispatch6_ok h s m req relay i :
  inv6 s m → pools6_ok (h6_pools h) → no_collision m (client_id6 (p6_options req)) →
  let w := written_dispatch h s req relay i in
  (∀ l, w = Some l → ls_writable (in6_env i) l) →
  handled6 m (in6_env i) (client_id6 (p6_options req)) w (dispatch6 h s req relay i).
Proof.
  intros Hi Hpm Hnc. cbv zeta. unfold written_dispatch, dispatch6. intros Hw.
  destruct (decide (client_id6 (p6_options req) = [])) as [Hcid|Hcid].
  - rewrite (bool_decide_eq_true_2 (client_id6 (p6_options req) = [])) by done.
    unfold handle_solicit, handle_request6, handle_renew, handle_release6, handle_decline6, handle_give_up.
    rewrite !(bool_decide_eq_true_2 (client_id6 (p6_options req) = [])) by done.
    clear Hw. destruct (ensure_server_id h req);
      repeat (case_bool_decide; [by eapply handled6_quiet|]); by eapply handled6_quiet.
  - rewrite (bool_decide_eq_false_2 (client_id6 (p6_options req) = [])) in * by done.
    case_bool_decide; [by apply handle_solicit_ok|].
    case_bool_decide; [by apply handle_request6_ok|].
    case_bool_decide; [by apply handle_renew_ok|].
    case_bool_decide; [by apply handle_give_up_ok|].
    case_bool_decide; [by apply handle_give_up_ok|].
    case_bool_decide; by eapply handled6_quiet.
Qed.

Lemma handle6_ok h s m req i :
  inv6 s m → pools6_ok (h6_pools h) → no_collision m (sender req) →
  (∀ l, written6 h s req i = Some l → ls_writable (in6_env i) l) →
  handled6 m (in6_env i) (sender req) (written6 h s req i) (handle6 h s req i).
Proof.
  intros Hi Hpm. unfold sender, written6, handle6, handle_relay, inner_message.
  destruct (is_relay req); [|intros Hnc Hw; by apply dispatch6_ok].
  destruct (encapsulated req) as [[inner|]|e|p] eqn:Ee; cbn [mbind option_bind].
  - intros Hnc Hw. destruct (dispatch6_ok h s m inner (p6_link req) i Hi Hpm Hnc Hw)
      as (o & Eo & Hi' & Ho). unfold handled6. rewrite Eo. cbn [mbind result_bind].
    destruct (o6_err o), (o6_reply o); eexists; (split; [done|]; by split).
  - intros _ _. by eapply handled6_quiet.
  - intros _ _. by eapply handled6_quiet.
  - exfalso. revert Ee. unfold encapsulated. destruct (get6 _ _) as [raw|]; [|done].
    destruct (decode_packet6 raw) eqn:E; [done|done|]. by apply decode_packet6_total in E.
Qed.
End lemmas.

(** * What a reply carries *)

Section replies.
Context {S : Type} `{U : UnicodeTables} `{LS : LeaseStore S} `{!LeaseStoreLaws S}.

Lemma values6_set o c c' v : c ≠ c' → values6 (set6 c v o) c' = values6 o c'.
Proof.
  intros Hne. unfold values6, set6. rewrite filter_app, fmap_app.
  rewrite (filter_cons_False _ (mkOption6 c v)) by (simpl; congruence). rewrite filter_nil, app_nil_r.
  f_equal. induction o as [|x o IH]; [done|]. rewrite filter_cons. destruct (decide (o_code x ≠ c)) as [Hx|Hx].
  - rewrite !filter_cons. by rewrite IH.
  - rewrite IH, filter_cons_False; [done|]. intros E. apply Hx. congruence.
Qed.

Lemma values6_add o c v : values6 (add6 c v o) c = values6 o c ++ [v].
Proof.
  unfold values6, add6. rewrite filter_app, fmap_app. f_equal.
  by rewrite filter_cons_True by done.
Qed.

Lemma ianas_set o c v : c ≠ OptionIANA → ianas (set6 c v o) = ianas o.
Proof. intros. unfold ianas. by rewrite values6_set. Qed.

Definition reply_iana (alloc : AllocationResult6) : IANA :=
  mkIANA (a6_iaid alloc) (a6_preferred alloc) (u32 (a6_valid alloc - a6_valid alloc / 8))
    [mkOption6 OptionIAAddr (encode_iaaddress
       (mkIAAddress (a6_ip alloc) (a6_preferred alloc) (a6_valid alloc) []))].

Lemma iaaddress_size a p v : zlen (encode_iaaddress (mkIAAddress a p v [])) = 24.
Proof. unfold encode_iaaddress, zlen. rewrite !length_app, !be_put_length, copy16_length. done. Qed.

Lemma ianas_reply h req alloc rapid :
  u32_ok (a6_iaid alloc) → u32_ok (a6_preferred alloc) →
  ianas (reply_options h req alloc rapid) = [reply_iana alloc].
Proof.
  intros H1 H2. set (pre := let opts := set_server_id (h6_duid h) (set_client_id (client_id6 (p6_options req)) [])
    in if rapid && has_rapid_commit6 (p6_options req) then set_rapid_commit6 opts else opts).
  assert (Hpre : ianas pre = []).
  { subst pre. unfold set_rapid_commit6, set_server_id, set_client_id. cbv zeta.
    destruct (rapid && _); rewrite !ianas_set by done; done. }
  assert (Hadd : ianas (add_iana (reply_iana alloc) pre) = [reply_iana alloc]).
  { unfold ianas, add_iana in *. rewrite values6_add, omap_app, Hpre. cbn [omap list_omap app].
    rewrite iana_fields; [done|done|done| |].
    - apply u32_range.
    - split; (constructor; [|constructor]); simpl; [done|]. by rewrite iaaddress_size. }
  unfold reply_options. fold pre. fold (reply_iana alloc). unfold set_dns_servers, set_domain_list.
  repeat case_bool_decide; by rewrite ?ianas_set by done.
Qed.

Lemma requested_reply alloc :
  u32_ok (a6_preferred alloc) → u32_ok (a6_valid alloc) → length (a6_ip alloc) = 16%nat →
  requested_ia_addr (reply_iana alloc) = a6_ip alloc.
Proof.
  intros H1 H2 Hl. unfold requested_ia_addr, reply_iana. cbn [ia_options requested_ia_loop o_code o_value].
  rewrite Z.eqb_refl. cbn [negb]. rewrite iaaddress_fields by (done || by split).
  cbn [iaa_address]. unfold to16. rewrite Hl. simpl. by apply copy16_id.
Qed.

Lemma seconds6_range d : 0 ≤ duration_to_uint32_seconds6 d < 2 ^ 32.
Proof.
  unfold duration_to_uint32_seconds6. destruct (Z.leb_spec d 0); [lia|].
  destruct (Z.leb_spec (dur_quot d second) 0); [lia|]. destruct (Z.ltb_spec max_u32 (dur_quot d second)); [done|].
  pose proof (u32_range (dur_quot d second)). lia.
Qed.

(** The lifetimes of a result. *)
Lemma result_lifetimes pm p a iaid :
  let r := result_for pm p a iaid in
  1 ≤ a6_preferred r ≤ a6_valid r ∧ a6_valid r < 2 ^ 32 ∧
  a6_preferred r ≤ u32 (a6_valid r - a6_valid r / 8) ≤ a6_valid r.
Proof.
  intros r. set (sec := a6_valid r).
  assert (Hsec : 1 ≤ sec < 2 ^ 32).
  { subst sec r. unfold result_for. cbn [a6_valid].
    pose proof (seconds6_range (mp_lease_dur p)). pose proof (seconds6_range (p6_default pm)).
    destruct (Z.eqb_spec (duration_to_uint32_seconds6 (mp_lease_dur p)) 0).
    - destruct (Z.eqb_spec (duration_to_uint32_seconds6 (p6_default pm)) 0);
        [vm_compute; split; congruence|lia].
    - destruct (Z.eqb_spec (duration_to_uint32_seconds6 (mp_lease_dur p)) 0); lia. }
  assert (Hp : a6_preferred r = if sec / 2 =? 0 then sec else sec / 2) by done. rewrite Hp.
  clearbody sec. pose proof (Z.div_mod sec 2 ltac:(lia)). pose proof (Z.mod_pos_bound sec 2 ltac:(lia)).
  pose proof (Z.div_mod sec 8 ltac:(lia)). pose proof (Z.mod_pos_bound sec 8 ltac:(lia)).
  rewrite u32_id by lia. destruct (Z.eqb_spec (sec / 2) 0); lia.
Qed.

Lemma first_iana_id o : u32_ok (ia_id (first_iana (ianas o))).
Proof.
  unfold ianas. destruct (omap _ _) as [|i l] eqn:E; [done|]. simpl.
  assert (Hin : i ∈ omap (λ value, match decode_iana value with Ok item => Some item | _ => None end)
    (values6 o OptionIANA)) by (rewrite E; left).
  apply list_elem_of_omap in Hin as (raw & _ & Hi). destruct (decode_iana raw) as [x| |] eqn:Ed; [|done..].
  injection Hi as <-. unfold decode_iana in Ed. destruct (_ <? 12) eqn:Hl; [done|].
  apply bind_ok in Ed as (opts & _ & Ed). injection Ed as <-. cbn [ia_id]. unfold u32_ok.
  pose proof (be_get_range (take 4 raw)) as Hr. apply Z.ltb_ge in Hl. unfold zlen in Hl.
  rewrite length_take, Nat.min_l in Hr by lia. done.
Qed.

(** The times and the address a client reads in a reply. *)
Definition offered_address (resp : Packet6) : bytes :=
  requested_ia_addr (first_iana (ianas (p6_options resp))).

Lemma reply_reads h m pm p a req areq rapid t :
  grant pm m areq (result_for pm p (Some (A6 a [])) (ia_id (first_iana (ianas (p6_options req))))) →
  let alloc := result_for pm p (Some (A6 a [])) (ia_id (first_iana (ianas (p6_options req)))) in
  length a = 16%nat →
  let resp := base_response6 req t <| p6_options := reply_options h req alloc rapid |> in
  offered_address resp = a ∧ first_iana (ianas (p6_options resp)) = reply_iana alloc.
Proof.
  intros _ alloc Ha resp. destruct (result_lifetimes pm p (Some (A6 a []))
    (ia_id (first_iana (ianas (p6_options req))))) as (H1 & H2 & _). fold alloc in H1, H2.
  unfold offered_address, resp. cbn [p6_options setter].
  rewrite ianas_reply; [|apply first_iana_id|unfold u32_ok; lia]. split; [|done].
  cbn [first_iana]. rewrite requested_reply; [done|unfold u32_ok; lia..|done].
Qed.

Lemma error_reply_reads h req status message : offered_address (error_reply h req status message) = [].
Proof.
  unfold offered_address, error_reply, set_status, set_server_id, set_client_id. cbn [p6_options setter].
  rewrite !ianas_set by done. case_bool_decide; [done|]. by rewrite ianas_set.
Qed.
End replies.

(** * Start-up *)

Section startup.

(** A prefix without IPv4-mapped addresses that does not reach the last one. *)
Definition unmapped (p : prefix) : Prop :=
  ∀ y, length y = 16%nat → prefix_contains p (A6 y []) = true → proper6 y ∧ be_get y < 2 ^ 128 - 1.

Lemma parse_prefix_bits s p : parse_prefix s = Ok p → is6 (p_addr p) = true → p_bits p ≤ 128.
Proof.
  unfold parse_prefix. destruct (cut_last s slash) as [[a bits]|]; [|done].
  destruct (parse_addr a) as [ad| |]; [|done..].
  destruct (match ad with A4 _ => false | A6 _ [] => false | A6 _ (_ :: _) => true end); [done|].
  destruct (_ && _); [done|]. destruct (parse_dec bits) as [n|]; [|done].
  destruct (Z.leb_spec n (if is6 ad then 128 else 32)) as [Hle|]; [|done].
  intros [= <-]. simpl. intros E. by rewrite E in Hle.
Qed.

Lemma contains6_addr p ad :
  is6 (p_addr p) = true → prefix_contains p ad = true → ∃ a, ad = A6 a [].
Proof.
  unfold prefix_contains. destruct (p_addr p) as [|x z]; [done|]. intros _.
  destruct ad as [|a [|? ?]]; try done. eauto.
Qed.

Lemma new_pool6_ok default x p :
  new_pool6 default x = Ok (Some p) → unmapped (mp_prefix p) → pool6_ok p.
Proof.
  unfold new_pool6. destruct (parse_prefix _) as [pf| |] eqn:Epf; [|done..].
  destruct (is6 (p_addr pf)) eqn:E6; [|done]. destruct (sc_dhcp_enabled x); [|done]. cbn [negb].
  destruct (parse_addr (trim_space (sc_pool_start x))) as [a| |] eqn:Ea; [|done..].
  destruct (prefix_contains pf a) eqn:Ca; [|done]. cbn [negb].
  destruct (parse_addr (trim_space (sc_pool_end x))) as [b| |] eqn:Eb; [|done..].
  destruct (prefix_contains pf b) eqn:Cb; [|done]. cbn [negb orb].
  case_bool_decide as Hcmp; [done|]. intros E. injection E as <-. cbn [mp_prefix]. intros Hu.
  destruct (contains6_addr pf a E6 Ca) as [xa ->]. destruct (contains6_addr pf b E6 Cb) as [xb ->].
  pose proof (parse_addr_length _ _ Ea) as La. pose proof (parse_addr_length _ _ Eb) as Lb.
  rewrite compare6 in Hcmp. split; cbn [mp_prefix mp_start mp_end]; [done| | |done].
  - by eapply parse_prefix_bits.
  - exists xa, xb. by split_and!.
Qed.

Lemma new_pools6_in default xs : ∀ ps,
  new_pools6 default xs = Ok ps → ∀ p, p ∈ ps → ∃ x, new_pool6 default x = Ok (Some p).
Proof.
  induction xs as [|x xs IH]; intros ps; cbn [new_pools6].
  { intros [= <-] p Hp. by apply elem_of_nil in Hp. }
  intros (item & Ei & (items & Es & E)%bind_ok)%bind_ok p Hp. injection E as <-.
  destruct item as [q|]; [|by eapply IH].
  apply elem_of_cons in Hp as [-> |Hp]; [by exists x|by eapply IH].
Qed.

(** The pools of a configuration are well formed: at least one of them, and
    in each the start and the end lie in the prefix, in order, so that the search
    of the range ends.  (Prefixes with IPv4-mapped addresses are excluded: Go
    prints them differently as [net.IP] and as [netip.Addr].) *)
Theorem startup6_establishes subnets default pm :
  new_pool_manager6 subnets default = Ok pm →
  Forall (λ p, unmapped (mp_prefix p)) (p6_pools pm) → pools6_ok pm.
Proof.
  unfold new_pool_manager6. intros (ps & Eps & E)%bind_ok Hu.
  case_bool_decide as Hne; [done|]. injection E as <-. cbn [p6_pools] in *. split; [done|].
  rewrite Forall_forall in Hu |- *. intros p Hp.
  destruct (new_pools6_in _ _ _ Eps p Hp) as (x & Ex). by eapply new_pool6_ok; [|apply Hu].
Qed.
End startup.

(** * The theorems *)

(** C10: no DHCPv6 message, relayed or direct, takes an address from another
    client.  When no stored identifier is the sender's followed by the separator
    byte, every message is handled without a panic, the leases stay consistent,
    and the row of every other client that holds its address is untouched. *)
Theorem no_address_stolen6 {S} `{UnicodeTables} `{LeaseStore S} `{!LeaseStoreLaws S}
    h (s : S) m req i :
  inv6 s m → pools6_ok (h6_pools h) → no_collision m (sender req) →
  (∀ l, written6 h s req i = Some l → ls_writable (in6_env i) l) →
  ∃ o, handle6 h s req i = Ok o ∧
    inv6 (o6_store o) (after_write m (in6_env i) (written6 h s req i)) ∧
    others_kept m (after_write m (in6_env i) (written6 h s req i)) (sender req).
Proof. apply handle6_ok. Qed.

(** Without that condition the property fails: a client whose identifier is a
    proper part of another's, up to a separator byte, is given the other's
    address and overwrites its lease. *)
Theorem client_id_steals6 {S} `{UnicodeTables} `{LeaseStore S} `{!LeaseStoreLaws S}
    h (s : S) m req relay i l p a more :
  inv6 s m → pools6_ok (h6_pools h) →
  let duid := client_id6 (p6_options req) in
  duid ≠ [] → ensure_server_id h req = None →
  select_pool (h6_pools h) (allocation_request6 req relay) = Ok p →
  m !! l_ip l = Some l → l_ip l = ip_string a → length a = 16%nat →
  prefix_contains (mp_prefix p) (A6 a []) = true →
  l_client_id l = duid ++ index_sep :: more →
  (∀ l', m !! l_ip l' = Some l' → l_client_id l' ≠ [] →
     has_prefix (index_key (l_client_id l') (l_ip l')) (duid ++ [index_sep]) = true → l' = l) →
  (∀ l', written_alloc h s req relay i StateBound = Some l' → ls_writable (in6_env i) l') →
  ∃ o l', handle_request6 h s req relay i = Ok o ∧ ls_get_by_ip (o6_store o) (l_ip l) = Ok l' ∧
    l_client_id l' = duid ∧ l_client_id l' ≠ l_client_id l.
Proof.
  intros Hi Hpm duid Hne Hsid Hsel Hrow Hip Hl16 Hc Hcid Huniq Hw.
  assert (Hpok : pool6_ok p).
  { destruct Hpm as [Hpne Hok]. destruct (select_pool_spec _ (allocation_request6 req relay) Hpne)
      as (q & Hq & Hin). rewrite Hsel in Hq. injection Hq as ->. by eapply Forall_forall in Hok. }
  destruct (pool6_proper p Hpok a Hl16 Hc) as [Ha _].
  assert (Hz : (0 <? zlen duid) = true).
  { apply Z.ltb_lt. unfold zlen. destruct duid; [done|simpl; lia]. }
  destruct (ls_get_by_client_id_law s m duid (inv6_store _ _ Hi)) as (ls & Els & Hin).
  assert (Hlin : l ∈ ls).
  { apply Hin. split; [done|]. rewrite Hcid. split; [by destruct duid|].
    apply has_prefix_spec. exists (more ++ index_sep :: l_ip l). unfold index_key.
    by rewrite <-!app_assoc. }
  assert (Hex : existing_address p ls = Some (A6 a [])).
  { pose proof (existing_address_spec p ls) as He. destruct (existing_address p ls) as [ip|].
    - destruct He as (x & Hx & Hparse & _). apply Hin in Hx as (F1 & F2 & F3).
      assert (x = l) as -> by by apply Huniq.
      rewrite Hip, trim_proper6, proper6_parse in Hparse by done. congruence.
    - exfalso. specialize (He l (A6 a []) Hlin). rewrite Hip, trim_proper6, proper6_parse in He by done.
      specialize (He eq_refl). congruence. }
  assert (Ealloc : allocate6 (h6_pools h) s (allocation_request6 req relay)
    = Ok (result_for (h6_pools h) p (Some (A6 a [])) (r6_iaid (allocation_request6 req relay)))).
  { unfold allocate6. rewrite Hsel. cbn [mbind result_bind].
    change (r6_duid (allocation_request6 req relay)) with duid. by rewrite Hz, Els, Hex. }
  unfold handle_request6, written_alloc in *. rewrite Hsid. fold duid.
  rewrite bool_decide_eq_false_2 by done. rewrite Ealloc in *.
  set (l' := build_lease_record _ _ _ _ _) in *. specialize (Hw l' eq_refl).
  assert (Hl' : l_ip l' = l_ip l) by (by rewrite Hip).
  destruct (ls_upsert_law s m l' (in6_env i) (inv6_store _ _ Hi) Hw) as (s' & -> & Hs').
  eexists _, (stored (ls_now (in6_env i)) l'). split; [done|]. cbn [o6_store].
  destruct (normalize_identity (ls_now (in6_env i)) (12 * hour) l') as (_ & _ & E & _).
  fold (stored (ls_now (in6_env i)) l') in E.
  rewrite (ls_get_by_ip_law _ _ _ Hs'), Hl', lookup_insert_eq, E.
  split_and!; [done|done|]. change (l_client_id l') with duid. rewrite Hcid.
  intros Eq. apply (f_equal length) in Eq. rewrite length_app in Eq. simpl in Eq. lia.
Qed.


(** What a client reads in an ADVERTISE or REPLY to its SOLICIT or REQUEST is
    true: the address in the reply is stored as its lease, offered or bound,
    before the reply is sent, and the times in it are ordered 32-bit numbers:
    T1 at most T2, the preferred lifetime at most the valid one. *)
Theorem reply6_is_leased {S} `{UnicodeTables} `{LeaseStore S} `{!LeaseStoreLaws S}
    h (s : S) m req relay i o resp :
  inv6 s m → pools6_ok (h6_pools h) → no_collision m (client_id6 (p6_options req)) →
  p6_type req ∈ [MessageSolicit; MessageRequest6] →
  (∀ l, written_dispatch h s req relay i = Some l → ls_writable (in6_env i) l) →
  dispatch6 h s req relay i = Ok o → o6_reply o = Some resp → offered_address resp ≠ [] →
  ∃ l, ls_get_by_ip (o6_store o) (ip_string (offered_address resp)) = Ok l ∧
    l_client_id l = client_id6 (p6_options req) ∧
    l_state l = (if bool_decide (p6_type resp = MessageAdvertise) then StateOffered else StateBound) ∧
    p6_xid resp = p6_xid req ∧
    let ia := first_iana (ianas (p6_options resp)) in
    1 ≤ ia_t1 ia ≤ ia_t2 ia ∧ ia_t2 ia < 2 ^ 32.
Proof.
  intros Hi Hpm Hnc Htype Hw Hd Hresp Hne.
  destruct (dispatch6_ok h s m req relay i Hi Hpm Hnc Hw) as (o' & Eo & Hi' & _).
  rewrite Hd in Eo. injection Eo as <-. unfold written_dispatch, dispatch6 in *.
  pose proof (allocate6_spec s m (h6_pools h) (allocation_request6 req relay) Hi Hpm Hnc) as Ha.
  assert (Hfinish : ∀ alloc state t rapid,
    grant (h6_pools h) m (allocation_request6 req relay) alloc →
    resp = base_response6 req t <| p6_options := reply_options h req alloc rapid |> →
    (if bool_decide (t = MessageAdvertise) then StateOffered else StateBound) = state →
    inv6 (o6_store o) (after_write m (in6_env i)
      (Some (build_lease_record req alloc relay state (in6_now i)))) →
    ∃ l, ls_get_by_ip (o6_store o) (ip_string (offered_address resp)) = Ok l ∧
      l_client_id l = client_id6 (p6_options req) ∧
      l_state l = (if bool_decide (p6_type resp = MessageAdvertise) then StateOffered else StateBound) ∧
      p6_xid resp = p6_xid req ∧
      let ia := first_iana (ianas (p6_options resp)) in
      1 ≤ ia_t1 ia ≤ ia_t2 ia ∧ ia_t2 ia < 2 ^ 32).
  { intros alloc state t rapid Hg -> Hstate Hinv. pose proof Hg as (p & a & _ & _ & Hpa & _ & Ealloc & _).
    change (r6_iaid (allocation_request6 req relay))
      with (ia_id (first_iana (ianas (p6_options req)))) in Ealloc.
    rewrite Ealloc in Hg. destruct (reply_reads h m _ p a req _ rapid t Hg (proj1 Hpa)) as [Eaddr Eia].
    rewrite <-Ealloc in Eaddr, Eia. rewrite Eaddr, Eia.
    set (l := build_lease_record req alloc relay state (in6_now i)) in *.
    exists (stored (ls_now (in6_env i)) l).
    destruct (normalize_identity (ls_now (in6_env i)) (12 * hour) l) as (_ & _ & Ec & _ & Es & _).
    fold (stored (ls_now (in6_env i)) l) in Ec, Es.
    rewrite (ls_get_by_ip_law _ _ _ (inv6_store _ _ Hinv)). cbn [after_write].
    assert (Hip : l_ip l = ip_string a).
    { change (l_ip l) with (ip_string (a6_ip alloc)). by rewrite Ealloc. }
    rewrite <-Hip, lookup_insert_eq, Ec, Es. split; [done|]. split; [done|]. split; [symmetry; exact Hstate|].
    split; [done|]. cbv zeta. cbn [reply_iana ia_t1 ia_t2].
    destruct (result_lifetimes (h6_pools h) p (Some (A6 a [])) (ia_id (first_iana (ianas (p6_options req)))))
      as (H1 & H2 & H3). rewrite <-Ealloc in H1, H2, H3. lia. }
  destruct (decide (client_id6 (p6_options req) = [])) as [Hcid|Hcid].
  { exfalso. unfold handle_solicit, handle_request6 in Hd. rewrite Hcid in Hd.
    rewrite (bool_decide_eq_true_2 ([] = [])) in Hd by done.
    rewrite !elem_of_cons, elem_of_nil in Htype. destruct Htype as [Ht|[Ht|[]]]; rewrite Ht in Hd; cbn in Hd.
    - injection Hd as <-. done.
    - apply Hne. destruct (ensure_server_id h req); injection Hd as <-; injection Hresp as <-;
        apply error_reply_reads. }
  rewrite (bool_decide_eq_false_2 (client_id6 (p6_options req) = [])) in Hi' by done.
  rewrite !elem_of_cons, elem_of_nil in Htype. clear Hw. destruct Htype as [Ht|[Ht|[]]]; rewrite Ht in Hd, Hi'.
  - rewrite (bool_decide_eq_true_2 (MessageSolicit = MessageSolicit)) in Hd, Hi' by done.
    unfold handle_solicit, written_alloc in *. rewrite bool_decide_eq_false_2 in Hd by done.
    destruct (allocate6 _ _ _) as [alloc|e|]; [|injection Hd as <-; done|done].
    destruct (ls_upsert _ _ _) as [s' [e|]]; [injection Hd as <-; done|].
    assert (Hr : resp = base_response6 req (if has_rapid_commit6 (p6_options req) then MessageReply else MessageAdvertise)
      <| p6_options := reply_options h req alloc true |>) by (injection Hd as <-; cbn in Hresp; congruence).
    apply (Hfinish alloc (if has_rapid_commit6 (p6_options req) then StateBound else StateOffered)
      _ _ Ha Hr); [|exact Hi'].
    by destruct (has_rapid_commit6 (p6_options req)).
  - rewrite (bool_decide_eq_false_2 (MessageRequest6 = MessageSolicit)) in Hd, Hi' by done.
    rewrite (bool_decide_eq_true_2 (MessageRequest6 = MessageRequest6)) in Hd, Hi' by done.
    unfold handle_request6, written_alloc in *.
    destruct (ensure_server_id h req) as [e|].
    { exfalso. apply Hne. injection Hd as <-. injection Hresp as <-. apply error_reply_reads. }
    rewrite bool_decide_eq_false_2 in Hd by done.
    destruct (allocate6 _ _ _) as [alloc|e|]; [| |done].
    + destruct (ls_upsert _ _ _) as [s' [e|]]; [injection Hd as <-; done|].
      assert (Hr : resp = base_response6 req MessageReply
        <| p6_options := reply_options h req alloc false |>) by (injection Hd as <-; cbn in Hresp; congruence).
      by apply (Hfinish alloc StateBound _ _ Ha Hr).
    + exfalso. apply Hne. injection Hd as <-. injection Hresp as <-. apply error_reply_reads.
Qed.

(** * Witnesses: one /64, one bound lease *)

#[local] Existing Instance ascii_tables.
#[local] Existing Instance packed_lease.

(** A prefix of at most 80 bits that is not the first nor the last. *)
Lemma unmapped_by_number p x z :
  p_addr p = A6 x z → 0 ≤ p_bits p ≤ 80 →
  0 < be_get x / 2 ^ (128 - p_bits p) < 2 ^ p_bits p - 1 → unmapped p.
Proof.
  intros Ex Hb Hx y Hy Hc. apply (contains6_spec p x y z Ex ltac:(lia)) in Hc. rewrite Hc in Hx.
  set (k := 2 ^ (128 - p_bits p)) in *.
  assert (Hk : 2 ^ 48 ≤ k) by (apply Z.pow_le_mono_r; lia).
  pose proof (Z.div_mod (be_get y) k ltac:(lia)). pose proof (Z.mod_pos_bound (be_get y) k ltac:(lia)).
  split.
  - split; [done|]. apply not_true_iff_false. intros [r ->]%has_prefix_spec.
    rewrite length_app in Hy. simpl in Hy. destruct r as [|a [|b [|c [|d [|? ?]]]]]; simpl in Hy; try lia.
    assert (Hg : be_get (v4_in_v6_prefix ++ [a; b; c; d]) < 2 ^ 48).
    { change (v4_in_v6_prefix ++ [a; b; c; d]) with ((((v4_in_v6_prefix ++ [a]) ++ [b]) ++ [c]) ++ [d]).
      rewrite !be_get_snoc. assert (be_get v4_in_v6_prefix = 65535) as -> by (vm_compute; reflexivity).
      pose proof (byte_to_Z_range a). pose proof (byte_to_Z_range b). pose proof (byte_to_Z_range c).
      pose proof (byte_to_Z_range d). lia. }
    rewrite Z.div_small in Hx; [lia|]. pose proof (be_get_range (v4_in_v6_prefix ++ [a; b; c; d])). lia.
  - assert (Hpow : 2 ^ 128 = 2 ^ p_bits p * k) by (unfold k; rewrite <-Z.pow_add_r by lia; f_equal; lia).
    nia.
Qed.

Definition demo_subnet6 : SubnetConfig :=
  mkSubnetConfig (bs "2001:db8::/64") (bs "v6") 0 (bs "2001:db8::1") [bs "2001:db8::53"] true
    (bs "2001:db8::10") (bs "2001:db8::ffff") (2 * hour) 0 [] [].
Definition demo_pool6 : managedPool :=
  mkManagedPool (bs "2001:db8::/64") (mkPrefix (A6 (parse_ip (bs "2001:db8::")) []) 64)
    (A6 (parse_ip (bs "2001:db8::10")) []) (A6 (parse_ip (bs "2001:db8::ffff")) [])
    (parse_ip (bs "2001:db8::1")) [parse_ip (bs "2001:db8::53")] (2 * hour).
Definition demo_pm6 : PoolManager6 := mkPoolManager6 [demo_pool6] (12 * hour).

Lemma demo_pm6_unmapped : Forall (λ p, unmapped (mp_prefix p)) (p6_pools demo_pm6).
Proof.
  apply Forall_singleton.
  apply (unmapped_by_number _ (parse_ip (bs "2001:db8::")) []); [vm_compute; reflexivity|vm_compute|vm_compute];
    split; congruence.
Qed.

Lemma startup6_establishes_witness : pools6_ok demo_pm6.
Proof.
  apply (startup6_establishes [demo_subnet6] (12 * hour)); [vm_compute; reflexivity|].
  apply demo_pm6_unmapped.
Defined.

Definition demo_duid : bytes := map byte_of_Z [0; 3; 0; 1; 170; 31; 7].
Definition demo_lease6 : Lease :=
  zero_lease <| l_ip := bs "2001:db8::10" |> <| l_client_id := demo_duid |>
    <| l_state := StateBound |> <| l_subnet_id := bs "2001:db8::/64" |>
    <| l_expiry_time := demo_now + hour |>.
Definition demo_store6 : EngineStore := (upsert demo_store demo_lease6 false demo_now demo_now []).1.
Definition demo_map6 : lease_map := {[ bs "2001:db8::10" := stored demo_now demo_lease6 ]}.

Lemma demo_inv6 : inv6 demo_store6 demo_map6.
Proof.
  split.
  - destruct (upsert_refines_lemma demo_store ∅ demo_lease6 false demo_now demo_now
      demo_store_map) as (s' & E & Hs); [apply upsert_ok_check; vm_compute; reflexivity|].
    unfold demo_store6. rewrite E. exact Hs.
  - unfold demo_map6. apply map_Forall_singleton. intros ad E. vm_compute in E. injection E as <-.
    vm_compute. reflexivity.
Qed.

Lemma demo_pools6 : pools6_ok demo_pm6.
Proof.
  split; [vm_compute; done|]. pose proof demo_pm6_unmapped as Hu. rewrite Forall_forall in Hu |- *.
  intros p Hp. destruct (new_pools6_in (12 * hour) [demo_subnet6] (p6_pools demo_pm6)) with p as [x Hx];
    [vm_compute; reflexivity|done|]. by eapply new_pool6_ok; [|apply Hu].
Qed.

(** ** Messages *)

Definition demo_inputs6 : Inputs6 (S := EngineStore) :=
  mkInputs6 (demo_now + minute) (mkWriteEnv (demo_now + minute) (demo_now + minute) []).

(** The write of a message, when it computes to an accepted one. *)
Lemma demo_write6_ok (w : option Lease) :
  match w with
  | Some x => bool_decide (trim_space (l_ip x) ≠ [] ∧
      lease_packed_ok (stored (demo_now + minute) x) ∧ lease_fits (stored (demo_now + minute) x) ∧
      zlen (pack (lease_fields (stored (demo_now + minute) x))) < 4294900000)
  | None => true
  end = true →
  ∀ l, w = Some l → ls_writable (S := EngineStore) (in6_env demo_inputs6) l.
Proof. intros Hc l ->. split; [done|]. by apply upsert_ok_check. Qed.

Definition demo_handler6 : Handler6 := new_handler6 demo_pm6 (map byte_of_Z [0; 3; 0; 1; 1]) 0 0.

(** A message of the client [duid] that asks for 2001:db8::10. *)
Definition demo_message6 (t : byte) (duid : bytes) : Packet6 :=
  mkPacket6 t (map byte_of_Z [1; 2; 3]) (msg 0) [] []
    [mkOption6 OptionClientID duid;
     mkOption6 OptionIANA (encode_iana (mkIANA 7 0 0
       [mkOption6 OptionIAAddr (encode_iaaddress (mkIAAddress (parse_ip (bs "2001:db8::10")) 0 0 []))]))].
Definition other_duid : bytes := map byte_of_Z [0; 3; 0; 1; 187].
Definition demo_relayed6 : Packet6 :=
  mkPacket6 MessageRelayForward (map byte_of_Z [0; 0; 0]) (msg 1)
    (parse_ip (bs "2001:db8::1")) (parse_ip (bs "fe80::2"))
    [mkOption6 OptionRelayMessage (raw_of (demo_message6 MessageRequest6 other_duid))].

Lemma demo_no_collision : no_collision demo_map6 other_duid.
Proof.
  intros l Hl _ Hp. unfold demo_map6 in Hl. apply lookup_singleton_Some in Hl as [_ <-].
  vm_compute in Hp. discriminate.
Qed.

Lemma demo_sender : sender demo_relayed6 = other_duid.
Proof. vm_compute. reflexivity. Qed.

Lemma no_address_stolen6_witness :
  let w := written6 demo_handler6 demo_store6 demo_relayed6 demo_inputs6 in
  ∃ o, handle6 demo_handler6 demo_store6 demo_relayed6 demo_inputs6 = Ok o ∧
    inv6 (o6_store o) (after_write demo_map6 (in6_env demo_inputs6) w) ∧
    others_kept demo_map6 (after_write demo_map6 (in6_env demo_inputs6) w) (sender demo_relayed6).
Proof.
  apply no_address_stolen6.
  - apply demo_inv6.
  - apply demo_pools6.
  - rewrite demo_sender. apply demo_no_collision.
  - apply demo_write6_ok. vm_compute. reflexivity.
Defined.

(** The client 00:03:00:01:aa, whose identifier the stored one extends. *)
Definition short_duid : bytes := map byte_of_Z [0; 3; 0; 1; 170].

Lemma client_id_steals6_witness :
  ∃ o l', handle_request6 demo_handler6 demo_store6 (demo_message6 MessageRequest6 short_duid) []
      demo_inputs6 = Ok o ∧
    ls_get_by_ip (o6_store o) (bs "2001:db8::10") = Ok l' ∧
    l_client_id l' = short_duid ∧ l_client_id l' ≠ demo_duid.
Proof.
  apply (client_id_steals6 demo_handler6 demo_store6 demo_map6 (demo_message6 MessageRequest6 short_duid)
    [] demo_inputs6 (stored demo_now demo_lease6) demo_pool6 (parse_ip (bs "2001:db8::10"))
    (map byte_of_Z [7])).
  - apply demo_inv6.
  - apply demo_pools6.
  - vm_compute. done.
  - vm_compute. reflexivity.
  - vm_compute. reflexivity.
  - apply lookup_singleton_eq.
  - vm_compute. reflexivity.
  - vm_compute. reflexivity.
  - vm_compute. reflexivity.
  - vm_compute. reflexivity.
  - intros l' Hl' _ _. unfold demo_map6 in Hl'. by apply lookup_singleton_Some in Hl' as [_ <-].
  - apply demo_write6_ok. vm_compute. reflexivity.
Defined.


Definition demo_outcome6 : Outcome6 (S := EngineStore) :=
  match dispatch6 demo_handler6 demo_store6 (demo_message6 MessageSolicit other_duid) [] demo_inputs6 with
  | Ok o => o
  | _ => mkOutcome6 demo_store6 None None []
  end.
Definition demo_advertise : Packet6 := default (demo_message6 MessageSolicit []) (o6_reply demo_outcome6).

Lemma demo_dispatched :
  match dispatch6 demo_handler6 demo_store6 (demo_message6 MessageSolicit other_duid) [] demo_inputs6 with
  | Ok o => bool_decide (is_Some (o6_reply o))
  | _ => false
  end = true →
  dispatch6 demo_handler6 demo_store6 (demo_message6 MessageSolicit other_duid) [] demo_inputs6
    = Ok demo_outcome6 ∧ o6_reply demo_outcome6 = Some demo_advertise.
Proof.
  unfold demo_advertise, demo_outcome6. destruct (dispatch6 _ _ _ _ _) as [o| |]; [|done..].
  intros Hr. apply bool_decide_eq_true in Hr as [resp Hr]. by rewrite Hr.
Qed.

Lemma reply6_is_leased_witness :
  ∃ l, ls_get_by_ip (o6_store demo_outcome6) (ip_string (offered_address demo_advertise)) = Ok l ∧
    l_client_id l = other_duid ∧
    l_state l = (if bool_decide (p6_type demo_advertise = MessageAdvertise) then StateOffered else StateBound) ∧
    p6_xid demo_advertise = map byte_of_Z [1; 2; 3] ∧
    let ia := first_iana (ianas (p6_options demo_advertise)) in
    1 ≤ ia_t1 ia ≤ ia_t2 ia ∧ ia_t2 ia < 2 ^ 32.
Proof.
  destruct demo_dispatched as [Hd Hr]; [vm_compute; reflexivity|].
  apply (reply6_is_leased demo_handler6 demo_store6 demo_map6 (demo_message6 MessageSolicit other_duid)
    [] demo_inputs6 demo_outcome6 demo_advertise).
  - apply demo_inv6.
  - apply demo_pools6.
  - apply demo_no_collision.
  - left.
  - apply demo_write6_ok. vm_compute. reflexivity.
  - exact Hd.
  - exact Hr.
  - vm_compute. done.
Defined.
