(* ===== verification/HaManager.v ===== *)
(** internal/ha: election.go, witness.go and heartbeat.go.

    The witness file is the parsed record it holds, if it can be parsed; what a
    read or a write of it does is an argument. *)

From S2P Require Import Prelude.
From S2P Require Import GoBytes.
From S2P Require Import GoStrings.
From S2P Require Import GoTime.
From S2P Require Import GoNet.
From S2P Require Import GoPort.
From S2P Require Import Wal.
From S2P Require Import Lease.
From S2P Require Import LeaseStore.
From S2P Require Import LeaseInterface.

Inductive Role := RoleUnknown | RolePrimary | RoleSecondary.
Inductive PeerState := PeerStateUnknown | PeerStateConnected | PeerStateDisconnected.

#[global] Instance role_eq_dec : EqDecision Role.
Proof. solve_decision. Defined.
#[global] Instance peer_state_eq_dec : EqDecision PeerState.
Proof. solve_decision. Defined.

Section election.
Context `{UnicodeTables}.

Definition load_sharing : bytes := bs "load-sharing".
Definition active_passive : bytes := bs "active-passive".

Definition normalize_mode (mode : bytes) : bytes :=
  if bool_decide (trim_space (to_lower mode) = load_sharing) then load_sharing else active_passive.

(** [if priority <= 0 { priority = 100 }] *)
Definition default_priority (p : Z) : Z := if p <=? 0 then 100 else p.

Definition elect_role (local_node remote_node mode : bytes) (peer_connected : bool)
    (local_step_down_until now : time) (peer_draining : bool) (local_priority remote_priority : Z) : Role :=
  if peer_connected && negb (is_zero local_step_down_until) && before now local_step_down_until
  then RoleSecondary
  else if negb peer_connected || bool_decide (trim_space remote_node = []) then RolePrimary
  else if peer_draining then RolePrimary
  else
    let lp := default_priority local_priority in
    let rp := default_priority remote_priority in
    if lp <? rp then RolePrimary
    else if rp <? lp then RoleSecondary
    else
      let local := to_lower (trim_space local_node) in
      let remote := to_lower (trim_space remote_node) in
      let local := if bool_decide (local = []) then bs "local" else local in
      if bool_decide (remote = []) then RolePrimary
      else if bool_decide (bytes_le local remote) then RolePrimary
      else if bool_decide (normalize_mode mode = load_sharing) then RoleSecondary
      else RoleSecondary.

(** * witness.go *)

Record witnessRecord := mkWitnessRecord { wr_node : bytes; wr_priority : Z; wr_updated_at : time }.

(** The file: missing, without a record, or with one. *)
Definition witness_file : Type := option (option witnessRecord).

(** What [atomicWriteFile] does: it replaces the file, fails and keeps it, or
    fails in its fallback with the old file moved away. *)
Inductive write_outcome := WriteOk | WriteFail | WriteLost.

Definition file_does_not_exist : string := "file does not exist".
Definition is_not_exist (e : error) : bool :=
  match e with ErrIO s => String.eqb s file_does_not_exist | _ => false end.

Definition read_witness_record (path : bytes) (f : witness_file) (readable : bool) : result witnessRecord :=
  if bool_decide (trim_space path = []) then Err (errorNew "witness path is empty")
  else
    match f with
    | None => Err (ErrIO file_does_not_exist)
    | Some r =>
        if negb readable then Err (ErrIO "input/output error")
        else match r with
             | None => Err (errorNew "invalid character in witness record")
             | Some rec => Ok (mkWitnessRecord (trim_space (wr_node rec)) (wr_priority rec) (wr_updated_at rec))
             end
    end.

Definition write_witness_record (path : bytes) (rec : witnessRecord) (f : witness_file)
    (o : write_outcome) : witness_file * option error :=
  if bool_decide (trim_space path = []) then (f, Some (errorNew "witness path is empty"))
  else
    match o with
    | WriteOk => (Some (Some rec), None)
    | WriteFail => (f, Some (ErrIO "replace witness file"))
    | WriteLost => (None, Some (ErrIO "replace witness file"))
    end.

(** [witnessOwner]: the record that still holds, if there is one. *)
Definition witness_owner (path : bytes) (hold : duration) (now : time) (f : witness_file)
    (readable : bool) : result (option witnessRecord) :=
  match read_witness_record path f readable with
  | Panic p => Panic p
  | Err e => if is_not_exist e then Ok None else Err e
  | Ok rec =>
      if bool_decide (wr_node rec = []) || is_zero (wr_updated_at rec) then Ok None
      else if (0 <? hold) && (hold <? time_sub now (wr_updated_at rec)) then Ok None
      else Ok (Some rec)
  end.

(** * heartbeat.go *)

Record heartbeatMessage := mkHeartbeatMessage {
  hm_type : bytes; hm_node : bytes; hm_role : Role; hm_mode : bytes; hm_priority : Z;
  hm_draining : bool; hm_timestamp : time; hm_secret : bytes
}.

Definition derive_listen_addr (peer_addr : bytes) : bytes :=
  match split_host_port (trim_space peer_addr) with
  | Some (_, port) => if bool_decide (trim_space port = []) then bs ":8068" else colon :: port
  | None => bs ":8068"
  end.

Definition validate_secret (expected actual : bytes) : option error :=
  if bool_decide (trim_space expected = []) then None
  else if bool_decide (actual = expected) then None
  else Some (errorNew "invalid peer secret").
End election.

(** internal/ha: failover.go and sync.go: the manager.

    Every entry point is a function of the manager and of what it reads: the
    clock, the witness file with the outcome of reading and writing it, the store,
    and the peer.  The peer is a state with a function that answers a message, or
    nothing when the connection fails.  The events a call publishes are returned.
    The metrics registry and the broker are outputs only. *)

Record Config := mkConfig {
  cfg_node : bytes; cfg_mode : bytes; cfg_priority : Z; cfg_peer_address : bytes;
  cfg_heartbeat_interval : duration; cfg_failover_timeout : duration; cfg_lease_sync : bool;
  cfg_shared_secret : bytes; cfg_witness_path : bytes; cfg_witness_hold : duration
}.

Record Manager := mkManager {
  node : bytes; mode : bytes; priority : Z; peer_addr : bytes; listen_addr : bytes;
  interval : duration; timeout : duration; lease_sync : bool; secret : bytes;
  witness_path : bytes; witness_hold : duration;
  role : Role; peer : PeerState; peer_node : bytes; last_heartbeat_at : time;
  heartbeat_latency : duration; sync_lag : duration; failover_count : Z; snapshot_done : bool;
  sync_sequence : Z; applied_sequence : Z; fenced : bool; fencing_reason : bytes;
  witness_owned_by : bytes; manual_step_down_until : time
}.

#[global] Instance eta_Manager : Eta Manager := λ m,
  mkManager (node m) (mode m) (priority m) (peer_addr m) (listen_addr m) (interval m) (timeout m)
    (lease_sync m) (secret m) (witness_path m) (witness_hold m) (role m) (peer m) (peer_node m)
    (last_heartbeat_at m) (heartbeat_latency m) (sync_lag m) (failover_count m) (snapshot_done m)
    (sync_sequence m) (applied_sequence m) (fenced m) (fencing_reason m) (witness_owned_by m)
    (manual_step_down_until m).

(** What is published: the type of the event and its reason. *)
Record HaEvent := mkHaEvent { he_type : bytes; he_reason : bytes }.

Definition max_duration (a b : duration) : duration := if b <=? a then a else b.

Record Status := mkStatus {
  st_node : bytes; st_mode : bytes; st_priority : Z; st_role : Role; st_peer : PeerState;
  st_peer_node : bytes; st_last_heartbeat_at : time; st_heartbeat_latency : duration;
  st_sync_lag : duration; st_failover_count : Z; st_listen_addr : bytes; st_peer_addr : bytes;
  st_fenced : bool; st_fencing_reason : bytes; st_witness_path : bytes; st_witness_owner : bytes;
  st_manual_step_down_until : time
}.

Section manager.
Context `{UnicodeTables}.

(** [NewManager]; [seq] is the store's sequence, when it has one. *)
Definition new_manager (cfg : Config) (seq : option Z) : Manager :=
  let interval := if cfg_heartbeat_interval cfg <=? 0 then second else cfg_heartbeat_interval cfg in
  let timeout := if cfg_failover_timeout cfg <=? 0 then 10 * second else cfg_failover_timeout cfg in
  let priority := if cfg_priority cfg <=? 0 then 100 else cfg_priority cfg in
  let hold := if cfg_witness_hold cfg <=? 0 then max_duration (dur_mul timeout 2) (15 * second)
              else cfg_witness_hold cfg in
  let node := if bool_decide (trim_space (cfg_node cfg) = []) then bs "monsoon"
              else trim_space (cfg_node cfg) in
  mkManager node (normalize_mode (cfg_mode cfg)) priority (trim_space (cfg_peer_address cfg))
    (derive_listen_addr (cfg_peer_address cfg)) interval timeout (cfg_lease_sync cfg)
    (cfg_shared_secret cfg) (trim_space (cfg_witness_path cfg)) hold
    RolePrimary PeerStateUnknown [] 0 0 0 0 false (default 0 seq) 0 false [] [] 0.

(** [Status] *)
Definition status (m : Manager) : Status :=
  mkStatus (node m) (mode m) (priority m) (role m) (peer m) (peer_node m) (last_heartbeat_at m)
    (heartbeat_latency m) (sync_lag m) (failover_count m) (listen_addr m) (peer_addr m)
    (fenced m) (fencing_reason m) (witness_path m) (witness_owned_by m) (manual_step_down_until m).

(** [TriggerManualFailover]; its status leaves the fencing fields empty. *)
Definition trigger_manual_failover (m : Manager) (reason : bytes) (now : time)
    : Manager * result Status * list HaEvent :=
  if bool_decide (trim_space (peer_addr m) = [])
  then (m, Err (errorNew "ha peer is not configured"), [])
  else if negb (bool_decide (peer m = PeerStateConnected))
  then (m, Err (errorNew "ha peer is not connected"), [])
  else if negb (bool_decide (role m = RolePrimary))
  then (m, Err (errorNew "manual failover can only be triggered from the current primary node"), [])
  else
    let until := time_add now (max_duration (dur_mul (timeout m) 2) hour) in
    let m := m <| manual_step_down_until := until |> <| role := RoleSecondary |> in
    let st := mkStatus (node m) (mode m) (priority m) (role m) (peer m) (peer_node m)
      (last_heartbeat_at m) (heartbeat_latency m) (sync_lag m) (failover_count m) (listen_addr m)
      (peer_addr m) false [] (witness_path m) (witness_owned_by m) (manual_step_down_until m) in
    (m, Ok st, [mkHaEvent (bs "ha.failover_requested") (trim_space reason)]).

(** * The scope of DHCPv4 allocation *)

(** [splitScope] on [uint32] bounds: the lower and the upper half. *)
Definition split_scope (start end_ : Z) : (Z * Z) * (Z * Z) :=
  if end_ <? start then ((0, 0), (1, 0))
  else
    let span := u32 (end_ - start) + 1 in
    let lower_count := (span + 1) / 2 in
    let lower_end := start + lower_count - 1 in
    if end_ <=? lower_end then ((start, end_), (1, 0))
    else if max_u32 <? lower_end then ((start, end_), (1, 0))
    else if end_ <=? lower_end then ((start, lower_end), (1, 0))
    else ((start, lower_end), (lower_end + 1, end_)).

(** [AllocationScope], in the form the DHCPv4 pools take it. *)
Definition allocation_scope (m : Manager) (_ : bytes) (start end_ : Z) : Z * Z * bool :=
  if end_ <? start then (0, 0, false)
  else if fenced m then (0, 0, false)
  else if bool_decide (normalize_mode (mode m) = load_sharing) then
    if negb (bool_decide (peer m = PeerStateConnected)) then (start, end_, true)
    else
      let '((ls, le), (us, ue)) := split_scope start end_ in
      match role m with
      | RolePrimary => (ls, le, true)
      | RoleSecondary => if ue <? us then (0, 0, false) else (us, ue, true)
      | RoleUnknown => (0, 0, false)
      end
  else if negb (bool_decide (role m = RolePrimary)) then (0, 0, false)
  else (start, end_, true).

(** * Small state changes *)

Definition is_manual_step_down_active (m : Manager) (now : time) : bool :=
  negb (is_zero (manual_step_down_until m)) && before now (manual_step_down_until m).

Definition should_request_snapshot (m : Manager) : bool :=
  if negb (bool_decide (peer m = PeerStateConnected)) then false
  else if bool_decide (normalize_mode (mode m) = load_sharing) then true
  else bool_decide (role m = RoleSecondary).

Definition should_replicate_local_changes (m : Manager) : bool :=
  if negb (bool_decide (peer m = PeerStateConnected)) || fenced m then false
  else if bool_decide (normalize_mode (mode m) = load_sharing)
  then bool_decide (role m = RolePrimary) || bool_decide (role m = RoleSecondary)
  else bool_decide (role m = RolePrimary).

Definition mark_snapshot_done (m : Manager) (seq : Z) : Manager :=
  let m := m <| snapshot_done := true |> in
  if applied_sequence m <? seq then m <| applied_sequence := seq |> else m.

Definition next_sync_sequence (m : Manager) : Manager * Z :=
  let m := m <| sync_sequence := i64 (sync_sequence m + 1) |> in (m, sync_sequence m).

Definition set_applied_sequence (m : Manager) (seq : Z) : Manager :=
  if seq <=? 0 then m
  else if applied_sequence m <? seq then m <| applied_sequence := seq |> else m.

Definition observe_sync_sequence (m : Manager) (seq : Z) : Manager :=
  if seq <=? 0 then m
  else if sync_sequence m <? seq then m <| sync_sequence := seq |> else m.

(** [classifyIncrementalSequence]: the manager, whether to apply, whether to ask
    for a snapshot. *)
Definition classify_incremental_sequence (m : Manager) (seq : Z) : Manager * bool * bool :=
  let resync := (m <| snapshot_done := false |> <| applied_sequence := 0 |>, false, true) in
  if seq <=? 0 then (m, true, false)
  else if (applied_sequence m =? 0) && (seq =? 1) then (m, true, false)
  else if (applied_sequence m =? 0) && (1 <? seq) then resync
  else if seq <=? applied_sequence m then (m, false, false)
  else if seq =? i64 (applied_sequence m + 1) then (m, true, false)
  else resync.

Definition record_heartbeat (m : Manager) (peer_node_ : bytes) (latency : duration) (now : time) : Manager :=
  let m := m <| peer := PeerStateConnected |> <| peer_node := trim_space peer_node_ |>
             <| last_heartbeat_at := now |> in
  if 0 <? latency then m <| heartbeat_latency := latency |> else m.

Definition mark_peer_disconnected (m : Manager) : Manager :=
  m <| peer := PeerStateDisconnected |> <| peer_node := [] |> <| snapshot_done := false |>
    <| applied_sequence := 0 |> <| manual_step_down_until := 0 |>.

Definition apply_election (m : Manager) (peer_node_ : bytes) (peer_priority : Z) (peer_draining : bool)
    (now : time) : Manager * list HaEvent :=
  let m := if negb (is_zero (manual_step_down_until m)) && negb (before now (manual_step_down_until m))
           then m <| manual_step_down_until := 0 |> else m in
  let next := elect_role (node m) peer_node_ (mode m) true (manual_step_down_until m) now
                peer_draining (priority m) peer_priority in
  if bool_decide (role m ≠ next) then (m <| role := next |>, [mkHaEvent (bs "ha.role_changed") []])
  else (m, []).

Definition update_sync_lag (m : Manager) (lag : duration) : Manager := m <| sync_lag := lag |>.

(** * Fencing *)

(** What the witness file does during a call. *)
Record witness_io := mkWitnessIO { wio_readable : bool; wio_write : write_outcome }.

Definition refresh_witness_state (m : Manager) (f : witness_file) (io : witness_io) (now : time)
    : Manager * witness_file * list HaEvent :=
  if bool_decide (trim_space (witness_path m) = []) then (m, f, [])
  else if negb (bool_decide (role m = RolePrimary)) || fenced m then
    match witness_owner (trim_space (witness_path m)) (witness_hold m) now f (wio_readable io) with
    | Ok (Some rec) => (m <| witness_owned_by := wr_node rec |>, f, [])
    | Ok None => (m <| witness_owned_by := [] |>, f, [])
    | _ => (m, f, [])
    end
  else
    match write_witness_record (trim_space (witness_path m)) (mkWitnessRecord (node m) (priority m) now)
            f (wio_write io) with
    | (f, Some _) =>
        (m <| role := RoleSecondary |> <| fenced := true |>
           <| fencing_reason := bs "witness_write_failed" |> <| witness_owned_by := [] |>,
         f, [mkHaEvent (bs "ha.fenced") (bs "witness_write_failed")])
    | (f, None) =>
        (m <| witness_owned_by := node m |> <| fenced := false |> <| fencing_reason := [] |>, f, [])
    end.

(** The fencing of [canPromoteLocked]. *)
Definition fence (m : Manager) (reason owner : bytes) : Manager * list HaEvent :=
  (m <| fenced := true |> <| fencing_reason := reason |> <| witness_owned_by := owner |>,
   [mkHaEvent (bs "ha.fenced") reason]).

Definition can_promote_locked (m : Manager) (f : witness_file) (io : witness_io) (now : time)
    : Manager * witness_file * bool * list HaEvent :=
  let m := m <| fenced := false |> <| fencing_reason := [] |> in
  let path := trim_space (witness_path m) in
  if bool_decide (path = []) then (m <| witness_owned_by := [] |>, f, true, [])
  else
    match witness_owner path (witness_hold m) now f (wio_readable io) with
    | Err _ | Panic _ =>
        let '(m, ev) := fence m (bs "witness_unavailable") [] in (m, f, false, ev)
    | Ok owned =>
        let claim :=
          match write_witness_record path (mkWitnessRecord (node m) (priority m) now) f (wio_write io) with
          | (f, Some _) => let '(m, ev) := fence m (bs "witness_claim_failed") [] in (m, f, false, ev)
          | (f, None) => (m <| witness_owned_by := node m |>, f, true, [])
          end in
        match owned with
        | Some rec =>
            if negb (bool_decide (wr_node rec = [])) && negb (equal_fold (wr_node rec) (node m)) then
              let '(m, ev) := fence m (bs "witness_owned_by_peer") (wr_node rec) in (m, f, false, ev)
            else claim
        | None => claim
        end
    end.

(** One tick of [watchdogLoop]: [now] is its clock, [wnow] the one of the refresh. *)
Definition watchdog_tick (m : Manager) (f : witness_file) (io1 io2 : witness_io) (now wnow : time)
    : Manager * witness_file * list HaEvent :=
  let '(m, f, ev) :=
    if negb (is_zero (last_heartbeat_at m)) && (timeout m <? time_sub now (last_heartbeat_at m)) then
      let r := role m in
      let m := mark_peer_disconnected m in
      if negb (bool_decide (r = RolePrimary)) then
        let '(m, f, ok, ev) := can_promote_locked m f io1 now in
        if ok then
          (m <| role := RolePrimary |> <| failover_count := i64 (failover_count m + 1) |>, f,
           ev ++ [mkHaEvent (bs "ha.role_changed") (bs "watchdog_promote")])
        else (m, f, ev)
      else (m, f, [])
    else (m, f, []) in
  let '(m, f, ev') := refresh_witness_state m f io2 wnow in (m, f, ev ++ ev').
End manager.

(** * sync.go *)

Record syncMessage := mkSyncMessage {
  sm_type : bytes; sm_node : bytes; sm_secret : bytes; sm_timestamp : time; sm_sequence : Z;
  sm_leases : list Lease; sm_lease : option Lease; sm_delete_ip : bytes
}.

(** A line on the connection, as JSON decodes it: its envelope, and the message
    of either kind. *)
Record wire := mkWire {
  w_envelope : option (bytes * bytes);   (** the type and the secret *)
  w_heartbeat : option heartbeatMessage;
  w_sync : option syncMessage
}.

Definition wire_heartbeat (msg : heartbeatMessage) : wire :=
  mkWire (Some (hm_type msg, hm_secret msg)) (Some msg) None.
Definition wire_sync (msg : syncMessage) : wire :=
  mkWire (Some (sm_type msg, sm_secret msg)) None (Some msg).

Section sync.
Context {S : Type} `{UnicodeTables} `{LeaseStore S}.

(** What each replicated lease's write reads. *)
Context (env : Lease → ls_env) (env_del : bytes → ls_env).

Definition upsert_lease_replica (s : S) (item : Lease) : S * option error :=
  ls_upsert_silent s item (env item).
Definition delete_lease_replica (s : S) (ip : bytes) : S * option error :=
  ls_delete_silent s ip (env_del ip).

(** The map [desired]: trimmed addresses, the last lease of each. *)
Definition desired_map (leases : list Lease) : lease_map :=
  foldl (λ d item,
    let ip := trim_space (l_ip item) in
    if bool_decide (ip = []) then d else <[ip := item <| l_ip := ip |>]> d) ∅ leases.

Fixpoint upsert_all (s : S) (items : list Lease) : S * option error :=
  match items with
  | [] => (s, None)
  | item :: items' =>
      match upsert_lease_replica s item with
      | (s, Some e) => (s, Some e)
      | (s, None) => upsert_all s items'
      end
  end.

Fixpoint delete_others (desired : lease_map) (s : S) (existing : list Lease) : S * option error :=
  match existing with
  | [] => (s, None)
  | item :: rest =>
      match desired !! trim_space (l_ip item) with
      | Some _ => delete_others desired s rest
      | None =>
          match delete_lease_replica s (l_ip item) with
          | (s, Some e) => (s, Some e)
          | (s, None) => delete_others desired s rest
          end
      end
  end.

(** [applySnapshot]; [order] ranges over the map [desired]. *)
Definition apply_snapshot (mode : bytes) (s : S) (leases : list Lease) (order : lease_map → list Lease)
    : S * option error :=
  let desired := desired_map leases in
  match upsert_all s (order desired) with
  | (s, Some e) => (s, Some e)
  | (s, None) =>
      if bool_decide (normalize_mode mode = load_sharing) then (s, None)
      else
        match ls_list_all s with
        | Ok existing => delete_others desired s existing
        | Err e => (s, Some e)
        | Panic p => (s, Some (ErrIO p))
        end
  end.

(** * The server side *)

(** The clocks of [handleConn]: one for the reply, one for the lag. *)
Definition reply_ack (m : Manager) (msg : syncMessage) (now : time) : syncMessage :=
  mkSyncMessage (bs "ack") [] (secret m) now (sm_sequence msg) [] None [].
Definition reply_resync (m : Manager) (msg : syncMessage) (now : time) : syncMessage :=
  mkSyncMessage (bs "resync_required") [] (secret m) now (sm_sequence msg) [] None [].

(** The cases of an incremental message. *)
Definition handle_incremental (m : Manager) (s : S) (msg : syncMessage) (now : time)
    (write : option (S * option error)) : Manager * S * syncMessage :=
  let '(m, apply, resync) := classify_incremental_sequence m (sm_sequence msg) in
  if resync then (m, s, reply_resync m msg now)
  else if negb apply then (m, s, reply_ack m msg now)
  else
    match write with
    | Some (s', None) =>
        let m := update_sync_lag (set_applied_sequence m (sm_sequence msg)) (time_sub now (sm_timestamp msg)) in
        (m, s', reply_ack m msg now)
    | Some (s', Some _) => (m, s', reply_ack m msg now)
    | None => (m, s, reply_ack m msg now)
    end.

Definition handle_sync (m : Manager) (s : S) (msg : syncMessage) (now : time)
    (order : lease_map → list Lease) : Manager * S * option syncMessage :=
  if bool_decide (sm_type msg = bs "snapshot_request") then
    let leases := match ls_list_all s with Ok ls => ls | _ => [] end in
    (m, s, Some (mkSyncMessage (bs "snapshot") (node m) (secret m) now (sync_sequence m) leases None []))
  else if bool_decide (sm_type msg = bs "snapshot_push") then
    let '(s, err) := apply_snapshot (mode m) s (sm_leases msg) order in
    let m := match err with
             | None => update_sync_lag (mark_snapshot_done m (sm_sequence msg)) (time_sub now (sm_timestamp msg))
             | Some _ => m
             end in
    (m, s, Some (reply_ack m msg now))
  else if bool_decide (sm_type msg = bs "lease_upsert") then
    let write := match sm_lease msg with Some l => Some (upsert_lease_replica s l) | None => None end in
    let '(m, s, r) := handle_incremental m s msg now write in (m, s, Some r)
  else if bool_decide (sm_type msg = bs "lease_delete") then
    let write := if bool_decide (trim_space (sm_delete_ip msg) = []) then None
                 else Some (delete_lease_replica s (sm_delete_ip msg)) in
    let '(m, s, r) := handle_incremental m s msg now write in (m, s, Some r)
  else (m, s, None).

(** What is written back on the connection. *)
Inductive answer := ANone | APong (msg : heartbeatMessage) | ASync (msg : syncMessage).

(** [handleConn] *)
Definition handle_conn (m : Manager) (s : S) (w : wire) (now : time) (order : lease_map → list Lease)
    : Manager * S * answer :=
  match w_envelope w with
  | None => (m, s, ANone)
  | Some (ty, sec) =>
      match validate_secret (secret m) sec with
      | Some _ => (m, s, ANone)
      | None =>
          if bool_decide (ty = bs "ping") then
            match w_heartbeat w with
            | None => (m, s, ANone)
            | Some msg =>
                let m := record_heartbeat m (hm_node msg) 0 now in
                (m, s, APong (mkHeartbeatMessage (bs "pong") (node m) (role m) (mode m) (priority m)
                                (is_manual_step_down_active m now) now (secret m)))
            end
          else if bool_decide (ty ∈ [bs "snapshot_request"; bs "snapshot_push"; bs "lease_upsert"; bs "lease_delete"])
          then
            match w_sync w with
            | None => (m, s, ANone)
            | Some msg =>
                let '(m, s, r) := handle_sync m s msg now order in
                (m, s, match r with Some r => ASync r | None => ANone end)
            end
          else (m, s, ANone)
      end
  end.

(** * The client side *)

(** The peer: how its state changes with a message, and its answer if one arrives. *)
Context {P : Type} (exchange : P → wire → P * answer).

(** [sendSync] of a message that is not incremental. *)
Definition send_sync_once (m : Manager) (p : P) (msg : syncMessage) : P * result syncMessage :=
  let '(p, a) := exchange p (wire_sync msg) in
  match a with
  | ASync resp =>
      match validate_secret (secret m) (sm_secret resp) with
      | Some e => (p, Err e)
      | None => (p, Ok resp)
      end
  | _ => (p, Err (ErrIO "connection closed"))
  end.

Definition push_snapshot (m : Manager) (s : S) (p : P) (now : time) : P * option error :=
  match ls_list_all s with
  | Ok leases =>
      let '(p, r) := send_sync_once m p
        (mkSyncMessage (bs "snapshot_push") (node m) (secret m) now (sync_sequence m) leases None []) in
      (p, match r with Ok _ => None | Err e => Some e | Panic t => Some (ErrIO t) end)
  | Err e => (p, Some e)
  | Panic t => (p, Some (ErrIO t))
  end.

(** [sendSync]: an incremental message the peer cannot apply is followed by a snapshot. *)
Definition send_sync (m : Manager) (s : S) (p : P) (msg : syncMessage) (now : time) : P * option error :=
  let '(p, r) := send_sync_once m p msg in
  match r with
  | Ok resp =>
      if bool_decide (sm_type resp = bs "resync_required") &&
         bool_decide (sm_type msg ∈ [bs "lease_upsert"; bs "lease_delete"])
      then push_snapshot m s p now
      else (p, None)
  | Err e => (p, Some e)
  | Panic t => (p, Some (ErrIO t))
  end.

Definition push_lease_update (m : Manager) (s : S) (p : P) (seq : Z) (item : Lease) (now : time) :=
  send_sync m s p (mkSyncMessage (bs "lease_upsert") (node m) (secret m) now seq [] (Some item) []) now.
Definition push_lease_delete (m : Manager) (s : S) (p : P) (seq : Z) (ip : bytes) (now : time) :=
  send_sync m s p (mkSyncMessage (bs "lease_delete") (node m) (secret m) now seq [] None ip) now.

(** One event of [leaseSyncLoop] from the store's mutation feed. *)
Definition lease_sync_event (m : Manager) (s : S) (p : P) (evt : MutationEvent) (now : time) : Manager * P :=
  if negb (should_replicate_local_changes m) then (m, p)
  else
    let m := observe_sync_sequence m (me_sequence evt) in
    if bool_decide (me_op evt = OpPut) then
      match me_lease evt with
      | Some l => (m, (push_lease_update m s p (me_sequence evt) l now).1)
      | None => (m, p)
      end
    else if bool_decide (me_op evt = OpDel) then
      if bool_decide (trim_space (me_ip evt) = []) then (m, p)
      else (m, (push_lease_delete m s p (me_sequence evt) (me_ip evt) now).1)
    else (m, p).

(** [requestSnapshot] *)
Definition request_snapshot (m : Manager) (s : S) (p : P) (now : time) (order : lease_map → list Lease)
    : Manager * S * P * option error :=
  let '(p, a) := exchange p (wire_sync
    (mkSyncMessage (bs "snapshot_request") (node m) (secret m) now 0 [] None [])) in
  match a with
  | ASync resp =>
      match validate_secret (secret m) (sm_secret resp) with
      | Some e => (m, s, p, Some e)
      | None =>
          if negb (bool_decide (sm_type resp = bs "snapshot")) then (m, s, p, None)
          else
            match apply_snapshot (mode m) s (sm_leases resp) order with
            | (s, Some e) => (m, s, p, Some e)
            | (s, None) =>
                let m := update_sync_lag m (time_sub now (sm_timestamp resp)) in
                (mark_snapshot_done m (sm_sequence resp), s, p, None)
            end
      end
  | _ => (m, s, p, Some (ErrIO "connection closed"))
  end.

(** One tick of [heartbeatLoop]; [latency] is the time the exchange took. *)
Definition heartbeat_tick (m : Manager) (s : S) (p : P) (f : witness_file) (io : witness_io)
    (now : time) (latency : duration) (order : lease_map → list Lease)
    : Manager * S * P * witness_file * list HaEvent :=
  if bool_decide (trim_space (peer_addr m) = []) then (m, s, p, f, [])
  else
    let '(p, a) := exchange p (wire_heartbeat
      (mkHeartbeatMessage (bs "ping") (node m) (role m) (mode m) (priority m)
         (is_manual_step_down_active m now) now (secret m))) in
    match a with
    | APong resp =>
        match validate_secret (secret m) (hm_secret resp) with
        | Some _ => (mark_peer_disconnected m, s, p, f, [])
        | None =>
            let m := record_heartbeat m (hm_node resp) latency now in
            let '(m, ev) := apply_election m (hm_node resp) (hm_priority resp) (hm_draining resp) now in
            let '(m, f, ev') := refresh_witness_state m f io now in
            let '(m, s, p) :=
              if lease_sync m && should_request_snapshot m && negb (snapshot_done m) then
                let '(m, s, p, _) := request_snapshot m s p now order in (m, s, p)
              else (m, s, p) in
            (m, s, p, f, ev ++ ev')
        end
    | _ => (mark_peer_disconnected m, s, p, f, [])
    end.
End sync.
