(* ===== verification/HaTheorems.v ===== *)
(** What the high-availability pair guarantees. *)

From S2P Require Import Prelude.
From S2P Require Import GoBytes.
From S2P Require Import GoStrings.
From S2P Require Import GoTime.
From S2P Require Import GoNet.
From S2P Require Import Wal.
From S2P Require Import Lease.
From S2P Require Import LeaseStore.
From S2P Require Import LeaseInterface.
From S2P Require Import Dhcp4Pool.
From S2P Require Import Dhcp4PoolSpec.
From S2P Require Import LeaseTheorems.
From S2P Require Import Dhcp4Spec.
From S2P Require Import Dhcp4Theorems.
From S2P Require Import HaManager.

(** * Elections *)

Section election.
Context `{UnicodeTables}.

Definition lower_node (n : bytes) : bytes := to_lower (trim_space n).

(** Two nodes that an election can tell apart. *)
Definition distinguishable (na nb : bytes) (pa pb : Z) : Prop :=
  trim_space na ≠ [] ∧ trim_space nb ≠ [] ∧ lower_node na ≠ [] ∧ lower_node nb ≠ [] ∧
  (default_priority pa ≠ default_priority pb ∨ lower_node na ≠ lower_node nb).

Definition draining_until (until now : time) : bool := negb (is_zero until) && before now until.

Lemma elect_draining na nb mode until now db pa pb :
  draining_until until now = true → elect_role na nb mode true until now db pa pb = RoleSecondary.
Proof. unfold draining_until, elect_role. intros Hd. cbn [andb]. by rewrite Hd. Qed.

Lemma elect_peer_draining na nb mode until now pa pb :
  draining_until until now = false → elect_role na nb mode true until now true pa pb = RolePrimary.
Proof.
  unfold draining_until, elect_role. intros Hd. cbn [andb negb orb]. rewrite Hd. by case_bool_decide.
Qed.

(** The comparison that decides between two nodes that are not draining. *)
Definition outranks (na nb : bytes) (pa pb : Z) : bool :=
  (default_priority pa <? default_priority pb) ||
  (default_priority pa =? default_priority pb) && bool_decide (bytes_le (lower_node na) (lower_node nb)).

Lemma elect_ranked na nb mode until now pa pb :
  distinguishable na nb pa pb → draining_until until now = false →
  elect_role na nb mode true until now false pa pb
  = if outranks na nb pa pb then RolePrimary else RoleSecondary.
Proof.
  intros (Ha & Hb & Hla & Hlb & _) Hd. unfold draining_until, elect_role, outranks, lower_node in *.
  cbn [andb negb orb]. rewrite Hd.
  rewrite (bool_decide_eq_false_2 (trim_space nb = [])) by done.
  destruct (Z.ltb_spec (default_priority pa) (default_priority pb)) as [|Hge]; [done|]. cbn [orb].
  destruct (Z.ltb_spec (default_priority pb) (default_priority pa)).
  { by rewrite (proj2 (Z.eqb_neq _ _)) by lia. }
  rewrite (proj2 (Z.eqb_eq _ _)) by lia. cbn [andb].
  rewrite (bool_decide_eq_false_2 (to_lower (trim_space na) = [])) by done.
  rewrite (bool_decide_eq_false_2 (to_lower (trim_space nb) = [])) by done.
  destruct (bool_decide (bytes_le _ _)); [done|]. by case_bool_decide.
Qed.

Lemma outranks_total na nb pa pb :
  distinguishable na nb pa pb → outranks nb na pb pa = negb (outranks na nb pa pb).
Proof.
  intros (_ & _ & _ & _ & Hne). unfold outranks.
  destruct (Z.ltb_spec (default_priority pa) (default_priority pb)).
  { rewrite (proj2 (Z.ltb_ge _ _)), (proj2 (Z.eqb_neq _ _)) by lia. done. }
  destruct (Z.ltb_spec (default_priority pb) (default_priority pa)).
  { by rewrite (proj2 (Z.eqb_neq (default_priority pa) _)) by lia. }
  rewrite !(proj2 (Z.eqb_eq _ _)) by lia. cbn [orb andb].
  assert (Hn : lower_node na ≠ lower_node nb) by (destruct Hne; [lia|done]).
  destruct (bytes_lt_trichotomy (lower_node na) (lower_node nb)) as [Hlt|[|Hlt]]; [|done|].
  - rewrite (bool_decide_eq_true_2 (bytes_le (lower_node na) _)) by (apply bytes_le_lt_eq; auto).
    rewrite bool_decide_eq_false_2; [done|]. intros Hle%bytes_not_lt. done.
  - rewrite (bool_decide_eq_true_2 (bytes_le (lower_node nb) _)) by (apply bytes_le_lt_eq; auto).
    rewrite bool_decide_eq_false_2; [done|]. intros Hle%bytes_not_lt. done.
Qed.

Lemma apply_election_role m pn pp pd now :
  role (apply_election m pn pp pd now).1
  = elect_role (node m) pn (mode m) true (manual_step_down_until m) now pd (priority m) pp.
Proof.
  unfold apply_election. set (m1 := if _ && _ then _ else m).
  assert (E : elect_role (node m1) pn (mode m1) true (manual_step_down_until m1) now pd (priority m1) pp
    = elect_role (node m) pn (mode m) true (manual_step_down_until m) now pd (priority m) pp).
  { subst m1. destruct (negb (is_zero (manual_step_down_until m)) && negb (before now (manual_step_down_until m)))
      eqn:E; [|done]. apply andb_true_iff in E as [E1 E2]. unfold elect_role.
    cbn [node mode priority manual_step_down_until setter andb]. rewrite E1.
    apply negb_true_iff in E2. by rewrite E2. }
  rewrite <-E. case_bool_decide as Hr; simpl; [done|exact Hr].
Qed.

(** What an election leaves alone. *)
Lemma apply_election_frame m pn pp pd now :
  let m' := (apply_election m pn pp pd now).1 in
  fenced m' = fenced m ∧ mode m' = mode m ∧ peer m' = peer m ∧ witness_path m' = witness_path m.
Proof.
  unfold apply_election. destruct (_ && _); case_bool_decide; done.
Qed.
End election.

(** * Scopes *)

Section scope.
Context `{UnicodeTables}.

Definition in_scope (r : Z * Z * bool) (v : Z) : Prop := r.2 = true ∧ r.1.1 ≤ v ≤ r.1.2.

Lemma split_scope_spec start end_ :
  0 ≤ start ≤ end_ → end_ < 2 ^ 32 →
  ∃ mid, start ≤ mid ≤ end_ ∧ (split_scope start end_).1 = (start, mid) ∧
    (if decide (mid = end_) then (split_scope start end_).2 = (1, 0)
     else (split_scope start end_).2 = (mid + 1, end_)) ∧
    0 ≤ (mid - start + 1) - (end_ - mid) ≤ 1.
Proof.
  intros Hs He. unfold split_scope. rewrite (proj2 (Z.ltb_ge _ _)) by lia.
  rewrite u32_id by lia. set (c := (end_ - start + 1 + 1) / 2).
  pose proof (Z.div_mod (end_ - start + 1 + 1) 2 ltac:(lia)).
  pose proof (Z.mod_pos_bound (end_ - start + 1 + 1) 2 ltac:(lia)). fold c in H0.
  destruct (Z.leb_spec end_ (start + c - 1)).
  - exists end_. rewrite decide_True by done. split_and!; (done || lia).
  - rewrite (proj2 (Z.ltb_ge max_u32 _)) by lia.
    exists (start + c - 1). rewrite decide_False by lia. split_and!; (done || lia).
Qed.

(** The scopes of a primary and a secondary. *)
Lemma scopes_disjoint a b id id' start end_ v :
  0 ≤ start → end_ < 2 ^ 32 →
  role a = RolePrimary → role b = RoleSecondary → peer a = PeerStateConnected →
  peer b = PeerStateConnected → normalize_mode (mode a) = normalize_mode (mode b) →
  in_scope (allocation_scope a id start end_) v → in_scope (allocation_scope b id' start end_) v → False.
Proof.
  intros Hs He Ra Rb Pa Pb Hm. unfold allocation_scope.
  destruct (Z.ltb_spec end_ start); [by intros []|]. rewrite Pa, Pb, Ra, Rb, Hm.
  destruct (fenced a); [by intros []|]. destruct (fenced b); [by intros _ []|].
  rewrite (bool_decide_eq_true_2 (PeerStateConnected = PeerStateConnected)) by done. cbn [negb].
  case_bool_decide.
  - destruct (split_scope_spec start end_) as (mid & Hmid & E1 & E2 & _); [lia|done|].
    destruct (split_scope start end_) as [[ls le] [us ue]]. simpl in E1, E2. injection E1 as -> ->.
    intros [_ Hv]. simpl in Hv. case_decide; injection E2 as -> ->; [by intros []|].
    destruct (_ <? _); [by intros []|]. intros [_ Hv']. simpl in Hv'. lia.
  - rewrite (bool_decide_eq_false_2 (RoleSecondary = RolePrimary)) by done. by intros _ [].
Qed.

(** A secondary of an active-passive pair has no scope. *)
Lemma passive_no_scope a id start end_ v :
  role a = RoleSecondary → normalize_mode (mode a) ≠ load_sharing → ¬ in_scope (allocation_scope a id start end_) v.
Proof.
  intros Ra Hm. unfold allocation_scope. destruct (_ <? _); [by intros []|]. destruct (fenced a); [by intros []|].
  rewrite bool_decide_eq_false_2 by done. rewrite Ra. by intros [].
Qed.

(** In load sharing they cover the range. *)
Lemma scopes_cover a b id id' start end_ v :
  0 ≤ start ≤ v → v ≤ end_ → end_ < 2 ^ 32 →
  role a = RolePrimary → role b = RoleSecondary → peer a = PeerStateConnected →
  peer b = PeerStateConnected → fenced a = false → fenced b = false →
  normalize_mode (mode a) = normalize_mode (mode b) →
  in_scope (allocation_scope a id start end_) v ∨ in_scope (allocation_scope b id' start end_) v.
Proof.
  intros Hs Hv He Ra Rb Pa Pb Fa Fb Hm. unfold allocation_scope, in_scope.
  rewrite (proj2 (Z.ltb_ge _ _)) by lia. rewrite Pa, Pb, Ra, Rb, Fa, Fb, Hm.
  rewrite (bool_decide_eq_true_2 (PeerStateConnected = PeerStateConnected)) by done. cbn [negb].
  case_bool_decide.
  - destruct (split_scope_spec start end_) as (mid & Hmid & E1 & E2 & _); [lia|done|].
    destruct (split_scope start end_) as [[ls le] [us ue]]. simpl in E1, E2. injection E1 as -> ->.
    case_decide; injection E2 as -> ->.
    + left. simpl. split; [done|lia].
    + destruct (decide (v ≤ mid)); [left; simpl; split; [done|lia]|right].
      rewrite (proj2 (Z.ltb_ge _ _)) by lia. simpl. split; [done|lia].
  - rewrite (bool_decide_eq_true_2 (RolePrimary = RolePrimary)) by done. left. simpl. split; [done|lia].
Qed.
End scope.

(** * The witness *)

Section witness.
Context `{UnicodeTables}.

(** The file says another node holds the role. *)
Definition owned_by_other (m : Manager) (f : witness_file) (readable : bool) (now : time) : Prop :=
  ∃ rec, witness_owner (trim_space (witness_path m)) (witness_hold m) now f readable = Ok (Some rec) ∧
    equal_fold (wr_node rec) (node m) = false.

Definition own_record (m : Manager) (now : time) : witness_file :=
  Some (Some (mkWitnessRecord (node m) (priority m) now)).

Lemma write_witness_ok path rec f o f' :
  write_witness_record path rec f o = (f', None) → f' = Some (Some rec).
Proof. unfold write_witness_record. case_bool_decide; [done|]. destruct o; by intros [= <-]. Qed.

Lemma witness_owner_node path hold now f r rec :
  witness_owner path hold now f r = Ok (Some rec) → wr_node rec ≠ [].
Proof.
  unfold witness_owner. destruct (read_witness_record path f r) as [x|e|]; [|by destruct (is_not_exist e)|done].
  destruct (bool_decide (wr_node x = [])) eqn:E; [done|]. destruct (is_zero _); [done|]. cbn [orb].
  destruct (_ && _); [done|]. intros [= <-]. by apply bool_decide_eq_false in E.
Qed.

(** A promotion claims the file and lifts the fence. *)
Lemma can_promote_spec m f io now m' f' ev ok :
  can_promote_locked m f io now = (m', f', ok, ev) →
  (ok = true →
    fenced m' = false ∧ (trim_space (witness_path m) ≠ [] →
      ¬ owned_by_other m f (wio_readable io) now ∧ f' = own_record m now)) ∧
  (ok = false → fenced m' = true) ∧
  node m' = node m ∧ priority m' = priority m ∧ witness_path m' = witness_path m ∧
  role m' = role m.
Proof.
  unfold can_promote_locked. set (m0 := setter _ _). cbv zeta.
  destruct (decide (trim_space (witness_path m) = [])) as [Hp|Hp].
  { rewrite bool_decide_eq_true_2 by done. intros [= <- <- <- <-]. split_and!; done. }
  rewrite bool_decide_eq_false_2 by done. change (witness_path m0) with (witness_path m).
  change (witness_hold m0) with (witness_hold m). unfold owned_by_other.
  destruct (witness_owner _ _ _ _ _) as [owned|e|e] eqn:Eo;
    [|intros [= <- <- <- <-]; by split_and!..].
  assert (Hclaim : (∀ rec, owned = Some rec → equal_fold (wr_node rec) (node m) = true) →
    match write_witness_record (trim_space (witness_path m)) (mkWitnessRecord (node m0) (priority m0) now) f (wio_write io) with
    | (f, Some _) => let '(m, ev) := fence m0 (bs "witness_claim_failed") [] in (m, f, false, ev)
    | (f, None) => (m0 <| witness_owned_by := node m0 |>, f, true, [])
    end = (m', f', ok, ev) →
    (ok = true →
      fenced m' = false ∧ (trim_space (witness_path m) ≠ [] →
        ¬ (∃ rec, Ok owned = Ok (Some rec) ∧ equal_fold (wr_node rec) (node m) = false) ∧
        f' = own_record m now)) ∧
    (ok = false → fenced m' = true) ∧
    node m' = node m ∧ priority m' = priority m ∧ witness_path m' = witness_path m ∧ role m' = role m).
  { intros Hown. destruct (write_witness_record _ _ _ _) as [f1 [e|]] eqn:Ew.
    - intros [= <- <- <- <-]. by split_and!.
    - apply write_witness_ok in Ew. intros [= <- <- <- <-]. split_and!; try done. intros _. split; [done|].
      intros _. split; [|done]. intros (rec & [= ->] & Hne). by rewrite Hown in Hne. }
  destruct owned as [rec|]; [|by apply Hclaim].
  pose proof (witness_owner_node _ _ _ _ _ _ Eo) as Hn.
  rewrite (bool_decide_eq_false_2 (wr_node rec = [])) by done. cbn [negb andb].
  change (node m0) with (node m) at 1. destruct (equal_fold (wr_node rec) (node m)) eqn:Ef; cbn [negb].
  - apply Hclaim. by intros r [= <-].
  - intros [= <- <- <- <-]. by split_and!.
Qed.

Lemma refresh_witness_spec m f io now m' f' ev :
  refresh_witness_state m f io now = (m', f', ev) →
  (role m' = role m ∨ role m' = RoleSecondary ∧ fenced m' = true) ∧
  (role m' = RolePrimary → fenced m = false → trim_space (witness_path m) ≠ [] → f' = own_record m now) ∧
  (role m' = RolePrimary → role m = RolePrimary) ∧
  (fenced m = true → fenced m' = true ∧ role m' = role m) ∧
  (role m' = RolePrimary → fenced m' = fenced m).
Proof.
  unfold refresh_witness_state. case_bool_decide as Hp.
  { intros [= <- <- <-]. split_and!; try done. by left. }
  case_bool_decide as Hr; cbn [negb orb].
  - destruct (fenced m) eqn:Hf.
    + destruct (witness_owner _ _ _ _ _) as [[rec|]|e|e]; intros [= <- <- <-];
        (split_and!; try done; by left).
    + destruct (write_witness_record _ _ _ _) as [f1 [e|]] eqn:Ew; intros [= <- <- <-].
      * split_and!; try done. by right.
      * apply write_witness_ok in Ew. split_and!; try done. by left.
  - destruct (witness_owner _ _ _ _ _) as [[rec|]|e|e]; intros [= <- <- <-]; (split_and!; try done; by left).
Qed.

(** A fenced node allocates nothing. *)
Lemma fenced_no_scope m id start end_ : fenced m = true → allocation_scope m id start end_ = (0, 0, false).
Proof. unfold allocation_scope. intros ->. by destruct (_ <? _). Qed.
End witness.

(** * The steps of a manager that change its role or its fence *)

Section steps.
Context `{UnicodeTables}.

Inductive ha_step : Manager → Manager → Prop :=
  | step_ping m peer now : ha_step m (record_heartbeat m peer 0 now)
  | step_heartbeat m peer prio draining latency now f io m' f' ev :
      refresh_witness_state (apply_election (record_heartbeat m peer latency now) peer prio draining now).1
        f io now = (m', f', ev) → ha_step m m'
  | step_peer_lost m : ha_step m (mark_peer_disconnected m)
  | step_watchdog m f io1 io2 now wnow m' f' ev :
      watchdog_tick m f io1 io2 now wnow = (m', f', ev) → ha_step m m'
  | step_failover m reason now : ha_step m (trigger_manual_failover m reason now).1.1
  | step_snapshot m seq lag : ha_step m (update_sync_lag (mark_snapshot_done m seq) lag)
  | step_classified m seq : ha_step m (classify_incremental_sequence m seq).1.1
  | step_applied m seq lag : ha_step m (update_sync_lag (set_applied_sequence m seq) lag)
  | step_observed m seq : ha_step m (observe_sync_sequence m seq).

Lemma record_heartbeat_frame m p l now :
  role (record_heartbeat m p l now) = role m ∧ fenced (record_heartbeat m p l now) = fenced m.
Proof. unfold record_heartbeat. by destruct (0 <? l). Qed.

(** A fenced primary stays fenced as long as it stays primary. *)
Lemma fenced_primary_step m m' :
  ha_step m m' → role m = RolePrimary → fenced m = true → role m' = RolePrimary → fenced m' = true.
Proof.
  intros Hst Hr Hf Hr'. destruct Hst as [m p now|m p prio d l now f io m' f' ev E|m|m f io1 io2 now wnow m' f' ev E
    |m reason now|m seq lag|m seq|m seq lag|m seq].
  - by rewrite (proj2 (record_heartbeat_frame _ _ _ _)).
  - destruct (apply_election_frame (record_heartbeat m p l now) p prio d now) as (Hf1 & _).
    rewrite (proj2 (record_heartbeat_frame _ _ _ _)), Hf in Hf1.
    apply refresh_witness_spec in E as (_ & _ & _ & Hk & _). by apply Hk.
  - done.
  - unfold watchdog_tick in E. rewrite Hr in E. cbn [negb] in E.
    rewrite (bool_decide_eq_true_2 (RolePrimary = RolePrimary)) in E by done. cbn [negb] in E.
    destruct (negb (is_zero (last_heartbeat_at m)) && _).
    + destruct (refresh_witness_state (mark_peer_disconnected m) f io2 wnow) as [[m1 f1] ev1] eqn:Er.
      injection E as <- <- <-. apply refresh_witness_spec in Er as (_ & _ & _ & Hk & _). by apply Hk.
    + destruct (refresh_witness_state m f io2 wnow) as [[m1 f1] ev1] eqn:Er.
      injection E as <- <- <-. apply refresh_witness_spec in Er as (_ & _ & _ & Hk & _). by apply Hk.
  - revert Hr'. unfold trigger_manual_failover. repeat case_bool_decide; by simpl.
  - unfold mark_snapshot_done. by destruct (_ <? _).
  - unfold classify_incremental_sequence. repeat (destruct (_ =? _) || destruct (_ <? _) || destruct (_ <=? _)); done.
  - unfold set_applied_sequence. destruct (_ <=? _); [done|]. by destruct (_ <? _).
  - unfold observe_sync_sequence. destruct (_ <=? _); [done|]. by destruct (_ <? _).
Qed.
End steps.

(** * The theorems *)

(** A node's election from what its peer reports. *)
Definition elect_against `{UnicodeTables} (a b : Manager) (now : time) : Manager :=
  (apply_election a (node b) (priority b) (is_manual_step_down_active b now) now).1.

Lemma elect_decides `{UnicodeTables} a b now :
  distinguishable (node a) (node b) (priority a) (priority b) →
  is_manual_step_down_active a now && is_manual_step_down_active b now = false →
  let ra := role (elect_against a b now) in
  let rb := role (elect_against b a now) in
  (ra = RolePrimary ∧ rb = RoleSecondary ∧ is_manual_step_down_active a now = false ∨
   ra = RoleSecondary ∧ rb = RolePrimary ∧ is_manual_step_down_active b now = false).
Proof.
  intros Hd Hdrain ra rb. unfold ra, rb, elect_against. rewrite !apply_election_role.
  assert (Hd' : distinguishable (node b) (node a) (priority b) (priority a)).
  { destruct Hd as (? & ? & ? & ? & Hne). split_and!; try done. destruct Hne; [left|right]; congruence. }
  fold (draining_until (manual_step_down_until a) now) (draining_until (manual_step_down_until b) now) in *.
  unfold is_manual_step_down_active in *. fold (draining_until (manual_step_down_until a) now) in *.
  fold (draining_until (manual_step_down_until b) now) in *.
  destruct (draining_until (manual_step_down_until a) now) eqn:Ea,
    (draining_until (manual_step_down_until b) now) eqn:Eb.
  - done.
  - right. by rewrite elect_draining, elect_peer_draining.
  - left. rewrite elect_peer_draining by done. by rewrite elect_draining.
  - rewrite !elect_ranked by done. rewrite (outranks_total _ _ _ _ Hd).
    destruct (outranks (node a) (node b) (priority a) (priority b)); cbn [negb]; [left|right]; done.
Qed.

(** An election is decisive.  When two connected nodes that differ in name or
    in effective priority exchange heartbeats and at most one of them is stepping
    down, exactly one becomes primary and the other secondary, and the node that
    is stepping down is not the primary. *)
Theorem election_exclusive `{UnicodeTables} a b now :
  distinguishable (node a) (node b) (priority a) (priority b) →
  is_manual_step_down_active a now && is_manual_step_down_active b now = false →
  let ra := role (elect_against a b now) in
  let rb := role (elect_against b a now) in
  (ra = RolePrimary ∧ rb = RoleSecondary ∧ is_manual_step_down_active a now = false ∨
   ra = RoleSecondary ∧ rb = RolePrimary ∧ is_manual_step_down_active b now = false).
Proof. apply elect_decides. Qed.


(** Failing over and back within the hour leaves the pair without a primary.
    After a manual failover on [a], the election that follows, a manual failover
    on [b] and the next election, both nodes are secondary for as long as both
    are stepping down: in active-passive mode neither allocates any address, and
    in load-sharing mode both allocate from the same half. *)
Theorem failback_leaves_no_primary `{UnicodeTables} a b t1 t2 t3 id start end_ :
  role a = RolePrimary → peer a = PeerStateConnected → peer b = PeerStateConnected →
  trim_space (peer_addr a) ≠ [] → trim_space (peer_addr b) ≠ [] →
  fenced a = false → fenced b = false → normalize_mode (mode a) = normalize_mode (mode b) →
  is_manual_step_down_active b t1 = false → 0 < t1 ≤ t2 → t2 ≤ t3 → t3 < t1 + hour →
  0 ≤ timeout a < hour → 0 ≤ timeout b < hour →
  let a1 := (trigger_manual_failover a [] t1).1.1 in
  let b1 := elect_against b a1 t1 in
  let b2 := (trigger_manual_failover b1 [] t2).1.1 in
  let a3 := elect_against a1 b2 t3 in
  let b3 := elect_against b2 a1 t3 in
  role b1 = RolePrimary ∧ role a3 = RoleSecondary ∧ role b3 = RoleSecondary ∧
  allocation_scope a3 id start end_ = allocation_scope b3 id start end_ ∧
  (normalize_mode (mode a) ≠ load_sharing → allocation_scope a3 id start end_ = (0, 0, false)).
Proof.
  intros Ra Pa Pb Aa Ab Fa Fb Hm Hb Ht1 Ht2 Ht3 Hta Htb a1 b1 b2 a3 b3.
  assert (Hover : ∀ m : Manager, 0 ≤ timeout m < hour → hour ≤ max_duration (dur_mul (timeout m) 2) hour).
  { intros m Hm'. unfold max_duration. destruct (Z.leb_spec hour (dur_mul (timeout m) 2)); lia. }
  assert (Htrig : ∀ (m : Manager) t, trim_space (peer_addr m) ≠ [] → peer m = PeerStateConnected →
    role m = RolePrimary → (trigger_manual_failover m [] t).1.1
    = m <| manual_step_down_until := time_add t (max_duration (dur_mul (timeout m) 2) hour) |>
        <| role := RoleSecondary |>).
  { intros m t H1 H2 H3. unfold trigger_manual_failover.
    rewrite (bool_decide_eq_false_2 (trim_space (peer_addr m) = [])), H2, H3 by done. done. }
  assert (Ea1 := Htrig a t1 Aa Pa Ra). fold a1 in Ea1.
  assert (Hact : ∀ t, t1 ≤ t < t1 + hour → is_manual_step_down_active a1 t = true).
  { intros t Ht. rewrite Ea1. unfold is_manual_step_down_active, is_zero, before, time_add.
    cbn [manual_step_down_until setter]. specialize (Hover a Hta).
    rewrite (proj2 (Z.eqb_neq _ _)), (proj2 (Z.ltb_lt _ _)) by lia. done. }
  assert (Na : node a1 = node a ∧ priority a1 = priority a ∧ mode a1 = mode a ∧ fenced a1 = fenced a ∧
    peer a1 = peer a) by (rewrite Ea1; done). destruct Na as (Na & Qa & Ma & Fa1 & Pa1).
  assert (Rb1 : role b1 = RolePrimary).
  { unfold b1, elect_against. rewrite apply_election_role, (Hact t1) by lia. by apply elect_peer_draining. }
  assert (Fr1 : node b1 = node b ∧ priority b1 = priority b ∧ timeout b1 = timeout b ∧
    peer_addr b1 = peer_addr b ∧ manual_step_down_until b1 = manual_step_down_until b1).
  { unfold b1, elect_against, apply_election. destruct (_ && _); case_bool_decide; done. }
  destruct Fr1 as (Nb1 & Qb1 & Tb1 & Ab1 & _).
  destruct (apply_election_frame b (node a1) (priority a1) (is_manual_step_down_active a1 t1) t1)
    as (Fb1 & Mb1 & Pb1 & _). fold (elect_against b a1 t1) b1 in Fb1, Mb1, Pb1.
  assert (Eb2 := Htrig b1 t2). fold b2 in Eb2. rewrite Ab1, Pb1, Rb1 in Eb2. specialize (Eb2 Ab Pb eq_refl).
  assert (Hactb : is_manual_step_down_active b2 t3 = true).
  { rewrite Eb2. unfold is_manual_step_down_active, is_zero, before, time_add.
    cbn [manual_step_down_until setter]. rewrite <-Tb1 in Htb. specialize (Hover b1 Htb).
    rewrite (proj2 (Z.eqb_neq _ _)), (proj2 (Z.ltb_lt _ _)) by lia. done. }
  assert (Ra3 : role a3 = RoleSecondary).
  { unfold a3, elect_against. rewrite apply_election_role. apply elect_draining. apply (Hact t3). lia. }
  assert (Rb3 : role b3 = RoleSecondary).
  { unfold b3, elect_against. rewrite apply_election_role. by apply elect_draining. }
  destruct (apply_election_frame a1 (node b2) (priority b2) (is_manual_step_down_active b2 t3) t3)
    as (Fa3 & Ma3 & Pa3 & _). fold (elect_against a1 b2 t3) a3 in Fa3, Ma3, Pa3.
  destruct (apply_election_frame b2 (node a1) (priority a1) (is_manual_step_down_active a1 t3) t3)
    as (Fb3 & Mb3 & Pb3 & _). fold (elect_against b2 a1 t3) b3 in Fb3, Mb3, Pb3.
  assert (Fr2 : fenced b2 = fenced b1 ∧ mode b2 = mode b1 ∧ peer b2 = peer b1) by (rewrite Eb2; done).
  destruct Fr2 as (Fb2 & Mb2 & Pb2).
  split_and!; try done.
  - unfold allocation_scope. rewrite Ra3, Rb3, Fa3, Fb3, Fb2, Fa1, Fa, Fb1, Fb, Ma3, Ma, Mb3, Mb2, Mb1, Hm,
      Pa3, Pa1, Pa, Pb3, Pb2, Pb1, Pb. done.
  - intros Hls. unfold allocation_scope. rewrite Ra3, Fa3, Fa1, Fa, Ma3, Ma.
    rewrite (bool_decide_eq_false_2 (_ = load_sharing)) by done. by destruct (_ <? _).
Qed.

(** C15: the witness guards promotion.  When the watchdog makes a node primary and
    a witness file is configured, no other node owned the file, and the file now
    carries this node's record; a node that finds the file owned by its peer stays
    as it is and is fenced, so it allocates nothing. *)
Theorem witness_guards_promotion `{UnicodeTables} m f io1 io2 now wnow m' f' ev :
  watchdog_tick m f io1 io2 now wnow = (m', f', ev) →
  role m ≠ RolePrimary → trim_space (witness_path m) ≠ [] →
  (role m' = RolePrimary →
    ¬ owned_by_other m f (wio_readable io1) now ∧ f' = own_record m wnow ∧ fenced m' = false) ∧
  (owned_by_other m f (wio_readable io1) now →
    0 < last_heartbeat_at m → timeout m < time_sub now (last_heartbeat_at m) →
    role m' ≠ RolePrimary ∧ ∀ id start end_, allocation_scope m' id start end_ = (0, 0, false)).
Proof.
  unfold watchdog_tick. intros E Hr Hp. set (md := mark_peer_disconnected m) in *.
  destruct (negb (is_zero (last_heartbeat_at m)) && (timeout m <? time_sub now (last_heartbeat_at m))) eqn:Hto.
  - rewrite bool_decide_eq_false_2 in E by done. cbn [negb] in E.
    destruct (can_promote_locked md f io1 now) as [[[m1 f1] ok] ev1] eqn:Ec.
    apply can_promote_spec in Ec as (Hok & Hfail & Nn & Np & Nw & Nr).
    change (witness_path md) with (witness_path m) in *. change (node md) with (node m) in *.
    change (priority md) with (priority m) in *. change (role md) with (role m) in *.
    destruct ok.
    + destruct (Hok eq_refl) as [Hf Hw]. destruct (Hw Hp) as [Hno _]. set (m2 := setter _ _) in E.
      destruct (refresh_witness_state m2 f1 io2 wnow) as [[m3 f3] ev3] eqn:Er. injection E as <- <- <-.
      apply refresh_witness_spec in Er as (_ & Hrec & _ & _ & Hfen). split; [|done].
      intros Hprim. split; [done|]. change (fenced m2) with (fenced m1) in *.
      split; [|by rewrite Hfen]. rewrite Hrec; [|done|done|].
      * unfold own_record. change (node m2) with (node m1). change (priority m2) with (priority m1).
        by rewrite Nn, Np.
      * change (witness_path m2) with (witness_path m1). by rewrite Nw.
    + specialize (Hfail eq_refl).
      destruct (refresh_witness_state m1 f1 io2 wnow) as [[m3 f3] ev3] eqn:Er. injection E as <- <- <-.
      apply refresh_witness_spec in Er as (_ & _ & _ & Hk & _). destruct (Hk Hfail) as [Hf3 Hr3].
      rewrite Nr in Hr3. split; [congruence|]. intros _ _ _. split; [congruence|].
      intros. by apply fenced_no_scope.
  - destruct (refresh_witness_state m f io2 wnow) as [[m3 f3] ev3] eqn:Er. injection E as <- <- <-.
    apply refresh_witness_spec in Er as (_ & _ & Hrp & _). split; [intros Hp'; by destruct Hr; auto|].
    intros _ Hl Ht. exfalso. apply andb_false_iff in Hto as [Hz|Hz].
    + apply negb_false_iff in Hz. unfold is_zero in Hz. lia.
    + apply Z.ltb_ge in Hz. lia.
Qed.

(** A fenced primary never recovers by itself.  In every run of the manager
    in which it remains primary - heartbeats, elections it wins, lost peers,
    watchdog ticks with any witness file, synchronisation - it stays fenced and
    allocates nothing: only the watchdog of a node that is not primary lifts the
    fence. *)
Theorem fenced_primary_stuck `{UnicodeTables} m m' :
  rtc (λ x y, ha_step x y ∧ role y = RolePrimary) m m' →
  role m = RolePrimary → fenced m = true →
  role m' = RolePrimary ∧ fenced m' = true ∧
  ∀ id start end_, allocation_scope m' id start end_ = (0, 0, false).
Proof.
  intros Hrun Hr Hf. enough (role m' = RolePrimary ∧ fenced m' = true) as [H1 H2].
  { split_and!; [done|done|]. intros. by apply fenced_no_scope. }
  induction Hrun as [|x y z [Hst Hy] _ IH]; [done|]. apply IH; [done|].
  by apply (fenced_primary_step x).
Qed.

(** * Witnesses: a pair of nodes *)

#[local] Existing Instance ascii_tables.
#[local] Existing Instance packed_lease.

Definition demo_config (node peer_address : string) (mode : bytes) (lease_sync : bool) : Config :=
  mkConfig (bs node) mode 100 (bs peer_address) 0 0 lease_sync (bs "s3cret") (bs "/var/lib/monsoon/witness") 0.

(** A node that has heard its peer. *)
Definition demo_node (node peer_address peer : string) (mode : bytes) : Manager :=
  record_heartbeat (new_manager (demo_config node peer_address mode true) None) (bs peer) 0 demo_now.
Definition demo_a (mode : bytes) : Manager := demo_node "dhcp-a" "10.0.0.3:8068" "dhcp-b" mode.
Definition demo_b (mode : bytes) : Manager := demo_node "dhcp-b" "10.0.0.2:8068" "dhcp-a" mode.

Lemma demo_distinguishable mode :
  distinguishable (node (demo_a mode)) (node (demo_b mode)) (priority (demo_a mode)) (priority (demo_b mode)).
Proof.
  change (distinguishable (bs "dhcp-a") (bs "dhcp-b") 100 100). unfold distinguishable.
  apply (bool_decide_unpack _). vm_compute. done.
Qed.

Lemma election_exclusive_witness :
  let a := demo_a active_passive in
  let b := demo_b active_passive in
  let ra := role (elect_against a b demo_now) in
  let rb := role (elect_against b a demo_now) in
  (ra = RolePrimary ∧ rb = RoleSecondary ∧ is_manual_step_down_active a demo_now = false ∨
   ra = RoleSecondary ∧ rb = RolePrimary ∧ is_manual_step_down_active b demo_now = false).
Proof. apply election_exclusive; [apply demo_distinguishable|done]. Defined.

(** What one of the nodes grants a new client. *)
Definition demo_client (mac : Z) : AllocationRequest :=
  mkAllocationRequest (map byte_of_Z [170; 187; 204; 0; 17; mac]) [] [] [].
Definition demo_grant (a b : Manager) (mac : Z) : result (PoolManager * AllocationResult) :=
  allocate (Some (allocation_scope (elect_against a b demo_now))) (demo_pm true) demo_store1
    (demo_client mac) demo_now.
Definition demo_granted (a b : Manager) (mac : Z) : PoolManager * AllocationResult :=
  match demo_grant a b mac with
  | Ok r => r
  | _ => (demo_pm true, mkAllocationResult [] [] (mkPrefix (A4 []) 0) [] [] 0)
  end.

Lemma demo_grant_ok a b mac :
  is_ok (demo_grant a b mac) = true →
  demo_grant a b mac = Ok ((demo_granted a b mac).1, (demo_granted a b mac).2).
Proof. unfold demo_granted. destruct (demo_grant a b mac) as [[pm r]| |]; done. Qed.

Lemma demo_client_new mac :
  normalize_mac (map byte_of_Z [170; 187; 204; 0; 17; mac]) ≠ normalize_mac (l_mac demo_lease) →
  ∀ l, ¬ own_lease demo_map1 (demo_pm true) (demo_client mac) demo_now l.
Proof.
  intros Hne l (Hl & _ & _ & _ & Hm). unfold demo_map1 in Hl.
  apply lookup_singleton_Some in Hl as [_ <-]. apply Hne. by symmetry.
Qed.


Lemma failback_leaves_no_primary_witness :
  let a := demo_a active_passive in
  let b := demo_b active_passive <| role := RoleSecondary |> in
  let a1 := (trigger_manual_failover a [] demo_now).1.1 in
  let b1 := elect_against b a1 demo_now in
  let b2 := (trigger_manual_failover b1 [] (demo_now + minute)).1.1 in
  let a3 := elect_against a1 b2 (demo_now + 2 * minute) in
  let b3 := elect_against b2 a1 (demo_now + 2 * minute) in
  role b1 = RolePrimary ∧ role a3 = RoleSecondary ∧ role b3 = RoleSecondary ∧
  allocation_scope a3 [] 10 20 = allocation_scope b3 [] 10 20 ∧
  (normalize_mode (mode a) ≠ load_sharing → allocation_scope a3 [] 10 20 = (0, 0, false)).
Proof.
  apply failback_leaves_no_primary; try reflexivity; try (vm_compute; done);
    (split; vm_compute; done) || (vm_compute; done).
Defined.

(** A secondary that lost its peer, with the peer's fresh record in the file. *)
Definition demo_lost : Manager := demo_b active_passive <| role := RoleSecondary |>.
Definition demo_record : witness_file :=
  Some (Some (mkWitnessRecord (bs "dhcp-a") 100 (demo_now + 55 * second))).
Lemma demo_split {A B C} (x : A * B * C) : x = (x.1.1, x.1.2, x.2).
Proof. by destruct x as [[? ?] ?]. Qed.

Definition demo_ticked : Manager * witness_file * list HaEvent :=
  watchdog_tick demo_lost demo_record (mkWitnessIO true WriteOk) (mkWitnessIO true WriteOk)
    (demo_now + minute) (demo_now + minute).

Lemma witness_guards_promotion_witness :
  let m' := demo_ticked.1.1 in
  (role m' = RolePrimary →
    ¬ owned_by_other demo_lost demo_record true (demo_now + minute) ∧
    demo_ticked.1.2 = own_record demo_lost (demo_now + minute) ∧ fenced m' = false) ∧
  (owned_by_other demo_lost demo_record true (demo_now + minute) →
    0 < last_heartbeat_at demo_lost →
    timeout demo_lost < time_sub (demo_now + minute) (last_heartbeat_at demo_lost) →
    role m' ≠ RolePrimary ∧ ∀ id start end_, allocation_scope m' id start end_ = (0, 0, false)).
Proof.
  apply (λ E, witness_guards_promotion demo_lost demo_record (mkWitnessIO true WriteOk)
    (mkWitnessIO true WriteOk) (demo_now + minute) (demo_now + minute) demo_ticked.1.1 demo_ticked.1.2
    demo_ticked.2 E).
  - rewrite <-(demo_split demo_ticked). unfold demo_ticked. reflexivity.
  - vm_compute. done.
  - vm_compute. done.
Defined.

(** The secondary was fenced when its peer came back draining: it is primary and fenced. *)
Definition demo_fenced : Manager := demo_b active_passive <| fenced := true |>.

Lemma fenced_primary_stuck_witness :
  let m' := mark_peer_disconnected (observe_sync_sequence demo_fenced 7) in
  role m' = RolePrimary ∧ fenced m' = true ∧
  ∀ id start end_, allocation_scope m' id start end_ = (0, 0, false).
Proof.
  apply (fenced_primary_stuck demo_fenced); [|done|done].
  eapply rtc_l; [split; [apply (step_observed _ 7)|done]|].
  eapply rtc_l; [split; [apply step_peer_lost|done]|]. apply rtc_refl.
Defined.
