(* ===== verification/HaSyncTheorems.v ===== *)
(** Lease replication between the two nodes. *)

From S2P Require Import Prelude.
From S2P Require Import GoBytes.
From S2P Require Import GoStrings.
From S2P Require Import GoTime.
From S2P Require Import GoJson.
From S2P Require Import Wal.
From S2P Require Import StorageEngine.
From S2P Require Import Lease.
From S2P Require Import LeaseStore.
From S2P Require Import LeaseInterface.
From S2P Require Import HaManager.
From S2P Require Import LeaseSpec.
From S2P Require Import LeaseTheorems.
From S2P Require Import Sweeper.
From S2P Require Import HaTheorems.

Section sync.
Context {S : Type} `{U : UnicodeTables} `{LS : LeaseStore S} `{!LeaseStoreLaws S}.
Context (env : Lease → ls_env) (env_del : bytes → ls_env).

(** The replica has the leases of the origin, each as its own store writes it. *)
Definition replicates (mo mr : lease_map) : Prop :=
  ∀ ip, option_Forall2 (λ l l', ∃ t, l' = stored t l) (mo !! ip) (mr !! ip).

Lemma replicates_insert mo mr ip l t :
  replicates mo mr → replicates (<[ip := l]> mo) (<[ip := stored t l]> mr).
Proof.
  intros Hr k. destruct (decide (k = ip)) as [-> |Hne].
  - rewrite !lookup_insert_eq. constructor. by exists t.
  - by rewrite !lookup_insert_ne.
Qed.

Lemma replicates_delete mo mr ip :
  replicates mo mr → replicates (base.delete ip mo) (base.delete ip mr).
Proof.
  intros Hr k. destruct (decide (k = ip)) as [-> |Hne].
  - rewrite !lookup_delete_eq. constructor.
  - by rewrite !lookup_delete_ne.
Qed.

(** * Snapshots *)

(** The map after the writes of a list of leases. *)
Definition upserted (m : lease_map) (items : list Lease) : lease_map :=
  foldl (λ m l, <[l_ip l := stored (ls_now (env l)) l]> m) m items.

Lemma upsert_all_spec items : ∀ s m,
  ls_map s m → (∀ l, l ∈ items → ls_writable (env l) l) →
  ∃ s', upsert_all env s items = (s', None) ∧ ls_map s' (upserted m items).
Proof.
  induction items as [|l items IH]; intros s m Hs Hw; simpl; [by exists s|].
  destruct (ls_upsert_silent_law s m l (env l) Hs) as (s1 & E & Hs1); [apply Hw; left|].
  unfold upsert_lease_replica. rewrite E. apply IH; [done|]. intros x Hx. apply Hw. by right.
Qed.

Lemma upserted_lookup items : ∀ m ip,
  NoDup (l_ip <$> items) →
  upserted m items !! ip =
    match list_find (λ l, l_ip l = ip) items with
    | Some (_, l) => Some (stored (ls_now (env l)) l)
    | None => m !! ip
    end.
Proof.
  induction items as [|l items IH]; intros m ip Hnd; [done|].
  cbn [upserted foldl list_find] in *. fold (upserted (<[l_ip l := stored (ls_now (env l)) l]> m) items).
  rewrite fmap_cons, NoDup_cons in Hnd. destruct Hnd as [Hni Hnd]. rewrite IH by done.
  destruct (decide (l_ip l = ip)) as [<- |Hne].
  - assert (list_find (λ x, l_ip x = l_ip l) items = None) as ->.
    { apply list_find_None. apply Forall_forall. intros x Hx E. apply Hni, list_elem_of_fmap. by exists x. }
    by rewrite lookup_insert_eq.
  - rewrite lookup_insert_ne by done. by destruct (list_find _ items) as [[i x]|].
Qed.

(** The map after the deletions of a list of addresses. *)
Definition removed (m : lease_map) (ips : list bytes) : lease_map := foldl (λ m ip, base.delete ip m) m ips.

Lemma removed_lookup ips : ∀ m ip, removed m ips !! ip = if bool_decide (ip ∈ ips) then None else m !! ip.
Proof.
  induction ips as [|x ips IH]; intros m ip; simpl; [done|]. fold (removed (base.delete x m) ips).
  rewrite IH. destruct (decide (ip = x)) as [-> |Hne].
  - rewrite lookup_delete_eq. case_bool_decide; case_bool_decide; set_solver.
  - rewrite lookup_delete_ne by done. case_bool_decide; case_bool_decide; set_solver.
Qed.

Definition others (desired : lease_map) (existing : list Lease) : list bytes :=
  l_ip <$> filter (λ l, desired !! trim_space (l_ip l) = None) existing.

Lemma delete_others_spec desired existing : ∀ s m,
  ls_map s m →
  (∀ ip l, m !! ip = Some l → ip ∈ others desired existing → ls_writable (env_del ip) l) →
  ∃ s', delete_others env_del desired s existing = (s', None) ∧
    ls_map s' (removed m (others desired existing)).
Proof.
  induction existing as [|l existing IH]; intros s m Hs Hw; simpl; [by exists s|].
  unfold others in *. destruct (desired !! trim_space (l_ip l)) as [x|] eqn:E.
  - rewrite filter_cons_False by (by rewrite E). rewrite filter_cons_False in Hw by (by rewrite E). by apply IH.
  - rewrite filter_cons_True by done. rewrite filter_cons_True in Hw by done. cbn [fmap list_fmap] in *.
    destruct (ls_delete_silent_law s m (l_ip l) (env_del (l_ip l)) Hs) as (s1 & E1 & Hs1).
    { intros y Hy. apply (Hw _ _ Hy). left. }
    unfold delete_lease_replica. rewrite E1. apply IH; [done|].
    intros ip y Hy Hin. apply lookup_delete_Some in Hy as [_ Hy]. apply (Hw _ _ Hy). by right.
Qed.

(** The leases of a store, as [ListAll] gives them. *)
Definition lists (L : list Lease) (m : lease_map) : Prop :=
  (∀ l, l ∈ L ↔ m !! l_ip l = Some l) ∧ map_Forall (λ ip l, l_ip l = ip) m.

(** Addresses without surrounding space, as the servers write them. *)
Definition trimmed (m : lease_map) : Prop := map_Forall (λ ip _, trim_space ip = ip ∧ ip ≠ []) m.

Lemma desired_map_lookup (L : list Lease) (m : lease_map) : ∀ (d : lease_map) ip,
  (∀ l, l ∈ L → m !! l_ip l = Some l ∧ trim_space (l_ip l) = l_ip l ∧ l_ip l ≠ []) →
  foldl (λ d item,
    let ip := trim_space (l_ip item) in
    if bool_decide (ip = []) then d else <[ip := item <| l_ip := ip |>]> d) d L !! ip
  = if bool_decide (ip ∈ l_ip <$> L) then m !! ip else d !! ip.
Proof.
  induction L as [|l L IH]; intros d ip HL; [done|]. cbn [foldl].
  destruct (HL l) as (Hl & Ht & Hn); [left|]. cbv zeta. rewrite Ht.
  rewrite (bool_decide_eq_false_2 (l_ip l = [])) by done.
  assert (El : l <| l_ip := l_ip l |> = l) by by destruct l. rewrite El.
  rewrite IH by (intros; apply HL; by right). rewrite fmap_cons.
  destruct (decide (ip ∈ l_ip <$> L)) as [Hin|Hni].
  - rewrite !bool_decide_eq_true_2; [done|set_solver|done].
  - rewrite (bool_decide_eq_false_2 (ip ∈ l_ip <$> L)) by done.
    destruct (decide (ip = l_ip l)) as [-> |Hne].
    + rewrite bool_decide_eq_true_2 by set_solver. by rewrite lookup_insert_eq, Hl.
    + rewrite bool_decide_eq_false_2 by set_solver. by rewrite lookup_insert_ne.
Qed.

Lemma desired_map_exact L m : lists L m → trimmed m → desired_map L = m.
Proof.
  intros [HL Hk] Ht. apply map_eq. intros ip. unfold desired_map.
  rewrite (desired_map_lookup L m).
  - case_bool_decide as Hin; [done|]. rewrite lookup_empty. symmetry. apply eq_None_not_Some.
    intros [l Hl]. apply Hin, list_elem_of_fmap. exists l. pose proof (Hk _ _ Hl) as E. simpl in E.
    split; [done|]. apply HL. by rewrite E.
  - intros l Hl. apply HL in Hl. split; [done|]. apply (Ht _ _ Hl).
Qed.

(** What the snapshot of [mo] may write on a replica with [mr]. *)
Definition snapshot_writable (mo mr : lease_map) : Prop :=
  map_Forall (λ _ l, ls_writable (env l) l) mo ∧
  map_Forall (λ ip l, mo !! ip = None → ls_writable (env_del ip) l) mr.

(** [order] lists the values of a map keyed by address. *)
Definition ranges (order : lease_map → list Lease) : Prop :=
  ∀ m, map_Forall (λ ip l, l_ip l = ip) m → order m ≡ₚ (map_to_list m).*2.

Lemma values_by_ip (m : lease_map) : map_Forall (λ ip l, l_ip l = ip) m →
  l_ip <$> (map_to_list m).*2 = (map_to_list m).*1.
Proof.
  intros Hk. rewrite <-list_fmap_compose. apply list_fmap_ext. intros i [ip l] Hi. simpl.
  apply list_elem_of_lookup_2, elem_of_map_to_list in Hi. apply (Hk _ _ Hi).
Qed.

Lemma apply_snapshot_spec mode s L mo mr order :
  normalize_mode mode ≠ load_sharing → lists L mo → trimmed mo → trimmed mr → ranges order →
  ls_map s mr → snapshot_writable mo mr →
  ∃ s' mr', apply_snapshot env env_del mode s L order = (s', None) ∧ ls_map s' mr' ∧ replicates mo mr'.
Proof.
  intros Hmode HL Hto Htr Hord Hs [Hw1 Hw2]. unfold apply_snapshot. rewrite (desired_map_exact L mo) by done.
  destruct HL as [HL Hk]. specialize (Hord mo Hk).
  assert (Hin : ∀ l, l ∈ order mo ↔ mo !! l_ip l = Some l).
  { intros l. rewrite Hord, list_elem_of_fmap. split.
    - intros ([ip l'] & -> & Hx%elem_of_map_to_list). simpl. by rewrite (Hk _ _ Hx).
    - intros Hl. exists (l_ip l, l). split; [done|]. by apply elem_of_map_to_list. }
  assert (Hnd : NoDup (l_ip <$> order mo)).
  { rewrite Hord, (values_by_ip mo Hk). apply NoDup_fst_map_to_list. }
  destruct (upsert_all_spec (order mo) s mr Hs) as (s1 & -> & Hs1).
  { intros l Hl%Hin. apply (Hw1 _ _ Hl). }
  set (m1 := upserted mr (order mo)) in *.
  assert (Hm1 : ∀ ip, match mo !! ip with
    | Some l => m1 !! ip = Some (stored (ls_now (env l)) l)
    | None => m1 !! ip = mr !! ip
    end).
  { intros ip. unfold m1. rewrite upserted_lookup by done. destruct (mo !! ip) as [l|] eqn:El.
    - pose proof (Hk _ _ El) as Eip. simpl in Eip.
      destruct (list_find (λ l, l_ip l = ip) (order mo)) as [[i x]|] eqn:Ef.
      + apply list_find_Some in Ef as (Hx & Hxip & _). apply list_elem_of_lookup_2, Hin in Hx.
        rewrite Hxip, El in Hx. congruence.
      + exfalso. apply list_find_None in Ef. rewrite Forall_forall in Ef.
        apply (Ef l); [|done]. apply Hin. by rewrite Eip.
    - destruct (list_find (λ l, l_ip l = ip) (order mo)) as [[i x]|] eqn:Ef; [|done].
      apply list_find_Some in Ef as (Hx & Hxip & _). apply list_elem_of_lookup_2, Hin in Hx. congruence. }
  rewrite bool_decide_eq_false_2 by done.
  destruct (ls_list_all_law s1 m1 Hs1) as (ex & -> & _ & Hex).
  assert (Hk1 : ∀ ip l, m1 !! ip = Some l → l_ip l = ip) by (intros ip l; by apply (ls_keyed s1)).
  assert (Hoth : ∀ ip, ip ∈ others mo ex ↔ is_Some (m1 !! ip) ∧ mo !! trim_space ip = None).
  { intros ip. unfold others. rewrite list_elem_of_fmap. split.
    - intros (l & -> & [Hn Hl%Hex]%list_elem_of_filter). split; [by eexists|done].
    - intros [[l Hl] Hn]. exists l. pose proof (Hk1 _ _ Hl) as E. split; [done|].
      apply list_elem_of_filter. rewrite E. split; [done|]. apply Hex. by rewrite E. }
  destruct (delete_others_spec mo ex s1 m1 Hs1) as (s2 & -> & Hs2).
  { intros ip l Hl [_ Hn]%Hoth. assert (Hne : mo !! ip = None).
    { destruct (mo !! ip) eqn:Eo; [|done]. exfalso. rewrite (proj1 (Hto _ _ Eo)) in Hn. congruence. }
    pose proof (Hm1 ip) as Hip. rewrite Hne in Hip. rewrite Hip in Hl. by apply (Hw2 _ _ Hl). }
  eexists s2, _. split; [done|]. split; [exact Hs2|].
  intros ip. rewrite removed_lookup. pose proof (Hm1 ip) as Hip. destruct (mo !! ip) as [l|] eqn:Eo.
  - rewrite bool_decide_eq_false_2.
    + rewrite Hip. constructor. by eexists.
    + intros [_ Hn]%Hoth. rewrite (proj1 (Hto _ _ Eo)) in Hn. congruence.
  - case_bool_decide as Hi; [constructor|]. rewrite Hip. destruct (mr !! ip) as [x|] eqn:Er; [|constructor].
    exfalso. apply Hi, Hoth. rewrite Hip. split; [done|]. by rewrite (proj1 (Htr _ _ Er)).
Qed.

(** * Increments *)

(** The peer is another node: its manager and its store. *)
Definition peer_exchange (now : time) (order : lease_map → list Lease) (p : Manager * S) (w : wire)
    : (Manager * S) * answer :=
  let '(m, s, a) := handle_conn env env_del p.1 p.2 w now order in ((m, s), a).

(** An event of the store's feed: a lease was written, or an address deleted. *)
Definition lease_event (evt : MutationEvent) : Prop :=
  (∃ l, me_op evt = OpPut ∧ me_lease evt = Some l) ∨ (me_op evt = OpDel ∧ trim_space (me_ip evt) ≠ []).

Definition apply_event (m : lease_map) (evt : MutationEvent) : lease_map :=
  if bool_decide (me_op evt = OpPut) then
    match me_lease evt with Some l => <[l_ip l := l]> m | None => m end
  else base.delete (me_ip evt) m.

(** What the replica's map becomes. *)
Definition replica_event (m : lease_map) (evt : MutationEvent) : lease_map :=
  if bool_decide (me_op evt = OpPut) then
    match me_lease evt with
    | Some l => <[l_ip l := stored (ls_now (env l)) l]> m
    | None => m
    end
  else base.delete (me_ip evt) m.

Definition event_writable (m : lease_map) (evt : MutationEvent) : Prop :=
  if bool_decide (me_op evt = OpPut) then
    match me_lease evt with Some l => ls_writable (env l) l | None => True end
  else ∀ l, m !! me_ip evt = Some l → ls_writable (env_del (me_ip evt)) l.

Fixpoint events_writable (m : lease_map) (evts : list MutationEvent) : Prop :=
  match evts with
  | [] => True
  | evt :: evts' => event_writable m evt ∧ events_writable (replica_event m evt) evts'
  end.

Lemma replicates_event mo mr evt :
  replicates mo mr → replicates (apply_event mo evt) (replica_event mr evt).
Proof.
  intros Hr. unfold apply_event, replica_event. case_bool_decide; [|by apply replicates_delete].
  destruct (me_lease evt); [by apply replicates_insert|done].
Qed.

(** The events follow each other without a gap. *)
Fixpoint consecutive (q : Z) (evts : list MutationEvent) : Prop :=
  match evts with
  | [] => True
  | evt :: evts' => me_sequence evt = q + 1 ∧ q + 1 < 2 ^ 63 - 1 ∧ consecutive (q + 1) evts'
  end.

Lemma validate_same sec : validate_secret sec sec = None.
Proof. unfold validate_secret. case_bool_decide; [done|]. by rewrite bool_decide_eq_true_2. Qed.

(** The replica takes the next increment. *)
Lemma classify_next m q :
  0 ≤ q < 2 ^ 63 - 2 → applied_sequence m = q →
  classify_incremental_sequence m (q + 1) = (m, true, false).
Proof.
  intros Hq E. unfold classify_incremental_sequence. rewrite E, (proj2 (Z.leb_gt _ _)) by lia.
  destruct (Z.eqb_spec q 0) as [-> |Hne]; [done|]. cbn [andb].
  rewrite (proj2 (Z.leb_gt _ _)) by lia. rewrite i64_id by lia. by rewrite Z.eqb_refl.
Qed.

Lemma set_applied_next m q :
  0 ≤ q → applied_sequence m = q → applied_sequence (set_applied_sequence m (q + 1)) = q + 1.
Proof.
  intros Hq E. unfold set_applied_sequence. rewrite (proj2 (Z.leb_gt _ _)) by lia.
  by rewrite E, (proj2 (Z.ltb_lt _ _)) by lia.
Qed.

Lemma set_applied_secret m q : secret (set_applied_sequence m q) = secret m.
Proof. unfold set_applied_sequence. destruct (_ <=? _); [done|]. by destruct (_ <? _). Qed.

(** One incremental message. *)
Lemma incremental_step mb sb s' msg now order q write :
  0 ≤ q < 2 ^ 63 - 2 → applied_sequence mb = q → sm_sequence msg = q + 1 → sm_secret msg = secret mb →
  (sm_type msg = bs "lease_upsert" ∧ write = (match sm_lease msg with
     | Some l => Some (upsert_lease_replica env sb l) | None => None end)
   ∨ sm_type msg = bs "lease_delete" ∧ write = (if bool_decide (trim_space (sm_delete_ip msg) = []) then None
     else Some (delete_lease_replica env_del sb (sm_delete_ip msg)))) →
  write = Some (s', None) →
  ∃ mb', peer_exchange now order (mb, sb) (wire_sync msg) = ((mb', s'), ASync (reply_ack mb' msg now)) ∧
    applied_sequence mb' = q + 1 ∧ secret mb' = secret mb ∧ mode mb' = mode mb.
Proof.
  intros Hq Ea Es Esec Hty Hw. unfold peer_exchange, handle_conn, wire_sync. cbn [w_envelope w_sync fst snd].
  rewrite Esec, validate_same.
  set (mb' := update_sync_lag (set_applied_sequence mb (q + 1)) (time_sub now (sm_timestamp msg))).
  assert (Hinc : handle_incremental mb sb msg now write = (mb', s', reply_ack mb' msg now)).
  { unfold handle_incremental. rewrite Es, (classify_next mb q) by done. by rewrite Hw. }
  exists mb'. split; [|split_and!].
  - unfold handle_sync. destruct Hty as [[Et Ew]|[Et Ew]]; rewrite Et.
    + rewrite (bool_decide_eq_false_2 (bs "lease_upsert" = bs "ping")) by (vm_compute; done).
      rewrite bool_decide_eq_true_2 by (apply (bool_decide_unpack _); vm_compute; done).
      rewrite (bool_decide_eq_false_2 (bs "lease_upsert" = bs "snapshot_request")) by (vm_compute; done).
      rewrite (bool_decide_eq_false_2 (bs "lease_upsert" = bs "snapshot_push")) by (vm_compute; done).
      rewrite (bool_decide_eq_true_2 (bs "lease_upsert" = bs "lease_upsert")) by done.
      rewrite <-Ew, Hinc. done.
    + rewrite (bool_decide_eq_false_2 (bs "lease_delete" = bs "ping")) by (vm_compute; done).
      rewrite bool_decide_eq_true_2 by (apply (bool_decide_unpack _); vm_compute; done).
      rewrite (bool_decide_eq_false_2 (bs "lease_delete" = bs "snapshot_request")) by (vm_compute; done).
      rewrite (bool_decide_eq_false_2 (bs "lease_delete" = bs "snapshot_push")) by (vm_compute; done).
      rewrite (bool_decide_eq_false_2 (bs "lease_delete" = bs "lease_upsert")) by (vm_compute; done).
      rewrite (bool_decide_eq_true_2 (bs "lease_delete" = bs "lease_delete")) by done.
      rewrite <-Ew, Hinc. done.
  - apply (set_applied_next mb q); [lia|done].
  - apply set_applied_secret.
  - unfold mb', set_applied_sequence. destruct (_ <=? _); [done|]. by destruct (_ <? _).
Qed.

(** The sender is satisfied with an acknowledgement. *)
Lemma send_acked {P} (exchange : P → wire → P * answer) ma (sa : S) p p' msg resp now :
  exchange p (wire_sync msg) = (p', ASync resp) → sm_secret resp = secret ma → sm_type resp = bs "ack" →
  send_sync exchange ma sa p msg now = (p', None).
Proof.
  intros E Es Et. unfold send_sync, send_sync_once. rewrite E, Es, validate_same, Et.
  by rewrite (bool_decide_eq_false_2 (bs "ack" = _)) by (vm_compute; done).
Qed.

Lemma observe_frame m seq :
  let m' := observe_sync_sequence m seq in
  secret m' = secret m ∧ node m' = node m ∧
  should_replicate_local_changes m' = should_replicate_local_changes m.
Proof. unfold observe_sync_sequence. destruct (_ <=? _); [done|]. by destruct (_ <? _). Qed.

Lemma event_step ma sa mb sb mo mr evt now order q :
  should_replicate_local_changes ma = true → secret mb = secret ma →
  0 ≤ q → applied_sequence mb = q → me_sequence evt = q + 1 → q + 1 < 2 ^ 63 - 1 →
  lease_event evt → ls_map sb mr → replicates mo mr → event_writable mr evt →
  ∃ ma' mb' sb', lease_sync_event (peer_exchange now order) ma sa (mb, sb) evt now = (ma', (mb', sb')) ∧
    should_replicate_local_changes ma' = true ∧ secret mb' = secret ma' ∧ applied_sequence mb' = q + 1 ∧
    ls_map sb' (replica_event mr evt) ∧ replicates (apply_event mo evt) (replica_event mr evt).
Proof.
  intros Hrep Hsec Hq Ea Es Hmax Hev Hs Hr Hw. unfold lease_sync_event. rewrite Hrep. cbn [negb].
  set (ma1 := observe_sync_sequence ma (me_sequence evt)).
  destruct (observe_frame ma (me_sequence evt)) as (Hs1 & Hn1 & Hr1). fold ma1 in Hs1, Hn1, Hr1.
  pose proof (replicates_event mo mr evt Hr) as Hr'.
  unfold event_writable, replica_event in *. exists ma1. destruct Hev as [(l & Hop & El)|(Hop & Hip)]; rewrite Hop in *.
  - rewrite !(bool_decide_eq_true_2 (OpPut = OpPut)) in * by done. rewrite El in *.
    destruct (ls_upsert_silent_law sb mr l (env l) Hs Hw) as (sb' & Eu & Hs').
    unfold push_lease_update. set (msg := mkSyncMessage _ _ _ _ _ _ _ _).
    destruct (incremental_step mb sb sb' msg now order q (Some (upsert_lease_replica env sb l)))
      as (mb' & Ex & Ha' & Hsec' & _);
      [lia|done|done|by rewrite Hsec|by left|unfold upsert_lease_replica; by rewrite Eu|].
    rewrite (send_acked _ _ _ _ _ _ _ _ Ex) by (cbn; congruence || done).
    exists mb', sb'. split_and!; try done; congruence.
  - rewrite !(bool_decide_eq_false_2 (OpDel = OpPut)) in * by done.
    rewrite (bool_decide_eq_true_2 (OpDel = OpDel)), (bool_decide_eq_false_2 (trim_space (me_ip evt) = [])) by done.
    destruct (ls_delete_silent_law sb mr (me_ip evt) (env_del (me_ip evt)) Hs Hw) as (sb' & Eu & Hs').
    unfold push_lease_delete. set (msg := mkSyncMessage _ _ _ _ _ _ _ _).
    destruct (incremental_step mb sb sb' msg now order q (Some (delete_lease_replica env_del sb (me_ip evt))))
      as (mb' & Ex & Ha' & Hsec' & _).
    { lia. } { done. } { done. } { by rewrite Hsec. }
    { right. split; [done|]. cbn [sm_delete_ip msg]. by rewrite bool_decide_eq_false_2. }
    { unfold delete_lease_replica. by rewrite Eu. }
    rewrite (send_acked _ _ _ _ _ _ _ _ Ex) by (cbn; congruence || done).
    exists mb', sb'. split_and!; try done; congruence.
Qed.

(** The feed, event after event. *)
Fixpoint sync_events (now : time) (order : lease_map → list Lease) (ma : Manager) (sa : S)
    (p : Manager * S) (evts : list MutationEvent) : Manager * (Manager * S) :=
  match evts with
  | [] => (ma, p)
  | evt :: evts' =>
      let '(ma, p) := lease_sync_event (peer_exchange now order) ma sa p evt now in
      sync_events now order ma sa p evts'
  end.

Lemma sync_events_spec now order sa evts : ∀ ma mb sb mo mr q,
  should_replicate_local_changes ma = true → secret mb = secret ma →
  0 ≤ q → applied_sequence mb = q → consecutive q evts → Forall lease_event evts →
  ls_map sb mr → replicates mo mr → events_writable mr evts →
  ∃ ma' mb' sb' mr', sync_events now order ma sa (mb, sb) evts = (ma', (mb', sb')) ∧
    applied_sequence mb' = q + zlen evts ∧ ls_map sb' mr' ∧
    replicates (foldl apply_event mo evts) mr'.
Proof.
  induction evts as [|evt evts IH]; intros ma mb sb mo mr q Hrep Hsec Hq Ea Hc Hev Hs Hr Hw.
  { exists ma, mb, sb, mr. split_and!; try done. rewrite zlen_nil. lia. }
  destruct Hc as (Es & Hmax & Hc). apply Forall_cons in Hev as [He Hev]. destruct Hw as [Hw1 Hw].
  destruct (event_step ma sa mb sb mo mr evt now order q Hrep Hsec Hq Ea Es Hmax He Hs Hr Hw1)
    as (ma1 & mb1 & sb1 & E & Hrep1 & Hsec1 & Ea1 & Hs1 & Hr1).
  cbn [sync_events foldl]. rewrite E.
  destruct (IH ma1 mb1 sb1 _ _ (q + 1) Hrep1 Hsec1 ltac:(lia) Ea1 Hc Hev Hs1 Hr1 Hw)
    as (ma' & mb' & sb' & mr' & E' & Ea' & Hs' & Hr').
  exists ma', mb', sb', mr'. rewrite zlen_cons. split_and!; try done. lia.
Qed.

(** The bookkeeping of a snapshot. *)
Lemma mark_done_spec m seq lag :
  let m' := update_sync_lag (mark_snapshot_done m seq) lag in
  snapshot_done m' = true ∧ applied_sequence m' = Z.max (applied_sequence m) seq.
Proof.
  unfold mark_snapshot_done. cbn [applied_sequence setter]. destruct (Z.ltb_spec (applied_sequence m) seq);
    (split; [done|]; cbn [applied_sequence update_sync_lag setter]; lia).
Qed.

Lemma mark_done_secret m seq lag : secret (update_sync_lag (mark_snapshot_done m seq) lag) = secret m.
Proof. unfold mark_snapshot_done. cbn zeta. by destruct (_ <? _). Qed.

Lemma update_mark_swap m seq lag :
  mark_snapshot_done (update_sync_lag m lag) seq = update_sync_lag (mark_snapshot_done m seq) lag.
Proof.
  unfold mark_snapshot_done. cbn zeta. change (applied_sequence (update_sync_lag m lag <| snapshot_done := true |>))
    with (applied_sequence (m <| snapshot_done := true |>)). by destruct (_ <? _).
Qed.
End sync.

(** * The theorems *)

(** C13: a snapshot makes the replica equal to the primary.  In active-passive mode,
    whether the secondary asks for it or the primary pushes it, whatever the order
    in which the message's map is ranged over, every write succeeds and the
    secondary's store then holds exactly the primary's leases, each as the
    secondary's store normalises it: stale leases are gone.  The secondary is
    marked as synchronised up to the primary's sequence, and the primary's own
    store is untouched. *)
Theorem snapshot_replicates {S} `{U : UnicodeTables} `{LS : LeaseStore S} `{!LeaseStoreLaws S}
    env env_del ma mb (sa sb : S) mo mr now order :
  ls_map sa mo → ls_map sb mr → trimmed mo → trimmed mr → ranges order →
  snapshot_writable env env_del mo mr → secret mb = secret ma →
  normalize_mode (mode mb) ≠ load_sharing →
  let exchange := peer_exchange env env_del now order in
  (∃ mb' sb' mr', request_snapshot env env_del exchange mb sb (ma, sa) now order = (mb', sb', (ma, sa), None) ∧
     ls_map sb' mr' ∧ replicates mo mr' ∧ snapshot_done mb' = true ∧
     applied_sequence mb' = Z.max (applied_sequence mb) (sync_sequence ma)) ∧
  (∃ mb' sb' mr', push_snapshot exchange ma sa (mb, sb) now = ((mb', sb'), None) ∧
     ls_map sb' mr' ∧ replicates mo mr' ∧ snapshot_done mb' = true ∧
     applied_sequence mb' = Z.max (applied_sequence mb) (sync_sequence ma)).
Proof.
  intros Ha Hb Hto Htr Hord Hw Hsec Hmode exchange.
  destruct (ls_list_all_law sa mo Ha) as (L & EL & _ & HL).
  assert (lists L mo) as Hlists by (split; [done|]; intros ip l; by apply (ls_keyed sa)).
  destruct (apply_snapshot_spec env env_del (mode mb) sb L mo mr order Hmode Hlists Hto Htr Hord Hb Hw)
    as (sb' & mr' & Es & Hs' & Hr').
  split; exists (update_sync_lag (mark_snapshot_done mb (sync_sequence ma)) (time_sub now now)), sb', mr'.
  - split; [|split_and!; [done|done|by apply mark_done_spec..]].
    unfold request_snapshot, exchange, peer_exchange, handle_conn, wire_sync. cbn [w_envelope w_sync fst snd sm_secret sm_type].
    rewrite Hsec, validate_same.
    rewrite (bool_decide_eq_false_2 (bs "snapshot_request" = bs "ping")) by (vm_compute; done).
    rewrite bool_decide_eq_true_2 by (apply (bool_decide_unpack _); vm_compute; done).
    unfold handle_sync. cbn [sm_type]. rewrite bool_decide_eq_true_2 by done. rewrite EL.
    cbn [sm_secret sm_type sm_leases sm_timestamp sm_sequence]. rewrite validate_same.
    rewrite (bool_decide_eq_true_2 (bs "snapshot" = bs "snapshot")) by done. cbn [negb]. rewrite Es.
    by rewrite update_mark_swap.
  - split; [|split_and!; [done|done|by apply mark_done_spec..]].
    unfold push_snapshot. rewrite EL. unfold send_sync_once, exchange, peer_exchange, handle_conn, wire_sync.
    cbn [w_envelope w_sync fst snd sm_secret sm_type]. rewrite <-Hsec, validate_same.
    rewrite (bool_decide_eq_false_2 (bs "snapshot_push" = bs "ping")) by (vm_compute; done).
    rewrite bool_decide_eq_true_2 by (apply (bool_decide_unpack _); vm_compute; done).
    unfold handle_sync. cbn [sm_type sm_leases sm_sequence sm_timestamp].
    rewrite (bool_decide_eq_false_2 (bs "snapshot_push" = bs "snapshot_request")) by (vm_compute; done).
    rewrite (bool_decide_eq_true_2 (bs "snapshot_push" = bs "snapshot_push")) by done. rewrite Es.
    cbn [reply_ack sm_secret]. by rewrite mark_done_secret, validate_same.
Qed.

(** C14: a replica follows the primary's feed.  Events that continue the sequence
    the replica has applied, sent one after another over the connection, are all
    applied: afterwards the replica's store holds what the events make of the
    primary's leases and its sequence is that of the last event.  No snapshot is
    needed. *)
Theorem replica_follows {S} `{U : UnicodeTables} `{LS : LeaseStore S} `{!LeaseStoreLaws S}
    env env_del now order ma mb (sa sb : S) mo mr q evts :
  should_replicate_local_changes ma = true → secret mb = secret ma →
  0 ≤ q → applied_sequence mb = q → consecutive q evts → Forall lease_event evts →
  ls_map sb mr → replicates mo mr → events_writable env env_del mr evts →
  ∃ ma' mb' sb' mr', sync_events env env_del now order ma sa (mb, sb) evts = (ma', (mb', sb')) ∧
    applied_sequence mb' = q + zlen evts ∧ ls_map sb' mr' ∧
    replicates (foldl apply_event mo evts) mr'.
Proof. apply sync_events_spec. Qed.

(** * Witnesses: the pair of [HaTheorems], with the engine's store *)

#[local] Existing Instance ascii_tables.
#[local] Existing Instance packed_lease.

Definition demo_env (_ : Lease) : ls_env (S := EngineStore) := mkWriteEnv (demo_now + minute) (demo_now + minute) [].
Definition demo_env_del (_ : bytes) : ls_env (S := EngineStore) := mkWriteEnv (demo_now + minute) (demo_now + minute) [].
Definition demo_values (m : lease_map) : list Lease := (map_to_list m).*2.

Lemma demo_ranges : ranges demo_values.
Proof. intros m _. done. Qed.

Lemma demo_trimmed : trimmed demo_map1.
Proof. apply map_Forall_singleton. vm_compute. done. Qed.

(** A lease the replica has and the primary has not. *)
Definition demo_stale : Lease := demo_lease <| l_ip := bs "10.0.0.99" |>.
Definition demo_replica : EngineStore := (upsert demo_store demo_stale true demo_now demo_now []).1.
Definition demo_replica_map : lease_map := {[ bs "10.0.0.99" := stored demo_now demo_stale ]}.

Lemma demo_replica_ok : store_map demo_replica demo_replica_map.
Proof.
  destruct (upsert_refines_lemma demo_store ∅ demo_stale true demo_now demo_now demo_store_map)
    as (s' & E & Hs); [apply upsert_ok_check; vm_compute; reflexivity|].
  unfold demo_replica. rewrite E. exact Hs.
Qed.

Lemma demo_writable l :
  bool_decide (trim_space (l_ip l) ≠ [] ∧ lease_packed_ok (stored (demo_now + minute) l) ∧
    lease_fits (stored (demo_now + minute) l) ∧
    zlen (pack (lease_fields (stored (demo_now + minute) l))) < 4294900000) = true →
  ls_writable (S := EngineStore) (mkWriteEnv (demo_now + minute) (demo_now + minute) []) l.
Proof. intros Hc. split; [done|]. by apply upsert_ok_check. Qed.

Lemma demo_snapshot_writable : snapshot_writable (S := EngineStore) demo_env demo_env_del demo_map1 demo_replica_map.
Proof.
  split.
  - apply map_Forall_singleton. apply demo_writable. vm_compute. reflexivity.
  - apply map_Forall_singleton. intros _. apply demo_writable. vm_compute. reflexivity.
Qed.

Lemma snapshot_replicates_witness :
  let ma := demo_a active_passive in
  let mb := demo_b active_passive <| role := RoleSecondary |> in
  let exchange := peer_exchange (S := EngineStore) demo_env demo_env_del (demo_now + minute) demo_values in
  (∃ mb' sb' mr', request_snapshot demo_env demo_env_del exchange mb demo_replica (ma, demo_store1)
       (demo_now + minute) demo_values = (mb', sb', (ma, demo_store1), None) ∧
     ls_map sb' mr' ∧ replicates demo_map1 mr' ∧ snapshot_done mb' = true ∧
     applied_sequence mb' = Z.max (applied_sequence mb) (sync_sequence ma)) ∧
  (∃ mb' sb' mr', push_snapshot exchange ma demo_store1 (mb, demo_replica) (demo_now + minute)
       = ((mb', sb'), None) ∧
     ls_map sb' mr' ∧ replicates demo_map1 mr' ∧ snapshot_done mb' = true ∧
     applied_sequence mb' = Z.max (applied_sequence mb) (sync_sequence ma)).
Proof.
  intros ma mb.
  refine (snapshot_replicates (S := EngineStore) demo_env demo_env_del ma mb demo_store1 demo_replica
    demo_map1 demo_replica_map (demo_now + minute) demo_values _ _ _ _ _ _ _ _).
  - apply demo_store1_map.
  - apply demo_replica_ok.
  - apply demo_trimmed.
  - apply map_Forall_singleton. vm_compute. done.
  - apply demo_ranges.
  - apply demo_snapshot_writable.
  - vm_compute. reflexivity.
  - vm_compute. discriminate.
Defined.

(** The primary writes a lease and deletes another, the replica has both. *)
Definition demo_events : list MutationEvent :=
  [mkMutationEvent 5 demo_now OpPut (bs "10.0.0.10") (Some (stored demo_now demo_lease));
   mkMutationEvent 6 demo_now OpDel (bs "10.0.0.99") None].

Lemma replica_follows_witness :
  let ma := demo_a active_passive in
  let mb := demo_b active_passive <| role := RoleSecondary |> <| applied_sequence := 4 |> in
  ∃ ma' mb' sb' mr', sync_events (S := EngineStore) demo_env demo_env_del (demo_now + minute) demo_values
      ma demo_store1 (mb, demo_replica) demo_events = (ma', (mb', sb')) ∧
    applied_sequence mb' = 4 + zlen demo_events ∧ ls_map sb' mr' ∧
    replicates (foldl apply_event {[ bs "10.0.0.99" := demo_stale ]} demo_events) mr'.
Proof.
  intros ma mb.
  refine (replica_follows (S := EngineStore) demo_env demo_env_del (demo_now + minute) demo_values ma mb
    demo_store1 demo_replica {[ bs "10.0.0.99" := demo_stale ]} demo_replica_map 4 demo_events _ _ _ _ _ _ _ _ _).
  - vm_compute. reflexivity.
  - vm_compute. reflexivity.
  - vm_compute. discriminate.
  - vm_compute. reflexivity.
  - vm_compute. done.
  - constructor; [|constructor; [|constructor]].
    + left. by eexists.
    + right. split; [done|vm_compute; discriminate].
  - apply demo_replica_ok.
  - intros ip. unfold demo_replica_map. destruct (decide (ip = bs "10.0.0.99")) as [-> |Hne].
    + rewrite !lookup_singleton_eq. constructor. by exists demo_now.
    + rewrite !lookup_singleton_ne by done. constructor.
  - split; [|split; [|done]].
    + unfold event_writable. cbn [me_op me_lease]. rewrite bool_decide_eq_true_2 by done.
      apply demo_writable. vm_compute. reflexivity.
    + unfold event_writable. cbn [me_op me_lease]. rewrite bool_decide_eq_false_2 by (vm_compute; discriminate).
      unfold replica_event. cbn [me_op me_lease me_ip]. rewrite bool_decide_eq_true_2 by done.
      rewrite lookup_insert_ne by (vm_compute; discriminate). unfold demo_replica_map.
      intros l Hl. rewrite lookup_singleton_eq in Hl. injection Hl as <-. apply demo_writable. vm_compute. reflexivity.
Defined.
