(* ===== verification/ConfigTheorems.v ===== *)
(** What the rest of the program gets from a configuration that passes
    [Validate]: pools that share no address, and an inventory that can be seeded. *)

From S2P Require Import Prelude.
From S2P Require Import GoBytes.
From S2P Require Import GoStrings.
From S2P Require Import GoTime.
From S2P Require Import GoJson.
From S2P Require Import GoNet.
From S2P Require Import GoNet6.
From S2P Require Import GoPrefix.
From S2P Require Import GoPort.
From S2P Require Import GoSort.
From S2P Require Import GoParse.
From S2P Require Import IpamCidr.
From S2P Require Import ConfigTypes.
From S2P Require Import ConfigEnv.
From S2P Require Import ConfigValidate.
From S2P Require Import Wal.
From S2P Require Import StorageEngine.
From S2P Require Import StorageSpec.
From S2P Require Import StorageTheorems.
From S2P Require Import RowTable.
From S2P Require Import Lease.
From S2P Require Import LeaseStore.
From S2P Require Import LeaseInterface.
From S2P Require Import LeaseTheorems.
From S2P Require Import Ipam.
From S2P Require Import IpamSpec.
From S2P Require Import IpamOps.
From S2P Require Import IpamTheorems.
From S2P Require Import Dhcp4Pool.
From S2P Require Import Dhcp4PoolSpec.
From S2P Require Import Dhcp4Spec.
From S2P Require Import Dhcp6Pool.

Section subnets.
Context `{UnicodeTables} `{Services} `{UrlParse}.

(** * What [Validate] says of the subnets *)

Lemma check_nil b msg : check b msg = [] ↔ b = false.
Proof. by destruct b. Qed.

Lemma collect_nil {A} (f : nat → A → list bytes) l : ∀ i,
  collect f i l = [] → ∀ j a, l !! j = Some a → f (i + j)%nat a = [].
Proof.
  induction l as [|x l IH]; intros i E j a Hj; [done|]. cbn [collect] in E. apply app_eq_nil in E as [E1 E2].
  destruct j as [|j]; simpl in Hj.
  - injection Hj as <-. by rewrite Nat.add_0_r.
  - rewrite Nat.add_succ_r. by apply (IH (S i)).
Qed.

(** A subnet that passes, with its prefix. *)
Record subnet_valid (s : SubnetConfig) (p : prefix) : Prop := {
  sd_parse : parse_prefix (sc_cidr s) = Ok p;
  sd_gateway : sc_gateway s = [] ∨ ∃ g, parse_addr (sc_gateway s) = Ok g ∧ member p g;
  sd_reservations r : r ∈ sc_reservations s →
    is_Some (parse_mac (rc_mac r)) ∧ ∃ a, parse_addr (rc_ip r) = Ok a ∧ member p a;
  sd_pool : sc_dhcp_enabled s = true →
    ∃ a b, parse_addr (sc_pool_start s) = Ok a ∧ parse_addr (sc_pool_end s) = Ok b ∧
      member p a ∧ member p b ∧ addr_gt a b = false ∧
      0 ≤ sc_lease_time s ∧ 0 ≤ sc_max_lease_time s ∧
      (0 < sc_lease_time s → 0 < sc_max_lease_time s → sc_lease_time s ≤ sc_max_lease_time s);
}.

Lemma prefixes_overlap_overlaps p q : prefixes_overlap p q = overlaps (Some p) (Some q).
Proof. done. Qed.

Lemma check_app_nil b msg r : check b msg ++ r = [] ↔ b = false ∧ r = [].
Proof. destruct b; simpl; [by split; [|intros []]|tauto]. Qed.

Lemma validate_one_valid i p s :
  parse_prefix (sc_cidr s) = Ok p → validate_gateway p i (sc_gateway s) = [] →
  collect (validate_reservation_config p i) 0 (sc_reservations s) = [] → validate_subnet_dhcp p i s = [] →
  subnet_valid s p.
Proof.
  intros Hp Hg Hr Hd. split; [done| | |].
  - unfold validate_gateway in Hg. case_bool_decide as E; [by left|right].
    destruct (parse_addr (sc_gateway s)) as [g| |] eqn:Eg; [|done..]. exists g. split; [done|].
    apply check_nil in Hg. eapply parsed_member; [done|]. by destruct (prefix_contains p g).
  - intros r [j Hj]%list_elem_of_lookup. pose proof (collect_nil _ _ 0%nat Hr j r Hj) as E.
    unfold validate_reservation_config in E. apply check_app_nil in E as [Em E].
    apply bool_decide_eq_false in Em. split; [by destruct (parse_mac (rc_mac r))|].
    destruct (parse_addr (rc_ip r)) as [a| |] eqn:Ea; [|done..]. exists a. split; [done|].
    apply check_nil in E. eapply parsed_member; [done|]. by destruct (prefix_contains p a).
  - intros En. unfold validate_subnet_dhcp in Hd. rewrite En in Hd.
    destruct (parse_addr (sc_pool_start s)) as [a| |] eqn:Ea; [|done..].
    destruct (parse_addr (sc_pool_end s)) as [b| |] eqn:Eb; [|done..].
    rewrite <-!app_assoc in Hd. apply check_app_nil in Hd as [Hc Hd]. apply check_app_nil in Hd as [Hgt Hd].
    apply check_app_nil in Hd as [Hl Hm]. apply check_nil in Hm. exists a, b.
    assert (prefix_contains p a = true ∧ prefix_contains p b = true) as [Ca Cb].
    { destruct (prefix_contains p a), (prefix_contains p b); done. }
    split; [done|]. split; [done|]. split; [by eapply parsed_member|]. split; [by eapply parsed_member|].
    split; [done|]. apply orb_false_iff in Hl as [Hl Hl']. split; [by apply Z.ltb_ge in Hl|].
    split; [by apply Z.ltb_ge in Hl'|]. intros Hl1 Hl2. destruct (Z.ltb_spec 0 (sc_lease_time s)); [|lia].
    destruct (Z.ltb_spec 0 (sc_max_lease_time s)); [|lia]. by apply Z.ltb_ge.
Qed.

(** The subnets are valid, and share no address with each other or the prefixes before them. *)
Lemma validate_subnets_spec subnets : ∀ i ps,
  Forall prefix_wf ps → validate_subnets i ps subnets = [] →
  ∃ qs, Forall2 subnet_valid subnets qs ∧
    (∀ j k p q a, (ps ++ qs) !! j = Some p → qs !! k = Some q → j ≠ (length ps + k)%nat →
       member p a → member q a → False).
Proof.
  induction subnets as [|s rest IH]; intros i ps Hps E.
  { exists []. split; [constructor|]. by intros j k p q a _ Hk. }
  cbn [validate_subnets] in E. destruct (parse_prefix (sc_cidr s)) as [p| |] eqn:Ep; [|done..].
  apply app_eq_nil in E as [Eo E]. apply app_eq_nil in E as [Eg E]. apply app_eq_nil in E as [Er E].
  apply app_eq_nil in E as [Ed E]. pose proof (parse_prefix_wf _ _ Ep) as Hp.
  destruct (IH (S i) (ps ++ [p])) as (qs & Hqs & Hdis); [apply Forall_app; split; [done|by constructor]|done|].
  exists (p :: qs). split; [constructor; [by eapply validate_one_valid|done]|].
  assert (Hold : ∀ j q a, ps !! j = Some q → member q a → member p a → False).
  { intros j q a Hj Mq Mp. pose proof (collect_nil _ _ 0%nat Eo j q Hj) as Hc. apply check_nil in Hc.
    rewrite prefixes_overlap_overlaps in Hc.
    assert (overlaps (Some p) (Some q) = true) as Ht; [|congruence].
    apply overlaps_spec; [done| |by exists a]. rewrite Forall_lookup in Hps. by eapply Hps. }
  intros j k q q' a Hj Hk Hne Ma Ma'. destruct k as [|k]; simpl in Hk.
  - injection Hk as <-. destruct (decide (j < length ps)%nat) as [Hlt|Hge].
    + rewrite lookup_app_l in Hj by done. by eapply Hold.
    + rewrite lookup_app_r in Hj by lia. destruct (j - length ps)%nat as [|j'] eqn:Ej; [lia|]. simpl in Hj.
      eapply (Hdis (length ps) j' p q a); [| |rewrite length_app; simpl; lia|done..].
      * rewrite <-app_assoc. rewrite lookup_app_r by lia. by rewrite Nat.sub_diag.
      * done.
  - eapply (Hdis j k q q' a); [by rewrite <-app_assoc|done| |done..]. rewrite length_app. simpl. lia.
Qed.

(** The subnets of a configuration that passes. *)
Lemma validate_config_subnets c :
  validate c = None → ∃ qs, Forall2 subnet_valid (cf_subnets c) qs ∧
    ∀ j k p q a, qs !! j = Some p → qs !! k = Some q → member p a → member q a → j = k.
Proof.
  unfold validate, validation_messages. intros E.
  destruct (_ ++ _) as [|x l] eqn:Em in E; [|done]. clear E. repeat apply app_eq_nil in Em as [? Em].
  destruct (validate_subnets_spec _ _ [] ltac:(constructor) Em) as (qs & Hqs & Hdis).
  exists qs. split; [done|]. intros j k p q a Hj Hk Ma Ma'. destruct (decide (j = k)) as [|Hne]; [done|].
  exfalso. by eapply (Hdis j k p q a).
Qed.
End subnets.

(** * The pools *)

Section pools.
Context (subnets : list SubnetConfig) (qs : list prefix).
Context (Hvalid : Forall2 subnet_valid subnets qs).
Context (Hdisjoint : ∀ j k p q a, qs !! j = Some p → qs !! k = Some q → member p a → member q a → j = k).

(** A subnet with DHCP has IPv4 addresses. *)
Definition serves_v4 (s : SubnetConfig) : Prop :=
  sc_dhcp_enabled s = true → ∀ p, parse_prefix (sc_cidr s) = Ok p → is4 (p_addr p) = true.

(** Every pool is that of a subnet, and inside its prefix. *)
Definition pools_from (pm : PoolManager) : Prop :=
  ∀ id p, pm_pools pm !! id = Some p →
    ∃ j s q, subnets !! j = Some s ∧ qs !! j = Some q ∧ id = sc_cidr s ∧
      ∀ v, in_range p v → member q (A4 (be_put 4 v)).

Lemma pools_from_disjoint pm : pools_from pm → pm_disjoint pm.
Proof.
  intros Hpm id id' p p' v Hp Hp' Hv Hv'.
  destruct (Hpm id p Hp) as (j & s & q & Hs & Hq & -> & Hin).
  destruct (Hpm id' p' Hp') as (k & s' & q' & Hs' & Hq' & -> & Hin').
  assert (j = k) as -> by (eapply Hdisjoint; [exact Hq|exact Hq'|by apply Hin|by apply Hin']). congruence.
Qed.

Lemma member_v4 q a : prefix_wf q → is4 (p_addr q) = true → member q a →
  ∃ x, a = A4 x ∧ as4 a = Ok x ∧ length x = 4%nat.
Proof.
  intros Hq H4 Ma. pose proof (member_is4 q a Hq Ma) as E. rewrite H4 in E.
  destruct a as [x|x z]; [|done]. exists x. destruct Ma as [Wa _]. split; [done|]. split; [done|]. exact Wa.
Qed.

Lemma add_subnet_valid default pm j s q :
  subnets !! j = Some s → qs !! j = Some q → serves_v4 s → pools_from pm →
  ∃ pm', add_subnet default pm s = Ok pm' ∧ pools_from pm' ∧
    (∀ id, is_Some (pm_pools pm !! id) → is_Some (pm_pools pm' !! id)) ∧
    (sc_dhcp_enabled s = true → is_Some (pm_pools pm' !! sc_cidr s)).
Proof.
  intros Hj Hq H4 Hpm. pose proof (Forall2_lookup_lr _ _ _ _ _ _ Hvalid Hj Hq) as Hs.
  unfold add_subnet. destruct (sc_dhcp_enabled s) eqn:En; cbn [negb]; [|by exists pm].
  rewrite (sd_parse _ _ Hs). cbn [mbind result_bind].
  destruct (sd_pool _ _ Hs En) as (a & b & -> & -> & Ma & Mb & Hgt & _). cbn [mbind result_bind].
  pose proof (parse_prefix_wf _ _ (sd_parse _ _ Hs)) as Hwf. specialize (H4 En q (sd_parse _ _ Hs)).
  destruct (member_v4 q a Hwf H4 Ma) as (x & -> & -> & Lx).
  destruct (member_v4 q b Hwf H4 Mb) as (y & -> & -> & Ly). cbn [mbind result_bind].
  pose proof (range_value (A4 x) (A4 y) Lx Ly eq_refl Hgt) as Hle. change (be_get x ≤ be_get y) in Hle.
  unfold ipv4_to_uint32. rewrite (proj2 (Z.ltb_ge _ _)) by lia. eexists. split; [done|]. split; [|split].
  - intros id p Hp. cbn [pm_pools sp_id] in Hp. apply lookup_insert_Some in Hp as [[<- <-]|[_ Hp]]; [|by apply Hpm].
    exists j, s, q. split; [done|]. split; [done|]. split; [done|]. unfold in_range. cbn [sp_start sp_end]. intros v Hv.
    apply member_interval in Ma as (_ & _ & _ & Ra), Mb as (_ & _ & _ & Rb); [|done..].
    unfold addr_value in Ra, Rb. cbn [as_slice] in Ra, Rb.
    destruct (member_of_value q v Hwf) as [Hm _]; [lia|]. by rewrite H4 in Hm.
  - intros id Hid. cbn. apply lookup_insert_is_Some'. by right.
  - intros _. cbn. by rewrite lookup_insert_eq.
Qed.

Lemma add_subnets_valid default rest : ∀ pre pm,
  subnets = pre ++ rest → Forall serves_v4 rest → pools_from pm →
  ∃ pm', add_subnets default pm rest = Ok pm' ∧ pools_from pm' ∧
    (∀ id, is_Some (pm_pools pm !! id) → is_Some (pm_pools pm' !! id)) ∧
    ∀ s, s ∈ rest → sc_dhcp_enabled s = true → is_Some (pm_pools pm' !! sc_cidr s).
Proof.
  induction rest as [|s rest IH]; intros pre pm Heq H4 Hpm.
  { exists pm. split; [done|]. split; [done|]. split; [done|]. by intros s ?%elem_of_nil. }
  apply Forall_cons in H4 as [Hs4 H4]. assert (Hj : subnets !! length pre = Some s) by (rewrite Heq; by apply list_lookup_middle).
  destruct (Forall2_lookup_l _ _ _ _ _ Hvalid Hj) as (q & Hq & _).
  destruct (add_subnet_valid default pm _ s q Hj Hq Hs4 Hpm) as (pm1 & E1 & Hpm1 & Hk1 & Hen1).
  destruct (IH (pre ++ [s]) pm1) as (pm2 & E2 & Hpm2 & Hk2 & Hen2); [by rewrite <-app_assoc|done..|].
  exists pm2. cbn [add_subnets]. rewrite E1. cbn [mbind result_bind]. split; [done|]. split; [done|]. split; [auto|].
  intros s' [-> |Hs']%elem_of_cons En; [by apply Hk2, Hen1|by apply Hen2].
Qed.

(** The texts the DHCPv6 pools trim. *)
Definition tidy (s : SubnetConfig) : Prop :=
  trim_space (sc_cidr s) = sc_cidr s ∧ trim_space (sc_gateway s) = sc_gateway s ∧
  trim_space (sc_pool_start s) = sc_pool_start s ∧ trim_space (sc_pool_end s) = sc_pool_end s.

Lemma new_pool6_valid default s q :
  subnet_valid s q → tidy s → ∃ o, new_pool6 default s = Ok o ∧
    (is_Some o ↔ sc_dhcp_enabled s = true ∧ is6 (p_addr q) = true).
Proof.
  intros Hs (Tc & Tg & Ts & Te). unfold new_pool6. rewrite Tc, (sd_parse _ _ Hs).
  destruct (is6 (p_addr q)); cbn [negb]; [|by exists None; split; [|split; [intros []|intros []]]].
  destruct (sc_dhcp_enabled s) eqn:En; cbn [negb]; [|by exists None; split; [|split; [intros []|intros []]]].
  destruct (sd_pool _ _ Hs En) as (a & b & Ea & Eb & [_ Ca] & [_ Cb] & Hgt & _).
  rewrite Ts, Te, Ea, Eb, Ca, Cb. unfold addr_gt in Hgt. rewrite Hgt. cbn. eexists. split; [done|]. by split; [|eexists].
Qed.

Lemma new_pools6_valid default : Forall tidy subnets → ∃ pools, new_pools6 default subnets = Ok pools.
Proof.
  clear Hdisjoint. induction Hvalid as [|s q ss qs' Hs _ IH]; intros Ht; [by exists []|].
  apply Forall_cons in Ht as [Hs' Ht]. destruct (new_pool6_valid default s q Hs Hs') as (o & Eo & _).
  edestruct IH as [pools Ep]; [by inversion Hvalid|done|]. cbn [new_pools6]. rewrite Eo. cbn [mbind result_bind]. rewrite Ep. by eexists.
Qed.
End pools.

(** * Seeding the inventory *)

Section seed.
Context `{UnicodeTables} `{SliceSort} `{Json Subnet} `{Json Reservation} `{Json AddressRecord}.
Context (subnets : list SubnetConfig) (qs : list prefix) (now : time).
Context (Hvalid : Forall2 subnet_valid subnets qs).
Context (Hdisjoint : ∀ j k p q a, qs !! j = Some p → qs !! k = Some q → member p a → member q a → j = k).

(** The row of a configured subnet. *)
Definition seed_row (s : SubnetConfig) (q : prefix) : Subnet :=
  mkSubnet (prefix_string (prefix_masked q)) (trim_space (sc_name s)) (sc_vlan s) (sc_gateway s)
    (normalize_dns (sc_dns s))
    (mkDHCPPool (sc_dhcp_enabled s) (sc_pool_start s) (sc_pool_end s)
       (default_lease_sec (us_lease_sec (seed_input s)))) now now.

Definition vlan_ok (s : SubnetConfig) : Prop := 0 ≤ sc_vlan s ≤ 4094.

Lemma seed_input_valid s q :
  subnet_valid s q → tidy s → vlan_ok s →
  ∃ n, validate_subnet_input (seed_input s) = Ok n ∧ sn_cidr n = prefix_string (prefix_masked q) ∧
    (n <| sn_created_at := now |> <| sn_updated_at := now |>) = seed_row s q.
Proof.
  intros Hs (Tc & Tg & Ts & Te) Hv. unfold validate_subnet_input, seed_input. cbn [us_cidr us_name us_vlan us_gateway
    us_dns us_dhcp_enable us_pool_start us_pool_end us_lease_sec]. rewrite Tc, (sd_parse _ _ Hs), Tg, Ts, Te.
  assert (Hgw : (if bool_decide (sc_gateway s = []) then None
    else match parse_addr (sc_gateway s) with
         | Ok gw => if prefix_contains q gw then None else Some (errorNew "gateway outside subnet")
         | _ => Some (errorNew "invalid gateway")
         end) = None).
  { case_bool_decide as Hg; [done|]. destruct (sd_gateway _ _ Hs) as [|(g & -> & [_ ->])]; done. }
  rewrite Hgw.
  assert (Hrange : (if negb (sc_dhcp_enabled s) then None
    else match parse_addr (sc_pool_start s) with
         | Ok start =>
             match parse_addr (sc_pool_end s) with
             | Ok end_ =>
                 if negb (prefix_contains q start) || negb (prefix_contains q end_)
                 then Some (errorNew "pool range outside subnet")
                 else if addr_gt start end_ then Some (errorNew "pool_start must be <= pool_end")
                 else None
             | _ => Some (errorNew "invalid pool_end")
             end
         | _ => Some (errorNew "invalid pool_start")
         end) = None).
  { destruct (sc_dhcp_enabled s) eqn:En; cbn [negb]; [|done].
    destruct (sd_pool _ _ Hs En) as (a & b & -> & -> & [_ ->] & [_ ->] & -> & _). done. }
  rewrite Hrange. rewrite (proj2 (Z.ltb_ge _ _)), (proj2 (Z.ltb_ge _ _)) by (unfold vlan_ok in Hv; lia).
  cbn [orb]. eexists. split; [done|]. split; [done|]. done.
Qed.

(** The rows fit the log. *)
Definition seed_fits : Prop := ∀ j s q, subnets !! j = Some s → qs !! j = Some q →
  row_fits (sn_cidr (seed_row s q)) (seed_row s q).

(** The table holds only subnets of the configuration before [n]. *)
Definition seeded (n : nat) (t : Tables) : Prop :=
  ∀ k, k ∈ dom (t_subnets t) → ∃ j q, (j < n)%nat ∧ qs !! j = Some q ∧ k = prefix_string (prefix_masked q).

Lemma seeded_disjoint n t j k q p' a :
  seeded n t → (n ≤ j)%nat → qs !! j = Some q → prefix_wf q → (∀ i q', qs !! i = Some q' → prefix_wf q') →
  k ∈ dom (t_subnets t) → parse_prefix k = Ok p' → member p' a → member q a → False.
Proof.
  intros Hsd Hle Hq Hwf Hall Hk Hp' Ma Mb. destruct (Hsd k Hk) as (i & q' & Hi & Hq' & ->).
  pose proof (Hall _ _ Hq') as Hwf'. destruct (prefix_masked_spec q' Hwf') as (Hm & _).
  rewrite parse_prefix_string in Hp' by done. injection Hp' as <-.
  rewrite member_masked in Ma by done. pose proof (Hdisjoint _ _ _ _ _ Hq' Hq Ma Mb). lia.
Qed.

Lemma seed_one e t n s q :
  ipam_view e t → tables_ok t → seeded n t → subnets !! n = Some s → qs !! n = Some q →
  tidy s → vlan_ok s → seed_fits →
  ∃ e' t' row, upsert_subnet e (seed_input s) now now [] = (e', Ok row) ∧
    (∀ old, get_subnet e (sc_cidr s) ≠ Ok old) ∧
    ipam_view e' t' ∧ tables_ok t' ∧ seeded (S n) t' ∧
    (∀ k, k ∈ dom (t_subnets t) → k ∈ dom (t_subnets t')) ∧ t_subnets t' !! prefix_string (prefix_masked q) = Some (seed_row s q).
Proof.
  intros Hv Hok Hsd Hs Hq Ht Hvlan Hfits. pose proof (Forall2_lookup_lr _ _ _ _ _ _ Hvalid Hs Hq) as Hsv.
  pose proof (parse_prefix_wf _ _ (sd_parse _ _ Hsv)) as Hwf. destruct (prefix_masked_spec q Hwf) as (Hm & _).
  assert (Hall : ∀ i q', qs !! i = Some q' → prefix_wf q').
  { intros i q' Hi. destruct (Forall2_lookup_r _ _ _ _ _ Hvalid Hi) as (s' & _ & Hs'). by eapply parse_prefix_wf, Hs'. }
  assert (Hget : ∀ k p, parse_prefix k = Ok p → trim_space k = k → (∀ a, member p a ↔ member q a) →
    get_subnet e k = Err ErrNotFound).
  { intros k p Hk Htrim Hpq. unfold get_subnet. rewrite Htrim, (row_get_table _ _ (t_subnets t)) by apply Hv.
    destruct (t_subnets t !! k) as [old|] eqn:Eo; [|done]. exfalso.
    pose proof (masked_addr_member p (parse_prefix_wf _ _ Hk)) as Mp.
    eapply (seeded_disjoint n t n k q p); try done; [by apply elem_of_dom; eexists|by apply Hpq]. }
  destruct (seed_input_valid s q Hsv Ht Hvlan) as (row & Ei & Ec & Erow).
  assert (Hp : parse_prefix (sn_cidr row) = Ok (prefix_masked q)) by (rewrite Ec; by apply parse_prefix_string).
  assert (Evs : validate_subnet e (seed_input s) = Ok row).
  { apply (validate_subnet_iff e _ _ _ (seed_input s) row _ Hv (to_subnets _ Hok) Ei Hp).
    intros k p' a Hk _ Hp' Ma Mb. rewrite member_masked in Mb by done. by eapply (seeded_disjoint n t n k q p' a). }
  assert (Ecr : get_subnet e (sn_cidr row) = Err ErrNotFound).
  { apply (Hget _ (prefix_masked q) Hp); [|by intros; apply member_masked].
    rewrite Ec. by apply trim_prefix_string. }
  assert (Ew : subnet_to_write e (seed_input s) now = Some (seed_row s q)).
  { unfold subnet_to_write. rewrite Evs, Ecr. by rewrite <-Erow. }
  pose proof (run_op_effect e t (OpSubnet (seed_input s)) now now Hv) as Hrun.
  cbn [op_fits ipam_effect run_op] in Hrun. rewrite Ew in Hrun. cbn [mbind option_bind] in Hrun.
  destruct Hrun as (e' & E & Hv').
  { intros x [= <-]. by eapply Hfits. }
  destruct (upsert_subnet e (seed_input s) now now []) as [e1 r] eqn:Eu. destruct r as [row'| |]; [|done..].
  injection E as ->. eexists e', _, row'. split; [done|].
  split; [intros old; by rewrite (Hget (sc_cidr s) q (sd_parse _ _ Hsv) (proj1 Ht))|].
  split; [exact Hv'|]. split.
  - eapply (ipam_effect_ok e t _ (OpSubnet (seed_input s)) now Hv Hok). cbn [ipam_effect]. by rewrite Ew.
  - cbn [t_subnets]. split; [|split].
    + intros k. cbn [t_subnets]. rewrite dom_insert, elem_of_union, elem_of_singleton. intros [-> |Hk].
      * exists n, q. split; [lia|]. done.
      * destruct (Hsd k Hk) as (j & q' & Hj & ?). exists j, q'. split; [lia|done].
    + intros k Hk. rewrite dom_insert. by apply elem_of_union_r.
    + by rewrite lookup_insert_eq.
Qed.

Lemma seed_loop rest : ∀ pre e t,
  subnets = pre ++ rest → Forall tidy rest → Forall vlan_ok rest → seed_fits →
  ipam_view e t → tables_ok t → seeded (length pre) t →
  ∃ e' t', seed_from_config e rest now [] = (e', None) ∧ ipam_view e' t' ∧ tables_ok t' ∧
    (∀ k, k ∈ dom (t_subnets t) → k ∈ dom (t_subnets t')) ∧
    ∀ s q, s ∈ rest → parse_prefix (sc_cidr s) = Ok q → prefix_string (prefix_masked q) ∈ dom (t_subnets t').
Proof.
  induction rest as [|s rest IH]; intros pre e t Heq Ht Hvl Hf Hv Hok Hsd.
  { exists e, t. split; [done|]. split; [done|]. split; [done|]. split; [done|]. by intros s q ?%elem_of_nil. }
  apply Forall_cons in Ht as [Hts Ht]. apply Forall_cons in Hvl as [Hvs Hvl].
  assert (Hj : subnets !! length pre = Some s) by (rewrite Heq; by apply list_lookup_middle).
  destruct (Forall2_lookup_l _ _ _ _ _ Hvalid Hj) as (q & Hq & Hs).
  destruct (seed_one e t (length pre) s q Hv Hok Hsd Hj Hq Hts Hvs Hf)
    as (e1 & t1 & row & Eu & Hget & Hv1 & Hok1 & Hsd1 & Hk1 & Hrow).
  destruct (IH (pre ++ [s]) e1 t1) as (e2 & t2 & E2 & Hv2 & Hok2 & Hk2 & Hin2); try done.
  { by rewrite <-app_assoc. }
  { rewrite length_app. simpl. by rewrite Nat.add_1_r. }
  exists e2, t2. cbn [seed_from_config]. rewrite (proj1 Hts).
  rewrite bool_decide_eq_false_2.
  2:{ intros E. pose proof (sd_parse _ _ Hs) as Hp. rewrite E in Hp. by vm_compute in Hp. }
  destruct (get_subnet e (sc_cidr s)) as [old| |] eqn:Eg; [by destruct (Hget old)| |];
    cbn [hd]; rewrite Eu; cbn [tl]; (split; [done|]; split; [done|]; split; [done|]; split; [auto|]);
    (intros s' q' [-> |Hs']%elem_of_cons Hp'; [|by eapply Hin2]);
    apply Hk2, elem_of_dom; rewrite (sd_parse _ _ Hs) in Hp'; injection Hp' as <-; by eexists.
Qed.
End seed.

(** * The theorems *)

(** C18: what a configuration that passes [Validate] gives the rest of the program.
    Its prefixes parse and share no address, whichever way round they are compared;
    each gateway and reservation lies inside its prefix, each pool begins and ends
    inside it in that order, and the lease times are not negative and ordered
    ([subnet_valid]).  So, when the subnets with DHCP are IPv4 ones whose ranges do not
    start at 0.0.0.0, [NewPoolManager] adds them all: every such subnet has a pool,
    each pool is a range inside the prefix of its subnet, and no address is in two of
    them, which is what the allocation theorems assume.  And when the texts carry no
    surrounding space, the DHCPv6 pools are built without error.  [Validate] does not
    ask for either condition: [dual_stack_config_panics] below passes it and stops
    the DHCPv4 server. *)
Theorem validated_config_pools `{UnicodeTables} `{Services} `{UrlParse} c default :
  validate c = None →
  (∃ qs, Forall2 subnet_valid (cf_subnets c) qs ∧
    (∀ j k p q a, qs !! j = Some p → qs !! k = Some q → member p a → member q a → j = k) ∧
    (Forall serves_v4 (cf_subnets c) → Forall starts_positive (cf_subnets c) →
      ∃ pm, add_subnets default (mkPoolManager ∅ []) (cf_subnets c) = Ok pm ∧ pm_ok pm ∧ pm_disjoint pm ∧
        pools_from (cf_subnets c) qs pm ∧
        ∀ s, s ∈ cf_subnets c → sc_dhcp_enabled s = true → is_Some (pm_pools pm !! sc_cidr s))) ∧
  (Forall tidy (cf_subnets c) → ∃ pools, new_pools6 default (cf_subnets c) = Ok pools).
Proof.
  intros (qs & Hvalid & Hdis)%validate_config_subnets.
  split; [|intros Ht; by eapply new_pools6_valid]. exists qs. split; [done|]. split; [done|].
  intros H4 Hpos. destruct (add_subnets_valid (cf_subnets c) qs Hvalid default (cf_subnets c) [] (mkPoolManager ∅ []))
    as (pm & E & Hpm & _ & Hen); [done|done|by intros id p; cbn; rewrite lookup_empty|].
  exists pm. split; [done|]. split; [|split; [by eapply pools_from_disjoint|done]].
  eapply add_subnets_ok; [done| |exact E]. split; [done|]. by intros id ?%elem_of_nil.
Qed.

(** A configuration that passes [Validate] can be seeded into an empty
    inventory: when its VLANs are in range, its texts carry no surrounding space
    and its rows fit the log, [SeedFromConfig] succeeds, every configured subnet is
    a row keyed by the text of its masked prefix, and the tables are well formed.
    [Validate] itself does not look at the VLAN. *)
Theorem validated_config_seeds `{UnicodeTables} `{Services} `{UrlParse} `{SliceSort} `{Json Subnet}
    `{Json Reservation} `{Json AddressRecord} c e now :
  validate c = None → Forall tidy (cf_subnets c) → Forall vlan_ok (cf_subnets c) →
  (∀ s q, s ∈ cf_subnets c → parse_prefix (sc_cidr s) = Ok q → row_fits (sn_cidr (seed_row now s q)) (seed_row now s q)) →
  ipam_view e (mkTables ∅ ∅ ∅) →
  ∃ e' t', seed_from_config e (cf_subnets c) now [] = (e', None) ∧ ipam_view e' t' ∧ tables_ok t' ∧
    ∀ s q, s ∈ cf_subnets c → parse_prefix (sc_cidr s) = Ok q → prefix_string (prefix_masked q) ∈ dom (t_subnets t').
Proof.
  intros (qs & Hvalid & Hdis)%validate_config_subnets Ht Hvl Hf Hv.
  destruct (seed_loop (cf_subnets c) qs now Hvalid Hdis (cf_subnets c) [] e (mkTables ∅ ∅ ∅))
    as (e' & t' & E & Hv' & Hok' & _ & Hin); [done..| |done|apply empty_tables_ok| |by exists e', t'].
  - intros j s q Hs Hq. apply Hf; [by eapply list_elem_of_lookup_2|].
    by apply (Forall2_lookup_lr _ _ _ _ _ _ Hvalid Hs Hq).
  - intros k Hk. cbn in Hk. by rewrite dom_empty in Hk.
Qed.

(** [ApplyEnvOverrides] sets exactly the fields whose variables are set.  The
    variable of a field is the path of its yaml names in upper case under
    [MONSOON]; when the override succeeds, every field of the configuration has
    become what its variable parses to, or is as it was when the variable is not
    set, and the subnets and webhooks are untouched. *)
Theorem env_overrides_exact `{UnicodeTables} lookup_env c c' :
  apply_env_overrides lookup_env c = Ok c' →
  cf_subnets c' = cf_subnets c ∧ cf_webhooks c' = cf_webhooks c ∧
  ∀ path x name, leaf (config_value c) (bs "MONSOON") path = Some (x, name) →
    ∃ x', overridden lookup_env x name = Ok x' ∧
      leaf (config_value c') (bs "MONSOON") path = Some (x', name).
Proof.
  unfold apply_env_overrides. intros (v & Ev & E)%bind_ok. injection E as <-. split; [done|]. split; [done|].
  intros path x name Hl. rewrite (config_value_of _ _ _ Ev). by eapply apply_env_leaf.
Qed.

(** * Witnesses *)

#[local] Existing Instance ascii_tables.
#[local] Existing Instance small_slices.
#[local] Existing Instance no_services.
#[local] Existing Instance packed_subnet.
#[local] Existing Instance packed_reservation.
#[local] Existing Instance packed_address.

(** URLs of the form [scheme://host]. *)
Definition simple_urls : UrlParse := {|
  url_parse := λ s,
    match cut_last s colon with
    | Some (scheme, rest) => Some (scheme, drop 2 rest)
    | None => None
    end;
|}.
#[local] Existing Instance simple_urls.

Definition demo_net (c : string) (gw start end_ : string) : SubnetConfig :=
  mkSubnetConfig (bs c) (bs "lab") 10 (bs gw) [bs "10.0.0.53"] true (bs start) (bs end_) (2 * hour) 0 []
    [mkReservationConfig (bs "aa:bb:cc:00:11:22") (bs gw) (bs "router")].

Definition demo_config : Config :=
  mkConfig (cf_server default_config) (cf_dhcp default_config)
    [demo_net "10.0.0.0/24" "10.0.0.1" "10.0.0.10" "10.0.0.200";
     demo_net "10.0.1.0/25" "10.0.1.1" "10.0.1.0" "10.0.1.127"]
    (cf_discovery default_config) (cf_api default_config) (cf_dashboard default_config) (cf_auth default_config)
    (cf_ha default_config) (cf_prometheus default_config) (cf_backup default_config)
    [mkWebhookConfig (bs "hook") (bs "https://example.org") [bs "lease.created"] [] ∅ 3 (bs "fixed")].

Lemma demo_config_valid : validate demo_config = None.
Proof. vm_compute. reflexivity. Qed.

Lemma demo_serves_v4 : Forall serves_v4 (cf_subnets demo_config).
Proof.
  repeat (constructor; [intros _ p Hp; vm_compute in Hp; injection Hp as <-; vm_compute; reflexivity|]). constructor.
Qed.

Lemma demo_starts_positive : Forall starts_positive (cf_subnets demo_config).
Proof.
  repeat (constructor; [intros ad a Had Ha; vm_compute in Had; injection Had as <-; vm_compute in Ha;
    injection Ha as <-; vm_compute; reflexivity|]). constructor.
Qed.

Lemma demo_tidy : Forall tidy (cf_subnets demo_config).
Proof. repeat (constructor; [split; [|split; [|split]]; vm_compute; reflexivity|]). constructor. Qed.

Lemma validated_config_pools_witness :
  (Forall serves_v4 (cf_subnets demo_config) ∧ Forall starts_positive (cf_subnets demo_config) ∧
   Forall tidy (cf_subnets demo_config)) ∧
  ((∃ qs, Forall2 subnet_valid (cf_subnets demo_config) qs ∧
     (∀ j k p q a, qs !! j = Some p → qs !! k = Some q → member p a → member q a → j = k) ∧
     (Forall serves_v4 (cf_subnets demo_config) → Forall starts_positive (cf_subnets demo_config) →
       ∃ pm, add_subnets hour (mkPoolManager ∅ []) (cf_subnets demo_config) = Ok pm ∧ pm_ok pm ∧ pm_disjoint pm ∧
         pools_from (cf_subnets demo_config) qs pm ∧
         ∀ s, s ∈ cf_subnets demo_config → sc_dhcp_enabled s = true → is_Some (pm_pools pm !! sc_cidr s))) ∧
   (Forall tidy (cf_subnets demo_config) → ∃ pools, new_pools6 hour (cf_subnets demo_config) = Ok pools)).
Proof.
  split; [split; [apply demo_serves_v4|split; [apply demo_starts_positive|apply demo_tidy]]|].
  refine (validated_config_pools demo_config hour _). apply demo_config_valid.
Defined.

Lemma demo_seed_fits s q :
  s ∈ cf_subnets demo_config → parse_prefix (sc_cidr s) = Ok q →
  row_fits (sn_cidr (seed_row demo_now s q)) (seed_row demo_now s q).
Proof.
  intros [-> |[-> |Hs%elem_of_nil]%elem_of_cons]%elem_of_cons Hq; [..|done]; vm_compute in Hq; injection Hq as <-;
    refine (packed_fits _ _ _ _ _ _ _ _); vm_compute; reflexivity.
Qed.

Lemma validated_config_seeds_witness :
  ∃ e' t', seed_from_config demo_engine (cf_subnets demo_config) demo_now [] = (e', None) ∧
    ipam_view e' t' ∧ tables_ok t' ∧
    ∀ s q, s ∈ cf_subnets demo_config → parse_prefix (sc_cidr s) = Ok q →
      prefix_string (prefix_masked q) ∈ dom (t_subnets t').
Proof.
  refine (validated_config_seeds demo_config demo_engine demo_now _ _ _ _ _).
  - apply demo_config_valid.
  - apply demo_tidy.
  - repeat (constructor; [vm_compute; split; discriminate|]). constructor.
  - apply demo_seed_fits.
  - apply demo_ipam_view.
Defined.

(** The rate limit and the lease time from the environment. *)
Definition demo_env_vars (name : bytes) : option bytes :=
  if bool_decide (name = bs "MONSOON_API_REST_RATE_LIMIT") then Some (bs "250")
  else if bool_decide (name = bs "MONSOON_DHCP_DEFAULT_LEASE_TIME") then Some (bs " 90m ")
  else None.
Definition demo_overridden : Config :=
  match apply_env_overrides demo_env_vars demo_config with Ok c => c | _ => demo_config end.

Lemma env_overrides_exact_witness :
  rs_rate_limit (ap_rest (cf_api demo_overridden)) = 250 ∧
  dc_default_lease_time (cf_dhcp demo_overridden) = 90 * minute ∧
  (cf_subnets demo_overridden = cf_subnets demo_config ∧ cf_webhooks demo_overridden = cf_webhooks demo_config ∧
   ∀ path x name, leaf (config_value demo_config) (bs "MONSOON") path = Some (x, name) →
     ∃ x', overridden demo_env_vars x name = Ok x' ∧
       leaf (config_value demo_overridden) (bs "MONSOON") path = Some (x', name)).
Proof.
  split; [vm_compute; reflexivity|]. split; [vm_compute; reflexivity|].
  refine (env_overrides_exact demo_env_vars demo_config demo_overridden _). vm_compute. reflexivity.
Defined.

(** A subnet of IPv6 addresses passes [Validate], and stops the DHCPv4 server. *)
Definition dual_stack_config : Config :=
  mkConfig (cf_server demo_config) (cf_dhcp demo_config)
    [demo_net "2001:db8::/64" "2001:db8::1" "2001:db8::10" "2001:db8::ff"]
    (cf_discovery demo_config) (cf_api demo_config) (cf_dashboard demo_config) (cf_auth demo_config)
    (cf_ha demo_config) (cf_prometheus demo_config) (cf_backup demo_config) [].

Example dual_stack_config_panics :
  validate dual_stack_config = None ∧
  add_subnets hour (mkPoolManager ∅ []) (cf_subnets dual_stack_config) = Panic "As4 called on IPv6 address".
Proof. split; vm_compute; reflexivity. Qed.

(** A VLAN out of range passes [Validate], and stops the program at the seed. *)
Definition wide_vlan : SubnetConfig :=
  mkSubnetConfig (bs "10.0.0.0/24") [] 5000 [] [] false [] [] 0 0 [] [].
Example vlan_is_not_validated :
  validate_subnets 0 [] [wide_vlan] = [] ∧
  (seed_from_config demo_engine [wide_vlan] demo_now []).2 = Some (errorNew "vlan must be between 0 and 4094").
Proof. split; vm_compute; reflexivity. Qed.
