(* ===== verification/Auth.v ===== *)
(** internal/auth: users, lockouts, sessions and API tokens.

    The service keeps users, tokens and sessions as rows of the storage engine;
    lockouts and the sessions in use are in memory.  A login takes the mutex of the
    lockouts twice, and other logins run in between: [login_step] are its steps.
    The loading of the sessions deletes rows from inside an iteration, so it is
    modelled with the mutexes of the engine and its trees.  The clock, the random bytes
    and the faults of the log are arguments, and so is bcrypt, which is third
    party code. *)

From S2P Require Import Prelude.
From S2P Require Import GoBytes.
From S2P Require Import GoStrings.
From S2P Require Import GoTime.
From S2P Require Import GoJson.
From S2P Require Import GoSha.
From S2P Require Import StorageTree.
From S2P Require Import Wal.
From S2P Require Import StorageEngine.
From S2P Require Import RowTable.

(** golang.org/x/crypto/bcrypt: a hash of a password compares equal to it. *)
Class Bcrypt := {
  bcrypt_generate : bytes → bytes → result bytes;
  bcrypt_compare : bytes → bytes → bool;
  bcrypt_own_hash password salt h : bcrypt_generate password salt = Ok h → bcrypt_compare h password = true;
}.

(** * types.go, rbac.go *)

Definition DefaultRoleAdmin := bs "admin".
Definition DefaultRoleOperator := bs "operator".
Definition DefaultRoleViewer := bs "viewer".

Record User := mkUser {
  u_username : bytes; u_role : bytes; u_password_hash : bytes; u_created_at : time; u_updated_at : time
}.

Record Identity := mkIdentity {
  id_username : bytes; id_role : bytes; id_auth_type : bytes; id_token_id : bytes
}.

Record APIToken := mkAPIToken {
  at_id : bytes; at_name : bytes; at_role : bytes; at_prefix : bytes; at_created_at : time;
  at_expires_at : option time; at_last_used_at : option time; at_description : bytes
}.

Record tokenRecord := mkTokenRecord {
  tr_id : bytes; tr_name : bytes; tr_role : bytes; tr_hash : bytes; tr_prefix : bytes;
  tr_created_at : time; tr_expires_at : option time; tr_last_used_at : option time;
  tr_description : bytes
}.
#[global] Instance eta_tokenRecord : Eta tokenRecord := λ r,
  mkTokenRecord (tr_id r) (tr_name r) (tr_role r) (tr_hash r) (tr_prefix r) (tr_created_at r)
    (tr_expires_at r) (tr_last_used_at r) (tr_description r).

Definition sanitize_role (role : bytes) : bytes :=
  if bool_decide (role ∈ [DefaultRoleAdmin; DefaultRoleOperator; DefaultRoleViewer]) then role
  else DefaultRoleViewer.

Definition rank (role : bytes) : Z :=
  if bool_decide (role = DefaultRoleViewer) then 1
  else if bool_decide (role = DefaultRoleOperator) then 2
  else if bool_decide (role = DefaultRoleAdmin) then 3
  else 0.
Definition has_role (required actual : bytes) : bool :=
  rank (sanitize_role required) <=? rank (sanitize_role actual).

(** * lockout.go *)

Definition ErrAccountLocked := errorNew "account is temporarily locked".
(** [AccountLockedError{Until}]; it is [ErrAccountLocked] for [errors.Is]. *)
Definition AccountLockedError (until : time) : error := Errorf "account is temporarily locked" [FZ until].

(** [RetryAfter], at the clock [real_now] *)
Definition retry_after (until now real_now : time) : Z :=
  if is_zero until then 60
  else
    let s := float_trunc (seconds (time_sub until real_now)) in
    let s := if is_zero now then s else float_trunc (seconds (time_sub until now)) in
    if s <? 1 then 1 else s.

Record lockoutEntry := mkLockoutEntry { le_failures : Z; le_locked_until : time }.
Record lockoutTracker := mkLockoutTracker {
  lt_entries : gmap bytes lockoutEntry; lt_max_failed_attempts : Z; lt_lockout_duration : duration
}.
#[global] Instance eta_lockoutTracker : Eta lockoutTracker := λ t,
  mkLockoutTracker (lt_entries t) (lt_max_failed_attempts t) (lt_lockout_duration t).

Definition new_lockout_tracker (max_failed_attempts : Z) (lockout_duration : duration) : lockoutTracker :=
  mkLockoutTracker ∅ (if max_failed_attempts <=? 0 then 5 else max_failed_attempts)
    (if lockout_duration <=? 0 then 15 * minute else lockout_duration).

Definition treeUsers := bs "users".
Definition treeTokens := bs "api_tokens".
Definition treeTokensByHash := bs "api_tokens_by_hash".
Definition treeSessions := bs "sessions".

Definition ErrInvalidCredentials := errorNew "invalid credentials".
Definition ErrBootstrapUnavailable := errorNew "admin bootstrap is unavailable".
Definition ErrSessionNotFound := errorNew "session not found".

(** * session.go *)

Record sessionEntry := mkSessionEntry { se_identity : Identity; se_expires_at : time }.

Record SessionManager := mkSessionManager { sm_sessions : gmap bytes sessionEntry; sm_ttl : duration }.
#[global] Instance eta_SessionManager : Eta SessionManager := λ m,
  mkSessionManager (sm_sessions m) (sm_ttl m).

(** * service.go *)

Record ServiceOptions := mkServiceOptions {
  so_auth_type : bytes; so_cookie_name : bytes; so_session_duration : duration;
  so_max_failed_attempts : Z; so_lockout_duration : duration
}.

Record Service := mkService {
  svc_store : Engine; svc_sessions : SessionManager; svc_lockouts : lockoutTracker;
  svc_auth_type : bytes; svc_cookie_name : bytes
}.
#[global] Instance eta_Service : Eta Service := λ s,
  mkService (svc_store s) (svc_sessions s) (svc_lockouts s) (svc_auth_type s) (svc_cookie_name s).

Section auth.
Context `{UnicodeTables} `{Bcrypt} `{Json User} `{Json tokenRecord} `{Json sessionEntry}.

Definition normalize_username (s : bytes) : bytes := to_lower (trim_space s).

(** ** Lockouts *)

Definition lockout_check (t : lockoutTracker) (username : bytes) (now : time) : lockoutTracker * option error :=
  let username := normalize_username username in
  if bool_decide (username = []) then (t, None)
  else
    match lt_entries t !! username with
    | None => (t, None)
    | Some entry =>
        if is_zero (le_locked_until entry) then (t, None)
        else if negb (before now (le_locked_until entry))
        then (t <| lt_entries := base.delete username (lt_entries t) |>, None)
        else (t, Some (AccountLockedError (le_locked_until entry)))
    end.

Definition record_failure (t : lockoutTracker) (username : bytes) (now : time) : lockoutTracker * option error :=
  let username := normalize_username username in
  if bool_decide (username = []) then (t, None)
  else
    let entry := default (mkLockoutEntry 0 0) (lt_entries t !! username) in
    if negb (is_zero (le_locked_until entry)) && before now (le_locked_until entry)
    then (t, Some (AccountLockedError (le_locked_until entry)))
    else
      let entry := if negb (is_zero (le_locked_until entry)) && negb (before now (le_locked_until entry))
                   then mkLockoutEntry 0 0 else entry in
      let failures := le_failures entry + 1 in
      if lt_max_failed_attempts t <=? failures then
        let until := time_add now (lt_lockout_duration t) in
        (t <| lt_entries := <[username := mkLockoutEntry failures until]> (lt_entries t) |>,
         Some (AccountLockedError until))
      else
        (t <| lt_entries := <[username := mkLockoutEntry failures (le_locked_until entry)]> (lt_entries t) |>, None).

Definition lockout_reset (t : lockoutTracker) (username : bytes) : lockoutTracker :=
  let username := normalize_username username in
  if bool_decide (username = []) then t
  else t <| lt_entries := base.delete username (lt_entries t) |>.

(** ** Users *)

Definition get_user (e : Engine) (username : bytes) : result User :=
  row_get treeUsers e (normalize_username username).

(** The iteration stops at the first row. *)
Definition has_users (e : Engine) : result bool :=
  match iterate e treeUsers [] [] (λ _ _ _, (true, false)) false with
  | (found, None) => Ok found
  | (_, Some ErrNotFound) => Ok false
  | (_, Some er) => Err er
  end.

Definition user_row (user : User) (now : time) : User :=
  mkUser (normalize_username (u_username user)) (sanitize_role (trim_space (u_role user))) (u_password_hash user)
    (if is_zero (u_created_at user) then now else u_created_at user) now.

Definition upsert_user (e : Engine) (user : User) (now tx_now : time) (io : list append_io)
    : Engine * option error :=
  let user := user_row user now in
  row_put treeUsers e (u_username user) user tx_now io.

(** The name of the first administrator. *)
Definition admin_name (username : bytes) : bytes :=
  let username := normalize_username username in
  if bool_decide (username = []) then bs "admin" else username.

Definition ensure_admin (e : Engine) (username password_hash : bytes) (now tx_now : time) (io : list append_io)
    : Engine * option error :=
  let username := admin_name username in
  match get_user e username with
  | Ok _ => (e, None)
  | _ =>
      match has_users e with
      | Err er => (e, Some er)
      | Panic p => (e, Some (ErrIO p))
      | Ok true => (e, None)
      | Ok false =>
          let hash := trim_space password_hash in
          if bool_decide (hash = []) then (e, Some (errorNew "admin password hash is required"))
          else upsert_user e (mkUser username DefaultRoleAdmin hash 0 0) now tx_now io
      end
  end.

Definition bootstrap_admin (e : Engine) (username password salt : bytes) (now tx_now : time)
    (io : list append_io) : Engine * option error :=
  let username := admin_name username in
  if bool_decide (trim_space password = []) then (e, Some (errorNew "password is required"))
  else
    match has_users e with
    | Err er => (e, Some er)
    | Panic p => (e, Some (ErrIO p))
    | Ok true => (e, Some ErrBootstrapUnavailable)
    | Ok false =>
        match bcrypt_generate password salt with
        | Ok hash => upsert_user e (mkUser username DefaultRoleAdmin hash 0 0) now tx_now io
        | Err er => (e, Some er)
        | Panic p => (e, Some (ErrIO p))
        end
    end.

Definition set_password (e : Engine) (username new_password salt : bytes) (now tx_now : time)
    (io : list append_io) : Engine * option error :=
  let username := normalize_username username in
  if bool_decide (username = []) || bool_decide (trim_space new_password = [])
  then (e, Some (errorNew "username and new password are required"))
  else
    match get_user e username with
    | Ok user =>
        match bcrypt_generate new_password salt with
        | Ok hash =>
            upsert_user e (mkUser (u_username user) (u_role user) hash (u_created_at user) now) now tx_now io
        | Err er => (e, Some er)
        | Panic p => (e, Some (ErrIO p))
        end
    | Err er => (e, Some er)
    | Panic p => (e, Some (ErrIO p))
    end.

(** The part of [AuthenticateLocal] between its two uses of the lockouts: the user
    is read and the password compared, with no mutex held. *)
Definition login_compare (e : Engine) (username password : bytes) : option Identity :=
  match get_user e username with
  | Ok user =>
      if bcrypt_compare (u_password_hash user) password
      then Some (mkIdentity (u_username user) (u_role user) (bs "session") []) else None
  | _ => None
  end.

(** Its last part: the failure is recorded, or the failures are forgotten. *)
Definition login_finish (t : lockoutTracker) (username : bytes) (matched : option Identity) (now : time)
    : lockoutTracker * result Identity :=
  match matched with
  | Some identity => (lockout_reset t username, Ok identity)
  | None =>
      match record_failure t username now with
      | (t, Some er) => (t, Err er)
      | (t, None) => (t, Err ErrInvalidCredentials)
      end
  end.

(** [AuthenticateLocal] when no other login runs meanwhile: the clock is read by the
    check and by the failure. *)
Definition authenticate_local (e : Engine) (t : lockoutTracker) (username password : bytes)
    (now_check now_failure : time) : lockoutTracker * result Identity :=
  let username := normalize_username username in
  match lockout_check t username now_check with
  | (t, Some er) => (t, Err er)
  | (t, None) => login_finish t username (login_compare e username password) now_failure
  end.

(** The logins on one account, interleaved: those past the check, with their
    passwords, and the tracker they share. *)
Record Logins := mkLogins { lg_tracker : lockoutTracker; lg_flight : list bytes }.

(** A login is checked, or one of those past the check is compared and finishes. *)
Inductive login_event :=
| LoginBegin (password : bytes) (now : time)
| LoginFinish (i : nat) (now : time).

Definition login_step (e : Engine) (username : bytes) (s : Logins) (ev : login_event) : Logins :=
  let username := normalize_username username in
  match ev with
  | LoginBegin password now =>
      match lockout_check (lg_tracker s) username now with
      | (t, Some _) => mkLogins t (lg_flight s)
      | (t, None) => mkLogins t (lg_flight s ++ [password])
      end
  | LoginFinish i now =>
      match lg_flight s !! i with
      | Some password =>
          mkLogins (login_finish (lg_tracker s) username (login_compare e username password) now).1
            (base.delete i (lg_flight s))
      | None => s
      end
  end.

(** ** Sessions *)

(** [randomHex(n)] of the bytes read, or the error of the source. *)
Definition random_hex (n : Z) (rand : result bytes) : result bytes :=
  if n <=? 0 then Err (errorNew "invalid byte length")
  else b ← rand; Ok (hex_encode (take (Z.to_nat n) b)).

(** ** The mutexes of the engine, for a callback that calls the engine

    [sync.RWMutex] as one goroutine meets it: a call that has to wait for a lock this
    goroutine holds itself is none, it never returns. *)
Record RWMutex := mkRWMutex { rw_readers : nat; rw_writer : bool }.
Definition rw_free : RWMutex := mkRWMutex 0 false.
Definition rlock (m : RWMutex) : option RWMutex :=
  if rw_writer m then None else Some (mkRWMutex (S (rw_readers m)) false).
Definition runlock (m : RWMutex) : RWMutex := mkRWMutex (pred (rw_readers m)) (rw_writer m).
Definition wlock (m : RWMutex) : option RWMutex :=
  if rw_writer m || bool_decide (rw_readers m ≠ O) then None else Some (mkRWMutex 0 true).
Definition wunlock (m : RWMutex) : RWMutex := mkRWMutex (rw_readers m) false.

(** The engine with [Engine.mu] and the [mu] of each tree. *)
Record Locked := mkLocked { lk_store : Engine; lk_mu : RWMutex; lk_tree_mu : gmap bytes RWMutex }.
Definition tree_mu (l : Locked) (tree : bytes) : RWMutex := default rw_free (lk_tree_mu l !! tree).

(** [Engine.Delete]: [tx] holds [Engine.mu], and [BTree.Delete] the mutex of the tree;
    it is called when the append to the log succeeded. *)
Definition locked_delete (l : Locked) (tree key : bytes) (now : time) (io : list append_io)
    : option (Locked * option error) :=
  mu ← wlock (lk_mu l);
  match StorageEngine.delete (lk_store l) tree key now io with
  | (e, Some er) => Some (mkLocked e (wunlock mu) (lk_tree_mu l), Some er)
  | (e, None) =>
      tmu ← wlock (tree_mu l tree);
      Some (mkLocked e (wunlock mu) (<[tree := wunlock tmu]> (lk_tree_mu l)), None)
  end.

(** The loop of [BTree.Iterate]: the keys are those of the tree at each turn.  [fuel]
    bounds the turns; the callers give it the number of keys. *)
Fixpoint locked_loop {A} (fuel : nat) (tree end_ : bytes)
    (fn : Locked → A → bytes → bytes → option (Locked * A * bool)) (idx : nat) (l : Locked) (a : A)
    : option (Locked * A) :=
  match fuel with
  | O => Some (l, a)
  | S fuel =>
      match trees (lk_store l) !! tree with
      | None => Some (l, a)
      | Some tr =>
          match BTree.keys tr !! idx with
          | None => Some (l, a)
          | Some k =>
              if (0 <? zlen end_) && bool_decide (bytes_compare k end_ = Gt) then Some (l, a)
              else
                match fn l a k (BTree.item tr k) with
                | None => None
                | Some (l, a, false) => Some (l, a)
                | Some (l, a, true) => locked_loop fuel tree end_ fn (S idx) l a
                end
          end
      end
  end.

(** [Engine.Iterate] holds [Engine.mu] while it finds the tree, and [BTree.Iterate]
    the mutex of the tree until its loop is done. *)
Definition locked_iterate {A} (l : Locked) (tree start end_ : bytes)
    (fn : Locked → A → bytes → bytes → option (Locked * A * bool)) (a : A) : option (Locked * A * option error) :=
  mu ← rlock (lk_mu l);
  let l := mkLocked (lk_store l) (runlock mu) (lk_tree_mu l) in
  match trees (lk_store l) !! tree with
  | None => Some (l, a, Some ErrNotFound)
  | Some tr =>
      tmu ← rlock (tree_mu l tree);
      let l := mkLocked (lk_store l) (lk_mu l) (<[tree := tmu]> (lk_tree_mu l)) in
      let idx := if 0 <? zlen start then BTree.lower_bound (BTree.keys tr) start else O in
      r ← locked_loop (length (BTree.keys tr)) tree end_ fn idx l a;
      let '(l, a) := r in
      Some (mkLocked (lk_store l) (lk_mu l) (<[tree := runlock (tree_mu l tree)]> (lk_tree_mu l)), a, None)
  end.

(** The callback of [load] on a row: it is skipped when it does not decode, deleted
    through the engine when it has expired, else kept. *)
Definition load_row (now : time) (io : bytes → list append_io) (l : Locked) (sessions : gmap bytes sessionEntry)
    (key value : bytes) : option (Locked * gmap bytes sessionEntry * bool) :=
  match unmarshal value with
  | Ok entry =>
      if after now (se_expires_at entry) then
        r ← locked_delete l treeSessions key now (io key);
        Some (r.1, sessions, true)
      else Some (l, <[key := entry]> sessions, true)
  | _ => Some (l, sessions, true)
  end.

(** [load]: none when it never returns.  [io key] says how the append of the delete of
    [key] goes. *)
Definition load_sessions (e : Engine) (now : time) (io : bytes → list append_io)
    : option (Engine * gmap bytes sessionEntry) :=
  r ← locked_iterate (mkLocked e rw_free ∅) treeSessions [] [] (load_row now io) ∅;
  let '(l, sessions, _) := r in Some (lk_store l, sessions).

Definition new_session_manager (e : Engine) (ttl : duration) (now : time) (io : bytes → list append_io)
    : option (Engine * SessionManager) :=
  let ttl := if ttl <=? 0 then 24 * hour else ttl in
  r ← load_sessions e now io; Some (r.1, mkSessionManager r.2 ttl).

Definition persist_session (e : Engine) (id : bytes) (entry : sessionEntry) (now : time) (io : list append_io)
    : Engine * option error := row_put treeSessions e id entry now io.

(** The error of the delete is dropped. *)
Definition delete_session (e : Engine) (id : bytes) (now : time) (io : list append_io) : Engine :=
  (row_delete treeSessions e id now io).1.

Definition session_create (e : Engine) (m : SessionManager) (identity : Identity) (rand : result bytes)
    (now tx_now : time) (io : list append_io) : Engine * SessionManager * result (bytes * time) :=
  match random_hex 32 rand with
  | Ok id =>
      let expiry := time_add now (sm_ttl m) in
      let entry := mkSessionEntry identity expiry in
      match persist_session e id entry tx_now io with
      | (e, None) => (e, m <| sm_sessions := <[id := entry]> (sm_sessions m) |>, Ok (id, expiry))
      | (e, Some er) => (e, m <| sm_sessions := base.delete id (sm_sessions m) |>, Err er)
      end
  | Err er => (e, m, Err er)
  | Panic p => (e, m, Panic p)
  end.

Definition session_validate (e : Engine) (m : SessionManager) (id : bytes) (now tx_now : time)
    (io : list append_io) : Engine * SessionManager * result Identity :=
  match sm_sessions m !! id with
  | None => (e, m, Err ErrSessionNotFound)
  | Some entry =>
      if after now (se_expires_at entry) then
        (delete_session e id tx_now io, m <| sm_sessions := base.delete id (sm_sessions m) |>,
         Err ErrSessionNotFound)
      else (e, m, Ok (se_identity entry))
  end.

Definition session_revoke (e : Engine) (m : SessionManager) (id : bytes) (tx_now : time) (io : list append_io)
    : Engine * SessionManager :=
  (delete_session e id tx_now io, m <| sm_sessions := base.delete id (sm_sessions m) |>).

(** The loop of [RevokeByUsername] over the map in the order of [ids]. *)
Fixpoint revoke_loop (username : bytes) (e : Engine) (m : SessionManager) (ids : list bytes) (revoked : Z)
    (tx_now : time) : Engine * SessionManager * Z :=
  match ids with
  | [] => (e, m, revoked)
  | id :: ids =>
      match sm_sessions m !! id with
      | Some entry =>
          if bool_decide (id_username (se_identity entry) = username) then
            let '(e, m) := session_revoke e m id tx_now [] in
            revoke_loop username e m ids (revoked + 1) tx_now
          else revoke_loop username e m ids revoked tx_now
      | None => revoke_loop username e m ids revoked tx_now
      end
  end.
Definition session_revoke_by_username (e : Engine) (m : SessionManager) (username : bytes) (ids : list bytes)
    (tx_now : time) : Engine * SessionManager * Z := revoke_loop username e m ids 0 tx_now.

(** ** Tokens *)

Definition token_hash (token : bytes) : bytes := hex_encode (sha256 token).

Definition to_public_token (r : tokenRecord) : APIToken :=
  mkAPIToken (tr_id r) (tr_name r) (tr_role r) (tr_prefix r) (tr_created_at r) (tr_expires_at r)
    (tr_last_used_at r) (tr_description r).

Definition new_token_record (name role raw_token id : bytes) (expires_at : option time) (description : bytes)
    (now : time) : tokenRecord :=
  mkTokenRecord id (trim_space name) (sanitize_role (trim_space role)) (token_hash raw_token) (take 8 raw_token)
    now expires_at None (trim_space description).

Definition create_token (e : Engine) (name role : bytes) (expires_at : option time) (description : bytes)
    (rand_token rand_id : result bytes) (now tx_now : time) (io : list append_io)
    : Engine * result (APIToken * bytes) :=
  if bool_decide (trim_space name = []) then (e, Err (errorNew "token name is required"))
  else
    match random_hex 32 rand_token with
    | Ok raw_token =>
        match random_hex 12 rand_id with
        | Ok token_id =>
            let record := new_token_record name role raw_token token_id expires_at description now in
            match marshal record with
            | Ok raw =>
                match tx e (Ok [tx_put treeTokens (tr_id record) raw;
                                tx_put treeTokensByHash (tr_hash record) (tr_id record)]) true tx_now io with
                | (e, None) => (e, Ok (to_public_token record, bs "msn_" ++ raw_token))
                | (e, Some er) => (e, Err er)
                end
            | Err er => (e, Err er)
            | Panic p => (e, Panic p)
            end
        | Err er => (e, Err er)
        | Panic p => (e, Panic p)
        end
    | Err er => (e, Err er)
    | Panic p => (e, Panic p)
    end.

Definition list_tokens (e : Engine) : result (list APIToken) :=
  out ← row_list treeTokens e; Ok (to_public_token <$> (out : list tokenRecord)).

Definition revoke_token (e : Engine) (token_id : bytes) (tx_now : time) (io : list append_io)
    : Engine * option error :=
  match (row_get treeTokens e (trim_space token_id) : result tokenRecord) with
  | Ok record =>
      tx e (Ok [tx_delete treeTokens (tr_id record); tx_delete treeTokensByHash (tr_hash record)]) true tx_now io
  | Err er => (e, Some er)
  | Panic p => (e, Some (ErrIO p))
  end.

Definition authenticate_bearer (e : Engine) (token : bytes) (now tx_now : time) (io : list append_io)
    : Engine * result Identity :=
  let token := trim_space token in
  if bool_decide (token = []) then (e, Err ErrInvalidCredentials)
  else
    let hash := token_hash (trim_prefix token (bs "msn_")) in
    match get e treeTokensByHash hash with
    | Ok token_id =>
        match get e treeTokens token_id with
        | Ok raw =>
            match unmarshal raw with
            | Ok record =>
                if match tr_expires_at record with Some t => after now t | None => false end
                then (e, Err ErrInvalidCredentials)
                else
                  let record := record <| tr_last_used_at := Some now |> in
                  let e := (row_put treeTokens e (tr_id record) record tx_now io).1 in
                  (e, Ok (mkIdentity (bs "token:" ++ tr_name record) (tr_role record) (bs "token") (tr_id record)))
            | Err er => (e, Err er)
            | Panic p => (e, Panic p)
            end
        | _ => (e, Err ErrInvalidCredentials)
        end
    | _ => (e, Err ErrInvalidCredentials)
    end.

(** ** The service *)

(** [NewService]: none when loading the sessions never returns. *)
Definition new_service (store : Engine) (o : ServiceOptions) (now : time) (io : bytes → list append_io)
    : option Service :=
  let cookie_name := if bool_decide (so_cookie_name o = []) then bs "monsoon_session" else so_cookie_name o in
  let auth_type := to_lower (trim_space (so_auth_type o)) in
  let auth_type := if bool_decide (auth_type = []) then bs "local" else auth_type in
  r ← new_session_manager store (so_session_duration o) now io;
  Some (mkService r.1 r.2 (new_lockout_tracker (so_max_failed_attempts o) (so_lockout_duration o))
          auth_type cookie_name).

Definition supports_local_auth (s : Service) : bool := equal_fold (svc_auth_type s) (bs "local").

Definition create_session (s : Service) (identity : Identity) (rand : result bytes) (now tx_now : time)
    (io : list append_io) : Service * result (bytes * time) :=
  let identity := mkIdentity (id_username identity) (id_role identity) (bs "session") (id_token_id identity) in
  let '(e, m, r) := session_create (svc_store s) (svc_sessions s) identity rand now tx_now io in
  (s <| svc_store := e |> <| svc_sessions := m |>, r).

Definition validate_session (s : Service) (id : bytes) (now tx_now : time) (io : list append_io)
    : Service * result Identity :=
  let '(e, m, r) := session_validate (svc_store s) (svc_sessions s) id now tx_now io in
  (s <| svc_store := e |> <| svc_sessions := m |>, r).

Definition revoke_session (s : Service) (id : bytes) (tx_now : time) (io : list append_io) : Service :=
  let '(e, m) := session_revoke (svc_store s) (svc_sessions s) id tx_now io in
  s <| svc_store := e |> <| svc_sessions := m |>.

Definition revoke_sessions_for_user (s : Service) (username : bytes) (ids : list bytes) (tx_now : time)
    : Service * Z :=
  let '(e, m, n) := session_revoke_by_username (svc_store s) (svc_sessions s) username ids tx_now in
  (s <| svc_store := e |> <| svc_sessions := m |>, n).
End auth.
