(* ===== verification/AuthSpec.v ===== *)
(** What the authentication service keeps true: lockouts, sessions, tokens. *)

From S2P Require Import Prelude.
From S2P Require Import GoBytes.
From S2P Require Import GoStrings.
From S2P Require Import GoTime.
From S2P Require Import GoJson.
From S2P Require Import StorageTree.
From S2P Require Import Wal.
From S2P Require Import StorageEngine.
From S2P Require Import StorageSpec.
From S2P Require Import StorageTheorems.
From S2P Require Import RowTable.
From S2P Require Import Auth.

Section spec.
Context `{UnicodeTables} `{Bcrypt} `{Json User} `{Json tokenRecord} `{Json sessionEntry}.

(** * Lockouts *)

(** Does the check let a login through? *)
Definition let_through (t : lockoutTracker) (username : bytes) (now : time) : bool :=
  bool_decide ((lockout_check t username now).2 = None).

(** How many of the logins reach the password check. *)
Fixpoint guesses (e : Engine) (username : bytes) (s : Logins) (evs : list login_event) : Z :=
  match evs with
  | [] => 0
  | ev :: rest =>
      match ev with
      | LoginBegin _ now => if let_through (lg_tracker s) (normalize_username username) now then 1 else 0
      | LoginFinish _ _ => 0
      end + guesses e username (login_step e username s ev) rest
  end.

(** No login that finishes has the password. *)
Fixpoint all_fail (e : Engine) (username : bytes) (s : Logins) (evs : list login_event) : Prop :=
  match evs with
  | [] => True
  | ev :: rest =>
      match ev with
      | LoginFinish i _ =>
          ∀ password, lg_flight s !! i = Some password → login_compare e (normalize_username username) password = None
      | LoginBegin _ _ => True
      end ∧ all_fail e username (login_step e username s ev) rest
  end.

(** At most [n] logins are past the check at once. *)
Fixpoint at_once (n : Z) (e : Engine) (username : bytes) (s : Logins) (evs : list login_event) : Prop :=
  zlen (lg_flight s) ≤ n ∧
  match evs with [] => True | ev :: rest => at_once n e username (login_step e username s ev) rest end.

Definition event_time (ev : login_event) : time :=
  match ev with LoginBegin _ now | LoginFinish _ now => now end.

(** The times do not decrease, and are between two bounds. *)
Fixpoint timed (first last : time) (evs : list login_event) : Prop :=
  match evs with
  | [] => True
  | ev :: rest => first ≤ event_time ev ≤ last ∧ timed (event_time ev) last rest
  end.

(** A login that runs alone is its two steps. *)
Lemma authenticate_local_steps e t username password now1 now2 :
  (authenticate_local e t username password now1 now2).1 =
  lg_tracker (foldl (login_step e username) (mkLogins t []) [LoginBegin password now1; LoginFinish 0 now2]).
Proof.
  unfold authenticate_local. cbn [foldl login_step lg_tracker lg_flight].
  by destruct (lockout_check t (normalize_username username) now1) as [t1 [er|]].
Qed.

Record tracker_ok (t : lockoutTracker) : Prop := {
  tk_max : 0 < lt_max_failed_attempts t;
  tk_duration : 0 < lt_lockout_duration t;
  tk_entry u en : lt_entries t !! u = Some en →
    (le_locked_until en = 0 ∧ 0 < le_failures en < lt_max_failed_attempts t) ∨ 0 < le_locked_until en;
}.

Lemma new_tracker_ok n d : tracker_ok (new_lockout_tracker n d).
Proof.
  split; cbn.
  - destruct (Z.leb_spec n 0); lia.
  - unfold minute, second. destruct (Z.leb_spec d 0); lia.
  - intros u en. by rewrite lookup_empty.
Qed.

(** How a failed attempt changes the entry of the user. *)
Inductive entry_state :=
| Open (failures : Z)
| Locked (until : time).

Definition state_of (t : lockoutTracker) (u : bytes) : entry_state :=
  match lt_entries t !! u with
  | None => Open 0
  | Some en => if is_zero (le_locked_until en) then Open (le_failures en) else Locked (le_locked_until en)
  end.

Definition fail_open (t : lockoutTracker) (k : Z) (now : time) : entry_state :=
  if lt_max_failed_attempts t <=? k + 1 then Locked (now + lt_lockout_duration t) else Open (k + 1).

Lemma state_range t u : tracker_ok t →
  match state_of t u with Open k => 0 ≤ k < lt_max_failed_attempts t | Locked v => 0 < v end.
Proof.
  intros [Hm Hd He]. unfold state_of. destruct (lt_entries t !! u) as [en|] eqn:E; [|lia].
  destruct (He _ _ E) as [[Hl Hf]|Hl]; unfold is_zero; destruct (Z.eqb_spec (le_locked_until en) 0); lia.
Qed.

Lemma check_state t u now : tracker_ok t → normalize_username u = u → u ≠ [] →
  (lockout_check t u now).2 =
    match state_of t u with
    | Locked v => if now <? v then Some (AccountLockedError v) else None
    | Open _ => None
    end ∧
  (let t' := (lockout_check t u now).1 in
   lt_max_failed_attempts t' = lt_max_failed_attempts t ∧ lt_lockout_duration t' = lt_lockout_duration t ∧
   tracker_ok t' ∧
   state_of t' u = match state_of t u with
                   | Locked v => if now <? v then Locked v else Open 0
                   | Open k => Open k
                   end).
Proof.
  intros Hok Hn Hu. unfold lockout_check. rewrite Hn, bool_decide_eq_false_2 by done. unfold state_of, before.
  destruct (lt_entries t !! u) as [en|] eqn:E; [|cbn; rewrite E; by split_and!].
  destruct (is_zero (le_locked_until en)) eqn:Ez.
  { split; [done|]. cbn. rewrite ?E, ?Ez. by split_and!. }
  destruct (now <? le_locked_until en) eqn:Eb; cbn.
  - rewrite ?E, ?Ez. by split_and!.
  - rewrite lookup_delete_eq. split; [done|]. split_and!; try done. destruct Hok as [Hm Hd He].
    split; cbn; [done|done|]. intros u' en' [_ Hl]%lookup_delete_Some. by eapply He.
Qed.

Lemma failure_state t u now k : tracker_ok t → normalize_username u = u → u ≠ [] → 0 ≤ now →
  state_of t u = Open k →
  let t' := (record_failure t u now).1 in
  (record_failure t u now).2 = match fail_open t k now with Locked v => Some (AccountLockedError v) | Open _ => None end ∧
  lt_max_failed_attempts t' = lt_max_failed_attempts t ∧ lt_lockout_duration t' = lt_lockout_duration t ∧
  tracker_ok t' ∧ state_of t' u = fail_open t k now.
Proof.
  intros Hok Hn Hu Hnow Hs. pose proof (state_range t u Hok) as Hr. rewrite Hs in Hr. destruct Hok as [Hm Hd He].
  unfold record_failure. rewrite Hn, bool_decide_eq_false_2 by done. unfold state_of in Hs.
  set (en := default (mkLockoutEntry 0 0) (lt_entries t !! u)).
  assert (le_failures en = k ∧ le_locked_until en = 0) as [Ef El].
  { subst en. destruct (lt_entries t !! u) as [en|]; [|by injection Hs as <-]. cbn.
    unfold is_zero in Hs. destruct (Z.eqb_spec (le_locked_until en) 0); [|done]. by injection Hs as <-. }
  rewrite El. cbn [is_zero negb andb Z.eqb]. rewrite ?Ef, ?El.
  unfold fail_open, state_of. destruct (Z.leb_spec (lt_max_failed_attempts t) (k + 1)) as [Hle|Hlt]; cbn.
  - rewrite lookup_insert_eq. cbn. unfold time_add, is_zero. rewrite (proj2 (Z.eqb_neq _ 0)) by lia.
    split_and!; try done. split; cbn; [done|done|].
    intros u' en' [[<- <-]|[_ Hl]]%lookup_insert_Some; [right; cbn; unfold time_add; lia|by eapply He].
  - rewrite lookup_insert_eq. cbn. split_and!; try done. split; cbn; [done|done|].
    intros u' en' [[<- <-]|[_ Hl]]%lookup_insert_Some; [left; cbn; lia|by eapply He].
Qed.

(** A failure on a locked account: none while it is locked, and the first of a new
    count after that. *)
Lemma failure_locked t u now v : tracker_ok t → normalize_username u = u → u ≠ [] → 0 ≤ now →
  state_of t u = Locked v →
  let t' := (record_failure t u now).1 in
  lt_max_failed_attempts t' = lt_max_failed_attempts t ∧ lt_lockout_duration t' = lt_lockout_duration t ∧
  tracker_ok t' ∧ state_of t' u = if now <? v then Locked v else fail_open t 0 now.
Proof.
  intros Hok Hn Hu Hnow Hs. destruct Hok as [Hm Hd He].
  unfold record_failure. rewrite Hn, bool_decide_eq_false_2 by done. unfold state_of, is_zero in *.
  destruct (lt_entries t !! u) as [en|] eqn:E; [|done].
  destruct (Z.eqb_spec (le_locked_until en) 0) as [|Hne]; [done|]. injection Hs as <-.
  change (default (mkLockoutEntry 0 0) (Some en)) with en. cbv zeta.
  rewrite (proj2 (Z.eqb_neq (le_locked_until en) 0)) by done.
  unfold before. cbn [negb andb]. destruct (now <? le_locked_until en); cbn [negb le_failures le_locked_until fst].
  { rewrite E, (proj2 (Z.eqb_neq (le_locked_until en) 0)) by done. by split_and!. }
  unfold fail_open. change (0 + 1) with 1. destruct (Z.leb_spec (lt_max_failed_attempts t) 1) as [Hle|Hlt]; cbn.
  - rewrite lookup_insert_eq. cbn. unfold time_add. rewrite (proj2 (Z.eqb_neq _ 0)) by lia.
    split_and!; try done. split; cbn; [done|done|].
    intros u' en' [[<- <-]|[_ Hl]]%lookup_insert_Some; [right; cbn; lia|by eapply He].
  - rewrite lookup_insert_eq. cbn. split_and!; try done. split; cbn; [done|done|].
    intros u' en' [[<- <-]|[_ Hl]]%lookup_insert_Some; [left; cbn; lia|by eapply He].
Qed.

(** What a step of failing logins does to the tracker. *)
Lemma login_state e s u ev : tracker_ok (lg_tracker s) → normalize_username u = u → u ≠ [] → 0 ≤ event_time ev →
  all_fail e u s [ev] →
  let t := lg_tracker s in
  let s' := login_step e u s ev in
  let t' := lg_tracker s' in
  lt_max_failed_attempts t' = lt_max_failed_attempts t ∧ lt_lockout_duration t' = lt_lockout_duration t ∧
  tracker_ok t' ∧
  match ev with
  | LoginBegin password now =>
      if (match state_of t u with Locked v => now <? v | Open _ => false end)
      then let_through t u now = false ∧ state_of t' u = state_of t u ∧ zlen (lg_flight s') = zlen (lg_flight s)
      else let_through t u now = true ∧ zlen (lg_flight s') = zlen (lg_flight s) + 1 ∧
        state_of t' u = match state_of t u with Open k => Open k | Locked _ => Open 0 end
  | LoginFinish i now =>
      s' = s ∨ (zlen (lg_flight s') = zlen (lg_flight s) - 1 ∧
        state_of t' u = match state_of t u with
                        | Open k => fail_open t k now
                        | Locked v => if now <? v then Locked v else fail_open t 0 now
                        end)
  end.
Proof.
  intros Hok Hn Hu Hnow [Hfail _]. destruct ev as [password now|i now]; cbn [login_step event_time] in *; rewrite Hn in *.
  - pose proof (check_state (lg_tracker s) u now Hok Hn Hu) as [Hc (Hm & Hd & Hok1 & Hst)]. unfold let_through.
    destruct (lockout_check (lg_tracker s) u now) as [t1 [er|]]; cbn [fst snd lg_tracker lg_flight] in *;
      split; try done; split; try done; split; try done.
    + destruct (state_of (lg_tracker s) u) as [k|v]; [done|]. destruct (now <? v); [|done].
      by rewrite bool_decide_eq_false_2 by done.
    + rewrite bool_decide_eq_true_2 by done. rewrite zlen_app.
      destruct (state_of (lg_tracker s) u) as [k|v]; [done|]. by destruct (now <? v).
  - destruct (lg_flight s !! i) as [password|] eqn:Ei.
    2:{ split; [done|]. split; [done|]. split; [done|]. by left. }
    rewrite (Hfail password eq_refl). cbn [login_finish lg_tracker lg_flight].
    assert (Hlen : zlen (base.delete i (lg_flight s)) = zlen (lg_flight s) - 1).
    { unfold zlen. pose proof (lookup_lt_Some _ _ _ Ei). rewrite length_delete by (by eexists). lia. }
    assert (Hfst : ∀ r : lockoutTracker * option error,
      (match r with (t, Some er) => (t, Err er : result Identity) | (t, None) => (t, Err ErrInvalidCredentials) end).1 = r.1)
      by by intros [? [?|]].
    rewrite Hfst. destruct (state_of (lg_tracker s) u) as [k|v] eqn:Es.
    + destruct (failure_state _ u now k Hok Hn Hu Hnow Es) as (_ & ? & ? & ? & ?). split_and!; try done. by right.
    + destruct (failure_locked _ u now v Hok Hn Hu Hnow Es) as (? & ? & ? & ?). split_and!; try done. by right.
Qed.

(** The guesses that are left when [p] logins are past the check, of at most [n]: each
    lock leaves those past the check without a count. *)
Definition allowance (t : lockoutTracker) (n p : Z) (first last : time) (st : entry_state) : Z :=
  let all := lt_max_failed_attempts t + n - 1 in
  let d := lt_lockout_duration t in
  match st with
  | Open k => all - k - p + all * ((last - first) / d)
  | Locked v => let from := Z.max v first in if last <? from then 0 else all + all * ((last - from) / d)
  end.

Lemma allowance_fail t n p first now last k :
  0 < lt_max_failed_attempts t → 0 < lt_lockout_duration t → 1 ≤ p ≤ n →
  0 ≤ k < lt_max_failed_attempts t → first ≤ now ≤ last →
  allowance t n (p - 1) now last (fail_open t k now) ≤ allowance t n p first last (Open k).
Proof.
  intros Hm Hd Hp Hk Ht. unfold fail_open, allowance.
  set (max := lt_max_failed_attempts t) in *. set (d := lt_lockout_duration t) in *.
  assert (Hmono : (last - now) / d ≤ (last - first) / d) by (apply Z.div_le_mono; lia).
  assert (0 ≤ (last - now) / d) by (apply Z.div_pos; lia).
  destruct (Z.leb_spec max (k + 1)); [|nia].
  rewrite Z.max_l by lia. assert (k = max - 1) as -> by lia. destruct (Z.ltb_spec last (now + d)); [nia|].
  assert ((last - (now + d)) / d = (last - now) / d - 1) as ->.
  { replace (last - (now + d)) with ((last - now) + (-1) * d) by lia. rewrite Z.div_add by lia. lia. }
  nia.
Qed.

Lemma allowance_nonneg t n p first last st :
  0 < lt_max_failed_attempts t → 0 < lt_lockout_duration t → first ≤ last → p ≤ n → 1 ≤ n →
  match st with Open k => k < lt_max_failed_attempts t | Locked _ => True end → 0 ≤ allowance t n p first last st.
Proof.
  intros Hm Hd Hle Hp Hn Hst. destruct st as [k|v]; unfold allowance.
  - assert (0 ≤ (last - first) / lt_lockout_duration t) by (apply Z.div_pos; lia). nia.
  - destruct (Z.ltb_spec last (Z.max v first)); [done|].
    assert (0 ≤ (last - Z.max v first) / lt_lockout_duration t) by (apply Z.div_pos; lia). nia.
Qed.

Lemma allowance_params t t' n p first last st :
  lt_max_failed_attempts t' = lt_max_failed_attempts t → lt_lockout_duration t' = lt_lockout_duration t →
  allowance t' n p first last st = allowance t n p first last st.
Proof. intros E1 E2. unfold allowance. by rewrite E1, E2. Qed.

(** An expired lock counts as an open account. *)
Lemma allowance_expired t n p first now last v :
  0 < lt_max_failed_attempts t → 0 < lt_lockout_duration t → 1 ≤ n → 0 ≤ p → v ≤ now → first ≤ now ≤ last →
  allowance t n p now last (Open 0) ≤ allowance t n p first last (Locked v).
Proof.
  intros Hm Hd Hn Hp Hv Hnow. unfold allowance. destruct (Z.ltb_spec last (Z.max v first)); [lia|].
  assert ((last - now) / lt_lockout_duration t ≤ (last - Z.max v first) / lt_lockout_duration t)
    by (apply Z.div_le_mono; lia). nia.
Qed.

(** Nothing is gained while time passes. *)
Lemma allowance_time t n p first now last st :
  0 < lt_max_failed_attempts t → 0 < lt_lockout_duration t → 1 ≤ n → first ≤ now ≤ last →
  allowance t n p now last st ≤ allowance t n p first last st.
Proof.
  intros Hm Hd Hn Hnow. unfold allowance. destruct st as [k|v].
  - assert ((last - now) / lt_lockout_duration t ≤ (last - first) / lt_lockout_duration t)
      by (apply Z.div_le_mono; lia). nia.
  - destruct (Z.ltb_spec last (Z.max v first)), (Z.ltb_spec last (Z.max v now)); [done|lia| |].
    + assert (0 ≤ (last - Z.max v first) / lt_lockout_duration t) by (apply Z.div_pos; lia). nia.
    + assert ((last - Z.max v now) / lt_lockout_duration t ≤ (last - Z.max v first) / lt_lockout_duration t)
        by (apply Z.div_le_mono; lia). nia.
Qed.

(** One step of the logins. *)
Lemma allowance_step e u n last s ev first :
  normalize_username u = u → u ≠ [] → tracker_ok (lg_tracker s) → 1 ≤ n → zlen (lg_flight s) ≤ n →
  zlen (lg_flight (login_step e u s ev)) ≤ n → 0 ≤ first ≤ last → first ≤ event_time ev ≤ last → all_fail e u s [ev] →
  let s' := login_step e u s ev in
  tracker_ok (lg_tracker s') ∧
  guesses e u s [ev] + allowance (lg_tracker s') n (zlen (lg_flight s')) (event_time ev) last (state_of (lg_tracker s') u)
    ≤ allowance (lg_tracker s) n (zlen (lg_flight s)) first last (state_of (lg_tracker s) u).
Proof.
  intros Hn Hu Hok Hn1 Hp Hp' Hf Ht Hall s'. pose proof (tk_max _ Hok). pose proof (tk_duration _ Hok).
  destruct (login_state e s u ev Hok Hn Hu ltac:(lia) Hall) as (E1 & E2 & Hok' & Hst). fold s' in E1, E2, Hok', Hst.
  split; [done|]. rewrite (allowance_params (lg_tracker s)) by done. cbn [guesses]. rewrite Hn, !Z.add_0_r.
  pose proof (state_range (lg_tracker s) u Hok) as Hr. pose proof (zlen_nonneg (lg_flight s)).
  set (p := zlen (lg_flight s)) in *. set (p' := zlen (lg_flight s')) in *.
  destruct ev as [password now|i now]; cbn [event_time] in *.
  - destruct (state_of (lg_tracker s) u) as [k|v]; [|destruct (Z.ltb_spec now v)].
    + destruct Hst as (-> & Ep & ->). rewrite Ep. pose proof (allowance_time (lg_tracker s) n p first now last (Open k)).
      unfold allowance in *. lia.
    + destruct Hst as (-> & Ep & ->). rewrite Ep. by apply allowance_time.
    + destruct Hst as (-> & Ep & ->). rewrite Ep.
      pose proof (allowance_expired (lg_tracker s) n p first now last v). unfold allowance in *. lia.
  - destruct Hst as [E|[Ep Hst]].
    { subst p'. rewrite E. by apply allowance_time. }
    assert (1 ≤ p ≤ n) by (pose proof (zlen_nonneg (lg_flight s')); lia). rewrite Ep, Hst.
    destruct (state_of (lg_tracker s) u) as [k|v].
    + by apply allowance_fail; lia.
    + destruct (Z.ltb_spec now v).
      * by apply (allowance_time (lg_tracker s) n p first now last (Locked v)).
      * pose proof (allowance_fail (lg_tracker s) n p now now last 0).
        pose proof (allowance_expired (lg_tracker s) n p first now last v). lia.
Qed.

Lemma guesses_allowance e u n last evs : ∀ s first,
  normalize_username u = u → u ≠ [] → tracker_ok (lg_tracker s) → 1 ≤ n → 0 ≤ first ≤ last → timed first last evs →
  all_fail e u s evs → at_once n e u s evs →
  guesses e u s evs ≤ allowance (lg_tracker s) n (zlen (lg_flight s)) first last (state_of (lg_tracker s) u).
Proof.
  induction evs as [|ev rest IH]; intros s first Hn Hu Hok Hn1 Hf Ht Hall [Hp Hn2].
  - cbn [guesses]. pose proof (state_range (lg_tracker s) u Hok).
    apply allowance_nonneg; [apply Hok..|lia|done|done|]. destruct (state_of (lg_tracker s) u); [lia|done].
  - cbn [all_fail timed] in *. destruct Ht as [Hb Ht], Hall as [Hfail Hall].
    destruct (allowance_step e u n last s ev first Hn Hu Hok Hn1 Hp ltac:(by destruct rest; apply Hn2) Hf Hb) as [Hok' Hs];
      [by split|].
    specialize (IH _ (event_time ev) Hn Hu Hok' Hn1 ltac:(lia) Ht Hall Hn2). cbn [guesses] in *. lia.
Qed.
End spec.
