(* ===== verification/AuthTables.v ===== *)
(** The sessions, tokens and users of the service as tables of the engine. *)

From S2P Require Import Prelude.
From S2P Require Import GoBytes.
From S2P Require Import GoStrings.
From S2P Require Import GoTime.
From S2P Require Import GoJson.
From S2P Require Import GoNet6.
From S2P Require Import GoSha.
From S2P Require Import StorageTree.
From S2P Require Import Wal.
From S2P Require Import StorageEngine.
From S2P Require Import StorageSpec.
From S2P Require Import StorageTheorems.
From S2P Require Import RowTable.
From S2P Require Import Auth.

Lemma hex_encode_length s : zlen (hex_encode s) = 2 * zlen s.
Proof.
  unfold hex_encode, zlen. induction s as [|b s IH]; [done|]. rewrite bind_cons, length_app. cbn [length] in *. lia.
Qed.

Section sessions.
Context `{UnicodeTables} `{Json sessionEntry}.

(** * Sessions *)

(** The sessions in memory are the rows of their tree. *)
Record sessions_ok (e : Engine) (m : gmap bytes sessionEntry) : Prop := {
  ss_engine : engine_ok e;
  ss_table : table treeSessions (rows e) m;
  ss_keys id : is_Some (m !! id) → zlen id < 4096;
}.

Lemma tree_sessions_ok : tree_ok treeSessions.
Proof. unfold tree_ok. split; apply (bool_decide_unpack _); vm_compute; done. Qed.

Definition unexpired (now : time) (m : gmap bytes sessionEntry) : Prop :=
  map_Forall (λ _ en, after now (se_expires_at en) = false) m.

#[global] Instance unexpired_dec now m : Decision (unexpired now m).
Proof. unfold unexpired. apply _. Defined.

(** A callback that leaves the engine alone or never returns, as a fold. *)
Definition lifted {A} (step : A → bytes → bytes → option (A * bool)) (acc : option A) (k v : bytes)
    : option A * bool :=
  match acc with
  | None => (None, false)
  | Some a => match step a k v with Some (a', more) => (Some a', more) | None => (None, false) end
  end.

Lemma locked_loop_fold {A} tree (l : Locked) tr (fn : Locked → A → bytes → bytes → option (Locked * A * bool)) step :
  trees (lk_store l) !! tree = Some tr →
  (∀ a k, k ∈ BTree.keys tr → fn l a k (BTree.item tr k) = '(a', more) ← step a k (BTree.item tr k); Some (l, a', more)) →
  ∀ ks idx fuel a, drop idx (BTree.keys tr) = ks → (length ks ≤ fuel)%nat →
    locked_loop fuel tree [] fn idx l a =
      a' ← BTree.iterate_loop tr ks [] (lifted step) (Some a); Some (l, a').
Proof.
  intros Etr Hfn. induction ks as [|k ks IH]; intros idx fuel a Hks Hle.
  - destruct fuel as [|fuel]; [done|]. cbn [locked_loop]. rewrite Etr.
    assert (BTree.keys tr !! idx = None) as ->; [|done].
    apply lookup_ge_None. pose proof (f_equal length Hks) as E. rewrite length_drop in E. simpl in E. lia.
  - destruct fuel as [|fuel]; [simpl in Hle; lia|]. cbn [locked_loop]. rewrite Etr.
    assert (Hk : BTree.keys tr !! idx = Some k) by by rewrite <-(Nat.add_0_r idx), <-lookup_drop, Hks.
    rewrite Hk, Hfn by by eapply list_elem_of_lookup_2.
    cbn [BTree.iterate_loop lifted]. change (0 <? zlen []) with false. cbn [andb].
    destruct (step a k (BTree.item tr k)) as [[a' [|]]|]; cbn; [|done..].
    apply IH; [|simpl in Hle; lia]. rewrite <-Nat.add_1_r, <-drop_drop, Hks. done.
Qed.

(** What loading does with a row, when an expired one blocks it. *)
Definition load_fold (now : time) (sessions : gmap bytes sessionEntry) (key value : bytes)
    : option (gmap bytes sessionEntry * bool) :=
  match unmarshal value with
  | Ok entry => if after now (se_expires_at entry) then None else Some (<[key := entry]> sessions, true)
  | _ => Some (sessions, true)
  end.

Lemma fold_load now rs as_ : Forall2 (λ (kv : bytes * bytes) (a : sessionEntry), unmarshal kv.2 = Ok a) rs as_ →
  ∀ m0, BTree.fold_until (lifted (load_fold now)) (Some m0) rs =
    if bool_decide (Forall (λ a, after now (se_expires_at a) = false) as_)
    then Some (foldl (λ m kv, <[kv.1 := kv.2]> m) m0 (zip rs.*1 as_)) else None.
Proof.
  induction 1 as [|[k v] a rs as_ Ha _ IH]; intros m0; [done|]. cbn [BTree.fold_until snd fst lifted] in *.
  unfold load_fold at 1. rewrite Ha. destruct (after now (se_expires_at a)) eqn:Ea.
  - rewrite bool_decide_eq_false_2; [done|]. rewrite Forall_cons. intros [? _]. congruence.
  - rewrite IH. cbn [fmap list_fmap zip foldl fst snd].
    destruct (decide (Forall (λ a, after now (se_expires_at a) = false) as_)).
    + rewrite !bool_decide_eq_true_2 by (try constructor; done). done.
    + rewrite !bool_decide_eq_false_2; [done| |done]. by rewrite Forall_cons; intros [].
Qed.

Lemma fold_insert_list (l : list (bytes * sessionEntry)) : ∀ (m0 : gmap bytes sessionEntry) (k : bytes),
  NoDup l.*1 → foldl (λ m kv, <[kv.1 := kv.2]> m) m0 l !! k =
    match (list_to_map l : gmap bytes sessionEntry) !! k with Some a => Some a | None => m0 !! k end.
Proof.
  induction l as [|[k' a] l IH]; intros m0 k Hn; [done|]. rewrite fmap_cons in Hn. apply NoDup_cons in Hn as [Hk' Hn].
  cbn [foldl fst snd list_to_map foldr]. rewrite IH by done. destruct (decide (k = k')) as [-> |Hne].
  - change (list_to_map ((k', a) :: l)) with (<[k' := a]> (list_to_map l : gmap bytes sessionEntry)).
    rewrite (not_elem_of_list_to_map_1 l) by done. by rewrite !lookup_insert_eq.
  - change (list_to_map ((k', a) :: l)) with (<[k' := a]> (list_to_map l : gmap bytes sessionEntry)).
    by rewrite !lookup_insert_ne by done.
Qed.

(** The tree is read locked while its rows are loaded, so the delete of an expired
    one waits for ever: the append to the log succeeds, and [BTree.Delete] asks for
    the lock its own goroutine holds. *)
Lemma delete_under_iterate e m key now mu :
  sessions_ok e m → zlen key < 4096 → rw_readers mu ≠ O →
  locked_delete (mkLocked e rw_free (<[treeSessions := mu]> ∅)) treeSessions key now [] = None.
Proof.
  intros [He Ht _] Hk Hmu. unfold locked_delete. cbn [lk_mu lk_store].
  change (wlock rw_free) with (Some (mkRWMutex 0 true)). cbn [mbind option_bind].
  destruct (row_delete_table treeSessions e m key now tree_sessions_ok He Ht Hk) as (e' & E & _).
  unfold row_delete in E. rewrite E. unfold tree_mu. cbn [lk_tree_mu]. rewrite lookup_insert_eq. cbn [default].
  unfold wlock, id. rewrite (bool_decide_eq_true_2 _ Hmu). by rewrite orb_true_r.
Qed.

Lemma load_row_fold e m now mu tr a k :
  sessions_ok e m → trees e !! treeSessions = Some tr → k ∈ BTree.keys tr → rw_readers mu ≠ O →
  load_row now (λ _, []) (mkLocked e rw_free (<[treeSessions := mu]> ∅)) a k (BTree.item tr k) =
    '(a', more) ← load_fold now a k (BTree.item tr k);
    Some (mkLocked e rw_free (<[treeSessions := mu]> ∅), a', more).
Proof.
  intros Hok Etr Hk Hmu. unfold load_row, load_fold.
  destruct (unmarshal (BTree.item tr k)) as [entry| |] eqn:Ev; [|done..].
  destruct (after now (se_expires_at entry)); [|done]. rewrite (delete_under_iterate e m); [done|done| |done].
  apply (ss_keys _ _ Hok). pose proof (ss_table _ _ Hok k) as Ht. destruct (m !! k); [by eexists|].
  destruct (ss_engine _ _ Hok) as [(Hwf & _) _]. unfold rows in Ht. rewrite lookup_view, Etr in Ht.
  apply (BTree.wf_dom tr (Hwf _ _ Etr)), elem_of_dom in Hk as [v Hv]. cbn in Ht. congruence.
Qed.

Lemma load_sessions_fold e m now :
  sessions_ok e m → load_sessions e now (λ _, []) =
    s ← (iterate e treeSessions [] [] (lifted (load_fold now)) (Some ∅)).1; Some (e, s).
Proof.
  intros Hok. unfold load_sessions, locked_iterate, iterate. cbn [lk_mu lk_store lk_tree_mu rlock rw_writer rw_free].
  cbn [mbind option_bind]. change (runlock (mkRWMutex (S (rw_readers rw_free)) false)) with rw_free.
  destruct (trees e !! treeSessions) as [tr|] eqn:Etr; [|done].
  assert (tree_mu (mkLocked e rw_free ∅) treeSessions = rw_free) as ->
    by (unfold tree_mu; cbn [lk_tree_mu]; by rewrite lookup_empty).
  change (rlock rw_free) with (Some (mkRWMutex 1 false)). cbn [mbind option_bind].
  change (0 <? zlen []) with false. unfold BTree.iterate. change (0 <? zlen []) with false. cbn [fst]. rewrite drop_0.
  set (l := mkLocked e rw_free (<[treeSessions := mkRWMutex 1 false]> ∅)).
  rewrite (locked_loop_fold treeSessions l tr (load_row now (λ _, [])) (load_fold now) Etr) with (ks := BTree.keys tr);
    [|intros a k Hk; by eapply load_row_fold|done..].
  by destruct (BTree.iterate_loop _ _ _ _ _).
Qed.

(** Loading gives the sessions back, and never returns when one has expired. *)
Lemma load_sessions_spec e m now :
  sessions_ok e m → load_sessions e now (λ _, []) = if bool_decide (unexpired now m) then Some (e, m) else None.
Proof.
  intros Hok. rewrite (load_sessions_fold e m now Hok).
  destruct Hok as [[(Hwf & _) _] Ht _]. destruct (row_scan treeSessions e m Hwf Ht) as (rs & as_ & Hit & Has & Hsort & Hin).
  edestruct Hit as (err & -> & _). cbn [fst]. rewrite (fold_load now rs as_ Has).
  assert (Hlen : length rs.*1 = length as_) by (rewrite length_fmap; by eapply Forall2_length).
  assert (Hn : NoDup (zip rs.*1 as_).*1).
  { rewrite fst_zip by lia. eapply StronglySorted_NoDup; [|exact Hsort]. intros x Hx. by apply bytes_lt_irrefl in Hx. }
  assert (Hall : Forall (λ a, after now (se_expires_at a) = false) as_ ↔ unexpired now m).
  { unfold unexpired. rewrite map_Forall_lookup. split.
    - intros Hf k a Hk. apply Hin in Hk. rewrite Forall_forall in Hf. apply Hf.
      apply elem_of_zip_r in Hk. done.
    - intros Hf. apply Forall_forall. intros a [i Ha]%list_elem_of_lookup.
      destruct (lookup_lt_is_Some_2 rs.*1 i) as [k Hk]; [rewrite Hlen; by eapply lookup_lt_Some|].
      apply (Hf k), Hin, list_elem_of_lookup. exists i. by apply lookup_zip_Some. }
  destruct (decide (unexpired now m)) as [Hu|Hu].
  - rewrite (bool_decide_eq_true_2 _ Hu), (bool_decide_eq_true_2 _ (proj2 Hall Hu)). cbn. do 2 f_equal.
    apply map_eq. intros k. rewrite fold_insert_list by done.
    destruct (list_to_map (zip rs.*1 as_) !! k) as [a|] eqn:E.
    + symmetry. apply Hin. by apply elem_of_list_to_map_2.
    + rewrite lookup_empty. destruct (m !! k) as [a|] eqn:Em; [|done]. exfalso.
      apply Hin in Em. apply (elem_of_list_to_map_1 (M := gmap bytes)) in Em; [congruence|done].
  - rewrite (bool_decide_eq_false_2 _ Hu). by rewrite bool_decide_eq_false_2 by (by rewrite Hall).
Qed.

Lemma sessions_ok_delete e m id now :
  sessions_ok e m → sessions_ok (delete_session e id now []) (base.delete id m).
Proof.
  intros [He Ht Hk].
  destruct (row_delete_any treeSessions e m id now tree_sessions_ok He Ht (Hk id)) as (e' & err & E & He' & Ht' & _).
  unfold delete_session. rewrite E. split; [done|done|]. intros id' [en [_ Hen]%lookup_delete_Some]. apply Hk. by eexists.
Qed.

(** Operations on the sessions. *)
Inductive SessOp :=
| SessCreate (identity : Identity) (rand : result bytes) (now : time)
| SessValidate (id : bytes) (now : time)
| SessRevoke (id : bytes) (now : time)
| SessRevokeUser (username : bytes) (ids : list bytes) (now : time).

Definition run_session (e : Engine) (m : SessionManager) (op : SessOp) : Engine * SessionManager :=
  match op with
  | SessCreate identity rand now => (session_create e m identity rand now now []).1
  | SessValidate id now => (session_validate e m id now now []).1
  | SessRevoke id now => session_revoke e m id now []
  | SessRevokeUser username ids now => (session_revoke_by_username e m username ids now).1
  end.

(** What they do to the map of the sessions. *)
Definition session_effect (ttl : duration) (op : SessOp) (m : gmap bytes sessionEntry) : gmap bytes sessionEntry :=
  match op with
  | SessCreate identity rand now =>
      match random_hex 32 rand with
      | Ok id => <[id := mkSessionEntry identity (time_add now ttl)]> m
      | _ => m
      end
  | SessValidate id now =>
      match m !! id with
      | Some en => if after now (se_expires_at en) then base.delete id m else m
      | None => m
      end
  | SessRevoke id _ => base.delete id m
  | SessRevokeUser username ids _ =>
      filter (λ kv, ¬ (kv.1 ∈ ids ∧ id_username (se_identity kv.2) = username)) m
  end.

Definition session_fits (ttl : duration) (op : SessOp) : Prop :=
  match op with
  | SessCreate identity rand now =>
      ∀ id, random_hex 32 rand = Ok id → row_fits id (mkSessionEntry identity (time_add now ttl))
  | _ => True
  end.

Lemma revoke_loop_spec username now ids : ∀ e m revoked,
  sessions_ok e (sm_sessions m) →
  let '(e', m', _) := revoke_loop username e m ids revoked now in
  sessions_ok e' (sm_sessions m') ∧ sm_ttl m' = sm_ttl m ∧
  sm_sessions m' = filter (λ kv, ¬ (kv.1 ∈ ids ∧ id_username (se_identity kv.2) = username)) (sm_sessions m).
Proof.
  induction ids as [|id ids IH]; intros e m revoked Hok; cbn [revoke_loop].
  { split; [done|]. split; [done|]. symmetry. apply map_filter_id. intros k en _ [Hin _]. by apply elem_of_nil in Hin. }
  assert (Hkeep : (∀ en, sm_sessions m !! id = Some en → id_username (se_identity en) ≠ username) →
    filter (λ kv : bytes * sessionEntry, ¬ (kv.1 ∈ id :: ids ∧ id_username (se_identity kv.2) = username)) (sm_sessions m) =
    filter (λ kv : bytes * sessionEntry, ¬ (kv.1 ∈ ids ∧ id_username (se_identity kv.2) = username)) (sm_sessions m)).
  { intros Hne. apply map_filter_ext. intros k en Hk. cbn. rewrite elem_of_cons. split; [tauto|].
    intros Hn [[-> |Hin] Hu]; [by eapply Hne|]. tauto. }
  destruct (sm_sessions m !! id) as [en|] eqn:E.
  - case_bool_decide as Hu.
    + unfold session_revoke. specialize (IH (delete_session e id now []) (m <| sm_sessions := base.delete id (sm_sessions m) |>)
        (revoked + 1) (sessions_ok_delete e _ id now Hok)).
      destruct (revoke_loop _ _ _ _ _ _) as [[e' m'] n]. destruct IH as (IH1 & IH2 & IH3). split; [done|]. split; [done|].
      rewrite IH3. cbn. apply map_eq. intros k. apply option_eq. intros x. rewrite !map_lookup_filter_Some.
      rewrite lookup_delete_Some. cbn. rewrite elem_of_cons. split.
      * intros [[Hne Hx] Hn]. split; [done|]. intros [[-> |Hin] Hux]; [done|]. tauto.
      * intros [Hx Hn]. split; [|tauto]. split; [|done]. intros ->. apply Hn. split; [by left|]. congruence.
    + specialize (IH e m revoked Hok). destruct (revoke_loop _ _ _ _ _ _) as [[e' m'] n].
      rewrite Hkeep; [done|]. by intros en' [= <-].
  - specialize (IH e m revoked Hok). destruct (revoke_loop _ _ _ _ _ _) as [[e' m'] n]. by rewrite Hkeep.
Qed.

(** The operations do what they mean to, in memory and on the disk. *)
Lemma run_session_spec e m op :
  sessions_ok e (sm_sessions m) → session_fits (sm_ttl m) op →
  let '(e', m') := run_session e m op in
  sessions_ok e' (sm_sessions m') ∧ sm_ttl m' = sm_ttl m ∧
  sm_sessions m' = session_effect (sm_ttl m) op (sm_sessions m).
Proof.
  intros Hok Hfit. destruct op as [identity rand now|id now|id now|username ids now]; cbn [run_session session_effect].
  - unfold session_create. destruct (random_hex 32 rand) as [id| |] eqn:Er; [|done..].
    pose proof (Hfit id Er) as Hf. destruct Hok as [He Ht Hk].
    destruct (row_put_table treeSessions e (sm_sessions m) id (mkSessionEntry identity (time_add now (sm_ttl m))) now
      tree_sessions_ok He Ht Hf) as (e' & E & He' & Ht' & _).
    unfold persist_session. rewrite E. cbn. split; [|done]. split; [done|done|].
    intros id' Hid. apply lookup_insert_is_Some in Hid as [<-|[_ Hid]]; [apply Hf|by apply Hk].
  - unfold session_validate. destruct (sm_sessions m !! id) as [en|] eqn:E; [|done].
    destruct (after now (se_expires_at en)); [|done]. cbn. split; [by apply sessions_ok_delete|done].
  - cbn. split; [by apply sessions_ok_delete|done].
  - unfold session_revoke_by_username. pose proof (revoke_loop_spec username now ids e m 0 Hok) as Hr.
    destruct (revoke_loop _ _ _ _ _ _) as [[e' m'] n]. done.
Qed.

Fixpoint run_sessions (e : Engine) (m : SessionManager) (ops : list SessOp) : Engine * SessionManager :=
  match ops with
  | [] => (e, m)
  | op :: ops => let '(e, m) := run_session e m op in run_sessions e m ops
  end.

Lemma run_sessions_spec ops : ∀ e m,
  sessions_ok e (sm_sessions m) → Forall (session_fits (sm_ttl m)) ops →
  let '(e', m') := run_sessions e m ops in
  sessions_ok e' (sm_sessions m') ∧ sm_ttl m' = sm_ttl m ∧
  sm_sessions m' = foldl (λ s op, session_effect (sm_ttl m) op s) (sm_sessions m) ops.
Proof.
  induction ops as [|op ops IH]; intros e m Hok Hf; [done|]. apply Forall_cons in Hf as [Hop Hf].
  cbn [run_sessions foldl]. pose proof (run_session_spec e m op Hok Hop) as Hs.
  destruct (run_session e m op) as [e1 m1]. destruct Hs as (Hok1 & Ht1 & <-). rewrite <-Ht1 in *.
  by apply IH.
Qed.
End sessions.

(** * Tokens *)

Section tokens.
Context `{UnicodeTables} `{Json tokenRecord}.

(** The index by hash has exactly the stored tokens. *)
Record tokens_ok (e : Engine) (mt : gmap bytes tokenRecord) : Prop := {
  tk_engine : engine_ok e;
  tk_table : table treeTokens (rows e) mt;
  tk_by_hash h id : rows e !! (treeTokensByHash, h) = Some id ↔ ∃ r, mt !! id = Some r ∧ tr_hash r = h;
  tk_keyed id r : mt !! id = Some r → tr_id r = id ∧ zlen id < 4096 ∧ zlen (tr_hash r) < 4096;
}.

Lemma tree_tokens_ok : tree_ok treeTokens ∧ tree_ok treeTokensByHash.
Proof. unfold tree_ok. split_and!; apply (bool_decide_unpack _); vm_compute; done. Qed.

Lemma token_trees_differ (a b : bytes) : (treeTokensByHash, a) ≠ (treeTokens, b).
Proof. intros E. apply (f_equal fst) in E. by vm_compute in E. Qed.

Lemma token_hash_length t : zlen (token_hash t) = 2 * zlen (sha256 t).
Proof. apply hex_encode_length. Qed.

(** The record of a new token whose identifier and hash are not in use. *)
Lemma create_token_spec e mt name role expires_at description raw_token token_id now tx_now :
  tokens_ok e mt → trim_space name ≠ [] →
  let record := new_token_record name role raw_token token_id expires_at description now in
  mt !! token_id = None → (∀ id r, mt !! id = Some r → tr_hash r ≠ token_hash raw_token) →
  row_fits token_id record → zlen (token_hash raw_token) < 4096 →
  ∀ rand_token rand_id, random_hex 32 rand_token = Ok raw_token → random_hex 12 rand_id = Ok token_id →
  ∃ e', create_token e name role expires_at description rand_token rand_id now tx_now [] =
      (e', Ok (to_public_token record, bs "msn_" ++ raw_token)) ∧ tokens_ok e' (<[token_id := record]> mt).
Proof.
  intros [He Ht Hh Hk] Hname record Hid Hhash (Hok & Hidlen & Hsize) Hhlen rand_token rand_id Ert Eri.
  unfold create_token. rewrite bool_decide_eq_false_2 by done. rewrite Ert, Eri. fold record.
  destruct (marshal_ok record Hok) as [raw Hraw]. rewrite Hraw.
  destruct tree_tokens_ok as [[G1 L1] [G2 L2]].
  change (tr_id record) with token_id. change (tr_hash record) with (token_hash raw_token).
  destruct (multi_write e [tx_put treeTokens token_id raw; tx_put treeTokensByHash (token_hash raw_token) token_id] tx_now He)
    as (e' & -> & He' & Hv).
  { do 2 (constructor; [split; [by left|done]|]). constructor. }
  { constructor; [apply loggable_row; auto|]. constructor; [|constructor]. apply loggable_row; [done|done|lia]. }
  exists e'. split; [done|].
  assert (Hrows : ∀ t k, rows e' !! (t, k) =
    <[(treeTokensByHash, token_hash raw_token) := token_id]> (<[(treeTokens, token_id) := raw]> (rows e)) !! (t, k)).
  { intros t k. rewrite Hv. done. }
  split; [done| | |].
  - intros k. rewrite Hrows, (lookup_insert_ne _ (treeTokensByHash, _)) by apply token_trees_differ. destruct (decide (k = token_id)) as [-> |Hkne].
    + rewrite !lookup_insert_eq. exists raw. split; [done|]. by apply unmarshal_marshal.
    + rewrite !lookup_insert_ne by congruence. apply Ht.
  - intros h id. rewrite Hrows. destruct (decide (h = token_hash raw_token)) as [-> |Hhne].
    + rewrite lookup_insert_eq. split.
      * intros [= <-]. exists record. by rewrite lookup_insert_eq.
      * intros (r & [[<- <-]|[_ Hr]]%lookup_insert_Some & Er); [done|]. by destruct (Hhash _ _ Hr).
    + rewrite !lookup_insert_ne by (congruence || apply not_eq_sym, token_trees_differ). rewrite Hh. split.
      * intros (r & Hr & Er). exists r. split; [|done]. rewrite lookup_insert_ne; [done|]. intros <-. by rewrite Hid in Hr.
      * intros (r & [[<- <-]|[_ Hr]]%lookup_insert_Some & Er); [by destruct Hhne|by exists r].
  - intros id r [[<- <-]|[_ Hr]]%lookup_insert_Some; [done|by apply Hk].
Qed.

Lemma revoke_token_spec e mt token_id now :
  tokens_ok e mt →
  match mt !! trim_space token_id with
  | Some _ => ∃ e', revoke_token e token_id now [] = (e', None) ∧ tokens_ok e' (base.delete (trim_space token_id) mt)
  | None => revoke_token e token_id now [] = (e, Some ErrNotFound)
  end.
Proof.
  intros [He Ht Hh Hk]. unfold revoke_token. rewrite (row_get_table _ _ _ _ Ht).
  set (id := trim_space token_id). destruct (mt !! id) as [r|] eqn:E; [|done].
  destruct (Hk _ _ E) as (Eid & Hidlen & Hhlen). destruct tree_tokens_ok as [[G1 L1] [G2 L2]]. rewrite Eid.
  destruct (multi_write e [tx_delete treeTokens id; tx_delete treeTokensByHash (tr_hash r)] now He)
    as (e' & -> & He' & Hv).
  { do 2 (constructor; [split; [by right|done]|]). constructor. }
  { constructor; [by apply loggable_row|]. constructor; [by apply loggable_row|constructor]. }
  exists e'. split; [done|].
  assert (Hrows : ∀ t k, rows e' !! (t, k) =
    base.delete (treeTokensByHash, tr_hash r) (base.delete (treeTokens, id) (rows e)) !! (t, k)).
  { intros t k. rewrite Hv. done. }
  split; [done| | |].
  - intros k. rewrite Hrows, (lookup_delete_ne _ (treeTokensByHash, _)) by apply token_trees_differ. destruct (decide (k = id)) as [-> |Hkne].
    + by rewrite !lookup_delete_eq.
    + rewrite !lookup_delete_ne by congruence. apply Ht.
  - intros h id'. rewrite Hrows. destruct (decide (h = tr_hash r)) as [-> |Hhne].
    + rewrite lookup_delete_eq. split; [done|]. intros (r' & [Hne' Hr']%lookup_delete_Some & Er').
      assert (rows e !! (treeTokensByHash, tr_hash r) = Some id) as E1 by (apply Hh; by exists r).
      assert (rows e !! (treeTokensByHash, tr_hash r) = Some id') as E2 by (apply Hh; by exists r'). congruence.
    + rewrite !lookup_delete_ne by (congruence || apply not_eq_sym, token_trees_differ). rewrite Hh. split.
      * intros (r' & Hr' & Er'). exists r'. split; [|done]. apply lookup_delete_Some. split; [|done]. intros <-. rewrite E in Hr'. injection Hr' as <-. by destruct Hhne.
      * intros (r' & [_ Hr']%lookup_delete_Some & Er'). by exists r'.
  - intros id' r' [_ Hr']%lookup_delete_Some. by apply Hk.
Qed.

(** A hash has at most 64 digits. *)
Lemma token_hash_fits t : zlen (token_hash t) < 4096.
Proof. rewrite token_hash_length. pose proof (sha256_length t). lia. Qed.

Lemma hex_encode_printable s : Forall printable (hex_encode s).
Proof.
  unfold hex_encode. induction s as [|b s IH]; [constructor|]. rewrite bind_cons. apply Forall_app. split; [|done].
  apply (bool_decide_unpack _). destruct b; vm_compute; done.
Qed.

(** The token in a request. *)
Definition bearer_hash (token : bytes) : bytes := token_hash (trim_prefix (trim_space token) (bs "msn_")).

(** The secret of a token has the hash of its record. *)
Lemma bearer_hash_secret n rand raw_token :
  random_hex n rand = Ok raw_token → bearer_hash (bs "msn_" ++ raw_token) = token_hash raw_token.
Proof.
  unfold random_hex. destruct (n <=? 0); [done|]. intros (b & _ & E)%bind_ok. injection E as <-.
  unfold bearer_hash. rewrite trim_printable.
  - unfold trim_prefix. by rewrite has_prefix_app.
  - apply Forall_app. split; [apply (bool_decide_unpack _); vm_compute; done|apply hex_encode_printable].
Qed.

Definition token_live (now : time) (r : tokenRecord) : Prop :=
  match tr_expires_at r with Some t => after now t = false | None => True end.

Lemma bearer_spec e mt token now tx_now :
  tokens_ok e mt → trim_space token ≠ [] →
  (∀ id r, mt !! id = Some r → row_fits id (r <| tr_last_used_at := Some now |>)) →
  (∃ id r, mt !! id = Some r ∧ tr_hash r = bearer_hash token ∧ token_live now r ∧
     ∃ e', authenticate_bearer e token now tx_now [] =
         (e', Ok (mkIdentity (bs "token:" ++ tr_name r) (tr_role r) (bs "token") id)) ∧
       tokens_ok e' (<[id := r <| tr_last_used_at := Some now |>]> mt)) ∨
  ((∀ id r, mt !! id = Some r → tr_hash r = bearer_hash token → ¬ token_live now r) ∧
   authenticate_bearer e token now tx_now [] = (e, Err ErrInvalidCredentials)).
Proof.
  intros [He Ht Hh Hk] Hne Hfits. unfold authenticate_bearer. rewrite bool_decide_eq_false_2 by done.
  fold (bearer_hash token). rewrite get_view. change (view (trees e)) with (rows e).
  destruct (rows e !! (treeTokensByHash, bearer_hash token)) as [id|] eqn:E.
  - apply Hh in E as (r & Hr & Er). rewrite get_view. change (view (trees e)) with (rows e).
    pose proof (Ht id) as Hrow. rewrite Hr in Hrow. destruct Hrow as (raw & -> & ->).
    destruct (Hk _ _ Hr) as (Eid & _). unfold token_live.
    destruct (match tr_expires_at r with Some t => after now t | None => false end) eqn:Ex.
    + right. split; [|done]. intros id' r' Hr' Er'.
      assert (id' = id) as ->.
      { assert (rows e !! (treeTokensByHash, bearer_hash token) = Some id') by (apply Hh; by exists r').
        assert (rows e !! (treeTokensByHash, bearer_hash token) = Some id) by (apply Hh; by exists r). congruence. }
      rewrite Hr in Hr'. injection Hr' as <-. destruct (tr_expires_at r); [congruence|done].
    + left. exists id, r. split; [done|]. split; [done|]. split; [by destruct (tr_expires_at r)|].
      change (tr_id (r <| tr_last_used_at := Some now |>)) with (tr_id r). rewrite Eid.
      destruct (row_put_table treeTokens e mt id (r <| tr_last_used_at := Some now |>) tx_now (proj1 tree_tokens_ok) He Ht (Hfits _ _ Hr))
        as (e' & Ee & He' & Ht' & Hsame).
      rewrite Ee. cbn [fst]. exists e'. split; [done|]. split; [done|done| |].
      * intros h id'. rewrite Hsame by (vm_compute; done). rewrite Hh. split.
        -- intros (r' & Hr' & Er'). destruct (decide (id' = id)) as [-> |Hid].
           ++ rewrite Hr in Hr'. injection Hr' as <-. eexists. rewrite lookup_insert_eq. done.
           ++ exists r'. by rewrite lookup_insert_ne.
        -- intros (r' & [[<- <-]|[_ Hr']]%lookup_insert_Some & Er'); [by exists r|by exists r'].
      * intros id' r' [[<- <-]|[_ Hr']]%lookup_insert_Some; [|by apply Hk]. by apply Hk in Hr.
  - right. split; [|done]. intros id r Hr Er. exfalso.
    assert (rows e !! (treeTokensByHash, bearer_hash token) = Some id) by (apply Hh; by exists r). congruence.
Qed.
End tokens.

(** * Users *)

Section users.
Context `{UnicodeTables} `{Bcrypt} `{Json User}.

Record users_ok (e : Engine) (mu : gmap bytes User) : Prop := {
  us_engine : engine_ok e;
  us_table : table treeUsers (rows e) mu;
}.

Lemma tree_users_ok : tree_ok treeUsers.
Proof. unfold tree_ok. split; apply (bool_decide_unpack _); vm_compute; done. Qed.

Lemma has_users_spec e mu : users_ok e mu → has_users e = Ok (negb (bool_decide (mu = ∅))).
Proof.
  intros [[(Hwf & _) _] Ht]. destruct (row_scan treeUsers e mu Hwf Ht) as (rs & as_ & Hit & Has & _ & Hin).
  unfold has_users. edestruct Hit as (err & -> & Herr).
  assert (Hf : BTree.fold_until (λ _ _ _, (true, false)) false rs = negb (bool_decide (mu = ∅))).
  { destruct Has as [|[k v] a rs as_ _ _].
    - rewrite bool_decide_eq_true_2; [done|]. apply map_eq. intros k. rewrite lookup_empty.
      destruct (mu !! k) as [x|] eqn:E; [|done]. apply Hin in E. by apply elem_of_nil in E.
    - rewrite bool_decide_eq_false_2; [done|]. intros ->.
      assert ((∅ : gmap bytes User) !! k = Some a) as E by (apply Hin; left). by rewrite lookup_empty in E. }
  rewrite Hf. destruct Herr as [-> |[-> Hrs]]; [done|]. subst rs. cbn in Hf. by rewrite <-Hf.
Qed.

Lemma get_user_spec e mu name : users_ok e mu →
  get_user e name = match mu !! normalize_username name with Some u => Ok u | None => Err ErrNotFound end.
Proof. intros [_ Ht]. by apply row_get_table. Qed.

Lemma upsert_user_spec e mu user now tx_now :
  users_ok e mu → row_fits (u_username (user_row user now)) (user_row user now) →
  ∃ e', upsert_user e user now tx_now [] = (e', None) ∧
    users_ok e' (<[u_username (user_row user now) := user_row user now]> mu).
Proof.
  intros [He Ht] Hf. unfold upsert_user.
  destruct (row_put_table treeUsers e mu _ (user_row user now) tx_now tree_users_ok He Ht Hf) as (e' & E & He' & Ht' & _).
  exists e'. split; [exact E|]. by split.
Qed.
End users.
