(* ===== verification/AuthTheorems.v ===== *)
(** The theorems on the authentication service. *)

From S2P Require Import Prelude.
From S2P Require Import GoBytes.
From S2P Require Import GoStrings.
From S2P Require Import GoTime.
From S2P Require Import GoJson.
From S2P Require Import GoNet6.
From S2P Require Import GoSha.
From S2P Require Import Wal.
From S2P Require Import StorageEngine.
From S2P Require Import StorageSpec.
From S2P Require Import StorageTheorems.
From S2P Require Import RowTable.
From S2P Require Import LeaseTheorems.
From S2P Require Import Auth.
From S2P Require Import AuthSpec.
From S2P Require Import AuthTables.

Section theorems.
Context `{UnicodeTables} `{Bcrypt} `{Json User} `{Json tokenRecord} `{Json sessionEntry}.



(** C21: an expired session on the disk stops the next start.  With an engine whose
    log takes the deletes, [NewService] returns exactly when no stored session has
    expired: [BTree.Iterate] holds the read lock of the tree while [load] runs its
    callback, and the delete of an expired session asks for the write lock of the same
    tree, which its goroutine then never gets. *)
Theorem expired_session_blocks_start e m now options :
  sessions_ok e m → (is_Some (new_service e options now (λ _, [])) ↔ unexpired now m).
Proof.
  intros Hok. unfold new_service, new_session_manager. rewrite (load_sessions_spec e m now Hok).
  destruct (decide (unexpired now m)) as [Hu|Hu].
  - rewrite (bool_decide_eq_true_2 _ Hu). split; [done|]. cbn. by eexists.
  - rewrite (bool_decide_eq_false_2 _ Hu). split; [|done]. by intros [x Hx].
Qed.

(** C22: an API token is accepted exactly while it is stored and has not expired.
    Creating one (with an identifier and a hash that are not in use) adds its
    record, and the secret it returns has the record's hash; revoking removes the
    record and its hash; and a bearer token is accepted, with the name and role of
    the record, exactly when an unexpired stored record has its hash. *)
Theorem tokens_refine e mt name role expires_at description raw_token token_id rand_token rand_id now tx_now :
  tokens_ok e mt → trim_space name ≠ [] →
  let record := new_token_record name role raw_token token_id expires_at description now in
  random_hex 32 rand_token = Ok raw_token → random_hex 12 rand_id = Ok token_id →
  mt !! token_id = None → (∀ id r, mt !! id = Some r → tr_hash r ≠ token_hash raw_token) →
  row_fits token_id record →
  (∃ e', create_token e name role expires_at description rand_token rand_id now tx_now [] =
      (e', Ok (to_public_token record, bs "msn_" ++ raw_token)) ∧
    tokens_ok e' (<[token_id := record]> mt) ∧ bearer_hash (bs "msn_" ++ raw_token) = tr_hash record) ∧
  (∀ id, match mt !! trim_space id with
   | Some _ => ∃ e', revoke_token e id tx_now [] = (e', None) ∧ tokens_ok e' (base.delete (trim_space id) mt)
   | None => revoke_token e id tx_now [] = (e, Some ErrNotFound)
   end) ∧
  (∀ token, trim_space token ≠ [] →
   (∀ id r, mt !! id = Some r → row_fits id (r <| tr_last_used_at := Some now |>)) →
   (∃ id r, mt !! id = Some r ∧ tr_hash r = bearer_hash token ∧ token_live now r ∧
      ∃ e', authenticate_bearer e token now tx_now [] =
          (e', Ok (mkIdentity (bs "token:" ++ tr_name r) (tr_role r) (bs "token") id)) ∧
        tokens_ok e' (<[id := r <| tr_last_used_at := Some now |>]> mt)) ∨
   ((∀ id r, mt !! id = Some r → tr_hash r = bearer_hash token → ¬ token_live now r) ∧
    authenticate_bearer e token now tx_now [] = (e, Err ErrInvalidCredentials))).
Proof.
  intros Hok Hname record Ert Eri Hid Hhash Hf. split; [|split].
  - destruct (create_token_spec e mt name role expires_at description raw_token token_id now tx_now Hok Hname Hid Hhash Hf
      (token_hash_fits _) rand_token rand_id Ert Eri) as (e' & E & Hok').
    exists e'. split; [exact E|]. split; [exact Hok'|]. by eapply bearer_hash_secret.
  - intros id. by apply revoke_token_spec.
  - intros token. by apply bearer_spec.
Qed.

(** The administrator is created once.  While no user exists, bootstrapping
    with a password creates the administrator, who can then log in with that
    password; as soon as a user exists it is refused, and changes nothing. *)
Theorem bootstrap_once e mu username password salt hash now tx_now :
  users_ok e mu → normalize_username (admin_name username) = admin_name username →
  trim_space password ≠ [] → bcrypt_generate password salt = Ok hash →
  let user := user_row (mkUser (admin_name username) DefaultRoleAdmin hash 0 0) now in
  row_fits (u_username user) user →
  if bool_decide (mu = ∅) then
    ∃ e', bootstrap_admin e username password salt now tx_now [] = (e', None) ∧
      (∀ t now1 now2, (lockout_check t (admin_name username) now1).2 = None →
        (authenticate_local e' t (admin_name username) password now1 now2).2 =
          Ok (mkIdentity (admin_name username) DefaultRoleAdmin (bs "session") [])) ∧
      ∀ username2 password2 salt2, trim_space password2 ≠ [] →
        bootstrap_admin e' username2 password2 salt2 now tx_now [] = (e', Some ErrBootstrapUnavailable)
  else bootstrap_admin e username password salt now tx_now [] = (e, Some ErrBootstrapUnavailable).
Proof.
  intros Hok Hn Hp Hgen user Hf. pose proof (has_users_spec e mu Hok) as Hu. unfold bootstrap_admin at 1 3.
  rewrite !(bool_decide_eq_false_2 (trim_space password = [])) by done. rewrite Hu.
  destruct (decide (mu = ∅)) as [Emu|Hne].
  2:{ by rewrite (bool_decide_eq_false_2 (mu = ∅)). }
  rewrite !(bool_decide_eq_true_2 (mu = ∅)) by done. cbn [negb]. rewrite Hgen.
  destruct (upsert_user_spec e mu (mkUser (admin_name username) DefaultRoleAdmin hash 0 0) now tx_now Hok Hf)
    as (e' & E & Hok'). fold user in Hok'.
  assert (Ename : u_username user = admin_name username) by exact Hn.
  exists e'. split; [exact E|]. split.
  - intros t now1 now2 Hcheck. unfold authenticate_local. rewrite Hn.
    destruct (lockout_check t (admin_name username) now1) as [t1 o]. cbn [snd] in Hcheck. subst o. unfold login_compare.
    rewrite (get_user_spec e' _ (admin_name username) Hok'), Hn, Ename, lookup_insert_eq.
    change (u_password_hash user) with hash. rewrite (bcrypt_own_hash _ _ _ Hgen). cbn [login_finish snd]. rewrite Ename.
    done.
  - intros username2 password2 salt2 Hp2. unfold bootstrap_admin. rewrite bool_decide_eq_false_2 by done.
    rewrite (has_users_spec e' _ Hok'). rewrite bool_decide_eq_false_2; [done|]. apply insert_non_empty.
Qed.
End theorems.

(** * Witnesses *)

#[local] Existing Instance ascii_tables.

(** A hash that is the password with a mark. *)
Definition marked_bcrypt : Bcrypt.
Proof.
  refine {|
    bcrypt_generate := λ password _, Ok (bs "$2a$" ++ password);
    bcrypt_compare := λ h password, bool_decide (h = bs "$2a$" ++ password);
  |}.
  intros password salt h [= <-]. by apply bool_decide_eq_true.
Defined.
#[local] Existing Instance marked_bcrypt.

Definition user_fields (u : User) : list bytes :=
  [u_username u; u_role u; u_password_hash u; put_int (u_created_at u); put_int (u_updated_at u)].
Definition user_of_fields (fs : list bytes) : option User :=
  match fs with
  | [f1; f2; f3; f4; f5] => Some (mkUser f1 f2 f3 (get_int f4) (get_int f5))
  | _ => None
  end.
Definition user_json_ok (u : User) : Prop :=
  Forall bytes_ok (user_fields u) ∧ Forall int_ok [u_created_at u; u_updated_at u].
#[local] Instance user_json_ok_dec u : Decision (user_json_ok u).
Proof. unfold user_json_ok. apply _. Defined.
#[local] Instance packed_user : Json User.
Proof.
  refine (packed 5 user_fields user_of_fields user_json_ok _).
  intros [n r h c u] [Hf Hi]. split; [done|]. split; [exact Hf|].
  rewrite !Forall_cons in Hi. destruct Hi as (? & ? & _). cbn [user_fields user_of_fields] in *.
  by rewrite !get_put_int.
Defined.

Definition session_fields (s : sessionEntry) : list bytes :=
  [id_username (se_identity s); id_role (se_identity s); id_auth_type (se_identity s);
   id_token_id (se_identity s); put_int (se_expires_at s)].
Definition session_of_fields (fs : list bytes) : option sessionEntry :=
  match fs with
  | [f1; f2; f3; f4; f5] => Some (mkSessionEntry (mkIdentity f1 f2 f3 f4) (get_int f5))
  | _ => None
  end.
Definition session_json_ok (s : sessionEntry) : Prop :=
  Forall bytes_ok (session_fields s) ∧ int_ok (se_expires_at s).
#[local] Instance session_json_ok_dec s : Decision (session_json_ok s).
Proof. unfold session_json_ok. apply _. Defined.
#[local] Instance packed_session : Json sessionEntry.
Proof.
  refine (packed 5 session_fields session_of_fields session_json_ok _).
  intros [[n r a t] x] [Hf Hi]. split; [done|]. split; [exact Hf|]. cbn [session_fields session_of_fields] in *.
  by rewrite get_put_int.
Defined.

(** An optional time: no bytes, or the integer. *)
Definition put_opt (o : option time) : bytes := match o with Some t => put_int t | None => [] end.
Definition get_opt (raw : bytes) : option time := match raw with [] => None | _ => Some (get_int raw) end.
Definition opt_ok (o : option time) : Prop := match o with Some t => int_ok t | None => True end.
#[local] Instance opt_ok_dec o : Decision (opt_ok o).
Proof. destruct o; cbn; apply _. Defined.
Lemma get_put_opt o : opt_ok o → get_opt (put_opt o) = o.
Proof.
  destruct o as [t|]; [|done]. intros Ht. unfold get_opt, put_opt.
  destruct (put_int t) eqn:E; [|by rewrite <-E, get_put_int].
  pose proof (be_put_length 16 (t + 2 ^ 127)) as Hl. unfold put_int in E. by rewrite E in Hl.
Qed.

Definition token_fields (r : tokenRecord) : list bytes :=
  [tr_id r; tr_name r; tr_role r; tr_hash r; tr_prefix r; put_int (tr_created_at r);
   put_opt (tr_expires_at r); put_opt (tr_last_used_at r); tr_description r].
Definition token_of_fields (fs : list bytes) : option tokenRecord :=
  match fs with
  | [f1; f2; f3; f4; f5; f6; f7; f8; f9] =>
      Some (mkTokenRecord f1 f2 f3 f4 f5 (get_int f6) (get_opt f7) (get_opt f8) f9)
  | _ => None
  end.
Definition token_json_ok (r : tokenRecord) : Prop :=
  Forall bytes_ok (token_fields r) ∧ int_ok (tr_created_at r) ∧ opt_ok (tr_expires_at r) ∧ opt_ok (tr_last_used_at r).
#[local] Instance token_json_ok_dec r : Decision (token_json_ok r).
Proof. unfold token_json_ok. apply _. Defined.
#[local] Instance packed_token : Json tokenRecord.
Proof.
  refine (packed 9 token_fields token_of_fields token_json_ok _).
  intros [i n r h p c x l d] (Hf & Hc & Hx & Hl). split; [done|]. split; [exact Hf|].
  cbn [token_fields token_of_fields tr_id tr_name tr_role tr_hash tr_prefix tr_created_at tr_expires_at tr_last_used_at
    tr_description] in *. by rewrite get_put_int, !get_put_opt.
Defined.

(** Five wrong passwords, one at a time, one refused by the lock, and one after it. *)
Definition demo_attempts : list login_event :=
  [0; 1; 2; 3; 4; 5; 19] ≫= (λ n,
    [LoginBegin (bs "guess") (demo_now + n * minute); LoginFinish 0 (demo_now + n * minute)]).
Definition demo_logins : Logins := mkLogins (new_lockout_tracker 5 (15 * minute)) [].

(** There is no such user. *)
Lemma demo_all_fail evs : ∀ s, all_fail demo_engine (bs "admin") s evs.
Proof.
  assert (∃ er, get_user demo_engine (normalize_username (bs "admin")) = Err er) as [er E]
    by (eexists; vm_compute; reflexivity).
  induction evs as [|ev evs IH]; intros s; [done|]. split; [|apply IH]. destruct ev; [done|]. intros password _.
  unfold login_compare. by rewrite E.
Qed.


(** Eight logins that begin together all reach the password check. *)
Example concurrent_guesses :
  guesses demo_engine (bs "admin") demo_logins (replicate 8 (LoginBegin (bs "guess") demo_now)) = 8.
Proof. vm_compute. reflexivity. Qed.

(** A login that is still valid, and one that was revoked. *)
Definition demo_identity : Identity := mkIdentity (bs "admin") (bs "admin") (bs "session") [].
Definition demo_rand (z : Z) : result bytes := Ok (replicate 32 (byte_of_Z z)).
Definition demo_session_ops : list SessOp :=
  [SessCreate demo_identity (demo_rand 1) demo_now; SessCreate demo_identity (demo_rand 2) demo_now;
   SessRevoke (hex_encode (replicate 32 (byte_of_Z 2))) (demo_now + minute)].
Definition demo_sessions : SessionManager := mkSessionManager ∅ (24 * hour).

Lemma demo_sessions_ok : sessions_ok demo_engine ∅.
Proof.
  destruct demo_engine_ok as [Hd Hc]. split; [by split| |].
  - intros k. cbn. rewrite lookup_empty. vm_compute. done.
  - intros id [x Hx]. by rewrite lookup_empty in Hx.
Qed.

Lemma demo_session_fits : Forall (session_fits (24 * hour)) demo_session_ops.
Proof.
  do 2 (constructor; [intros id Hid; vm_compute in Hid; injection Hid as <-;
    refine (packed_row_fits _ _ _ _ _ _ _ _); vm_compute; reflexivity|]).
  constructor; [done|constructor].
Qed.


(** The start two days later. *)
Definition demo_expired : gmap bytes sessionEntry :=
  session_effect (24 * hour) (SessCreate demo_identity (demo_rand 1) demo_now) ∅.
Definition demo_expired_engine : Engine :=
  (run_session demo_engine demo_sessions (SessCreate demo_identity (demo_rand 1) demo_now)).1.

Lemma demo_expired_ok : sessions_ok demo_expired_engine demo_expired.
Proof.
  pose proof (run_session_spec demo_engine demo_sessions (SessCreate demo_identity (demo_rand 1) demo_now)
    demo_sessions_ok (Forall_inv demo_session_fits)) as Hr.
  unfold demo_expired_engine. destruct (run_session _ _ _) as [e' m']. destruct Hr as (Hok & _ & E).
  rewrite E in Hok. exact Hok.
Qed.

Lemma demo_expired_at_start : ¬ unexpired (demo_now + 48 * hour) demo_expired.
Proof. intros Hu. pose proof (bool_decide_eq_true_2 _ Hu) as Hb. vm_compute in Hb. discriminate Hb. Qed.

Lemma expired_session_blocks_start_witness :
  ¬ unexpired (demo_now + 48 * hour) demo_expired ∧
  (is_Some (new_service demo_expired_engine (mkServiceOptions (bs "local") [] 0 0 0) (demo_now + 48 * hour) (λ _, [])) ↔
    unexpired (demo_now + 48 * hour) demo_expired).
Proof.
  split; [exact demo_expired_at_start|].
  refine (expired_session_blocks_start demo_expired_engine demo_expired (demo_now + 48 * hour) _ demo_expired_ok).
Defined.

(** The same engine, an hour after the session was created, starts; and with a log that
    refuses the delete the start ends too, without the session. *)
Example unexpired_session_starts :
  (λ s, sm_ttl (svc_sessions s)) <$>
    new_service demo_expired_engine (mkServiceOptions (bs "local") [] hour 0 0) (demo_now + hour) (λ _, []) = Some hour.
Proof. vm_compute. reflexivity. Qed.
Example failed_delete_starts :
  (λ r, sm_sessions r.2) <$>
    new_session_manager demo_expired_engine hour (demo_now + 48 * hour) (λ _, [IoWriteFail 0]) = Some ∅.
Proof. vm_compute. reflexivity. Qed.

(** A token of one hour, created among none. *)
Definition demo_raw_token : bytes := hex_encode (replicate 32 (byte_of_Z 7)).
Definition demo_token_id : bytes := hex_encode (replicate 12 (byte_of_Z 9)).

Lemma demo_tokens_ok : tokens_ok demo_engine ∅.
Proof.
  destruct demo_engine_ok as [Hd Hc]. split; [by split| | |].
  - intros k. cbn. rewrite lookup_empty. vm_compute. done.
  - intros h id. split; [by vm_compute|]. intros (r & Hr & _). by rewrite lookup_empty in Hr.
  - intros id r Hr. by rewrite lookup_empty in Hr.
Qed.

Definition demo_token_record : tokenRecord :=
  new_token_record (bs "ci") (bs "operator") demo_raw_token demo_token_id (Some (demo_now + hour)) [] demo_now.

Lemma tokens_refine_witness :
  let record := demo_token_record in
  (∃ e', create_token demo_engine (bs "ci") (bs "operator") (Some (demo_now + hour)) [] (demo_rand 7) (demo_rand 9)
      demo_now demo_now [] = (e', Ok (to_public_token record, bs "msn_" ++ demo_raw_token)) ∧
    tokens_ok e' (<[demo_token_id := record]> ∅) ∧ bearer_hash (bs "msn_" ++ demo_raw_token) = tr_hash record) ∧
  (∀ id, match (∅ : gmap bytes tokenRecord) !! trim_space id with
   | Some _ => ∃ e', revoke_token demo_engine id demo_now [] = (e', None) ∧
       tokens_ok e' (base.delete (trim_space id) (∅ : gmap bytes tokenRecord))
   | None => revoke_token demo_engine id demo_now [] = (demo_engine, Some ErrNotFound)
   end) ∧
  (∀ token, trim_space token ≠ [] →
   (∀ id r, (∅ : gmap bytes tokenRecord) !! id = Some r → row_fits id (r <| tr_last_used_at := Some demo_now |>)) →
   (∃ id r, (∅ : gmap bytes tokenRecord) !! id = Some r ∧ tr_hash r = bearer_hash token ∧ token_live demo_now r ∧
      ∃ e', authenticate_bearer demo_engine token demo_now demo_now [] =
          (e', Ok (mkIdentity (bs "token:" ++ tr_name r) (tr_role r) (bs "token") id)) ∧
        tokens_ok e' (<[id := r <| tr_last_used_at := Some demo_now |>]> ∅)) ∨
   ((∀ id r, (∅ : gmap bytes tokenRecord) !! id = Some r → tr_hash r = bearer_hash token → ¬ token_live demo_now r) ∧
    authenticate_bearer demo_engine token demo_now demo_now [] = (demo_engine, Err ErrInvalidCredentials))).
Proof.
  refine (tokens_refine demo_engine ∅ (bs "ci") (bs "operator") (Some (demo_now + hour)) [] demo_raw_token demo_token_id
    (demo_rand 7) (demo_rand 9) demo_now demo_now demo_tokens_ok _ _ _ _ _ _).
  - vm_compute. discriminate.
  - vm_compute. reflexivity.
  - vm_compute. reflexivity.
  - apply lookup_empty.
  - intros id r Hr. rewrite lookup_empty in Hr. discriminate Hr.
  - refine (packed_row_fits _ _ _ _ _ _ _ _). vm_compute. reflexivity.
Defined.

Lemma demo_users_ok : users_ok demo_engine ∅.
Proof.
  destruct demo_engine_ok as [Hd Hc]. split; [by split|]. intros k. cbn. rewrite lookup_empty. vm_compute. done.
Qed.

Lemma bootstrap_once_witness :
  if bool_decide ((∅ : gmap bytes User) = ∅) then
    ∃ e', bootstrap_admin demo_engine [] (bs "secret") [] demo_now demo_now [] = (e', None) ∧
      (∀ t now1 now2, (lockout_check t (admin_name []) now1).2 = None →
        (authenticate_local e' t (admin_name []) (bs "secret") now1 now2).2 =
          Ok (mkIdentity (admin_name []) DefaultRoleAdmin (bs "session") [])) ∧
      ∀ username2 password2 salt2, trim_space password2 ≠ [] →
        bootstrap_admin e' username2 password2 salt2 demo_now demo_now [] = (e', Some ErrBootstrapUnavailable)
  else bootstrap_admin demo_engine [] (bs "secret") [] demo_now demo_now [] = (demo_engine, Some ErrBootstrapUnavailable).
Proof.
  refine (bootstrap_once demo_engine ∅ [] (bs "secret") [] (bs "$2a$secret") demo_now demo_now demo_users_ok _ _ _ _).
  - vm_compute. reflexivity.
  - vm_compute. discriminate.
  - vm_compute. reflexivity.
  - refine (packed_row_fits _ _ _ _ _ _ _ _). vm_compute. reflexivity.
Defined.
