(* ===== verification/Events.v ===== *)
(** internal/events/broker.go and internal/settings/ui_store.go.

    The broker gives every subscriber a buffered channel and drops what does not
    fit.  The channels that were unsubscribed are kept, for their receivers.  The
    settings of the interface are one row of the storage engine. *)

From S2P Require Import Prelude.
From S2P Require Import GoBytes.
From S2P Require Import GoTime.
From S2P Require Import GoChan.
From S2P Require Import GoJson.
From S2P Require Import Wal.
From S2P Require Import StorageEngine.
From S2P Require Import RowTable.

(** * The broker *)

Record Event (D : Type) := mkEvent { ev_type : bytes; ev_timestamp : time; ev_data : D }.
Arguments mkEvent {D} _ _ _.
Arguments ev_type {D} _.
Arguments ev_timestamp {D} _.
Arguments ev_data {D} _.

Record Broker (D : Type) := mkBroker {
  br_next_id : Z; br_subs : gmap Z (chan (Event D)); br_buf_size : Z; br_closed : gmap Z (chan (Event D))
}.
Arguments mkBroker {D} _ _ _ _.
Arguments br_next_id {D} _.
Arguments br_subs {D} _.
Arguments br_buf_size {D} _.
Arguments br_closed {D} _.

Section broker.
Context {D : Type}.

Definition new_broker (buffer_size : Z) : Broker D :=
  mkBroker 0 ∅ (if buffer_size <=? 0 then 32 else buffer_size) ∅.

Definition subscribe (b : Broker D) : Broker D * Z :=
  let id := br_next_id b + 1 in
  (mkBroker id (<[id := make_chan (br_buf_size b)]> (br_subs b)) (br_buf_size b) (br_closed b), id).

(** The function [Subscribe] returns. *)
Definition broker_unsubscribe (b : Broker D) (id : Z) : Broker D :=
  match br_subs b !! id with
  | None => b
  | Some c => mkBroker (br_next_id b) (base.delete id (br_subs b)) (br_buf_size b) (<[id := close_chan c]> (br_closed b))
  end.

Definition publish_event (b : Broker D) (evt : Event D) (now : time) : Broker D :=
  let evt := if is_zero (ev_timestamp evt) then mkEvent (ev_type evt) now (ev_data evt) else evt in
  mkBroker (br_next_id b) (broadcast evt (br_subs b)) (br_buf_size b) (br_closed b).

(** A receive of the subscriber. *)
Definition receive (b : Broker D) (id : Z) : Broker D * option (Event D) :=
  match br_subs b !! id with
  | None => (b, None)
  | Some c => let '(x, c) := recv_nb c in
      (mkBroker (br_next_id b) (<[id := c]> (br_subs b)) (br_buf_size b) (br_closed b), x)
  end.

(** Identifiers are not used again, and no buffer overflows. *)
Record broker_ok (b : Broker D) : Prop := {
  bo_size : 0 < br_buf_size b;
  bo_sub id c : br_subs b !! id = Some c →
    1 ≤ id ≤ br_next_id b ∧ ch_cap c = br_buf_size b ∧ chan_ok c ∧ ch_closed c = false;
  bo_closed id c : br_closed b !! id = Some c → 1 ≤ id ≤ br_next_id b ∧ br_subs b !! id = None;
}.

Lemma new_broker_ok n : broker_ok (new_broker n).
Proof.
  split; cbn; [destruct (Z.leb_spec n 0); lia|..]; intros id c; by rewrite lookup_empty.
Qed.

Lemma subscribe_ok b : 0 ≤ br_next_id b → broker_ok b → broker_ok (subscribe b).1.
Proof.
  intros Hn [Hs Hsub Hc]. split; cbn; [done| |].
  - intros id c [[<- <-]|[_ Hid]]%lookup_insert_Some.
    + split; [lia|]. split; [done|]. split; [|done]. unfold chan_ok. cbn. rewrite zlen_nil. lia.
    + destruct (Hsub _ _ Hid) as (? & ?). split; [lia|done].
  - intros id c Hid. destruct (Hc _ _ Hid) as [Hr Hnone]. split; [lia|].
    rewrite lookup_insert_ne by lia. done.
Qed.

Lemma unsubscribe_ok b id : broker_ok b → broker_ok (broker_unsubscribe b id).
Proof.
  intros [Hs Hsub Hc]. unfold broker_unsubscribe. destruct (br_subs b !! id) as [c|] eqn:E; [|by split].
  split; cbn; [done| |].
  - intros id' c' [_ Hid]%lookup_delete_Some. by apply Hsub.
  - intros id' c' [[<- <-]|[Hne Hid]]%lookup_insert_Some.
    + destruct (Hsub _ _ E). split; [done|]. by rewrite lookup_delete_eq.
    + destruct (Hc _ _ Hid) as [? Hn]. split; [done|]. by rewrite lookup_delete_ne.
Qed.

Lemma publish_ok b evt now : broker_ok b → broker_ok (publish_event b evt now).
Proof.
  intros [Hs Hsub Hc]. unfold publish_event. split; cbn; [done| |].
  - intros id c Hid. unfold broadcast in Hid. rewrite lookup_fmap in Hid.
    destruct (br_subs b !! id) as [c0|] eqn:E; [|done]. injection Hid as <-.
    destruct (Hsub _ _ E) as (? & Hcap & Hok & Hcl). split; [done|]. unfold send_nb at 1 3.
    destruct (zlen (ch_buf c0) <? ch_cap c0); cbn; (split; [done|]); (split; [by apply send_nb_ok|done]).
  - intros id c Hid. destruct (Hc _ _ Hid) as [? Hn]. split; [done|]. unfold broadcast. by rewrite lookup_fmap, Hn.
Qed.

(** A subscriber that does not receive holds the first events published since,
    as many as fit in its buffer. *)
Lemma publish_prefix b id c evts now :
  broker_ok b → br_subs b !! id = Some c →
  ∃ c', br_subs (foldl (λ b evt, publish_event b evt now) b evts) !! id = Some c' ∧
    ch_buf c' = take (Z.to_nat (br_buf_size b))
      (ch_buf c ++ ((λ evt, if is_zero (ev_timestamp evt) then mkEvent (ev_type evt) now (ev_data evt) else evt) <$> evts)).
Proof.
  intros Hok E. destruct (bo_sub _ Hok _ _ E) as (_ & Hcap & Hc & _). rewrite <-Hcap.
  set (stamp := λ evt : Event D, if is_zero (ev_timestamp evt) then mkEvent (ev_type evt) now (ev_data evt) else evt).
  exists (foldl (λ c x, send_nb x c) c (stamp <$> evts)). split; [|by apply broadcast_prefix].
  clear Hok Hcap Hc. revert b c E. induction evts as [|evt evts IH]; intros b c E; [done|].
  cbn [foldl fmap list_fmap]. apply IH. cbn. unfold broadcast. by rewrite lookup_fmap, E.
Qed.
End broker.

(** * The settings *)

Definition treeSettings := bs "settings".
Definition keyUI := bs "ui".

Record UISettings := mkUISettings { ui_theme : bytes; ui_density : bytes; ui_auto_refresh : bool }.

Definition default_ui_settings : UISettings := mkUISettings (bs "system") (bs "comfortable") true.

Section settings.
Context `{Json UISettings}.

Definition fill_settings (s : UISettings) : UISettings :=
  mkUISettings (if bool_decide (ui_theme s = []) then bs "system" else ui_theme s)
    (if bool_decide (ui_density s = []) then bs "comfortable" else ui_density s) (ui_auto_refresh s).

Definition settings_get (e : Engine) : result UISettings :=
  match get e treeSettings keyUI with
  | Ok raw => out ← unmarshal raw; Ok (fill_settings out)
  | Err ErrNotFound => Ok default_ui_settings
  | Err er => Err er
  | Panic p => Panic p
  end.

Definition settings_set (e : Engine) (value : UISettings) (now : time) (io : list append_io)
    : Engine * option error := row_put treeSettings e keyUI (fill_settings value) now io.

Lemma fill_settings_idemp s : fill_settings (fill_settings s) = fill_settings s.
Proof.
  destruct s as [t d a]. unfold fill_settings. cbn.
  destruct (decide (t = [])) as [->|Ht]; destruct (decide (d = [])) as [->|Hd];
    rewrite ?(bool_decide_eq_false_2 (t = [])), ?(bool_decide_eq_false_2 (d = [])) by done; done.
Qed.

(** What is set is read back, with the defaults filled in. *)
Lemma settings_roundtrip e value now :
  engine_ok e → row_fits keyUI (fill_settings value) →
  ∀ m, table treeSettings (rows e) m →
  ∃ e', settings_set e value now [] = (e', None) ∧ settings_get e' = Ok (fill_settings value).
Proof.
  intros He Hf m Hm. assert (Htree : tree_ok treeSettings).
  { unfold tree_ok. split; apply (bool_decide_unpack _); vm_compute; done. }
  destruct (row_put_table treeSettings e m keyUI (fill_settings value) now Htree He Hm Hf) as (e' & E & _ & Ht & _).
  exists e'. split; [exact E|]. unfold settings_get. pose proof (row_get_table treeSettings e' _ keyUI Ht) as Hg.
  rewrite lookup_insert_eq in Hg. unfold row_get in Hg. destruct (get e' treeSettings keyUI) as [raw| |]; [|done..].
  cbn [mbind result_bind] in *. rewrite Hg. cbn. by rewrite fill_settings_idemp.
Qed.
End settings.
