(* ===== verification/AuditLog.v ===== *)
(** internal/audit: the audit log.

    An entry is a row keyed by its time in twenty digits and its identifier, so
    the rows are in the order of time.  The maps of an entry are of any type. *)

From S2P Require Import Prelude.
From S2P Require Import GoBytes.
From S2P Require Import GoStrings.
From S2P Require Import GoTime.
From S2P Require Import GoJson.
From S2P Require Import GoSort.
From S2P Require Import StorageTree.
From S2P Require Import Wal.
From S2P Require Import StorageEngine.
From S2P Require Import StorageSpec.
From S2P Require Import RowTable.
From S2P Require Import StorageTheorems.
From S2P Require Import LeaseTheorems.

Definition treeAudit := bs "audit".

Record Entry (D : Type) := mkEntry {
  en_id : bytes; en_timestamp : time; en_actor : bytes; en_action : bytes; en_object_type : bytes;
  en_object_id : bytes; en_source : bytes; en_before : D; en_after : D; en_meta : D
}.
Arguments mkEntry {D} _ _ _ _ _ _ _ _ _ _.
Arguments en_id {D} _.
Arguments en_timestamp {D} _.
Arguments en_actor {D} _.
Arguments en_action {D} _.
Arguments en_object_type {D} _.
Arguments en_object_id {D} _.
Arguments en_source {D} _.
Arguments en_before {D} _.
Arguments en_after {D} _.
Arguments en_meta {D} _.

Record QueryFilter := mkQueryFilter {
  qf_actor : bytes; qf_action : bytes; qf_object_type : bytes; qf_object_id : bytes; qf_source : bytes;
  qf_query : bytes; qf_from : time; qf_to : time; qf_limit : Z
}.

Section audit.
Context {D : Type} `{UnicodeTables} `{SliceSort} `{Json (Entry D)}.

Definition audit_key (t : time) (id : bytes) : bytes := time_key t id.

(** The entry with its defaults; [rand] is what the random source gives. *)
Definition complete_entry (entry : Entry D) (rand : result bytes) (now : time) : result (Entry D) :=
  let ts := if is_zero (en_timestamp entry) then now else en_timestamp entry in
  id ← (if bool_decide (trim_space (en_id entry) = []) then b ← rand; Ok (hex_encode (take 8 b))
        else Ok (en_id entry));
  Ok (mkEntry id ts (en_actor entry) (en_action entry) (en_object_type entry) (en_object_id entry)
        (if bool_decide (trim_space (en_source entry) = []) then bs "api" else en_source entry)
        (en_before entry) (en_after entry) (en_meta entry)).

Definition audit_log (e : Engine) (entry : Entry D) (rand : result bytes) (now tx_now : time)
    (io : list append_io) : Engine * option error :=
  match complete_entry entry rand now with
  | Ok entry => row_put treeAudit e (audit_key (en_timestamp entry) (en_id entry)) entry tx_now io
  | Err er => (e, Some er)
  | Panic p => (e, Some (ErrIO p))
  end.

Definition field_matches (wanted actual : bytes) : bool := bool_decide (wanted = []) || equal_fold actual wanted.

Definition matches_entry (entry : Entry D) (f : QueryFilter) : bool :=
  field_matches (qf_actor f) (en_actor entry) && field_matches (qf_action f) (en_action entry) &&
  field_matches (qf_object_type f) (en_object_type entry) && field_matches (qf_object_id f) (en_object_id entry) &&
  field_matches (qf_source f) (en_source entry) &&
  (bool_decide (qf_query f = []) ||
   contains (to_lower (join [en_actor entry; en_action entry; en_object_type entry; en_object_id entry; en_source entry]
                         [byte_of_Z 32]))
     (to_lower (trim_space (qf_query f)))).

(** The callback of [Query]. *)
Definition query_row (f : QueryFilter) (out : list (Entry D)) (_ value : bytes) : list (Entry D) * bool :=
  match unmarshal value with
  | Ok entry =>
      if negb (matches_entry entry f) then (out, true)
      else
        let out := out ++ [entry] in
        if (0 <? qf_limit f) && (qf_limit f <=? zlen out) then (out, false) else (out, true)
  | _ => (out, true)
  end.

Definition query_start (f : QueryFilter) : bytes :=
  if is_zero (qf_from f) then [] else fmt_020d (unix_nano (qf_from f)).
Definition query_end (f : QueryFilter) : bytes :=
  if is_zero (qf_to f) then [] else fmt_020d (unix_nano (qf_to f)) ++ [key_sep; byte_of_Z 255].

Definition newer (x y : Entry D) : bool := after (en_timestamp x) (en_timestamp y).

Definition audit_query (e : Engine) (f : QueryFilter) : result (list (Entry D)) :=
  match iterate e treeAudit (query_start f) (query_end f) (query_row f) [] with
  | (out, None) | (out, Some ErrNotFound) => Ok (sort_slice newer out)
  | (_, Some er) => Err er
  end.

(** * The log as a table *)

(** Times that twenty digits order, and identifiers below the end of a window. *)
Definition entry_ok (en : Entry D) : Prop :=
  0 ≤ unix_nano (en_timestamp en) < 10 ^ 20 ∧ bytes_le (en_id en) [byte_of_Z 255].

Record audit_ok (e : Engine) (ma : gmap bytes (Entry D)) : Prop := {
  ao_engine : engine_ok e;
  ao_table : table treeAudit (rows e) ma;
  ao_keyed k en : ma !! k = Some en → k = audit_key (en_timestamp en) (en_id en) ∧ entry_ok en;
}.

Lemma tree_audit_ok : tree_ok treeAudit.
Proof. unfold tree_ok. split; apply (bool_decide_unpack _); vm_compute; done. Qed.

Lemma audit_log_spec e ma entry rand now tx_now en :
  audit_ok e ma → complete_entry entry rand now = Ok en → entry_ok en →
  row_fits (audit_key (en_timestamp en) (en_id en)) en →
  ∃ e', audit_log e entry rand now tx_now [] = (e', None) ∧
    audit_ok e' (<[audit_key (en_timestamp en) (en_id en) := en]> ma).
Proof.
  intros [He Ht Hk] Hc Hen Hf. unfold audit_log. rewrite Hc.
  destruct (row_put_table treeAudit e ma _ en tx_now tree_audit_ok He Ht Hf) as (e' & E & He' & Ht' & _).
  exists e'. split; [exact E|]. split; [done|done|].
  intros k x [[<- <-]|[_ Hx]]%lookup_insert_Some; [done|by apply Hk].
Qed.

(** The window of a query. *)
Definition in_window (f : QueryFilter) (en : Entry D) : Prop :=
  (qf_from f = 0 ∨ unix_nano (qf_from f) ≤ unix_nano (en_timestamp en)) ∧
  (qf_to f = 0 ∨ unix_nano (en_timestamp en) ≤ unix_nano (qf_to f)).

Definition filter_ok (f : QueryFilter) : Prop :=
  (qf_from f = 0 ∨ 0 ≤ unix_nano (qf_from f) < 10 ^ 20) ∧ (qf_to f = 0 ∨ 0 ≤ unix_nano (qf_to f) < 10 ^ 20).

Lemma between_window f en :
  filter_ok f → entry_ok en →
  between (query_start f) (query_end f) (audit_key (en_timestamp en) (en_id en)) ↔ in_window f en.
Proof.
  intros [Hf Ht] [Hen Hid]. unfold between, in_window. assert (Hsplit : ∀ A B A' B' : Prop, (A ↔ A') → (B ↔ B') → (A ∧ B ↔ A' ∧ B')) by tauto. apply Hsplit; clear Hsplit.
  - unfold query_start, is_zero. destruct (Z.eqb_spec (qf_from f) 0) as [E|E].
    + split; [by left|]. intros _. unfold bytes_le. by destruct (audit_key _ _).
    + destruct Hf as [|Hf]; [done|]. unfold audit_key, time_key. rewrite !fmt_020d_nonneg by lia.
      unfold bytes_le. rewrite <-(app_nil_r (dec_pad 20 (unix_nano (qf_from f)))).
      rewrite bytes_compare_app_len by by rewrite !dec_pad_length. rewrite dec_pad_compare20 by done.
      destruct (Z.compare_spec (unix_nano (qf_from f)) (unix_nano (en_timestamp en))); cbn; split; intros ?; try done; try lia; right; lia.
  - unfold query_end, is_zero. destruct (Z.eqb_spec (qf_to f) 0) as [E|E]; [split; by left|].
    destruct Ht as [|Ht]; [done|]. unfold audit_key, time_key. rewrite !fmt_020d_nonneg by lia.
    unfold bytes_le. rewrite bytes_compare_app_len by by rewrite !dec_pad_length. rewrite dec_pad_compare20 by done.
    destruct (Z.compare_spec (unix_nano (en_timestamp en)) (unix_nano (qf_to f))) as [E'|E'|E'].
    + split; [intros _; right; lia|]. intros _. right. cbn. rewrite Z.compare_refl. exact Hid.
    + split; [intros _; right; lia|]. by right.
    + split; [|lia]. intros [Hn|Hn]; [|done]. by destruct (dec_pad 20 _).
Qed.

(** What a limit keeps of the matching entries. *)
Definition limited (f : QueryFilter) (l : list (Entry D)) : list (Entry D) :=
  if 0 <? qf_limit f then take (Z.to_nat (qf_limit f)) l else l.

Definition wanted (f : QueryFilter) (p : bytes * Entry D) : Prop :=
  between (query_start f) (query_end f) p.1 ∧ matches_entry p.2 f = true.

#[local] Instance wanted_dec f p : Decision (wanted f p).
Proof. unfold wanted. apply _. Defined.

#[local] Instance in_window_dec f en : Decision (in_window f en).
Proof. unfold in_window. apply _. Defined.

Lemma query_fold f rs as_ : ∀ out,
  Forall2 (λ (kv : bytes * bytes) a, unmarshal kv.2 = Ok a) rs as_ → (0 < qf_limit f → zlen out < qf_limit f) →
  BTree.fold_until (query_row f) out (filter (λ kv, between (query_start f) (query_end f) kv.1) rs) =
    limited f (out ++ (filter (wanted f) (zip rs.*1 as_)).*2).
Proof.
  intros out Hr. revert out. induction Hr as [|[k v] a rs as_ Ha _ IH]; intros out Hout; cbn [fmap list_fmap zip_with].
  { cbn. rewrite app_nil_r. unfold limited. destruct (Z.ltb_spec 0 (qf_limit f)); [|done].
    rewrite take_ge; [done|]. unfold zlen in Hout. lia. }
  rewrite !filter_cons. cbn [fst snd]. destruct (decide (between _ _ k)) as [Hb|Hb].
  2: { rewrite decide_False by (intros [? _]; done). by apply IH. }
  cbn [BTree.fold_until]. unfold query_row at 1. cbn [snd] in Ha. rewrite Ha.
  destruct (matches_entry a f) eqn:Em; cbn [negb].
  2: { rewrite decide_False by (intros [_ ?]; cbn in *; congruence). by apply IH. }
  rewrite decide_True by done. rewrite fmap_cons. cbn [snd].
  assert (Hlen : zlen (out ++ [a]) = zlen out + 1) by (unfold zlen; rewrite length_app; cbn; lia).
  destruct (Z.ltb_spec 0 (qf_limit f)) as [Hl|Hl]; cbn [andb].
  - destruct (Z.leb_spec (qf_limit f) (zlen (out ++ [a]))) as [Hle|Hle].
    + unfold limited. rewrite (proj2 (Z.ltb_lt 0 (qf_limit f))) by done. specialize (Hout Hl).
      assert (length (out ++ [a]) = Z.to_nat (qf_limit f)) as <- by (unfold zlen in *; lia).
      set (l := (filter _ _).*2). by rewrite (cons_middle a out l), (app_assoc out [a] l), take_app_length.
    + rewrite IH by done. by rewrite <-app_assoc.
  - rewrite IH by lia. by rewrite <-app_assoc.
Qed.

Lemma newer_weak_order : weak_order newer.
Proof. split; unfold newer, after; intros; rewrite ?Z.ltb_lt, ?Z.ltb_ge in *; lia. Qed.

(** The entries by time. *)
Lemma keyed_sorted (l : list (bytes * Entry D)) :
  StronglySorted bytes_lt l.*1 →
  (∀ k en, (k, en) ∈ l → k = audit_key (en_timestamp en) (en_id en) ∧ entry_ok en) →
  StronglySorted (λ x y, unix_nano (en_timestamp x) ≤ unix_nano (en_timestamp y)) l.*2.
Proof.
  induction l as [|[k en] l IH]; intros Hs Hk; [constructor|].
  rewrite !fmap_cons in *. apply StronglySorted_cons in Hs as [Hlt Hs]. apply StronglySorted_cons. split.
  - apply Forall_fmap, Forall_forall. intros [k' en'] Hin. cbn.
    destruct (Hk k en) as [-> [Ht _]]; [left|]. destruct (Hk k' en') as [-> [Ht' _]]; [by right|].
    rewrite Forall_fmap, Forall_forall in Hlt. specialize (Hlt _ Hin). cbn in Hlt. unfold bytes_lt in Hlt.
    unfold audit_key in Hlt. rewrite time_key_compare in Hlt by done. destruct (Z.compare_spec (unix_nano (en_timestamp en)) (unix_nano (en_timestamp en'))); [lia|lia|done].
  - apply IH; [done|]. intros k' en' Hin. apply Hk. by right.
Qed.

(** A query gives the entries of its window that match, newest first; but its
    limit keeps the oldest of them, since the log is read in the order of time and
    only what was read is sorted. *)
Theorem query_keeps_oldest e ma f :
  audit_ok e ma → filter_ok f →
  ∃ matching out, audit_query e f = Ok out ∧
    matching ≡ₚ (map_to_list (filter (λ p, in_window f p.2 ∧ matches_entry p.2 f = true) ma)).*2 ∧
    StronglySorted (λ x y, unix_nano (en_timestamp x) ≤ unix_nano (en_timestamp y)) matching ∧
    out ≡ₚ (if 0 <? qf_limit f then take (Z.to_nat (qf_limit f)) matching else matching) ∧
    StronglySorted (λ x y, newer y x = false) out.
Proof.
  intros [[(Hwf & _) _] Ht Hk] Hf. destruct (row_scan_between treeAudit e ma Hwf Ht) as (rs & as_ & Hit & Has & Hs & Hin).
  exists (filter (wanted f) (zip rs.*1 as_)).*2, (sort_slice newer (limited f (filter (wanted f) (zip rs.*1 as_)).*2)).
  assert (Hlen : length rs.*1 = length as_) by (rewrite length_fmap; exact (Forall2_length _ _ _ Has)).
  assert (Hz : (zip rs.*1 as_).*1 = rs.*1) by (apply fst_zip; lia).
  assert (Hnd : NoDup (zip rs.*1 as_)).
  { apply (NoDup_fmap_1 fst). rewrite Hz. exact (StronglySorted_NoDup _ _ Hs). }
  split; [|split; [|split; [|split]]].
  - unfold audit_query. destruct (Hit _ (query_row f) [] (query_start f) (query_end f)) as (err & -> & Herr).
    rewrite (query_fold f rs as_ [] Has) by (unfold zlen; cbn; lia). by destruct Herr as [->|[-> _]].
  - f_equiv. apply NoDup_Permutation; [by apply NoDup_filter|apply NoDup_map_to_list|].
    intros [k en]. rewrite elem_of_map_to_list, map_lookup_filter_Some, list_elem_of_filter, Hin.
    unfold wanted. cbn [fst snd]. split; intros [? ?].
    + destruct (Hk k en) as [-> Hen]; [done|]. split; [done|]. by rewrite <-between_window.
    + destruct (Hk k en) as [-> Hen]; [done|]. split; [|done]. by rewrite between_window.
  - apply keyed_sorted.
    + clear Hit Has Hin Hnd. rewrite <-Hz in Hs. clear Hz Hlen. induction (zip rs.*1 as_) as [|p l IH]; [constructor|].
      rewrite fmap_cons in Hs. apply StronglySorted_cons in Hs as [Hlt Hs]. rewrite filter_cons.
      destruct (decide (wanted f p)); [|by apply IH]. rewrite fmap_cons. apply StronglySorted_cons. split; [|by apply IH].
      rewrite Forall_fmap, Forall_forall in *. intros q [_ Hq]%list_elem_of_filter. by apply Hlt.
    + intros k en [_ Hz']%list_elem_of_filter. apply Hin in Hz'. by apply Hk.
  - apply sort_slice_perm.
  - apply sort_slice_sorted, newer_weak_order.
Qed.
End audit.

(** * Witnesses *)

#[local] Existing Instance ascii_tables.
#[local] Existing Instance small_slices.

Definition entry_fields (en : Entry ()) : list bytes :=
  [en_id en; put_int (en_timestamp en); en_actor en; en_action en; en_object_type en; en_object_id en; en_source en].
Definition entry_of_fields (fs : list bytes) : option (Entry ()) :=
  match fs with
  | [f1; f2; f3; f4; f5; f6; f7] => Some (mkEntry f1 (get_int f2) f3 f4 f5 f6 f7 () () ())
  | _ => None
  end.
Definition entry_json_ok (en : Entry ()) : Prop := Forall bytes_ok (entry_fields en) ∧ int_ok (en_timestamp en).
#[local] Instance entry_json_ok_dec en : Decision (entry_json_ok en).
Proof. unfold entry_json_ok. apply _. Defined.
#[local] Instance packed_entry : Json (Entry ()).
Proof.
  refine (packed 7 entry_fields entry_of_fields entry_json_ok _).
  intros [i t a c o oi s [] [] []] [Hf Hi]. split; [done|]. split; [exact Hf|]. cbn [entry_fields entry_of_fields] in *.
  by rewrite get_put_int.
Defined.

Definition demo_entry (id : bytes) (t : time) : Entry () :=
  mkEntry id t (bs "admin") (bs "auth.login") (bs "auth") (bs "admin") (bs "api") () () ().
Definition demo_audit_engine1 : Engine :=
  (audit_log demo_engine (demo_entry (bs "a") demo_now) (Ok []) demo_now demo_now []).1.
Definition demo_audit_engine : Engine :=
  (audit_log demo_audit_engine1 (demo_entry (bs "b") (demo_now + hour)) (Ok []) demo_now demo_now []).1.
Definition demo_filter (limit : Z) : QueryFilter := mkQueryFilter (bs "ADMIN") [] [] [] [] [] 0 0 limit.

(** The latest entry is asked for and the oldest is given. *)
Example limit_one_gives_the_oldest :
  audit_query demo_audit_engine (demo_filter 1) = Ok [demo_entry (bs "a") demo_now] ∧
  audit_query demo_audit_engine (demo_filter 0) =
    Ok [demo_entry (bs "b") (demo_now + hour); demo_entry (bs "a") demo_now].
Proof. split; vm_compute; reflexivity. Qed.

Definition demo_log1 : gmap bytes (Entry ()) := <[audit_key demo_now (bs "a") := demo_entry (bs "a") demo_now]> ∅.
Definition demo_log : gmap bytes (Entry ()) :=
  <[audit_key (demo_now + hour) (bs "b") := demo_entry (bs "b") (demo_now + hour)]> demo_log1.

Lemma demo_entry_logged e ma id t :
  audit_ok e ma → entry_ok (demo_entry id t) → trim_space id ≠ [] → t ≠ 0 →
  bool_decide (entry_json_ok (demo_entry id t) ∧ zlen (audit_key t id) < 4096 ∧
    zlen (pack (entry_fields (demo_entry id t))) < 4294900000) = true →
  audit_ok (audit_log e (demo_entry id t) (Ok []) demo_now demo_now []).1 (<[audit_key t id := demo_entry id t]> ma).
Proof.
  intros Hok Hen Hid Ht Hf. destruct (audit_log_spec e ma (demo_entry id t) (Ok []) demo_now demo_now (demo_entry id t))
    as (e' & E & Hok'); [done| |done|exact (packed_row_fits _ _ _ _ _ _ _ Hf)|by rewrite E].
  unfold complete_entry, demo_entry, is_zero. cbn [en_timestamp en_id en_source].
  rewrite (proj2 (Z.eqb_neq t 0) Ht), (bool_decide_eq_false_2 _ Hid). reflexivity.
Qed.

Lemma demo_audit_ok0 : audit_ok demo_engine (∅ : gmap bytes (Entry ())).
Proof.
  destruct demo_engine_ok as [Hd Hc]. split; [by split| |].
  - intros k. cbn. rewrite lookup_empty. vm_compute. done.
  - intros k en Hk. by rewrite lookup_empty in Hk.
Qed.

Lemma demo_audit_ok1 : audit_ok demo_audit_engine1 demo_log1.
Proof.
  refine (demo_entry_logged demo_engine ∅ (bs "a") demo_now demo_audit_ok0 _ _ _ _).
  - split; [split; [discriminate|reflexivity]|discriminate].
  - discriminate.
  - discriminate.
  - vm_compute. reflexivity.
Qed.

Lemma demo_audit_ok : audit_ok demo_audit_engine demo_log.
Proof.
  refine (demo_entry_logged demo_audit_engine1 demo_log1 (bs "b") (demo_now + hour) demo_audit_ok1 _ _ _ _).
  - split; [split; [discriminate|reflexivity]|discriminate].
  - discriminate.
  - discriminate.
  - vm_compute. reflexivity.
Qed.

Lemma query_keeps_oldest_witness :
  ∃ matching out, audit_query demo_audit_engine (demo_filter 1) = Ok out ∧
    matching ≡ₚ (map_to_list (filter (λ p, in_window (demo_filter 1) p.2 ∧ matches_entry p.2 (demo_filter 1) = true) demo_log)).*2 ∧
    StronglySorted (λ x y, unix_nano (en_timestamp x) ≤ unix_nano (en_timestamp y)) matching ∧
    out ≡ₚ (if 0 <? qf_limit (demo_filter 1) then take (Z.to_nat (qf_limit (demo_filter 1))) matching else matching) ∧
    StronglySorted (λ x y, newer y x = false) out.
Proof.
  refine (query_keeps_oldest demo_audit_engine demo_log (demo_filter 1) demo_audit_ok _).
  split; left; reflexivity.
Defined.
