(* ===== verification/Discovery.v ===== *)
(** internal/discovery: the regular expressions, the types, the engine and, at the end,
    the detector of rogue servers (rogue.go).

    [regexp]: the leftmost match of the patterns the code uses, with the
    alternatives in the order of the library: a repetition takes as much as it can. *)

From S2P Require Import Prelude.
From S2P Require Import GoBytes.
From S2P Require Import GoStrings.
From S2P Require Import GoTime.
From S2P Require Import GoJson.
From S2P Require Import GoNet.
From S2P Require Import GoNet6.
From S2P Require Import GoPrefix.
From S2P Require Import GoSort.
From S2P Require Import Wal.
From S2P Require Import StorageEngine.
From S2P Require Import RowTable.
From S2P Require Import Lease.
From S2P Require Import Ipam.
From S2P Require Import Dhcp4Wire.

Inductive re :=
| RClass (p : byte → bool)
| RBound
| RSeq (a b : re)
| ROpt (a : re)
| REmpty.

Definition is_word (c : byte) : bool :=
  let z := byte_to_Z c in
  (48 <=? z) && (z <=? 57) || (65 <=? z) && (z <=? 90) || (97 <=? z) && (z <=? 122) || (z =? 95).
Definition word_at (c : option byte) : bool := match c with Some c => is_word c | None => false end.

(** The match of [r] at [s] after the byte [prev], continued by [k]; the rest after it. *)
Fixpoint match_re (r : re) (prev : option byte) (s : bytes) (k : option byte → bytes → option bytes) : option bytes :=
  match r with
  | RClass p => match s with c :: s => if p c then k (Some c) s else None | [] => None end
  | RBound => if xorb (word_at prev) (word_at (hd_error s)) then k prev s else None
  | RSeq a b => match_re a prev s (λ prev s, match_re b prev s k)
  | ROpt a => match match_re a prev s k with Some rest => Some rest | None => k prev s end
  | REmpty => k prev s
  end.

(** [FindString]: no bytes when there is no match. *)
Fixpoint find_from (r : re) (prev : option byte) (s : bytes) : bytes :=
  match match_re r prev s (λ _ rest, Some rest) with
  | Some rest => take (length s - length rest) s
  | None => match s with [] => [] | c :: s => find_from r (Some c) s end
  end.
Definition find_string (r : re) (s : bytes) : bytes := find_from r None s.

(** [a{n}] and [a{0,n}] *)
Fixpoint re_times (n : nat) (a : re) : re := match n with O => REmpty | S n => RSeq a (re_times n a) end.
Fixpoint re_upto (n : nat) (a : re) : re := match n with O => REmpty | S n => ROpt (RSeq a (re_upto n a)) end.

Definition re_digit : re := RClass (λ c, (48 <=? byte_to_Z c) && (byte_to_Z c <=? 57)).
Definition re_byte (c : byte) : re := RClass (λ x, bool_decide (x = c)).
Definition re_hex : re := RClass (λ c, let z := byte_to_Z c in
  (48 <=? z) && (z <=? 57) || (65 <=? z) && (z <=? 70) || (97 <=? z) && (z <=? 102)).

(** internal/discovery: types.go, oui.go and engine.go: the discovery engine.

    A scan collects the hosts that leases, reservations and the ARP table name,
    probes them and the addresses of the pools, and compares with the hosts of the
    scan before.  What the network answers is an argument ([Probes]); the goroutine
    of a scan is one call, [run_scan], between [trigger_scan] and its end.  The text
    of a time in a row and the order of a loop over a map are interfaces. *)

Definition treeDiscoveryScans := bs "discovery_scans".
Definition treeDiscoveryMeta := bs "discovery_meta".
Definition keyLatestHosts := bs "latest_hosts".
Definition keyLatestRogue := bs "latest_rogue".
Definition keyLatestScanID := bs "latest_scan_id".
Definition keyLastScanAt := bs "last_scan_at".

(** * types.go *)

Record ScanRequest := mkScanRequest { sr_reason : bytes; sr_subnets : list bytes }.

Record Conflict := mkConflict { co_ip : bytes; co_macs : list bytes; co_severity : bytes; co_note : bytes }.
Record RogueServer := mkRogueServer {
  ro_ip : bytes; ro_mac : bytes; ro_vendor : bytes; ro_source : bytes; ro_detected : time
}.
Record ObservedHost := mkObservedHost {
  oh_ip : bytes; oh_mac : bytes; oh_vendor : bytes; oh_hostname : bytes; oh_subnet : bytes; oh_state : bytes;
  oh_seen_at : time
}.

Record ScanResult := mkScanResult {
  re_scan_id : bytes; re_status : bytes; re_reason : bytes; re_subnets : list bytes; re_started_at : time;
  re_completed_at : time; re_duration_ms : Z; re_total_hosts : Z; re_new_hosts : Z; re_known_hosts : Z;
  re_missing_hosts : Z; re_changed_hosts : Z; re_conflicts : list Conflict; re_rogue_servers : list RogueServer;
  re_hosts : list ObservedHost
}.

Record ScanProgress := mkScanProgress {
  pg_scan_id : bytes; pg_phase : bytes; pg_total : Z; pg_processed : Z; pg_percent : Z; pg_started_at : time;
  pg_updated_at : time; pg_in_progress : bool
}.
#[global] Instance eta_ScanProgress : Eta ScanProgress := λ p,
  mkScanProgress (pg_scan_id p) (pg_phase p) (pg_total p) (pg_processed p) (pg_percent p) (pg_started_at p)
    (pg_updated_at p) (pg_in_progress p).
Definition zero_progress : ScanProgress := mkScanProgress [] [] 0 0 0 0 0 false.

Record ScanStatus := mkScanStatus {
  st_sensor_online : bool; st_last_scan_at : time; st_rogue_detected : bool; st_active_conflicts : Z;
  st_next_scheduled_scan : time; st_scanning : bool; st_latest_scan_id : bytes; st_progress : ScanProgress
}.

#[global] Instance rogue_eq_dec : EqDecision RogueServer.
Proof. solve_decision. Defined.
#[global] Instance observed_eq_dec : EqDecision ObservedHost.
Proof. solve_decision. Defined.
#[global] Instance conflict_eq_dec : EqDecision Conflict.
Proof. solve_decision. Defined.

(** [time.MarshalText] and [UnmarshalText]: RFC 3339 with nanoseconds, which keeps
    the times of the years 0 to 9999. *)
Class TimeText := {
  time_marshal : time → result bytes;
  time_unmarshal : bytes → option time;
  time_text_ok : time → Prop;
  time_marshal_ok t : time_text_ok t → ∃ raw, time_marshal t = Ok raw;
  time_unmarshal_marshal t raw : time_text_ok t → time_marshal t = Ok raw → time_unmarshal raw = Some t;
}.

(** * oui.go *)

Definition oui_vendors : list (bytes * bytes) := map (λ p : string * string, (bs p.1, bs p.2))
  [("000C29", "VMware, Inc."); ("00163E", "Cisco Systems"); ("001A2B", "Ayecom Technology Co., Ltd.");
   ("001B63", "Apple, Inc."); ("00236C", "Juniper Networks"); ("002590", "Super Micro Computer, Inc.");
   ("0026B9", "Dell Inc."); ("005056", "VMware, Inc."); ("0080C2", "IEEE Registration Authority");
   ("0C4DE9", "Hewlett Packard Enterprise"); ("3C52A1", "Hewlett Packard"); ("40A8F0", "Ubiquiti Inc");
   ("44D9E7", "Dell Inc."); ("485D60", "AzureWave Technology Inc."); ("525400", "QEMU");
   ("58EF68", "TP-Link Corporation Limited"); ("5C514F", "Intel Corporate");
   ("5CF370", "Samsung Electronics Co.,Ltd"); ("7071BC", "Apple, Inc.");
   ("8C8590", "Hikvision Digital Technology Co.,Ltd."); ("9CFC01", "Espressif Inc.");
   ("A4B197", "Amazon Technologies Inc."); ("B827EB", "Raspberry Pi Foundation");
   ("DCA632", "Ruckus Wireless"); ("F4F5D8", "Google, Inc.")]%string.

Section discovery.
Context `{UnicodeTables} `{SliceSort} `{MapRange} `{TimeText}.
Context `{Json ScanResult} `{Json (gmap bytes ObservedHost)} `{Json (list RogueServer)}.

Definition is_mac_separator (c : byte) : bool :=
  bool_decide (c = colon) || bool_decide (c = byte_of_Z 45) || bool_decide (c = dot).
Definition is_upper_hex (c : byte) : bool :=
  let z := byte_to_Z c in (48 <=? z) && (z <=? 57) || (65 <=? z) && (z <=? 70).

Definition mac_prefix (mac : bytes) : bytes :=
  let cleaned := filter (λ c, is_mac_separator c = false) (to_upper (trim_space mac)) in
  if zlen cleaned <? 6 then []
  else if forallb is_upper_hex (take 6 cleaned) then take 6 cleaned else [].

Fixpoint find_vendor (prefix : bytes) (vendors : list (bytes * bytes)) : bytes :=
  match vendors with
  | [] => []
  | (p, v) :: rest => if bool_decide (p = prefix) then v else find_vendor prefix rest
  end.
Definition lookup_vendor (mac : bytes) : bytes :=
  let prefix := mac_prefix mac in
  if bool_decide (prefix = []) then [] else find_vendor prefix oui_vendors.

(** * Options *)

Record DiscOptions := mkDiscOptions {
  do_methods : list bytes; do_tcp_ports : list Z; do_probe_timeout : duration; do_max_targets : Z;
  do_max_concurrency : Z
}.

Definition contains_method (methods : list bytes) (method : bytes) : bool :=
  existsb (λ item, equal_fold (trim_space item) method) methods.
Definition has_active_probe (methods : list bytes) : bool :=
  contains_method methods (bs "ping") || contains_method methods (bs "tcp") || contains_method methods (bs "arp").

Fixpoint normalize_methods_loop (out methods : list bytes) : list bytes :=
  match methods with
  | [] => out
  | raw :: rest =>
      let method := to_lower (trim_space raw) in
      if bool_decide (method = []) then normalize_methods_loop out rest
      else if bool_decide (method ∈ out) then normalize_methods_loop out rest
      else normalize_methods_loop (out ++ [method]) rest
  end.
Definition normalize_methods (methods : list bytes) : list bytes :=
  let out := normalize_methods_loop [] methods in
  if bool_decide (out = []) then [bs "passive"] else out.

Definition normalize_options (o : DiscOptions) : DiscOptions :=
  mkDiscOptions
    (normalize_methods (if bool_decide (do_methods o = []) then [bs "passive"] else do_methods o))
    (if bool_decide (do_tcp_ports o = []) then [22; 80; 443] else do_tcp_ports o)
    (if do_probe_timeout o <=? 0 then 900 * 1000000 else do_probe_timeout o)
    (if do_max_targets o <=? 0 then 32 else do_max_targets o)
    (if do_max_concurrency o <=? 0 then 12 else do_max_concurrency o).

(** * What is known before the scan *)

Record knownHost := mkKnownHost {
  kh_ip : bytes; kh_mac : bytes; kh_hostname : bytes; kh_subnet : bytes; kh_source : bytes
}.
Definition zero_known : knownHost := mkKnownHost [] [] [] [] [].
Definition upper_mac (s : bytes) : bytes := to_upper (trim_space s).

Definition known_lease (out : gmap bytes knownHost) (l : Lease) : gmap bytes knownHost :=
  let ip := trim_space (l_ip l) in
  if bool_decide (ip = []) then out
  else <[ip := mkKnownHost ip (upper_mac (l_mac l)) (trim_space (l_hostname l)) (trim_space (l_subnet_id l)) (bs "lease")]> out.

Definition known_reservation (out : gmap bytes knownHost) (r : Reservation) : gmap bytes knownHost :=
  let ip := trim_space (rv_ip r) in
  if bool_decide (ip = []) then out
  else
    let item := default zero_known (out !! ip) in
    let item := if bool_decide (kh_ip item = []) then mkKnownHost ip [] [] [] (bs "reservation") else item in
    <[ip := mkKnownHost (kh_ip item)
              (if bool_decide (kh_mac item = []) then upper_mac (rv_mac r) else kh_mac item)
              (if bool_decide (kh_hostname item = []) then trim_space (rv_hostname r) else kh_hostname item)
              (if bool_decide (kh_subnet item = []) then trim_space (rv_subnet_cidr r) else kh_subnet item)
              (kh_source item)]> out.

Definition collect_known_hosts (leases : list Lease) (reservations : list Reservation) : gmap bytes knownHost :=
  foldl known_reservation (foldl known_lease ∅ leases) reservations.

Definition conflict_add (conflicts : gmap bytes (gset bytes)) (ip mac : bytes) : gmap bytes (gset bytes) :=
  if bool_decide (ip = []) || bool_decide (mac = []) then conflicts
  else <[ip := {[mac]} ∪ default ∅ (conflicts !! ip)]> conflicts.

Definition collect_conflict_map (leases : list Lease) (reservations : list Reservation) : gmap bytes (gset bytes) :=
  let conflicts := foldl (λ c l, conflict_add c (trim_space (l_ip l)) (upper_mac (l_mac l))) ∅ leases in
  foldl (λ c r, conflict_add c (trim_space (rv_ip r)) (upper_mac (rv_mac r))) conflicts reservations.

Fixpoint subnets_match (subnet : bytes) (candidate : option addr) (subnets : list bytes) : bool :=
  match subnets with
  | [] => false
  | cidr :: rest =>
      if negb (bool_decide (trim_space subnet = [])) && equal_fold (trim_space subnet) cidr then true
      else
        match parse_prefix (trim_space cidr), candidate with
        | Ok prefix, Some ip => if prefix_contains prefix ip then true else subnets_match subnet candidate rest
        | _, _ => subnets_match subnet candidate rest
        end
  end.

(** [ipMatchesSubnets], of the CIDRs of the subnets *)
Definition ip_matches_subnets (ip subnet : bytes) (subnets : list bytes) : bool :=
  if bool_decide (subnets = []) then true
  else subnets_match subnet (match parse_addr (trim_space ip) with Ok a => Some a | _ => None end) subnets.

Definition filter_conflicts (subnets : list bytes) (m : gmap bytes (gset bytes)) : gmap bytes (gset bytes) :=
  if bool_decide (subnets = []) then m else filter (λ p, ip_matches_subnets p.1 [] subnets = true) m.
Definition filter_known (subnets : list bytes) (m : gmap bytes knownHost) : gmap bytes knownHost :=
  if bool_decide (subnets = []) then m else filter (λ p, ip_matches_subnets p.1 (kh_subnet p.2) subnets = true) m.
Definition filter_observed (subnets : list bytes) (m : gmap bytes ObservedHost) : gmap bytes ObservedHost :=
  if bool_decide (subnets = []) then m else filter (λ p, ip_matches_subnets p.1 (oh_subnet p.2) subnets = true) m.

(** ** The ARP table *)

Definition ipv4_pattern : re :=
  RSeq RBound (RSeq (re_times 3 (RSeq re_digit (RSeq (re_upto 2 re_digit) (re_byte dot))))
    (RSeq re_digit (RSeq (re_upto 2 re_digit) RBound))).
Definition re_mac_sep : re := RClass (λ c, bool_decide (c = colon) || bool_decide (c = byte_of_Z 45)).
Definition mac_pattern : re :=
  RSeq RBound (RSeq re_hex (RSeq re_hex (RSeq re_mac_sep
    (RSeq (re_times 4 (RSeq re_hex (RSeq re_hex re_mac_sep))) (RSeq re_hex (RSeq re_hex RBound)))))).

Definition arp_line (out : gmap bytes bytes) (line : bytes) : gmap bytes bytes :=
  let line := trim_space line in
  let ip := find_string ipv4_pattern line in
  let mac := find_string mac_pattern line in
  if bool_decide (ip = []) || bool_decide (mac = []) then out
  else if bool_decide (to4 (parse_ip ip) = []) then out
  else <[ip := to_upper (map (λ c, if bool_decide (c = byte_of_Z 45) then colon else c) mac)]> out.

(** [readARPNeighbors] of the output of the command, none when it fails *)
Definition read_arp_neighbors (output : option bytes) : gmap bytes bytes :=
  match output with
  | Some raw => foldl arp_line ∅ (split_byte raw (byte_of_Z 10))
  | None => ∅
  end.

Definition known_arp (subnets : list bytes) (known : gmap bytes knownHost) (p : bytes * bytes) : gmap bytes knownHost :=
  let '(ip, mac) := p in
  if negb (ip_matches_subnets ip [] subnets) then known
  else
    let item := default zero_known (known !! ip) in
    let item := if bool_decide (kh_ip item = []) then mkKnownHost ip [] [] [] (bs "arp") else item in
    <[ip := if bool_decide (kh_mac item = [])
            then mkKnownHost (kh_ip item) mac (kh_hostname item) (kh_subnet item) (kh_source item) else item]> known.

(** * Targets *)

(** [compareIPString(a, b) < 0] *)
Definition less_ip_string (a b : bytes) : bool :=
  match parse_addr a, parse_addr b with
  | Ok x, Ok y => bool_decide (addr_compare (Some x) (Some y) = Lt)
  | _, _ => bytes_ltb a b
  end.

Definition pool_bounds (s : Subnet) : option (addr * addr) :=
  if negb (dp_enabled (sn_dhcp s)) then None
  else
    match parse_addr (trim_space (dp_pool_start (sn_dhcp s))), parse_addr (trim_space (dp_pool_end (sn_dhcp s))) with
    | Ok start, Ok end_ =>
        if negb (is4 start) || negb (is4 end_) || addr_gt start end_ then None else Some (start, end_)
    | _, _ => None
    end.

(** The loop over a pool; [fuel] is the number of targets it may still add.  The
    end of the pool comes before the last IPv4 address is passed. *)
Fixpoint pool_targets (fuel : nat) (a end_ : addr) (targets : gmap bytes ()) : gmap bytes () :=
  let targets := <[addr_string a := ()]> targets in
  match fuel with
  | O | 1%nat => targets
  | Datatypes.S fuel =>
      if bool_decide (addr_compare (Some a) (Some end_) = Eq) then targets
      else match addr_next a with Some a => pool_targets fuel a end_ targets | None => targets end
  end.

Definition add_pool (max : Z) (targets : gmap bytes ()) (s : Subnet) : gmap bytes () :=
  match pool_bounds s with
  | Some (start, end_) => pool_targets (Z.to_nat max) start end_ targets
  | None => targets
  end.

Definition target_set (o : DiscOptions) (subnets : list Subnet) (known : gmap bytes knownHost)
    (previous : gmap bytes ObservedHost) : gmap bytes () :=
  let targets := ((λ _, ()) <$> known) ∪ ((λ _, ()) <$> previous) in
  if has_active_probe (do_methods o) then foldl (add_pool (do_max_targets o)) targets subnets else targets.

Definition build_targets (o : DiscOptions) (subnets : list Subnet) (known : gmap bytes knownHost)
    (previous : gmap bytes ObservedHost) : list bytes :=
  sort_slice less_ip_string (range_keys (target_set o subnets known previous)).

(** * Probes *)

(** What the network answers: ping, a connection to a port, the names of an address. *)
Record Probes := mkProbes {
  pr_ping : bytes → bool; pr_connect : bytes → Z → bool; pr_names : bytes → list bytes
}.
Record probeOutcome := mkProbeOutcome { po_alive : bool; po_method : bytes; po_hostname : bytes }.
Definition zero_outcome : probeOutcome := mkProbeOutcome false [] [].

Definition ping_host (probes : Probes) (ip : bytes) : bool :=
  let parsed := parse_ip (trim_space ip) in
  if bool_decide (parsed = []) then false else pr_ping probes (ip_string parsed).
Definition tcp_reachable (probes : Probes) (ip : bytes) (ports : list Z) : bool := existsb (pr_connect probes ip) ports.

Definition trim_suffix_dot (s : bytes) : bytes := if bool_decide (last s = Some dot) then removelast s else s.

Definition probe_ip (o : DiscOptions) (probes : Probes) (ip : bytes) : probeOutcome :=
  let out := zero_outcome in
  let out := if contains_method (do_methods o) (bs "ping") && ping_host probes ip
             then mkProbeOutcome true (bs "ping") [] else out in
  let out := if negb (po_alive out) && contains_method (do_methods o) (bs "tcp") && tcp_reachable probes ip (do_tcp_ports o)
             then mkProbeOutcome true (bs "tcp") [] else out in
  if contains_method (do_methods o) (bs "dns") then
    match pr_names probes ip with
    | name :: _ => mkProbeOutcome (po_alive out) (if bool_decide (po_method out = []) then bs "dns" else po_method out)
                     (trim_suffix_dot (trim_space name))
    | [] => out
    end
  else out.

(** [probeTargets]: the outcome of a target, the zero one when none is probed. *)
Definition probe_target (o : DiscOptions) (probes : Probes) (ip : bytes) : probeOutcome :=
  if negb (has_active_probe (do_methods o)) && negb (contains_method (do_methods o) (bs "dns")) then zero_outcome
  else probe_ip o probes ip.

(** The progress after [processed] of [total] targets. *)
Definition probe_percent (processed total : Z) : Z :=
  let pct := float_trunc (float_mul (float_div (to_float processed) (to_float total)) (to_float 80)) in
  let pct := if (pct <? 1) && (0 <? processed) then 1 else pct in
  if 80 <? pct then 80 else pct.

(** * The analysis *)

Definition StateNew := bs "new".
Definition StateChanged := bs "changed".
Definition StateMissing := bs "missing".
Definition StateKnown := bs "known".

Definition derive_state (ip : bytes) (known : bool) (base : knownHost) (outcome : probeOutcome)
    (previous : gmap bytes ObservedHost) : bytes :=
  let changed :=
    match previous !! ip with
    | Some prev => negb (bool_decide (oh_mac prev = [])) && negb (bool_decide (kh_mac base = [])) &&
                   negb (equal_fold (oh_mac prev) (kh_mac base))
    | None => false
    end in
  if changed then StateChanged
  else if negb known then (if po_alive outcome then StateNew else bs "unknown")
  else if bool_decide (po_method outcome = []) then StateKnown
  else if po_alive outcome then StateKnown
  else StateMissing.

Definition pick_hostname (base probe : bytes) : bytes :=
  if bool_decide (trim_space base = []) then trim_space probe else base.

Definition observe_target (known : gmap bytes knownHost) (previous : gmap bytes ObservedHost)
    (outcomes : bytes → probeOutcome) (now : time) (current : gmap bytes ObservedHost) (ip : bytes)
    : gmap bytes ObservedHost :=
  let base := default zero_known (known !! ip) in
  let is_known := bool_decide (is_Some (known !! ip)) in
  let outcome := outcomes ip in
  if negb is_known && negb (po_alive outcome) then current
  else <[ip := mkObservedHost ip (kh_mac base) (lookup_vendor (kh_mac base))
                 (pick_hostname (kh_hostname base) (po_hostname outcome)) (kh_subnet base)
                 (derive_state ip is_known base outcome previous) now]> current.

Definition observe_missing (now : time) (current : gmap bytes ObservedHost) (p : bytes * ObservedHost)
    : gmap bytes ObservedHost :=
  let '(ip, prev) := p in
  match current !! ip with
  | Some _ => current
  | None => <[ip := mkObservedHost ip (oh_mac prev) (oh_vendor prev) (oh_hostname prev) (oh_subnet prev) StateMissing now]> current
  end.

Fixpoint vendors_of (vendors macs : list bytes) : list bytes :=
  match macs with
  | [] => vendors
  | mac :: macs =>
      let vendor := lookup_vendor mac in
      if bool_decide (vendor = []) || bool_decide (vendor ∈ vendors) then vendors_of vendors macs
      else vendors_of (vendors ++ [vendor]) macs
  end.
Definition conflict_note_for_macs (macs : list bytes) : bytes :=
  let vendors := vendors_of [] macs in
  if bool_decide (vendors = []) then bs "multiple MAC addresses observed for the same IP"
  else bs "multiple MAC addresses observed for the same IP (" ++ join vendors (bs ", ") ++ bs ")".

(** The conflict of an address, when it has more than one MAC address. *)
Definition conflict_of (p : bytes * gset bytes) : option Conflict :=
  let '(ip, macs) := p in
  if (size macs <=? 1)%nat then None
  else
    let macs := sort_slice bytes_ltb (range_keys (gset_to_gmap () macs)) in
    Some (mkConflict ip macs (bs "high") (conflict_note_for_macs macs)).

Definition scan_conflicts (m : gmap bytes (gset bytes)) : list Conflict :=
  sort_slice (λ x y, bytes_ltb (co_ip x) (co_ip y)) (omap conflict_of (range_map m)).

Definition count_state (P : bytes → bool) (hosts : list ObservedHost) : Z :=
  zlen (filter (λ h, P (oh_state h) = true) hosts).

(** * The engine *)

Record DiscEngine := mkDiscEngine {
  dn_store : Engine; dn_interval : duration; dn_options : DiscOptions; dn_scanning : bool; dn_last_scan_at : time;
  dn_next_scan_at : time; dn_latest_id : bytes; dn_latest_rogue : list RogueServer; dn_progress : ScanProgress
}.
#[global] Instance eta_DiscEngine : Eta DiscEngine := λ d,
  mkDiscEngine (dn_store d) (dn_interval d) (dn_options d) (dn_scanning d) (dn_last_scan_at d) (dn_next_scan_at d)
    (dn_latest_id d) (dn_latest_rogue d) (dn_progress d).

Definition load_previous_hosts (e : Engine) : gmap bytes ObservedHost :=
  match (row_get treeDiscoveryMeta e keyLatestHosts : result (gmap bytes ObservedHost)) with Ok out => out | _ => ∅ end.

(** [loadMeta] and [NewEngineWithOptions] *)
Definition load_meta (d : DiscEngine) (now : time) : DiscEngine :=
  let e := dn_store d in
  let d := match get e treeDiscoveryMeta keyLastScanAt with
           | Ok raw => match time_unmarshal raw with Some t => d <| dn_last_scan_at := t |> | None => d end
           | _ => d
           end in
  let d := match get e treeDiscoveryMeta keyLatestScanID with Ok raw => d <| dn_latest_id := raw |> | _ => d end in
  let d := match (row_get treeDiscoveryMeta e keyLatestRogue : result (list RogueServer)) with
           | Ok rogue => d <| dn_latest_rogue := rogue |> | _ => d end in
  d <| dn_next_scan_at := time_add now (dn_interval d) |>.

Definition new_disc_engine (store : Engine) (interval : duration) (options : DiscOptions) (now : time) : DiscEngine :=
  let interval := if interval <=? 0 then hour else interval in
  load_meta (mkDiscEngine store interval (normalize_options options) false 0 0 [] []
               (zero_progress <| pg_phase := bs "idle" |>)) now.

(** ** Results *)

Definition list_results (e : Engine) (limit : Z) : result (list ScanResult) :=
  out ← row_list treeDiscoveryScans e;
  let out := sort_slice (λ x y, after (re_started_at x) (re_started_at y)) out in
  Ok (if (0 <? limit) && (limit <? zlen out) then take (Z.to_nat limit) out else out).

Definition get_result (e : Engine) (scan_id : bytes) : result ScanResult :=
  results ← list_results e 0;
  match filter (λ r, re_scan_id r = scan_id) results with
  | r :: _ => Ok r
  | [] => Err ErrNotFound
  end.

Definition latest_result (d : DiscEngine) : result ScanResult :=
  if negb (bool_decide (dn_latest_id d = [])) then get_result (dn_store d) (dn_latest_id d)
  else
    results ← list_results (dn_store d) 1;
    match results with r :: _ => Ok r | [] => Err ErrNotFound end.

Definition latest_conflicts (d : DiscEngine) : result (list Conflict) :=
  match latest_result d with
  | Ok r => Ok (re_conflicts r)
  | Err ErrNotFound => Ok []
  | Err er => Err er
  | Panic p => Panic p
  end.

Definition latest_rogue_servers (d : DiscEngine) : result (list RogueServer) :=
  if negb (bool_decide (dn_latest_rogue d = [])) then Ok (dn_latest_rogue d)
  else
    match latest_result d with
    | Ok r => Ok (re_rogue_servers r)
    | Err ErrNotFound => Ok []
    | Err er => Err er
    | Panic p => Panic p
    end.

Definition disc_status (d : DiscEngine) : ScanStatus :=
  mkScanStatus true (dn_last_scan_at d) (negb (bool_decide (dn_latest_rogue d = [])))
    (match latest_result d with Ok latest => zlen (re_conflicts latest) | _ => 0 end)
    (dn_next_scan_at d) (dn_scanning d) (dn_latest_id d) (dn_progress d).

(** ** Persisting *)

(** The hosts that are kept of the scans before: those out of the scope of this one. *)
Definition merged_hosts (e : Engine) (result : ScanResult) : gmap bytes ObservedHost :=
  let kept := if bool_decide (re_subnets result = []) then ∅
              else filter (λ p, ip_matches_subnets p.1 (oh_subnet p.2) (re_subnets result) = false) (load_previous_hosts e) in
  foldl (λ m h, <[oh_ip h := h]> m) kept (re_hosts result).

Definition persist_result (d : DiscEngine) (result : ScanResult) (now tx_now : time) (io : list append_io)
    : DiscEngine * option error :=
  let write : Prelude.result (list Mutation) :=
    result_raw ← marshal result;
    hosts_raw ← marshal (merged_hosts (dn_store d) result);
    meta_last_raw ← time_marshal (re_completed_at result);
    Ok [tx_put treeDiscoveryScans (time_key (re_started_at result) (re_scan_id result)) result_raw;
        tx_put treeDiscoveryMeta keyLatestHosts hosts_raw;
        tx_put treeDiscoveryMeta keyLatestScanID (re_scan_id result);
        tx_put treeDiscoveryMeta keyLastScanAt meta_last_raw] in
  match write with
  | Ok ms =>
      match tx (dn_store d) (Ok ms) true tx_now io with
      | (e, None) => (d <| dn_store := e |> <| dn_last_scan_at := re_completed_at result |>
                        <| dn_next_scan_at := time_add now (dn_interval d) |> <| dn_latest_id := re_scan_id result |>, None)
      | (e, Some er) => (d <| dn_store := e |>, Some er)
      end
  | Err er => (d, Some er)
  | Panic p => (d, Some (ErrIO p))
  end.

(** ** Scanning *)

Definition normalize_reason (reason : bytes) : bytes :=
  let reason := trim_space reason in if bool_decide (reason = []) then bs "manual" else reason.

Definition resolve_target_subnets (subnets : Prelude.result (list Subnet)) (explicit : list bytes) : list Subnet :=
  match subnets with
  | Ok subnets =>
      if bool_decide (explicit = []) then subnets
      else filter (λ s, sn_cidr s ∈ filter (λ c, c ≠ []) (trim_space <$> explicit)) subnets
  | _ => []
  end.

(** [TriggerScan] up to the start of the goroutine. *)
Definition trigger_scan (d : DiscEngine) (scan_id : bytes) (now : time) : DiscEngine * Prelude.result bytes :=
  if dn_scanning d then (d, Err (errorNew "scan already in progress"))
  else (d <| dn_scanning := true |>
          <| dn_progress := mkScanProgress scan_id (bs "collecting") 0 0 0 now now true |>, Ok scan_id).

(** What a scan reads: the lists of the stores (empty when they fail), the ARP
    command, the network, the clocks. *)
Record ScanEnv := mkScanEnv {
  sv_leases : list Lease; sv_reservations : list Reservation; sv_subnets : Prelude.result (list Subnet);
  sv_arp : option bytes; sv_probes : Probes; sv_started : time; sv_seen : time; sv_completed : time; sv_done : time;
  sv_io : list append_io
}.

Definition scan_known (o : DiscOptions) (env : ScanEnv) (subnets : list bytes) : gmap bytes knownHost :=
  let known := filter_known subnets (collect_known_hosts (sv_leases env) (sv_reservations env)) in
  if contains_method (do_methods o) (bs "arp")
  then foldl (known_arp subnets) known (range_map (read_arp_neighbors (sv_arp env))) else known.

Definition observe (o : DiscOptions) (env : ScanEnv) (known : gmap bytes knownHost)
    (previous : gmap bytes ObservedHost) (targets : list bytes) : gmap bytes ObservedHost :=
  let current := foldl (observe_target known previous (probe_target o (sv_probes env)) (sv_seen env)) ∅ targets in
  foldl (observe_missing (sv_seen env)) current (range_map previous).

(** The hosts of the scan before that are in its scope, what is known now, and the targets. *)
Definition scan_subnets (request : ScanRequest) (env : ScanEnv) : list Subnet :=
  resolve_target_subnets (sv_subnets env) (sr_subnets request).
Definition scan_previous (d : DiscEngine) (request : ScanRequest) (env : ScanEnv) : gmap bytes ObservedHost :=
  filter_observed (sn_cidr <$> scan_subnets request env) (load_previous_hosts (dn_store d)).
Definition scan_targets (d : DiscEngine) (request : ScanRequest) (env : ScanEnv) : list bytes :=
  build_targets (dn_options d) (scan_subnets request env) (scan_known (dn_options d) env (sn_cidr <$> scan_subnets request env))
    (scan_previous d request env).

(** The result of a scan: [runScan] up to the call of [persistResult]. *)
Definition scan_result (d : DiscEngine) (scan_id : bytes) (request : ScanRequest) (env : ScanEnv) : ScanResult :=
  let o := dn_options d in
  let cidrs := sn_cidr <$> scan_subnets request env in
  let current := observe o env (scan_known o env cidrs) (scan_previous d request env) (scan_targets d request env) in
  let hosts := sort_slice (λ x y, less_ip_string (oh_ip x) (oh_ip y)) ((range_map current).*2) in
  mkScanResult scan_id (bs "completed") (normalize_reason (sr_reason request))
    (if bool_decide (sr_subnets request = []) then cidrs else sr_subnets request)
    (sv_started env) (sv_completed env) (Z.quot (time_sub (sv_completed env) (sv_started env)) 1000000) (zlen hosts)
    (count_state (λ s, bool_decide (s = StateNew)) hosts)
    (count_state (λ s, negb (bool_decide (s ∈ [StateNew; StateChanged; StateMissing]))) hosts)
    (count_state (λ s, bool_decide (s = StateMissing)) hosts)
    (count_state (λ s, bool_decide (s = StateChanged)) hosts)
    (scan_conflicts (filter_conflicts cidrs (collect_conflict_map (sv_leases env) (sv_reservations env))))
    (dn_latest_rogue d) hosts.

Definition mark_scan_done (d : DiscEngine) (now : time) : DiscEngine :=
  let d := d <| dn_scanning := false |> in
  let d := if pg_in_progress (dn_progress d) then
             d <| dn_progress := dn_progress d <| pg_in_progress := false |>
                    <| pg_phase := if bool_decide (pg_phase (dn_progress d) = bs "completed") then bs "completed" else bs "idle" |>
                    <| pg_updated_at := now |> |>
           else d in
  if before (dn_next_scan_at d) now then d <| dn_next_scan_at := time_add now (dn_interval d) |> else d.

(** [runScan] with its deferred end; the result goes to [onComplete]. *)
Definition run_scan (d : DiscEngine) (scan_id : bytes) (request : ScanRequest) (env : ScanEnv) : DiscEngine * ScanResult :=
  let result := scan_result d scan_id request env in
  let total := zlen (scan_targets d request env) in
  let d := (persist_result d result (sv_done env) (sv_done env) (sv_io env)).1 in
  let d := d <| dn_progress := dn_progress d <| pg_phase := bs "completed" |> <| pg_total := total |>
                 <| pg_processed := total |> <| pg_percent := 100 |> <| pg_in_progress := false |>
                 <| pg_updated_at := sv_done env |> |> in
  (mark_scan_done d (sv_done env), result).

(** ** Rogue servers *)

Fixpoint merge_rogues (ip : bytes) (merged existing : list RogueServer) : list RogueServer :=
  match existing with
  | [] => merged
  | r :: rest =>
      if equal_fold (ro_ip r) ip then merge_rogues ip merged rest
      else
        let merged := merged ++ [r] in
        if 16 <=? zlen merged then merged else merge_rogues ip merged rest
  end.

Definition record_rogue_server (d : DiscEngine) (item : RogueServer) (now tx_now : time) (io : list append_io)
    : DiscEngine * option error :=
  if bool_decide (trim_space (ro_ip item) = []) then (d, None)
  else
    let mac := upper_mac (ro_mac item) in
    let item := mkRogueServer (trim_space (ro_ip item)) mac
                  (if bool_decide (ro_vendor item = []) then lookup_vendor mac else ro_vendor item)
                  (ro_source item) (if is_zero (ro_detected item) then now else ro_detected item) in
    let merged := merge_rogues (ro_ip item) [item] (dn_latest_rogue d) in
    let d := d <| dn_latest_rogue := merged |> in
    let '(e, err) := row_put treeDiscoveryMeta (dn_store d) keyLatestRogue merged tx_now io in
    (d <| dn_store := e |>, err).
End discovery.

(** internal/discovery/rogue.go: the detector of rogue DHCP servers.

    A packet and the address it came from are inspected against the allowed servers; the
    ARP table is an argument, and so are the packets the loop of [run] reads. *)

Section rogue.
Context `{UnicodeTables}.

Definition normalize_ip (value : bytes) : bytes :=
  let candidate := trim_space value in
  if bool_decide (candidate = []) then []
  else
    let ip := parse_ip candidate in
    if bool_decide (ip = []) then []
    else if bool_decide (to4 ip = []) then ip_string ip else ip_string (to4 ip).

(** [NewRogueDetector]: the allowed servers *)
Definition new_rogue_detector (allowed : list bytes) : gset bytes :=
  list_to_set (filter (λ c, c ≠ []) (normalize_ip <$> allowed)).

Definition server_identifier (p : Packet) : bytes :=
  let fallback := if bool_decide (pk_siaddr p = []) then [] else ip_string (pk_siaddr p) in
  match pk_options p !! OptionServerIdentifier with
  | Some raw => if zlen raw =? 4 then ip_string raw else fallback
  | None => fallback
  end.

Definition rogue_source (source_ip server_id : bytes) : bytes :=
  if negb (bool_decide (source_ip = [])) && negb (bool_decide (server_id = [])) && negb (bool_decide (source_ip = server_id))
  then bs "dhcp_offer:" ++ source_ip ++ bs " server_id:" ++ server_id
  else if negb (bool_decide (source_ip = [])) then bs "dhcp_offer:" ++ source_ip
  else if negb (bool_decide (server_id = [])) then bs "server_id:" ++ server_id
  else bs "dhcp_offer".

(** [ipFromAddr] of a UDP address with this IP, which is none when it is nil. *)
Definition ip_from_addr (source : option bytes) : bytes := match source with Some ip => ip_string ip | None => [] end.

Definition inspect_packet (allowed : gset bytes) (lookup_arp : gmap bytes bytes) (now : time) (raw : bytes)
    (source : option bytes) : option RogueServer :=
  match decode_packet raw with
  | Ok packet =>
      if negb (bool_decide (message_type (pk_options packet) = Some MessageOffer)) then None
      else
        let source_ip := normalize_ip (ip_from_addr source) in
        let server_id := normalize_ip (server_identifier packet) in
        if negb (bool_decide (source_ip = [])) && bool_decide (source_ip ∈ allowed) then None
        else if negb (bool_decide (server_id = [])) && bool_decide (server_id ∈ allowed) then None
        else
          let suspect_ip := if bool_decide (server_id = []) then source_ip else server_id in
          if bool_decide (suspect_ip = []) then None
          else
            let mac := upper_mac (default [] (lookup_arp !! suspect_ip)) in
            Some (mkRogueServer suspect_ip mac (lookup_vendor mac) (rogue_source source_ip server_id) now)
  | _ => None
  end.

(** A turn of [run]: setting the deadline fails, reading fails, or a packet arrives, with
    the clock and the ARP table then; [ended] is whether the context is done after it. *)
Inductive rogue_read :=
| ReadClosed
| ReadFailed (ended : bool)
| ReadPacket (raw : bytes) (source : option bytes) (lookup_arp : gmap bytes bytes) (now : time) (ended : bool).
Definition rogue_buffer : nat := 2048.
(** What [run] reports. *)
Fixpoint rogue_run (allowed : gset bytes) (reads : list rogue_read) : list RogueServer :=
  match reads with
  | [] | ReadClosed :: _ => []
  | ReadFailed ended :: reads => if ended then [] else rogue_run allowed reads
  | ReadPacket raw source lookup_arp now ended :: reads =>
      option_list (inspect_packet allowed lookup_arp now (take rogue_buffer raw) source) ++
      (if ended then [] else rogue_run allowed reads)
  end.

(** * Inspection *)

Lemma normalize_ip_spelling value ip :
  length ip = 4%nat → to4 (parse_ip (trim_space value)) = ip → normalize_ip value = ip_string ip.
Proof.
  intros Hl E. assert (Hn : ip ≠ []) by (intros ->; done). unfold normalize_ip.
  rewrite bool_decide_eq_false_2. 2: { intros E0. rewrite E0 in E. vm_compute in E. by subst. }
  rewrite bool_decide_eq_false_2. 2: { intros E0. rewrite E0 in E. vm_compute in E. by subst. }
  by rewrite E, bool_decide_eq_false_2.
Qed.

Lemma ip_string_nonempty ip : length ip = 4%nat → ip_string ip ≠ [].
Proof. intros Hl E. pose proof (parse_ip_string ip Hl) as Hp. rewrite E in Hp. vm_compute in Hp. by subst. Qed.

Lemma normalize_ip_string ip : length ip = 4%nat → normalize_ip (ip_string ip) = ip_string ip.
Proof.
  intros Hl. apply normalize_ip_spelling; [done|]. rewrite trim_printable; [by apply parse_ip_string|].
  rewrite ip_string_v4 by done. by apply fmt_v4_printable.
Qed.

(** The detector knows addresses, not spellings. *)
Lemma normalize_ip_eq value ip :
  length ip = 4%nat → normalize_ip value = ip_string ip → to4 (parse_ip (trim_space value)) = ip.
Proof.
  intros Hl. pose proof (ip_string_nonempty ip Hl) as Hne. unfold normalize_ip.
  destruct (decide (trim_space value = [])) as [E|E]; [by rewrite (bool_decide_eq_true_2 _ E)|rewrite (bool_decide_eq_false_2 _ E)].
  destruct (decide (parse_ip (trim_space value) = [])) as [E'|E']; [by rewrite (bool_decide_eq_true_2 _ E')|rewrite (bool_decide_eq_false_2 _ E')].
  destruct (decide (to4 (parse_ip (trim_space value)) = [])) as [E4|E4].
  - rewrite (bool_decide_eq_true_2 _ E4). intros Es. exfalso.
    assert (Hp : proper6 (parse_ip (trim_space value))).
    { unfold parse_ip in *. destruct (parse_addr (trim_space value)) as [[a|a [|z zone]]| |] eqn:Ep; try done.
      - exfalso. pose proof (parse_addr_length _ _ Ep) as Hlen. cbn in Hlen. rewrite to4_mapped in E4 by done. by subst.
      - pose proof (parse_addr_length _ _ Ep) as Hlen. cbn in Hlen. split; [done|]. unfold to4 in E4.
        destruct (has_prefix a v4_in_v6_prefix) eqn:Eh; [|done]. exfalso. rewrite Hlen, bool_decide_eq_false_2, bool_decide_eq_true_2 in E4 by done.
        apply (f_equal length) in E4. cbn [andb] in E4. rewrite length_drop, Hlen in E4. done. }
    pose proof (proper6_parse _ Hp) as H6. rewrite Es, ip_string_v4, parse_addr_fmt_v4 in H6 by done. done.
  - rewrite (bool_decide_eq_false_2 _ E4). intros Es. pose proof (to4_length _ E4) as Hlen.
    rewrite <-(parse_ip_string _ Hlen), Es. by apply parse_ip_string.
Qed.

Lemma elem_of_detector allowed ip : length ip = 4%nat →
  ip_string ip ∈ new_rogue_detector allowed ↔ ∃ item, item ∈ allowed ∧ to4 (parse_ip (trim_space item)) = ip.
Proof.
  intros Hl. unfold new_rogue_detector. rewrite elem_of_list_to_set, list_elem_of_filter, list_elem_of_fmap. split.
  - intros (_ & item & E & Hin). exists item. split; [done|]. by apply normalize_ip_eq.
  - intros (item & Hin & E). split; [by apply ip_string_nonempty|]. exists item. by rewrite (normalize_ip_spelling item ip).
Qed.

(** The detector reports exactly the offers of other servers.  Of a packet that
    decodes, with a server identifier of four bytes and an IPv4 source, only an
    offer is reported, under the address of the identifier, and only when neither
    the source nor the identifier is an allowed server, however that is spelled. *)
Theorem rogue_reported_exactly allowed lookup_arp now raw packet sid src :
  decode_packet raw = Ok packet → pk_options packet !! OptionServerIdentifier = Some sid →
  length sid = 4%nat → length src = 4%nat →
  (∃ r, inspect_packet (new_rogue_detector allowed) lookup_arp now raw (Some src) = Some r ∧ ro_ip r = ip_string sid) ↔
  message_type (pk_options packet) = Some MessageOffer ∧
  (∀ item, item ∈ allowed → to4 (parse_ip (trim_space item)) ≠ src ∧ to4 (parse_ip (trim_space item)) ≠ sid).
Proof.
  intros Hd Ho Hsid Hsrc. unfold inspect_packet. rewrite Hd. unfold server_identifier. rewrite Ho.
  unfold zlen. rewrite Hsid. change (Z.of_nat 4 =? 4) with true. cbn [ip_from_addr].
  rewrite !normalize_ip_string by done.
  pose proof (ip_string_nonempty _ Hsid) as Hn. pose proof (ip_string_nonempty _ Hsrc) as Hn'.
  rewrite !(bool_decide_eq_false_2 (ip_string _ = [])) by done. cbn [negb andb].
  destruct (decide (message_type (pk_options packet) = Some MessageOffer)) as [Em|Em].
  2: { rewrite (bool_decide_eq_false_2 _ Em). split; [by intros (r & [=] & _)|by intros [? _]]. }
  rewrite (bool_decide_eq_true_2 _ Em). cbn [negb].
  destruct (decide (ip_string src ∈ new_rogue_detector allowed)) as [H1|H1].
  { rewrite (bool_decide_eq_true_2 _ H1). split; [by intros (r & [=] & _)|]. intros [_ Hall].
    apply elem_of_detector in H1 as (item & Hin & E); [|done]. by destruct (Hall _ Hin). }
  rewrite (bool_decide_eq_false_2 _ H1). destruct (decide (ip_string sid ∈ new_rogue_detector allowed)) as [H2|H2].
  { rewrite (bool_decide_eq_true_2 _ H2). split; [by intros (r & [=] & _)|]. intros [_ Hall].
    apply elem_of_detector in H2 as (item & Hin & E); [|done]. by destruct (Hall _ Hin). }
  rewrite (bool_decide_eq_false_2 _ H2). split; [|intros _; by eexists]. intros _. split; [done|].
  intros item Hin. split; intros E; [apply H1|apply H2]; apply elem_of_detector; eauto.
Qed.
End rogue.

(** * Witness *)

#[local] Existing Instance ascii_tables.

Definition rogue_offer : bytes :=
  packet_header (zero_packet <| pk_siaddr := map byte_of_Z [10; 0; 0; 66] |>) ++
  map byte_of_Z [53; 1; 2; 54; 4; 10; 0; 0; 66; 255].

Lemma rogue_reported_exactly_witness :
  let packet := match decode_packet rogue_offer with Ok p => p | _ => zero_packet end in
  (∃ r, inspect_packet (new_rogue_detector [bs " 10.0.0.1 "]) ∅ 1 rogue_offer (Some (map byte_of_Z [10; 0; 0; 66])) = Some r ∧
     ro_ip r = ip_string (map byte_of_Z [10; 0; 0; 66])) ↔
  message_type (pk_options packet) = Some MessageOffer ∧
  (∀ item, item ∈ [bs " 10.0.0.1 "] → to4 (parse_ip (trim_space item)) ≠ map byte_of_Z [10; 0; 0; 66] ∧
     to4 (parse_ip (trim_space item)) ≠ map byte_of_Z [10; 0; 0; 66]).
Proof.
  refine (rogue_reported_exactly [bs " 10.0.0.1 "] ∅ 1 rogue_offer _ (map byte_of_Z [10; 0; 0; 66])
    (map byte_of_Z [10; 0; 0; 66]) _ _ _ _); vm_compute; reflexivity.
Defined.

Example rogue_offer_reported :
  ro_ip <$> inspect_packet (new_rogue_detector [bs " 10.0.0.1 "]) ∅ 1 rogue_offer (Some (map byte_of_Z [10; 0; 0; 66])) =
    Some (bs "10.0.0.66").
Proof. vm_compute. reflexivity. Qed.
