(* ===== verification/DiscoveryTheorems.v ===== *)
(** What a scan reports. *)

From S2P Require Import Prelude.
From S2P Require Import GoBytes.
From S2P Require Import GoStrings.
From S2P Require Import GoTime.
From S2P Require Import GoJson.
From S2P Require Import GoNet.
From S2P Require Import GoNet6.
From S2P Require Import GoPrefix.
From S2P Require Import GoSort.
From S2P Require Import Wal.
From S2P Require Import StorageEngine.
From S2P Require Import StorageSpec.
From S2P Require Import StorageTheorems.
From S2P Require Import RowTable.
From S2P Require Import Lease.
From S2P Require Import LeaseTheorems.
From S2P Require Import Ipam.
From S2P Require Import Discovery.

Section theorems.
Context `{UnicodeTables} `{SliceSort} `{MapRange} `{TimeText}.
Context `{Json ScanResult} `{Json (gmap bytes ObservedHost)} `{Json (list RogueServer)}.

(** * Hosts *)

(** What a scan says of one address. *)
Definition host_of (known : gmap bytes knownHost) (previous : gmap bytes ObservedHost) (probe : bytes → probeOutcome)
    (now : time) (targeted : bool) (ip : bytes) : option ObservedHost :=
  let base := default zero_known (known !! ip) in
  let is_known := bool_decide (is_Some (known !! ip)) in
  if targeted && (is_known || po_alive (probe ip)) then
    Some (mkObservedHost ip (kh_mac base) (lookup_vendor (kh_mac base))
            (pick_hostname (kh_hostname base) (po_hostname (probe ip))) (kh_subnet base)
            (derive_state ip is_known base (probe ip) previous) now)
  else
    (λ prev, mkObservedHost ip (oh_mac prev) (oh_vendor prev) (oh_hostname prev) (oh_subnet prev) StateMissing now) <$> previous !! ip.

Lemma foldl_insert_opt {A} (f : bytes → option A) (l : list bytes) : ∀ (m : gmap bytes A) ip,
  foldl (λ m ip, match f ip with Some v => <[ip := v]> m | None => m end) m l !! ip =
    if bool_decide (ip ∈ l) then match f ip with Some v => Some v | None => m !! ip end else m !! ip.
Proof.
  induction l as [|x l IH]; intros m ip; [done|]. cbn [foldl]. rewrite IH.
  destruct (decide (ip = x)) as [->|Hne].
  - rewrite (bool_decide_eq_true_2 (x ∈ x :: l)) by left.
    destruct (f x) as [v|] eqn:E; [rewrite lookup_insert_eq|]; by case_bool_decide.
  - assert (match f x with Some v => <[x := v]> m | None => m end !! ip = m !! ip) as ->.
    { destruct (f x); [|done]. by rewrite lookup_insert_ne. }
    destruct (decide (ip ∈ l)) as [Hin|Hin].
    + rewrite !bool_decide_eq_true_2 by first [done|by right]. done.
    + rewrite !bool_decide_eq_false_2; [done|by intros [|]%elem_of_cons|done].
Qed.

Lemma foldl_ext_in {A B} (f g : A → B → A) (l : list B) : ∀ a,
  (∀ a b, f a b = g a b) → foldl f a l = foldl g a l.
Proof. induction l as [|b l IH]; intros a E; [done|]. cbn. by rewrite E, IH. Qed.

Lemma observe_missing_lookup now (l : list (bytes * ObservedHost)) : ∀ current ip,
  NoDup l.*1 →
  foldl (observe_missing now) current l !! ip =
    match current !! ip with
    | Some h => Some h
    | None => (λ prev, mkObservedHost ip (oh_mac prev) (oh_vendor prev) (oh_hostname prev) (oh_subnet prev) StateMissing now) <$>
                (list_to_map l : gmap bytes ObservedHost) !! ip
    end.
Proof.
  induction l as [|[k prev] l IH]; intros current ip Hnd.
  { cbn. rewrite lookup_empty. by destruct (current !! ip). }
  rewrite fmap_cons in Hnd. apply NoDup_cons in Hnd as [Hk Hnd]. cbn [foldl list_to_map]. rewrite IH by done.
  unfold observe_missing at 1. destruct (decide (ip = k)) as [->|Hne].
  - destruct (current !! k) as [h|] eqn:E; [by rewrite E|]. rewrite lookup_insert_eq. cbn. by rewrite lookup_insert_eq.
  - cbn. rewrite (lookup_insert_ne (list_to_map l)) by done.
    destruct (current !! k); [done|]. by rewrite lookup_insert_ne.
Qed.

Lemma observe_lookup o env known previous targets ip :
  observe o env known previous targets !! ip =
    host_of known previous (probe_target o (sv_probes env)) (sv_seen env) (bool_decide (ip ∈ targets)) ip.
Proof.
  unfold observe. rewrite observe_missing_lookup by apply NoDup_range_keys.
  rewrite (foldl_ext_in _ (λ m ip, match (let base := default zero_known (known !! ip) in
      let is_known := bool_decide (is_Some (known !! ip)) in
      let outcome := probe_target o (sv_probes env) ip in
      if is_known || po_alive outcome then
        Some (mkObservedHost ip (kh_mac base) (lookup_vendor (kh_mac base))
          (pick_hostname (kh_hostname base) (po_hostname outcome)) (kh_subnet base)
          (derive_state ip is_known base outcome previous) (sv_seen env)) else None)
      with Some v => <[ip := v]> m | None => m end)).
  2: { intros m x. unfold observe_target. by destruct (bool_decide (is_Some (known !! x))), (po_alive _). }
  rewrite foldl_insert_opt, lookup_empty. unfold host_of.
  assert (list_to_map (range_map previous) = previous) as ->.
  { rewrite (list_to_map_proper _ (map_to_list previous)); [apply list_to_map_to_list|apply NoDup_range_keys|apply range_map_perm]. }
  destruct (bool_decide (ip ∈ targets)); cbn [andb]; [|done]. by destruct (_ || _).
Qed.

(** A host is filed under its own address. *)
Lemma host_of_ip known previous probe now targeted ip h : host_of known previous probe now targeted ip = Some h → oh_ip h = ip.
Proof. unfold host_of. destruct (_ && _); [by intros [= <-]|]. destruct (previous !! ip); [by intros [= <-]|done]. Qed.

Lemma zlen_count {A} (b : bool) (x : A) l : zlen (if decide (b = true) then x :: l else l) = zlen l + Z.b2z b.
Proof. destruct b; [rewrite decide_True by done; apply zlen_cons|rewrite decide_False by done; cbn; lia]. Qed.

Lemma count_states (hosts : list ObservedHost) :
  count_state (λ s, bool_decide (s = StateNew)) hosts + count_state (λ s, bool_decide (s = StateMissing)) hosts +
  count_state (λ s, bool_decide (s = StateChanged)) hosts +
  count_state (λ s, negb (bool_decide (s ∈ [StateNew; StateChanged; StateMissing]))) hosts = zlen hosts.
Proof.
  unfold count_state. induction hosts as [|h hosts IH]; [done|]. rewrite !filter_cons, !zlen_count, zlen_cons.
  generalize dependent (oh_state h). intros st. enough (Hone :
    Z.b2z (bool_decide (st = StateNew)) + Z.b2z (bool_decide (st = StateMissing)) + Z.b2z (bool_decide (st = StateChanged)) +
    Z.b2z (negb (bool_decide (st ∈ [StateNew; StateChanged; StateMissing]))) = 1) by lia.
  destruct (decide (st ∈ [StateNew; StateChanged; StateMissing])) as [Hin|Hin].
  - rewrite !elem_of_cons, elem_of_nil in Hin. destruct Hin as [->|[->|[->|[]]]]; reflexivity.
  - rewrite !elem_of_cons, elem_of_nil in Hin. rewrite !bool_decide_eq_false_2; [done|..]; rewrite ?elem_of_cons, ?elem_of_nil; tauto.
Qed.

(** * The state of a host, said without the code

    An address answers when a ping or one of the ports of a configured method gets a
    reply, and has a name when [dns] is configured and finds one. *)
Definition answers (o : DiscOptions) (probes : Probes) (ip : bytes) : Prop :=
  (contains_method (do_methods o) (bs "ping") = true ∧ parse_ip (trim_space ip) ≠ [] ∧
    pr_ping probes (ip_string (parse_ip (trim_space ip))) = true) ∨
  (contains_method (do_methods o) (bs "tcp") = true ∧ ∃ port, port ∈ do_tcp_ports o ∧ pr_connect probes ip port = true).
Definition has_name (o : DiscOptions) (probes : Probes) (ip : bytes) : Prop :=
  contains_method (do_methods o) (bs "dns") = true ∧ pr_names probes ip ≠ [].

(** The machine at an address is another one than before. *)
Definition moved (previous : option ObservedHost) (k : knownHost) : Prop :=
  ∃ p, previous = Some p ∧ oh_mac p ≠ [] ∧ kh_mac k ≠ [] ∧ equal_fold (oh_mac p) (kh_mac k) = false.

(** The address is that of a lease, of a reservation or in the ARP table. *)
Definition recorded (o : DiscOptions) (env : ScanEnv) (ip : bytes) : Prop :=
  (ip ≠ [] ∧ ((∃ l, l ∈ sv_leases env ∧ trim_space (l_ip l) = ip) ∨
              (∃ r, r ∈ sv_reservations env ∧ trim_space (rv_ip r) = ip))) ∨
  (contains_method (do_methods o) (bs "arp") = true ∧ is_Some (read_arp_neighbors (sv_arp env) !! ip)).

(** The state an address is reported with, none when it is not reported. *)
Definition host_state (known : option knownHost) (previous : option ObservedHost) (targeted answer name : Prop)
    (state : option bytes) : Prop :=
  match known with
  | Some k =>
      (moved previous k ∧ state = Some (bs "changed")) ∨
      (¬ moved previous k ∧ (answer ∨ ¬ name) ∧ state = Some (bs "known")) ∨
      (¬ moved previous k ∧ ¬ answer ∧ name ∧ state = Some (bs "missing"))
  | None =>
      (targeted ∧ answer ∧ state = Some (bs "new")) ∨
      (¬ (targeted ∧ answer) ∧ is_Some previous ∧ state = Some (bs "missing")) ∨
      (¬ (targeted ∧ answer) ∧ previous = None ∧ state = None)
  end.

Lemma probe_alive o probes ip : po_alive (probe_target o probes ip) = true ↔ answers o probes ip.
Proof.
  unfold probe_target, probe_ip, answers, has_active_probe, ping_host, tcp_reachable.
  assert (Hp : existsb (pr_connect probes ip) (do_tcp_ports o) = true ↔
    ∃ port, port ∈ do_tcp_ports o ∧ pr_connect probes ip port = true).
  { rewrite existsb_exists. by setoid_rewrite list_elem_of_In. }
  destruct (contains_method (do_methods o) (bs "ping")), (contains_method (do_methods o) (bs "tcp")),
    (contains_method (do_methods o) (bs "dns")), (contains_method (do_methods o) (bs "arp")), (pr_names probes ip);
    cbn [orb negb andb zero_outcome po_alive];
    (destruct (decide (parse_ip (trim_space ip) = []));
     [rewrite ?bool_decide_eq_true_2 by done|rewrite ?bool_decide_eq_false_2 by done]);
    destruct (pr_ping probes _), (existsb _ _); cbn; naive_solver.
Qed.

Lemma probe_silent o probes ip :
  po_method (probe_target o probes ip) = [] ↔ ¬ answers o probes ip ∧ ¬ has_name o probes ip.
Proof.
  rewrite <-probe_alive. unfold probe_target, probe_ip, has_active_probe, has_name.
  destruct (contains_method (do_methods o) (bs "ping")), (contains_method (do_methods o) (bs "tcp")),
    (contains_method (do_methods o) (bs "dns")), (contains_method (do_methods o) (bs "arp")), (pr_names probes ip);
    cbn [orb negb andb zero_outcome po_alive po_method];
    destruct (ping_host probes ip), (tcp_reachable probes ip (do_tcp_ports o)); cbn; naive_solver.
Qed.

(** Everything known or seen before is a target. *)
Lemma known_is_target d request env ip :
  is_Some (scan_known (dn_options d) env (sn_cidr <$> scan_subnets request env) !! ip) ∨
    is_Some (scan_previous d request env !! ip) → ip ∈ scan_targets d request env.
Proof.
  intros Hip. unfold scan_targets, build_targets. rewrite elem_of_sort_slice, elem_of_range_keys.
  unfold target_set. set (known := scan_known _ _ _) in *. set (previous := scan_previous _ _ _) in *.
  assert (Hb : is_Some ((((λ _, ()) <$> known) ∪ ((λ _, ()) <$> previous) : gmap bytes ()) !! ip)).
  { rewrite lookup_union_is_Some, !lookup_fmap, !fmap_is_Some. done. }
  assert (Hpool : ∀ fuel a end_ t, is_Some (t !! ip) → is_Some (pool_targets fuel a end_ t !! ip)).
  { induction fuel as [|[|fuel] IH]; intros a end_ t Ht; cbn [pool_targets].
    1, 2: rewrite lookup_insert_is_Some'; by right.
    destruct (bool_decide _); [rewrite lookup_insert_is_Some'; by right|].
    destruct (addr_next a); [apply IH|]; rewrite lookup_insert_is_Some'; by right. }
  destruct (has_active_probe _); [|done]. revert Hb. generalize (((λ _, ()) <$> known) ∪ ((λ _, ()) <$> previous)).
  clearbody known previous. clear Hip. induction (scan_subnets request env) as [|s ss IH]; intros t Ht; [done|]. cbn [foldl]. apply IH.
  unfold add_pool. destruct (pool_bounds s) as [[a b]|]; [|done]. by apply Hpool.
Qed.

(** What is known of an address in scope is that it is recorded. *)
Lemma known_lease_lookup l m ip :
  is_Some (known_lease m l !! ip) ↔ is_Some (m !! ip) ∨ ip ≠ [] ∧ trim_space (l_ip l) = ip.
Proof.
  unfold known_lease. case_bool_decide as E; [naive_solver|]. rewrite lookup_insert_is_Some'. naive_solver.
Qed.
Lemma known_reservation_lookup r m ip :
  is_Some (known_reservation m r !! ip) ↔ is_Some (m !! ip) ∨ ip ≠ [] ∧ trim_space (rv_ip r) = ip.
Proof.
  unfold known_reservation. case_bool_decide as E; [naive_solver|]. rewrite lookup_insert_is_Some'. naive_solver.
Qed.

Lemma fold_known_lookup {A B} (f : gmap bytes A → B → gmap bytes A) (P : B → Prop) ip l :
  (∀ m x, is_Some (f m x !! ip) ↔ is_Some (m !! ip) ∨ P x) →
  ∀ m, is_Some (foldl f m l !! ip) ↔ is_Some (m !! ip) ∨ ∃ x, x ∈ l ∧ P x.
Proof.
  intros Hf. induction l as [|x l IH]; intros m; cbn [foldl].
  { split; [by left|]. intros [|(x & Hx & _)]; [done|]. by apply elem_of_nil in Hx. }
  rewrite IH, Hf. setoid_rewrite elem_of_cons. naive_solver.
Qed.

Lemma collect_known_lookup leases reservations ip :
  is_Some (collect_known_hosts leases reservations !! ip) ↔
    ip ≠ [] ∧ ((∃ l, l ∈ leases ∧ trim_space (l_ip l) = ip) ∨ (∃ r, r ∈ reservations ∧ trim_space (rv_ip r) = ip)).
Proof.
  unfold collect_known_hosts.
  rewrite (fold_known_lookup known_reservation _ ip _ (λ m x, known_reservation_lookup x m ip)).
  rewrite (fold_known_lookup known_lease _ ip _ (λ m x, known_lease_lookup x m ip)).
  rewrite lookup_empty. split; [|naive_solver]. intros [[[? ?]|]|]; naive_solver.
Qed.

Lemma scope_by_address ip subnet cidrs :
  ip_matches_subnets ip [] cidrs = true → ip_matches_subnets ip subnet cidrs = true.
Proof.
  unfold ip_matches_subnets. case_bool_decide; [done|].
  generalize (match parse_addr (trim_space ip) with Ok a => Some a | _ => None end). intros c.
  induction cidrs as [|cidr rest IH]; [done|]. cbn [subnets_match].
  change (negb (bool_decide (trim_space [] = []))) with false. cbn [andb].
  destruct (negb _ && _); [done|]. clear H6. intros Hm.
  assert (Hrest : subnets_match [] c rest = true → subnets_match subnet c rest = true).
  { destruct rest; [done|]. by apply IH. }
  destruct (parse_prefix (trim_space cidr)), c; auto. destruct (prefix_contains _ _); auto.
Qed.

Lemma known_arp_lookup cidrs p m ip :
  is_Some (known_arp cidrs m p !! ip) ↔ is_Some (m !! ip) ∨ ip_matches_subnets ip [] cidrs = true ∧ p.1 = ip.
Proof.
  destruct p as [ip' mac]. unfold known_arp. cbn [fst]. destruct (ip_matches_subnets ip' [] cidrs) eqn:E; cbn [negb].
  - rewrite lookup_insert_is_Some'. naive_solver.
  - split; [by left|]. intros [|[? <-]]; [done|congruence].
Qed.

Lemma scan_known_recorded o env cidrs ip :
  ip_matches_subnets ip [] cidrs = true → is_Some (scan_known o env cidrs !! ip) ↔ recorded o env ip.
Proof.
  intros Hscope. unfold scan_known, recorded.
  assert (Hf : is_Some (filter_known cidrs (collect_known_hosts (sv_leases env) (sv_reservations env)) !! ip) ↔
    is_Some (collect_known_hosts (sv_leases env) (sv_reservations env) !! ip)).
  { unfold filter_known. case_bool_decide; [done|]. split.
    - intros [k [Hk _]%map_lookup_filter_Some]. by eexists.
    - intros [k Hk]. exists k. apply map_lookup_filter_Some. split; [done|]. by apply scope_by_address. }
  rewrite collect_known_lookup in Hf. destruct (contains_method (do_methods o) (bs "arp")); [|rewrite Hf; naive_solver].
  rewrite (fold_known_lookup (known_arp cidrs) _ ip _ (λ m p, known_arp_lookup cidrs p m ip)), Hf.
  assert ((∃ p, p ∈ range_map (read_arp_neighbors (sv_arp env)) ∧ ip_matches_subnets ip [] cidrs = true ∧ p.1 = ip) ↔
    is_Some (read_arp_neighbors (sv_arp env) !! ip)) as ->; [|naive_solver].
  split.
  - intros ([ip' mac] & Hp%elem_of_range_map & _ & <-). by eexists.
  - intros [mac Hm]. exists (ip, mac). by rewrite elem_of_range_map.
Qed.

(** The state of a known address whose machine has not moved. *)
Lemma known_state (M : Prop) o probes ip :
  ¬ M →
  let out := probe_target o probes ip in
  let state := if bool_decide (po_method out = []) then StateKnown else if po_alive out then StateKnown else StateMissing in
  (¬ M ∧ (answers o probes ip ∨ ¬ has_name o probes ip) ∧ Some state = Some (bs "known")) ∨
  (¬ M ∧ ¬ answers o probes ip ∧ has_name o probes ip ∧ Some state = Some (bs "missing")).
Proof.
  intros HM out state. subst state. pose proof (probe_alive o probes ip) as Ha. pose proof (probe_silent o probes ip) as Hs.
  fold out in Ha, Hs. destruct (decide (po_method out = [])) as [E|E].
  - rewrite bool_decide_eq_true_2 by done. left. apply Hs in E as [? ?]. by split_and!; [|right|].
  - rewrite bool_decide_eq_false_2 by done. destruct (po_alive out).
    + left. split; [done|]. split; [left; by apply Ha|done].
    + right. assert (¬ answers o probes ip) by (by intros ?%Ha). split; [done|]. split; [done|]. split; [|done].
      destruct (decide (has_name o probes ip)) as [|Hn]; [done|]. by destruct E; apply Hs.
Qed.

(** What [observe] reports of an address, in the terms above. *)
Lemma host_of_state (T : Prop) known previous o probes now targeted ip :
  (T ↔ targeted = true) →
  (is_Some (known !! ip) ∨ is_Some (previous !! ip) → targeted = true) →
  host_state (known !! ip) (previous !! ip) T (answers o probes ip) (has_name o probes ip)
    (oh_state <$> host_of known previous (probe_target o probes) now targeted ip).
Proof.
  intros HT Ht. unfold host_of, host_state, moved. pose proof (probe_alive o probes ip) as Ha.
  pose proof (probe_silent o probes ip) as Hs. set (out := probe_target o probes ip) in *.
  destruct (known !! ip) as [k|] eqn:Ek.
  - rewrite Ht by (left; by eexists). rewrite bool_decide_eq_true_2 by by eexists.
    cbn [andb orb default fmap option_fmap option_map oh_state]. unfold derive_state, id. cbn [negb].
    match goal with |- context [if ?b then StateChanged else _] => set (changed := b) end.
    assert (Hch : changed = true ↔ ∃ p, previous !! ip = Some p ∧ oh_mac p ≠ [] ∧ kh_mac k ≠ [] ∧
      equal_fold (oh_mac p) (kh_mac k) = false).
    { subst changed. destruct (previous !! ip) as [p|]; [|naive_solver].
      rewrite !andb_true_iff, !negb_true_iff, !bool_decide_eq_false. naive_solver. }
    destruct changed; [left; split; [by apply Hch|done]|right].
    apply known_state. intros ?%Hch. done.
  - rewrite bool_decide_eq_false_2 by (by intros [? ?]). cbn [orb].
    destruct targeted, (po_alive out) eqn:Eo; cbn [andb].
    + left. split; [by apply HT|]. split; [by apply Ha|]. cbn. unfold derive_state.
      change (bool_decide ([] = [])) with true. rewrite Eo. destruct (previous !! ip); [|done].
      by rewrite !andb_false_r.
    + right. assert (¬ (T ∧ answers o probes ip)) by naive_solver.
      destruct (previous !! ip); [left|right]; naive_solver.
    + right. destruct (previous !! ip); [left|right]; naive_solver.
    + right. destruct (previous !! ip); [left|right]; naive_solver.
Qed.

Lemma host_of_fields known previous probe now targeted ip h :
  host_of known previous probe now targeted ip = Some h → oh_seen_at h = now ∧
  match known !! ip, previous !! ip with
  | Some k, _ => (targeted = true → oh_mac h = kh_mac k ∧ oh_subnet h = kh_subnet k ∧
      (trim_space (kh_hostname k) ≠ [] → oh_hostname h = kh_hostname k))
  | None, Some p => oh_state h = StateMissing →
      oh_mac h = oh_mac p ∧ oh_subnet h = oh_subnet p ∧ oh_hostname h = oh_hostname p
  | None, None => oh_mac h = []
  end.
Proof.
  unfold host_of, derive_state, pick_hostname. destruct (known !! ip) as [k|] eqn:Ek.
  - rewrite (bool_decide_eq_true_2 (is_Some (Some k))) by by eexists. cbn [orb]. rewrite andb_true_r.
    destruct targeted; [|intros (p & _ & ->)%fmap_Some; by split].
    intros [= <-]. cbn. split; [done|]. intros _. split; [done|]. split; [done|].
    intros Hh. by rewrite bool_decide_eq_false_2.
  - rewrite (bool_decide_eq_false_2 (is_Some None)) by (by intros [? ?]). cbn [orb negb default].
    destruct (targeted && po_alive (probe ip)) eqn:E.
    + apply andb_true_iff in E as [_ ->]. intros [= <-]. cbn [oh_seen_at oh_state oh_mac]. split; [done|].
      destruct (previous !! ip); [|done]. change (bool_decide (kh_mac (id zero_known) = [])) with true.
      rewrite !andb_false_r. intros Hst. vm_compute in Hst. discriminate Hst.
    + intros (p & -> & ->)%fmap_Some. by split.
Qed.

(** C23: a scan judges every address on its own.  An address in its scope is known when a
    lease, a reservation or the ARP table (with the [arp] method) has it.  A known address
    is reported as [changed] when the scan before saw another MAC address there, else as
    [missing] when it has a name but does not answer, and as [known] otherwise; an unknown
    one that is probed and answers is [new]; an unknown one that does not is [missing]
    when the scan before had it, and is not reported when it had not.  A known host is
    reported with what is known of it, and an unknown one that is missing as it was.  No
    address is reported twice, and the four counts add up to the number of hosts.  A
    known host with no name is never missing, see [silent_host_is_known] below. *)
Theorem scan_hosts_exact d scan_id request env :
  let r := scan_result d scan_id request env in
  let o := dn_options d in
  let cidrs := sn_cidr <$> scan_subnets request env in
  let known := scan_known o env cidrs in
  let previous := scan_previous d request env in
  (∀ ip, ip_matches_subnets ip [] cidrs = true → is_Some (known !! ip) ↔ recorded o env ip) ∧
  (∀ ip, ∃ state,
    host_state (known !! ip) (previous !! ip) (ip ∈ scan_targets d request env)
      (answers o (sv_probes env) ip) (has_name o (sv_probes env) ip) state ∧
    ∀ s, (∃ h, h ∈ re_hosts r ∧ oh_ip h = ip ∧ oh_state h = s) ↔ state = Some s) ∧
  (∀ h, h ∈ re_hosts r → oh_seen_at h = sv_seen env ∧
    match known !! oh_ip h, previous !! oh_ip h with
    | Some k, _ => oh_mac h = kh_mac k ∧ oh_subnet h = kh_subnet k ∧
        (trim_space (kh_hostname k) ≠ [] → oh_hostname h = kh_hostname k)
    | None, Some p => oh_state h = bs "missing" →
        oh_mac h = oh_mac p ∧ oh_subnet h = oh_subnet p ∧ oh_hostname h = oh_hostname p
    | None, None => oh_mac h = []
    end) ∧
  NoDup (oh_ip <$> re_hosts r) ∧
  re_total_hosts r = zlen (re_hosts r) ∧
  re_new_hosts r + re_missing_hosts r + re_changed_hosts r + re_known_hosts r = re_total_hosts r.
Proof.
  intros r o cidrs known previous. subst r. cbn [scan_result re_hosts re_total_hosts re_new_hosts re_missing_hosts re_changed_hosts re_known_hosts].
  fold o cidrs known previous. set (current := observe _ env known previous _).
  assert (Hof : ∀ ip, current !! ip = host_of known previous (probe_target o (sv_probes env)) (sv_seen env)
    (bool_decide (ip ∈ scan_targets d request env)) ip) by (intros; apply observe_lookup).
  assert (Hcur : ∀ ip h, current !! ip = Some h → oh_ip h = ip) by (intros ip h Hh; rewrite Hof in Hh; by eapply host_of_ip).
  assert (Hin : ∀ h, h ∈ sort_slice (λ x y, less_ip_string (oh_ip x) (oh_ip y)) (range_map current).*2 ↔
    current !! oh_ip h = Some h).
  { intros h. rewrite elem_of_sort_slice, list_elem_of_fmap. split.
    - intros ([ip h'] & -> & Hh%elem_of_range_map). cbn. by rewrite (Hcur ip h' Hh).
    - intros Hh. exists (oh_ip h, h). by rewrite elem_of_range_map. }
  split; [intros ip; apply scan_known_recorded|]. split; [|split; [|split; [|split; [done|apply count_states]]]].
  - intros ip. exists (oh_state <$> current !! ip). split.
    + rewrite Hof. apply host_of_state; [by rewrite bool_decide_eq_true|].
      intros Hip. apply bool_decide_eq_true. by apply known_is_target.
    + intros s. split.
      * intros (h & Hh%Hin & <- & <-). by rewrite Hh.
      * intros (h & Hh & ->)%fmap_Some. exists h. rewrite Hin, (Hcur ip h Hh). done.
  - intros h Hh%Hin. rewrite Hof in Hh. destruct (host_of_fields _ _ _ _ _ _ _ Hh) as [Hs Hm]. split; [exact Hs|].
    destruct (known !! oh_ip h) as [k|] eqn:Ek; [|exact Hm]. apply Hm, bool_decide_eq_true, known_is_target. left. by eexists.
  - rewrite sort_slice_perm, <-list_fmap_compose.
    rewrite (list_fmap_ext (oh_ip ∘ snd) fst); [apply NoDup_range_keys|].
    intros i [ip h] Hi%list_elem_of_lookup_2%elem_of_range_map. cbn. by apply Hcur.
Qed.

(** * Conflicts *)

(** Some lease or reservation puts the MAC address on the IP address. *)
Definition claimed (env : ScanEnv) (ip mac : bytes) : Prop :=
  ip ≠ [] ∧ mac ≠ [] ∧
  ((∃ l, l ∈ sv_leases env ∧ trim_space (l_ip l) = ip ∧ upper_mac (l_mac l) = mac) ∨
   (∃ r, r ∈ sv_reservations env ∧ trim_space (rv_ip r) = ip ∧ upper_mac (rv_mac r) = mac)).

Definition macs_at (m : gmap bytes (gset bytes)) (ip : bytes) : gset bytes := default ∅ (m !! ip).

Lemma macs_at_fold {A} (f g : A → bytes) (l : list A) : ∀ m ip mac,
  mac ∈ macs_at (foldl (λ c x, conflict_add c (f x) (g x)) m l) ip ↔
    mac ∈ macs_at m ip ∨ ip ≠ [] ∧ mac ≠ [] ∧ ∃ x, x ∈ l ∧ f x = ip ∧ g x = mac.
Proof.
  induction l as [|x l IH]; intros m ip mac; cbn [foldl].
  { split; [by left|]. intros [|(_ & _ & x & Hx & _)]; [done|]. by apply elem_of_nil in Hx. }
  rewrite IH. assert (Hadd : mac ∈ macs_at (conflict_add m (f x) (g x)) ip ↔
    mac ∈ macs_at m ip ∨ ip ≠ [] ∧ mac ≠ [] ∧ f x = ip ∧ g x = mac).
  { unfold conflict_add, macs_at. destruct (decide (f x = [])) as [Ef|Ef].
    { rewrite (bool_decide_eq_true_2 _ Ef). cbn [orb]. split; [by left|]. intros [|(? & _ & ? & _)]; congruence. }
    rewrite (bool_decide_eq_false_2 _ Ef). cbn [orb]. destruct (decide (g x = [])) as [Eg|Eg].
    { rewrite (bool_decide_eq_true_2 _ Eg). split; [by left|]. intros [|(_ & ? & _ & ?)]; congruence. }
    rewrite (bool_decide_eq_false_2 _ Eg). destruct (decide (f x = ip)) as [<-|Hne].
    - rewrite lookup_insert_eq. cbn. rewrite elem_of_union, elem_of_singleton. split.
      + intros [->|]; [right|by left]. done.
      + intros [|(_ & _ & _ & <-)]; [by right|by left].
    - rewrite lookup_insert_ne by done. split; [by left|]. intros [|(_ & _ & ? & _)]; done. }
  rewrite Hadd. setoid_rewrite elem_of_cons. split.
  - intros [[|(? & ? & ? & ?)]|(? & ? & y & ? & ? & ?)]; [by left|right|right].
    + split; [done|]. split; [done|]. exists x. auto.
    + split; [done|]. split; [done|]. exists y. auto.
  - intros [|(? & ? & y & [->|?] & ? & ?)]; [by left; left|left; right; done|right].
    split; [done|]. split; [done|]. by exists y.
Qed.

Lemma macs_at_collect env ip mac :
  mac ∈ macs_at (collect_conflict_map (sv_leases env) (sv_reservations env)) ip ↔ claimed env ip mac.
Proof.
  unfold collect_conflict_map. rewrite (macs_at_fold (λ r, trim_space (rv_ip r)) (λ r, upper_mac (rv_mac r))).
  rewrite (macs_at_fold (λ l, trim_space (l_ip l)) (λ l, upper_mac (l_mac l))).
  unfold macs_at at 1. rewrite lookup_empty. unfold claimed. split.
  - intros [[Hin|(? & ? & ?)]|(? & ? & ?)]; [by apply elem_of_empty in Hin|auto 10..].
  - intros (? & ? & [?|?]); auto 10.
Qed.

Lemma filter_conflicts_lookup subnets m ip s :
  filter_conflicts subnets m !! ip = Some s ↔ m !! ip = Some s ∧ ip_matches_subnets ip [] subnets = true.
Proof.
  unfold filter_conflicts. case_bool_decide as E; [|by rewrite map_lookup_filter_Some].
  subst subnets. unfold ip_matches_subnets. rewrite bool_decide_eq_true_2 by done. tauto.
Qed.

Lemma size_gt_1 (s : gset bytes) : (1 < size s)%nat ↔ ∃ x y, x ∈ s ∧ y ∈ s ∧ x ≠ y.
Proof.
  unfold size, set_size. cbn. pose proof (NoDup_elements s) as Hnd. split.
  - intros Hs. destruct (elements s) as [|x [|y l]] eqn:E; cbn in Hs; [lia..|].
    exists x, y. rewrite <-!elem_of_elements, E. apply NoDup_cons in Hnd as [Hx _].
    split; [left|]. split; [right; left|]. intros ->. apply Hx. left.
  - intros (x & y & Hx & Hy & Hne). apply elem_of_elements in Hx, Hy.
    destruct (elements s) as [|a [|b l]]; cbn; [by apply elem_of_nil in Hx| |lia].
    apply list_elem_of_singleton in Hx, Hy. congruence.
Qed.

Lemma bytes_ltb_weak_order : weak_order bytes_ltb.
Proof.
  unfold bytes_ltb. split.
  - intros x. apply bool_decide_eq_false_2. apply bytes_lt_irrefl.
  - intros x y z. rewrite !bool_decide_eq_true. apply bytes_lt_trans.
  - intros x y z. rewrite !bool_decide_eq_false, !bytes_not_lt. intros Hxy Hyz.
    apply bytes_le_lt_eq in Hxy as [Hxy|<-]; [|done]. apply bytes_le_lt_eq in Hyz as [Hyz|<-].
    + apply bytes_le_lt_eq. left. by eapply bytes_lt_trans.
    + apply bytes_le_lt_eq. by left.
Qed.

(** A scan reports a conflict for exactly the addresses in its scope that leases
    and reservations claim for two different MAC addresses, and lists every one
    of them, in order. *)
Theorem conflicts_exact d scan_id request env :
  let r := scan_result d scan_id request env in
  (∀ ip, (∃ c, c ∈ re_conflicts r ∧ co_ip c = ip) ↔
    ip_matches_subnets ip [] (sn_cidr <$> scan_subnets request env) = true ∧
    ∃ mac mac', mac ≠ mac' ∧ claimed env ip mac ∧ claimed env ip mac') ∧
  (∀ c, c ∈ re_conflicts r →
    (∀ mac, mac ∈ co_macs c ↔ claimed env (co_ip c) mac) ∧ NoDup (co_macs c) ∧
    StronglySorted (λ x y, bytes_ltb y x = false) (co_macs c)).
Proof.
  intros r. subst r. cbn [scan_result re_conflicts]. unfold scan_conflicts.
  set (m := filter_conflicts _ _).
  assert (Hm : ∀ ip s, m !! ip = Some s ↔
    collect_conflict_map (sv_leases env) (sv_reservations env) !! ip = Some s ∧
    ip_matches_subnets ip [] (sn_cidr <$> scan_subnets request env) = true) by (intros; apply filter_conflicts_lookup).
  assert (Hclaim : ∀ ip s mac, m !! ip = Some s → mac ∈ s ↔ claimed env ip mac).
  { intros ip s mac [Hs _]%Hm. rewrite <-macs_at_collect. unfold macs_at. by rewrite Hs. }
  clearbody m. setoid_rewrite elem_of_sort_slice. setoid_rewrite list_elem_of_omap. split.
  - intros ip. split.
    + intros (c & ([ip' s] & Hin%elem_of_range_map & Hc) & <-). unfold conflict_of in Hc.
      destruct (Nat.leb_spec (size s) 1) as [|Hs]; [done|]. injection Hc as <-. cbn.
      split; [by apply Hm in Hin as [_ ?]|]. apply size_gt_1 in Hs as (x & y & Hx & Hy & Hne).
      exists x, y. by rewrite <-!(Hclaim _ _ _ Hin).
    + intros (Hscope & x & y & Hne & Hx & Hy).
      assert (is_Some (collect_conflict_map (sv_leases env) (sv_reservations env) !! ip)) as [s Hs].
      { apply macs_at_collect in Hx. unfold macs_at in Hx. destruct (_ !! ip); [by eexists|]. by apply elem_of_empty in Hx. }
      assert (Hin : m !! ip = Some s) by (apply Hm; done).
      assert (Hsize : (1 < size s)%nat) by (apply size_gt_1; exists x, y; by rewrite !(Hclaim _ _ _ Hin)).
      eexists. split; [exists (ip, s); split; [by apply elem_of_range_map|]|].
      * unfold conflict_of. destruct (Nat.leb_spec (size s) 1); [lia|reflexivity].
      * done.
  - intros c ([ip s] & Hin%elem_of_range_map & Hc). unfold conflict_of in Hc.
    destruct (Nat.leb_spec (size s) 1) as [|Hs]; [done|]. injection Hc as <-. cbn. split; [|split].
    + intros mac. rewrite elem_of_sort_slice, elem_of_range_keys, <-(Hclaim _ _ _ Hin).
      split; [intros [u Hu%lookup_gset_to_gmap_Some]; tauto|]. intros Hmac. exists (). by apply lookup_gset_to_gmap_Some.
    + rewrite sort_slice_perm. apply NoDup_range_keys.
    + apply sort_slice_sorted, bytes_ltb_weak_order.
Qed.

(** * The latest scan *)

(** The engine with the results of the scans by their keys. *)
Record disc_ok (d : DiscEngine) (m : gmap bytes ScanResult) : Prop := {
  dk_engine : engine_ok (dn_store d);
  dk_table : table treeDiscoveryScans (rows (dn_store d)) m;
}.

(** What the log and the text of a result need. *)
Record scan_fits (r : ScanResult) (hosts : gmap bytes ObservedHost) : Prop := {
  sf_key : zlen (time_key (re_started_at r) (re_scan_id r)) < 4096;
  sf_result : row_fits (time_key (re_started_at r) (re_scan_id r)) r;
  sf_hosts : row_fits keyLatestHosts hosts;
  sf_time : time_text_ok (re_completed_at r);
  sf_text raw : time_marshal (re_completed_at r) = Ok raw → zlen raw < 4294900000;
}.

Lemma disc_trees_ok : tree_ok treeDiscoveryScans ∧ tree_ok treeDiscoveryMeta.
Proof. unfold tree_ok. split; split; apply (bool_decide_unpack _); vm_compute; done. Qed.

Lemma persist_spec d m r now tx_now :
  disc_ok d m → scan_fits r (merged_hosts (dn_store d) r) →
  ∃ d' raw meta, persist_result d r now tx_now [] = (d', None) ∧ disc_ok d' (<[time_key (re_started_at r) (re_scan_id r) := r]> m) ∧
    dn_latest_id d' = re_scan_id r ∧ dn_scanning d' = dn_scanning d ∧
    unmarshal raw = Ok (merged_hosts (dn_store d) r) ∧
    get (dn_store d') treeDiscoveryMeta keyLatestHosts = Ok raw ∧
    get (dn_store d') treeDiscoveryMeta keyLatestScanID = Ok (re_scan_id r) ∧
    get (dn_store d') treeDiscoveryMeta keyLastScanAt = Ok meta.
Proof.
  intros [He Ht] [Hkey (Hrok & _ & Hrsize) (Hhok & _ & Hhsize) Htime Htext]. unfold persist_result.
  destruct (marshal_ok r Hrok) as [raw Hraw]. destruct (marshal_ok _ Hhok) as [hraw Hhraw].
  destruct (time_marshal_ok _ Htime) as [meta Hmeta]. rewrite Hraw, Hhraw, Hmeta. cbn [mbind result_bind].
  destruct disc_trees_ok as [[G1 L1] [G2 L2]]. set (key := time_key _ _) in *.
  assert (Hid : zlen (re_scan_id r) < 4294900000).
  { subst key. unfold time_key in Hkey. rewrite zlen_app, zlen_cons in Hkey. pose proof (zlen_nonneg (fmt_020d (unix_nano (re_started_at r)))). lia. }
  edestruct (multi_write (dn_store d) [tx_put treeDiscoveryScans key raw; tx_put treeDiscoveryMeta keyLatestHosts hraw;
    tx_put treeDiscoveryMeta keyLatestScanID (re_scan_id r); tx_put treeDiscoveryMeta keyLastScanAt meta] tx_now He)
    as (e' & E & He' & Hv).
  { repeat (constructor; [split; [by left|done]|]). constructor. }
  { repeat (constructor; [apply loggable_row; first [done|by apply Hrsize|by apply Hhsize|by apply Htext]|]). constructor. }
  rewrite E. assert (Hrows : ∀ k, rows e' !! k = apply_muts [tx_put treeDiscoveryScans key raw; tx_put treeDiscoveryMeta keyLatestHosts hraw;
    tx_put treeDiscoveryMeta keyLatestScanID (re_scan_id r); tx_put treeDiscoveryMeta keyLastScanAt meta] (rows (dn_store d)) !! k)
    by (intros; by rewrite Hv).
  eexists _, hraw, meta. split; [reflexivity|]. split; [|split; [done|split; [done|split; [by apply unmarshal_marshal|]]]].
  - split; [done|]. intros k. cbn [dn_store]. change (dn_store (_ <| dn_latest_id := _ |>)) with e'. rewrite Hrows.
    rewrite apply_muts_lookup. unfold last_write. cbn [foldl tx_put m_tree m_key m_op m_value].
    destruct (decide (k = key)) as [->|Hne].
    + rewrite lookup_insert_eq, (bool_decide_eq_true_2 ((treeDiscoveryScans, key) = _)) by done.
      rewrite !(bool_decide_eq_false_2 ((treeDiscoveryMeta, _) = (treeDiscoveryScans, _))) by (intros [=]).
      exists raw. split; [done|]. by apply unmarshal_marshal.
    + rewrite lookup_insert_ne by done. rewrite !bool_decide_eq_false_2 by (intros [=]; congruence). apply Ht.
  - change (dn_store (_ <| dn_latest_id := _ |>)) with e'. rewrite !get_view. fold (rows e'). rewrite !Hrows, !apply_muts_lookup.
    done.
Qed.

(** The latest scan is the last one that ran.  When its rows fit the log, the
    result of a scan is what the engine gives as the latest result and the
    latest conflicts, also after a restart, and the next scan starts from its
    hosts together with the earlier hosts that were out of its scope. *)
Theorem scan_is_latest d m scan_id request env interval options now :
  disc_ok d m → sv_io env = [] → scan_id ≠ [] →
  (∀ k r, m !! k = Some r → re_scan_id r ≠ scan_id) →
  scan_fits (scan_result d scan_id request env) (merged_hosts (dn_store d) (scan_result d scan_id request env)) →
  let '(d', r) := run_scan d scan_id request env in
  latest_result d' = Ok r ∧ latest_conflicts d' = Ok (re_conflicts r) ∧
  latest_result (new_disc_engine (dn_store d') interval options now) = Ok r ∧
  load_previous_hosts (dn_store d') = merged_hosts (dn_store d) r ∧ dn_scanning d' = false ∧
  disc_ok d' (<[time_key (re_started_at r) scan_id := r]> m).
Proof.
  intros Hok Hio Hid Hfresh Hfits. unfold run_scan. set (r := scan_result d scan_id request env) in *. rewrite Hio.
  destruct (persist_spec d m r (sv_done env) (sv_done env) Hok Hfits)
    as (d1 & raw & meta & -> & Hok1 & Hlatest & _ & Hraw & Hh & Hi & Hl).
  cbn [fst]. set (d2 := mark_scan_done _ _).
  assert (Hstore : dn_store d2 = dn_store d1) by (subst d2; unfold mark_scan_done; by repeat case_match).
  assert (Hid2 : dn_latest_id d2 = scan_id) by (transitivity (dn_latest_id d1); [subst d2; unfold mark_scan_done; by repeat case_match|done]).
  assert (Hscan : dn_scanning d2 = false) by (subst d2; unfold mark_scan_done; by repeat case_match).
  assert (Hget : get_result (dn_store d1) scan_id = Ok r).
  { unfold get_result, list_results. destruct Hok1 as [[(Hwf & _) _] Ht1].
    destruct (row_list_table treeDiscoveryScans (dn_store d1) _ Hwf Ht1) as (kvs & -> & _ & Hin). cbn.
    assert (Hall : ∀ x, x ∈ filter (λ x, re_scan_id x = scan_id) (sort_slice (λ x y, after (re_started_at x) (re_started_at y)) kvs.*2) ↔ x = r).
    { intros x. rewrite list_elem_of_filter, elem_of_sort_slice, list_elem_of_fmap. split.
      - intros (Ex & [k y] & -> & Hy%Hin). apply lookup_insert_Some in Hy as [[_ <-]|[_ Hy]]; [done|]. by destruct (Hfresh _ _ Hy).
      - intros ->. split; [done|]. eexists (_, r). split; [done|]. apply Hin, lookup_insert_eq. }
    destruct (filter _ _) as [|x l] eqn:E; cbn in Hall |- *.
    - exfalso. by apply (elem_of_nil r), Hall.
    - f_equal. apply Hall. left. }
  assert (Hres : latest_result d2 = Ok r).
  { unfold latest_result. rewrite Hid2, bool_decide_eq_false_2 by done. cbn [negb]. by rewrite Hstore. }
  split; [done|]. split; [unfold latest_conflicts; by rewrite Hres|]. split.
  - assert (Hn : dn_latest_id (new_disc_engine (dn_store d2) interval options now) = scan_id ∧
      dn_store (new_disc_engine (dn_store d2) interval options now) = dn_store d1).
    { rewrite Hstore. unfold new_disc_engine, load_meta. cbn [dn_store]. rewrite Hl, Hi.
      split; destruct (time_unmarshal meta), (row_get _ _ _); reflexivity. }
    unfold latest_result. destruct Hn as [-> ->]. by rewrite bool_decide_eq_false_2.
  - split; [|split; [done|]].
    + rewrite Hstore. unfold load_previous_hosts, row_get. rewrite Hh. cbn. by rewrite Hraw.
    + destruct Hok1 as [He1 Ht1]. split; by rewrite Hstore.
Qed.
End theorems.

(** * Witness *)

#[local] Existing Instance ascii_tables.
#[local] Existing Instance small_slices.
#[local] Existing Instance listed_range.

#[local] Instance conflict_countable : Countable Conflict.
Proof.
  refine (inj_countable' (λ c, (co_ip c, co_macs c, co_severity c, co_note c)) (λ '(a, b, c, d), mkConflict a b c d) _).
  by intros [].
Defined.
#[local] Instance rogue_countable : Countable RogueServer.
Proof.
  refine (inj_countable' (λ r, (ro_ip r, ro_mac r, ro_vendor r, ro_source r, ro_detected r))
    (λ '(a, b, c, d, e), mkRogueServer a b c d e) _).
  by intros [].
Defined.
#[local] Instance observed_countable : Countable ObservedHost.
Proof.
  refine (inj_countable' (λ h, (oh_ip h, oh_mac h, oh_vendor h, oh_hostname h, oh_subnet h, oh_state h, oh_seen_at h))
    (λ '(a, b, c, d, e, f, g), mkObservedHost a b c d e f g) _).
  by intros [].
Defined.
#[local] Instance result_eq_dec : EqDecision ScanResult.
Proof. solve_decision. Defined.
#[local] Instance result_countable : Countable ScanResult.
Proof.
  refine (inj_countable' (λ r, (re_scan_id r, re_status r, re_reason r, re_subnets r, re_started_at r, re_completed_at r,
      re_duration_ms r, re_total_hosts r, re_new_hosts r, re_known_hosts r, re_missing_hosts r, re_changed_hosts r,
      re_conflicts r, re_rogue_servers r, re_hosts r))
    (λ '(a, b, c, d, e, f, g, h, i, j, k, l, m, n, o), mkScanResult a b c d e f g h i j k l m n o) _).
  by intros [].
Defined.

#[local] Instance result_json : Json ScanResult := countable_json _.
#[local] Instance hosts_json : Json (gmap bytes ObservedHost) := countable_json _.
#[local] Instance rogues_json : Json (list RogueServer) := countable_json _.
#[local] Instance number_time : TimeText.
Proof.
  refine {|
    time_marshal := λ t, Ok (pos_bits (encode t));
    time_unmarshal := λ raw, decode (bits_pos raw);
    time_text_ok := λ _, True;
  |}.
  - eauto.
  - intros t raw _ [= <-]. by rewrite bits_pos_bits, decode_encode.
Defined.

(** Two leases claim an address for two machines; nothing is probed. *)
Definition demo_scan_env : ScanEnv :=
  mkScanEnv [demo_lease; demo_lease <| l_mac := bs "AA:BB:CC:00:11:99" |>] [] (Ok []) None
    (mkProbes (λ _, false) (λ _ _, false) (λ _, [])) demo_now demo_now demo_now demo_now [].
Definition demo_disc : DiscEngine := new_disc_engine demo_engine 0 (mkDiscOptions [] [] 0 0 0) demo_now.

Example demo_scan_conflict :
  co_macs <$> re_conflicts (scan_result demo_disc (bs "scan-1") (mkScanRequest [] []) demo_scan_env) =
    [[bs "AA:BB:CC:00:11:22"; bs "AA:BB:CC:00:11:99"]].
Proof. vm_compute. reflexivity. Qed.

Lemma countable_row_fits {A} `{Countable A} (key : bytes) (a : A) :
  (zlen key <? 4096) && (zlen (pos_bits (encode a)) <? 4294900000) = true →
  row_fits (H := countable_json A) key a.
Proof. intros [H1%Z.ltb_lt H2%Z.ltb_lt]%andb_true_iff. split; [done|]. split; [done|]. by intros raw [= <-]. Qed.

Lemma demo_disc_ok : disc_ok demo_disc ∅.
Proof.
  destruct demo_engine_ok as [Hd Hc]. split; [by split|]. intros k. cbn. rewrite lookup_empty. vm_compute. done.
Qed.

Lemma demo_scan_fits :
  let r := scan_result demo_disc (bs "scan-1") (mkScanRequest [] []) demo_scan_env in
  scan_fits r (merged_hosts (dn_store demo_disc) r).
Proof.
  intros r. split.
  - vm_compute. reflexivity.
  - refine (countable_row_fits _ _ _). vm_compute. reflexivity.
  - refine (countable_row_fits _ _ _). vm_compute. reflexivity.
  - exact I.
  - intros raw [= <-]. vm_compute. reflexivity.
Qed.

Lemma scan_is_latest_witness :
  let '(d', r) := run_scan demo_disc (bs "scan-1") (mkScanRequest [] []) demo_scan_env in
  latest_result d' = Ok r ∧ latest_conflicts d' = Ok (re_conflicts r) ∧
  latest_result (new_disc_engine (dn_store d') hour (mkDiscOptions [] [] 0 0 0) (demo_now + hour)) = Ok r ∧
  load_previous_hosts (dn_store d') = merged_hosts (dn_store demo_disc) r ∧ dn_scanning d' = false ∧
  disc_ok d' (<[time_key (re_started_at r) (bs "scan-1") := r]> ∅).
Proof.
  refine (scan_is_latest demo_disc ∅ (bs "scan-1") (mkScanRequest [] []) demo_scan_env hour (mkDiscOptions [] [] 0 0 0)
    (demo_now + hour) demo_disc_ok eq_refl _ _ demo_scan_fits).
  - discriminate.
  - intros k r Hr. rewrite lookup_empty in Hr. discriminate Hr.
Defined.

(** A request for a subnet that does not exist scans everything. *)
Example unknown_subnet_scans_everything :
  re_subnets (scan_result demo_disc (bs "scan-1") (mkScanRequest [] [bs "10.99.0.0/24"]) demo_scan_env) = [bs "10.99.0.0/24"] ∧
  oh_ip <$> re_hosts (scan_result demo_disc (bs "scan-1") (mkScanRequest [] [bs "10.99.0.0/24"]) demo_scan_env) = [bs "10.0.0.10"].
Proof. vm_compute. done. Qed.

(** A known host that answers no ping is not missing. *)
Example silent_host_is_known :
  let d := new_disc_engine demo_engine 0 (mkDiscOptions [bs "ping"] [] 0 0 0) demo_now in
  oh_state <$> re_hosts (scan_result d (bs "scan-1") (mkScanRequest [] []) demo_scan_env) = [StateKnown].
Proof. vm_compute. done. Qed.
