(* ===== verification/EventData.v ===== *)
(** The data of events, [map[string]any], and internal/api/websocket/events.go,
    which makes the messages of an event. *)

From S2P Require Import Prelude.
From S2P Require Import GoBytes.
From S2P Require Import GoStrings.
From S2P Require Import GoTime.
From S2P Require Import Events.
From S2P Require Import Discovery.

(** A value of [any] by its dynamic type.  [VOther] stands for the types that the
    readers of events do not tell apart. *)
Inductive any_value :=
| VNil
| VBool (b : bool)
| VInt (z : Z)
| VInt64 (z : Z)
| VString (s : bytes)
| VStrings (l : list bytes)
| VConflicts (l : list Conflict)
| VTime (t : time)
| VOther (id : Z).
#[global] Instance any_value_eq_dec : EqDecision any_value.
Proof. solve_decision. Defined.

(** The empty map stands for the nil map too; only a write tells them apart. *)
Abbreviation event_data := (gmap bytes any_value).

(** [data[key]] *)
Definition at_key (data : event_data) (key : string) : any_value := default VNil (data !! bs key).

Record EventMessage := mkEventMessage { em_type : bytes; em_timestamp : time; em_data : event_data }.
#[global] Instance event_message_eq_dec : EqDecision EventMessage.
Proof. solve_decision. Defined.

Fixpoint first_string (values : list any_value) : bytes :=
  match values with
  | [] => []
  | VString s :: values => if bool_decide (s = []) then first_string values else s
  | _ :: values => first_string values
  end.

(** The message of a conflict of a scan. *)
Definition conflict_message (timestamp : time) (c : Conflict) : EventMessage :=
  mkEventMessage (bs "discovery.conflict") timestamp
    (list_to_map [(bs "ip", VString (co_ip c)); (bs "macs", VStrings (co_macs c))]).

(** The messages an event of this type adds to its own.  [cloneMap] of the empty map
    is nil, so writing the owner into it panics. *)
Definition alias_messages (type : bytes) (timestamp : time) (data : event_data) : result (list EventMessage) :=
  if bool_decide (type = bs "subnet.upserted") then Ok [mkEventMessage (bs "subnet.created") timestamp data]
  else if bool_decide (type = bs "reservation.upserted") then
    match data !! bs "owner" with
    | Some _ => Ok [mkEventMessage (bs "address.reserved") timestamp data]
    | None =>
        if bool_decide (data = ∅) then Panic "assignment to entry in nil map"
        else Ok [mkEventMessage (bs "address.reserved") timestamp (<[bs "owner" := VString (bs "system")]> data)]
    end
  else if bool_decide (type = bs "discovery.scan_queued") then Ok [mkEventMessage (bs "discovery.started") timestamp data]
  else if bool_decide (type = bs "discovery.scan_completed") then
    Ok (mkEventMessage (bs "discovery.completed") timestamp
          (list_to_map [(bs "scan_id", at_key data "scan_id"); (bs "found", at_key data "total_hosts");
                        (bs "subnet", VString (first_string [at_key data "subnet"; at_key data "subnet_cidr"]))]) ::
        match at_key data "conflicts" with
        | VConflicts cs => conflict_message timestamp <$> cs
        | VInt count => if 0 <? count
                        then [mkEventMessage (bs "discovery.conflict") timestamp (list_to_map [(bs "count", VInt count)])] else []
        | _ => []
        end)
  else Ok [].

Definition normalize_event (evt : Event event_data) (now : time) : result (list EventMessage) :=
  let timestamp := if is_zero (ev_timestamp evt) then now else ev_timestamp evt in
  aliases ← alias_messages (ev_type evt) timestamp (ev_data evt);
  Ok (mkEventMessage (ev_type evt) timestamp (ev_data evt) :: aliases).

(** Only an event without data can make it panic. *)
Lemma normalize_event_ok evt now : ev_data evt ≠ ∅ → ∃ ms, normalize_event evt now = Ok ms.
Proof.
  intros Hd. unfold normalize_event.
  assert (∀ t, ∃ ms, alias_messages (ev_type evt) t (ev_data evt) = Ok ms) as Ha; [|by edestruct Ha as [ms ->]; eexists].
  intros t. unfold alias_messages. destruct (bool_decide _); [by eexists|]. destruct (bool_decide _).
  { destruct (ev_data evt !! bs "owner"); [by eexists|]. rewrite bool_decide_eq_false_2 by done. by eexists. }
  destruct (bool_decide _); [by eexists|]. destruct (bool_decide _); by eexists.
Qed.
