(* ===== verification/WebSocket.v ===== *)
(** internal/api/websocket: client.go and hub.go.

    Frames on a byte stream, the subscriptions of a client, its queue, and the hub
    that offers every message to every client.  A client is named by a number where
    the code has its pointer.  What the connection carries is a list of bytes each
    way; a write to it succeeds.  The goroutine of a client that writes is the step
    [write_next]; the one that reads is [read_loop]. *)

From S2P Require Import Prelude.
From S2P Require Import GoBytes.
From S2P Require Import GoStrings.
From S2P Require Import GoChan.
From S2P Require Import GoTime.
From S2P Require Import GoJson.
From S2P Require Import GoSha.
From S2P Require Import ConfigValidate.
From S2P Require Import Events.
From S2P Require Import EventData.

Definition opcodeContinuation : Z := 0.
Definition opcodeText : Z := 1.
Definition opcodeBinary : Z := 2.
Definition opcodeClose : Z := 8.
Definition opcodePing : Z := 9.
Definition opcodePong : Z := 10.
Definition websocketGUID : bytes := bs "258EAFA5-E914-47DA-95CA-C5AB0DC85B11".
Definition writeBufferSize : Z := 32.
Definition maxFramePayload : Z := 1048576.

(** * Frames *)

Definition ErrEOF : error := ErrIO "EOF".
Definition is_eof (e : error) : bool := match e with ErrIO m => bool_decide (m = "EOF"%string) | _ => false end.
Definition read_byte (r : bytes) : result (Z * bytes) :=
  match r with b :: r => Ok (byte_to_Z b, r) | [] => Err ErrEOF end.
(** [io.ReadFull] *)
Definition read_full (n : Z) (r : bytes) : result (bytes * bytes) :=
  if n =? 0 then Ok ([], r)
  else if bool_decide (r = []) then Err ErrEOF
  else if zlen r <? n then Err (ErrIO "unexpected EOF")
  else Ok (take (Z.to_nat n) r, drop (Z.to_nat n) r).

Definition too_large (n : Z) : error := Errorf "websocket frame payload too large: %d" [FZ n].

(** [writeFrame]: the bytes that go out. *)
Definition write_frame (opcode : Z) (payload : bytes) : result bytes :=
  let n := zlen payload in
  if maxFramePayload <? n then Err (too_large n)
  else
    let first := byte_of_Z (Z.lor 128 opcode) in
    Ok ((if n <? 126 then [first; byte_of_Z n]
         else if n <=? 65535 then [first; byte_of_Z 126] ++ be_put 2 n
         else [first; byte_of_Z 127] ++ be_put 8 n) ++ payload).

Record frameHeader := mkFrameHeader { fh_opcode : Z; fh_masked : bool; fh_length : Z }.

Definition read_length (len : Z) (r : bytes) : result (Z * bytes) :=
  if len =? 126 then '(buf, r) ← read_full 2 r; Ok (be_get buf, r)
  else if len =? 127 then '(buf, r) ← read_full 8 r; Ok (be_get buf, r)
  else Ok (len, r).

Definition mask_bytes (key payload : bytes) : bytes :=
  imap (λ i b, byte_of_Z (Z.lxor (byte_to_Z b) (byte_to_Z (nth (i mod 4) key (byte_of_Z 0))))) payload.

Definition read_frame (r : bytes) : result (frameHeader * bytes * bytes) :=
  '(first, r) ← read_byte r;
  '(second, r) ← read_byte r;
  let opcode := Z.land first 15 in
  let masked := negb (Z.land second 128 =? 0) in
  '(len, r) ← read_length (Z.land second 127) r;
  if maxFramePayload <? len then Err (too_large len)
  else
    '(key, r) ← (if masked : bool then read_full 4 r else Ok ([], r));
    '(payload, r) ← read_full len r;
    Ok (mkFrameHeader opcode masked len, if masked then mask_bytes key payload else payload, r).

(** * Subscriptions *)

(** A client, and the clients of a hub. *)
Record Client := mkClient {
  cl_send : chan EventMessage; cl_subscriptions : list bytes; cl_done : bool; cl_written : bytes
}.
#[global] Instance eta_Client : Eta Client := λ c,
  mkClient (cl_send c) (cl_subscriptions c) (cl_done c) (cl_written c).
Abbreviation Hub := (gmap Z Client).

Section websocket.
Context `{UnicodeTables}.

Record subscriptionMessage := mkSubscriptionMessage { sb_action : bytes; sb_events : list bytes }.

Definition has_suffix (s p : bytes) : bool := bool_decide (drop (length s - length p) s = p).

Definition matches_subscription (pattern event_type : bytes) : bool :=
  let pattern := trim_space pattern in
  if bool_decide (pattern = []) || bool_decide (pattern = bs "*") then true
  else if has_suffix pattern (bs ".*") then has_prefix event_type (removelast pattern)
  else equal_fold pattern event_type.

Definition new_client (written : bytes) : Client := mkClient (make_chan writeBufferSize) [bs "*"] false written.

Definition is_subscribed (c : Client) (event_type : bytes) : bool :=
  existsb (λ pattern, matches_subscription pattern event_type) (cl_subscriptions c).

Definition remaining_patterns (events current : list bytes) : list bytes :=
  filter (λ c, existsb (λ item, equal_fold c item) events = false) current.

Definition apply_subscription (c : Client) (message : subscriptionMessage) : Client :=
  let events := filter (λ e, e ≠ []) (trim_space <$> sb_events message) in
  let events := if bool_decide (events = []) then [bs "*"] else events in
  let action := to_lower (trim_space (sb_action message)) in
  if bool_decide (action = bs "subscribe") || bool_decide (action = []) then c <| cl_subscriptions := events |>
  else if bool_decide (action = bs "unsubscribe") then
    let remaining := remaining_patterns events (cl_subscriptions c) in
    c <| cl_subscriptions := if bool_decide (remaining = []) then [bs "*"] else remaining |>
  else c.

(** [Send]; a client that is done takes nothing. *)
Definition client_send (c : Client) (message : EventMessage) : Client :=
  if negb (is_subscribed c (em_type message)) then c
  else if cl_done c then c
  else c <| cl_send := send_nb message (cl_send c) |>.

(** A frame goes out, or the error of [writeFrame]. *)
Definition client_write (c : Client) (opcode : Z) (payload : bytes) : Client * option error :=
  match write_frame opcode payload with
  | Ok out => (c <| cl_written := cl_written c ++ out |>, None)
  | Err e => (c, Some e)
  | Panic m => (c, Some (ErrIO m))
  end.

Context `{Json subscriptionMessage} `{Json EventMessage}.

Definition marshal_event (message : EventMessage) : bytes :=
  match marshal message with Ok raw => raw | _ => [] end.

(** A turn of [writeLoop] that takes a message, if there is one. *)
Definition write_next (c : Client) : Client * option error :=
  match recv_nb (cl_send c) with
  | (Some message, ch) => client_write (c <| cl_send := ch |>) opcodeText (marshal_event message)
  | (None, _) => (c, None)
  end.

(** [readLoop] on what the peer sends; every frame has at least two bytes. *)
Fixpoint read_loop_fuel (fuel : nat) (c : Client) (r : bytes) : Client * option error :=
  match fuel with
  | O => (c, None)
  | S fuel =>
      match read_frame r with
      | Err e =>
          (c, if is_eof e || contains (to_lower (error_text e)) (bs "closed") then None else Some e)
      | Panic m => (c, Some (ErrIO m))
      | Ok (header, payload, r) =>
          if fh_opcode header =? opcodeText then
            match (unmarshal payload : result subscriptionMessage) with
            | Ok msg => read_loop_fuel fuel (apply_subscription c msg) r
            | _ => read_loop_fuel fuel c r
            end
          else if fh_opcode header =? opcodePing then
            match client_write c opcodePong payload with
            | (c, None) => read_loop_fuel fuel c r
            | (c, Some e) => (c, Some e)
            end
          else if fh_opcode header =? opcodeClose then (c, None)
          else read_loop_fuel fuel c r
      end
  end.
Definition read_loop (c : Client) (r : bytes) : Client * option error := read_loop_fuel (S (length r)) c r.

(** * The hub *)

Definition hub_register (h : Hub) (id : Z) (c : Client) : Hub := <[id := c]> h.
Definition hub_unregister (h : Hub) (id : Z) : Hub := base.delete id h.
Definition hub_broadcast (h : Hub) (message : EventMessage) : Hub := (λ c, client_send c message) <$> h.

(** What the hub does with an event of the broker. *)
Definition hub_event (h : Hub) (evt : Event event_data) (now : time) : result Hub :=
  messages ← normalize_event evt now;
  Ok (foldl hub_broadcast h messages).

(** [Close] the first time: the client leaves the hub and a close frame goes out. *)
Definition client_close (h : Hub) (id : Z) (c : Client) : Hub * Client :=
  if cl_done c then (h, c)
  else (hub_unregister h id, (client_write (c <| cl_done := true |>) opcodeClose []).1).

Definition new_system_message (event_type : bytes) (data : event_data) (now : time) : EventMessage :=
  mkEventMessage event_type now data.

(** * The handshake *)

Context `{UrlParse}.

Record handshake := mkHandshake {
  hs_connection : bytes; hs_upgrade : bytes; hs_key : bytes; hs_origin : bytes; hs_host : bytes;
  hs_enforced : bool; hs_identified : bool
}.

Definition same_origin (r : handshake) : bool :=
  let origin := trim_space (hs_origin r) in
  if bool_decide (origin = []) then true
  else match url_parse origin with
       | Some (_, host) => equal_fold host (hs_host r)
       | None => false
       end.

Definition websocket_accept (key : bytes) : bytes := b64_encode (sha1 (key ++ websocketGUID)).

Definition crlf : bytes := [byte_of_Z 13; byte_of_Z 10].
Definition accept_response (key : bytes) : bytes :=
  bs "HTTP/1.1 101 Switching Protocols" ++ crlf ++ bs "Upgrade: websocket" ++ crlf ++ bs "Connection: Upgrade" ++ crlf ++
  bs "Sec-WebSocket-Accept: " ++ websocket_accept key ++ crlf ++ crlf.

(** [Upgrade]: a status with its message, or a client the response has gone to. *)
Definition upgrade (r : handshake) : (Z * string) + Client :=
  if negb (equal_fold (hs_connection r) (bs "Upgrade")) && negb (contains (to_lower (hs_connection r)) (bs "upgrade"))
  then inl (400, "missing websocket upgrade header"%string)
  else if negb (equal_fold (hs_upgrade r) (bs "websocket")) then inl (400, "missing websocket protocol upgrade"%string)
  else
    let key := trim_space (hs_key r) in
    if bool_decide (key = []) then inl (400, "missing websocket key"%string)
    else if hs_enforced r && negb (same_origin r) then inl (403, "websocket origin rejected"%string)
    else if hs_enforced r && negb (hs_identified r) then inl (401, "authentication required"%string)
    else inr (new_client (accept_response key)).
End websocket.

Example accept_rfc6455 : websocket_accept (bs "dGhlIHNhbXBsZSBub25jZQ==") = bs "s3pPLMBiTxaQ9kYGzzhZRbK+xOo=".
Proof. vm_compute. reflexivity. Qed.

(** What the WebSocket endpoint guarantees. *)

(** * Frames *)

(** The masking of RFC 6455 as a client does it: each byte with the first one of a key
    that turns. *)
Fixpoint turning_mask (key payload : bytes) : bytes :=
  match payload, key with
  | b :: payload, k :: key => byte_of_Z (Z.lxor (byte_to_Z b) (byte_to_Z k)) :: turning_mask (key ++ [k]) payload
  | _, _ => []
  end.
(** A frame of RFC 6455, with the mask of a client or without one. *)
Definition frame_bytes (opcode : Z) (mask : option bytes) (payload : bytes) : bytes :=
  let n := zlen payload in
  let bit := match mask with Some _ => 128 | None => 0 end in
  byte_of_Z (128 + opcode) ::
  (if n <? 126 then [byte_of_Z (bit + n)]
   else if n <=? 65535 then byte_of_Z (bit + 126) :: be_put 2 n
   else byte_of_Z (bit + 127) :: be_put 8 n) ++
  match mask with Some key => key ++ turning_mask key payload | None => payload end.

Lemma turning_mask_bytes key p : length key = 4%nat → turning_mask key p = mask_bytes key p.
Proof.
  revert key. induction p as [|x p IH]; intros key Hk; [done|].
  destruct key as [|a [|b [|c [|d [|]]]]]; try done. unfold mask_bytes. cbn [turning_mask imap app]. f_equal.
  rewrite IH by done. apply imap_ext. intros i y _. unfold compose. do 3 f_equal.
  assert (i mod 4 < 4)%nat by (apply Nat.mod_upper_bound; lia).
  assert (S i mod 4 = S (i mod 4) mod 4)%nat as -> by (rewrite <-Nat.add_1_r, <-Nat.Div0.add_mod_idemp_l, Nat.add_1_r; done).
  destruct (i mod 4)%nat as [|[|[|[|]]]]; [done..|lia].
Qed.

Lemma length_mask key p : length (mask_bytes key p) = length p.
Proof. apply length_imap. Qed.

Lemma lxor_byte x y : 0 ≤ x < 256 → 0 ≤ y < 256 → 0 ≤ Z.lxor x y < 256.
Proof.
  intros Hx Hy. assert (Hn : 0 ≤ Z.lxor x y) by (apply Z.lxor_nonneg; lia). split; [done|].
  assert (E : Z.shiftr (Z.lxor x y) 8 = 0).
  { rewrite Z.shiftr_lxor, !Z.shiftr_div_pow2, !Z.div_small by lia. done. }
  rewrite Z.shiftr_div_pow2 in E by lia. change (2 ^ 8) with 256 in E. apply Z.div_small_iff in E; lia.
Qed.

Lemma mask_mask key p : mask_bytes key (mask_bytes key p) = p.
Proof.
  apply list_eq. intros i. unfold mask_bytes. rewrite !list_lookup_imap. destruct (p !! i) as [b|]; [|done]. cbn.
  f_equal. set (k := byte_to_Z (nth _ _ _)). pose proof (byte_to_Z_range b). assert (0 ≤ k < 256) by apply byte_to_Z_range.
  rewrite byte_to_of_Z, Z.mod_small by by apply lxor_byte.
  rewrite Z.lxor_assoc, Z.lxor_nilpotent, Z.lxor_0_r. apply byte_of_to_Z.
Qed.

Lemma read_full_app n s r : zlen s = n → read_full n (s ++ r) = Ok (s, r).
Proof.
  intros <-. unfold read_full. destruct (Z.eqb_spec (zlen s) 0) as [E|E]; [by assert (s = []) as -> by (apply length_zero_iff_nil; unfold zlen in E; lia)|].
  rewrite bool_decide_eq_false_2 by (intros [-> _]%app_eq_nil; done). pose proof (zlen_nonneg r).
  rewrite zlen_app, (proj2 (Z.ltb_ge _ _)) by lia. by rewrite take_zlen, drop_zlen.
Qed.

Lemma land_mod x k : 0 ≤ k → Z.land x (2 ^ k - 1) = x mod 2 ^ k.
Proof. intros Hk. rewrite <-Z.land_ones by done. f_equal. rewrite Z.ones_equiv. lia. Qed.

(** The two bits of the second byte. *)
Lemma second_byte (masked : bool) n : 0 ≤ n < 128 →
  let b := byte_to_Z (byte_of_Z ((if masked then 128 else 0) + n)) in
  Z.land b 127 = n ∧ negb (Z.land b 128 =? 0) = masked.
Proof.
  intros Hn b. subst b. rewrite byte_to_of_Z, Z.mod_small by (destruct masked; lia). split.
  - change 127 with (2 ^ 7 - 1). rewrite land_mod by lia. change (2 ^ 7) with 128.
    destruct masked; [|by rewrite Z.mod_small].
    rewrite Z.add_comm, <-(Z.mul_1_l 128) at 1. by rewrite Z_mod_plus_full, Z.mod_small.
  - assert (E : Z.testbit ((if masked then 128 else 0) + n) 7 = masked).
    { rewrite Z.testbit_eqb by lia. change (2 ^ 7) with 128. destruct masked.
      - rewrite <-(Z.mul_1_l 128) at 1. rewrite Z.div_add_l, Z.div_small by lia. done.
      - by rewrite Z.div_small. }
    destruct (Z.eqb_spec (Z.land ((if masked then 128 else 0) + n) 128) 0) as [E0|E0]; cbn [negb].
    + rewrite <-E. apply (f_equal (λ z, Z.testbit z 7)) in E0. rewrite Z.land_spec in E0. cbn in E0.
      rewrite andb_true_r in E0. done.
    + destruct masked; [done|]. destruct E0. cbn [Z.add]. apply Z.bits_inj'. intros i Hi.
      rewrite Z.land_spec, Z.bits_0. change 128 with (2 ^ 7). destruct (decide (i = 7)) as [->|Hi7].
      * cbn [Z.add] in E. by rewrite E.
      * rewrite Z.pow2_bits_false by done. apply andb_false_r.
Qed.

Lemma first_byte op : 0 ≤ op < 16 → Z.land (byte_to_Z (byte_of_Z (128 + op))) 15 = op.
Proof.
  intros Hop. rewrite byte_to_of_Z, Z.mod_small by lia. change 15 with (2 ^ 4 - 1). rewrite land_mod by lia.
  change (2 ^ 4) with 16. change 128 with (8 * 16). rewrite Z.add_comm, Z_mod_plus_full. by apply Z.mod_small.
Qed.

(** C25: a frame arrives whole.  Of a frame that any peer sends, masked or not, and
    whatever comes after it, the endpoint reads the opcode and the payload and stops
    where the frame ends; a payload of more than a mebibyte is refused. *)
Theorem frame_arrives op mask payload rest :
  0 ≤ op < 16 → (∀ key, mask = Some key → length key = 4%nat) → zlen payload < 2 ^ 63 →
  read_frame (frame_bytes op mask payload ++ rest) =
    if maxFramePayload <? zlen payload then Err (too_large (zlen payload))
    else Ok (mkFrameHeader op (bool_decide (is_Some mask)) (zlen payload), payload, rest).
Proof.
  intros Hop Hkey Hp. pose proof (zlen_nonneg payload) as Hn. unfold read_frame, frame_bytes.
  set (body := match mask with Some key => key ++ turning_mask key payload | None => payload end).
  cbn [app read_byte mbind result_bind]. rewrite first_byte by done.
  assert (Hbody : ∀ len, len = zlen payload → (
    '(key, r) ← (if bool_decide (is_Some mask) then read_full 4 (body ++ rest) else Ok ([], body ++ rest));
    '(p, r) ← read_full len r;
    Ok (mkFrameHeader op (bool_decide (is_Some mask)) len, if bool_decide (is_Some mask) then mask_bytes key p else p, r)) =
    Ok (mkFrameHeader op (bool_decide (is_Some mask)) (zlen payload), payload, rest)).
  { intros len ->. destruct mask as [key|]; cbn [bool_decide]; subst body.
    - rewrite bool_decide_eq_true_2 by done. rewrite turning_mask_bytes by by apply Hkey.
      rewrite <-app_assoc, read_full_app by (unfold zlen; by rewrite (Hkey key)).
      cbn [mbind result_bind]. rewrite read_full_app by (unfold zlen; by rewrite length_mask).
      cbn [mbind result_bind]. by rewrite mask_mask.
    - rewrite bool_decide_eq_false_2 by (by intros []). cbn [mbind result_bind]. by rewrite read_full_app. }
  assert (Hbit : (match mask with Some _ => 128 | None => 0 end) = if bool_decide (is_Some mask) then 128 else 0)
    by by destruct mask.
  rewrite Hbit. destruct (Z.ltb_spec (zlen payload) 126) as [H1|H1].
  - cbn [app mbind result_bind read_byte]. destruct (second_byte (bool_decide (is_Some mask)) (zlen payload)) as [-> ->]; [lia|].
    unfold read_length. rewrite !(proj2 (Z.eqb_neq _ _)) by lia. cbn [mbind result_bind].
    destruct (maxFramePayload <? zlen payload) eqn:El; [done|]. by apply Hbody.
  - destruct (Z.leb_spec (zlen payload) 65535) as [H2|H2].
    + cbn [app mbind result_bind read_byte]. destruct (second_byte (bool_decide (is_Some mask)) 126) as [-> ->]; [lia|].
      unfold read_length. cbn [Z.eqb Pos.eqb]. rewrite <-app_assoc, read_full_app by apply zlen_be.
      cbn [mbind result_bind]. rewrite be_get_put_id by lia.
      destruct (maxFramePayload <? zlen payload) eqn:El; [done|]. by apply Hbody.
    + cbn [app mbind result_bind read_byte]. destruct (second_byte (bool_decide (is_Some mask)) 127) as [-> ->]; [lia|].
      unfold read_length. cbn [Z.eqb Pos.eqb]. rewrite <-app_assoc, read_full_app by apply zlen_be.
      cbn [mbind result_bind]. rewrite be_get_put_id by lia.
      destruct (maxFramePayload <? zlen payload) eqn:El; [done|]. by apply Hbody.
Qed.

(** * Delivery *)

Section delivery.
Context `{UnicodeTables}.

(** Events one after the other, each at its time. *)
Definition hub_events (h : Hub) (evts : list (Event event_data * time)) : result Hub :=
  foldl (λ r e, h ← r; hub_event h e.1 e.2) (Ok h) evts.

(** What subscribers are offered: the messages of the events, in order. *)
Definition offered (evts : list (Event event_data * time)) : list EventMessage :=
  evts ≫= λ e, match normalize_event e.1 e.2 with Ok ms => ms | _ => [] end.

Definition wanted (c : Client) (ms : list EventMessage) : list EventMessage :=
  filter (λ m, is_subscribed c (em_type m) = true) ms.

Lemma client_sends (c : Client) ms :
  cl_done c = false → chan_ok (cl_send c) →
  foldl client_send c ms =
    c <| cl_send := foldl (λ ch m, send_nb m ch) (cl_send c) (wanted c ms) |>.
Proof.
  intros Hd. revert c Hd. induction ms as [|m ms IH]; intros c Hd Hc; cbn [foldl]; [by destruct c|].
  unfold wanted. rewrite filter_cons. unfold client_send at 2. destruct (is_subscribed c (em_type m)) eqn:E; cbn [negb].
  - rewrite Hd, decide_True by done. rewrite IH; [|done|by apply send_nb_ok]. by destruct c.
  - rewrite decide_False by done. by apply IH.
Qed.

Lemma hub_broadcasts (h : Hub) ms id c : h !! id = Some c →
  foldl hub_broadcast h ms !! id = Some (foldl client_send c ms).
Proof.
  revert h c. induction ms as [|m ms IH]; intros h c Hid; cbn [foldl]; [done|]. apply IH.
  unfold hub_broadcast. rewrite lookup_fmap, Hid. done.
Qed.

Lemma hub_events_fail (r : result Hub) evts h' :
  foldl (λ r e, h ← r; hub_event h e.1 e.2) r evts = Ok h' → ∃ h, r = Ok h.
Proof.
  revert r. induction evts as [|e evts IH]; intros r Hr; cbn in Hr; [by eexists|].
  apply IH in Hr as (h & Hr). destruct r as [h0| |]; [by eexists|done..].
Qed.

Lemma hub_events_client evts : ∀ (h h' : Hub) id c, hub_events h evts = Ok h' → h !! id = Some c →
  h' !! id = Some (foldl client_send c (offered evts)).
Proof.
  induction evts as [|e evts IH]; intros h h' id c Hr Hid; [by injection Hr as <-|].
  unfold hub_events in Hr. cbn [foldl mbind result_bind] in Hr.
  destruct (hub_events_fail _ _ _ Hr) as [h1 E1]. rewrite E1 in Hr. unfold hub_event in E1.
  unfold offered. cbn [mbind list_bind]. destruct (normalize_event e.1 e.2) as [ms| |] eqn:Em; [|done..].
  injection E1 as <-. rewrite foldl_app. eapply IH; [exact Hr|]. by apply hub_broadcasts.
Qed.

(** A client of the hub that reads nothing meanwhile finds in its queue the
    messages of the events it is subscribed to, in order and each once, after those
    it had; when they are more than the queue takes, the first ones. *)
Theorem subscribed_messages_queued (h h' : Hub) id c evts :
  h !! id = Some c → cl_done c = false → chan_ok (cl_send c) → hub_events h evts = Ok h' →
  ∃ c', h' !! id = Some c' ∧ cl_subscriptions c' = cl_subscriptions c ∧
    ch_buf (cl_send c') =
      take (Z.to_nat (ch_cap (cl_send c))) (ch_buf (cl_send c) ++ wanted c (offered evts)).
Proof.
  intros Hid Hd Hc Hr. eexists. split; [by eapply hub_events_client|]. rewrite client_sends by done.
  split; [by destruct c|]. destruct c. cbn. by apply broadcast_prefix.
Qed.
End delivery.

(** * Examples and witnesses *)

#[local] Existing Instance ascii_tables.

Definition demo_mask : bytes := map byte_of_Z [1; 2; 3; 250].
Lemma frame_arrives_witness :
  read_frame (frame_bytes opcodeText (Some demo_mask) (bs "subscribe") ++ bs "next") =
    Ok (mkFrameHeader 1 true 9, bs "subscribe", bs "next").
Proof.
  refine (eq_trans (frame_arrives opcodeText (Some demo_mask) (bs "subscribe") (bs "next") _ _ _) _).
  - vm_compute. split; congruence.
  - intros key [= <-]. reflexivity.
  - vm_compute. reflexivity.
  - vm_compute. reflexivity.
Defined.

Definition demo_client : Client := new_client [] <| cl_subscriptions := [bs "discovery.*"] |>.
Definition demo_hub : Hub := {[ 7 := demo_client ]}.
Definition demo_events : list (Event event_data * time) :=
  [(mkEvent (bs "lease.released") 5 {[ bs "ip" := VString (bs "10.0.1.20") ]}, 5);
   (mkEvent (bs "discovery.scan_queued") 0 {[ bs "scan_id" := VString (bs "scan-1") ]}, 6)].

Lemma subscribed_messages_queued_witness :
  ∃ c', match hub_events demo_hub demo_events with Ok h => h | _ => ∅ end !! 7 = Some c' ∧
    cl_subscriptions c' = [bs "discovery.*"] ∧
    ch_buf (cl_send c') =
      [mkEventMessage (bs "discovery.scan_queued") 6 {[ bs "scan_id" := VString (bs "scan-1") ]};
       mkEventMessage (bs "discovery.started") 6 {[ bs "scan_id" := VString (bs "scan-1") ]}].
Proof.
  refine (subscribed_messages_queued demo_hub _ 7 demo_client demo_events _ _ _ _).
  - reflexivity.
  - reflexivity.
  - vm_compute. congruence.
  - vm_compute. reflexivity.
Defined.

(** A client that unsubscribes from its last topic gets all of them. *)
Example unsubscribe_subscribes_to_all :
  cl_subscriptions (apply_subscription demo_client (mkSubscriptionMessage (bs "unsubscribe") [bs "discovery.*"])) = [bs "*"].
Proof. vm_compute. reflexivity. Qed.
