(* ===== verification/Webhook.v ===== *)
(** internal/webhook: delivery.go and dispatcher.go.

    A delivery tries a request until it succeeds; what the receiver answers to each
    attempt and whether the context ends in the wait after it are arguments, and the
    waits are part of the outcome.  The dispatcher is a transition system of its two
    goroutines, with the broker that publishes and the context that ends beside them:
    the first takes an event of its subscription and queues a request for every hook
    that wants it, the second delivers what is queued, and either may return when the
    context is done.  The texts of a JSON document are an interface. *)

From stdpp Require Import relations.
From S2P Require Import Prelude.
From S2P Require Import GoBytes.
From S2P Require Import GoStrings.
From S2P Require Import GoTime.
From S2P Require Import GoJson.
From S2P Require Import ConfigTypes.
From S2P Require Import Events.
From S2P Require Import EventData.
From S2P Require Import WebSocket.

(** * Payloads *)

Record slackField := mkSlackField { sf_title : bytes; sf_value : bytes; sf_short : bool }.
(** The document that is marshalled, of either format. *)
Inductive hookPayload :=
| SlackPayload (text color : bytes) (fields : list slackField)
| JsonPayload (type : bytes) (timestamp : time) (data : event_data).

(** [json.Marshal] of the document, [json.MarshalIndent] of the data, and the format
    RFC 3339 of a time. *)
Class HookText := {
  marshal_payload : hookPayload → result bytes;
  marshal_indent : event_data → result bytes;
  format_rfc3339 : time → bytes;
}.

Section webhook.
Context `{UnicodeTables} `{HookText}.

Definition slack_color (event_type : bytes) : bytes :=
  if contains event_type (bs "conflict") || contains event_type (bs "rogue") then bs "danger"
  else if contains event_type (bs "expired") || contains event_type (bs "deleted") then bs "warning"
  else bs "good".

Definition backticks : bytes := replicate 3 (byte_of_Z 96).
Definition marshal_map_for_slack (data : event_data) : bytes :=
  if bool_decide (data = ∅) then bs "{}"
  else match marshal_indent data with Ok raw => backticks ++ raw ++ backticks | _ => bs "{}" end.

Definition hook_payload (hook : WebhookConfig) (evt : Event event_data) : hookPayload :=
  if bool_decide (to_lower (trim_space (wh_format hook)) = bs "slack") then
    SlackPayload (bs "*" ++ wh_name hook ++ bs "*: `" ++ ev_type evt ++ bs "`") (slack_color (ev_type evt))
      [mkSlackField (bs "Event") (ev_type evt) true;
       mkSlackField (bs "Timestamp") (format_rfc3339 (ev_timestamp evt)) true;
       mkSlackField (bs "Data") (marshal_map_for_slack (ev_data evt)) false]
  else JsonPayload (ev_type evt) (ev_timestamp evt) (ev_data evt).

Definition render_payload (hook : WebhookConfig) (evt : Event event_data) : result (bytes * bytes) :=
  raw ← marshal_payload (hook_payload hook evt); Ok (raw, bs "application/json").

(** * Delivery *)

Record hookRequest := mkHookRequest {
  hr_url : bytes; hr_content_type : bytes; hr_headers : gmap bytes bytes; hr_body : bytes
}.

Record DeliveryStatus := mkDeliveryStatus {
  ds_webhook : bytes; ds_event_type : bytes; ds_attempts : Z; ds_success : bool; ds_status_code : Z; ds_error : bytes
}.

(** [sendOnce]; [post] is the client on the request. *)
Definition send_once (post : hookRequest → result Z) (hook : WebhookConfig) (evt : Event event_data) : result Z :=
  '(body, content_type) ← render_payload hook evt;
  post (mkHookRequest (wh_url hook) content_type (filter (λ p, trim_space p.1 ≠ []) (wh_headers hook)) body).

(** [time.Second * time.Duration(1<<(attempt-1))], each in 64 bits. *)
Definition backoff_delay (attempt : Z) : duration :=
  i64 (second * (if attempt - 1 <? 64 then i64 (2 ^ (attempt - 1)) else 0)).

Definition retry_delay (attempt : Z) (mode : bytes) : duration :=
  if equal_fold mode (bs "fixed") then second
  else let delay := backoff_delay attempt in if 8 * second <? delay then 8 * second else delay.

Definition max_attempts (hook : WebhookConfig) : Z := if wh_max_attempts hook <=? 0 then 3 else wh_max_attempts hook.
Definition backoff_mode (hook : WebhookConfig) : bytes :=
  let backoff := to_lower (trim_space (wh_backoff hook)) in
  if bool_decide (backoff = []) then bs "exponential" else backoff.

Definition delivered (r : result Z) : bool :=
  match r with Ok code => (200 <=? code) && (code <? 300) | _ => false end.
Definition status_code (r : result Z) : Z := match r with Ok code => code | _ => 0 end.
Definition failure_text (r : result Z) : bytes :=
  match r with
  | Ok code => error_text (Errorf "unexpected status code %d" [FZ code])
  | Err e => error_text e
  | Panic m => bs m
  end.

Section attempts.
Context (hook : WebhookConfig) (evt : Event event_data).
Context (post : Z → hookRequest → result Z) (cancelled : Z → option error).

Definition attempt_result (attempt : Z) : result Z := send_once (post attempt) hook evt.
Definition delivery_status (attempt : Z) (success : bool) (err : bytes) : DeliveryStatus :=
  mkDeliveryStatus (wh_name hook) (ev_type evt) attempt success (status_code (attempt_result attempt)) err.

(** The loop from [attempt], with as many turns as attempts are left. *)
Fixpoint send_loop (fuel : nat) (attempt : Z) : DeliveryStatus * list duration :=
  let r := attempt_result attempt in
  if delivered r then (delivery_status attempt true [], [])
  else
    match fuel with
    | O | 1%nat => (delivery_status attempt false (failure_text r), [])
    | S fuel =>
        let wait := retry_delay attempt (backoff_mode hook) in
        match cancelled attempt with
        | Some e => (delivery_status attempt false (error_text e), [wait])
        | None => let '(status, waits) := send_loop fuel (attempt + 1) in (status, wait :: waits)
        end
    end.

(** [Send]; the duration is left out. *)
Definition send : DeliveryStatus * list duration := send_loop (Z.to_nat (max_attempts hook)) 1.
End attempts.

(** * The dispatcher *)

Definition normalize_hook (hook : WebhookConfig) : WebhookConfig :=
  mkWebhookConfig (wh_name hook) (wh_url hook) (if bool_decide (wh_events hook = []) then [bs "*"] else wh_events hook)
    (if bool_decide (trim_space (wh_format hook) = []) then bs "json" else wh_format hook) (wh_headers hook)
    (if wh_max_attempts hook <=? 0 then 3 else wh_max_attempts hook)
    (if bool_decide (trim_space (wh_backoff hook) = []) then bs "exponential" else wh_backoff hook).

Fixpoint any_pattern (patterns : list bytes) (event_type : bytes) : bool :=
  match patterns with
  | [] => false
  | pattern :: patterns =>
      let pattern := trim_space pattern in
      if bool_decide (pattern = []) || bool_decide (pattern = bs "*") then true
      else if has_suffix pattern (bs ".*") then
        if has_prefix event_type (removelast pattern) then true else any_pattern patterns event_type
      else if equal_fold pattern event_type then true else any_pattern patterns event_type
  end.
Definition matches_any (patterns : list bytes) (event_type : bytes) : bool :=
  if bool_decide (patterns = []) then true else any_pattern patterns event_type.

Definition deliveryRequest : Type := WebhookConfig * Event event_data.

(** What an event is queued as. *)
Definition requests_of (hooks : list WebhookConfig) (evt : Event event_data) : list deliveryRequest :=
  map (λ hook, (hook, evt)) (filter (λ hook, matches_any (wh_events hook) (ev_type evt) = true) hooks).

Definition queue_size : Z := 64.

(** The second goroutine: in its [select], in [Send], or returned. *)
Inductive sender := Idle | Sending (r : deliveryRequest) | Stopped.

(** The dispatcher after [Start].  [dp_first] is what the first goroutine has left to queue
    of its event, none when it has returned: its subscription and the queue are closed then.
    [dp_events] lists the events the subscription has received, and [dp_log] the requests
    whose [Send] returned, with its status. *)
Record Dispatcher := mkDispatcher {
  dp_hooks : list WebhookConfig; dp_room : Z; dp_done : bool; dp_events : list (Event event_data);
  dp_inbox : list (Event event_data); dp_first : option (list deliveryRequest);
  dp_queue : list deliveryRequest; dp_second : sender; dp_log : list (deliveryRequest * DeliveryStatus)
}.
#[global] Instance eta_Dispatcher : Eta Dispatcher := λ d,
  mkDispatcher (dp_hooks d) (dp_room d) (dp_done d) (dp_events d) (dp_inbox d) (dp_first d) (dp_queue d) (dp_second d)
    (dp_log d).

(** [NewDispatcher] and [Start], with hooks; [room] is the buffer of the subscription. *)
Definition new_dispatcher (hooks : list WebhookConfig) (room : Z) : Dispatcher :=
  mkDispatcher hooks room false [] [] (Some []) [] Idle [].

(** One turn of a goroutine.  A [select] takes any of its cases that is ready, so after the
    end of the context both going on and returning are possible. *)
Inductive dispatch_step (d : Dispatcher) : Dispatcher → Prop :=
| step_event evt inbox :
    dp_first d = Some [] → dp_inbox d = evt :: inbox →
    dispatch_step d (d <| dp_inbox := inbox |> <| dp_first := Some (requests_of (dp_hooks d) evt) |>)
| step_queue r pending :
    dp_first d = Some (r :: pending) → zlen (dp_queue d) < queue_size →
    dispatch_step d (d <| dp_first := Some pending |> <| dp_queue := dp_queue d ++ [r] |>)
| step_first_returns pending :
    dp_first d = Some pending → dp_done d = true → dispatch_step d (d <| dp_first := None |>)
| step_take r queue :
    dp_second d = Idle → dp_queue d = r :: queue →
    dispatch_step d (d <| dp_queue := queue |> <| dp_second := Sending r |>)
| step_sent r post cancelled :
    dp_second d = Sending r → (dp_done d = false → ∀ k, cancelled k = None) →
    dispatch_step d (d <| dp_second := Idle |>
      <| dp_log := dp_log d ++ [(r, (send (normalize_hook r.1) r.2 post cancelled).1)] |>)
| step_second_returns :
    dp_second d = Idle → dp_done d = true ∨ (dp_first d = None ∧ dp_queue d = []) →
    dispatch_step d (d <| dp_second := Stopped |>).

(** What happens to the dispatcher from outside: [Broker.Publish] puts an event into the
    subscription, or drops it when the buffer is full, and the context ends. *)
Inductive outside_step (d : Dispatcher) : Dispatcher → Prop :=
| outside_publish evt :
    is_Some (dp_first d) → zlen (dp_inbox d) < dp_room d →
    outside_step d (d <| dp_inbox := dp_inbox d ++ [evt] |> <| dp_events := dp_events d ++ [evt] |>)
| outside_drop : dp_room d ≤ zlen (dp_inbox d) ∨ dp_first d = None → outside_step d d
| outside_done : outside_step d (d <| dp_done := true |>).

Definition dispatcher_run (d d' : Dispatcher) : Prop := dispatch_step d d' ∨ outside_step d d'.
End webhook.

(** What the webhooks guarantee. *)

Section webhook.
Context `{UnicodeTables} `{HookText}.

(** * Delivery *)

(** The attempts from [a] to [b]. *)
Definition attempts (a b : Z) : list Z := seqZ a (b + 1 - a).

Section attempts.
Context (hook : WebhookConfig) (evt : Event event_data).
Context (post : Z → hookRequest → result Z) (cancelled : Z → option error).
#[local] Abbreviation ok k := (delivered (attempt_result hook evt post k) = true).

(** How a delivery that started at attempt [a] and may go to [n] ends at [k]. *)
Definition ends_at (a n k : Z) (s : DeliveryStatus) (waits : list duration) : Prop :=
  ds_attempts s = k ∧ a ≤ k ≤ n ∧
  (∀ j, a ≤ j < k → ¬ ok j ∧ cancelled j = None) ∧
  (ds_success s = true ↔ ok k) ∧ (ok k ∨ k = n ∨ is_Some (cancelled k)) ∧
  waits = (λ j, retry_delay j (backoff_mode hook)) <$>
    attempts a (if ds_success s then k - 1 else if k =? n then k - 1 else k).

Lemma attempts_nil a b : b < a → attempts a b = [].
Proof. intros. unfold attempts. apply seqZ_nil. lia. Qed.
Lemma attempts_cons a b : a ≤ b → attempts a b = a :: attempts (a + 1) b.
Proof.
  intros. unfold attempts. rewrite seqZ_cons by lia. unfold Z.succ. do 2 f_equal. lia.
Qed.

Lemma send_loop_ends fuel : ∀ a, (0 < fuel)%nat →
  let '(s, waits) := send_loop hook evt post cancelled fuel a in
  ∃ k, ends_at a (a + Z.of_nat fuel - 1) k s waits.
Proof.
  induction fuel as [|fuel IH]; intros a Hf; [lia|]. cbn [send_loop].
  destruct (delivered (attempt_result hook evt post a)) eqn:Ed.
  { exists a. split; [done|]. split; [lia|]. split; [lia|]. split; [done|]. split; [by left|]. cbn.
    by rewrite attempts_nil by lia. }
  destruct fuel as [|fuel].
  { exists a. split; [done|]. split; [lia|]. split; [lia|]. split; [by rewrite Ed|]. split; [right; left; lia|]. cbn.
    rewrite (proj2 (Z.eqb_eq _ _)) by lia. by rewrite attempts_nil by lia. }
  destruct (cancelled a) as [e|] eqn:Ec.
  { exists a. split; [done|]. split; [lia|]. split; [lia|]. split; [by rewrite Ed|]. split; [rewrite Ec; eauto|]. cbn [ds_success delivery_status].
    rewrite (proj2 (Z.eqb_neq _ _)) by lia. rewrite attempts_cons, attempts_nil by lia. done. }
  specialize (IH (a + 1) ltac:(lia)). destruct (send_loop hook evt post cancelled (S fuel) (a + 1)) as [s waits].
  destruct IH as (k & Hk & Hr & Hb & Hs & He & Hw). exists k.
  replace (a + 1 + Z.of_nat (S fuel) - 1) with (a + Z.of_nat (S (S fuel)) - 1) in * by lia.
  split; [done|]. split; [lia|]. split.
  { intros j Hj. destruct (decide (j = a)) as [->|]; [by rewrite Ed|]. apply Hb. lia. }
  split; [done|]. split; [done|]. rewrite Hw.
  rewrite (attempts_cons a) by (destruct (ds_success s); [lia|]; destruct (_ =? _); lia). done.
Qed.

(** A delivery stops at the first attempt that is answered with a status of 200 to
    299, at the last one, or where the context ends in the wait after it; it is a
    success exactly in the first case, and it waits between the attempts as the
    backoff says. *)
Theorem delivery_exact :
  let '(s, waits) := send hook evt post cancelled in
  ∃ k, ends_at 1 (max_attempts hook) k s waits.
Proof.
  unfold send. assert (0 < max_attempts hook) by (unfold max_attempts; destruct (Z.leb_spec (wh_max_attempts hook) 0); lia).
  pose proof (send_loop_ends (Z.to_nat (max_attempts hook)) 1 ltac:(lia)) as Hs.
  destruct (send_loop _ _ _ _ _ _) as [s waits]. by replace (1 + Z.of_nat (Z.to_nat (max_attempts hook)) - 1) with (max_attempts hook) in Hs by lia.
Qed.
End attempts.

(** ** The backoff *)

Lemma backoff_exact k : 1 ≤ k ≤ 34 → backoff_delay k = second * 2 ^ (k - 1).
Proof.
  intros Hk.
  assert (Forall (λ k, backoff_delay k = second * 2 ^ (k - 1)) (seqZ 1 34)) as Hall
    by (refine (bool_decide_unpack _ _); vm_compute; exact I).
  rewrite Forall_forall in Hall. apply Hall, elem_of_seqZ. lia.
Qed.

Lemma retry_delay_bounded k mode : retry_delay k mode ≤ 8 * second.
Proof.
  unfold retry_delay. destruct (equal_fold _ _); [unfold second; lia|].
  destruct (Z.ltb_spec (8 * second) (backoff_delay k)); lia.
Qed.

Lemma retry_delay_exact k mode : 1 ≤ k ≤ 34 → equal_fold mode (bs "fixed") = false →
  retry_delay k mode = second * Z.min 8 (2 ^ (k - 1)).
Proof.
  intros Hk Hm. unfold retry_delay. rewrite Hm, backoff_exact by done.
  assert (0 < 2 ^ (k - 1)) by (apply Z.pow_pos_nonneg; lia).
  destruct (Z.ltb_spec (8 * second) (second * 2 ^ (k - 1))); unfold second in *; lia.
Qed.

(** * The dispatcher *)

(** A hook wants an event as a WebSocket client that has its patterns. *)
Lemma matches_any_subscription patterns t :
  matches_any patterns t = bool_decide (patterns = []) || existsb (λ p, matches_subscription p t) patterns.
Proof.
  unfold matches_any. destruct (bool_decide_reflect (patterns = [])) as [->|_]; [done|]. cbn [orb].
  induction patterns as [|p patterns IH]; [done|]. cbn [any_pattern existsb]. unfold matches_subscription at 1. rewrite <-IH.
  destruct (_ || _); [done|]. destruct (has_suffix _ _); [by destruct (has_prefix _ _)|by destruct (equal_fold _ _)].
Qed.

(** A pattern, without the space around it, covers a type: nothing and the star cover all,
    [group.*] the types that begin with [group.], and any other the type it is, but for case. *)
Definition covers (pattern event_type : bytes) : Prop :=
  let p := trim_space pattern in
  p = [] ∨ p = bs "*" ∨ (∃ group rest, p = group ++ bs ".*" ∧ event_type = group ++ bs "." ++ rest) ∨
  ((¬ ∃ group, p = group ++ bs ".*") ∧ equal_fold p event_type = true).
Definition wants (hook : WebhookConfig) (evt : Event event_data) : Prop :=
  wh_events hook = [] ∨ ∃ p, p ∈ wh_events hook ∧ covers p (ev_type evt).

Lemma has_suffix_app s t : has_suffix s t = true ↔ ∃ r, s = r ++ t.
Proof.
  unfold has_suffix. rewrite bool_decide_eq_true. split.
  - intros E. exists (take (length s - length t) s). rewrite <-E at 2. by rewrite take_drop.
  - intros [r ->]. rewrite length_app, Nat.add_sub. apply drop_app_length.
Qed.

Lemma covers_pattern p t :
  covers p t ↔ (let p := trim_space p in
    if bool_decide (p = []) || bool_decide (p = bs "*") then true
    else if has_suffix p (bs ".*") then has_prefix t (removelast p) else equal_fold p t) = true.
Proof.
  unfold covers. cbv zeta. set (q := trim_space p).
  destruct (decide (q = [])); [rewrite bool_decide_eq_true_2 by done; naive_solver|].
  rewrite (bool_decide_eq_false_2 (q = [])) by done.
  destruct (decide (q = bs "*")); [rewrite bool_decide_eq_true_2 by done; naive_solver|].
  rewrite (bool_decide_eq_false_2 (q = bs "*")) by done. cbn [orb].
  destruct (has_suffix q (bs ".*")) eqn:Es.
  - apply has_suffix_app in Es as [g Eg].
    assert (Er : removelast q = g ++ bs ".").
    { rewrite Eg. change (bs ".*") with (bs "." ++ bs "*"). rewrite app_assoc. apply removelast_last. }
    rewrite Er, has_prefix_spec. split.
    + intros [?|[?|[(g' & rest & Eq & ->)|[Hno _]]]]; [done..| |by destruct Hno; exists g].
      rewrite Eg in Eq. apply app_inj_2 in Eq as [-> _]; [|done]. exists rest. by rewrite app_assoc.
    + intros [rest ->]. right; right; left. exists g, rest. by rewrite <-app_assoc.
  - assert (Hno : ¬ ∃ g, q = g ++ bs ".*") by (intros Hg%has_suffix_app; congruence). split; [|naive_solver].
    intros [?|[?|[(g & rest & Eq & _)|[_ ?]]]]; [done..| |done]. destruct Hno. by exists g.
Qed.

Lemma matches_wants hook evt : matches_any (wh_events hook) (ev_type evt) = true ↔ wants hook evt.
Proof.
  unfold wants, matches_any. case_bool_decide as E; [naive_solver|].
  assert (Hany : any_pattern (wh_events hook) (ev_type evt) = true ↔ ∃ p, p ∈ wh_events hook ∧ covers p (ev_type evt));
    [|naive_solver].
  clear E. induction (wh_events hook) as [|p ps IH]; [split; [done|by intros (p & Hp%elem_of_nil & _)]|].
  setoid_rewrite elem_of_cons. pose proof (covers_pattern p (ev_type evt)) as Hp. cbn [any_pattern]. cbv zeta in Hp.
  destruct (_ || _); [naive_solver|]. destruct (has_suffix _ _).
  - destruct (has_prefix _ _); naive_solver.
  - destruct (equal_fold _ _); naive_solver.
Qed.
#[global] Instance wants_dec hook evt : Decision (wants hook evt).
Proof.
  refine (cast_if (decide (matches_any (wh_events hook) (ev_type evt) = true)));
    abstract (rewrite <-matches_wants; done).
Defined.

(** What is to be delivered of an event: a request for each hook that wants it. *)
Definition wanted (hooks : list WebhookConfig) (evt : Event event_data) : list deliveryRequest :=
  (λ hook, (hook, evt)) <$> filter (λ hook, wants hook evt) hooks.
Lemma requests_wanted hooks evt : requests_of hooks evt = wanted hooks evt.
Proof.
  unfold requests_of, wanted. induction hooks as [|h hooks IH]; [done|]. rewrite !filter_cons.
  destruct (decide (matches_any (wh_events h) (ev_type evt) = true)) as [Hm|Hm], (decide (wants h evt)) as [Hw|Hw].
  - cbn. by rewrite IH.
  - by apply matches_wants in Hm.
  - by apply matches_wants in Hw.
  - done.
Qed.

(** The requests the second goroutine has left. *)
Definition in_hand (d : Dispatcher) : list deliveryRequest :=
  match dp_second d with Sending r => [r] | _ => [] end.

(** A logged status is the outcome of the attempts on its request; while the context lasts
    no wait is cut short. *)
Definition attempted (cut_short : bool) (l : deliveryRequest * DeliveryStatus) : Prop :=
  ∃ post cancelled k waits,
    ends_at (normalize_hook l.1.1) l.1.2 post cancelled 1 (max_attempts (normalize_hook l.1.1)) k l.2 waits ∧
    (cut_short = false → ∀ j, cancelled j = None).

Record dispatcher_ok (d : Dispatcher) : Prop := {
  do_queue : zlen (dp_queue d) ≤ queue_size;
  do_inbox : zlen (dp_inbox d) ≤ dp_room d;
  do_order : match dp_first d with
             | Some pending =>
                 (dp_log d).*1 ++ in_hand d ++ dp_queue d ++ pending ++ (dp_inbox d ≫= wanted (dp_hooks d)) =
                   dp_events d ≫= wanted (dp_hooks d)
             | None => ((dp_log d).*1 ++ in_hand d ++ dp_queue d) `prefix_of` (dp_events d ≫= wanted (dp_hooks d))
             end;
  do_running : dp_done d = false → is_Some (dp_first d) ∧ dp_second d ≠ Stopped;
  do_log l : l ∈ dp_log d → attempted (dp_done d) l;
}.

Lemma dispatch_step_ok d d' : dispatch_step d d' → dispatcher_ok d → dispatcher_ok d'.
Proof.
  intros Hs [Hq Hi Ho Hr Hl]. unfold in_hand in *.
  destruct Hs as [evt inbox E1 E2|r pending E1 Hlt|pending E1 Ed|r queue E1 E2|r post cancelled E1 Hc|E1 Hend]; split; cbn; try done.
  - rewrite E2, zlen_cons in Hi. lia.
  - rewrite E1, E2 in Ho. rewrite requests_wanted. exact Ho.
  - intros Hd. split; [by eexists|]. by apply Hr.
  - rewrite zlen_app. change (zlen [r]) with 1. lia.
  - rewrite E1 in Ho. rewrite <-Ho. by rewrite <-!app_assoc.
  - intros Hd. split; [by eexists|]. by apply Hr.
  - rewrite E1 in Ho. rewrite <-Ho. unfold in_hand. cbn. rewrite !app_assoc. apply prefix_app_r, prefix_app_r. done.
  - intros Hd. congruence.
  - rewrite E2, zlen_cons in Hq. lia.
  - rewrite E1, E2 in Ho. exact Ho.
  - intros Hd. split; [by apply Hr|done].
  - rewrite fmap_app. rewrite E1 in Ho. destruct (dp_first d); cbn; by rewrite <-app_assoc.
  - intros Hd. split; [by apply Hr|done].
  - intros l [Hin|Hin%list_elem_of_singleton]%elem_of_app; [by apply Hl|]. subst l. unfold attempted. cbn [fst snd].
    pose proof (delivery_exact (normalize_hook r.1) r.2 post cancelled) as Hx.
    destruct (send (normalize_hook r.1) r.2 post cancelled) as [st waits]. destruct Hx as [k Hx]. cbn [fst].
    exists post, cancelled, k, waits. done.
  - by rewrite E1 in Ho.
  - intros Hd. destruct (Hr Hd) as [[x Hx] _]. destruct Hend as [|[Hn _]]; congruence.
Qed.

Lemma outside_step_ok d d' : outside_step d d' → dispatcher_ok d → dispatcher_ok d'.
Proof.
  intros Hs Hok. destruct Hs as [evt [pending E] Hlt| |]; [|done|].
  - destruct Hok as [Hq Hi Ho Hr Hl]. split; cbn; try done.
    + rewrite zlen_app. change (zlen [evt]) with 1. lia.
    + unfold in_hand in *. cbn. rewrite E in *. rewrite !bind_app, <-Ho. by rewrite <-!app_assoc.
  - destruct Hok as [Hq Hi Ho Hr Hl]. split; cbn; try done. intros l (post & c & k & waits & He & _)%Hl.
    by exists post, c, k, waits.
Qed.

Lemma dispatcher_run_ok d d' : rtc dispatcher_run d d' → dispatcher_ok d → dispatcher_ok d'.
Proof.
  induction 1 as [|d d1 d' [Hs|Hs] _ IH]; [done|..]; intros Hok; apply IH;
    [by eapply dispatch_step_ok|by eapply outside_step_ok].
Qed.

Lemma new_dispatcher_ok hooks room : 0 ≤ room → dispatcher_ok (new_dispatcher hooks room).
Proof.
  intros Hr. split; cbn.
  - by vm_compute.
  - exact Hr.
  - done.
  - intros _. split; [by eexists|done].
  - by intros l ?%elem_of_nil.
Qed.

(** The hooks stay as they were. *)
Lemma dispatcher_hooks d d' : rtc dispatcher_run d d' → dp_hooks d' = dp_hooks d.
Proof. induction 1 as [|d d1 d' [Hs|Hs] _ ->]; [done|by destruct Hs..]. Qed.

(** When neither goroutine can go on: before the end of the context all is delivered,
    after it both have returned. *)
Lemma dispatcher_rests d : dispatcher_ok d → nf dispatch_step d →
  if dp_done d then dp_first d = None ∧ dp_second d = Stopped
  else (dp_log d).*1 = dp_events d ≫= wanted (dp_hooks d).
Proof.
  intros [Hq Hi Ho Hr Hl] Hnf.
  assert (Hns : ∀ r, dp_second d ≠ Sending r).
  { intros r Er. apply Hnf. eexists. by eapply (step_sent d r (λ _ _, Ok 200) (λ _, None)). }
  destruct (dp_done d) eqn:Ed.
  - split.
    + destruct (dp_first d) as [pending|] eqn:E1; [|done]. destruct Hnf. eexists. by eapply step_first_returns.
    + destruct (dp_second d) eqn:E2; [|by destruct (Hns r)|done]. destruct Hnf. eexists. apply step_second_returns; auto.
  - destruct (Hr eq_refl) as [[pending E1] H2]. rewrite E1 in Ho. rewrite <-Ho.
    destruct (dp_second d) eqn:E2; [|by destruct (Hns r)|done]. unfold in_hand. rewrite E2.
    destruct (dp_queue d) as [|r queue] eqn:Eq; [|destruct Hnf; eexists; by eapply step_take].
    destruct pending as [|r pending].
    + destruct (dp_inbox d) as [|evt inbox] eqn:Ei; [by rewrite !app_nil_r|].
      destruct Hnf. eexists. by eapply step_event.
    + destruct Hnf. eexists. eapply step_queue; [done|]. rewrite Eq. reflexivity.
Qed.

(** Every turn of a goroutine makes something smaller. *)
Definition event_work (hooks : list WebhookConfig) (evt : Event event_data) : nat := S (3 * length (requests_of hooks evt)).
Definition work (d : Dispatcher) : nat :=
  sum_list_with (event_work (dp_hooks d)) (dp_inbox d) +
  match dp_first d with Some pending => S (3 * length pending) | None => 0 end +
  2 * length (dp_queue d) +
  match dp_second d with Idle => 1 | Sending _ => 2 | Stopped => 0 end.

Lemma dispatch_step_work d d' : dispatch_step d d' → (work d' < work d)%nat.
Proof.
  unfold work. destruct 1 as [evt inbox E1 E2|r pending E1 Hlt|pending E1 Ed|r queue E1 E2|r post cancelled E1 Hc|E1 Hend];
    cbn -[Nat.mul sum_list_with]; rewrite ?E1, ?E2, ?length_app; cbn -[Nat.mul]; unfold event_work; lia.
Qed.

Lemma dispatch_terminates d : sn dispatch_step d.
Proof.
  remember (work d) as n eqn:En. revert d En. induction (lt_wf n) as [n _ IH]. intros d ->.
  constructor. intros d' Hs. exact (IH _ (dispatch_step_work _ _ Hs) d' eq_refl).
Qed.

End webhook.

(** * Examples and witnesses *)

#[local] Existing Instance ascii_tables.

Definition demo_hook (name : string) (events : list bytes) : WebhookConfig := mkWebhookConfig (bs name) [] events [] ∅ 0 [].
Definition demo_hooks : list WebhookConfig := [demo_hook "a" [bs "lease.*"]; demo_hook "b" [bs "subnet.deleted"]].
Definition demo_released : Event event_data := mkEvent (bs "lease.released") 5 ∅.

(** Texts that say the type of the event only. *)
Definition type_text : HookText := {|
  marshal_payload := λ p, Ok match p with SlackPayload text _ _ => text | JsonPayload type _ _ => type end;
  marshal_indent := λ _, Ok [];
  format_rfc3339 := λ _, [];
|}.
#[local] Existing Instance type_text.

(** An event that arrives, is queued for the one hook that wants it, and is being sent. *)
Definition demo_sending : Dispatcher :=
  mkDispatcher demo_hooks 32 false [demo_released] [] (Some []) [] (Sending (demo_hook "a" [bs "lease.*"], demo_released)) [].

Lemma demo_dispatch : rtc dispatcher_run (new_dispatcher demo_hooks 32) demo_sending.
Proof.
  eapply rtc_l; [right; by eapply (outside_publish _ demo_released)|].
  eapply rtc_l; [left; by eapply step_event|].
  eapply rtc_l; [left; by eapply (step_queue _ (demo_hook "a" [bs "lease.*"], demo_released) [])|].
  eapply rtc_l; [left; by eapply step_take|]. apply rtc_refl.
Qed.


(** From the 35th attempt on the exponential delay overflows, and there is no wait. *)
Example retry_delay_overflows : retry_delay 35 (bs "exponential") <? 0 = true.
Proof. vm_compute. reflexivity. Qed.
