(* ===== verification/Metrics.v ===== *)
(** internal/metrics/prometheus.go: counters and gauges with labels.

    The values of a name are kept by the text of their labels, which the export
    parses again.  [strconv.Quote] is an interface; the text of a float with six
    decimals is a definition. *)

From S2P Require Import Prelude.
From S2P Require Import GoBytes.
From S2P Require Import GoStrings.
From S2P Require Import GoTime.
From S2P Require Import GoNet.
From S2P Require Import GoPort.
From S2P Require Import GoSort.

Class GoQuote := { quote : bytes → bytes }.

(** [%f]: six decimals of the exact value, rounded half to even. *)
Definition round_half_even (n d : Z) : Z :=
  let q := n / d in
  let r := n mod d in
  if (2 * r <? d) || ((2 * r =? d) && Z.even q) then q else q + 1.
Definition fmt_f (f : spec_float) : bytes :=
  let digits z := fmt_d (z / 1000000) ++ dot :: dec_pad 6 (z mod 1000000) in
  let sign (s : bool) := if s then bs "-" else [] in
  match f with
  | S754_zero s => sign s ++ digits 0
  | S754_infinity s => if s then bs "-Inf" else bs "+Inf"
  | S754_nan => bs "NaN"
  | S754_finite s m e =>
      sign s ++ digits (if 0 <=? e then Z.pos m * 2 ^ e * 1000000 else round_half_even (Z.pos m * 1000000) (2 ^ (- e)))
  end.

Definition comma : byte := byte_of_Z 44.
Definition equals : byte := byte_of_Z 61.

Abbreviation series := (gmap bytes spec_float).
Record Registry := mkRegistry { mt_counters : gmap bytes series; mt_gauges : gmap bytes series }.
Definition new_registry : Registry := mkRegistry ∅ ∅.

(** [strings.SplitN(p, sep, 2)]: the part before the first separator and the rest. *)
Fixpoint cut_byte (s : bytes) (c : byte) : option (bytes * bytes) :=
  match s with
  | [] => None
  | x :: s => if bool_decide (x = c) then Some ([], s)
              else match cut_byte s c with Some (a, b) => Some (x :: a, b) | None => None end
  end.

Section metrics.
Context `{SliceSort} `{MapRange} `{GoQuote}.

Definition map_keys {A} (m : gmap bytes A) : list bytes := sort_slice bytes_ltb (range_keys m).

Definition label_part (labels : gmap bytes bytes) (k : bytes) : bytes := k ++ equals :: default [] (labels !! k).
Definition label_key (labels : gmap bytes bytes) : bytes :=
  if bool_decide (labels = ∅) then [] else join (label_part labels <$> map_keys labels) [comma].

Definition add_label (out : gmap bytes bytes) (p : bytes) : gmap bytes bytes :=
  match cut_byte p equals with Some (k, v) => <[k := v]> out | None => out end.
Definition parse_label_key (raw : bytes) : gmap bytes bytes :=
  if bool_decide (raw = []) then ∅ else foldl add_label ∅ (split_byte raw comma).

Definition format_labels (labels : gmap bytes bytes) : bytes :=
  if bool_decide (labels = ∅) then []
  else join ((λ k, k ++ equals :: quote (default [] (labels !! k))) <$> map_keys labels) [comma].

Definition ensure_series (m : gmap bytes series) (name : bytes) : series := default ∅ (m !! name).

Definition inc_counter (r : Registry) (name : bytes) (labels : gmap bytes bytes) (delta : spec_float) : Registry :=
  let s := ensure_series (mt_counters r) name in
  let k := label_key labels in
  mkRegistry (<[name := <[k := float_add (default (S754_zero false) (s !! k)) delta]> s]> (mt_counters r)) (mt_gauges r).
Definition set_gauge (r : Registry) (name : bytes) (labels : gmap bytes bytes) (value : spec_float) : Registry :=
  mkRegistry (mt_counters r) (<[name := <[label_key labels := value]> (ensure_series (mt_gauges r) name)]> (mt_gauges r)).

Definition render_row (name : bytes) (values : series) (key : bytes) : bytes :=
  let labels := format_labels (parse_label_key key) in
  let labels := if bool_decide (labels = []) then [] else bs "{" ++ labels ++ bs "}" in
  name ++ labels ++ byte_of_Z 32 :: fmt_f (default (S754_zero false) (values !! key)).
Definition render_series (name : bytes) (values : series) : list bytes := render_row name values <$> map_keys values.

Definition newline : byte := byte_of_Z 10.
Definition export_kind (kind : string) (m : gmap bytes series) : bytes :=
  map_keys m ≫= λ name,
    bs "# TYPE " ++ name ++ byte_of_Z 32 :: bs kind ++ [newline] ++
    (render_series name (default ∅ (m !! name)) ≫= λ row, row ++ [newline]).
Definition export (r : Registry) : bytes := export_kind "counter" (mt_counters r) ++ export_kind "gauge" (mt_gauges r).

(** * Labels *)

Lemma elem_of_map_keys {A} (m : gmap bytes A) k : k ∈ map_keys m ↔ is_Some (m !! k).
Proof. unfold map_keys. by rewrite elem_of_sort_slice, elem_of_range_keys. Qed.

Lemma NoDup_map_keys {A} (m : gmap bytes A) : NoDup (map_keys m).
Proof. unfold map_keys. rewrite sort_slice_perm. apply NoDup_range_keys. Qed.

Lemma cut_byte_app s c r : c ∉ s → cut_byte (s ++ c :: r) c = Some (s, r).
Proof.
  induction s as [|x s IH]; cbn; intros Hc; [by rewrite bool_decide_eq_true_2|].
  apply not_elem_of_cons in Hc as [Hx Hs]. rewrite bool_decide_eq_false_2 by done. by rewrite IH.
Qed.

Lemma add_labels labels ks : ∀ out, (∀ k, k ∈ ks → equals ∉ k) → NoDup ks →
  ∀ k, foldl add_label out (label_part labels <$> ks) !! k =
    if bool_decide (k ∈ ks) then Some (default [] (labels !! k)) else out !! k.
Proof.
  induction ks as [|k0 ks IH]; intros out Hk Hn k; cbn; [done|].
  apply NoDup_cons in Hn as [Hk0 Hn]. unfold add_label at 2, label_part at 1. rewrite cut_byte_app by (apply Hk; set_solver).
  rewrite IH by (first [done|set_solver]).
  destruct (decide (k = k0)) as [->|Hne].
  - rewrite bool_decide_eq_false_2 by done. rewrite lookup_insert_eq, bool_decide_eq_true_2 by set_solver. done.
  - rewrite lookup_insert_ne by done. destruct (decide (k ∈ ks)).
    + rewrite !bool_decide_eq_true_2 by set_solver. done.
    + rewrite !bool_decide_eq_false_2 by set_solver. done.
Qed.

(** Labels a row can carry: no equals sign in a name, no comma anywhere. *)
Definition labels_ok (labels : gmap bytes bytes) : Prop :=
  map_Forall (λ k v, equals ∉ k ∧ comma ∉ k ∧ comma ∉ v) labels.

(** The export shows the labels a value was recorded with, when no name of a label
    has an equals sign and neither names nor values have a comma. *)
Theorem labels_survive labels : labels_ok labels → parse_label_key (label_key labels) = labels.
Proof.
  intros Hok. unfold label_key. destruct (bool_decide_reflect (labels = ∅)) as [->|Hne]; [done|].
  assert (Hks : map_keys labels ≠ []).
  { intros E. apply Hne. apply map_empty. intros k. apply eq_None_not_Some. rewrite <-elem_of_map_keys, E. set_solver. }
  assert (Hparts : Forall (λ p, comma ∉ p) (label_part labels <$> map_keys labels)).
  { rewrite Forall_fmap. apply Forall_forall. intros k [v Hv]%elem_of_map_keys. destruct (Hok _ _ Hv) as (_ & Hc & Hcv).
    unfold compose, label_part. rewrite Hv. cbn. rewrite not_elem_of_app, not_elem_of_cons. split; [done|]. split; [|done].
    vm_compute. discriminate. }
  unfold parse_label_key. rewrite bool_decide_eq_false_2.
  2: { intros E. destruct (map_keys labels) as [|k ks]; [done|]. cbn [fmap list_fmap join] in E.
       destruct (label_part labels <$> ks); unfold label_part in E; apply app_eq_nil in E as [E1 E2]; done. }
  rewrite split_join; [|by destruct (map_keys labels)|done].
  apply map_eq. intros k. rewrite add_labels.
  - destruct (labels !! k) as [v|] eqn:Ek.
    + by rewrite bool_decide_eq_true_2 by (rewrite elem_of_map_keys, Ek; eauto).
    + rewrite bool_decide_eq_false_2 by (rewrite elem_of_map_keys, Ek; by intros []). apply lookup_empty.
  - intros k' [v Hv]%elem_of_map_keys. by destruct (Hok _ _ Hv).
  - apply NoDup_map_keys.
Qed.
End metrics.

#[local] Existing Instance small_slices.
#[local] Existing Instance listed_range.
#[local] Instance plain_quote : GoQuote := {| quote s := byte_of_Z 34 :: s ++ [byte_of_Z 34] |}.

Definition demo_labels : gmap bytes bytes := list_to_map [(bs "path", bs "/api/v1/x=1"); (bs "event", bs "csrf")].
Lemma demo_labels_ok : labels_ok demo_labels.
Proof. refine (bool_decide_unpack _ _). vm_compute. exact I. Qed.
Lemma labels_survive_witness : demo_labels ≠ ∅ ∧ parse_label_key (label_key demo_labels) = demo_labels.
Proof. split; [refine (bool_decide_unpack _ _); vm_compute; exact I|exact (labels_survive demo_labels demo_labels_ok)]. Defined.

(** A path with a comma makes labels of its own. *)
Example comma_adds_a_label :
  export (inc_counter new_registry (bs "rejected_total") {[ bs "path" := bs "/a,user=admin" ]} (to_float 1)) =
    bs "# TYPE rejected_total counter" ++ [newline] ++
    bs "rejected_total{path=" ++ quote (bs "/a") ++ bs ",user=" ++ quote (bs "admin") ++ bs "} 1.000000" ++ [newline].
Proof. vm_compute. reflexivity. Qed.
