(* ===== verification/RestHttp.v ===== *)
(** internal/api/rest/middleware.go and response.go: requests, responses and the
    middlewares in front of the handlers.

    A handler takes the state of the server, a request with its context, and the
    headers that were set before it.  The chain is composed as in cmd/monsoon:
    request identifier, trusted proxies, recovery, security headers, CORS, CSRF, the
    two rate limits, authentication.  Logging does not change a response and is left
    out. *)

From S2P Require Import Prelude.
From S2P Require Import GoBytes.
From S2P Require Import GoStrings.
From S2P Require Import GoTime.
From S2P Require Import GoNet.
From S2P Require Import GoNet6.
From S2P Require Import GoPrefix.
From S2P Require Import GoPort.
From S2P Require Import GoSort.
From S2P Require Import GoJson.
From S2P Require Import Wal.
From S2P Require Import StorageEngine.
From S2P Require Import LeaseInterface.
From S2P Require Import Ipam.
From S2P Require Import ConfigValidate.
From S2P Require Import Auth.
From S2P Require Import Events.
From S2P Require Import AuditLog.
From S2P Require Import Discovery.
From S2P Require Import EventData.
From S2P Require Import Metrics.

(** * Requests and responses *)

(** Headers by their canonical name; the cookies and the query by their first value. *)
Record HttpRequest := mkHttpRequest {
  rq_method : bytes; rq_path : bytes; rq_host : bytes; rq_remote_addr : bytes; rq_tls : bool;
  rq_headers : gmap bytes bytes; rq_cookies : gmap bytes bytes; rq_query : gmap bytes bytes;
  rq_content_length : Z; rq_body : bytes
}.
Definition get_header (r : HttpRequest) (name : string) : bytes := default [] (rq_headers r !! bs name).
Definition get_query (r : HttpRequest) (name : string) : bytes := default [] (rq_query r !! bs name).

(** The values the middlewares put in the context of a request. *)
Record Ctx := mkCtx { cx_request_id : bytes; cx_trusted : bool; cx_enforced : bool; cx_identity : option Identity }.
Definition background : Ctx := mkCtx [] false false None.
#[global] Instance eta_Ctx : Eta Ctx := λ c, mkCtx (cx_request_id c) (cx_trusted c) (cx_enforced c) (cx_identity c).

Abbreviation headers := (gmap bytes bytes).
Definition set_header (name value : string) (h : headers) : headers := <[bs name := bs value]> h.

(** A body: an error, the data of an envelope with the total of its meta, raw bytes,
    or nothing. *)
Inductive body (A : Type) :=
| BodyError (code : string) (message : bytes)
| BodyData (data : A) (total : option Z)
| BodyRaw (raw : bytes)
| BodyEmpty.
Arguments BodyError {A} _ _.
Arguments BodyData {A} _ _.
Arguments BodyRaw {A} _.
Arguments BodyEmpty {A}.

(** A response, or a panic with the headers that were set until then. *)
Inductive outcome (A : Type) :=
| Reply (status : Z) (h : headers) (b : body A)
| Crash (h : headers) (message : string).
Arguments Reply {A} _ _ _.
Arguments Crash {A} _ _.

Definition json_type (h : headers) : headers := set_header "Content-Type" "application/json" h.
Definition write_json {A : Type} (h : headers) (status : Z) (data : A) (total : option Z) : outcome A :=
  Reply status (json_type h) (BodyData data total).
Definition write_error {A : Type} (h : headers) (status : Z) (code : string) (message : bytes) : outcome A :=
  Reply status (json_type h) (BodyError code message).

(** * What a request says of its sender *)

Section request.
Context `{UnicodeTables} `{UrlParse}.

Definition first_of_list (s : bytes) : bytes := trim_space (default [] (hd_error (split_byte s comma))).

(** [strings.Trim(host, "[]")] *)
Definition is_bracket (c : byte) : bool := bool_decide (c = byte_of_Z 91) || bool_decide (c = byte_of_Z 93).
Fixpoint drop_brackets (s : bytes) : bytes :=
  match s with c :: s' => if is_bracket c then drop_brackets s' else s | [] => [] end.
Definition trim_brackets (s : bytes) : bytes := rev (drop_brackets (rev (drop_brackets s))).

Record trustedProxyMatcher := mkMatcher { tm_addrs : list addr; tm_prefixes : list prefix }.
Fixpoint add_proxies (m : trustedProxyMatcher) (values : list bytes) : trustedProxyMatcher :=
  match values with
  | [] => m
  | value :: values =>
      let value := trim_space value in
      if bool_decide (value = []) then add_proxies m values
      else
        match parse_addr value with
        | Ok a => add_proxies (mkMatcher (tm_addrs m ++ [a]) (tm_prefixes m)) values
        | _ =>
            match parse_prefix value with
            | Ok p => add_proxies (mkMatcher (tm_addrs m) (tm_prefixes m ++ [prefix_masked p])) values
            | _ => add_proxies m values
            end
        end
  end.
Definition new_trusted_proxy_matcher (values : list bytes) : trustedProxyMatcher := add_proxies (mkMatcher [] []) values.

Definition remote_host (remote_addr : bytes) : bytes :=
  match split_host_port remote_addr with Some (host, _) => host | None => remote_addr end.

Definition is_trusted (m : trustedProxyMatcher) (remote_addr : bytes) : bool :=
  match parse_addr (trim_brackets (remote_host remote_addr)) with
  | Ok a => bool_decide (a ∈ tm_addrs m) || existsb (λ p, prefix_contains p a) (tm_prefixes m)
  | _ => false
  end.

Definition is_https_request (c : Ctx) (r : HttpRequest) : bool :=
  if rq_tls r then true
  else if negb (cx_trusted c) then false
  else
    let forwarded := trim_space (get_header r "X-Forwarded-Proto") in
    if bool_decide (forwarded = []) then false else equal_fold (first_of_list forwarded) (bs "https").

Definition request_host (c : Ctx) (r : HttpRequest) : bytes :=
  let forwarded := trim_space (get_header r "X-Forwarded-Host") in
  if cx_trusted c && negb (bool_decide (forwarded = [])) then first_of_list forwarded else rq_host r.

Definition client_ip (c : Ctx) (r : HttpRequest) : bytes :=
  let forwarded := trim_space (get_header r "X-Forwarded-For") in
  if cx_trusted c && negb (bool_decide (forwarded = [])) then first_of_list forwarded else remote_host (rq_remote_addr r).

Definition is_unsafe_method (method : bytes) : bool :=
  bool_decide (method ∈ map bs ["POST"; "PUT"; "PATCH"; "DELETE"]%string).

(** The origin is this server: its host and its scheme. *)
Definition origin_matches (c : Ctx) (r : HttpRequest) (origin : bytes) : bool :=
  match url_parse origin with
  | None => false
  | Some (scheme, host) =>
      equal_fold host (request_host c r) && equal_fold scheme (if is_https_request c r then bs "https" else bs "http")
  end.

Definition is_cross_site_fetch (c : Ctx) (r : HttpRequest) : bool :=
  let site := to_lower (trim_space (get_header r "Sec-Fetch-Site")) in
  if negb (bool_decide (site ∈ [[]; bs "none"; bs "same-origin"; bs "same-site"])) then true
  else
    let origin := trim_space (get_header r "Origin") in
    if bool_decide (origin = []) then false else negb (origin_matches c r origin).

Definition is_trusted_csrf_request (c : Ctx) (r : HttpRequest) : bool :=
  if negb (is_cross_site_fetch c r) then true
  else
    let origin := trim_space (get_header r "Origin") in
    if bool_decide (origin = []) then false else origin_matches c r origin.

Definition is_public_auth_path (path : bytes) : bool :=
  bool_decide (path ∈ map bs ["/api/v1/system/health"; "/api/v1/auth/login"; "/api/v1/auth/bootstrap"]%string).

Definition auth_rate_limit_key (r : HttpRequest) : option bytes :=
  let post := bool_decide (rq_method r = bs "POST") in
  let at_path (path : string) := bool_decide (rq_path r = bs path) in
  if post && at_path "/api/v1/auth/bootstrap"%string then Some (bs "bootstrap")
  else if post && at_path "/api/v1/auth/login"%string then Some (bs "login")
  else if post && at_path "/api/v1/auth/logout"%string then Some (bs "logout")
  else if post && at_path "/api/v1/auth/password"%string then Some (bs "password")
  else if post && at_path "/api/v1/auth/tokens"%string then Some (bs "tokens.create")
  else if bool_decide (rq_method r = bs "DELETE") && has_prefix (rq_path r) (bs "/api/v1/auth/tokens/")
  then Some (bs "tokens.revoke") else None.
End request.

(** * Rate limits *)

Record tokenBucketLimiter := mkLimiter { lm_last : time; lm_tokens : spec_float; lm_rate : spec_float; lm_capacity : spec_float }.

Definition float_one : spec_float := to_float 1.
Definition new_limiter (rate : Z) (now : time) : tokenBucketLimiter :=
  let r := to_float rate in
  let r := if SFleb r (S754_zero false) then float_one else r in
  mkLimiter now r r r.

Definition allow (l : tokenBucketLimiter) (now : time) : tokenBucketLimiter * bool :=
  let elapsed := seconds (time_sub now (lm_last l)) in
  let tokens := float_add (lm_tokens l) (float_mul elapsed (lm_rate l)) in
  let tokens := if SFltb (lm_capacity l) tokens then lm_capacity l else tokens in
  if SFltb tokens float_one then (mkLimiter now tokens (lm_rate l) (lm_capacity l), false)
  else (mkLimiter now (SFsub 53 1024 tokens float_one) (lm_rate l) (lm_capacity l), true).

(** The limiters of a middleware; one that is missing is created at [created]. *)
Abbreviation limiters := (gmap bytes tokenBucketLimiter).
Definition limit (ls : limiters) (key : bytes) (rate : Z) (created now : time) : limiters * bool :=
  let '(l, ok) := allow (default (new_limiter rate created) (ls !! key)) now in
  (<[key := l]> ls, ok).

(** * The state *)

(** What one write reads: the clock of the caller, the clock of the engine, its faults. *)
Record write_env := mkWriteEnv { we_now : time; we_tx_now : time; we_io : list append_io }.

(** The clocks, the random source and the identifiers a request reads. *)
Record RestInputs {S : Type} `{LeaseStore S} := mkRestInputs {
  ri_request_now : time;
  ri_limit_created : time; ri_limit_now : time;
  ri_auth_limit_created : time; ri_auth_limit_now : time;
  ri_bearer : write_env; ri_session : write_env;
  ri_write : write_env; ri_write2 : write_env;
  ri_lease_env : ls_env (S := S);
  ri_rand : result bytes; ri_rand2 : result bytes; ri_salt : bytes; ri_failure_now : time; ri_session_ids : list bytes;
  ri_scan_id : bytes; ri_range : record_map → list AddressRecord; ri_event_now : time;
  ri_audit : write_env; ri_audit_rand : result bytes
}.
Arguments RestInputs S {_}.

(** The components the server was given; each may be missing.  A component keeps its
    own trees of the storage engine. *)
Record RestState {S : Type} := mkRestState {
  rt_leases : option S; rt_ipam : option Engine; rt_disc : option DiscEngine; rt_auth : option Service;
  rt_audit : option Engine; rt_settings : option Engine; rt_broker : option (Broker event_data);
  rt_metrics : option Registry; rt_limits : limiters; rt_auth_limits : limiters
}.
Arguments RestState S : clear implicits.
#[global] Instance eta_RestState {S} : Eta (RestState S) := λ s,
  mkRestState S (rt_leases s) (rt_ipam s) (rt_disc s) (rt_auth s) (rt_audit s) (rt_settings s) (rt_broker s)
    (rt_metrics s) (rt_limits s) (rt_auth_limits s).

(** What an operator can read but the health, the metrics, the log and the limits. *)
Definition same_data {S} (s t : RestState S) : Prop :=
  rt_leases s = rt_leases t ∧ rt_ipam s = rt_ipam t ∧ rt_disc s = rt_disc t ∧ rt_settings s = rt_settings t ∧
  rt_broker s = rt_broker t.

Section middleware.
Context `{UnicodeTables} `{UrlParse} `{Bcrypt} `{SliceSort} `{MapRange}.
Context `{Json User} `{Json tokenRecord} `{Json sessionEntry} `{Json (Entry event_data)}.
Context {S : Type} `{LeaseStore S} {A : Type}.

Definition Handler : Type :=
  RestState S → HttpRequest → Ctx → headers → RestInputs S → RestState S * outcome A.
Definition Middleware : Type := Handler → Handler.
Definition chain (next : Handler) (ms : list Middleware) : Handler := foldr (λ m next, m next) next ms.

(** ** What the middlewares record *)

Definition count_metric (st : RestState S) (name : string) (labels : list (string * bytes)) : RestState S :=
  st <| rt_metrics := (λ m, inc_counter m (bs name) (list_to_map ((λ p, (bs p.1, p.2)) <$> labels)) float_one) <$> rt_metrics st |>.
Definition record_security_event_metric (st : RestState S) (event surface : bytes) : RestState S :=
  count_metric st "monsoon_security_events_total" [("event"%string, event); ("surface"%string, surface)].

Definition request_actor (c : Ctx) : bytes :=
  match cx_identity c with Some id => id_username id | None => bs "anonymous" end.

(** [logAuditEntry]; the error is dropped. *)
Definition log_audit_entry (st : RestState S) (entry : Entry event_data) (inp : RestInputs S) : RestState S :=
  st <| rt_audit := (λ e, (audit_log e entry (ri_audit_rand inp) (we_now (ri_audit inp)) (we_tx_now (ri_audit inp))
                             (we_io (ri_audit inp))).1) <$> rt_audit st |>.
Definition new_entry (actor : bytes) (action object_type : string) (object_id source : bytes) (after meta : event_data)
    : Entry event_data :=
  mkEntry [] 0 actor (bs action) (bs object_type) object_id source ∅ after meta.

Definition security_meta (r : HttpRequest) (c : Ctx) (meta : event_data) : event_data :=
  let meta := <[bs "remote_ip" := VString (client_ip c r)]> (<[bs "path" := VString (rq_path r)]>
                (<[bs "method" := VString (rq_method r)]> meta)) in
  let user_agent := trim_space (get_header r "User-Agent") in
  let meta := if bool_decide (user_agent = []) then meta else <[bs "user_agent" := VString user_agent]> meta in
  if bool_decide (cx_request_id c = []) then meta else <[bs "request_id" := VString (cx_request_id c)]> meta.
Definition log_security_audit_entry (st : RestState S) (r : HttpRequest) (c : Ctx) (actor : bytes)
    (action object_type : string) (object_id : bytes) (meta : event_data) (inp : RestInputs S) : RestState S :=
  log_audit_entry st (new_entry actor action object_type object_id (bs "security") ∅ (security_meta r c meta)) inp.

(** ** The middlewares *)

(** [strconv.FormatInt(n, 36)] of a time, which is not negative. *)
Fixpoint base36_fuel (fuel : nat) (z : Z) : bytes :=
  let digit d := byte_of_Z (if d <? 10 then 48 + d else 87 + d) in
  match fuel with
  | O => []
  | Datatypes.S fuel => if z <? 36 then [digit z] else base36_fuel fuel (z / 36) ++ [digit (z mod 36)]
  end.
Definition fmt_base36 (z : Z) : bytes := if z <? 0 then byte_of_Z 45 :: base36_fuel 13 (- z) else base36_fuel 13 z.

Definition request_id_middleware : Middleware := λ next st r c h inp,
  let id := fmt_base36 (unix_nano (ri_request_now inp)) in
  next st r (c <| cx_request_id := id |>) (<[bs "X-Request-Id" := id]> h) inp.

Definition trusted_proxy_headers_middleware (trusted : list bytes) : Middleware := λ next st r c h inp,
  next st r (c <| cx_trusted := is_trusted (new_trusted_proxy_matcher trusted) (rq_remote_addr r) |>) h inp.

Definition recovery_middleware : Middleware := λ next st r c h inp,
  match next st r c h inp with
  | (st, Crash h _) => (st, write_error h 500 "internal_error" (bs "internal server error"))
  | (st, Reply status h b) => (st, Reply status h b)
  end.

Definition content_security_policy : string :=
  "default-src 'self'; base-uri 'self'; form-action 'self'; frame-ancestors 'none'; object-src 'none'; script-src 'self'; style-src 'self' 'unsafe-inline'; img-src 'self' data: blob:; connect-src 'self' ws: wss:".
Definition security_headers_middleware : Middleware := λ next st r c h inp,
  let h := set_header "Content-Security-Policy" content_security_policy h in
  let h := set_header "Permissions-Policy" "camera=(), geolocation=(), microphone=()" h in
  let h := set_header "Referrer-Policy" "no-referrer" h in
  let h := set_header "X-Content-Type-Options" "nosniff" h in
  let h := set_header "X-Frame-Options" "DENY" h in
  let h := if is_https_request c r
           then set_header "Strict-Transport-Security" "max-age=31536000; includeSubDomains" h else h in
  next st r c h inp.

Definition cors_allows (origins : list bytes) (origin : bytes) : bool :=
  (bool_decide (origins = [bs "*"]) && negb (bool_decide (origin = []))) || bool_decide (origin ∈ origins).
Definition cors_middleware (origins : list bytes) : Middleware := λ next st r c h inp,
  let origin := get_header r "Origin" in
  let h := if cors_allows origins origin
           then set_header "Access-Control-Allow-Credentials" "true" (<[bs "Access-Control-Allow-Origin" := origin]> h) else h in
  let h := set_header "Vary" "Origin" h in
  let h := set_header "Access-Control-Allow-Methods" "GET, POST, PUT, PATCH, DELETE, OPTIONS" h in
  let h := set_header "Access-Control-Allow-Headers" "Authorization, Content-Type, X-Request-ID" h in
  if bool_decide (rq_method r = bs "OPTIONS") then (st, Reply 204 h BodyEmpty) else next st r c h inp.

(** The request is one the CSRF middleware refuses. *)
Definition csrf_refused (s : Service) (c : Ctx) (r : HttpRequest) : bool :=
  is_unsafe_method (rq_method r) && bool_decide (is_Some (rq_cookies r !! svc_cookie_name s)) && negb (is_trusted_csrf_request c r).
Definition csrf_middleware : Middleware := λ next st r c h inp,
  match rt_auth st with
  | None => next st r c h inp
  | Some s =>
      if csrf_refused s c r then
        let st := count_metric st "monsoon_csrf_rejected_total" [("path"%string, rq_path r)] in
        let st := record_security_event_metric st (bs "csrf_rejected") (bs "session") in
        let st := log_security_audit_entry st r c (request_actor c) "security.csrf.reject" "http_request" (rq_path r)
                    {[ bs "reason" := VString (bs "cross_site_session_request") ]} inp in
        (st, write_error h 403 "csrf_rejected" (bs "cross-site session request rejected"))
      else next st r c h inp
  end.

Definition bar : bytes := bs "|".
Definition rate_limit_middleware (rps : Z) : Middleware := λ next st r c h inp,
  let key := remote_host (rq_remote_addr r) ++ bar ++ fmt_d rps in
  let '(ls, ok) := limit (rt_limits st) key rps (ri_limit_created inp) (ri_limit_now inp) in
  let st := st <| rt_limits := ls |> in
  if negb ok then (st, write_error h 429 "rate_limited" (bs "too many requests")) else next st r c h inp.

Definition auth_rate_limit_middleware (rps : Z) : Middleware := λ next st r c h inp,
  match auth_rate_limit_key r with
  | None => next st r c h inp
  | Some key =>
      let limiter_key := remote_host (rq_remote_addr r) ++ bar ++ key ++ bar ++ fmt_d rps in
      let '(ls, ok) := limit (rt_auth_limits st) limiter_key rps (ri_auth_limit_created inp) (ri_auth_limit_now inp) in
      let st := st <| rt_auth_limits := ls |> in
      if negb ok then
        let st := count_metric st "monsoon_auth_rate_limited_total" [("endpoint"%string, key)] in
        let st := record_security_event_metric st (bs "auth_rate_limited") key in
        let st := log_security_audit_entry st r c (request_actor c) "security.auth.rate_limit" "auth_endpoint" key
                    {[ bs "endpoint" := VString key ]} inp in
        (st, write_error h 429 "rate_limited" (bs "too many authentication requests"))
      else next st r c h inp
  end.

(** [resolveIdentity]: a bearer token, else the session of the cookie. *)
Definition resolve_identity (s : Service) (r : HttpRequest) (inp : RestInputs S) : Service * option Identity :=
  let auth_header := trim_space (get_header r "Authorization") in
  let '(s, found) :=
    if has_prefix (to_lower auth_header) (bs "bearer ") then
      let b := ri_bearer inp in
      let '(e, res) := authenticate_bearer (svc_store s) (trim_space (drop 7 auth_header)) (we_now b) (we_tx_now b) (we_io b) in
      (s <| svc_store := e |>, match res with Ok id => Some id | _ => None end)
    else (s, None) in
  match found with
  | Some id => (s, Some id)
  | None =>
      match rq_cookies r !! svc_cookie_name s with
      | None => (s, None)
      | Some value =>
          let w := ri_session inp in
          let '(s, res) := validate_session s value (we_now w) (we_tx_now w) (we_io w) in
          (s, match res with Ok id => Some id | _ => None end)
      end
  end.

Definition auth_middleware (enforced : bool) : Middleware := λ next st r c h inp,
  match rt_auth st with
  | None => next st r (c <| cx_enforced := false |>) h inp
  | Some s =>
      if negb enforced then next st r (c <| cx_enforced := false |>) h inp
      else if is_public_auth_path (rq_path r) then next st r (c <| cx_enforced := true |>) h inp
      else
        let '(s, identity) := resolve_identity s r inp in
        let st := st <| rt_auth := Some s |> in
        match identity with
        | None => (st, write_error h 401 "unauthorized" (bs "authentication required"))
        | Some id => next st r (c <| cx_enforced := true |> <| cx_identity := Some id |>) h inp
        end
  end.

(** The settings that can change while the server runs. *)
Record runtimeSettings := mkRuntimeSettings {
  rs_cors_origins : list bytes; rs_trusted_proxies : list bytes; rs_rate_limit : Z; rs_auth_rate_limit : Z;
  rs_auth_enforced : bool; rs_auth_secure_cookie : bool
}.

(** The chain of the REST and the MCP server; the one of gRPC has no CORS. *)
Definition rest_chain (s : runtimeSettings) (next : Handler) : Handler :=
  chain next [request_id_middleware; trusted_proxy_headers_middleware (rs_trusted_proxies s); recovery_middleware;
    security_headers_middleware; cors_middleware (rs_cors_origins s); csrf_middleware;
    auth_rate_limit_middleware (rs_auth_rate_limit s); rate_limit_middleware (rs_rate_limit s);
    auth_middleware (rs_auth_enforced s)].

(** [requireRole]: none when the request may go on. *)
Definition require_role (c : Ctx) (h : headers) (required : bytes) : option (outcome A) :=
  match cx_identity c with
  | None => if cx_enforced c then Some (write_error h 401 "unauthorized" (bs "authentication required")) else None
  | Some id => if has_role required (id_role id) then None else Some (write_error h 403 "forbidden" (bs "insufficient role"))
  end.
End middleware.
