(* ===== verification/RestAuth.v ===== *)
(** internal/api/rest: what the handlers answer with, the decoding of requests
    (decodeJSONBody, parseBoundedPositiveLimit of router.go), and auth.go: accounts,
    sessions and tokens over HTTP. *)

From S2P Require Import Prelude.
From S2P Require Import GoBytes.
From S2P Require Import GoStrings.
From S2P Require Import GoTime.
From S2P Require Import GoJson.
From S2P Require Import GoNet.
From S2P Require Import GoSort.
From S2P Require Import GoParse.
From S2P Require Import ConfigValidate.
From S2P Require Import Wal.
From S2P Require Import StorageEngine.
From S2P Require Import Lease.
From S2P Require Import LeaseInterface.
From S2P Require Import Ipam.
From S2P Require Import Auth.
From S2P Require Import Events.
From S2P Require Import AuditLog.
From S2P Require Import Discovery.
From S2P Require Import EventData.
From S2P Require Import Metrics.
From S2P Require Import RestHttp.

(** The health of a component: its fields, and what its [details] hold. *)
Record Component := mkComponent { cp_fields : event_data; cp_details : option json }.
Record SystemHealth := mkSystemHealth {
  sh_status : bytes; sh_ready : bool; sh_version : bytes; sh_started_at : time; sh_uptime : bytes;
  sh_components : gmap bytes Component
}.
Record SystemBackup := mkSystemBackup { bu_name : bytes; bu_path : bytes; bu_size_bytes : Z; bu_created_at : time }.

Record RestoreRequest := mkRestoreRequest { rr_name : bytes; rr_path : bytes }.

(** The value of [Envelope.Data], before it is marshalled. *)
Inductive rest_data :=
| DFields (fields : list (string * bytes))
| DIdentity (id : Identity)
| DTokens (tokens : list APIToken)
| DToken (token : APIToken) (secret : bytes)
| DLeases (leases : list Lease)
| DLease (l : Lease)
| DSummaries (l : list SubnetSummary)
| DSubnets (l : list Subnet)
| DSubnet (s : Subnet)
| DReservations (l : list Reservation)
| DReservation (r : Reservation)
| DRecords (l : list AddressRecord)
| DRecord (r : AddressRecord)
| DEntries (l : list (Entry event_data))
| DScanStatus (s : ScanStatus)
| DProgress (p : ScanProgress)
| DScans (l : list ScanResult)
| DScan (r : ScanResult)
| DConflicts (l : list Conflict)
| DRogues (l : list RogueServer)
| DSettings (s : UISettings)
| DHealth (h : SystemHealth)
| DInfo (version : bytes) (started_at now : time) (uptime_sec : Z) (ha : json) (reload : option json)
| DConfig (config : json) (reload : option json)
| DBackups (l : list SystemBackup)
| DBackup (b : SystemBackup)
| DStatus (status : json).

(** [json.Decoder]: the first value of the bytes and the rest; [json_decode_empty]
    decodes into a struct without fields. *)
Class JsonDecoder (T : Type) := { json_decode : bytes → result (T * bytes) }.
Class EmptyDecoder := { json_decode_empty : bytes → result bytes }.

Definition end_of_file (e : error) : bool := match e with ErrIO m => bool_decide (m = "EOF"%string) | _ => false end.

Definition decode_json_body {T} `{JsonDecoder T} `{EmptyDecoder} (raw : bytes) : result T :=
  '(out, rest) ← json_decode raw;
  match json_decode_empty rest with
  | Ok _ => Ok out
  | Err e => if end_of_file e then Ok out else Err e
  | Panic m => Panic m
  end.

(** [strconv.Atoi], none with an error *)
Definition atoi (s : bytes) : option Z := parse_int s.

Definition parse_bounded_positive_limit `{UnicodeTables} (raw : bytes) (default_limit max_limit : Z) : result Z :=
  let value := trim_space raw in
  if bool_decide (value = []) then Ok default_limit
  else
    match atoi value with
    | Some parsed =>
        if parsed <=? 0 then Err (errorNew "limit must be positive")
        else if (0 <? max_limit) && (max_limit <? parsed) then Ok max_limit else Ok parsed
    | None => Err (errorNew "limit must be positive")
    end.

(** The limit is one a caller may have. *)
Lemma parse_limit_bounded `{UnicodeTables} raw d m n :
  0 < d ≤ m → parse_bounded_positive_limit raw d m = Ok n → 0 < n ≤ m.
Proof.
  unfold parse_bounded_positive_limit. intros Hd. case_bool_decide; [by intros [= <-]|].
  destruct (atoi _) as [z|]; [|done]. destruct (Z.leb_spec z 0); [done|].
  destruct (Z.ltb_spec 0 m); [|lia]. destruct (Z.ltb_spec m z); cbn; intros [= <-]; lia.
Qed.

(** internal/api/rest/auth.go: accounts, sessions and tokens over HTTP. *)

Record loginRequest := mkLoginRequest { lq_username : bytes; lq_password : bytes }.
Record passwordChangeRequest := mkPasswordChange { pq_current_password : bytes; pq_new_password : bytes }.
Record createTokenRequest := mkCreateToken {
  tk_name : bytes; tk_role : bytes; tk_expires_in_hours : Z; tk_description : bytes
}.

(** The format of a time in a cookie. *)
Class HttpTime := { http_time : time → bytes }.

(** The errors of the service that the handlers tell apart. *)
Definition is_error (e : error) (text : string) : bool :=
  match e with Errorf f [] => bool_decide (f = text) | _ => false end.
Definition locked_until (e : error) : option time :=
  match e with
  | Errorf f [FZ until] => if bool_decide (f = "account is temporarily locked"%string) then Some until else None
  | _ => None
  end.

Section auth.
Context `{UnicodeTables} `{UrlParse} `{Bcrypt} `{SliceSort} `{MapRange} `{HttpTime} `{EmptyDecoder}.
Context `{Json User} `{Json tokenRecord} `{Json sessionEntry} `{Json (Entry event_data)}.
Context `{JsonDecoder loginRequest} `{JsonDecoder passwordChangeRequest} `{JsonDecoder createTokenRequest}.
Context {S : Type} `{LeaseStore S}.
#[local] Abbreviation state := (RestState S).
#[local] Abbreviation reply := (outcome rest_data).

Definition set_no_store (h : headers) : headers := set_header "Pragma" "no-cache" (set_header "Cache-Control" "no-store" h).

Definition with_service (st : state) (s : Service) : state := st <| rt_auth := Some s |>.

Definition record_auth_request_metric (st : state) (endpoint outcome : string) : state :=
  count_metric st "monsoon_auth_requests_total" [("endpoint"%string, bs endpoint); ("outcome"%string, bs outcome)].

(** A reply with the metric of its outcome. *)
Definition auth_fail (st : state) (h : headers) (endpoint outcome : string) (status : Z) (code : string) (message : bytes)
    : state * reply := (record_auth_request_metric st endpoint outcome, write_error h status code message).

Definition cookie_attributes (secure : bool) : bytes :=
  bs "; HttpOnly" ++ (if secure then bs "; Secure" else []) ++ bs "; SameSite=Strict".
Definition set_session_cookie (h : headers) (name session_id : bytes) (expires_at : time) (secure : bool) : headers :=
  <[bs "Set-Cookie" := name ++ bs "=" ++ session_id ++ bs "; Path=/; Expires=" ++ http_time expires_at ++ cookie_attributes secure]> h.
Definition clear_session_cookie (h : headers) (name : bytes) (secure : bool) : headers :=
  <[bs "Set-Cookie" := name ++ bs "=; Path=/; Max-Age=0" ++ cookie_attributes secure]> h.

(** [writeLockedAuthError]; the clock is read once more. *)
Definition locked_reply (h : headers) (until now : time) : reply :=
  write_error (<[bs "Retry-After" := fmt_d (retry_after until now now)]> h) 429 "account_locked"
    (bs "account is temporarily locked").

(** [requireLocalAuthMode] *)
Definition require_local (st : state) (s : Service) (h : headers) (endpoint : string) (k : state * reply) : state * reply :=
  if supports_local_auth s then k
  else auth_fail st h endpoint "unsupported_mode" 501 "auth_mode_unsupported"
         (bs "configured auth mode does not support local username/password operations in this build").

(** A decoded body, or the reply to one that does not decode. *)
Definition with_payload {T} `{JsonDecoder T} (st : state) (r : HttpRequest) (h : headers) (endpoint : string)
    (k : T → state * reply) : state * reply :=
  match (decode_json_body (rq_body r) : result T) with
  | Ok payload => k payload
  | Err e => auth_fail st h endpoint "invalid_payload" 400 "invalid_payload" (error_text e)
  | Panic m => (st, Crash h m)
  end.

Definition audited (st : state) (actor : bytes) (action object_type : string) (object_id : bytes) (after : event_data)
    (inp : RestInputs S) : state :=
  log_audit_entry st (new_entry actor action object_type object_id (bs "api") after ∅) inp.

(** ** Bootstrap and login *)

Definition post_bootstrap (s : Service) : Handler (S := S) (A := rest_data) := λ st r c h inp,
  let h := set_no_store h in
  require_local st s h "bootstrap"
    (with_payload st r h "bootstrap" (λ payload : loginRequest,
      let username := trim_space (lq_username payload) in
      let username := if bool_decide (username = []) then bs "admin" else username in
      if bool_decide (trim_space (lq_password payload) = [])
      then auth_fail st h "bootstrap" "invalid_password" 400 "invalid_password" (bs "password is required")
      else
        let w := ri_write inp in
        let '(e, err) := bootstrap_admin (svc_store s) username (lq_password payload) (ri_salt inp) (we_now w) (we_tx_now w) (we_io w) in
        let st := with_service st (s <| svc_store := e |>) in
        match err with
        | Some er =>
            if is_error er "admin bootstrap is unavailable"
            then auth_fail st h "bootstrap" "unavailable" 409 "bootstrap_unavailable" (bs "admin bootstrap has already been completed")
            else auth_fail st h "bootstrap" "error" 500 "bootstrap_failed" (error_text er)
        | None =>
            let st := record_auth_request_metric st "bootstrap" "success" in
            let st := audited st username "auth.bootstrap" "user" username ∅ inp in
            (st, write_json h 200 (DFields [("status"%string, bs "ready"); ("username"%string, username)]) None)
        end)).

(** A failed check of a password: the lock and the failure are told apart. *)
Definition password_failure (st : state) (r : HttpRequest) (c : Ctx) (h : headers) (endpoint : string) (who : bytes)
    (locked_action failed_action message : string) (e : error) (inp : RestInputs S) : state * reply :=
  match locked_until e with
  | Some until =>
      let st := record_auth_request_metric st endpoint "locked" in
      let st := record_security_event_metric st (bs "account_locked") (bs endpoint) in
      let st := log_security_audit_entry st r c who locked_action "user" who {[ bs "endpoint" := VString (bs endpoint) ]} inp in
      (st, locked_reply h until (ri_event_now inp))
  | None =>
      let st := record_auth_request_metric st endpoint "invalid_credentials" in
      let st := record_security_event_metric st (bs "auth_failure") (bs endpoint) in
      let st := log_security_audit_entry st r c who failed_action "user" who
                  (list_to_map [(bs "endpoint", VString (bs endpoint)); (bs "reason", VString (bs "invalid_credentials"))]) inp in
      (st, write_error h 401 "invalid_credentials" (bs message))
  end.

(** [AuthenticateLocal] on the service. *)
Definition check_password (s : Service) (username password : bytes) (inp : RestInputs S) : Service * result Identity :=
  let '(t, res) := authenticate_local (svc_store s) (svc_lockouts s) username password (we_now (ri_session inp)) (ri_failure_now inp) in
  (s <| svc_lockouts := t |>, res).

(** [CreateSession] on the service. *)
Definition open_session (s : Service) (id : Identity) (inp : RestInputs S) : Service * result (bytes * time) :=
  let w := ri_write2 inp in create_session s id (ri_rand inp) (we_now w) (we_tx_now w) (we_io w).

Definition post_login (s : Service) (secure : bool) : Handler (S := S) (A := rest_data) := λ st r c h inp,
  let h := set_no_store h in
  require_local st s h "login"
    (with_payload st r h "login" (λ payload : loginRequest,
      let '(s, res) := check_password s (lq_username payload) (lq_password payload) inp in
      let st := with_service st s in
      match res with
      | Err e => password_failure st r c h "login" (trim_space (lq_username payload)) "auth.login.locked" "auth.login.failed"
                   "invalid username or password" e inp
      | Panic m => (st, Crash h m)
      | Ok identity =>
          let '(s, res) := open_session s identity inp in
          let st := with_service st s in
          match res with
          | Err e => auth_fail st h "login" "session_create_failed" 500 "session_create_failed" (error_text e)
          | Panic m => (st, Crash h m)
          | Ok (session_id, expires_at) =>
              let st := record_auth_request_metric st "login" "success" in
              let h := set_session_cookie h (svc_cookie_name s) session_id expires_at secure in
              let st := audited st (id_username identity) "auth.login" "session" session_id ∅ inp in
              (st, write_json h 200 (DIdentity identity) None)
          end
      end)).

Definition post_logout (s : Service) (secure : bool) : Handler (S := S) (A := rest_data) := λ st r c h inp,
  let h := set_no_store h in
  let actor := request_actor c in
  let w := ri_write inp in
  let s := match rq_cookies r !! svc_cookie_name s with
           | Some value => revoke_session s value (we_tx_now w) (we_io w)
           | None => s
           end in
  let st := record_auth_request_metric (with_service st s) "logout" "success" in
  let h := clear_session_cookie h (svc_cookie_name s) secure in
  let st := audited st actor "auth.logout" "session" actor ∅ inp in
  (st, write_json h 200 (DFields [("status"%string, bs "logged_out")]) None).

(** The identity of the context, or what the request itself shows. *)
Definition own_identity (s : Service) (r : HttpRequest) (c : Ctx) (inp : RestInputs S) : Service * option Identity :=
  match cx_identity c with Some id => (s, Some id) | None => resolve_identity s r inp end.

Definition get_me (s : Service) : Handler (S := S) (A := rest_data) := λ st r c h inp,
  let h := set_no_store h in
  let '(s, identity) := own_identity s r c inp in
  let st := with_service st s in
  match identity with
  | None => auth_fail st h "me" "unauthorized" 401 "unauthorized" (bs "authentication required")
  | Some id => (record_auth_request_metric st "me" "success", write_json h 200 (DIdentity id) None)
  end.

Definition post_password (s : Service) (secure : bool) : Handler (S := S) (A := rest_data) := λ st r c h inp,
  let h := set_no_store h in
  require_local st s h "password"
    match cx_identity c with
    | None => auth_fail st h "password" "unauthorized" 401 "unauthorized" (bs "authentication required")
    | Some identity =>
        let who := id_username identity in
        with_payload st r h "password" (λ payload : passwordChangeRequest,
          let '(s, res) := check_password s who (pq_current_password payload) inp in
          let st := with_service st s in
          match res with
          | Err e => password_failure st r c h "password" who "auth.password.locked" "auth.password.verify_failed"
                       "current password is invalid" e inp
          | Panic m => (st, Crash h m)
          | Ok _ =>
              let w := ri_write inp in
              let '(e, err) := set_password (svc_store s) who (pq_new_password payload) (ri_salt inp) (we_now w) (we_tx_now w) (we_io w) in
              let s := s <| svc_store := e |> in
              match err with
              | Some er => auth_fail (with_service st s) h "password" "password_update_failed" 400 "password_update_failed" (error_text er)
              | None =>
                  let s := (revoke_sessions_for_user s who (ri_session_ids inp) (we_tx_now w)).1 in
                  let done st h :=
                    let st := record_auth_request_metric st "password" "success" in
                    let st := audited st who "auth.password.update" "user" who ∅ inp in
                    (st, write_json h 200 (DFields [("status"%string, bs "updated")]) None) in
                  if bool_decide (id_auth_type identity = bs "session") then
                    let '(s, res) := open_session s identity inp in
                    let st := with_service st s in
                    match res with
                    | Err e => auth_fail st h "password" "session_create_failed" 500 "session_create_failed" (error_text e)
                    | Panic m => (st, Crash h m)
                    | Ok (session_id, expires_at) => done st (set_session_cookie h (svc_cookie_name s) session_id expires_at secure)
                    end
                  else done (with_service st s) h
              end
          end)
    end.

(** ** Tokens *)

(** [requireRoleWithService] *)
Definition require_role_with_service (s : Service) (required : bytes) (st : state) (r : HttpRequest) (c : Ctx) (h : headers)
    (inp : RestInputs S) (k : Service → state → state * reply) : state * reply :=
  let '(s, identity) := own_identity s r c inp in
  let st := with_service st s in
  match identity with
  | None => (st, write_error h 401 "unauthorized" (bs "authentication required"))
  | Some id =>
      if negb (has_role required (id_role id)) then (st, write_error h 403 "forbidden" (bs "insufficient role"))
      else k s st
  end.

Definition get_tokens (s : Service) : Handler (S := S) (A := rest_data) := λ st r c h inp,
  let h := set_no_store h in
  require_role_with_service s DefaultRoleAdmin st r c h inp (λ s st,
    match list_tokens (svc_store s) with
    | Ok tokens => (record_auth_request_metric st "tokens.list" "success", write_json h 200 (DTokens tokens) (Some (zlen tokens)))
    | Err e => auth_fail st h "tokens.list" "error" 500 "token_list_failed" (error_text e)
    | Panic m => (st, Crash h m)
    end).

Definition post_tokens (s : Service) : Handler (S := S) (A := rest_data) := λ st r c h inp,
  let h := set_no_store h in
  require_role_with_service s DefaultRoleAdmin st r c h inp (λ s st,
    with_payload st r h "tokens.create" (λ payload : createTokenRequest,
      let hours := tk_expires_in_hours payload in
      let expires_at := if 0 <? hours then Some (time_add (ri_event_now inp) (i64 (hours * hour))) else None in
      let w := ri_write inp in
      let '(e, res) := create_token (svc_store s) (tk_name payload) (tk_role payload) expires_at (tk_description payload)
                         (ri_rand inp) (ri_rand2 inp) (we_now w) (we_tx_now w) (we_io w) in
      let st := with_service st (s <| svc_store := e |>) in
      match res with
      | Err e => auth_fail st h "tokens.create" "create_failed" 400 "token_create_failed" (error_text e)
      | Panic m => (st, Crash h m)
      | Ok (token, secret) =>
          let st := record_auth_request_metric st "tokens.create" "success" in
          let st := audited st (request_actor c) "auth.token.create" "api_token" (at_id token)
                      (list_to_map [(bs "name", VString (at_name token)); (bs "role", VString (at_role token))]) inp in
          (st, write_json h 200 (DToken token secret) None)
      end)).

Definition delete_token (s : Service) (path_id : bytes) : Handler (S := S) (A := rest_data) := λ st r c h inp,
  let h := set_no_store h in
  require_role_with_service s DefaultRoleAdmin st r c h inp (λ s st,
    let token_id := trim_space path_id in
    if bool_decide (token_id = [])
    then auth_fail st h "tokens.revoke" "missing_id" 400 "missing_id" (bs "token id is required")
    else
      let w := ri_write inp in
      let '(e, err) := revoke_token (svc_store s) token_id (we_tx_now w) (we_io w) in
      let st := with_service st (s <| svc_store := e |>) in
      match err with
      | Some _ => auth_fail st h "tokens.revoke" "not_found" 404 "token_not_found" (bs "token not found")
      | None =>
          let st := record_auth_request_metric st "tokens.revoke" "success" in
          let st := audited st (request_actor c) "auth.token.revoke" "api_token" token_id ∅ inp in
          (st, write_json h 200 (DFields [("status"%string, bs "revoked"); ("id"%string, token_id)]) None)
      end).
End auth.
