(* ===== verification/RestRouter.v ===== *)
(** internal/api/rest/router.go: the routes of leases, subnets, reservations, addresses,
    the audit log, discovery, the settings and the events, and the dispatch of a
    request to its route.

    [http.ServeMux] is the standard library's: [parse_route] matches a method and the
    segments of a path with its patterns. *)

From S2P Require Import Prelude.
From S2P Require Import GoBytes.
From S2P Require Import GoStrings.
From S2P Require Import GoTime.
From S2P Require Import GoNet.
From S2P Require Import GoSort.
From S2P Require Import GoJson.
From S2P Require Import Wal.
From S2P Require Import StorageEngine.
From S2P Require Import Lease.
From S2P Require Import LeaseInterface.
From S2P Require Import Ipam.
From S2P Require Import ConfigValidate.
From S2P Require Import Auth.
From S2P Require Import Events.
From S2P Require Import AuditLog.
From S2P Require Import Discovery.
From S2P Require Import EventData.
From S2P Require Import Metrics.
From S2P Require Import RestHttp.
From S2P Require Import RestAuth.

(** Times of a query and of an export, and the JSON of an exported log. *)
Class AuditExport := {
  parse_rfc3339 : bytes → option time;
  rfc3339 : time → bytes;
  file_stamp : time → bytes;
  entries_indent : list (Entry event_data) → result bytes;
  data_text : event_data → bytes;
}.

(** * encoding/csv *)

Definition quote : byte := byte_of_Z 34.
Definition field_needs_quotes (field : bytes) : bool :=
  if bool_decide (field = []) then false
  else if bool_decide (field = bs "\.") then true
  else if existsb (λ c, bool_decide (c ∈ [newline; byte_of_Z 13; quote; comma])) field then true
  else negb (bool_decide (trim_left field = field)).
Definition csv_quoted (field : bytes) : bytes :=
  quote :: (field ≫= λ c, if bool_decide (c = quote) then [quote; quote] else [c]) ++ [quote].
Definition csv_field (field : bytes) : bytes := if field_needs_quotes field then csv_quoted field else field.
Definition csv_record (fields : list bytes) : bytes := join (csv_field <$> fields) [comma] ++ [newline].

Section router.
Context `{UnicodeTables} `{UrlParse} `{Bcrypt} `{SliceSort} `{MapRange} `{HttpTime} `{EmptyDecoder} `{AuditExport} `{TimeText}.
Context `{Json User} `{Json tokenRecord} `{Json sessionEntry} `{Json (Entry event_data)}.
Context `{Json Subnet} `{Json Reservation} `{Json AddressRecord} `{Json UISettings}.
Context `{Json ScanResult} `{Json (gmap bytes ObservedHost)} `{Json (list RogueServer)} `{Json (Event event_data)}.
Context `{JsonDecoder loginRequest} `{JsonDecoder passwordChangeRequest} `{JsonDecoder createTokenRequest}.
Context `{JsonDecoder UpsertSubnetInput} `{JsonDecoder UpsertReservationInput} `{JsonDecoder ScanRequest} `{JsonDecoder UISettings}.
Context {S : Type} `{LeaseStore S}.
#[local] Abbreviation state := (RestState S).
#[local] Abbreviation reply := (outcome rest_data).
#[local] Abbreviation handler := (Handler (S := S) (A := rest_data)).

(** The value of a call, or the reply to its error. *)
Definition or_error {T : Type} (st : state) (h : headers) (res : result T) (status : Z) (code : string) (message : error → bytes)
    (k : T → state * reply) : state * reply :=
  match res with
  | Ok v => k v
  | Err e => (st, write_error h status code (message e))
  | Panic m => (st, Crash h m)
  end.
Definition fixed (text : string) (_ : error) : bytes := bs text.

(** [requireRoleForMutation] in front of the rest of a handler. *)
Definition with_role (required : bytes) (k : handler) : handler := λ st r c h inp,
  match require_role c h required with Some refused => (st, refused) | None => k st r c h inp end.
Definition operator : handler → handler := with_role DefaultRoleOperator.
Definition admin : handler → handler := with_role DefaultRoleAdmin.

Definition publish (st : state) (inp : RestInputs S) (type : string) (data : list (string * any_value)) : state :=
  st <| rt_broker := (λ b, publish_event b (mkEvent (bs type) 0 (list_to_map ((λ p, (bs p.1, p.2)) <$> data))) (ri_event_now inp))
                     <$> rt_broker st |>.

Definition with_ipam (st : state) (e : Engine) : state := st <| rt_ipam := Some e |>.
Definition with_body {T : Type} `{JsonDecoder T} (st : state) (r : HttpRequest) (h : headers) (k : T → state * reply) : state * reply :=
  or_error st h (decode_json_body (rq_body r) : result T) 400 "invalid_payload" error_text k.

(** ** Leases *)

Definition get_leases (s : S) : handler := λ st r c h inp,
  or_error st h (ls_list_all s) 500 "lease_list_failed" error_text (λ all,
    let state := get_query r "state" in
    let subnet := get_query r "subnet" in
    let filtered := filter (λ l, (state = [] ∨ l_state l = state) ∧ (subnet = [] ∨ l_subnet_id l = subnet)) all in
    let sorted := sort_slice (λ x y, bytes_ltb (l_ip x) (l_ip y)) filtered in
    (st, write_json h 200 (DLeases sorted) (Some (zlen sorted)))).

Definition get_lease (s : S) (ip : bytes) : handler := λ st r c h inp,
  or_error st h (ls_get_by_ip s ip) 404 "lease_not_found" (fixed "lease not found") (λ l,
    (st, write_json h 200 (DLease l) None)).

Definition post_release (s : S) (ip : bytes) : handler := operator (λ st r c h inp,
  or_error st h (ls_get_by_ip s ip) 404 "lease_not_found" (fixed "lease not found") (λ l,
    let now := we_now (ri_write inp) in
    let l := l <| l_state := StateReleased |> <| l_expiry_time := now |> <| l_updated_at := now |> in
    match ls_upsert s l (ri_lease_env inp) with
    | (s, Some e) => (st <| rt_leases := Some s |>, write_error h 500 "lease_release_failed" (error_text e))
    | (s, None) =>
        let st := st <| rt_leases := Some s |> in
        let st := publish st inp "lease.released" [("ip"%string, VString ip)] in
        let st := audited st (request_actor c) "lease.release" "lease" ip {[ bs "state" := VString (bs "released") ]} inp in
        (st, write_json h 200 (DFields [("status"%string, bs "released"); ("ip"%string, ip)]) None)
    end)).

Definition write_reservation (e : Engine) (i : UpsertReservationInput) (inp : RestInputs S) : Engine * result Reservation :=
  let w := ri_write inp in upsert_reservation e i (we_now w) (we_tx_now w) (we_io w).

Definition post_lease_reservation (s : S) (e : Engine) (ip : bytes) : handler := operator (λ st r c h inp,
  or_error st h (ls_get_by_ip s ip) 404 "lease_not_found" (fixed "lease not found") (λ l,
    let '(e, res) := write_reservation e (mkUpsertReservationInput (l_mac l) (l_ip l) (l_hostname l) (l_subnet_id l)) inp in
    let st := with_ipam st e in
    or_error st h res 400 "reservation_create_failed" error_text (λ item,
      let st := publish st inp "reservation.upserted" [("mac"%string, VString (rv_mac item)); ("ip"%string, VString (rv_ip item))] in
      let st := audited st (request_actor c) "reservation.create_from_lease" "reservation" (rv_mac item)
                  (list_to_map [(bs "ip", VString (rv_ip item)); (bs "mac", VString (rv_mac item));
                                (bs "subnet", VString (rv_subnet_cidr item))]) inp in
      (st, write_json h 200 (DReservation item) None)))).

(** ** Subnets *)

Definition get_subnets (e : Engine) : handler := λ st r c h inp,
  or_error st h (list_summaries e (rt_leases st)) 500 "subnet_list_failed" error_text (λ l,
    (st, write_json h 200 (DSummaries l) (Some (zlen l)))).
Definition get_subnets_raw (e : Engine) : handler := λ st r c h inp,
  or_error st h (list_subnets e) 500 "subnet_list_failed" error_text (λ l,
    (st, write_json h 200 (DSubnets l) (Some (zlen l)))).

Definition put_subnet (e : Engine) : handler := operator (λ st r c h inp,
  with_body st r h (λ payload : UpsertSubnetInput,
    let w := ri_write inp in
    let '(e, res) := upsert_subnet e payload (we_now w) (we_tx_now w) (we_io w) in
    let st := with_ipam st e in
    or_error st h res 400 "subnet_upsert_failed" error_text (λ s,
      let st := publish st inp "subnet.upserted" [("cidr"%string, VString (sn_cidr s))] in
      let st := audited st (request_actor c) "subnet.upsert" "subnet" (sn_cidr s)
                  (list_to_map [(bs "name", VString (sn_name s)); (bs "vlan", VInt (sn_vlan s));
                                (bs "gateway", VString (sn_gateway s)); (bs "dhcp_enabled", VBool (dp_enabled (sn_dhcp s)))]) inp in
      (st, write_json h 200 (DSubnet s) None)))).

Definition remove_subnet (e : Engine) : handler := operator (λ st r c h inp,
  let cidr := trim_space (get_query r "cidr") in
  if bool_decide (cidr = []) then (st, write_error h 400 "missing_cidr" (bs "query parameter cidr is required"))
  else
    let w := ri_write inp in
    match delete_subnet e cidr (we_tx_now w) (we_io w) with
    | (e, Some er) => (with_ipam st e, write_error h 500 "subnet_delete_failed" (error_text er))
    | (e, None) =>
        let st := publish (with_ipam st e) inp "subnet.deleted" [("cidr"%string, VString cidr)] in
        let st := audited st (request_actor c) "subnet.delete" "subnet" cidr ∅ inp in
        (st, write_json h 200 (DFields [("status"%string, bs "deleted"); ("cidr"%string, cidr)]) None)
    end).

(** ** Reservations *)

Definition reservation_haystack (r : Reservation) : bytes :=
  to_lower (join [rv_ip r; rv_mac r; rv_hostname r; rv_subnet_cidr r] [byte_of_Z 32]).
Definition get_reservations (e : Engine) : handler := λ st r c h inp,
  or_error st h (list_reservations e) 500 "reservation_list_failed" error_text (λ records,
    let q := to_lower (trim_space (get_query r "q")) in
    let subnet := trim_space (get_query r "subnet") in
    let mac := to_upper (trim_space (get_query r "mac")) in
    let filtered := filter (λ item,
      (subnet = [] ∨ rv_subnet_cidr item = subnet) ∧ (mac = [] ∨ rv_mac item = mac) ∧
      (q = [] ∨ contains (reservation_haystack item) q = true)) records in
    (st, write_json h 200 (DReservations filtered) (Some (zlen filtered)))).
Definition get_reservation (e : Engine) (mac : bytes) : handler := λ st r c h inp,
  or_error st h (get_reservation_by_mac e (trim_space mac)) 404 "reservation_not_found" (fixed "reservation not found") (λ item,
    (st, write_json h 200 (DReservation item) None)).

Definition put_reservation (e : Engine) : handler := operator (λ st r c h inp,
  with_body st r h (λ payload : UpsertReservationInput,
    let '(e, res) := write_reservation e payload inp in
    let st := with_ipam st e in
    or_error st h res 400 "reservation_upsert_failed" error_text (λ item,
      let st := publish st inp "reservation.upserted" [("mac"%string, VString (rv_mac item)); ("ip"%string, VString (rv_ip item))] in
      let st := audited st (request_actor c) "reservation.upsert" "reservation" (rv_mac item)
                  (list_to_map [(bs "ip", VString (rv_ip item)); (bs "subnet", VString (rv_subnet_cidr item))]) inp in
      (st, write_json h 200 (DReservation item) None)))).

Definition remove_reservation (e : Engine) : handler := operator (λ st r c h inp,
  let mac := trim_space (get_query r "mac") in
  if bool_decide (mac = []) then (st, write_error h 400 "missing_mac" (bs "query parameter mac is required"))
  else
    let w := ri_write inp in
    match delete_reservation e mac (we_tx_now w) (we_io w) with
    | (e, Some er) => (with_ipam st e, write_error h 500 "reservation_delete_failed" (error_text er))
    | (e, None) =>
        let st := publish (with_ipam st e) inp "reservation.deleted" [("mac"%string, VString (to_upper mac))] in
        let st := audited st (request_actor c) "reservation.delete" "reservation" (to_upper mac) ∅ inp in
        (st, write_json h 200 (DFields [("status"%string, bs "deleted"); ("mac"%string, to_upper mac)]) None)
    end).

(** ** Addresses *)

Definition address_limit (raw : bytes) : option Z :=
  let raw := trim_space raw in
  if bool_decide (raw = []) then Some 0
  else match atoi raw with Some n => if n <? 0 then None else Some n | None => None end.
Definition get_addresses (e : Engine) : handler := λ st r c h inp,
  match address_limit (get_query r "limit") with
  | None => (st, write_error h 400 "invalid_limit" (bs "limit must be a positive integer"))
  | Some limit =>
      let f := mkAddressFilter (trim_space (get_query r "subnet")) (trim_space (get_query r "state"))
                 (trim_space (get_query r "q")) limit in
      or_error st h (list_addresses e (rt_leases st) f (ri_range inp)) 400 "address_list_failed" error_text (λ records,
        (st, write_json h 200 (DRecords records) (Some (zlen records))))
  end.
Definition get_one_address (e : Engine) (ip : bytes) : handler := λ st r c h inp,
  or_error st h (get_address e (rt_leases st) ip) 404 "address_not_found" (fixed "address not found") (λ record,
    (st, write_json h 200 (DRecord record) None)).

(** ** The audit log *)

Definition optional_time (raw : bytes) : result time :=
  let raw := trim_space raw in
  if bool_decide (raw = []) then Ok 0
  else match parse_rfc3339 raw with Some t => Ok t | None => Err (errorNew "parsing time") end.

Definition audit_filter (r : HttpRequest) (from to : time) (limit : Z) : QueryFilter :=
  let field name := trim_space (get_query r name) in
  mkQueryFilter (field "actor"%string) (field "action"%string) (field "object_type"%string) (field "object_id"%string)
    (field "source"%string) (field "q"%string) from to limit.

Definition csv_header : list bytes :=
  map bs ["id"; "timestamp"; "actor"; "action"; "object_type"; "object_id"; "source"; "before"; "after"; "meta"]%string.
Definition csv_entry (en : Entry event_data) : list bytes :=
  [en_id en; rfc3339 (en_timestamp en); en_actor en; en_action en; en_object_type en; en_object_id en; en_source en;
   data_text (en_before en); data_text (en_after en); data_text (en_meta en)].
Definition export_headers (h : headers) (content_type extension : string) (now : time) : headers :=
  <[bs "Content-Disposition" := bs "attachment; filename=" ++ [quote] ++ bs "monsoon-audit-" ++ file_stamp now ++ bs extension ++ [quote]]>
    (set_header "Content-Type" content_type h).

(** The entries in the format of the request. *)
Definition audit_reply (st : state) (h : headers) (format : bytes) (entries : list (Entry event_data)) (now : time)
    : state * reply :=
  if bool_decide (format = [] ∨ format = bs "envelope") then (st, write_json h 200 (DEntries entries) (Some (zlen entries)))
  else if bool_decide (format = bs "json") then
    let h := export_headers h "application/json" ".json" now in
    or_error st h (entries_indent entries) 500 "audit_export_failed" error_text (λ raw, (st, Reply 200 h (BodyRaw raw)))
  else if bool_decide (format = bs "csv") then
    let h := export_headers h "text/csv; charset=utf-8" ".csv" now in
    (st, Reply 200 h (BodyRaw (concat (csv_record <$> csv_header :: (csv_entry <$> entries)))))
  else (st, write_error h 400 "invalid_format" (bs "format must be envelope, json, or csv")).

Definition get_audit (e : Engine) : handler := admin (λ st r c h inp,
  or_error st h (parse_bounded_positive_limit (get_query r "limit") 100 500) 400 "invalid_limit" error_text (λ limit,
  or_error st h (optional_time (get_query r "from")) 400 "invalid_from" (fixed "from must be RFC3339") (λ from,
  or_error st h (optional_time (get_query r "to")) 400 "invalid_to" (fixed "to must be RFC3339") (λ to,
  or_error st h (audit_query e (audit_filter r from to limit)) 500 "audit_query_failed" error_text (λ entries,
    audit_reply st h (to_lower (trim_space (get_query r "format"))) entries (ri_event_now inp)))))).

(** ** Discovery *)

Definition with_disc (st : state) (d : DiscEngine) : state := st <| rt_disc := Some d |>.
Definition get_disc_status (d : DiscEngine) : handler := λ st r c h inp, (st, write_json h 200 (DScanStatus (disc_status d)) None).
Definition get_disc_progress (d : DiscEngine) : handler := λ st r c h inp, (st, write_json h 200 (DProgress (dn_progress d)) None).

Definition post_scan (d : DiscEngine) : handler := operator (λ st r c h inp,
  let start (payload : ScanRequest) :=
    let '(d, res) := trigger_scan d (ri_scan_id inp) (we_now (ri_write inp)) in
    let st := with_disc st d in
    or_error st h res 409 "scan_in_progress" error_text (λ scan_id,
      let st := publish st inp "discovery.scan_queued" [("scan_id"%string, VString scan_id)] in
      let st := audited st (request_actor c) "discovery.scan.trigger" "discovery_scan" scan_id
                  {[ bs "reason" := VString (sr_reason payload) ]} inp in
      (st, write_json h 202 (DFields [("status"%string, bs "queued"); ("scan_id"%string, scan_id); ("estimated_in"%string, bs "15s")]) None)) in
  if 0 <? rq_content_length r then with_body st r h start else start (mkScanRequest [] [])).

Definition get_scans (d : DiscEngine) : handler := λ st r c h inp,
  or_error st h (parse_bounded_positive_limit (get_query r "limit") 50 200) 400 "invalid_limit" error_text (λ limit,
  or_error st h (list_results (dn_store d) limit) 500 "discovery_results_failed" error_text (λ l,
    (st, write_json h 200 (DScans l) (Some (zlen l))))).
Definition get_scan (d : DiscEngine) (id : bytes) : handler := λ st r c h inp,
  or_error st h (get_result (dn_store d) (trim_space id)) 404 "discovery_result_not_found" (fixed "scan result not found") (λ res,
    (st, write_json h 200 (DScan res) None)).
Definition get_conflicts (d : DiscEngine) : handler := λ st r c h inp,
  or_error st h (latest_conflicts d) 500 "discovery_conflicts_failed" error_text (λ l,
    (st, write_json h 200 (DConflicts l) (Some (zlen l)))).
Definition get_rogue (d : DiscEngine) : handler := λ st r c h inp,
  or_error st h (latest_rogue_servers d) 500 "discovery_rogue_failed" error_text (λ l,
    (st, write_json h 200 (DRogues l) (Some (zlen l)))).

(** ** Settings *)

Definition get_settings (e : Engine) : handler := λ st r c h inp,
  or_error st h (settings_get e) 500 "settings_read_failed" error_text (λ s, (st, write_json h 200 (DSettings s) None)).

Definition put_settings (e : Engine) : handler := operator (λ st r c h inp,
  with_body st r h (λ payload : UISettings,
    let w := ri_write inp in
    let '(e, err) := settings_set e payload (we_tx_now w) (we_io w) in
    let st := st <| rt_settings := Some e |> in
    match err with
    | Some er => (st, write_error h 500 "settings_write_failed" (error_text er))
    | None =>
        let st := publish st inp "settings.ui_updated"
                    [("theme"%string, VString (ui_theme payload)); ("density"%string, VString (ui_density payload))] in
        let st := audited st (request_actor c) "settings.ui.update" "settings" (bs "ui")
                    (list_to_map [(bs "theme", VString (ui_theme payload)); (bs "density", VString (ui_density payload));
                                  (bs "auto_refresh", VBool (ui_auto_refresh payload))]) inp in
        get_settings e st r c h inp
    end)).

(** ** Events *)

(** What wakes the loop of the stream before the request or the subscription ends. *)
Inductive sse_input := SseTick | SseEvent (evt : Event event_data).
Definition sse_event (i : sse_input) : Event event_data :=
  match i with SseTick => mkEvent (bs "system.keepalive") 0 ∅ | SseEvent evt => evt end.

Definition sse_headers (h : headers) : headers :=
  set_header "Connection" "keep-alive" (set_header "Cache-Control" "no-cache" (set_header "Content-Type" "text/event-stream" h)).

(** The two writes of an event; the connection takes [room] more writes. *)
Definition write_event (evt : Event event_data) (room : nat) : list bytes * option nat :=
  match (marshal evt : result bytes) with
  | Ok payload =>
      let parts := [bs "event: " ++ ev_type evt ++ [newline]; bs "data: " ++ payload ++ [newline; newline]] in
      (take room parts, if (2 <=? room)%nat then Some (room - 2)%nat else None)
  | _ => ([], None)
  end.
Fixpoint write_events (evts : list (Event event_data)) (room : nat) : list bytes :=
  match evts with
  | [] => []
  | evt :: evts =>
      match write_event evt room with
      | (out, Some room) => out ++ write_events evts room
      | (out, None) => out
      end
  end.
Definition run_sse (inputs : list sse_input) (room : nat) : list bytes :=
  write_events (mkEvent (bs "system.connected") 0 {[ bs "ok" := VBool true ]} :: (sse_event <$> inputs)) room.

(** ** The routes *)

Inductive Route :=
| GetLeases | GetLease (ip : bytes) | PostRelease (ip : bytes) | PostLeaseReservation (ip : bytes)
| GetDiscStatus | GetDiscProgress | PostScan | GetScans | GetScan (id : bytes) | GetConflicts | GetRogue
| PostBootstrap | PostLogin | PostLogout | GetMe | PostPassword | GetTokens | PostTokens | DeleteToken (id : bytes)
| GetSubnets | GetSubnetsRaw | PutSubnet | RemoveSubnet
| GetReservations | GetReservation (mac : bytes) | PutReservation | RemoveReservation
| GetAddresses | GetAddress (ip : bytes)
| GetAudit | GetSettings | PutSettings.

(** The handler [RegisterRoutes] gives a route; none when its component is missing. *)
Definition handler_of (st : state) (secure : bool) (route : Route) : option handler :=
  match route with
  | GetLeases => get_leases <$> rt_leases st
  | GetLease ip => (λ s, get_lease s ip) <$> rt_leases st
  | PostRelease ip => (λ s, post_release s ip) <$> rt_leases st
  | PostLeaseReservation ip => s ← rt_leases st; e ← rt_ipam st; Some (post_lease_reservation s e ip)
  | GetDiscStatus => get_disc_status <$> rt_disc st
  | GetDiscProgress => get_disc_progress <$> rt_disc st
  | PostScan => post_scan <$> rt_disc st
  | GetScans => get_scans <$> rt_disc st
  | GetScan id => (λ d, get_scan d id) <$> rt_disc st
  | GetConflicts => get_conflicts <$> rt_disc st
  | GetRogue => get_rogue <$> rt_disc st
  | PostBootstrap => post_bootstrap <$> rt_auth st
  | PostLogin => (λ s, post_login s secure) <$> rt_auth st
  | PostLogout => (λ s, post_logout s secure) <$> rt_auth st
  | GetMe => get_me <$> rt_auth st
  | PostPassword => (λ s, post_password s secure) <$> rt_auth st
  | GetTokens => get_tokens <$> rt_auth st
  | PostTokens => post_tokens <$> rt_auth st
  | DeleteToken id => (λ s, delete_token s id) <$> rt_auth st
  | GetSubnets => get_subnets <$> rt_ipam st
  | GetSubnetsRaw => get_subnets_raw <$> rt_ipam st
  | PutSubnet => put_subnet <$> rt_ipam st
  | RemoveSubnet => remove_subnet <$> rt_ipam st
  | GetReservations => get_reservations <$> rt_ipam st
  | GetReservation mac => (λ e, get_reservation e mac) <$> rt_ipam st
  | PutReservation => put_reservation <$> rt_ipam st
  | RemoveReservation => remove_reservation <$> rt_ipam st
  | GetAddresses => get_addresses <$> rt_ipam st
  | GetAddress ip => (λ e, get_one_address e ip) <$> rt_ipam st
  | GetAudit => get_audit <$> rt_audit st
  | GetSettings => get_settings <$> rt_settings st
  | PutSettings => put_settings <$> rt_settings st
  end.

(** [ServeMux] on the segments of a path without escapes; a segment of a pattern in
    braces takes any segment. *)
Definition fixed_routes : list (string * string * Route) := [
  ("GET", "/api/v1/leases", GetLeases);
  ("GET", "/api/v1/discovery/status", GetDiscStatus);
  ("GET", "/api/v1/discovery/progress", GetDiscProgress);
  ("POST", "/api/v1/discovery/scan", PostScan);
  ("GET", "/api/v1/discovery/results", GetScans);
  ("GET", "/api/v1/discovery/conflicts", GetConflicts);
  ("GET", "/api/v1/discovery/rogue", GetRogue);
  ("POST", "/api/v1/auth/bootstrap", PostBootstrap);
  ("POST", "/api/v1/auth/login", PostLogin);
  ("POST", "/api/v1/auth/logout", PostLogout);
  ("GET", "/api/v1/auth/me", GetMe);
  ("POST", "/api/v1/auth/password", PostPassword);
  ("GET", "/api/v1/auth/tokens", GetTokens);
  ("POST", "/api/v1/auth/tokens", PostTokens);
  ("GET", "/api/v1/subnets", GetSubnets);
  ("GET", "/api/v1/subnets/raw", GetSubnetsRaw);
  ("POST", "/api/v1/subnets", PutSubnet);
  ("PUT", "/api/v1/subnets", PutSubnet);
  ("DELETE", "/api/v1/subnets", RemoveSubnet);
  ("GET", "/api/v1/reservations", GetReservations);
  ("POST", "/api/v1/reservations", PutReservation);
  ("PUT", "/api/v1/reservations", PutReservation);
  ("DELETE", "/api/v1/reservations", RemoveReservation);
  ("GET", "/api/v1/addresses", GetAddresses);
  ("GET", "/api/v1/audit", GetAudit);
  ("GET", "/api/v1/settings/ui", GetSettings);
  ("PUT", "/api/v1/settings/ui", PutSettings)]%string.
Definition value_routes : list (string * string * string * (bytes → Route)) := [
  ("GET", "/api/v1/leases/", "", GetLease);
  ("POST", "/api/v1/leases/", "/release", PostRelease);
  ("POST", "/api/v1/leases/", "/reservation", PostLeaseReservation);
  ("GET", "/api/v1/discovery/results/", "", GetScan);
  ("DELETE", "/api/v1/auth/tokens/", "", DeleteToken);
  ("GET", "/api/v1/reservations/", "", GetReservation);
  ("GET", "/api/v1/addresses/", "", GetAddress)]%string.

Definition method_matches (pattern method : bytes) : bool :=
  bool_decide (method = pattern) || (bool_decide (pattern = bs "GET") && bool_decide (method = bs "HEAD")).
(** The one segment between two parts of a path. *)
Definition path_value (path before after : bytes) : option bytes :=
  if has_prefix path before && has_prefix (reverse (drop (length before) path)) (reverse after) then
    let value := take (length path - length before - length after) (drop (length before) path) in
    if bool_decide (value = []) || bool_decide (slash ∈ value) then None else Some value
  else None.
Definition parse_route (method path : bytes) : option Route :=
  match filter (λ p : string * string * Route, method_matches (bs p.1.1) method && bool_decide (path = bs p.1.2)) fixed_routes with
  | p :: _ => Some p.2
  | [] => head (omap (λ p : string * string * string * (bytes → Route),
            let '(m, before, after, route) := p in
            if method_matches (bs m) method then route <$> path_value path (bs before) (bs after) else None) value_routes)
  end.

(** The routes above, in front of those of the system and of the dashboard. *)
Definition rest_mux (secure : bool) (others : handler) : handler := λ st r c h inp,
  match parse_route (rq_method r) (rq_path r) with
  | Some route => match handler_of st secure route with Some serve => serve st r c h inp | None => others st r c h inp end
  | None => others st r c h inp
  end.
End router.

Example routed : map (λ p : string * string, parse_route (bs p.1) (bs p.2))
    [("PUT", "/api/v1/settings/ui"); ("HEAD", "/api/v1/subnets/raw"); ("POST", "/api/v1/leases/10.0.0.1/release");
     ("GET", "/api/v1/leases/"); ("GET", "/api/v1/leases/a/b"); ("PATCH", "/api/v1/subnets")]%string =
  [Some PutSettings; Some GetSubnetsRaw; Some (PostRelease (bs "10.0.0.1")); None; None; None].
Proof. vm_compute. reflexivity. Qed.
