(* ===== verification/RestTheorems.v ===== *)
(** What the REST server promises: who may change the data, which requests are
    refused before a handler, and which headers of a sender are believed. *)

From S2P Require Import Prelude.
From S2P Require Import GoBytes.
From S2P Require Import GoStrings.
From S2P Require Import GoTime.
From S2P Require Import GoNet.
From S2P Require Import GoSort.
From S2P Require Import GoJson.
From S2P Require Import Wal.
From S2P Require Import StorageEngine.
From S2P Require Import StorageTheorems.
From S2P Require Import Lease.
From S2P Require Import LeaseInterface.
From S2P Require Import Ipam.
From S2P Require Import ConfigValidate.
From S2P Require Import Auth.
From S2P Require Import Events.
From S2P Require Import AuditLog.
From S2P Require Import Discovery.
From S2P Require Import EventData.
From S2P Require Import Metrics.
From S2P Require Import RestHttp.
From S2P Require Import RestAuth.
From S2P Require Import RestRouter.

Create HintDb rest.

(** * What a handler changes *)

Section changes.
Context {S : Type}.

#[global] Instance same_data_equivalence : Equivalence (same_data (S := S)).
Proof.
  split; unfold same_data.
  - intros ?. done.
  - intros ?? (?&?&?&?&?). done.
  - intros ??? (?&?&?&?&?) (?&?&?&?&?). repeat split; congruence.
Qed.
Lemma same_data_refl (st : RestState S) : same_data st st.
Proof. reflexivity. Qed.
Lemma with_service_same (st : RestState S) s : same_data st (with_service st s).
Proof. done. Qed.
End changes.

(** * The chain and who passes it *)

Section gate.
Context `{UnicodeTables} `{UrlParse} `{Bcrypt} `{SliceSort} `{MapRange}.
Context `{Json User} `{Json tokenRecord} `{Json sessionEntry} `{Json (Entry event_data)}.
Context {S : Type} `{LeaseStore S} {A : Type}.
#[local] Abbreviation state := (RestState S).
#[local] Abbreviation reply := (outcome A).
#[local] Abbreviation handler := (Handler (S := S) (A := A)).

Section unless.
(** What two handlers do from the same state is related, or the request is allowed. *)
Context (R : state → state * reply → state * reply → Prop) (allowed : Identity → Prop).

(** Inside the chain: the identity of the context. *)
Definition context_allowed (_ : state) (_ : HttpRequest) (c : Ctx) (_ : RestInputs S) : Prop :=
  cx_enforced c = true → ∃ id, cx_identity c = Some id ∧ allowed id.
(** In front of it: what the request shows. *)
Definition request_allowed (st : state) (r : HttpRequest) (c : Ctx) (inp : RestInputs S) : Prop :=
  ∀ s, rt_auth st = Some s → cx_identity c = None → ∃ id, (resolve_identity s r inp).2 = Some id ∧ allowed id.

Definition unless (ok : state → HttpRequest → Ctx → RestInputs S → Prop) (k k' : handler) : Prop :=
  ∀ st r c h inp, R st (k st r c h inp) (k' st r c h inp) ∨ ok st r c inp.

Definition recovered (p : state * reply) : state * reply :=
  match p with
  | (st, Crash h _) => (st, write_error h 500 "internal_error" (bs "internal server error"))
  | p => p
  end.
Hypothesis same_reply : ∀ st st' o, same_data st st' → R st (st', o) (st', o).
Hypothesis from_same : ∀ st st' p p', same_data st st' → R st' p p' → R st p p'.
Hypothesis recovers : ∀ st p p', R st p p' → R st (recovered p) (recovered p').

(** A middleware in front of authentication allows no more. *)
Definition passes (m : Middleware) : Prop := ∀ k k', unless request_allowed k k' → unless request_allowed (m k) (m k').

Lemma chain_passes ms k k' : Forall passes ms → unless request_allowed k k' → unless request_allowed (chain k ms) (chain k' ms).
Proof. induction 1 as [|m ms Hm _ IH]; cbn; [done|]. intros Hk. apply Hm, IH, Hk. Qed.

(** A middleware that adds to the context or the headers only. *)
Lemma context_passes (m : Middleware) :
  (∀ st r c h inp, ∃ c' h', (∀ k, m k st r c h inp = k st r c' h' inp) ∧ cx_identity c' = cx_identity c) → passes m.
Proof.
  intros Hm k k' Hk st r c h inp. destruct (Hm st r c h inp) as (c' & h' & Em & Hc). rewrite !Em.
  destruct (Hk st r c' h' inp) as [|Hw]; [by left|right]. intros s Hs Hi. apply Hw; congruence.
Qed.
Lemma recovery_passes : passes recovery_middleware.
Proof.
  intros k k' Hk st r c h inp. destruct (Hk st r c h inp) as [Hs|]; [left|by right]. apply recovers in Hs.
  unfold recovery_middleware. by destruct (k st r c h inp) as [? []], (k' st r c h inp) as [? []].
Qed.
Lemma cors_passes origins : passes (cors_middleware origins).
Proof. intros k k' Hk st r c h inp. unfold cors_middleware. case_bool_decide; [left; by apply same_reply|apply Hk]. Qed.
Lemma csrf_passes : passes csrf_middleware.
Proof.
  intros k k' Hk st r c h inp. unfold csrf_middleware. destruct (rt_auth st); [|apply Hk].
  case_match; [left; by apply same_reply|apply Hk].
Qed.
Lemma rate_limit_passes rps : passes (rate_limit_middleware rps).
Proof.
  intros k k' Hk st r c h inp. unfold rate_limit_middleware. destruct (limit _ _ _ _ _) as [ls []]; cbn; [|left; by apply same_reply].
  destruct (Hk (st <| rt_limits := ls |>) r c h inp) as [Hs|]; [left|by right]. revert Hs. by apply from_same.
Qed.
Lemma auth_rate_limit_passes rps : passes (auth_rate_limit_middleware rps).
Proof.
  intros k k' Hk st r c h inp. unfold auth_rate_limit_middleware. destruct (auth_rate_limit_key r); [|apply Hk].
  destruct (limit _ _ _ _ _) as [ls []]; cbn; [|left; by apply same_reply].
  destruct (Hk (st <| rt_auth_limits := ls |>) r c h inp) as [Hs|]; [left|by right]. revert Hs. by apply from_same.
Qed.

(** Authentication turns what the request shows into the identity of the context. *)
Lemma auth_authorizes k k' :
  unless context_allowed k k' → unless request_allowed (auth_middleware true k) (auth_middleware true k').
Proof.
  intros Hk st r c h inp. unfold auth_middleware. destruct (rt_auth st) as [s|] eqn:Hs; cbn; [|right; intros ? ?; congruence].
  case_match.
  - destruct (Hk st r (c <| cx_enforced := true |>) h inp) as [|Hw]; [by left|right]. intros ? ? Hc.
    destruct Hw as (id & E & _); [done|]. cbn in E. congruence.
  - destruct (resolve_identity s r inp) as [s' [id|]] eqn:Er; [|left; by apply same_reply].
    destruct (Hk (st <| rt_auth := Some s' |>) r (c <| cx_enforced := true |> <| cx_identity := Some id |>) h inp) as [Hr|Hw].
    { left. revert Hr. by apply from_same. }
    destruct Hw as (id' & [= <-] & Hid); [done|]. right. intros s0 ? _. assert (s0 = s) as -> by congruence. exists id. by rewrite Er.
Qed.

(** The chain in front of authentication. *)
Definition front_middlewares (s : runtimeSettings) : list (Middleware (S := S) (A := A)) :=
  [request_id_middleware; trusted_proxy_headers_middleware (rs_trusted_proxies s); recovery_middleware;
   security_headers_middleware; cors_middleware (rs_cors_origins s); csrf_middleware;
   auth_rate_limit_middleware (rs_auth_rate_limit s); rate_limit_middleware (rs_rate_limit s)].
Lemma rest_chain_front s k :
  rest_chain s k = chain (auth_middleware (rs_auth_enforced s) k) (front_middlewares s).
Proof. reflexivity. Qed.

Lemma front_passes settings : Forall passes (front_middlewares settings).
Proof.
  unfold front_middlewares. repeat apply Forall_cons_2; [..|apply Forall_nil_2];
    auto using recovery_passes, cors_passes, csrf_passes, rate_limit_passes, auth_rate_limit_passes;
    apply context_passes; intros; do 2 eexists; (split; [intros; reflexivity|done]).
Qed.

(** When authentication is enforced, a chain of these middlewares in front of it allows
    the requests whose identity is allowed. *)
Lemma chain_unless settings front k k' st r h inp s :
  front ⊆ front_middlewares settings → rs_auth_enforced settings = true → rt_auth st = Some s → unless context_allowed k k' →
  R st (chain (auth_middleware (rs_auth_enforced settings) k) front st r background h inp)
    (chain (auth_middleware (rs_auth_enforced settings) k') front st r background h inp) ∨
  ∃ id, (resolve_identity s r inp).2 = Some id ∧ allowed id.
Proof.
  intros Hf -> Hs Hk. pose proof (front_passes settings) as Hp. rewrite Forall_forall in Hp.
  assert (Hc : unless request_allowed (chain (auth_middleware true k) front) (chain (auth_middleware true k') front)).
  { apply chain_passes; [|by apply auth_authorizes]. apply Forall_forall. intros m Hm. by apply Hp, Hf. }
  destruct (Hc st r background h inp) as [|Hw]; [by left|right]. by apply Hw.
Qed.
Lemma rest_chain_unless settings k k' st r h inp s :
  rs_auth_enforced settings = true → rt_auth st = Some s → unless context_allowed k k' →
  R st (rest_chain settings k st r background h inp) (rest_chain settings k' st r background h inp) ∨
  ∃ id, (resolve_identity s r inp).2 = Some id ∧ allowed id.
Proof. rewrite !rest_chain_front. by apply chain_unless. Qed.
End unless.

Definition holds (role : bytes) (id : Identity) : Prop := has_role role (id_role id) = true.

(** Unless [ok] allows it, the handler keeps the data. *)
Definition kept (st : state) (p _ : state * reply) : Prop := same_data st p.1.
Definition changes_only (ok : state → HttpRequest → Ctx → RestInputs S → Prop) (k : handler) : Prop := unless kept ok k k.

Lemma kept_recovers st p p' : kept st p p' → kept st (recovered p) (recovered p').
Proof. by destruct p as [? []]. Qed.
Lemma kept_from st st' p p' : same_data st st' → kept st' p p' → kept st p p'.
Proof. unfold kept. by intros ->. Qed.

(** When authentication is enforced, a request changes the data only as an operator. *)
Lemma front_writes_authorized settings front k st r h inp s :
  front ⊆ front_middlewares settings → rs_auth_enforced settings = true → rt_auth st = Some s →
  changes_only (context_allowed (holds DefaultRoleOperator)) k →
  same_data st (chain (auth_middleware (rs_auth_enforced settings) k) front st r background h inp).1 ∨
  ∃ id, (resolve_identity s r inp).2 = Some id ∧ has_role DefaultRoleOperator (id_role id) = true.
Proof.
  intros Hf He Hs Hk. exact (chain_unless kept (holds DefaultRoleOperator) (λ _ _ _ Hd, Hd) kept_from kept_recovers
    settings front k k st r h inp s Hf He Hs Hk).
Qed.
Lemma chain_writes_authorized settings k st r h inp s :
  rs_auth_enforced settings = true → rt_auth st = Some s → changes_only (context_allowed (holds DefaultRoleOperator)) k →
  same_data st (rest_chain settings k st r background h inp).1 ∨
  ∃ id, (resolve_identity s r inp).2 = Some id ∧ has_role DefaultRoleOperator (id_role id) = true.
Proof. rewrite rest_chain_front. by apply front_writes_authorized. Qed.
End gate.

Section rest.
Context `{UnicodeTables} `{UrlParse} `{Bcrypt} `{SliceSort} `{MapRange} `{HttpTime} `{EmptyDecoder} `{AuditExport} `{TimeText}.
Context `{Json User} `{Json tokenRecord} `{Json sessionEntry} `{Json (Entry event_data)}.
Context `{Json Subnet} `{Json Reservation} `{Json AddressRecord} `{Json UISettings}.
Context `{Json ScanResult} `{Json (gmap bytes ObservedHost)} `{Json (list RogueServer)} `{Json (Event event_data)}.
Context `{JsonDecoder loginRequest} `{JsonDecoder passwordChangeRequest} `{JsonDecoder createTokenRequest}.
Context `{JsonDecoder UpsertSubnetInput} `{JsonDecoder UpsertReservationInput} `{JsonDecoder ScanRequest} `{JsonDecoder UISettings}.
Context {S : Type} `{LeaseStore S}.
#[local] Abbreviation state := (RestState S).
#[local] Abbreviation reply := (outcome rest_data).
#[local] Abbreviation handler := (Handler (S := S) (A := rest_data)).
#[local] Abbreviation context_writer := (context_allowed (holds DefaultRoleOperator)).

(** What a request did keeps the data of [st]. *)
Definition keeps (st : state) (p : state * reply) : Prop := same_data st p.1.

Lemma keeps_reply st st' out : same_data st st' → keeps st (st', out).
Proof. done. Qed.
Lemma or_error_keeps {T : Type} st0 st h (res : result T) status code message k :
  same_data st0 st → (∀ v, keeps st0 (k v)) → keeps st0 (or_error st h res status code message k).
Proof. intros ??. by destruct res; cbn. Qed.
Lemma auth_fail_keeps st0 st h endpoint outcome status code message :
  same_data st0 st → keeps st0 (auth_fail st h endpoint outcome status code message).
Proof. done. Qed.
Lemma require_local_keeps st0 st s h endpoint k :
  same_data st0 st → keeps st0 k → keeps st0 (require_local st s h endpoint k).
Proof. intros ??. unfold require_local. by case_match. Qed.
Lemma with_payload_keeps {T : Type} `{JsonDecoder T} st0 st r h endpoint (k : T → state * reply) :
  same_data st0 st → (∀ v, keeps st0 (k v)) → keeps st0 (with_payload st r h endpoint k).
Proof. intros ??. unfold with_payload. by destruct (decode_json_body _); cbn. Qed.
Lemma password_failure_keeps st0 st r c h endpoint who a1 a2 m e inp :
  same_data st0 st → keeps st0 (password_failure st r c h endpoint who a1 a2 m e inp).
Proof. intros ?. unfold password_failure. by case_match. Qed.
Lemma with_role_service_keeps st0 st s required r c h inp k :
  same_data st0 st → (∀ s st', same_data st0 st' → keeps st0 (k s st')) →
  keeps st0 (require_role_with_service s required st r c h inp k).
Proof.
  intros ? Hk. unfold require_role_with_service. destruct (own_identity _ _ _ _) as [s' [id|]]; [|done].
  case_match; [done|]. by apply Hk.
Qed.

(** One step through a handler that is not to change the data. *)
Ltac keeps_step :=
  match goal with
  | |- keeps _ (or_error _ _ _ _ _ _ _) => apply or_error_keeps; [done|intros ?]
  | |- keeps _ (auth_fail _ _ _ _ _ _ _) => apply auth_fail_keeps; done
  | |- keeps _ (require_local _ _ _ _ _) => apply require_local_keeps; [done|]
  | |- keeps _ (with_payload _ _ _ _ _) => apply with_payload_keeps; [done|intros ?]
  | |- keeps _ (password_failure _ _ _ _ _ _ _ _ _ _ _) => apply password_failure_keeps; done
  | |- keeps _ (require_role_with_service _ _ _ _ _ _ _ _) => apply with_role_service_keeps; [done|intros ???]
  | |- keeps _ (_, _) => apply keeps_reply; done
  | |- keeps _ (let '(_, _) := ?e in _) => destruct e
  | |- keeps _ (match ?e with _ => _ end) => destruct e
  end.
Ltac keeps := repeat (cbv beta zeta; keeps_step).

Lemma auth_routes_keep st r c h inp s secure id :
  keeps st (post_bootstrap s st r c h inp) ∧ keeps st (post_login s secure st r c h inp) ∧
  keeps st (post_logout s secure st r c h inp) ∧ keeps st (get_me s st r c h inp) ∧
  keeps st (post_password s secure st r c h inp) ∧ keeps st (get_tokens s st r c h inp) ∧
  keeps st (post_tokens s st r c h inp) ∧ keeps st (delete_token s id st r c h inp).
Proof.
  unfold post_bootstrap, post_login, post_logout, get_me, post_password, get_tokens, post_tokens, delete_token.
  split_and!; keeps.
Qed.


Lemma audit_reply_keeps st0 st h format entries now : same_data st0 st → keeps st0 (audit_reply st h format entries now).
Proof. intros ?. unfold audit_reply. keeps. Qed.

(** The routes whose handler asks for the role of an operator first. *)
Definition operator_route (route : Route) : bool :=
  match route with
  | PostRelease _ | PostLeaseReservation _ | PostScan | PutSubnet | RemoveSubnet | PutReservation | RemoveReservation
  | PutSettings => true
  | _ => false
  end.

Lemma read_routes_keep st0 secure route k st r c h inp :
  operator_route route = false → handler_of st0 secure route = Some k → keeps st (k st r c h inp).
Proof.
  destruct route; try done; intros _ (?&_&->)%fmap_Some; try (by unshelve eapply auth_routes_keep; exact [] || exact true);
    cbv beta delta [get_leases get_lease get_disc_status get_disc_progress get_scans get_scan get_conflicts get_rogue
      get_subnets get_subnets_raw get_reservations get_reservation get_addresses get_one_address get_audit get_settings
      admin with_role]; keeps.
  by apply audit_reply_keeps.
Qed.

Lemma operator_routes_guard st0 secure route k :
  operator_route route = true → handler_of st0 secure route = Some k → ∃ k', k = operator k'.
Proof.
  destruct route; try done; intros _; cbn;
    first [intros (?&_&->)%fmap_Some | intros (?&_&(?&_&[= <-])%bind_Some)%bind_Some]; eexists; reflexivity.
Qed.


(** * Who changes the data *)

(** The guard of a role lets the allowed requests through. *)
Lemma role_guards role k st r c h inp :
  (∃ out, ∀ k', with_role role k' st r c h inp = (st, out)) ∨
  with_role role k st r c h inp = k st r c h inp ∧ context_allowed (holds role) st r c inp.
Proof.
  unfold with_role, require_role, context_allowed. destruct (cx_identity c) as [id|].
  - destruct (has_role _ _) eqn:E'; [right; split; [done|eauto]|left; by eexists].
  - destruct (cx_enforced c); [left; by eexists|by right].
Qed.
Lemma operator_changes_only k : changes_only context_writer (operator k).
Proof. intros st r c h inp. destruct (role_guards DefaultRoleOperator k st r c h inp) as [[out E]|[_ ?]]; [|by right]. left. unfold kept, operator. by rewrite (E k). Qed.

Lemma mux_changes_only secure others :
  changes_only context_writer others → changes_only context_writer (rest_mux secure others).
Proof.
  intros Ho st r c h inp. unfold rest_mux. destruct (parse_route _ _) as [route|]; [|apply Ho].
  destruct (handler_of st secure route) as [k|] eqn:E; [|apply Ho].
  destruct (operator_route route) eqn:Er.
  - destruct (operator_routes_guard _ _ _ _ Er E) as [k' ->]. apply operator_changes_only.
  - left. by eapply read_routes_keep.
Qed.

(** * Requests that reach no handler *)

Section stopped.
Context (s : Service) (r : HttpRequest) (inp : RestInputs S).

(** The reply is a refusal that does not depend on the handler. *)
Definition stopped (f : handler → handler) : Prop :=
  ∀ st c h, rt_auth st = Some s → ∃ st' status h' b, status ∈ [204; 401; 403; 429] ∧ ∀ k, f k st r c h inp = (st', Reply status h' b).
Definition stays_stopped (m : Middleware) : Prop := ∀ f, stopped f → stopped (λ k, m (f k)).

Lemma chain_stopped ms f : Forall stays_stopped ms → stopped f → stopped (λ k, chain (f k) ms).
Proof. induction 1 as [|m ms Hm _ IH]; [done|]. intros Hf. by apply (Hm (λ k, chain (f k) ms)), IH. Qed.

Lemma context_stopped (m : Middleware) :
  (∀ st c h, ∃ c' h', ∀ k, m k st r c h inp = k st r c' h' inp) → stays_stopped m.
Proof.
  intros Hm f Hf st c h Hs. destruct (Hm st c h) as (c' & h' & E).
  destruct (Hf st c' h' Hs) as (st' & status & h'' & b & Hin & Ek).
  exists st', status, h'', b. split; [done|]. intros k. by rewrite E.
Qed.
Lemma recovery_stopped : stays_stopped recovery_middleware.
Proof.
  intros f Hf st c h Hs. destruct (Hf st c h Hs) as (st' & status & h' & b & Hin & Ek).
  exists st', status, h', b. split; [done|]. intros k. unfold recovery_middleware. by rewrite Ek.
Qed.
Ltac refuse := do 4 eexists; split; [|intros k; reflexivity]; set_solver.
Lemma cors_stopped origins : stays_stopped (cors_middleware origins).
Proof. intros f Hf st c h Hs. unfold cors_middleware. case_bool_decide; [refuse|by apply Hf]. Qed.
Lemma csrf_stopped : stays_stopped csrf_middleware.
Proof. intros f Hf st c h Hs. unfold csrf_middleware. rewrite Hs. case_match; [refuse|by apply Hf]. Qed.
Lemma rate_limit_stopped rps : stays_stopped (rate_limit_middleware rps).
Proof.
  intros f Hf st c h Hs. unfold rate_limit_middleware. destruct (limit _ _ _ _ _) as [ls []]; cbn; [by apply Hf|refuse].
Qed.
Lemma auth_rate_limit_stopped rps : stays_stopped (auth_rate_limit_middleware rps).
Proof.
  intros f Hf st c h Hs. unfold auth_rate_limit_middleware. destruct (auth_rate_limit_key r); [|by apply Hf].
  destruct (limit _ _ _ _ _) as [ls []]; cbn; [by apply Hf|refuse].
Qed.
End stopped.

(** When authentication is enforced, a request without a valid token or session that
    is not for the health, the login or the bootstrap reaches no handler: whatever the
    routes are, the reply is the same refusal (or the answer to a preflight). *)
Theorem anonymous_reaches_no_handler settings st r h inp s :
  rs_auth_enforced settings = true → rt_auth st = Some s → is_public_auth_path (rq_path r) = false →
  (resolve_identity s r inp).2 = None →
  ∃ st' status h' b, status ∈ [204; 401; 403; 429] ∧
    ∀ k : handler, rest_chain settings k st r background h inp = (st', Reply status h' b).
Proof.
  intros He Hs Hp Hr.
  apply (chain_stopped s r inp (front_middlewares settings) (auth_middleware (rs_auth_enforced settings))); [| |done].
  - unfold front_middlewares. repeat apply Forall_cons_2; [..|apply Forall_nil_2];
      auto using recovery_stopped, cors_stopped, csrf_stopped, rate_limit_stopped, auth_rate_limit_stopped;
      apply context_stopped; intros; do 2 eexists; done.
  - intros st0 c h0 Hs0. unfold auth_middleware. rewrite Hs0, He, Hp. cbn.
    destruct (resolve_identity s r inp) as [s' [id|]]; [done|]. do 4 eexists. split; [|done]. set_solver.
Qed.

(** * Requests from other sites *)

(** The context of a request when the CSRF middleware sees it. *)
Definition front_context (settings : runtimeSettings) (r : HttpRequest) (inp : RestInputs S) : Ctx :=
  mkCtx (fmt_base36 (unix_nano (ri_request_now inp)))
    (is_trusted (new_trusted_proxy_matcher (rs_trusted_proxies settings)) (rq_remote_addr r)) false None.

(** The request comes from another site: by its origin, or, when it has none, by
    what the browser says. *)
Definition from_other_site (c : Ctx) (r : HttpRequest) : Prop :=
  let origin := trim_space (get_header r "Origin") in
  let site := to_lower (trim_space (get_header r "Sec-Fetch-Site")) in
  if decide (origin = []) then site ∉ [[]; bs "none"; bs "same-origin"; bs "same-site"]
  else origin_matches c r origin = false.

Lemma csrf_trusted c r : is_trusted_csrf_request c r = false ↔ from_other_site c r.
Proof.
  unfold is_trusted_csrf_request, is_cross_site_fetch, from_other_site. cbv zeta.
  destruct (decide (trim_space (get_header r "Origin") = [])) as [E|E].
  - rewrite (bool_decide_eq_true_2 (trim_space _ = [])) by done. by case_bool_decide.
  - rewrite (bool_decide_eq_false_2 (trim_space _ = [])) by done.
    destruct (bool_decide _), (origin_matches _ _ _); done.
Qed.

Lemma csrf_refused_spec s c r :
  csrf_refused s c r = true ↔
  rq_method r ∈ map bs ["POST"; "PUT"; "PATCH"; "DELETE"]%string ∧ is_Some (rq_cookies r !! svc_cookie_name s) ∧ from_other_site c r.
Proof.
  unfold csrf_refused, is_unsafe_method. rewrite !andb_true_iff, !bool_decide_eq_true, negb_true_iff, csrf_trusted. tauto.
Qed.

(** C28: A request that writes, carries the session cookie and comes from another site is
    answered 403 by every chain, reaches no handler and changes no data. *)
Theorem cross_site_writes_refused settings st r h inp s :
  rt_auth st = Some s → rq_method r ∈ map bs ["POST"; "PUT"; "PATCH"; "DELETE"]%string →
  is_Some (rq_cookies r !! svc_cookie_name s) → from_other_site (front_context settings r inp) r →
  ∃ st' h', same_data st st' ∧ rt_auth st' = Some s ∧
    ∀ k : handler, rest_chain settings k st r background h inp =
      (st', Reply 403 h' (BodyError "csrf_rejected" (bs "cross-site session request rejected"))).
Proof.
  intros Hs Hm Hc Ho. assert (E : csrf_refused s (front_context settings r inp) r = true) by by apply csrf_refused_spec.
  assert (Hopt : rq_method r ≠ bs "OPTIONS") by (intros E'; rewrite E' in Hm; vm_compute in Hm; set_solver).
  do 2 eexists. split_and!; [..|intros k].
  3: { rewrite rest_chain_front. cbn [chain front_middlewares foldr].
       unfold request_id_middleware at 1, trusted_proxy_headers_middleware at 1, recovery_middleware at 1,
         security_headers_middleware at 1, cors_middleware at 1, csrf_middleware at 1. cbv beta zeta.
       rewrite (bool_decide_eq_false_2 (rq_method r = _)) by done.
       rewrite Hs. change (_ <| cx_trusted := _ |>) with (front_context settings r inp).
       rewrite E. reflexivity. }
  all: done.
Qed.

(** * The headers of a proxy *)

Definition with_headers (r : HttpRequest) (hs : headers) : HttpRequest :=
  mkHttpRequest (rq_method r) (rq_path r) (rq_host r) (rq_remote_addr r) (rq_tls r) hs (rq_cookies r) (rq_query r)
    (rq_content_length r) (rq_body r).
Definition forwarded_headers : list bytes := map bs ["X-Forwarded-For"; "X-Forwarded-Host"; "X-Forwarded-Proto"]%string.

Section forwarded.
Context (r : HttpRequest) (hs : headers).
Hypothesis same : ∀ name, name ∉ forwarded_headers → hs !! name = rq_headers r !! name.
#[local] Abbreviation r' := (with_headers r hs).

Lemma get_header_same name : bs name ∉ forwarded_headers → get_header r' name = get_header r name.
Proof. intros Hn. unfold get_header. cbn. by rewrite same. Qed.
Ltac header := apply get_header_same, (bool_decide_unpack _); vm_compute; exact I.
Lemma origin_same : get_header r' "Origin" = get_header r "Origin". Proof. header. Qed.
Lemma site_same : get_header r' "Sec-Fetch-Site" = get_header r "Sec-Fetch-Site". Proof. header. Qed.
Lemma agent_same : get_header r' "User-Agent" = get_header r "User-Agent". Proof. header. Qed.
Lemma authorization_same : get_header r' "Authorization" = get_header r "Authorization". Proof. header. Qed.

Section untrusted.
Context (c : Ctx) (Hc : cx_trusted c = false).
Lemma client_ip_same : client_ip c r' = client_ip c r.
Proof. unfold client_ip. by rewrite Hc. Qed.
Lemma request_host_same : request_host c r' = request_host c r.
Proof. unfold request_host. by rewrite Hc. Qed.
Lemma is_https_same : is_https_request c r' = is_https_request c r.
Proof. unfold is_https_request. by rewrite Hc. Qed.
Lemma origin_matches_same origin : origin_matches c r' origin = origin_matches c r origin.
Proof. unfold origin_matches. by rewrite request_host_same, is_https_same. Qed.
Lemma csrf_refused_same s : csrf_refused s c r' = csrf_refused s c r.
Proof.
  unfold csrf_refused, is_trusted_csrf_request, is_cross_site_fetch. by rewrite origin_same, site_same, origin_matches_same.
Qed.
Lemma security_meta_same meta : security_meta r' c meta = security_meta r c meta.
Proof. unfold security_meta. by rewrite client_ip_same, agent_same. Qed.
Lemma resolve_identity_same s inp : resolve_identity (S := S) s r' inp = resolve_identity s r inp.
Proof. unfold resolve_identity. by rewrite authorization_same. Qed.
End untrusted.

(** Two handlers do the same, one on each request. *)
Definition agree (k k' : handler) : Prop :=
  ∀ st c h inp, cx_trusted c = false → k st r' c h inp = k' st r c h inp.
Definition stays_agree (m : Middleware) : Prop := ∀ k k', agree k k' → agree (m k) (m k').

Lemma chain_agree ms k : Forall stays_agree ms → agree k k → agree (chain k ms) (chain k ms).
Proof. induction 1 as [|m ms Hm _ IH]; [done|]. intros Hk. apply Hm, IH, Hk. Qed.

Lemma request_id_agree : stays_agree request_id_middleware.
Proof. intros k k' Hk st c h inp Hc. by apply Hk. Qed.
Lemma recovery_agree : stays_agree recovery_middleware.
Proof. intros k k' Hk st c h inp Hc. unfold recovery_middleware. by rewrite (Hk st c h inp Hc). Qed.
Lemma security_agree : stays_agree security_headers_middleware.
Proof. intros k k' Hk st c h inp Hc. unfold security_headers_middleware. rewrite is_https_same by done. by apply Hk. Qed.
Lemma cors_agree origins : stays_agree (cors_middleware origins).
Proof.
  intros k k' Hk st c h inp Hc. unfold cors_middleware. rewrite origin_same. cbn [rq_method with_headers].
  case_bool_decide; [done|]. by apply Hk.
Qed.
Lemma csrf_agree : stays_agree csrf_middleware.
Proof.
  intros k k' Hk st c h inp Hc. unfold csrf_middleware, log_security_audit_entry. destruct (rt_auth st); [|by apply Hk].
  rewrite csrf_refused_same, security_meta_same by done. case_match; [done|]. by apply Hk.
Qed.
Lemma auth_rate_limit_agree rps : stays_agree (auth_rate_limit_middleware rps).
Proof.
  intros k k' Hk st c h inp Hc. unfold auth_rate_limit_middleware, log_security_audit_entry.
  change (auth_rate_limit_key r') with (auth_rate_limit_key r). destruct (auth_rate_limit_key r); [|by apply Hk].
  rewrite security_meta_same by done. cbn [rq_remote_addr with_headers].
  destruct (limit _ _ _ _ _) as [ls []]; cbn; [by apply Hk|done].
Qed.
Lemma rate_limit_agree rps : stays_agree (rate_limit_middleware rps).
Proof.
  intros k k' Hk st c h inp Hc. unfold rate_limit_middleware. cbn [rq_remote_addr with_headers].
  destruct (limit _ _ _ _ _) as [ls []]; cbn; [by apply Hk|done].
Qed.
Lemma auth_agree enforced : stays_agree (auth_middleware enforced).
Proof.
  intros k k' Hk st c h inp Hc. unfold auth_middleware. destruct (rt_auth st); [|by apply Hk].
  destruct enforced; cbn; [|by apply Hk]. case_match; [by apply Hk|]. rewrite resolve_identity_same.
  destruct (resolve_identity _ _ _) as [s' [id|]]; [by apply Hk|done].
Qed.

Lemma route_agree st0 secure route k : handler_of st0 secure route = Some k → agree k k.
Proof.
  destruct route; cbn; first [intros (?&_&->)%fmap_Some | intros (?&_&(?&_&[= <-])%bind_Some)%bind_Some];
    intros st c h inp Hc; try reflexivity;
    cbv beta delta [post_login get_me post_password get_tokens post_tokens delete_token require_role_with_service own_identity
      password_failure log_security_audit_entry];
    rewrite ?resolve_identity_same; try reflexivity.
  all: unfold security_meta; rewrite (client_ip_same c Hc), agent_same; reflexivity.
Qed.
Lemma mux_agree secure others : agree others others → agree (rest_mux secure others) (rest_mux secure others).
Proof.
  intros Ho st c h inp Hc. unfold rest_mux. cbn [rq_method rq_path with_headers].
  destruct (parse_route _ _) as [route|]; [|by apply Ho].
  destruct (handler_of st secure route) as [k|] eqn:E; [|by apply Ho]. by eapply route_agree.
Qed.
End forwarded.

(** C29: What a sender that is not a trusted proxy says in the X-Forwarded headers has no
    effect: the reply, the state, the log and the metrics are those of the request
    without it. *)
Theorem forwarded_headers_ignored settings secure others st r hs h inp :
  is_trusted (new_trusted_proxy_matcher (rs_trusted_proxies settings)) (rq_remote_addr r) = false →
  (∀ name, name ∉ forwarded_headers → hs !! name = rq_headers r !! name) →
  agree r hs others others →
  rest_chain settings (rest_mux secure others) st (with_headers r hs) background h inp =
  rest_chain settings (rest_mux secure others) st r background h inp.
Proof.
  intros Ht Hs Ho.
  assert (Hc : agree r hs (chain (auth_middleware (rs_auth_enforced settings) (rest_mux secure others)) (drop 2 (front_middlewares settings)))
                 (chain (auth_middleware (rs_auth_enforced settings) (rest_mux secure others)) (drop 2 (front_middlewares settings)))).
  { apply chain_agree; [|by apply auth_agree, mux_agree]. cbn. repeat apply Forall_cons_2; [..|apply Forall_nil_2];
      auto using recovery_agree, security_agree, cors_agree, csrf_agree, rate_limit_agree, auth_rate_limit_agree. }
  rewrite rest_chain_front. unfold front_middlewares in *. cbn in *.
  apply Hc. exact Ht.
Qed.
End rest.

(** * Witnesses *)

#[local] Existing Instance ascii_tables.
#[local] Existing Instance small_slices.
#[local] Existing Instance listed_range.

Definition split_urls : UrlParse := {|
  url_parse s := match split_byte s slash with
                 | [scheme; []; host] => Some (take (length scheme - 1) scheme, host)
                 | _ => None
                 end
|}.
#[local] Existing Instance split_urls.
Definition plain_bcrypt : Bcrypt.
Proof. refine {| bcrypt_generate := λ password _, Ok password; bcrypt_compare := λ h password, bool_decide (h = password) |}.
  intros password salt h [= <-]. by apply bool_decide_eq_true.
Defined.
#[local] Existing Instance plain_bcrypt.
(** A codec that takes nothing. *)
Definition no_json {T : Type} : Json T.
Proof. refine {| marshal := λ _, Err (errorNew "json"); unmarshal := λ _, Err (errorNew "json"); json_ok := λ _, False |}; done. Defined.
#[local] Existing Instance no_json.
Definition no_decoder {T : Type} : JsonDecoder T := {| json_decode _ := Err (errorNew "json") |}.
#[local] Existing Instance no_decoder.
#[local] Instance empty_decoder : EmptyDecoder := {| json_decode_empty _ := Err (ErrIO "EOF") |}.
#[local] Instance number_http_time : HttpTime := {| http_time := fmt_d |}.
#[local] Instance no_export : AuditExport :=
  {| parse_rfc3339 _ := None; rfc3339 := fmt_d; file_stamp := fmt_d; entries_indent _ := Ok []; data_text _ := [] |}.
#[local] Instance number_times : TimeText.
Proof. refine {| time_marshal := λ t, Ok (fmt_d t); time_unmarshal := λ _, None; time_text_ok := λ _, False |}; done. Defined.
#[local] Instance no_leases : LeaseStore () := {|
  ls_env := (); ls_now _ := 0; ls_upsert s _ _ := (s, None); ls_delete s _ _ := (s, None);
  ls_upsert_silent s _ _ := (s, None); ls_delete_silent s _ _ := (s, None); ls_get_by_ip _ _ := Err ErrNotFound;
  ls_get_by_mac _ _ := Ok []; ls_get_by_client_id _ _ := Ok []; ls_list_by_subnet _ _ := Ok [];
  ls_list_expiring_before _ _ := Ok []; ls_list_all _ := Ok [] |}.

Definition demo_identity : Identity := mkIdentity (bs "ops") (bs "operator") (bs "session") [].
Definition demo_service : Service :=
  mkService demo_engine (mkSessionManager {[ bs "s1" := mkSessionEntry demo_identity (hour) ]} hour)
    (new_lockout_tracker 5 hour) (bs "local") (bs "sid").
Definition demo_disc : DiscEngine :=
  mkDiscEngine demo_engine hour (mkDiscOptions [] [] 0 0 0) false 0 0 [] [] zero_progress.
Definition demo_env : write_env := mkWriteEnv minute minute [].
Definition demo_inputs : RestInputs () := mkRestInputs () _
  minute minute minute minute minute demo_env demo_env demo_env demo_env () (Ok []) (Ok []) [] minute [] (bs "scan1") (λ _, []) minute
  demo_env (Ok []).
Definition demo_state : RestState () := mkRestState () None None (Some demo_disc) (Some demo_service) None None None None ∅ ∅.
Definition demo_settings : runtimeSettings := mkRuntimeSettings [] [bs "10.0.0.1"] 10 10 true true.
Definition demo_request (host cookie : string) (origin : string) : HttpRequest :=
  mkHttpRequest (bs "POST") (bs "/api/v1/discovery/scan") (bs "dhcp.lan") (bs host)
    false {[ bs "Origin" := bs origin ]} {[ bs "sid" := bs cookie ]} ∅ 0 [].
Definition not_found : Handler (S := ()) (A := rest_data) := λ st r c h inp, (st, Reply 404 h BodyEmpty).
Definition demo_serve (r : HttpRequest) : RestState () * outcome rest_data :=
  rest_chain demo_settings (rest_mux true not_found) demo_state r background ∅ demo_inputs.

(** The session of an operator from the own site is served and starts a scan; the one
    of another site is refused, and so is a request without a session. *)
Example demo_served :
  let status (p : RestState () * outcome rest_data) := match p.2 with Reply n _ _ => n | Crash _ _ => 0 end in
  map (λ r, status (demo_serve r))
    [demo_request "10.0.0.9:1" "s1" "http://dhcp.lan"; demo_request "10.0.0.9:1" "s1" "http://evil.test";
     demo_request "10.0.0.9:1" "s2" "http://dhcp.lan"]%string = [202; 403; 401] ∧
  dn_scanning <$> rt_disc (demo_serve (demo_request "10.0.0.9:1" "s1" "http://dhcp.lan")).1 = Some true.
Proof. vm_compute. done. Qed.

Lemma anonymous_reaches_no_handler_witness :
  let r := demo_request "10.0.0.9:1" "s2" "http://dhcp.lan" in
  ∃ st' status h' b, status ∈ [204; 401; 403; 429] ∧
    ∀ k : Handler (S := ()) (A := rest_data), rest_chain demo_settings k demo_state r background ∅ demo_inputs = (st', Reply status h' b).
Proof.
  refine (anonymous_reaches_no_handler demo_settings demo_state _ ∅ demo_inputs demo_service eq_refl eq_refl _ _);
    vm_compute; reflexivity.
Defined.

Lemma demo_method : bs "POST" ∈ map bs ["POST"; "PUT"; "PATCH"; "DELETE"]%string.
Proof. by left. Qed.
Lemma demo_other_site :
  from_other_site (front_context demo_settings (demo_request "10.0.0.9:1" "s1" "http://evil.test") demo_inputs)
    (demo_request "10.0.0.9:1" "s1" "http://evil.test").
Proof. vm_compute. reflexivity. Qed.
Lemma demo_cookie : is_Some (rq_cookies (demo_request "10.0.0.9:1" "s1" "http://evil.test") !! bs "sid").
Proof. vm_compute. eauto. Qed.

Lemma cross_site_writes_refused_witness :
  let r := demo_request "10.0.0.9:1" "s1" "http://evil.test" in
  ∃ st' h', same_data demo_state st' ∧ rt_auth st' = Some demo_service ∧
    ∀ k : Handler (S := ()) (A := rest_data), rest_chain demo_settings k demo_state r background ∅ demo_inputs =
      (st', Reply 403 h' (BodyError "csrf_rejected" (bs "cross-site session request rejected"))).
Proof.
  exact (cross_site_writes_refused demo_settings demo_state (demo_request "10.0.0.9:1" "s1" "http://evil.test") ∅ demo_inputs demo_service eq_refl demo_method demo_cookie demo_other_site).
Defined.

(** A sender that claims another address, host and scheme. *)
Definition demo_forged : gmap bytes bytes :=
  <[bs "X-Forwarded-For" := bs "127.0.0.1"]> (<[bs "X-Forwarded-Host" := bs "evil.test"]>
    (<[bs "X-Forwarded-Proto" := bs "https"]> {[ bs "Origin" := bs "http://evil.test" ]})).
Lemma demo_forged_same name : name ∉ forwarded_headers →
  demo_forged !! name = rq_headers (demo_request "10.0.0.9:1" "s1" "http://evil.test") !! name.
Proof.
  unfold demo_forged, forwarded_headers. cbn [map]. rewrite !not_elem_of_cons. intros (?&?&?&_).
  by rewrite !lookup_insert_ne by congruence.
Qed.
Lemma not_found_agrees r hs : agree r hs not_found not_found.
Proof. done. Qed.
Lemma forwarded_headers_ignored_witness :
  demo_serve (with_headers (demo_request "10.0.0.9:1" "s1" "http://evil.test") demo_forged) =
  demo_serve (demo_request "10.0.0.9:1" "s1" "http://evil.test").
Proof.
  refine (forwarded_headers_ignored demo_settings true not_found demo_state _ demo_forged ∅ demo_inputs _ demo_forged_same
            (not_found_agrees _ _)).
  vm_compute. reflexivity.
Defined.
