(* ===== verification/RestSystem.v ===== *)
(** internal/api/rest/router.go: the routes of the system and of failover, the health
    of the server, and the masking of secrets in a configuration that is shown.

    What the routes call in cmd/monsoon is a record of callbacks ([SystemDeps]); a nil
    callback is [None].  A callback may change the whole state. *)

From S2P Require Import Prelude.
From S2P Require Import GoBytes.
From S2P Require Import GoStrings.
From S2P Require Import GoTime.
From S2P Require Import GoJson.
From S2P Require Import GoNet.
From S2P Require Import GoPort.
From S2P Require Import GoSort.
From S2P Require Import ConfigTypes.
From S2P Require Import ConfigValidate.
From S2P Require Import Wal.
From S2P Require Import StorageEngine.
From S2P Require Import Lease.
From S2P Require Import LeaseInterface.
From S2P Require Import Ipam.
From S2P Require Import Auth.
From S2P Require Import Events.
From S2P Require Import AuditLog.
From S2P Require Import Discovery.
From S2P Require Import EventData.
From S2P Require Import Metrics.
From S2P Require Import RestHttp.
From S2P Require Import RestAuth.
From S2P Require Import RestRouter.
From S2P Require Import RestTheorems.

(** * Secrets *)

Section secrets.
Context `{UnicodeTables}.

Definition secret_markers : list string :=
  ["password"; "secret"; "hash"; "token"; "client_secret"; "private_key"; "privatekey"; "api_key"; "apikey"; "credential"]%string.
Definition is_sensitive_config_key (key : bytes) : bool :=
  let key_lower := to_lower (trim_space key) in existsb (λ marker, contains key_lower (bs marker)) secret_markers.

Definition masked : bytes := bs "***".
(** What masking does to a member before it looks inside. *)
Definition secret_text (key : bytes) (item : json) : bool :=
  match item with JString s => is_sensitive_config_key key && negb (bool_decide (trim_space s = [])) | _ => false end.
Fixpoint mask_secrets (value : json) : json :=
  match value with
  | JObject members => JObject (map (λ m, (m.1, if secret_text m.1 m.2 then JString masked else mask_secrets m.2)) members)
  | JArray items => JArray (map mask_secrets items)
  | v => v
  end.
End secrets.

(** The text of a number after it was a [float64]. *)
Class JsonNumbers := { reread_number : bytes → bytes }.
Fixpoint reread `{JsonNumbers} (value : json) : json :=
  match value with
  | JNumber text => JNumber (reread_number text)
  | JArray items => JArray (map reread items)
  | JObject members => JObject (map (λ m, (m.1, reread m.2)) members)
  | v => v
  end.
Definition sanitize_config_snapshot `{UnicodeTables} `{JsonNumbers} (input : json) : json := mask_secrets (reread input).

(** ** The JSON of a configuration: its fields under their Go names *)

Definition json_text (key : string) (s : bytes) : bytes * json := (bs key, JString s).
Definition json_bool (key : string) (b : bool) : bytes * json := (bs key, JBool b).
Definition json_int (key : string) (z : Z) : bytes * json := (bs key, JNumber (fmt_d z)).
Definition json_strings (key : string) (l : list bytes) : bytes * json := (bs key, JArray (JString <$> l)).
Definition json_object (key : string) (members : list (bytes * json)) : bytes * json := (bs key, JObject members).
(** A [config.Duration] embeds [time.Duration]. *)
Definition json_duration (key : string) (d : duration) : bytes * json := json_object key [json_int "Duration" d].

(** A nil list, which is null in the code, and an empty one are the same here. *)
Definition subnet_json (s : SubnetConfig) : json :=
  JObject [json_text "CIDR" (sc_cidr s); json_text "Name" (sc_name s); json_int "VLAN" (sc_vlan s);
    json_text "Gateway" (sc_gateway s); json_strings "DNS" (sc_dns s);
    json_object "DHCP" [json_bool "Enabled" (sc_dhcp_enabled s); json_text "PoolStart" (sc_pool_start s);
      json_text "PoolEnd" (sc_pool_end s); json_duration "LeaseTime" (sc_lease_time s);
      json_duration "MaxLeaseTime" (sc_max_lease_time s); json_object "Options" [json_text "Template" (sc_template s)]];
    (bs "Reservations", JArray ((λ r, JObject [json_text "MAC" (rc_mac r); json_text "IP" (rc_ip r);
      json_text "Hostname" (rc_hostname r)]) <$> sc_reservations s))].
Definition listen_members (l : ListenConfig) : list (bytes * json) :=
  [json_bool "Enabled" (lc_enabled l); json_text "Listen" (lc_listen l); json_text "TLSCertFile" (lc_tls_cert_file l);
   json_text "TLSKeyFile" (lc_tls_key_file l)].
Definition server_members (s : ServerConfig) : list (bytes * json) :=
  [json_text "Hostname" (sv_hostname s); json_text "DataDir" (sv_data_dir s); json_text "LogLevel" (sv_log_level s);
   json_text "LogFormat" (sv_log_format s)].
Definition dhcp_members (d : DHCPConfig) : list (bytes * json) :=
  let v4 := dc_v4 d in let v6 := dc_v6 d in let dd := dc_ddns d in
  [json_object "V4" [json_bool "Enabled" (v4_enabled v4); json_text "Listen" (v4_listen v4);
     json_text "Interface" (v4_interface v4); json_bool "Authoritative" (v4_authoritative v4)];
   json_object "V6" [json_bool "Enabled" (v6_enabled v6); json_text "Listen" (v6_listen v6); json_text "Interface" (v6_interface v6)];
   json_duration "DefaultLeaseTime" (dc_default_lease_time d); json_duration "MaxLeaseTime" (dc_max_lease_time d);
   json_object "DDNS" [json_bool "Enabled" (dd_enabled dd); json_text "ForwardZone" (dd_forward_zone dd);
     json_text "ReverseZone" (dd_reverse_zone dd); json_text "DNSServer" (dd_dns_server dd);
     json_text "TSIGKey" (dd_tsig_key dd); json_text "TSIGSecret" (dd_tsig_secret dd);
     json_text "TSIGAlgorithm" (dd_tsig_algorithm dd)]].
Definition discovery_members (d : DiscoveryConfig) : list (bytes * json) :=
  [json_bool "Enabled" (di_enabled d); json_duration "DefaultInterval" (di_default_interval d);
   json_strings "Methods" (di_methods d); json_bool "ConflictDetection" (di_conflict_detection d);
   json_bool "RogueDHCPDetection" (di_rogue_detection d); json_duration "QuarantinePeriod" (di_quarantine_period d);
   json_duration "AbandonedThreshold" (di_abandoned_threshold d)].
Definition api_members (a : APIConfig) : list (bytes * json) :=
  let r := ap_rest a in
  [json_object "REST" [json_bool "Enabled" (rs_enabled r); json_text "Listen" (rs_listen r);
     json_strings "CORSOrigins" (ConfigTypes.rs_cors_origins r); json_strings "TrustedProxies" (ConfigTypes.rs_trusted_proxies r);
     json_int "RateLimit" (ConfigTypes.rs_rate_limit r); json_int "AuthRateLimit" (ConfigTypes.rs_auth_rate_limit r);
     json_text "TLSCertFile" (rs_tls_cert_file r); json_text "TLSKeyFile" (rs_tls_key_file r)];
   json_object "GRPC" (listen_members (ap_grpc a)); json_object "WebSocket" [json_bool "Enabled" (ap_websocket a)];
   json_object "MCP" (listen_members (ap_mcp a))].
Definition auth_members (a : AuthConfig) : list (bytes * json) :=
  let l := au_local a in let d := au_ldap a in let s := au_session a in
  [json_bool "Enabled" (au_enabled a); json_text "Type" (au_type a);
   json_object "Local" [json_text "AdminUsername" (la_admin_username l); json_text "AdminPasswordHash" (la_admin_password_hash l);
     json_int "MaxFailedAttempts" (la_max_failed_attempts l); json_duration "LockoutDuration" (la_lockout_duration l)];
   json_object "LDAP" [json_text "Server" (ld_server d); json_text "BaseDN" (ld_base_dn d); json_text "BindDN" (ld_bind_dn d);
     json_text "BindPassword" (ld_bind_password d); json_text "UserFilter" (ld_user_filter d);
     json_text "GroupFilter" (ld_group_filter d); json_text "AdminGroup" (ld_admin_group d)];
   json_object "APITokens" [json_bool "Enabled" (au_api_tokens a)];
   json_object "Session" [json_duration "Duration" (sa_duration s); json_text "CookieName" (sa_cookie_name s);
     json_bool "Secure" (sa_secure s)]].
Definition ha_members (h : HAConfig) : list (bytes * json) :=
  [json_bool "Enabled" (hc_enabled h); json_text "Mode" (hc_mode h); json_int "Priority" (hc_priority h);
   json_text "PeerAddress" (hc_peer_address h); json_duration "HeartbeatInterval" (hc_heartbeat_interval h);
   json_duration "FailoverTimeout" (hc_failover_timeout h); json_bool "LeaseSync" (hc_lease_sync h);
   json_text "SharedSecret" (hc_shared_secret h); json_text "WitnessPath" (hc_witness_path h);
   json_duration "WitnessHoldTime" (hc_witness_hold_time h)].
Definition webhook_json (w : WebhookConfig) : json :=
  JObject [json_text "Name" (wh_name w); json_text "URL" (wh_url w); json_strings "Events" (wh_events w);
    json_text "Format" (wh_format w); json_object "Headers" (prod_map id JString <$> map_to_list (wh_headers w));
    json_object "Retry" [json_int "MaxAttempts" (wh_max_attempts w); json_text "Backoff" (wh_backoff w)]].
Definition config_json (c : Config) : json :=
  let b := cf_backup c in
  JObject [json_object "Server" (server_members (cf_server c)); json_object "DHCP" (dhcp_members (cf_dhcp c));
    (bs "Subnets", JArray (subnet_json <$> cf_subnets c));
    json_object "IPAM" [json_object "Discovery" (discovery_members (cf_discovery c))];
    json_object "API" (api_members (cf_api c));
    json_object "Dashboard" [json_bool "Enabled" (da_enabled (cf_dashboard c)); json_text "BasePath" (da_base_path (cf_dashboard c))];
    json_object "Auth" (auth_members (cf_auth c)); json_object "HA" (ha_members (cf_ha c));
    json_object "Metrics" [json_object "Prometheus" [json_bool "Enabled" (pr_enabled (cf_prometheus c)); json_text "Path" (pr_path (cf_prometheus c))]];
    json_object "Backup" [json_object "Auto" [json_bool "Enabled" (bk_enabled b); json_duration "Interval" (bk_interval b);
      json_int "Retention" (bk_retention b); json_text "Path" (bk_path b)]];
    (bs "Webhooks", JArray (webhook_json <$> cf_webhooks c))].

(** * The health of the server *)

(** [Duration.Round(time.Second)] and [String] of a duration that is not negative. *)
Definition round_seconds (d : duration) : Z := (d + second / 2) / second.
Definition seconds_text (n : Z) : bytes :=
  let h := n / 3600 in let m := n / 60 mod 60 in let s := fmt_d (n mod 60) ++ bs "s" in
  if 0 <? h then fmt_d h ++ bs "h" ++ fmt_d m ++ bs "m" ++ s
  else if 0 <? m then fmt_d m ++ bs "m" ++ s else s.
Definition uptime (started_at now : time) : duration :=
  if negb (is_zero started_at) && (started_at <? now) then time_sub now started_at else 0.

Record FailoverRequest := mkFailoverRequest { fr_reason : bytes }.

Section system.
Context `{UnicodeTables} `{SliceSort} `{Json ScanResult} `{Json (gmap bytes ObservedHost)} `{Json (list RogueServer)}.
Context {S : Type} `{LeaseStore S}.
#[local] Abbreviation state := (RestState S).
#[local] Abbreviation reply := (outcome rest_data).
#[local] Abbreviation handler := (Handler (S := S) (A := rest_data)).

(** [RouterDeps], but for the components of the state; what [HAStatus] and
    [ReloadStatus] return is given as JSON, and nil as [JNull]. *)
Record SystemDeps := mkSystemDeps {
  sd_version : bytes; sd_started_at : time;
  sd_storage_ready : option (state → option error);
  sd_dhcp_enabled : bool; sd_dhcp_enabled_func : option bool;
  sd_dhcp_listen : bytes; sd_dhcp_listen_func : option bytes; sd_dhcp_running : option bool;
  sd_disc_enabled : bool; sd_disc_enabled_func : option bool;
  sd_ha_enabled : bool; sd_ha_enabled_func : option bool; sd_ha_status : option json;
  sd_trigger_failover : option (bytes → state → RestInputs S → state * result json);
  sd_reload_status : option json; sd_config_snapshot : option json;
  sd_update_config : option (list (bytes * json) → state → RestInputs S → state * result json);
  sd_list_backups : option (result (list SystemBackup));
  sd_create_backup : option (state → RestInputs S → state * result SystemBackup);
  sd_restore_backup : option (RestoreRequest → state → RestInputs S → state * result SystemBackup)
}.

Definition or_func {T : Type} (field : T) (func : option T) : T := default field func.
Definition dhcp_enabled_value (d : SystemDeps) : bool := or_func (sd_dhcp_enabled d) (sd_dhcp_enabled_func d).
Definition dhcp_listen_value (d : SystemDeps) : bytes := or_func (sd_dhcp_listen d) (sd_dhcp_listen_func d).
Definition disc_enabled_value (d : SystemDeps) : bool := or_func (sd_disc_enabled d) (sd_disc_enabled_func d).
Definition ha_enabled_value (d : SystemDeps) : bool := or_func (sd_ha_enabled d) (sd_ha_enabled_func d).
Definition ha_status_value (d : SystemDeps) : json :=
  match sd_ha_status d with
  | None => JObject [json_text "status" (bs "disabled")]
  | Some JNull => JObject [json_text "status" (bs "unknown")]
  | Some value => value
  end.

Definition component (fields : list (string * any_value)) : Component :=
  mkComponent (list_to_map ((λ p, (bs p.1, p.2)) <$> fields)) None.
Definition text (s : string) : any_value := VString (bs s).

Definition evaluate_storage_health (d : SystemDeps) (st : state) : Component * bool :=
  let fields status ready := [("enabled"%string, VBool true); ("status"%string, text status); ("ready"%string, VBool ready)] in
  match sd_storage_ready d with
  | None => (component (fields "unknown"%string true), true)
  | Some probe =>
      match probe st with
      | Some e => (component (("error"%string, VString (error_text e)) :: fields "down"%string false), false)
      | None => (component (fields "up"%string true), true)
      end
  end.

Definition evaluate_dhcp_health (d : SystemDeps) : Component * bool :=
  let fields := [("enabled"%string, VBool (dhcp_enabled_value d)); ("listen"%string, VString (dhcp_listen_value d))] in
  if negb (dhcp_enabled_value d) then
    (component (("status"%string, text "disabled") :: ("ready"%string, VBool true) :: fields), true)
  else
    let running := default false (sd_dhcp_running d) in
    (component (("status"%string, text (if running then "up" else "down")) :: ("running"%string, VBool running) ::
                ("ready"%string, VBool running) :: fields), running).

Definition evaluate_discovery_health (d : SystemDeps) (st : state) : Component * bool :=
  let enabled := ("enabled"%string, VBool (disc_enabled_value d)) in
  match rt_disc st with
  | Some engine =>
      if negb (disc_enabled_value d) then
        (component [("status"%string, text "disabled"); ("ready"%string, VBool true); enabled], true)
      else
        let s := disc_status engine in
        let online := st_sensor_online s in
        (component [("sensor_online"%string, VBool online); ("last_scan_at"%string, VTime (st_last_scan_at s));
                    ("next_scheduled_scan"%string, VTime (st_next_scheduled_scan s)); ("scanning"%string, VBool (st_scanning s));
                    ("latest_scan_id"%string, VString (st_latest_scan_id s));
                    ("active_conflicts"%string, VInt (st_active_conflicts s));
                    ("rogue_detected"%string, VBool (st_rogue_detected s)); ("ready"%string, VBool online);
                    ("status"%string, text (if online then "up" else "down")); enabled], online)
  | None => (component [("status"%string, text "disabled"); ("ready"%string, VBool true); enabled], true)
  end.

(** [toStringAnyMap]; the empty map stands for the nil one. *)
Definition details_of (raw : json) : list (bytes * json) := match raw with JObject members => members | _ => [] end.
(** [strings.EqualFold(strings.TrimSpace(value), ...)] of a member that is a string. *)
Definition reads (details : list (bytes * json)) (key value : string) : bool :=
  match member (bs key) details with Some (JString s) => equal_fold (trim_space s) (bs value) | _ => false end.
Definition fenced_in (details : list (bytes * json)) : bool :=
  match member (bs "fenced") details with Some (JBool b) => b | _ => false end.

Definition evaluate_ha_health (d : SystemDeps) : Component * bool :=
  let enabled := ("enabled"%string, VBool (ha_enabled_value d)) in
  let c status ready details :=
    mkComponent (cp_fields (component [("status"%string, text status); ("ready"%string, VBool ready); enabled])) details in
  match sd_ha_status d with
  | None => (c "disabled"%string true None, true)
  | Some _ =>
    if negb (ha_enabled_value d) then (c "disabled"%string true None, true) else
    let raw := ha_status_value d in
    let details := details_of raw in
    if fenced_in details then (c "down"%string false (Some raw), false)
    else if reads details "role" "unknown" then (c "degraded"%string false (Some raw), false)
    else if reads details "peer" "disconnected" then (c "degraded"%string true (Some raw), true)
    else (c "up"%string true (Some raw), true)
  end.

(** [BuildSystemHealthPayload] *)
Definition build_system_health (d : SystemDeps) (st : state) (now : time) : SystemHealth :=
  let '(storage, storage_ready) := evaluate_storage_health d st in
  let '(dhcp, dhcp_ready) := evaluate_dhcp_health d in
  let '(disc, disc_ready) := evaluate_discovery_health d st in
  let '(ha, ha_ready) := evaluate_ha_health d in
  let ready := storage_ready && dhcp_ready && disc_ready && ha_ready in
  mkSystemHealth (if ready then bs "healthy" else bs "degraded") ready (sd_version d) (sd_started_at d)
    (seconds_text (round_seconds (uptime (sd_started_at d) now)))
    (list_to_map [(bs "storage", storage); (bs "dhcpv4", dhcp); (bs "discovery", disc); (bs "ha", ha)]).

(** * The routes *)

Class ConfigExport := { config_yaml : json → result bytes; config_indent : json → result bytes }.
Context `{JsonNumbers} `{ConfigExport} `{EmptyDecoder} `{JsonDecoder (list (bytes * json))} `{JsonDecoder RestoreRequest}
  `{JsonDecoder FailoverRequest} `{Json (Entry event_data)}.

(** The result of a callback, or the reply to its error. *)
Definition called {T : Type} (h : headers) (p : state * result T) (status : Z) (code : string) (k : state → T → state * reply)
    : state * reply := or_error p.1 h p.2 status code error_text (k p.1).
Definition or_unavailable {T : Type} (st : state) (h : headers) (callback : option T) (code message : string) (k : T → state * reply)
    : state * reply :=
  match callback with Some f => k f | None => (st, write_error h 501 code (bs message)) end.

Definition get_health (d : SystemDeps) : handler := λ st r c h inp,
  (st, write_json h 200 (DHealth (build_system_health d st (ri_event_now inp))) None).
Definition get_ready (d : SystemDeps) : handler := λ st r c h inp,
  let health := build_system_health d st (ri_event_now inp) in
  (st, write_json h (if sh_ready health then 200 else 503) (DHealth health) None).
(** The names of the platform are left out of the reply. *)
Definition get_info (d : SystemDeps) : handler := λ st r c h inp,
  let now := ri_event_now inp in
  (st, write_json h 200 (DInfo (sd_version d) (sd_started_at d) now (Z.quot (uptime (sd_started_at d) now) second)
                           (ha_status_value d) (sd_reload_status d)) None).

Definition get_config (d : SystemDeps) : handler := admin (λ st r c h inp,
  or_unavailable st h (sd_config_snapshot d) "config_unavailable" "config snapshot is not available" (λ snapshot,
    (st, write_json h 200 (DConfig (sanitize_config_snapshot snapshot) (sd_reload_status d)) None))).
Definition put_config (d : SystemDeps) : handler := admin (λ st r c h inp,
  or_unavailable st h (sd_update_config d) "config_update_unavailable" "config update is not configured" (λ update,
  with_body st r h (λ payload : list (bytes * json),
  called h (update payload st inp) 400 "config_update_failed" (λ st updated,
    (st, write_json h 200 (DConfig (sanitize_config_snapshot updated) (sd_reload_status d)) None))))).
Definition file_headers (content_type name : string) (h : headers) : headers :=
  <[bs "Content-Disposition" := bs "attachment; filename=" ++ [quote] ++ bs name ++ [quote]]> (set_header "Content-Type" content_type h).
Definition get_config_export (d : SystemDeps) : handler := admin (λ st r c h inp,
  or_unavailable st h (sd_config_snapshot d) "config_unavailable" "config snapshot is not available" (λ snapshot,
    let snapshot := sanitize_config_snapshot snapshot in
    let format := to_lower (trim_space (get_query r "format")) in
    let send (text : result bytes) content_type name :=
      or_error st h text 500 "config_export_failed" error_text (λ raw,
        (st, Reply 200 (file_headers content_type name h) (BodyRaw raw))) in
    if bool_decide (format ∈ [[]; bs "yaml"; bs "yml"]) then send (config_yaml snapshot) "application/yaml"%string "monsoon-config.yaml"%string
    else if bool_decide (format = bs "json") then send (config_indent snapshot) "application/json"%string "monsoon-config.json"%string
    else (st, write_error h 400 "invalid_format" (bs "format must be yaml or json")))).

Definition get_backups (d : SystemDeps) : handler := admin (λ st r c h inp,
  or_error st h (default (Ok []) (sd_list_backups d)) 500 "backup_list_failed" error_text (λ l,
    (st, write_json h 200 (DBackups l) (Some (zlen l))))).
Definition post_backup (d : SystemDeps) : handler := admin (λ st r c h inp,
  or_unavailable st h (sd_create_backup d) "backup_unavailable" "backup operation is not configured" (λ create,
  called h (create st inp) 500 "backup_create_failed" (λ st b, (st, write_json h 200 (DBackup b) None)))).
Definition post_restore (d : SystemDeps) : handler := admin (λ st r c h inp,
  or_unavailable st h (sd_restore_backup d) "restore_unavailable" "restore operation is not configured" (λ restore,
  with_body st r h (λ payload : RestoreRequest,
  called h (restore payload st inp) 400 "backup_restore_failed" (λ st b, (st, write_json h 200 (DBackup b) None))))).

Definition get_ha_status (d : SystemDeps) : handler := λ st r c h inp,
  (st, write_json h 200 (DStatus (ha_status_value d)) None).
(** [VOther 0] stands for the status in the entry. *)
Definition post_failover (d : SystemDeps) : handler := admin (λ st r c h inp,
  or_unavailable st h (sd_trigger_failover d) "ha_failover_unavailable" "manual HA failover is not configured" (λ trigger,
  with_body st r h (λ payload : FailoverRequest,
  called h (trigger (fr_reason payload) st inp) 409 "ha_failover_failed" (λ st status,
    let after := list_to_map [(bs "reason", VString (trim_space (fr_reason payload))); (bs "status", VOther 0)] in
    let st := log_audit_entry st (new_entry (request_actor c) "ha.failover.triggered" "ha" (bs "cluster") (bs "rest") after ∅) inp in
    (st, write_json h 202 (DStatus status) None))))).

Definition system_routes (d : SystemDeps) : list (string * string * handler) := [
  ("GET", "/api/v1/system/health", get_health d);
  ("GET", "/api/v1/system/ready", get_ready d);
  ("GET", "/api/v1/system/info", get_info d);
  ("GET", "/api/v1/system/config", get_config d);
  ("PUT", "/api/v1/system/config", put_config d);
  ("GET", "/api/v1/system/config/export", get_config_export d);
  ("GET", "/api/v1/system/backups", get_backups d);
  ("POST", "/api/v1/system/backup", post_backup d);
  ("POST", "/api/v1/system/restore", post_restore d);
  ("GET", "/api/v1/ha/status", get_ha_status d);
  ("POST", "/api/v1/ha/failover", post_failover d)]%string.
Definition serve_first (routes : list (string * string * handler)) (next : handler) : handler := λ st r c h inp,
  match filter (λ p : string * string * handler, method_matches (bs p.1.1) (rq_method r) && bool_decide (rq_path r = bs p.1.2)) routes with
  | p :: _ => p.2 st r c h inp
  | [] => next st r c h inp
  end.
(** [registerSystemRoutes] and [registerHARoutes], in front of the dashboard. *)
Definition system_mux (d : SystemDeps) (dashboard : handler) : handler := serve_first (system_routes d) dashboard.
End system.

(** * The dashboard *)

(** What a file of the dashboard is. *)
Inductive opened := OpenMissing | OpenFailed (e : error) | OpenUnknown (e : error) | OpenDir | OpenFile (content : bytes).
(** [openFile] and [http.FileServer] on the path of a file that exists. *)
Record SpaSource := mkSpaSource { sp_open : bytes → opened; sp_static : bytes → HttpRequest → headers → outcome rest_data }.

(** [http.Error], which ends the message with a newline *)
Definition http_error {A : Type} (h : headers) (status : Z) (message : bytes) : outcome A :=
  Reply status (set_header "X-Content-Type-Options" "nosniff" (set_header "Content-Type" "text/plain; charset=utf-8" h))
    (BodyRaw (message ++ [newline])).
Definition http_not_found (h : headers) : outcome rest_data := http_error h 404 (bs "404 page not found").

(** [NewSPADashboardHandler]: the base path it is served at. *)
Definition dashboard_base (base : bytes) : bytes :=
  let base := if bool_decide (trim_space base = []) then [slash] else base in
  clean_path (if has_prefix base [slash] then base else slash :: base).
Definition asset_exists (src : SpaSource) (path : bytes) : result bool :=
  if bool_decide (path = [slash]) then Ok false
  else match sp_open src path with
       | OpenMissing => Ok false
       | OpenFailed e | OpenUnknown e => Err e
       | OpenDir => Ok false
       | OpenFile _ => Ok true
       end.
Definition serve_index (src : SpaSource) (r : HttpRequest) (h : headers) : outcome rest_data :=
  let h' := set_header "Content-Type" "text/html; charset=utf-8" h in
  let head := bool_decide (rq_method r = bs "HEAD") in
  match sp_open src (bs "/index.html") with
  | OpenMissing | OpenFailed _ => http_error h 500 (bs "dashboard index not found")
  | OpenFile content => Reply 200 h' (if head then BodyEmpty else BodyRaw content)
  | _ => Reply 200 h' BodyEmpty
  end.
(** The path of the file a request asks for; none below another base. *)
Definition dashboard_path (base path : bytes) : option bytes :=
  if bool_decide (base = [slash]) then Some path
  else if negb (has_prefix path base) then None
  else let rest := trim_prefix path base in Some (if bool_decide (rest = []) then [slash] else rest).
Definition serve_dashboard (src : SpaSource) (base metrics_path : bytes) (r : HttpRequest) (h : headers) : outcome rest_data :=
  let base := dashboard_base base in
  let metrics := if bool_decide (metrics_path = []) then bs "/metrics" else metrics_path in
  let path := rq_path r in
  if negb (bool_decide (rq_method r = bs "GET")) && negb (bool_decide (rq_method r = bs "HEAD"))
  then http_error h 405 (bs "method not allowed")
  else if has_prefix path (bs "/api/") || bool_decide (path = metrics) || has_prefix path (metrics ++ [slash]) then http_not_found h
  else
    match dashboard_path base path with
    | None => http_not_found h
    | Some request_path =>
        let path := clean_path (slash :: trim_prefix request_path [slash]) in
        match asset_exists src path with
        | Err e => http_error h 500 (error_text e)
        | Panic m => Crash h m
        | Ok true => sp_static src path r h
        | Ok false => serve_index src r h
        end
    end.

(** C?: The dashboard opens files below its directory only: what it answers depends on
    what files are at clean paths, which do not go up. *)
Theorem dashboard_stays_inside src src' base metrics_path r h :
  (∀ segments, Forall segment segments → sp_open src (path_text segments) = sp_open src' (path_text segments)) →
  (∀ segments r h, Forall segment segments → sp_static src (path_text segments) r h = sp_static src' (path_text segments) r h) →
  serve_dashboard src base metrics_path r h = serve_dashboard src' base metrics_path r h.
Proof.
  intros Ho Hs. unfold serve_dashboard. cbv zeta. destruct (_ && _); [done|]. destruct (_ || _); [done|].
  destruct (dashboard_path _ _) as [path|]; [|done]. unfold clean_path at 1 2 3 4. rewrite bool_decide_eq_true_2 by done.
  set (segments := clean_from [] (slash :: trim_prefix path [slash])).
  assert (Hc : Forall segment segments) by (by apply clean_from_segments).
  assert (Hi : serve_index src r h = serve_index src' r h).
  { unfold serve_index. change (bs "/index.html") with (path_text [bs "index.html"]). rewrite Ho; [done|].
    repeat constructor; try done. refine (bool_decide_unpack _ _). vm_compute. exact I. }
  unfold asset_exists. rewrite (Ho _ Hc). case_bool_decide; [done|]. destruct (sp_open src' _); auto.
Qed.

(** [RegisterRoutes] without a dashboard; [unmatched] is what [ServeMux] answers when
    no pattern takes the request. *)
Definition root_handler {S : Type} `{LeaseStore S} (dashboard : option (HttpRequest → headers → outcome rest_data))
    (unmatched : HttpRequest → headers → outcome rest_data) : Handler (S := S) (A := rest_data) := λ st r c h inp,
  (st, if negb (method_matches (bs "GET") (rq_method r)) then unmatched r h
       else match dashboard with
            | Some serve => serve r h
            | None =>
                if bool_decide (rq_path r = [slash])
                then write_json h 200 (DFields [("name"%string, bs "Monsoon"); ("status"%string, bs "running")]) None
                else unmatched r h
            end).

(** * What the server promises *)

Lemma admin_is_operator id : holds DefaultRoleAdmin id → holds DefaultRoleOperator id.
Proof.
  unfold holds, has_role. change (rank (sanitize_role DefaultRoleAdmin)) with 3.
  change (rank (sanitize_role DefaultRoleOperator)) with 2. rewrite !Z.leb_le. lia.
Qed.

Section promises.
Context `{UnicodeTables} `{UrlParse} `{Bcrypt} `{SliceSort} `{MapRange} `{HttpTime} `{EmptyDecoder} `{AuditExport} `{TimeText}.
Context `{Json User} `{Json tokenRecord} `{Json sessionEntry} `{Json (Entry event_data)}.
Context `{Json Subnet} `{Json Reservation} `{Json AddressRecord} `{Json UISettings}.
Context `{Json ScanResult} `{Json (gmap bytes ObservedHost)} `{Json (list RogueServer)} `{Json (Event event_data)}.
Context `{JsonDecoder loginRequest} `{JsonDecoder passwordChangeRequest} `{JsonDecoder createTokenRequest}.
Context `{JsonDecoder UpsertSubnetInput} `{JsonDecoder UpsertReservationInput} `{JsonDecoder ScanRequest} `{JsonDecoder UISettings}.
Context `{JsonNumbers} `{ConfigExport} `{JsonDecoder (list (bytes * json))} `{JsonDecoder RestoreRequest} `{JsonDecoder FailoverRequest}.
Context {S : Type} `{LeaseStore S}.
#[local] Abbreviation state := (RestState S).
#[local] Abbreviation reply := (outcome rest_data).
#[local] Abbreviation handler := (Handler (S := S) (A := rest_data)).

(** [RegisterRoutes] *)
Definition rest_server (secure : bool) (d : SystemDeps (S := S)) (dashboard : option (HttpRequest → headers → reply))
    (unmatched : HttpRequest → headers → reply) : handler :=
  rest_mux secure (system_mux d (root_handler dashboard unmatched)).

(** Routes in the same order, each pair related. *)
Lemma serve_first_unless R ok (routes routes' : list (string * string * handler)) next next' :
  Forall2 (λ p p', p.1 = p'.1 ∧ unless R ok p.2 p'.2) routes routes' → unless R ok next next' →
  unless R ok (serve_first routes next) (serve_first routes' next').
Proof.
  intros Hr Hn st r c h inp. unfold serve_first. induction Hr as [|p p' routes routes' [E Hp] _ IH]; [apply Hn|].
  rewrite !filter_cons, <-E. destruct (decide _); [apply Hp|apply IH].
Qed.
Lemma same_unless R ok (k : handler) : (∀ st r c h inp, R st (k st r c h inp) (k st r c h inp)) → unless R ok k k.
Proof. intros Hk st r c h inp. by left. Qed.
Lemma admin_unless R (k k' : handler) :
  (∀ st p, same_data st p.1 → R st p p) → unless R (context_allowed (holds DefaultRoleAdmin)) (admin k) (admin k').
Proof.
  intros Hr st r c h inp. unfold admin. destruct (role_guards DefaultRoleAdmin k st r c h inp) as [[out E]|[_ ?]]; [left|by right].
  rewrite !E. by apply Hr.
Qed.
Lemma allowed_admin_operator st r c inp :
  context_allowed (S := S) (holds DefaultRoleAdmin) st r c inp → context_allowed (holds DefaultRoleOperator) st r c inp.
Proof. intros Ha Hc. destruct (Ha Hc) as (id & ? & ?). exists id. auto using admin_is_operator. Qed.

(** The dependencies with other callbacks for what an administrator asks for. *)
Definition with_callbacks (d : SystemDeps (S := S)) trigger snapshot update backups create restore : SystemDeps :=
  mkSystemDeps (sd_version d) (sd_started_at d) (sd_storage_ready d) (sd_dhcp_enabled d) (sd_dhcp_enabled_func d)
    (sd_dhcp_listen d) (sd_dhcp_listen_func d) (sd_dhcp_running d) (sd_disc_enabled d) (sd_disc_enabled_func d)
    (sd_ha_enabled d) (sd_ha_enabled_func d) (sd_ha_status d) trigger (sd_reload_status d) snapshot update backups create restore.

Lemma system_mux_unless R d trigger snapshot update backups create restore next :
  (∀ st p, same_data st p.1 → R st p p) → (∀ st r c h inp, same_data st (next st r c h inp).1) →
  unless R (context_allowed (holds DefaultRoleAdmin)) (system_mux d next)
    (system_mux (with_callbacks d trigger snapshot update backups create restore) next).
Proof.
  intros Hr Hn. apply serve_first_unless; [|by apply same_unless; auto].
  unfold system_routes. repeat apply Forall2_cons_2; [..|apply Forall2_nil_2]; (split; [done|]);
    first [by apply admin_unless | by intros ?????; left; apply Hr].
Qed.
Lemma root_keeps dashboard unmatched st r c h inp : same_data st ((root_handler dashboard unmatched : handler) st r c h inp).1.
Proof. done. Qed.
Lemma mux_unless R ok secure next next' :
  (∀ st p, R st p p) → unless R ok next next' → unless R ok (rest_mux secure next) (rest_mux secure next').
Proof.
  intros Hr Hn st r c h inp. unfold rest_mux. destruct (parse_route _ _); [|apply Hn].
  destruct (handler_of _ _ _); [left; apply Hr|apply Hn].
Qed.

(** C27: When authentication is enforced, a request changes the leases, the prefixes, the
    discovery, the settings or what subscribers receive only if its bearer token or its
    session is the one of an operator or of an administrator, whatever the callbacks of
    the system do. *)
Theorem server_writes_authorized settings secure d dashboard unmatched st r h inp s :
  rs_auth_enforced settings = true → rt_auth st = Some s →
  same_data st (rest_chain settings (rest_server secure d dashboard unmatched) st r background h inp).1 ∨
  ∃ id, (resolve_identity s r inp).2 = Some id ∧ has_role DefaultRoleOperator (id_role id) = true.
Proof.
  intros He Hs. apply chain_writes_authorized; [done..|]. apply mux_changes_only. intros st' r' c' h' inp'.
  destruct (system_mux_unless kept d (sd_trigger_failover d) (sd_config_snapshot d) (sd_update_config d) (sd_list_backups d)
    (sd_create_backup d) (sd_restore_backup d) (root_handler dashboard unmatched) (λ _ _ Hd, Hd)
    (λ st r c h inp, root_keeps dashboard unmatched st r c h inp) st' r' c' h' inp') as [|Ha]; [by left|].
  right. revert Ha. apply allowed_admin_operator.
Qed.

(** C30: The configuration, the backups, a restore and a failover are the administrator's:
    unless the request shows the identity of one, its reply and its effect are the same
    whatever these callbacks would do. *)
Theorem system_needs_admin settings secure d trigger snapshot update backups create restore dashboard unmatched st r h inp s :
  rs_auth_enforced settings = true → rt_auth st = Some s →
  rest_chain settings (rest_server secure d dashboard unmatched) st r background h inp =
  rest_chain settings (rest_server secure (with_callbacks d trigger snapshot update backups create restore) dashboard unmatched)
    st r background h inp ∨
  ∃ id, (resolve_identity s r inp).2 = Some id ∧ has_role DefaultRoleAdmin (id_role id) = true.
Proof.
  intros He Hs. apply (rest_chain_unless (λ _ p p', p = p') (holds DefaultRoleAdmin)); [done|done|by intros ??? ->|done..|].
  apply mux_unless; [done|]. by apply system_mux_unless.
Qed.

(** C?: The server is ready exactly when the storage answers, DHCP runs if it is enabled,
    the sensor of an enabled discovery is online, and an enabled node of a pair is
    neither fenced nor of an unknown role. *)
Theorem system_ready_exact d (st : state) now :
  sh_ready (build_system_health d st now) = true ↔
  (∀ probe, sd_storage_ready d = Some probe → probe st = None) ∧
  (dhcp_enabled_value d = true → sd_dhcp_running d = Some true) ∧
  (disc_enabled_value d = true → ∀ e, rt_disc st = Some e → st_sensor_online (disc_status e) = true) ∧
  (ha_enabled_value d = true → is_Some (sd_ha_status d) →
   fenced_in (details_of (ha_status_value d)) = false ∧ reads (details_of (ha_status_value d)) "role" "unknown" = false).
Proof.
  unfold build_system_health.
  assert (Hs : (evaluate_storage_health d st).2 = true ↔ ∀ probe, sd_storage_ready d = Some probe → probe st = None).
  { unfold evaluate_storage_health. destruct (sd_storage_ready d) as [f|]; [destruct (f st) eqn:E|]; cbn; naive_solver. }
  assert (Hp : (evaluate_dhcp_health d).2 = true ↔ (dhcp_enabled_value d = true → sd_dhcp_running d = Some true)).
  { unfold evaluate_dhcp_health. destruct (dhcp_enabled_value d), (sd_dhcp_running d) as [[]|]; cbn; intuition congruence. }
  assert (Hd : (evaluate_discovery_health d st).2 = true ↔
    (disc_enabled_value d = true → ∀ e, rt_disc st = Some e → st_sensor_online (disc_status e) = true)).
  { unfold evaluate_discovery_health. destruct (rt_disc st), (disc_enabled_value d); cbn; naive_solver. }
  assert (Hh : (evaluate_ha_health d).2 = true ↔ (ha_enabled_value d = true → is_Some (sd_ha_status d) →
    fenced_in (details_of (ha_status_value d)) = false ∧ reads (details_of (ha_status_value d)) "role" "unknown" = false)).
  { unfold evaluate_ha_health. cbv zeta. destruct (sd_ha_status d) as [raw|].
    - destruct (ha_enabled_value d); cbn; [|naive_solver].
      destruct (fenced_in (details_of (ha_status_value d))), (reads (details_of (ha_status_value d)) "role" "unknown"),
        (reads (details_of (ha_status_value d)) "peer" "disconnected"); cbn;
        (split; [try done|intros Hr; destruct (Hr eq_refl ltac:(eauto)); congruence]).
    - cbn. split; [intros _ _ []; done|done]. }
  destruct (evaluate_storage_health d st) as [? v], (evaluate_dhcp_health d) as [? w], (evaluate_discovery_health d st) as [? x],
    (evaluate_ha_health d) as [? y]. cbn in *. rewrite <-Hs, <-Hp, <-Hd, <-Hh, !andb_true_iff. tauto.
Qed.
End promises.

(** ** Masking *)

Section masking.
Context `{UnicodeTables} `{JsonNumbers}.

(** What is at a path of members and positions. *)
Definition step (s : bytes + nat) (v : json) : option json :=
  match s, v with
  | inl key, JObject members => member key members
  | inr i, JArray items => items !! i
  | _, _ => None
  end.
Fixpoint at_path (v : json) (path : list (bytes + nat)) : option json :=
  match path with [] => Some v | s :: path => step s v ≫= λ v, at_path v path end.
Definition masked_at (s : bytes + nat) (v : json) : json :=
  match s with inl key => if secret_text key v then JString masked else mask_secrets v | inr _ => mask_secrets v end.

Lemma step_mask s v : step s (mask_secrets v) = masked_at s <$> step s v.
Proof.
  destruct s as [key|i], v as [| | | |items|members]; cbn; try done; [|by rewrite list_lookup_fmap].
  induction members as [|[k v] members IH]; [done|]. cbn. case_bool_decide; [by subst|done].
Qed.
Lemma masked_at_path s v path : path ≠ [] → at_path (masked_at s v) path = at_path (mask_secrets v) path.
Proof.
  intros Hp. destruct s as [key|i]; [|done]. cbn. destruct (secret_text key v) eqn:E; [|done].
  destruct v; try done. by destruct path as [|[] ?].
Qed.
(** Masking changes the texts under sensitive keys, and nothing else. *)
Lemma mask_exact v path s :
  at_path (mask_secrets v) (path ++ [s]) = masked_at s <$> at_path v (path ++ [s]).
Proof.
  revert v. induction path as [|s' path IH]; intros v; cbn.
  - rewrite step_mask. by destruct (step s v).
  - rewrite step_mask. destruct (step s' v) as [v'|]; [|done]. cbn. rewrite masked_at_path by (by destruct path). apply IH.
Qed.

(** A configuration with other secrets. *)
Definition with_secrets (c : Config) (tsig password_hash bind_password shared : bytes) : Config :=
  let d := cf_dhcp c in let dd := dc_ddns d in let a := cf_auth c in let l := au_local a in let ld := au_ldap a in let ha := cf_ha c in
  mkConfig (cf_server c)
    (mkDHCPConfig (dc_v4 d) (dc_v6 d) (dc_default_lease_time d) (dc_max_lease_time d)
       (mkDDNSConfig (dd_enabled dd) (dd_forward_zone dd) (dd_reverse_zone dd) (dd_dns_server dd) (dd_tsig_key dd) tsig
          (dd_tsig_algorithm dd)))
    (cf_subnets c) (cf_discovery c) (cf_api c) (cf_dashboard c)
    (mkAuthConfig (au_enabled a) (au_type a)
       (mkLocalAuthConfig (la_admin_username l) password_hash (la_max_failed_attempts l) (la_lockout_duration l))
       (mkLDAPAuthConfig (ld_server ld) (ld_base_dn ld) (ld_bind_dn ld) bind_password (ld_user_filter ld) (ld_group_filter ld)
          (ld_admin_group ld))
       (au_api_tokens a) (au_session a))
    (mkHAConfig (hc_enabled ha) (hc_mode ha) (hc_priority ha) (hc_peer_address ha) (hc_heartbeat_interval ha)
       (hc_failover_timeout ha) (hc_lease_sync ha) shared (hc_witness_path ha) (hc_witness_hold_time ha))
    (cf_prometheus c) (cf_backup c) (cf_webhooks c).

Lemma secret_masked key s :
  is_sensitive_config_key key = true → trim_space s ≠ [] →
  (if secret_text key (JString s) then JString masked else mask_secrets (JString s)) = JString masked.
Proof. intros Hk Hs. unfold secret_text. by rewrite Hk, bool_decide_eq_false_2. Qed.

(** A key that tells of a secret: without the space around it and in lower case it has one of
    these words in it. *)
Definition sensitive (key : bytes) : Prop :=
  ∃ word before after, word ∈ ["password"; "secret"; "hash"; "token"; "private_key"; "privatekey"; "api_key"; "apikey";
      "credential"]%string ∧ to_lower (trim_space key) = before ++ bs word ++ after.

Lemma contains_app s sub : contains s sub = true ↔ ∃ before after, s = before ++ sub ++ after.
Proof.
  induction s as [|c s IH]; cbn [contains]; rewrite orb_true_iff, has_prefix_spec.
  - split.
    + intros [[r E]|?]; [|done]. exists [], r. exact E.
    + intros (a & b & E). left. destruct a; [|done]. by exists b.
  - rewrite IH. split.
    + intros [[r E]|(a & b & ->)]; [by exists [], r|by exists (c :: a), b].
    + intros (a & b & E). destruct a as [|x a]; [left; by exists b|right]. injection E as <- ->. by exists a, b.
Qed.

Lemma sensitive_key key : is_sensitive_config_key key = true ↔ sensitive key.
Proof.
  unfold is_sensitive_config_key, sensitive. cbv zeta. rewrite existsb_exists. split.
  - intros (word & Hw%list_elem_of_In & (a & b & E)%contains_app). unfold secret_markers in Hw.
    destruct (decide (word = "client_secret"%string)) as [->|Hne].
    + exists "secret"%string, (a ++ bs "client_"), b. split; [set_solver|]. rewrite E. by rewrite <-!app_assoc.
    + exists word, a, b. split; [set_solver|done].
  - intros (word & a & b & Hw & E). exists word. split; [apply list_elem_of_In; unfold secret_markers; set_solver|].
    apply contains_app. by exists a, b.
Qed.

Lemma step_reread s v : step s (reread v) = reread <$> step s v.
Proof.
  destruct s as [key|i], v as [| | | |items|members]; cbn; try done; [|by rewrite list_lookup_fmap].
  induction members as [|[k v] members IH]; [done|]. cbn. case_bool_decide; [by subst|done].
Qed.
Lemma at_path_reread path : ∀ v, at_path (reread v) path = reread <$> at_path v path.
Proof.
  induction path as [|s path IH]; intros v; [done|]. cbn. rewrite step_reread. destruct (step s v); [apply IH|done].
Qed.

(** What is shown for a text: at a member whose key tells of a secret it is masked when it
    is not blank, and everywhere else it is there as it is. *)
Lemma shown_text v path key s :
  at_path v (path ++ [inl key]) = Some (JString s) →
  (sensitive key ∧ trim_space s ≠ [] → at_path (sanitize_config_snapshot v) (path ++ [inl key]) = Some (JString masked)) ∧
  (¬ sensitive key ∨ trim_space s = [] → at_path (sanitize_config_snapshot v) (path ++ [inl key]) = Some (JString s)).
Proof.
  intros E. unfold sanitize_config_snapshot. rewrite mask_exact, at_path_reread, E. cbn [fmap option_fmap option_map reread masked_at mask_secrets].
  unfold secret_text.
  rewrite <-sensitive_key. split.
  - intros [-> Hs]. by rewrite bool_decide_eq_false_2.
  - intros [Hk%not_true_is_false| ->]; [by rewrite Hk|]. by rewrite bool_decide_eq_true_2, andb_false_r.
Qed.

End masking.

(** * Witnesses *)

#[local] Existing Instance ascii_tables.
#[local] Existing Instance small_slices.
#[local] Existing Instance listed_range.
#[local] Existing Instance split_urls.
#[local] Existing Instance plain_bcrypt.
#[local] Existing Instance no_json.
#[local] Existing Instance no_decoder.
#[local] Existing Instance empty_decoder.
#[local] Existing Instance number_http_time.
#[local] Existing Instance no_export.
#[local] Existing Instance number_times.
#[local] Existing Instance no_leases.
#[local] Instance same_numbers : JsonNumbers := {| reread_number := id |}.
#[local] Instance no_config_export : ConfigExport := {| config_yaml _ := Ok []; config_indent _ := Ok [] |}.

Definition demo_deps : SystemDeps (S := ()) :=
  mkSystemDeps (bs "dev") 0 (Some (λ _, None)) true None (bs ":67") None (Some true) true None false None None None None None None
    None None None.
Definition demo_snapshot : json := config_json default_config.
Definition demo_unmatched (r : HttpRequest) (h : headers) : outcome rest_data := http_not_found h.
Definition demo_config_request (cookie : string) : HttpRequest :=
  mkHttpRequest (bs "GET") (bs "/api/v1/system/config") (bs "dhcp.lan") (bs "10.0.0.9:1")
    false ∅ {[ bs "sid" := bs cookie ]} ∅ 0 [].
Definition with_snapshot : SystemDeps (S := ()) := with_callbacks demo_deps None (Some demo_snapshot) None None None None.
Definition system_serve (d : SystemDeps (S := ())) (r : HttpRequest) : RestState () * outcome rest_data :=
  rest_chain demo_settings (rest_server true d None demo_unmatched) demo_state r background ∅ demo_inputs.

(** An operator is refused the configuration. *)
Example demo_config_refused :
  let status (p : RestState () * outcome rest_data) := match p.2 with Reply n _ _ => n | Crash _ _ => 0 end in
  map (λ c, status (system_serve with_snapshot (demo_config_request c))) ["s1"; "s2"]%string = [403; 401].
Proof. vm_compute. reflexivity. Qed.

Lemma server_writes_authorized_witness :
  let r := demo_request "10.0.0.9:1" "s1" "http://dhcp.lan" in
  same_data demo_state (system_serve demo_deps r).1 ∨
  ∃ id, (resolve_identity demo_service r demo_inputs).2 = Some id ∧ has_role DefaultRoleOperator (id_role id) = true.
Proof.
  exact (server_writes_authorized demo_settings true demo_deps None demo_unmatched demo_state _ ∅ demo_inputs demo_service eq_refl eq_refl).
Defined.
Lemma system_needs_admin_witness :
  let r := demo_config_request "s1" in
  system_serve demo_deps r = system_serve with_snapshot r ∨
  ∃ id, (resolve_identity demo_service r demo_inputs).2 = Some id ∧ has_role DefaultRoleAdmin (id_role id) = true.
Proof.
  exact (system_needs_admin demo_settings true demo_deps None (Some demo_snapshot) None None None None None demo_unmatched
           demo_state _ ∅ demo_inputs demo_service eq_refl eq_refl).
Defined.

(** A webhook's Authorization header is shown, a header with a token in its name is not. *)
Definition demo_headers : gmap bytes bytes := {[ bs "Authorization" := bs "Bearer x"; bs "X-Token" := bs "y" ]}.
Definition hooked_config : Config :=
  let c := default_config in
  mkConfig (cf_server c) (cf_dhcp c) (cf_subnets c) (cf_discovery c) (cf_api c) (cf_dashboard c) (cf_auth c) (cf_ha c)
    (cf_prometheus c) (cf_backup c) [mkWebhookConfig (bs "hook") (bs "https://h") [] [] demo_headers 3 []].
Definition header_shown (name : string) : option json :=
  at_path (sanitize_config_snapshot (config_json hooked_config))
    [inl (bs "Webhooks"); inr 0%nat; inl (bs "Headers"); inl (bs name)].
Example authorization_header_shown :
  header_shown "Authorization" = Some (JString (bs "Bearer x")) ∧ header_shown "X-Token" = Some (JString (bs "***")).
Proof. vm_compute. done. Qed.

Definition demo_secrets : list bytes := map bs ["k1"; "$2a$x"; "pw"; "hush"; "k2"; "$2a$y"; "other"; "quiet"]%string.
Lemma demo_secrets_set : Forall (λ x, trim_space x ≠ []) demo_secrets.
Proof. refine (bool_decide_unpack _ _). vm_compute. exact I. Qed.

(** Two file systems that differ above the directory of the dashboard only. *)
Definition demo_source (secret : bytes) : SpaSource :=
  mkSpaSource (λ path, if bool_decide (path = bs "/../secret") then OpenFile secret
                       else if bool_decide (path = bs "/index.html") then OpenFile (bs "<html>") else OpenMissing)
    (λ path r h, http_not_found h).
Lemma demo_sources_agree segments :
  Forall segment segments → sp_open (demo_source (bs "a")) (path_text segments) = sp_open (demo_source (bs "b")) (path_text segments).
Proof.
  intros Hs. cbn. case_bool_decide as E; [exfalso|done]. destruct segments as [|x segments]; [done|].
  apply Forall_cons in Hs as [(_ & _ & Hx & Hslash) _]. unfold path_text in E. cbn in E.
  assert (Hp : ∃ rest, x ++ rest = bs "../secret").
  { injection E as E. destruct segments; cbn in E; eexists; [rewrite app_nil_r|]; exact E. }
  destruct Hp as [rest Hp]. apply (f_equal (λ l, take (length x) l)) in Hp. rewrite take_app_length in Hp.
  destruct (decide (length x ≤ 2)%nat) as [Hl|Hl].
  - destruct x as [|a [|b []]]; cbn in *; [by destruct rest, segments|by destruct segments|by injection Hp as -> ->|lia].
  - apply Hslash. rewrite Hp. apply list_elem_of_lookup_2 with (i := 2%nat). rewrite lookup_take_lt by lia. done.
Qed.
Lemma dashboard_stays_inside_witness :
  let r := mkHttpRequest (bs "GET") (bs "/../secret") [] [] false ∅ ∅ ∅ 0 [] in
  serve_dashboard (demo_source (bs "a")) [] [] r ∅ = serve_dashboard (demo_source (bs "b")) [] [] r ∅.
Proof. exact (dashboard_stays_inside _ _ [] [] _ ∅ demo_sources_agree (λ _ _ _ _, eq_refl)). Defined.
