(* ===== verification/Ddns.v ===== *)
(** internal/ddns: DNS updates for leases (RFC 2136) and their signatures (RFC 8945).

    A message goes to a server and an answer may come back: the server is a state with
    an exchange, which also stands for the network.  A reference server ([serve_dns])
    parses the message, checks its signature and applies it to a zone; the theorems say
    what the client makes it hold. *)

From S2P Require Import Prelude.
From S2P Require Import GoBytes.
From S2P Require Import GoStrings.
From S2P Require Import GoTime.
From S2P Require Import GoNet.
From S2P Require Import GoPort.
From S2P Require Import GoSha.
From S2P Require Import Lease.

(** * Names *)

(** [strings.Trim(s, ".")] and [strings.TrimSuffix(s, ".")] *)
Fixpoint drop_dots (s : bytes) : bytes := match s with c :: s' => if bool_decide (c = dot) then drop_dots s' else s | [] => [] end.
Definition trim_dots (s : bytes) : bytes := rev (drop_dots (rev (drop_dots s))).
Definition trim_last_dot (s : bytes) : bytes := if bool_decide (last s = Some dot) then removelast s else s.

Definition normalize_zone (zone : bytes) : bytes := trim_dots (trim_space zone).
Definition normalize_hostname (host : bytes) : bytes := trim_dots (trim_space host).
Definition ensure_fqdn (name : bytes) : bytes :=
  let name := trim_space name in
  if bool_decide (name = []) then [dot]
  else let name := trim_dots name in if bool_decide (name = []) then [dot] else name ++ [dot].

Definition encode_label (label : bytes) : bytes := byte_of_Z (zlen label) :: label.
Definition encode_name (name : bytes) : bytes :=
  let name := ensure_fqdn name in
  if bool_decide (name = [dot]) then [byte_of_Z 0]
  else concat (encode_label <$> split_byte (trim_last_dot name) dot) ++ [byte_of_Z 0].

Definition at_name : bytes := bs "@".
Fixpoint validate_labels (labels : list bytes) : option error :=
  match labels with
  | [] => None
  | label :: labels =>
      if bool_decide (label = []) then Some (errorNew "dns name contains empty label")
      else if 63 <? zlen label then Some (Errorf "dns label %q length %d exceeds max 63" [FB label; FZ (zlen label)])
      else validate_labels labels
  end.
Definition validate_dns_name (name : bytes) : option error :=
  let name := trim_space name in
  if bool_decide (name = []) then Some (errorNew "dns name is empty")
  else if bool_decide (name = at_name) then None
  else
    let trimmed := trim_last_dot (ensure_fqdn name) in
    if bool_decide (trimmed = []) then None
    else if 253 <? zlen trimmed then Some (Errorf "dns name length %d exceeds max 253" [FZ (zlen trimmed)])
    else validate_labels (split_byte trimmed dot).

(** * Records and messages *)

Record rr := mkRR { rr_owner : bytes; rr_typ : Z; rr_class : Z; rr_ttl : Z; rr_rdata : bytes }.
Record zoneUpdate := mkZoneUpdate { zu_zone : bytes; zu_records : list rr }.

Definition typeA : Z := 1.
Definition typeSOA : Z := 6.
Definition typePTR : Z := 12.
Definition typeAAAA : Z := 28.
Definition typeTSIG : Z := 250.
Definition classINET : Z := 1.
Definition classNONE : Z := 254.
Definition classANY : Z := 255.
Definition opcodeUpdate : Z := 5.

Definition encode_rr (r : rr) : result bytes :=
  if 65535 <? zlen (rr_rdata r) then Err (Errorf "record rdata too long for %s" [FB (rr_owner r)])
  else Ok (encode_name (rr_owner r) ++ be_put 2 (rr_typ r) ++ be_put 2 (rr_class r) ++ be_put 4 (rr_ttl r) ++
           be_put 2 (zlen (rr_rdata r)) ++ rr_rdata r).
Fixpoint encode_rrs (rs : list rr) : result bytes :=
  match rs with [] => Ok [] | r :: rs => x ← encode_rr r; y ← encode_rrs rs; Ok (x ++ y) end.

Section client.
Context `{UnicodeTables}.

Definition encode_name_canonical (name : bytes) : bytes := encode_name (to_lower (ensure_fqdn name)).

Record tsigSigner := mkSigner { ts_key_name : bytes; ts_algorithm : bytes; ts_secret : bytes; ts_fudge : Z }.
Definition algorithmSHA256 : bytes := bs "hmac-sha256.".
Definition new_tsig_signer (key_name secret algorithm : bytes) : result (option tsigSigner) :=
  let key_name := trim_space key_name in
  let secret := trim_space secret in
  if bool_decide (key_name = []) || bool_decide (secret = []) then Ok None
  else
    let algo := to_lower (trim_dots (trim_space algorithm)) in
    let algo := if bool_decide (algo = []) then bs "hmac-sha256" else algo in
    if negb (bool_decide (algo = bs "hmac-sha256")) then Err (Errorf "unsupported tsig algorithm %q" [FB algorithm])
    else
      match validate_dns_name key_name with
      | Some e => Err (Errorf "invalid tsig key name %q: %w" [FB key_name; FB (error_text e)])
      | None =>
          match b64_decode secret with
          | None => Err (Errorf "decode tsig secret: %w" [FB (bs "illegal base64 data")])
          | Some decoded => Ok (Some (mkSigner (ensure_fqdn key_name) algorithmSHA256 decoded 300))
          end
      end.

(** What the signature covers, and [sign]: the TSIG record. *)
Definition mac_input (s : tsigSigner) (message : bytes) (time_signed : Z) : bytes :=
  message ++ encode_name_canonical (ts_key_name s) ++ be_put 2 classANY ++ be_put 4 0 ++
  encode_name_canonical (ts_algorithm s) ++ be_put 6 time_signed ++ be_put 2 (ts_fudge s) ++ be_put 2 0 ++ be_put 2 0.
Definition tsig_rdata (s : tsigSigner) (mac : bytes) (msg_id time_signed : Z) : bytes :=
  encode_name (ts_algorithm s) ++ be_put 6 time_signed ++ be_put 2 (ts_fudge s) ++ be_put 2 (zlen mac) ++ mac ++
  be_put 2 msg_id ++ be_put 2 0 ++ be_put 2 0.
Definition sign (s : tsigSigner) (message : bytes) (msg_id : Z) (now : time) : result bytes :=
  let unix := unix now in
  if unix <? 0 then Err (errorNew "tsig timestamp before unix epoch is not supported")
  else
    let mac := hmac_sha256 (ts_secret s) (mac_input s message unix) in
    if 65535 <? zlen mac then Err (Errorf "tsig mac too long: %d" [FZ (zlen mac)])
    else
      let rdata := tsig_rdata s mac msg_id unix in
      if 65535 <? zlen rdata then Err (Errorf "tsig rdata too long: %d" [FZ (zlen rdata)])
      else Ok (encode_name (ts_key_name s) ++ be_put 2 typeTSIG ++ be_put 2 classANY ++ be_put 4 0 ++ be_put 2 (zlen rdata) ++ rdata).

(** * The client *)

Record DdnsConfig := mkDdnsConfig {
  dn_server_addr : bytes; dn_forward_zone : bytes; dn_reverse_zone : bytes; dn_tsig_key : bytes; dn_tsig_secret : bytes;
  dn_tsig_algorithm : bytes; dn_timeout : duration
}.
Record Client := mkClient {
  cl_server_addr : bytes; cl_forward_zone : bytes; cl_reverse_zone : bytes; cl_timeout : duration; cl_signer : option tsigSigner
}.
(** [net.JoinHostPort] *)
Definition join_host_port (host port : bytes) : bytes :=
  if bool_decide (colon ∈ host) || bool_decide (percent ∈ host) then byte_of_Z 91 :: host ++ bs "]:" ++ port else host ++ colon :: port.
Definition new_client (c : DdnsConfig) : result Client :=
  if bool_decide (trim_space (dn_server_addr c) = []) then Err (errorNew "ddns server address is required")
  else
    let addr := trim_space (dn_server_addr c) in
    let addr := match split_host_port addr with Some _ => addr | None => join_host_port addr (bs "53") end in
    let timeout := if dn_timeout c <=? 0 then 3 * second else dn_timeout c in
    signer ← new_tsig_signer (dn_tsig_key c) (dn_tsig_secret c) (dn_tsig_algorithm c);
    Ok (mkClient addr (normalize_zone (dn_forward_zone c)) (normalize_zone (dn_reverse_zone c)) timeout signer).

Inductive Action := ActionUpsert | ActionDelete.

Definition ip_type (ip : bytes) : Z := if bool_decide (to4 ip = []) then typeAAAA else typeA.
Definition ip_rdata (ip : bytes) : bytes := if bool_decide (to4 ip = []) then to16 ip else to4 ip.
Definition default_ttl_lease (d : duration) : Z :=
  if d <=? 0 then 300
  else
    let ttl := Z.quot d second in
    if ttl =? 0 then 300 else if 4294967295 <? ttl then 4294967295 else u32 ttl.
Definition forward_name (c : Client) (host : bytes) : bytes :=
  let host := normalize_hostname host in
  if bool_decide (host = []) then []
  else if bool_decide (dot ∈ host) then host
  else if bool_decide (cl_forward_zone c = []) then [] else host ++ dot :: cl_forward_zone c.

Definition reverse_ipv4_name (ip : bytes) : bytes :=
  join (map (λ b, fmt_d (byte_to_Z b)) (reverse ip)) [dot] ++ bs ".in-addr.arpa".
Definition reverse_ipv6_name (ip : bytes) : bytes :=
  join (reverse ip ≫= λ b, [[hex_digit (byte_to_Z b mod 16)]; [hex_digit (byte_to_Z b / 16)]]) [dot] ++ bs ".ip6.arpa".
Definition ends_with (s p : bytes) : bool := has_prefix (reverse s) (reverse p).
(** The name of a record relative to its zone. *)
Definition trim_zone_name (full configured_zone : bytes) : bytes * bytes :=
  let full := normalize_zone full in
  let zone := normalize_zone configured_zone in
  if bool_decide (full = []) then ([], [])
  else if bool_decide (zone = []) then
    let parts := split_byte full dot in
    if (length parts <? 2)%nat then (full, full) else (join (take 1 parts) [dot], join (drop 1 parts) [dot])
  else if bool_decide (full = zone) then (at_name, zone)
  else
    let suffix := dot :: zone in
    if ends_with full suffix then
      let name := trim_last_dot (take (length full - length suffix) full) in
      (if bool_decide (name = []) then at_name else name, zone)
    else (full, zone).
Definition reverse_names (ip configured_zone : bytes) : bytes * bytes :=
  if bool_decide (ip = []) then ([], [])
  else if bool_decide (to4 ip = []) then
    if bool_decide (to16 ip = []) then ([], []) else trim_zone_name (reverse_ipv6_name (to16 ip)) configured_zone
  else trim_zone_name (reverse_ipv4_name (to4 ip)) configured_zone.

(** The records that make a name have one value, or lose it. *)
Definition update_records (action : Action) (name : bytes) (typ ttl : Z) (rdata : bytes) : list rr :=
  match action with
  | ActionUpsert => [mkRR name typ classANY 0 []; mkRR name typ classINET ttl rdata]
  | ActionDelete => [mkRR name typ classNONE 0 rdata]
  end.
Fixpoint first_error (checks : list (option error)) : option error :=
  match checks with [] => None | Some e :: _ => Some e | None :: checks => first_error checks end.
Definition build_updates (c : Client) (action : Action) (item : Lease) : result (list zoneUpdate) :=
  let ip := parse_ip (trim_space (l_ip item)) in
  if bool_decide (ip = []) then Err (Errorf "invalid lease ip %q" [FB (l_ip item)])
  else
    let host := normalize_hostname (l_hostname item) in
    if bool_decide (host = []) then Ok []
    else
      let ttl := default_ttl_lease (l_duration item) in
      let fqdn := forward_name c host in
      if bool_decide (fqdn = []) then Ok []
      else
        let zone := cl_forward_zone c in
        match first_error [validate_dns_name fqdn; if bool_decide (zone = []) then None else validate_dns_name zone] with
        | Some e => Err e
        | None =>
            let forward := if bool_decide (zone = []) then []
                           else [mkZoneUpdate zone (update_records action fqdn (ip_type ip) ttl (ip_rdata ip))] in
            let '(ptr_name, ptr_zone) := reverse_names ip (cl_reverse_zone c) in
            if bool_decide (ptr_name = []) || bool_decide (ptr_zone = []) then Ok forward
            else
              let ptr_target := ensure_fqdn fqdn in
              match first_error [validate_dns_name ptr_name; validate_dns_name ptr_zone; validate_dns_name ptr_target] with
              | Some e => Err e
              | None => Ok (forward ++ [mkZoneUpdate ptr_zone (update_records action ptr_name typePTR ttl (encode_name ptr_target))])
              end
        end.

Definition message_header (msg_id records extra : Z) : bytes :=
  be_put 2 msg_id ++ be_put 2 (Z.shiftl opcodeUpdate 11) ++ be_put 2 1 ++ be_put 2 0 ++ be_put 2 records ++ be_put 2 extra.
Definition build_message (c : Client) (msg_id : Z) (u : zoneUpdate) (now : time) : result bytes :=
  let count := zlen (zu_records u) in
  if 65535 <? count then Err (Errorf "too many dns update records: %d" [FZ count])
  else
    records ← encode_rrs (zu_records u);
    let rest := encode_name (zu_zone u) ++ be_put 2 typeSOA ++ be_put 2 classINET ++ records in
    let body := message_header msg_id count 0 ++ rest in
    match cl_signer c with
    | None => Ok body
    | Some s => tsig ← sign s body msg_id now; Ok (message_header msg_id count 1 ++ rest ++ tsig)
    end.

Definition validate_zone_update (u : zoneUpdate) : option error :=
  let wrap fmt name e := Errorf fmt [FB name; FB (error_text e)] in
  match validate_dns_name (zu_zone u) with
  | Some e => Some (wrap "invalid update zone %q: %w"%string (zu_zone u) e)
  | None => first_error (map (λ r, wrap "invalid record name %q: %w"%string (rr_owner r) <$> validate_dns_name (rr_owner r)) (zu_records u))
  end.
Definition validate_response (msg : bytes) (id : Z) : option error :=
  if zlen msg <? 12 then Some (errorNew "short dns response")
  else if negb (be_get (take 2 msg) =? id) then Some (errorNew "dns response id mismatch")
  else
    let rcode := Z.land (be_get (take 2 (drop 2 msg))) 15 in
    if negb (rcode =? 0) then Some (Errorf "dns update rejected with rcode=%d" [FZ rcode]) else None.

(** The server and the network: an answer, or the error of the connection. *)
Section exchange.
Context {N : Type} (exchange : N → bytes → N * result bytes).

(** [sendUpdate]; the identifier comes from two random bytes. *)
Definition send_update (c : Client) (n : N) (u : zoneUpdate) (now : time) (random : result bytes) : N * option error :=
  if bool_decide (trim_space (zu_zone u) = []) || bool_decide (length (zu_records u) = O) then (n, None)
  else
    match validate_zone_update u with
    | Some e => (n, Some e)
    | None =>
        match random with
        | Err e => (n, Some (Errorf "generate dns message id: %w" [FB (error_text e)]))
        | Panic m => (n, Some (ErrIO m))
        | Ok raw =>
            let msg_id := be_get (take 2 raw) in
            match build_message c msg_id u now with
            | Err e => (n, Some e)
            | Panic m => (n, Some (ErrIO m))
            | Ok wire =>
                match exchange n wire with
                | (n, Ok response) => (n, validate_response (take 1500 response) msg_id)
                | (n, Err e) => (n, Some e)
                | (n, Panic m) => (n, Some (ErrIO m))
                end
            end
        end
    end.
Fixpoint send_updates (c : Client) (n : N) (us : list zoneUpdate) (now : time) (randoms : list (result bytes)) : N * option error :=
  match us with
  | [] => (n, None)
  | u :: us =>
      match send_update c n u now (default (Err (ErrIO "random")) (hd_error randoms)) with
      | (n, Some e) => (n, Some e)
      | (n, None) => send_updates c n us now (tl randoms)
      end
  end.
(** [Apply] and [Delete] *)
Definition perform (c : Client) (action : Action) (n : N) (item : Lease) (now : time) (randoms : list (result bytes)) : N * option error :=
  match build_updates c action item with
  | Err e => (n, Some e)
  | Panic m => (n, Some (ErrIO m))
  | Ok us => send_updates c n us now randoms
  end.
End exchange.
End client.

(** * A reference server *)

(** Names as lists of labels. *)
Definition name_labels (name : bytes) : list bytes :=
  let trimmed := trim_last_dot (ensure_fqdn name) in if bool_decide (trimmed = []) then [] else split_byte trimmed dot.

Definition parser (A : Type) := bytes → option (A * bytes).
Definition parse_uint (n : nat) : parser Z := λ s,
  if (length s <? n)%nat then None else Some (be_get (take n s), drop n s).
Definition parse_bytes (n : nat) : parser bytes := λ s,
  if (length s <? n)%nat then None else Some (take n s, drop n s).
Fixpoint parse_labels (fuel : nat) : parser (list bytes) := λ s,
  match fuel, s with
  | S fuel, c :: s =>
      let len := byte_to_Z c in
      if len =? 0 then Some ([], s)
      else if 63 <? len then None
      else '(label, s) ← parse_bytes (Z.to_nat len) s; '(labels, s) ← parse_labels fuel s; Some (label :: labels, s)
  | _, _ => None
  end.
Definition parse_name : parser (list bytes) := λ s, parse_labels (length s) s.

Record dns_record := mkRecord { dr_name : list bytes; dr_typ : Z; dr_class : Z; dr_ttl : Z; dr_rdata : bytes }.
Definition parse_record : parser dns_record := λ s,
  '(name, s) ← parse_name s; '(typ, s) ← parse_uint 2 s; '(class, s) ← parse_uint 2 s; '(ttl, s) ← parse_uint 4 s;
  '(len, s) ← parse_uint 2 s; '(rdata, s) ← parse_bytes (Z.to_nat len) s; Some (mkRecord name typ class ttl rdata, s).
Fixpoint parse_records (n : nat) : parser (list dns_record) := λ s,
  match n with
  | O => Some ([], s)
  | S n => '(r, s) ← parse_record s; '(rs, s) ← parse_records n s; Some (r :: rs, s)
  end.

(** A message of updates; [dm_signed] is what a signature covers of it. *)
Record dns_message := mkMessage {
  dm_id : Z; dm_flags : Z; dm_zone : list bytes; dm_typ : Z; dm_class : Z; dm_updates : list dns_record;
  dm_signed : bytes; dm_extra : list dns_record
}.
Definition parse_message (wire : bytes) : option dns_message :=
  '(id, s) ← parse_uint 2 wire; '(flags, s) ← parse_uint 2 s; '(zones, s) ← parse_uint 2 s; '(pre, s) ← parse_uint 2 s;
  '(updates, s) ← parse_uint 2 s; '(extra, s) ← parse_uint 2 s;
  '(zone, s) ← parse_name s; '(typ, s) ← parse_uint 2 s; '(class, s) ← parse_uint 2 s;
  '(rs, rest) ← parse_records (Z.to_nat updates) s;
  '(es, tail) ← parse_records (Z.to_nat extra) rest;
  if bool_decide (zones = 1) && bool_decide (pre = 0) && bool_decide (tail = []) then
    let signed := take 10 wire ++ be_put 2 (extra - 1) ++ take (length wire - 12 - length rest) (drop 12 wire) in
    Some (mkMessage id flags zone typ class rs signed es)
  else None.

(** Zones: values of names by their type. *)
Abbreviation zone_data := (gset (list bytes * Z * bytes)).

Section server.
Context `{UnicodeTables}.

(** The key a server shares with its clients. *)
Record dns_key := mkKey { ky_name : bytes; ky_secret : bytes }.
Record tsig_fields := mkTsig { tf_time : Z; tf_fudge : Z; tf_mac : bytes; tf_error : Z; tf_other : bytes }.
Definition parse_tsig (rdata : bytes) : option tsig_fields :=
  '(algorithm, s) ← parse_name rdata; '(time, s) ← parse_uint 6 s; '(fudge, s) ← parse_uint 2 s; '(size, s) ← parse_uint 2 s;
  '(mac, s) ← parse_bytes (Z.to_nat size) s; '(_, s) ← parse_uint 2 s; '(error, s) ← parse_uint 2 s; '(size, s) ← parse_uint 2 s;
  '(other, s) ← parse_bytes (Z.to_nat size) s;
  if bool_decide (algorithm = name_labels algorithmSHA256) && bool_decide (s = []) then Some (mkTsig time fudge mac error other) else None.
(** RFC 8945, 5.2: the record is last, its digest is the one of the key, and the time is near. *)
Definition verify (key : dns_key) (m : dns_message) (now_unix : Z) : bool :=
  match dm_extra m with
  | [r] =>
      match parse_tsig (dr_rdata r) with
      | Some t =>
          bool_decide (dr_typ r = typeTSIG) && bool_decide (dr_class r = classANY) && bool_decide (dr_ttl r = 0) &&
          bool_decide (dr_name r = name_labels (ky_name key)) && (Z.abs (now_unix - tf_time t) <=? tf_fudge t) &&
          bool_decide (tf_mac t = hmac_sha256 (ky_secret key)
            (dm_signed m ++ encode_name_canonical (ky_name key) ++ be_put 2 classANY ++ be_put 4 0 ++
             encode_name_canonical algorithmSHA256 ++ be_put 6 (tf_time t) ++ be_put 2 (tf_fudge t) ++ be_put 2 (tf_error t) ++
             be_put 2 (zlen (tf_other t)) ++ tf_other t))
      | None => false
      end
  | _ => false
  end.

Definition authentic (key : option dns_key) (m : dns_message) (now_unix : Z) : bool :=
  match key with Some key => verify key m now_unix | None => bool_decide (dm_extra m = []) end.

Definition in_zone (zone name : list bytes) : bool := bool_decide (drop (length name - length zone) name = zone).
(** RFC 2136, 3.4.2, for the three kinds of record the client sends. *)
Definition apply_record (data : zone_data) (r : dns_record) : zone_data :=
  if dr_class r =? classANY then filter (λ x, ¬ (x.1.1 = dr_name r ∧ x.1.2 = dr_typ r)) data
  else if dr_class r =? classNONE then data ∖ {[ (dr_name r, dr_typ r, dr_rdata r) ]}
  else {[ (dr_name r, dr_typ r, dr_rdata r) ]} ∪ data.
Record DnsServer := mkServer { dz_zones : list (list bytes); dz_data : zone_data; dz_key : option dns_key; dz_unix : Z }.

Definition answer (id rcode : Z) : bytes :=
  be_put 2 id ++ be_put 2 (Z.lor (Z.lor 32768 (Z.shiftl opcodeUpdate 11)) rcode) ++ be_put 8 0.
Definition rcode_of (s : DnsServer) (m : dns_message) : Z :=
  if negb (bool_decide (dm_flags m = Z.shiftl opcodeUpdate 11)) || negb (bool_decide (dm_typ m = typeSOA)) then 1
  else if negb (authentic (dz_key s) m (dz_unix s)) then 9
  else if negb (bool_decide (dm_zone m ∈ dz_zones s)) then 9
  else if negb (forallb (λ r, in_zone (dm_zone m) (dr_name r)) (dm_updates m)) then 10
  else 0.
Definition serve_dns (s : DnsServer) (wire : bytes) : DnsServer * result bytes :=
  match parse_message wire with
  | None => (s, Ok (answer (be_get (take 2 wire)) 1))
  | Some m =>
      let rcode := rcode_of s m in
      (if rcode =? 0 then mkServer (dz_zones s) (foldl apply_record (dz_data s) (dm_updates m)) (dz_key s) (dz_unix s) else s,
       Ok (answer (dm_id m) rcode))
  end.
End server.

(** * What the messages say *)

Lemma drop_dots_app s : ∃ p, s = p ++ drop_dots s.
Proof.
  induction s as [|c s [p IH]]; cbn; [by exists []|]. case_bool_decide; [|by exists []].
  exists (c :: p). cbn. by rewrite <-IH.
Qed.
Lemma trim_last_dot_snoc s : trim_last_dot (s ++ [dot]) = s.
Proof. unfold trim_last_dot. rewrite last_snoc, bool_decide_eq_true_2 by done. apply removelast_last. Qed.
Lemma ensure_fqdn_shape name : ∃ s, ensure_fqdn name = s ++ [dot].
Proof.
  unfold ensure_fqdn. destruct (bool_decide (trim_space name = [])); [by exists []|]. cbv zeta.
  destruct (bool_decide (trim_dots _ = [])); [by exists []|]. by eexists.
Qed.
Lemma ensure_fqdn_trim name : ensure_fqdn (trim_space name) = ensure_fqdn name.
Proof. unfold ensure_fqdn. by rewrite trim_space_idemp. Qed.
Lemma encode_name_labels name : encode_name name = concat (encode_label <$> name_labels name) ++ [byte_of_Z 0].
Proof.
  unfold encode_name, name_labels. destruct (ensure_fqdn_shape name) as [s E]. rewrite E, trim_last_dot_snoc.
  destruct (decide (s = [])) as [->|Hs]; [done|]. rewrite !bool_decide_eq_false_2; [done|done|].
  intros H'. apply (app_inj_tail s [] dot dot) in H' as [H' _]. done.
Qed.

Definition label_ok (label : bytes) : Prop := (1 ≤ length label ≤ 63)%nat.
Lemma validate_labels_ok labels : validate_labels labels = None → Forall label_ok labels.
Proof.
  induction labels as [|l labels IH]; cbn; [constructor|]. case_bool_decide as Hl; [done|].
  destruct (63 <? zlen l) eqn:E; [done|]. intros H'. constructor; [|by apply IH].
  unfold label_ok. apply Z.ltb_ge in E. unfold zlen in E. destruct l; [done|]. cbn [length] in *. lia.
Qed.
Lemma split_at_name : split_byte at_name dot = [at_name].
Proof. by vm_compute. Qed.
Lemma validated_labels name : validate_dns_name name = None → Forall label_ok (name_labels name).
Proof.
  unfold validate_dns_name, name_labels. rewrite <-(ensure_fqdn_trim name). set (n := trim_space name).
  case_bool_decide as H1; [done|]. case_bool_decide as H2.
  - intros _. rewrite H2. replace (trim_last_dot (ensure_fqdn at_name)) with at_name by (by vm_compute).
    rewrite bool_decide_eq_false_2, split_at_name by done. repeat constructor; vm_compute; lia.
  - cbv zeta. case_bool_decide; [constructor|]. destruct (253 <? _); [done|]. apply validate_labels_ok.
Qed.

Lemma parse_uint_put n z s : 0 ≤ z < 256 ^ Z.of_nat n → parse_uint n (be_put n z ++ s) = Some (z, s).
Proof.
  intros Hz. unfold parse_uint. rewrite length_app, be_put_length.
  destruct (Nat.ltb_spec (n + length s) n); [lia|]. by rewrite take_be, drop_be, be_get_put_id.
Qed.
Lemma parse_bytes_app b s : parse_bytes (Z.to_nat (zlen b)) (b ++ s) = Some (b, s).
Proof.
  unfold parse_bytes. rewrite take_zlen, drop_zlen. unfold zlen. rewrite length_app.
  destruct (Nat.ltb_spec (length b + length s) (Z.to_nat (Z.of_nat (length b)))); [lia|done].
Qed.
Lemma parse_labels_concat labels fuel s :
  Forall label_ok labels → (length labels < fuel)%nat →
  parse_labels fuel (concat (encode_label <$> labels) ++ byte_of_Z 0 :: s) = Some (labels, s).
Proof.
  intros Hl. revert fuel. induction Hl as [|l labels Hl _ IH]; intros [|fuel] Hf; cbn in Hf; try lia; [done|].
  cbn [fmap list_fmap concat]. rewrite <-app_assoc. unfold encode_label at 1. cbn [app parse_labels].
  assert (E : byte_to_Z (byte_of_Z (zlen l)) = zlen l) by (unfold label_ok, zlen in *; rewrite byte_to_of_Z, Z.mod_small; lia).
  rewrite E. unfold label_ok in Hl. assert (1 ≤ zlen l ≤ 63) by (unfold zlen; lia).
  destruct (Z.eqb_spec (zlen l) 0); [lia|]. destruct (Z.ltb_spec 63 (zlen l)); [lia|].
  rewrite parse_bytes_app. cbn [mbind option_bind]. rewrite IH by lia. done.
Qed.
Lemma concat_labels_length labels : (length labels ≤ length (concat (encode_label <$> labels)))%nat.
Proof. induction labels as [|l labels IH]; cbn; [lia|]. rewrite length_app. lia. Qed.
Lemma parse_name_encode name s :
  Forall label_ok (name_labels name) → parse_name (encode_name name ++ s) = Some (name_labels name, s).
Proof.
  intros Hl. unfold parse_name. rewrite encode_name_labels, <-app_assoc. cbn [app]. apply parse_labels_concat; [done|].
  pose proof (concat_labels_length (name_labels name)). rewrite length_app. cbn. lia.
Qed.
Lemma encode_name_nonempty name : encode_name name ≠ [].
Proof. rewrite encode_name_labels. by destruct (concat _). Qed.

Definition record_of (r : rr) : dns_record := mkRecord (name_labels (rr_owner r)) (rr_typ r) (rr_class r) (rr_ttl r) (rr_rdata r).
(** The fields of a record at their width, and its name one that can be encoded. *)
Definition rr_wf (r : rr) : Prop :=
  Forall label_ok (name_labels (rr_owner r)) ∧ 0 ≤ rr_typ r < 65536 ∧ 0 ≤ rr_class r < 65536 ∧ 0 ≤ rr_ttl r < 4294967296.

Ltac parse_step :=
  first [rewrite parse_name_encode by assumption | rewrite parse_uint_put by (cbn; lia) | rewrite parse_bytes_app]; cbn [mbind option_bind].

Lemma parse_record_of owner typ class ttl rdata s :
  Forall label_ok (name_labels owner) → 0 ≤ typ < 65536 → 0 ≤ class < 65536 → 0 ≤ ttl < 4294967296 → zlen rdata ≤ 65535 →
  parse_record (encode_name owner ++ be_put 2 typ ++ be_put 2 class ++ be_put 4 ttl ++ be_put 2 (zlen rdata) ++ rdata ++ s) =
  Some (mkRecord (name_labels owner) typ class ttl rdata, s).
Proof.
  intros Hn Ht Hc Hl Hd. assert (0 ≤ zlen rdata) by (unfold zlen; lia). unfold parse_record. by repeat parse_step.
Qed.
Lemma parse_record_encode r w s : rr_wf r → encode_rr r = Ok w → parse_record (w ++ s) = Some (record_of r, s).
Proof.
  intros (Hn & Ht & Hc & Hl) E. unfold encode_rr in E. destruct (Z.ltb_spec 65535 (zlen (rr_rdata r))); [done|].
  injection E as <-. rewrite <-!app_assoc. by apply parse_record_of.
Qed.
Lemma parse_records_encode rs w s :
  Forall rr_wf rs → encode_rrs rs = Ok w → parse_records (length rs) (w ++ s) = Some (record_of <$> rs, s).
Proof.
  intros Hrs. revert w. induction Hrs as [|r rs Hr _ IH]; intros w E; cbn in E; [by injection E as <-|].
  destruct (encode_rr r) as [x| |] eqn:Ex; [|done|done]. cbn in E. destruct (encode_rrs rs) as [y| |] eqn:Ey; [|done|done].
  injection E as <-. cbn [length parse_records]. rewrite <-app_assoc, (parse_record_encode r x) by done. cbn [mbind option_bind].
  rewrite (IH y) by done. done.
Qed.

Definition message_rest (zone w : bytes) : bytes := encode_name zone ++ be_put 2 typeSOA ++ be_put 2 classINET ++ w.
Lemma message_header_parts id count extra :
  message_header id count extra = (be_put 2 id ++ be_put 2 (Z.shiftl opcodeUpdate 11) ++ be_put 2 1 ++ be_put 2 0 ++ be_put 2 count) ++ be_put 2 extra.
Proof. unfold message_header. by rewrite <-!app_assoc. Qed.
Lemma length_message_header id count extra : length (message_header id count extra) = 12%nat.
Proof. unfold message_header. rewrite !length_app, !be_put_length. done. Qed.
Lemma take_header id count extra s :
  take 10 (message_header id count extra ++ s) = be_put 2 id ++ be_put 2 (Z.shiftl opcodeUpdate 11) ++ be_put 2 1 ++ be_put 2 0 ++ be_put 2 count.
Proof.
  rewrite message_header_parts, <-app_assoc. apply take_app_length'. rewrite !length_app, !be_put_length. done.
Qed.
Lemma parse_message_of id zone rs w extra tail es :
  0 ≤ id < 65536 → Forall label_ok (name_labels zone) → Forall rr_wf rs → encode_rrs rs = Ok w → zlen rs ≤ 65535 → 0 ≤ extra < 65536 →
  parse_records (Z.to_nat extra) tail = Some (es, []) →
  parse_message (message_header id (zlen rs) extra ++ message_rest zone w ++ tail) =
  Some (mkMessage id (Z.shiftl opcodeUpdate 11) (name_labels zone) typeSOA classINET (record_of <$> rs)
          (message_header id (zlen rs) (extra - 1) ++ message_rest zone w) es).
Proof.
  intros Hid Hz Hrs Hw Hn Hx Ht. assert (0 ≤ zlen rs) by (unfold zlen; lia).
  unfold parse_message. set (wire := message_header id (zlen rs) extra ++ _). set (out := Some (mkMessage _ _ _ _ _ _ _ _)).
  assert (E : wire = be_put 2 id ++ be_put 2 10240 ++ be_put 2 1 ++ be_put 2 0 ++ be_put 2 (zlen rs) ++ be_put 2 extra ++
                     encode_name zone ++ be_put 2 typeSOA ++ be_put 2 classINET ++ w ++ tail)
    by (unfold wire, message_header, message_rest; by rewrite <-!app_assoc).
  rewrite E at 1. do 6 parse_step. unfold typeSOA, classINET. do 3 parse_step.
  replace (Z.to_nat (zlen rs)) with (length rs) by (unfold zlen; lia).
  rewrite (parse_records_encode rs w) by done. cbn [mbind option_bind]. rewrite Ht. cbn [mbind option_bind].
  cbn [bool_decide decide_rel andb]. change (bool_decide (1 = 1) && bool_decide (0 = 0) && bool_decide (@nil byte = [])) with true.
  cbn iota. unfold out. do 2 f_equal. unfold wire at 1. rewrite take_header.
  rewrite message_header_parts. rewrite <-(app_assoc _ (be_put 2 (extra - 1))). do 2 f_equal. unfold wire.
  rewrite drop_app_length' by (by rewrite length_message_header). rewrite !length_app, length_message_header.
  apply take_app_length'. unfold typeSOA, classINET. lia.
Qed.

(** What the server understands of a message of the client. *)
Section sent.
Context `{UnicodeTables}.
Lemma parse_tsig_record s mac id now :
  Forall label_ok (name_labels (ts_key_name s)) → 0 ≤ id < 65536 → 0 ≤ now < 256 ^ 6 → 0 ≤ ts_fudge s < 65536 → zlen mac ≤ 65535 →
  ts_algorithm s = algorithmSHA256 →
  parse_tsig (tsig_rdata s mac id now) = Some (mkTsig now (ts_fudge s) mac 0 []).
Proof.
  intros Hk Hid Hnow Hf Hm Ha. assert (0 ≤ zlen mac) by (unfold zlen; lia). unfold parse_tsig, tsig_rdata. rewrite Ha.
  assert (Hal : Forall label_ok (name_labels algorithmSHA256)) by (apply validated_labels; by vm_compute).
  do 3 parse_step. do 4 parse_step. rewrite <-(app_nil_r (be_put 2 0)). parse_step. done.
Qed.
End sent.

(** * What the client makes the server hold *)

Section applied.
Context `{UnicodeTables}.

(** Client and server share the key and nearly the time, or use none. *)
Definition trusted (key : option dns_key) (signer : option tsigSigner) (server_unix client_unix : Z) : Prop :=
  match key, signer with
  | None, None => True
  | Some key, Some s =>
      ky_name key = ts_key_name s ∧ ky_secret key = ts_secret s ∧ ts_algorithm s = algorithmSHA256 ∧ 0 ≤ ts_fudge s < 65536 ∧
      validate_dns_name (ts_key_name s) = None ∧ 0 ≤ client_unix < 256 ^ 6 ∧ Z.abs (server_unix - client_unix) ≤ ts_fudge s
  | _, _ => False
  end.
Definition widths (r : rr) : Prop := 0 ≤ rr_typ r < 65536 ∧ 0 ≤ rr_class r < 65536 ∧ 0 ≤ rr_ttl r < 4294967296.
Lemma first_error_none checks : first_error checks = None → Forall (λ x, x = None) checks.
Proof. induction checks as [|[e|] checks IH]; cbn; [constructor|done|]. intros. constructor; [done|by apply IH]. Qed.
Lemma validated_update u :
  validate_zone_update u = None → Forall widths (zu_records u) →
  Forall label_ok (name_labels (zu_zone u)) ∧ Forall rr_wf (zu_records u).
Proof.
  unfold validate_zone_update. destruct (validate_dns_name (zu_zone u)) eqn:Ez; [done|]. intros Hv%first_error_none Hw.
  split; [by apply validated_labels|]. rewrite Forall_map in Hv. rewrite !Forall_forall in *. intros r Hr.
  specialize (Hv r Hr). cbn in Hv. destruct (validate_dns_name (rr_owner r)) eqn:Eo; [done|].
  split; [by apply validated_labels|exact (Hw r Hr)].
Qed.

Lemma ok_inj {A} (x y : A) : Ok x = Ok y → x = y.
Proof. by intros [= ->]. Qed.
Lemma sign_ok s message id now :
  0 ≤ unix now → ts_algorithm s = algorithmSHA256 →
  sign s message id now =
    Ok (let rdata := tsig_rdata s (hmac_sha256 (ts_secret s) (mac_input s message (unix now))) id (unix now) in
        encode_name (ts_key_name s) ++ be_put 2 typeTSIG ++ be_put 2 classANY ++ be_put 4 0 ++ be_put 2 (zlen rdata) ++ rdata) ∧
  zlen (tsig_rdata s (hmac_sha256 (ts_secret s) (mac_input s message (unix now))) id (unix now)) ≤ 65535 ∧
  zlen (hmac_sha256 (ts_secret s) (mac_input s message (unix now))) ≤ 65535.
Proof.
  intros Hn Ha. unfold sign. set (mac := hmac_sha256 _ _).
  assert (Hm : zlen mac ≤ 32) by apply sha256_length. clearbody mac.
  assert (Hr : zlen (tsig_rdata s mac id (unix now)) ≤ 65535).
  { unfold tsig_rdata. rewrite Ha, !zlen_app, !zlen_be. change (zlen (encode_name algorithmSHA256)) with 13. lia. }
  destruct (Z.ltb_spec (unix now) 0); [lia|]. destruct (Z.ltb_spec 65535 (zlen mac)); [lia|]. cbv zeta.
  destruct (Z.ltb_spec 65535 (zlen (tsig_rdata s mac id (unix now)))); [lia|]. split; [done|lia].
Qed.
Lemma build_message_received c key sunix id u now wire :
  0 ≤ id < 65536 → validate_zone_update u = None → Forall widths (zu_records u) → trusted key (cl_signer c) sunix (unix now) →
  build_message c id u now = Ok wire →
  ∃ signed es, let m := mkMessage id (Z.shiftl opcodeUpdate 11) (name_labels (zu_zone u)) typeSOA classINET (record_of <$> zu_records u) signed es in
    parse_message wire = Some m ∧ authentic key m sunix = true.
Proof.
  intros Hid Hv Hw Ht. destruct (validated_update u Hv Hw) as [Hz Hr]. unfold build_message.
  destruct (Z.ltb_spec 65535 (zlen (zu_records u))); [done|]. destruct (encode_rrs (zu_records u)) as [w| |] eqn:Ew; [|done|done].
  cbn [mbind result_bind]. change (encode_name (zu_zone u) ++ be_put 2 typeSOA ++ be_put 2 classINET ++ w) with (message_rest (zu_zone u) w).
  destruct (cl_signer c) as [s|], key as [key|]; cbn in Ht; try done.
  - destruct Ht as (Hkn & Hks & Ha & Hf & Hk & Hnow & Hskew). set (body := message_header id (zlen (zu_records u)) 0 ++ message_rest (zu_zone u) w).
    destruct (sign_ok s body id now) as (Es & Hrd & Hmac); [lia|done|]. cbv zeta in Es. rewrite Es. cbn [mbind result_bind]. intros <-%ok_inj.
    apply validated_labels in Hk. eexists _, _. split.
    + apply (parse_message_of id (zu_zone u) (zu_records u) w 1); try done; try lia.
      change (Z.to_nat 1) with 1%nat. cbn [parse_records].
      match goal with |- context [parse_record ?x] => rewrite <-(app_nil_r x) end. repeat rewrite <-app_assoc.
      rewrite parse_record_of by (done || (unfold typeTSIG, classANY; lia)). done.
    + cbn [authentic]. unfold verify. cbn [dm_extra dm_signed dr_rdata dr_typ dr_class dr_ttl dr_name].
      rewrite parse_tsig_record by (done || lia). cbn [tf_time tf_fudge tf_mac tf_error tf_other]. rewrite Hkn, Hks.
      rewrite !bool_decide_eq_true_2; [|unfold mac_input; rewrite Ha; reflexivity|done..].
      cbn [andb]. destruct (Z.leb_spec (Z.abs (sunix - unix now)) (ts_fudge s)); [done|lia].
  - intros [= <-]. eexists _, []. split; [|by cbn].
    rewrite <-(app_nil_r (message_rest _ _)). by apply (parse_message_of id (zu_zone u) (zu_records u) w 0).
Qed.
(** Whatever the server's key and clock, it understands the updates of a message. *)
Definition signs (signer : option tsigSigner) : Prop :=
  match signer with None => True | Some s => ts_algorithm s = algorithmSHA256 ∧ validate_dns_name (ts_key_name s) = None end.
Lemma build_message_parsed c id u now wire :
  0 ≤ id < 65536 → validate_zone_update u = None → Forall widths (zu_records u) → signs (cl_signer c) →
  build_message c id u now = Ok wire →
  ∃ signed es, parse_message wire =
    Some (mkMessage id (Z.shiftl opcodeUpdate 11) (name_labels (zu_zone u)) typeSOA classINET (record_of <$> zu_records u) signed es).
Proof.
  intros Hid Hv Hw Ht. destruct (validated_update u Hv Hw) as [Hz Hr]. unfold build_message.
  destruct (Z.ltb_spec 65535 (zlen (zu_records u))); [done|]. destruct (encode_rrs (zu_records u)) as [w| |] eqn:Ew; [|done|done].
  cbn [mbind result_bind]. change (encode_name (zu_zone u) ++ be_put 2 typeSOA ++ be_put 2 classINET ++ w) with (message_rest (zu_zone u) w).
  destruct (cl_signer c) as [s|]; cbn in Ht.
  - destruct Ht as (Ha & Hk). set (body := message_header id (zlen (zu_records u)) 0 ++ message_rest (zu_zone u) w).
    destruct (Z.ltb_spec (unix now) 0); [unfold sign; by rewrite (proj2 (Z.ltb_lt _ _))|].
    destruct (sign_ok s body id now) as (Es & Hrd & Hmac); [lia|done|]. cbv zeta in Es. rewrite Es. cbn [mbind result_bind]. intros <-%ok_inj.
    apply validated_labels in Hk. eexists _, _.
    apply (parse_message_of id (zu_zone u) (zu_records u) w 1); try done; try lia.
    change (Z.to_nat 1) with 1%nat. cbn [parse_records].
    match goal with |- context [parse_record ?x] => rewrite <-(app_nil_r x) end. repeat rewrite <-app_assoc.
    rewrite parse_record_of by (done || (unfold typeTSIG, classANY; lia)). done.
  - intros [= <-]. eexists _, []. rewrite <-(app_nil_r (message_rest _ _)). by apply (parse_message_of id (zu_zone u) (zu_records u) w 0).
Qed.

Lemma validate_answer id rcode :
  0 ≤ id < 65536 → 0 ≤ rcode < 16 →
  validate_response (take 1500 (answer id rcode)) id = if rcode =? 0 then None else Some (Errorf "dns update rejected with rcode=%d" [FZ rcode]).
Proof.
  intros Hid Hr. unfold answer, validate_response. rewrite take_ge by (rewrite !length_app, !be_put_length; lia).
  rewrite !zlen_app, !zlen_be. change (_ <? 12) with false. cbn iota. rewrite take_be, be_get_put_id, Z.eqb_refl by (cbn; lia). cbn [negb].
  rewrite drop_be, take_be. replace (Z.land _ 15) with rcode; [by destruct (Z.eqb_spec rcode 0)|].
  assert (In rcode [0;1;2;3;4;5;6;7;8;9;10;11;12;13;14;15]) as Hin.
  { cbn. lia. }
  cbn in Hin. repeat (destruct Hin as [<-|Hin]; [by vm_compute|]). done.
Qed.

(** What a server without faults does with a batch. *)
Definition rejected (rcode : Z) : option error := Some (Errorf "dns update rejected with rcode=%d" [FZ rcode]).
Definition served (s : DnsServer) (u : zoneUpdate) : DnsServer * option error :=
  if negb (bool_decide (name_labels (zu_zone u) ∈ dz_zones s)) then (s, rejected 9)
  else if negb (forallb (λ r, in_zone (name_labels (zu_zone u)) (dr_name r)) (record_of <$> zu_records u)) then (s, rejected 10)
  else (mkServer (dz_zones s) (foldl apply_record (dz_data s) (record_of <$> zu_records u)) (dz_key s) (dz_unix s), None).

Lemma be_get_two raw : 0 ≤ be_get (take 2 raw) < 65536.
Proof.
  pose proof (be_get_range (take 2 raw)) as Hr. rewrite length_take in Hr.
  assert (256 ^ Z.of_nat (2 `min` length raw) ≤ 256 ^ 2) by (apply Z.pow_le_mono_r; lia). lia.
Qed.
Lemma serve_received s wire u signed es id :
  0 ≤ id < 65536 →
  let m := mkMessage id (Z.shiftl opcodeUpdate 11) (name_labels (zu_zone u)) typeSOA classINET (record_of <$> zu_records u) signed es in
  parse_message wire = Some m → authentic (dz_key s) m (dz_unix s) = true →
  (let '(s', r) := serve_dns s wire in
   match r with Ok response => (s', validate_response (take 1500 response) id) | Err e => (s', Some e) | Panic msg => (s', Some (ErrIO msg)) end)
  = served s u.
Proof.
  intros Hid m Hp Ha. unfold serve_dns. rewrite Hp. unfold rcode_of, served. rewrite Ha. cbn [m dm_flags dm_typ dm_zone dm_updates dm_id].
  rewrite !(bool_decide_eq_true_2 (_ = _)) by done. cbn [negb orb].
  destruct (negb (bool_decide (_ ∈ _))); [cbn iota; by rewrite validate_answer|].
  destruct (negb (forallb _ _)); cbn iota; by rewrite validate_answer.
Qed.

(** A message the server does not take changes nothing. *)
Lemma serve_parsed s wire u signed es id :
  parse_message wire =
    Some (mkMessage id (Z.shiftl opcodeUpdate 11) (name_labels (zu_zone u)) typeSOA classINET (record_of <$> zu_records u) signed es) →
  (serve_dns s wire).1 = s ∨ (serve_dns s wire).1 = (served s u).1.
Proof.
  intros Hp. unfold serve_dns. rewrite Hp. cbv zeta. unfold rcode_of, served. cbn [dm_flags dm_typ dm_zone dm_updates dm_id].
  rewrite !(bool_decide_eq_true_2 (_ = _)) by done. cbn [negb orb]. destruct (negb (authentic _ _ _)); [by left|].
  destruct (negb (bool_decide (_ ∈ _))); [by left|]. destruct (negb (forallb _ _)); [by left|by right].
Qed.

(** An exchange either never happened or is the one of the served batch. *)
Lemma send_update_served c s u now random :
  Forall widths (zu_records u) → trusted (dz_key s) (cl_signer c) (dz_unix s) (unix now) →
  (send_update serve_dns c s u now random).1 = s ∨ send_update serve_dns c s u now random = served s u.
Proof.
  intros Hw Ht. unfold send_update. destruct (_ || _); [by left|]. destruct (validate_zone_update u) eqn:Ev; [by left|].
  destruct random as [raw|e|m]; [|by left..]. cbv zeta. destruct (build_message _ _ _ _) as [wire|e|m] eqn:Ew; [|by left..].
  right. destruct (build_message_received c (dz_key s) (dz_unix s) _ u now wire (be_get_two raw) Ev Hw Ht Ew) as (signed & es & Hp & Ha).
  pose proof (serve_received s wire u signed es _ (be_get_two raw) Hp Ha) as E. destruct (serve_dns s wire) as [s' [?|?|?]]; exact E.
Qed.

Lemma encode_rrs_ok rs : Forall (λ r, zlen (rr_rdata r) ≤ 65535) rs → ∃ w, encode_rrs rs = Ok w.
Proof.
  induction 1 as [|r rs Hr _ [w IH]]; [by eexists|]. cbn [encode_rrs]. unfold encode_rr.
  destruct (Z.ltb_spec 65535 (zlen (rr_rdata r))); [lia|]. cbn [mbind result_bind]. rewrite IH. by eexists.
Qed.
Lemma build_message_ok c key sunix id u now :
  trusted key (cl_signer c) sunix (unix now) → zlen (zu_records u) ≤ 65535 → Forall (λ r, zlen (rr_rdata r) ≤ 65535) (zu_records u) →
  ∃ wire, build_message c id u now = Ok wire.
Proof.
  intros Ht Hn Hr. unfold build_message. destruct (Z.ltb_spec 65535 (zlen (zu_records u))); [lia|].
  destruct (encode_rrs_ok _ Hr) as [w ->]. cbn [mbind result_bind]. destruct (cl_signer c) as [s|]; [|by eexists].
  destruct key as [key|]; [|done]. destruct Ht as (_ & _ & Ha & _ & _ & Hnow & _).
  match goal with |- context [sign s ?b id now] => destruct (sign_ok s b id now) as (Es & _); [lia|done|]; rewrite Es end. by eexists.
Qed.
(** With an identifier, a batch that can be encoded is served. *)
Lemma send_update_exact c s u now raw :
  Forall widths (zu_records u) → trusted (dz_key s) (cl_signer c) (dz_unix s) (unix now) →
  validate_zone_update u = None → zu_records u ≠ [] → zlen (zu_records u) ≤ 65535 → Forall (λ r, zlen (rr_rdata r) ≤ 65535) (zu_records u) →
  send_update serve_dns c s u now (Ok raw) = served s u.
Proof.
  intros Hw Ht Hv Hne Hn Hr. unfold send_update.
  assert (Hz : trim_space (zu_zone u) ≠ []).
  { intros E. unfold validate_zone_update, validate_dns_name in Hv. by rewrite E in Hv. }
  rewrite (bool_decide_eq_false_2 _ Hz), (bool_decide_eq_false_2 (length _ = O)) by (by destruct (zu_records u)). cbn [orb]. rewrite Hv. cbv zeta.
  destruct (build_message_ok c _ _ (be_get (take 2 raw)) u now Ht Hn Hr) as [wire Ew]. rewrite Ew.
  destruct (build_message_received c (dz_key s) (dz_unix s) _ u now wire (be_get_two raw) Hv Hw Ht Ew) as (signed & es & Hp & Ha).
  pose proof (serve_received s wire u signed es _ (be_get_two raw) Hp Ha) as E. destruct (serve_dns s wire) as [s' [?|?|?]]; exact E.
Qed.

(** Names under a zone. *)
Lemma drop_dots_id s : hd_error s ≠ Some dot → drop_dots s = s.
Proof. destruct s as [|c s]; cbn; [done|]. intros Hc. rewrite bool_decide_eq_false_2; [done|congruence]. Qed.
Lemma drop_dots_head s : hd_error (drop_dots s) ≠ Some dot.
Proof. induction s as [|c s IH]; cbn; [done|]. case_bool_decide; [done|]. cbn. congruence. Qed.
Lemma hd_error_rev (s : bytes) : hd_error (rev s) = last s.
Proof. induction s as [|c s IH] using rev_ind; [done|]. by rewrite rev_app_distr, last_snoc. Qed.
Lemma trim_dots_ends s : hd_error (trim_dots s) ≠ Some dot ∧ last (trim_dots s) ≠ Some dot.
Proof.
  unfold trim_dots. set (t := drop_dots s). pose proof (drop_dots_head (rev t)) as Hl. pose proof (drop_dots_head s) as Hh. fold t in Hh.
  destruct (drop_dots_app (rev t)) as [p Ep]. apply (f_equal (@rev byte)) in Ep. rewrite rev_involutive, rev_app_distr in Ep.
  rewrite <-hd_error_rev, rev_involutive. split; [|done]. intros E. destruct (rev (drop_dots (rev t))) as [|c r]; [done|].
  cbn in E. injection E as ->. rewrite Ep in Hh. by apply Hh.
Qed.
Lemma trim_dots_id s : hd_error s ≠ Some dot → last s ≠ Some dot → trim_dots s = s.
Proof.
  intros Hh Hl. unfold trim_dots. rewrite (drop_dots_id s Hh), drop_dots_id by by rewrite hd_error_rev. apply rev_involutive.
Qed.

(** A name without spaces or dots at its ends. *)
Definition plain (s : bytes) : Prop := s ≠ [] ∧ trim_space s = s ∧ hd_error s ≠ Some dot ∧ last s ≠ Some dot.
Lemma plain_labels s : plain s → name_labels s = split_byte s dot.
Proof.
  intros (Hne & Hs & Hh & Hl). unfold name_labels, ensure_fqdn. rewrite Hs, (bool_decide_eq_false_2 _ Hne). cbv zeta.
  rewrite trim_dots_id by done. rewrite (bool_decide_eq_false_2 _ Hne), trim_last_dot_snoc. by rewrite bool_decide_eq_false_2.
Qed.
Lemma dot_no_space : Forall (λ p, dot ∉ p) space_seqs.
Proof. refine (bool_decide_unpack _ _). vm_compute. exact I. Qed.
Lemma plain_join h z : plain h → plain z → plain (h ++ dot :: z).
Proof.
  intros (Hne & Hs & Hh & Hl) (Hne' & Hs' & Hh' & Hl'). split; [by destruct h|]. split; [by apply trim_space_join; [exact dot_no_space|..]|].
  split; [by destruct h|]. rewrite last_app. destruct z as [|c z] using rev_ind; [done|]. change (dot :: z ++ [c]) with ((dot :: z) ++ [c]).
  rewrite last_snoc. rewrite last_snoc in Hl'. done.
Qed.
Lemma labels_join h z : plain h → plain z → dot ∉ h → name_labels (h ++ dot :: z) = h :: name_labels z.
Proof. intros Hh Hz Hd. rewrite !plain_labels by (done || by apply plain_join). by apply split_byte_app. Qed.
Lemma in_zone_cons h zone : in_zone zone (h :: zone) = true.
Proof. unfold in_zone. apply bool_decide_eq_true_2. cbn [length]. replace (S (length zone) - length zone)%nat with 1%nat by lia. done. Qed.

(** Other types of record are not touched by batches of pointers. *)
Definition pointers (u : zoneUpdate) : Prop := Forall (λ r, rr_typ r = typePTR ∧ widths r) (zu_records u).
Lemma apply_record_other data r n t x :
  t ≠ dr_typ r → (n, t, x) ∈ apply_record data r ↔ (n, t, x) ∈ data.
Proof.
  intros Ht. unfold apply_record. destruct (dr_class r =? classANY); [|destruct (dr_class r =? classNONE)].
  - rewrite elem_of_filter. cbn. naive_solver.
  - rewrite elem_of_difference, elem_of_singleton. naive_solver.
  - rewrite elem_of_union, elem_of_singleton. naive_solver.
Qed.
Lemma pointers_keep rs data n t x :
  Forall (λ r, rr_typ r = typePTR ∧ widths r) rs → t ≠ typePTR →
  (n, t, x) ∈ foldl apply_record data (record_of <$> rs) ↔ (n, t, x) ∈ data.
Proof.
  intros Hrs Ht. revert data. induction Hrs as [|r rs [Hr _] _ IH]; intros data; [done|]. cbn [fmap list_fmap foldl].
  rewrite IH. apply apply_record_other. cbn. by rewrite Hr.
Qed.
Lemma send_updates_pointers c us now s randoms n t x :
  Forall pointers us → trusted (dz_key s) (cl_signer c) (dz_unix s) (unix now) → t ≠ typePTR →
  (n, t, x) ∈ dz_data (send_updates serve_dns c s us now randoms).1 ↔ (n, t, x) ∈ dz_data s.
Proof.
  intros Hus. revert s randoms. induction Hus as [|u us Hu _ IH]; intros s randoms Htr Ht; [done|]. cbn [send_updates].
  assert (Hw : Forall widths (zu_records u)) by (eapply Forall_impl; [exact Hu|]; by intros ? []).
  set (o := send_update serve_dns c s u now _). assert (Ho : o.1 = s ∨ o = served s u) by (by apply send_update_served).
  assert (Hs : dz_key o.1 = dz_key s ∧ dz_unix o.1 = dz_unix s ∧ ((n, t, x) ∈ dz_data o.1 ↔ (n, t, x) ∈ dz_data s)).
  { destruct Ho as [-> | ->]; [done|]. unfold served. destruct (negb _); [done|]. destruct (negb _); [done|]. cbn. do 2 (split; [done|]). by apply pointers_keep. }
  clearbody o. destruct o as [s' [e|]]; cbn in Hs |- *; destruct Hs as (Hk & Hx & Hd); [done|]. rewrite IH; [done| |done]. by rewrite Hk, Hx.
Qed.

Lemma ttl_width d : 0 ≤ default_ttl_lease d < 4294967296.
Proof.
  unfold default_ttl_lease. destruct (d <=? 0); [lia|]. cbv zeta. destruct (_ =? 0); [lia|]. destruct (_ <? _); [lia|]. apply u32_range.
Qed.
Lemma ip_rdata_size ip : zlen (ip_rdata ip) ≤ 65535.
Proof.
  unfold ip_rdata, zlen. case_bool_decide as E; [|apply to4_length in E; lia].
  unfold to16. repeat case_bool_decide; cbn; lia.
Qed.
Lemma ip_type_value ip : ip_type ip = typeA ∨ ip_type ip = typeAAAA.
Proof. unfold ip_type. case_bool_decide; auto. Qed.

Lemma pointer_batch zone action name ttl rdata : 0 ≤ ttl < 4294967296 → pointers (mkZoneUpdate zone (update_records action name typePTR ttl rdata)).
Proof. intros. destruct action; repeat constructor; cbn; unfold typePTR, classANY, classNONE, classINET; lia. Qed.
Lemma build_updates_shape c action item us :
  let host := normalize_hostname (l_hostname item) in
  let zone := cl_forward_zone c in
  let ip := parse_ip (trim_space (l_ip item)) in
  zone ≠ [] → plain host → dot ∉ host → build_updates c action item = Ok us →
  validate_dns_name (host ++ dot :: zone) = None ∧ validate_dns_name zone = None ∧
  ∃ rest, Forall pointers rest ∧
    us = mkZoneUpdate zone (update_records action (host ++ dot :: zone) (ip_type ip) (default_ttl_lease (l_duration item)) (ip_rdata ip)) :: rest.
Proof.
  intros host zone ip Hz (Hh & Hs & Hd & Hl) Hdot. unfold build_updates, forward_name. fold host zone ip. destruct (bool_decide (ip = [])); [done|].
  rewrite (bool_decide_eq_false_2 _ Hh). cbv zeta.
  assert (Hn : normalize_hostname host = host) by (unfold normalize_hostname; rewrite Hs; by apply trim_dots_id). rewrite Hn.
  rewrite (bool_decide_eq_false_2 _ Hh), (bool_decide_eq_false_2 _ Hdot), !(bool_decide_eq_false_2 _ Hz), (bool_decide_eq_false_2 (host ++ _ = [])) by (by destruct host).
  cbn [first_error]. destruct (validate_dns_name (host ++ dot :: zone)) eqn:E1; [done|]. destruct (validate_dns_name zone) eqn:E2; [done|].
  destruct (reverse_names _ _) as [pn pz]. destruct (_ || _).
  - intros <-%ok_inj. do 2 (split; [done|]). by exists [].
  - destruct (validate_dns_name pn); [done|]. destruct (validate_dns_name pz); [done|]. destruct (validate_dns_name (ensure_fqdn _)); [done|].
    intros <-%ok_inj. do 2 (split; [done|]). eexists [_]. split; [|done]. constructor; [|constructor]. apply pointer_batch, ttl_width.
Qed.

(** The addresses of a name after an action, and of every other name. *)
Definition published (action : Action) (name : list bytes) (typ : Z) (v : bytes) (before after : zone_data) : Prop :=
  ∀ n t x, t ≠ typePTR →
    (n, t, x) ∈ after ↔
      if decide (n = name ∧ t = typ) then match action with ActionUpsert => x = v | ActionDelete => (n, t, x) ∈ before ∧ x ≠ v end
      else (n, t, x) ∈ before.
Lemma applied_batch action owner name typ ttl v data :
  name_labels owner = name →
  published action name typ v data (foldl apply_record data (record_of <$> update_records action owner typ ttl v)).
Proof.
  intros <- n t x _. destruct action; cbn [update_records fmap list_fmap foldl record_of rr_owner rr_typ rr_class rr_ttl rr_rdata]; unfold apply_record; cbn.
  - rewrite elem_of_union, elem_of_singleton, elem_of_filter. cbn. destruct (decide _) as [[-> ->]|Hn]; naive_solver.
  - rewrite elem_of_difference, elem_of_singleton. destruct (decide _) as [[-> ->]|Hn]; naive_solver.
Qed.

(** A lease's name is published and withdrawn exactly.  Take a client the
    constructor accepts, with a forward zone, and a server that serves the zone and
    shares the client's key and, within the fudge of 300 seconds, its time (or neither
    signs).  For a lease whose address and names are valid, applying it
    leaves the lease's address as the only one of its type under the name
    [hostname.zone], deleting it takes just that address away, and every other name and
    type of the server keeps its addresses - through the message the client encodes
    and signs and the server parses, verifies and applies, and whatever becomes of the
    update of the reverse zone that follows. *)
Lemma lease_published_exactly conf c s action item now raw randoms us :
  let host := normalize_hostname (l_hostname item) in
  let zone := cl_forward_zone c in
  let ip := parse_ip (trim_space (l_ip item)) in
  new_client conf = Ok c → zone ≠ [] → trim_space zone = zone →
  host ≠ [] → trim_space host = host → dot ∉ host →
  build_updates c action item = Ok us →
  trusted (dz_key s) (cl_signer c) (dz_unix s) (unix now) → name_labels zone ∈ dz_zones s →
  published action (host :: name_labels zone) (ip_type ip) (ip_rdata ip) (dz_data s)
    (dz_data (perform serve_dns c action s item now (Ok raw :: randoms)).1).
Proof.
  intros host zone ip Hc Hz Hzs Hh Hhs Hdot Hus Ht Hin.
  assert (Hph : plain host) by (split; [done|]; split; [done|]; apply trim_dots_ends).
  assert (Hpz : plain zone).
  { split; [done|]. split; [done|]. revert Hc. unfold new_client. case_bool_decide; [done|]. cbv zeta.
    destruct (new_tsig_signer _ _ _); [|done..]. intros <-%ok_inj. apply trim_dots_ends. }
  destruct (build_updates_shape c action item us Hz Hph Hdot Hus) as (Hv1 & Hv2 & rest & Hrest & ->).
  unfold perform. rewrite Hus. cbn [send_updates hd_error default from_option]. fold host zone ip.
  set (u := mkZoneUpdate zone _).
  assert (Hw : Forall widths (zu_records u)).
  { pose proof (ttl_width (l_duration item)). destruct (ip_type_value ip) as [E|E]; destruct action; repeat constructor; cbn [rr_typ rr_class rr_ttl];
      rewrite ?E; unfold typeA, typeAAAA, classANY, classNONE, classINET; lia. }
  assert (Hr : Forall (λ r, zlen (rr_rdata r) ≤ 65535) (zu_records u)).
  { pose proof (ip_rdata_size ip). destruct action; repeat constructor; cbn; (done || lia). }
  change (id (Ok raw)) with (Ok raw). rewrite (send_update_exact c s u now raw Hw Ht); [| |by destruct action|by destruct action|done].
  2:{ unfold validate_zone_update. cbn [u zu_zone zu_records]. fold zone in Hv2. rewrite Hv2. destruct action; cbn; fold zone host in Hv1; by rewrite Hv1. }
  assert (Hl : name_labels (host ++ dot :: zone) = host :: name_labels zone) by by apply labels_join.
  unfold served. cbn [u zu_zone]. rewrite (bool_decide_eq_true_2 _ Hin). cbn [negb].
  assert (Hin' : forallb (λ r, in_zone (name_labels zone) (dr_name r)) (record_of <$> zu_records u) = true)
    by (destruct action; cbn; by rewrite Hl, in_zone_cons).
  rewrite Hin'. cbn [negb].
  pose proof (applied_batch action (host ++ dot :: zone) _ (ip_type ip) (default_ttl_lease (l_duration item)) (ip_rdata ip) (dz_data s) Hl) as Hpub.
  intros n t x Htt. rewrite send_updates_pointers by done. by apply Hpub.
Qed.
End applied.

(** * An office network *)

#[local] Existing Instance ascii_tables.

Definition office_conf (reverse_zone : bytes) : DdnsConfig :=
  mkDdnsConfig (bs "192.0.2.53") (bs " office.example. ") reverse_zone (bs "dhcp-key") (bs "c2VjcmV0") [] 0.
Definition office_client (reverse_zone : bytes) : Client :=
  match new_client (office_conf reverse_zone) with Ok c => c | _ => mkClient [] [] [] 0 None end.
Definition office_zones : list (list bytes) :=
  map name_labels [bs "office.example"; bs "1.0.10.in-addr.arpa"; bs "10.in-addr.arpa"].
Definition office_server : DnsServer :=
  mkServer office_zones {[ ([bs "printer"; bs "office"; bs "example"], typeA, bs "none") ]} (Some (mkKey (bs "dhcp-key.") (bs "secret"))) 1000.
Definition office_lease (ip hostname : bytes) : Lease :=
  mkLease ip [] [] hostname [] 0 (3600 * second) 0 0 0 0 [] [] [] [] [] [] [] 0 [] [] ∅ 0 0.
(** 1100 seconds after the epoch. *)
Definition office_time : time := (62135596800 + 1100) * 1000000000.

Lemma office_trusted : trusted (dz_key office_server) (cl_signer (office_client [])) (dz_unix office_server) (unix office_time).
Proof. vm_compute. repeat split; congruence. Qed.
Lemma office_serves : name_labels (cl_forward_zone (office_client [])) ∈ dz_zones office_server.
Proof. refine (bool_decide_unpack _ _). vm_compute. exact I. Qed.
(** Pointers are never accepted: [trimZoneName] makes their names relative to the zone
    ("44", "44.1" or "@") and [encodeName] writes them as if they were absolute, so that
    a server finds them outside of the zone. *)
Lemma reverse_update_refused :
  map (λ '(reverse_zone, ip), (perform serve_dns (office_client (bs reverse_zone)) ActionUpsert office_server
         (office_lease (bs ip) (bs "laptop")) office_time [Ok (bs "id"); Ok (bs "no")]).2)
    [(""%string, "10.0.1.44"%string); ("1.0.10.in-addr.arpa"%string, "10.0.1.44"%string); ("10.in-addr.arpa"%string, "10.0.1.44"%string)] =
  [rejected 10; rejected 10; rejected 10].
Proof. vm_compute. reflexivity. Qed.
(** A host name with a dot is taken for a full one, whatever its domain: the update of
    the zone is refused. *)
Lemma dotted_hostname_refused :
  (perform serve_dns (office_client []) ActionUpsert office_server
     (office_lease (bs "10.0.1.44") (bs "laptop.home.arpa")) office_time [Ok (bs "id"); Ok (bs "no")]).2 = rejected 10.
Proof. vm_compute. reflexivity. Qed.
(** The answer's signature is not looked at: twelve bytes with the identifier are an
    answer, whoever sent them. *)
Lemma unsigned_answer_accepted :
  validate_response (answer 4660 0) 4660 = None ∧ cl_signer (office_client []) ≠ None.
Proof. split; [vm_compute; reflexivity|vm_compute; discriminate]. Qed.
