(* ===== verification/Mcp.v ===== *)
(** internal/api/mcp: the tools of the MCP server over the components, JSON-RPC and the
    sessions of its streams.

    Arguments are decoded with [UseNumber], so a number is its text.  The result of a
    tool is the value before it is marshalled; its text content is the JSON of it. *)

From Stdlib Require Import SpecFloat.
From S2P Require Import Prelude.
From S2P Require Import GoBytes.
From S2P Require Import GoStrings.
From S2P Require Import GoTime.
From S2P Require Import GoParse.
From S2P Require Import GoNet.
From S2P Require Import GoNet6.
From S2P Require Import GoPrefix.
From S2P Require Import GoPort.
From S2P Require Import GoChan.
From S2P Require Import GoSort.
From S2P Require Import GoJson.
From S2P Require Import Wal.
From S2P Require Import StorageEngine.
From S2P Require Import Lease.
From S2P Require Import LeaseInterface.
From S2P Require Import IpamCidr.
From S2P Require Import Ipam.
From S2P Require Import ConfigValidate.
From S2P Require Import Auth.
From S2P Require Import Events.
From S2P Require Import AuditLog.
From S2P Require Import Discovery.
From S2P Require Import EventData.
From S2P Require Import Metrics.
From S2P Require Import RestHttp.
From S2P Require Import RestAuth.
From S2P Require Import RestRouter.
From S2P Require Import RestTheorems.
From S2P Require Import RestSystem.

(** * Loops with an exit *)

(** At most [2 ^ k] steps, until one gives a result. *)
Fixpoint loop_until {X R : Type} (k : nat) (step : X → X + R) (x : X) : X + R :=
  match k with
  | O => step x
  | S k => match loop_until k step x with inl x => loop_until k step x | inr r => inr r end
  end.

(** * What a tool gives *)

Inductive tool_result (A : Type) :=
| TOk (v : A)
| TParam (message : bytes)
| TFail (e : error)
| TPanic (message : string).
Arguments TOk {A} _.
Arguments TParam {A} _.
Arguments TFail {A} _.
Arguments TPanic {A} _.
#[global] Instance tool_ret : MRet tool_result := λ A x, TOk x.
#[global] Instance tool_bind : MBind tool_result := λ A B f r,
  match r with TOk a => f a | TParam m => TParam m | TFail e => TFail e | TPanic m => TPanic m end.
Definition lift {A} (r : result A) : tool_result A :=
  match r with Ok v => TOk v | Err e => TFail e | Panic m => TPanic m end.

(** * Arguments *)

Abbreviation tool_args := (gmap bytes json).

(** [fmt.Sprint] of a decoded value; the members of an object in the order of their names. *)
Fixpoint insert_member (m : bytes * bytes) (l : list (bytes * bytes)) : list (bytes * bytes) :=
  match l with
  | [] => [m]
  | x :: l => if bytes_ltb m.1 x.1 then m :: x :: l else x :: insert_member m l
  end.
Definition space : byte := byte_of_Z 32.
Fixpoint sprint (v : json) : bytes :=
  match v with
  | JNull => bs "<nil>"
  | JBool b => if b then bs "true" else bs "false"
  | JNumber text => text
  | JString s => s
  | JArray items => bs "[" ++ join (map sprint items) [space] ++ bs "]"
  | JObject members =>
      let sorted := foldr insert_member [] (map (λ m, (m.1, sprint m.2)) members) in
      bs "map[" ++ join ((λ m, m.1 ++ colon :: m.2) <$> sorted) [space] ++ bs "]"
  end.

(** The value of an argument that is given and not null. *)
Definition argument (args : tool_args) (key : string) : option json :=
  match args !! bs key with Some JNull => None | v => v end.
Definition optional_string (args : tool_args) (key : string) : bytes :=
  match argument args key with
  | None => []
  | Some (JString s) => trim_space s
  | Some v => trim_space (sprint v)
  end.
Definition require_string (args : tool_args) (key : string) : tool_result bytes :=
  let value := optional_string args key in
  if bool_decide (value = []) then TParam (bs key ++ bs " is required") else TOk value.
Fixpoint trimmed_strings (items : list json) : option (list bytes) :=
  match items with
  | [] => Some []
  | JString s :: items =>
      rest ← trimmed_strings items;
      let trimmed := trim_space s in Some (if bool_decide (trimmed = []) then rest else trimmed :: rest)
  | _ => None
  end.
Definition optional_string_slice (args : tool_args) (key : string) : tool_result (list bytes) :=
  let fail := TParam (bs key ++ bs " must be an array of strings") in
  match argument args key with
  | None => TOk []
  | Some (JArray items) => match trimmed_strings items with Some l => TOk l | None => fail end
  | _ => fail
  end.
Definition optional_bool (args : tool_args) (key : string) (fallback : bool) : tool_result bool :=
  match argument args key with
  | None => TOk fallback
  | Some (JBool b) => TOk b
  | _ => TParam (bs key ++ bs " must be a boolean")
  end.
Definition optional_int (args : tool_args) (key : string) (fallback : Z) : tool_result Z :=
  let read s := match parse_int s with Some z => TOk z | None => TParam (bs key ++ bs " must be an integer") end in
  match argument args key with
  | None => TOk fallback
  | Some (JNumber text) => read text
  | Some (JString s) => read (trim_space s)
  | _ => TParam (bs key ++ bs " must be an integer")
  end.
Definition optional_int_or_zero (args : tool_args) (key : string) : Z :=
  match optional_int args key 0 with TOk z => z | _ => 0 end.
Definition optional_date `{AuditExport} (args : tool_args) (key : string) : tool_result time :=
  let raw := optional_string args key in
  if bool_decide (raw = []) then TOk 0
  else match parse_rfc3339 raw with Some t => TOk t | None => TParam (bs key ++ bs " must be RFC3339") end.

(** * Planning *)

(** [int(math.Ceil(f))] and [int(math.Round(f))]; a value outside of the range is the
    least integer, as on amd64. *)
Definition min_int : Z := - 2 ^ 63.
Definition in_int (z : Z) : Z := if (min_int <=? z) && (z <=? max_int) then z else min_int.
Definition float_ceil (f : spec_float) : Z :=
  match f with
  | S754_finite s m e =>
      let z := if s then Z.neg m else Z.pos m in in_int (if 0 <=? e then z * 2 ^ e else - (- z / 2 ^ (- e)))
  | S754_zero _ => 0
  | _ => min_int
  end.
Definition float_round (f : spec_float) : Z :=
  match f with
  | S754_finite s m e =>
      let z := if 0 <=? e then Z.pos m * 2 ^ e else (Z.pos m + 2 ^ (- e - 1)) / 2 ^ (- e) in in_int (if s then - z else z)
  | S754_zero _ => 0
  | _ => min_int
  end.
Definition target_usable (required growth : Z) : Z :=
  float_ceil (float_mul (to_float required) (float_add (to_float 1) (float_div (to_float growth) (to_float 100)))).

(** The first run of digits. *)
Fixpoint digits_prefix (s : bytes) : bytes :=
  match s with c :: s => if (48 <=? byte_to_Z c) && (byte_to_Z c <=? 57) then c :: digits_prefix s else [] | [] => [] end.
Fixpoint first_number (s : bytes) : bytes :=
  match s with
  | [] => []
  | c :: s' => match digits_prefix s with [] => first_number s' | digits => digits end
  end.
Definition extract_required_addresses (prompt : bytes) : Z :=
  let m := first_number prompt in
  if bool_decide (m = []) then 0 else default 0 (parse_int m).

Definition prefix_address_count (bits : Z) : Z := Z.shiftl 1 (32 - bits).
Definition address_count_as_int (p : prefix) : Z := Z.min (address_count p) max_int.
Definition usable_hosts (p : prefix) : Z :=
  let count := address_count_as_int p in if count <=? 2 then 0 else count - 2.
Definition ten_net : addr := A4 (map byte_of_Z [10; 0; 0; 0]).
Fixpoint prefix_search (bits : nat) (required : Z) : Z :=
  match bits with
  | O => -1
  | S bits' => if required <=? usable_hosts (mkPrefix ten_net (Z.of_nat bits)) then Z.of_nat bits else prefix_search bits' required
  end.
Definition smallest_ipv4_prefix (required : Z) : Z := if required <=? 0 then -1 else prefix_search 30 required.

(** What a candidate must not touch; a prefix that does not parse is passed over. *)
Definition touches (candidate : prefix) (existing : Subnet) : bool :=
  match parse_prefix (sn_cidr existing) with Ok p => overlaps (Some candidate) (Some p) | _ => false end.
Definition candidate_step (parent : prefix) (bits : Z) (subnets : list Subnet) (offset : Z) : Z + option prefix :=
  let block := prefix_address_count bits in
  if address_count parent <? offset + block then inr None
  else
    match nth_address parent offset with
    | None => inr None
    | Some a =>
        let candidate := prefix_masked (mkPrefix a bits) in
        if cidr_contains parent candidate && negb (existsb (touches candidate) subnets) then inr (Some candidate)
        else inl (offset + block)
    end.
(** The loop takes at most [2 ^ 32] steps, one for each address of the parent. *)
Definition find_candidate_prefix (parent : prefix) (bits : Z) (subnets : list Subnet) : result prefix :=
  match loop_until 33 (candidate_step parent bits subnets) 0 with
  | inr (Some p) => Ok p
  | _ => Err (Errorf "no free subnet with /%d was found inside %s" [FZ bits; FB (prefix_string parent)])
  end.

(** The gateway and the pool of a suggestion. *)
Definition addr_text (a : option addr) : bytes := match a with Some a => addr_string a | None => bs "invalid IP" end.
Definition default_plan_addresses (p : prefix) : option addr * option addr * option addr :=
  let total := address_count_as_int p in
  if total <? 4 then (None, None, None)
  else
    let gw := nth_address p 1 in
    let last_usable := nth_address p (total - 2) in
    let start := nth_address p (if usable_hosts p <=? 20 then 2 else 10) in
    let start := match start with
                 | Some s => if bool_decide (addr_compare last_usable (Some s) = Lt) then gw ≫= addr_next else Some s
                 | None => gw ≫= addr_next
                 end in
    (gw, start, last_usable).
Definition plan_text (p : prefix) (a : option addr) : bytes := if address_count_as_int p <? 4 then [] else addr_text a.

(** * Utilization *)

Definition plan_pool_range (s : Subnet) : option (addr * addr) :=
  match parse_addr (trim_space (dp_pool_start (sn_dhcp s))), parse_addr (trim_space (dp_pool_end (sn_dhcp s))) with
  | Ok start, Ok end_ => if addr_gt start end_ then None else Some (start, end_)
  | _, _ => None
  end.
Definition span_step (end_ : addr) (x : Z * option addr) : (Z * option addr) + Z :=
  let '(count, current) := x in
  if bool_decide (addr_compare current (Some end_) = Lt) then inl (count + 1, current ≫= addr_next) else inr count.
(** None when the loop goes on for more steps than there are addresses. *)
Definition host_span (start end_ : addr) : option Z :=
  if addr_gt start end_ then Some 0
  else match loop_until 129 (span_step end_) (1, Some start) with inr count => Some count | inl _ => None end.
Definition in_span (start end_ : addr) (r : AddressRecord) : bool :=
  match parse_addr (ad_ip r) with Ok a => negb (addr_gt start a) && negb (addr_gt a end_) | _ => false end.

Record utilization := mkUtilization {
  ut_subnet_cidr : bytes; ut_name : bytes; ut_dhcp_enabled : bool; ut_pool_start : bytes; ut_pool_end : bytes;
  ut_total : Z; ut_used : Z; ut_available : Z; ut_percent : Z; ut_breakdown : gmap bytes Z
}.
Definition count_state (m : gmap bytes Z) (r : AddressRecord) : gmap bytes Z :=
  <[ad_state r := default 0 (m !! ad_state r) + 1]> m.
(** The addresses that count and the capacity. *)
Definition pool_capacity (s : Subnet) (addresses : list AddressRecord) : tool_result (list AddressRecord * Z) :=
  match (if dp_enabled (sn_dhcp s) then plan_pool_range s else None) with
  | Some (start, end_) =>
      match host_span start end_ with
      | Some total => TOk (filter (λ r, in_span start end_ r = true) addresses, total)
      | None => TPanic "the loop does not end"
      end
  | None => TOk (addresses, zlen addresses)
  end.
Definition utilization_of (s : Subnet) (filtered : list AddressRecord) (total : Z) : utilization :=
  let used := zlen (filter (λ r, ad_state r ≠ IPStateAvailable) filtered) in
  let total := if total <=? 0 then zlen filtered else total in
  let percent := if 0 <? total then float_round (float_mul (float_div (to_float used) (to_float total)) (to_float 100)) else 0 in
  mkUtilization (sn_cidr s) (sn_name s) (dp_enabled (sn_dhcp s)) (dp_pool_start (sn_dhcp s)) (dp_pool_end (sn_dhcp s))
    total used (Z.max (total - used) 0) percent (foldl count_state ∅ filtered).

(** * The tools *)

Record subnet_plan := mkSubnetPlan {
  sp_prompt : bytes; sp_name : bytes; sp_vlan : Z; sp_required : Z; sp_target : Z; sp_growth : Z;
  sp_suggested : prefix; sp_parent : prefix; sp_usable : Z;
  sp_gateway : option addr; sp_pool_start : option addr; sp_pool_end : option addr; sp_existing : Z
}.

(** The structured content of a result. *)
Inductive tool_data :=
| TSubnets (l : list SubnetSummary)
| TSubnetDetails (s : Subnet) (u : utilization)
| TSubnet (s : Subnet)
| TAvailable (subnet_cidr available_ip : bytes) (record : AddressRecord)
| TReservation (r : Reservation)
| TLeases (l : list Lease)
| TLease (l : Lease)
| TByMac (mac : bytes) (reservation : option Reservation) (leases : list Lease) (addresses : list AddressRecord) (found : bool)
| TByHostname (query : bytes) (reservations : list Reservation) (leases : list Lease) (addresses : list AddressRecord) (found : bool)
| TUtilization (u : utilization)
| TUtilizations (l : list utilization)
| TQueued (scan_id : bytes)
| TConflicts (l : list Conflict)
| TEntries (l : list (Entry event_data))
| THealth (h : SystemHealth)
| TPlan (p : subnet_plan)
| TError (message : bytes).
Record CallToolResult := mkCallToolResult { ct_data : tool_data; ct_is_error : bool }.

(** What the server was given besides the components of the state. *)
Record HandlerDeps := mkHandlerDeps {
  hd_version : bytes; hd_started_at : time; hd_discovery_enabled : bool;
  hd_dhcp_enabled : bool; hd_dhcp_listen : bytes; hd_dhcp_running : option bool;
  hd_ha_enabled : bool; hd_ha_status : option json; hd_listen : bytes
}.
Definition default_protocol_version : bytes := bs "2025-06-18".

Section tools.
Context `{UnicodeTables} `{UrlParse} `{Bcrypt} `{SliceSort} `{MapRange} `{HttpTime} `{EmptyDecoder} `{AuditExport} `{TimeText}.
Context `{Json User} `{Json tokenRecord} `{Json sessionEntry} `{Json (Entry event_data)}.
Context `{Json Subnet} `{Json Reservation} `{Json AddressRecord} `{Json UISettings}.
Context `{Json ScanResult} `{Json (gmap bytes ObservedHost)} `{Json (list RogueServer)} `{Json (Event event_data)}.
Context {S : Type} `{LeaseStore S}.
#[local] Abbreviation state := (RestState S).
Definition tool : Type := state → Ctx → tool_args → RestInputs S → state * tool_result tool_data.

(** [requireRole] *)
Definition role_error (c : Ctx) (required : bytes) : option error :=
  match cx_identity c with
  | None => if cx_enforced c then Some (errorNew "unauthorized: authentication required") else None
  | Some id => if has_role required (id_role id) then None else Some (Errorf "forbidden: %s role required" [FB required])
  end.
Definition needs_operator (k : tool) : tool := λ st c args inp,
  match role_error c DefaultRoleOperator with Some e => (st, TFail e) | None => k st c args inp end.
Definition unavailable (what : string) : tool_result tool_data := TFail (errorNew (what ++ " is unavailable")).
(** A tool that only reads. *)
Definition reading (k : state → tool_args → RestInputs S → tool_result tool_data) : tool := λ st c args inp, (st, k st args inp).
Definition with_engine (k : Engine → tool) : tool := λ st c args inp,
  match rt_ipam st with Some e => k e st c args inp | None => (st, unavailable "ipam engine") end.
(** A value, or the result that stands for the error. *)
Definition given_value {A : Type} (st : state) (r : tool_result A) (k : A → state * tool_result tool_data) : state * tool_result tool_data :=
  match r with TOk v => k v | TParam m => (st, TParam m) | TFail e => (st, TFail e) | TPanic m => (st, TPanic m) end.
(** [logAudit] of an entry of this server *)
Definition mcp_audited (st : state) (c : Ctx) (action object_type : string) (object_id : bytes) (after : list (string * any_value))
    (inp : RestInputs S) : state :=
  log_audit_entry st (new_entry (request_actor c) action object_type object_id (bs "mcp")
    (list_to_map ((λ p, (bs p.1, p.2)) <$> after)) ∅) inp.

Definition addresses_of (e : Engine) (st : state) (f : AddressFilter) (inp : RestInputs S) : result (list AddressRecord) :=
  list_addresses e (rt_leases st) f (ri_range inp).
Definition compute_utilization (e : Engine) (st : state) (inp : RestInputs S) (s : Subnet) : tool_result utilization :=
  addresses ← lift (addresses_of e st (mkAddressFilter (sn_cidr s) [] [] 0) inp);
  '(filtered, total) ← pool_capacity s addresses;
  TOk (utilization_of s filtered total).
Fixpoint compute_utilizations (e : Engine) (st : state) (inp : RestInputs S) (l : list Subnet) : tool_result (list utilization) :=
  match l with
  | [] => TOk []
  | s :: l => u ← compute_utilization e st inp s; us ← compute_utilizations e st inp l; TOk (u :: us)
  end.

Definition list_subnets_tool : tool := with_engine (λ e, reading (λ st args inp,
  summaries ← lift (list_summaries e (rt_leases st)); TOk (TSubnets summaries))).

Definition get_subnet_tool : tool := with_engine (λ e, reading (λ st args inp,
  cidr ← require_string args "cidr"; s ← lift (get_subnet e cidr); u ← compute_utilization e st inp s;
  TOk (TSubnetDetails s u))).

Definition subnet_input (args : tool_args) : tool_result UpsertSubnetInput :=
  cidr ← require_string args "cidr";
  dns ← optional_string_slice args "dns";
  vlan ← optional_int args "vlan" 0;
  enabled ← optional_bool args "dhcp_enabled" false;
  lease_sec ← optional_int args "lease_time_sec" 0;
  TOk (mkUpsertSubnetInput cidr (optional_string args "name") vlan (optional_string args "gateway") dns enabled
         (optional_string args "pool_start") (optional_string args "pool_end") lease_sec).
Definition create_subnet_tool : tool := with_engine (λ e, needs_operator (λ st c args inp,
  given_value st (subnet_input args) (λ input,
    let w := ri_write inp in
    let '(e, res) := upsert_subnet e input (we_now w) (we_tx_now w) (we_io w) in
    let st := with_ipam st e in
    given_value st (lift res) (λ s,
      let st := publish st inp "subnet.upserted" [("cidr"%string, VString (sn_cidr s))] in
      let st := mcp_audited st c "mcp.subnet.upsert" "subnet" (sn_cidr s)
                  [("name"%string, VString (sn_name s)); ("gateway"%string, VString (sn_gateway s)); ("vlan"%string, VInt (sn_vlan s));
                   ("dhcp_enabled"%string, VBool (dp_enabled (sn_dhcp s)))] inp in
      (st, TOk (TSubnet s)))))).

Definition first_available (addresses : list AddressRecord) : option AddressRecord :=
  head (filter (λ r, ad_state r = IPStateAvailable) addresses).
Definition find_available_ip_tool : tool := with_engine (λ e, reading (λ st args inp,
  cidr ← require_string args "subnet_cidr";
  s ← lift (get_subnet e cidr);
  if negb (dp_enabled (sn_dhcp s)) then TFail (Errorf "dhcp is disabled for subnet %s" [FB (sn_cidr s)])
  else
    addresses ← lift (addresses_of e st (mkAddressFilter (sn_cidr s) [] [] 0) inp);
    match first_available addresses with
    | Some r => TOk (TAvailable (sn_cidr s) (ad_ip r) r)
    | None => TFail (Errorf "no available IP found in subnet %s" [FB (sn_cidr s)])
    end)).

Definition reserve_ip_tool : tool := with_engine (λ e, needs_operator (λ st c args inp,
  given_value st (mac ← require_string args "mac"; ip ← require_string args "ip"; TOk (mac, ip)) (λ '(mac, ip),
    let '(e, res) := write_reservation e (mkUpsertReservationInput mac ip (optional_string args "hostname")
                                            (optional_string args "subnet_cidr")) inp in
    let st := with_ipam st e in
    given_value st (lift res) (λ r,
      let st := publish st inp "reservation.upserted" [("mac"%string, VString (rv_mac r)); ("ip"%string, VString (rv_ip r))] in
      let st := mcp_audited st c "mcp.reservation.upsert" "reservation" (rv_mac r)
                  [("ip"%string, VString (rv_ip r)); ("subnet"%string, VString (rv_subnet_cidr r))] inp in
      (st, TOk (TReservation r)))))).

Definition is_active_lease (s : bytes) : bool := bool_decide (s ∈ [StateBound; StateRenewing; StateOffered]).
Definition compare_ip_string (a b : bytes) : comparison :=
  match parse_addr a, parse_addr b with
  | Ok x, Ok y => addr_compare (Some x) (Some y)
  | _, _ => bytes_compare a b
  end.
Definition lease_passes (subnet state : bytes) (include_inactive : bool) (l : Lease) : bool :=
  if negb (bool_decide (subnet = [])) && negb (bool_decide (l_subnet_id l = subnet)) then false
  else if negb (bool_decide (state = [])) && negb (equal_fold (l_state l) state) then false
  else if bool_decide (state = []) && negb include_inactive && negb (is_active_lease (l_state l)) then false
  else true.
Definition list_leases_tool : tool := reading (λ st args inp,
  match rt_leases st with
  | None => unavailable "lease store"
  | Some s =>
      include_inactive ← optional_bool args "include_inactive" false;
      leases ← lift (ls_list_all s);
      let passing := filter (λ l, lease_passes (optional_string args "subnet_cidr") (optional_string args "state") include_inactive l = true) leases in
      TOk (TLeases (sort_slice (λ x y, bool_decide (compare_ip_string (l_ip x) (l_ip y) = Lt)) passing))
  end).
Definition get_lease_tool : tool := reading (λ st args inp,
  match rt_leases st with
  | None => unavailable "lease store"
  | Some s => ip ← require_string args "ip"; l ← lift (ls_get_by_ip s ip); TOk (TLease l)
  end).

(** The value of a call whose error is dropped. *)
Definition or_empty {A : Type} (r : result (list A)) : tool_result (list A) :=
  match r with Ok l => TOk l | Err _ => TOk [] | Panic m => TPanic m end.
Definition or_none {A : Type} (r : result A) : tool_result (option A) :=
  match r with Ok v => TOk (Some v) | Err _ => TOk None | Panic m => TPanic m end.
Definition not_nil {A : Type} (l : list A) : bool := match l with [] => false | _ => true end.
Definition search_by_mac_tool : tool := reading (λ st args inp,
  match rt_ipam st, rt_leases st with
  | None, None => TFail (errorNew "search backends are unavailable")
  | ipam, leases =>
      mac ← require_string args "mac";
      let mac := to_upper (trim_space mac) in
      reservation ← match ipam with Some e => or_none (get_reservation_by_mac e mac) | None => TOk None end;
      leases ← match leases with Some s => or_empty (ls_get_by_mac s mac) | None => TOk [] end;
      all ← match ipam with Some e => or_empty (addresses_of e st (mkAddressFilter [] [] mac 0) inp) | None => TOk [] end;
      let addresses := filter (λ r, equal_fold (ad_mac r) mac = true) all in
      TOk (TByMac mac reservation leases addresses (bool_decide (is_Some reservation) || not_nil leases || not_nil addresses))
  end).

Definition search_by_hostname_tool : tool := reading (λ st args inp,
  hostname ← require_string args "hostname";
  let query := to_lower (trim_space hostname) in
  if bool_decide (query = []) then TParam (bs "hostname is required")
  else
    let matching {A} (f : A → bytes) (l : list A) := filter (λ x, contains (to_lower (f x)) query = true) l in
    reservations ← match rt_ipam st with Some e => or_empty (list_reservations e) | None => TOk [] end;
    all ← match rt_ipam st with Some e => or_empty (addresses_of e st (mkAddressFilter [] [] query 0) inp) | None => TOk [] end;
    leases ← match rt_leases st with Some s => or_empty (ls_list_all s) | None => TOk [] end;
    let reservations := matching rv_hostname reservations in
    let addresses := matching ad_hostname all in
    let leases := matching l_hostname leases in
    TOk (TByHostname query reservations leases addresses (not_nil reservations || not_nil leases || not_nil addresses))).

Definition subnet_utilization_tool : tool := with_engine (λ e, reading (λ st args inp,
  let cidr := optional_string args "subnet_cidr" in
  if negb (bool_decide (cidr = [])) then
    s ← lift (get_subnet e cidr); u ← compute_utilization e st inp s; TOk (TUtilization u)
  else
    subnets ← lift (list_subnets e); us ← compute_utilizations e st inp subnets; TOk (TUtilizations us))).

Definition run_discovery_tool : tool := λ st c args inp,
  match rt_disc st with
  | None => (st, unavailable "discovery engine")
  | Some d =>
      needs_operator (λ st c args inp,
        given_value st (optional_string_slice args "subnets") (λ subnets,
          let '(d, res) := trigger_scan d (ri_scan_id inp) (we_now (ri_write inp)) in
          let st := with_disc st d in
          given_value st (lift res) (λ scan_id,
            let st := publish st inp "discovery.scan_queued" [("scan_id"%string, VString scan_id)] in
            let st := mcp_audited st c "mcp.discovery.scan" "discovery_scan" scan_id
                        [("subnets"%string, VStrings subnets); ("reason"%string, VString (optional_string args "reason"))] inp in
            (st, TOk (TQueued scan_id))))) st c args inp
  end.
Definition get_conflicts_tool : tool := reading (λ st args inp,
  match rt_disc st with
  | None => unavailable "discovery engine"
  | Some d => l ← lift (latest_conflicts d); TOk (TConflicts l)
  end).

Definition audit_query_tool : tool := reading (λ st args inp,
  match rt_audit st with
  | None => unavailable "audit logger"
  | Some e =>
      limit ← optional_int args "limit" 50;
      from ← optional_date args "from";
      to ← optional_date args "to";
      let field := optional_string args in
      entries ← lift (audit_query e (mkQueryFilter (field "actor"%string) (field "action"%string) (field "object_type"%string)
        (field "object_id"%string) (field "source"%string) (field "q"%string) from to limit));
      TOk (TEntries entries)
  end).

(** The health of the REST server, with a component for this one. *)
Definition health_deps (d : HandlerDeps) (storage_ready : option (state → option error)) : SystemDeps (S := S) :=
  mkSystemDeps (hd_version d) (hd_started_at d) storage_ready (hd_dhcp_enabled d) None (hd_dhcp_listen d) None (hd_dhcp_running d)
    (hd_discovery_enabled d) None (hd_ha_enabled d) None (hd_ha_status d) None None None None None None None.
Definition get_health_tool (d : HandlerDeps) (storage_ready : option (state → option error)) : tool := reading (λ st args inp,
  let h := build_system_health (health_deps d storage_ready) st (ri_event_now inp) in
  let mcp := component [("enabled"%string, VBool true); ("ready"%string, VBool true); ("status"%string, VString (bs "up"));
                        ("listen"%string, VString (hd_listen d)); ("protocol_version"%string, VString default_protocol_version)] in
  TOk (THealth (mkSystemHealth (sh_status h) (sh_ready h) (sh_version h) (sh_started_at h) (sh_uptime h)
                  (<[bs "mcp" := mcp]> (sh_components h))))).

Definition known_subnets (st : state) : tool_result (list Subnet) :=
  match rt_ipam st with Some e => or_empty (list_subnets e) | None => TOk [] end.
Definition plan_subnet (args : tool_args) (st : state) : tool_result tool_data :=
  required ← optional_int args "required_addresses" 0;
  let required := if required <=? 0 then extract_required_addresses (optional_string args "prompt") else required in
  if required <=? 0 then TParam (bs "required_addresses or a numeric prompt is required")
  else
    growth ← optional_int args "growth_percent" 15;
    let parent_cidr := optional_string args "parent_cidr" in
    let parent_cidr := if bool_decide (parent_cidr = []) then bs "10.0.0.0/8" else parent_cidr in
    match parse_prefix parent_cidr with
    | Ok parent =>
        let parent := prefix_masked parent in
        if negb (is4 (p_addr parent)) then TParam (bs "only IPv4 subnet planning is currently supported")
        else
          let target := target_usable required growth in
          let bits := smallest_ipv4_prefix target in
          if bits <? 0 then TFail (Errorf "unable to calculate subnet size for %d addresses" [FZ target])
          else if bits <? p_bits parent then
            TFail (Errorf "parent subnet %s is too small for %d addresses" [FB (prefix_string parent); FZ target])
          else
            subnets ← known_subnets st;
            suggested ← lift (find_candidate_prefix parent bits subnets);
            let '(gateway, start, end_) := default_plan_addresses suggested in
            TOk (TPlan (mkSubnetPlan (optional_string args "prompt") (optional_string args "name") (optional_int_or_zero args "vlan")
              required target growth suggested parent (usable_hosts suggested) gateway start end_ (zlen subnets)))
    | Err e => TParam (bs "invalid parent_cidr: " ++ error_text e)
    | Panic m => TPanic m
    end.
Definition plan_subnet_tool : tool := reading (λ st args inp, plan_subnet args st).

(** ** The toolset *)

Definition tool_handlers (d : HandlerDeps) (storage_ready : option (state → option error)) : list (string * tool) := [
  ("monsoon_list_subnets"%string, list_subnets_tool); ("monsoon_get_subnet"%string, get_subnet_tool);
  ("monsoon_create_subnet"%string, create_subnet_tool); ("monsoon_find_available_ip"%string, find_available_ip_tool);
  ("monsoon_reserve_ip"%string, reserve_ip_tool); ("monsoon_list_leases"%string, list_leases_tool);
  ("monsoon_get_lease"%string, get_lease_tool); ("monsoon_search_by_mac"%string, search_by_mac_tool);
  ("monsoon_search_by_hostname"%string, search_by_hostname_tool); ("monsoon_subnet_utilization"%string, subnet_utilization_tool);
  ("monsoon_run_discovery"%string, run_discovery_tool); ("monsoon_get_conflicts"%string, get_conflicts_tool);
  ("monsoon_audit_query"%string, audit_query_tool); ("monsoon_get_health"%string, get_health_tool d storage_ready);
  ("monsoon_plan_subnet"%string, plan_subnet_tool)].
Definition find_tool (d : HandlerDeps) (storage_ready : option (state → option error)) (name : bytes) : option tool :=
  snd <$> head (filter (λ p, bs p.1 = name) (tool_handlers d storage_ready)).

(** [Toolset.Call]: a failure is a result that says so, a wrong argument is an error. *)
Definition call_tool (d : HandlerDeps) (storage_ready : option (state → option error)) (st : state) (c : Ctx) (name : bytes)
    (args : tool_args) (inp : RestInputs S) : state * tool_result CallToolResult :=
  let name := trim_space name in
  match find_tool d storage_ready name with
  | None => (st, TParam (bs "unknown tool: " ++ name))
  | Some k =>
      match k st c args inp with
      | (st, TOk v) => (st, TOk (mkCallToolResult v false))
      | (st, TFail e) => (st, TOk (mkCallToolResult (TError (error_text e)) true))
      | (st, TParam m) => (st, TParam m)
      | (st, TPanic m) => (st, TPanic m)
      end
  end.
End tools.

(** * The list of the tools *)

Definition schema_members (members : list (string * json)) : json := JObject ((λ m, (bs m.1, m.2)) <$> members).
Definition schema_object (properties : list (string * json)) (required : list string) : json :=
  schema_members (("type"%string, JString (bs "object")) :: ("properties"%string, schema_members properties) ::
    ("additionalProperties"%string, JBool false) ::
    match required with [] => [] | _ => [("required"%string, JArray (JString ∘ bs <$> required))] end).
Definition schema_typed (type description : string) (more : list (string * json)) : json :=
  schema_members (("type"%string, JString (bs type)) :: ("description"%string, JString (bs description)) :: more).
Definition schema_string (description : string) : json := schema_typed "string" description [].
Definition schema_integer (description : string) : json := schema_typed "integer" description [].
Definition schema_boolean (description : string) : json := schema_typed "boolean" description [].
Definition schema_string_array (description : string) : json :=
  schema_typed "array" description [("items"%string, schema_members [("type"%string, JString (bs "string"))])].
Definition read_only_tool : list (string * json) := [("readOnlyHint"%string, JBool true)].

Record ToolDefinition := mkToolDefinition {
  td_name : bytes; td_title : bytes; td_description : bytes; td_input_schema : json; td_annotations : json
}.
Definition tool_definition (name title description : string) (schema : json) (annotations : list (string * json)) : ToolDefinition :=
  mkToolDefinition (bs name) (bs title) (bs description) schema (schema_members annotations).

#[local] Open Scope string_scope.
Definition default_tools : list ToolDefinition := [
  tool_definition "monsoon_list_subnets" "List Subnets"
    "List all managed subnets with utilization and DHCP status for planning or inventory workflows."
    (schema_object [] []) read_only_tool;
  tool_definition "monsoon_get_subnet" "Get Subnet"
    "Return full details for a specific subnet CIDR, including DHCP pool settings and utilization snapshot."
    (schema_object [("cidr", schema_string "Subnet CIDR to inspect, for example 10.0.10.0/24.")] ["cidr"]) read_only_tool;
  tool_definition "monsoon_create_subnet" "Create Subnet"
    "Create or update a subnet definition in Monsoon, including gateway, DNS, VLAN, and DHCP pool bounds."
    (schema_object [("cidr", schema_string "Subnet CIDR to create or update.");
      ("name", schema_string "Human-friendly subnet name.");
      ("vlan", schema_integer "Optional VLAN ID between 0 and 4094.");
      ("gateway", schema_string "Optional gateway IP inside the subnet.");
      ("dns", schema_string_array "Optional DNS server addresses for the subnet.");
      ("dhcp_enabled", schema_boolean "Whether DHCP allocation is enabled for this subnet.");
      ("pool_start", schema_string "DHCP pool start IP when DHCP is enabled.");
      ("pool_end", schema_string "DHCP pool end IP when DHCP is enabled.");
      ("lease_time_sec", schema_integer "Lease duration in seconds when DHCP is enabled.")] ["cidr"]) [];
  tool_definition "monsoon_find_available_ip" "Find Available IP"
    "Find the next available address inside a subnet's DHCP pool by checking leases, reservations, and stored address state."
    (schema_object [("subnet_cidr", schema_string "Target subnet CIDR.")] ["subnet_cidr"]) read_only_tool;
  tool_definition "monsoon_reserve_ip" "Reserve IP"
    "Create or update a DHCP reservation for a MAC address and fixed IP inside a managed subnet."
    (schema_object [("mac", schema_string "Client MAC address, for example AA:BB:CC:DD:EE:FF.");
      ("ip", schema_string "Reserved IPv4 address.");
      ("hostname", schema_string "Optional hostname associated with the reservation.");
      ("subnet_cidr", schema_string "Optional subnet CIDR if you want to force the reservation into a specific subnet.")] ["mac"; "ip"]) [];
  tool_definition "monsoon_list_leases" "List Leases"
    "List DHCP leases with optional subnet and state filtering. By default, only active leases are returned."
    (schema_object [("subnet_cidr", schema_string "Optional subnet CIDR to filter by.");
      ("state", schema_string "Optional exact lease state filter.");
      ("include_inactive", schema_boolean "Include released, expired, or declined leases.")] []) read_only_tool;
  tool_definition "monsoon_get_lease" "Get Lease"
    "Get full lease details for a specific IP address."
    (schema_object [("ip", schema_string "Lease IP address.")] ["ip"]) read_only_tool;
  tool_definition "monsoon_search_by_mac" "Search By MAC"
    "Find all known reservations, leases, and address records associated with a MAC address."
    (schema_object [("mac", schema_string "MAC address to search for.")] ["mac"]) read_only_tool;
  tool_definition "monsoon_search_by_hostname" "Search By Hostname"
    "Search leases, reservations, and address records by hostname or hostname fragment."
    (schema_object [("hostname", schema_string "Hostname or partial hostname to search for.")] ["hostname"]) read_only_tool;
  tool_definition "monsoon_subnet_utilization" "Subnet Utilization"
    "Return subnet capacity, used addresses, available addresses, and state breakdown for a subnet or for all managed subnets."
    (schema_object [("subnet_cidr", schema_string "Optional subnet CIDR. When omitted, utilization is returned for all managed subnets.")] []) read_only_tool;
  tool_definition "monsoon_run_discovery" "Run Discovery"
    "Trigger a discovery scan to compare live network observations with DHCP and IPAM state."
    (schema_object [("reason", schema_string "Optional reason string that will be attached to the scan.");
      ("subnets", schema_string_array "Optional list of subnet CIDRs to target.")] []) [];
  tool_definition "monsoon_get_conflicts" "Get Conflicts"
    "Return the latest detected IP conflicts from the discovery subsystem."
    (schema_object [] []) read_only_tool;
  tool_definition "monsoon_audit_query" "Audit Query"
    "Search Monsoon audit entries by actor, action, object, free-text query, time range, and limit."
    (schema_object [("actor", schema_string "Optional actor username.");
      ("action", schema_string "Optional action name.");
      ("object_type", schema_string "Optional object type.");
      ("object_id", schema_string "Optional object identifier.");
      ("source", schema_string "Optional source value such as api or mcp.");
      ("q", schema_string "Optional free-text query.");
      ("from", schema_string "Optional RFC3339 lower bound.");
      ("to", schema_string "Optional RFC3339 upper bound.");
      ("limit", schema_integer "Maximum number of entries to return. Defaults to 50.")] []) read_only_tool;
  tool_definition "monsoon_get_health" "Get Health"
    "Return current Monsoon service health, uptime, DHCP listener state, and MCP listener metadata."
    (schema_object [] []) read_only_tool;
  tool_definition "monsoon_plan_subnet" "Plan Subnet"
    "Generate a subnet sizing suggestion for a workload, including CIDR, usable host count, gateway, and DHCP pool recommendation."
    (schema_object [("prompt", schema_string "Optional free-form planning request, for example 'I need 500 addresses for IoT devices'.");
      ("required_addresses", schema_integer "Required usable addresses before growth headroom.");
      ("growth_percent", schema_integer "Optional growth buffer percentage. Defaults to 15.");
      ("parent_cidr", schema_string "Optional parent CIDR to place the subnet inside. Defaults to 10.0.0.0/8.");
      ("name", schema_string "Optional suggested subnet name.");
      ("vlan", schema_integer "Optional VLAN hint.")] []) read_only_tool
].
#[local] Close Scope string_scope.

(** * JSON-RPC *)

Record rpcError := mkRpcError { re_code : Z; re_message : bytes; re_data : option bytes }.
Inductive rpc_result :=
| RInitialized (protocol_version server_version : bytes)
| RPong
| RTools (tools : list ToolDefinition)
| RCall (result : CallToolResult).
Record rpcResponse := mkRpcResponse { rp_id : json; rp_outcome : rpc_result + rpcError }.
Record rpcRequest := mkRpcRequest { rc_jsonrpc : bytes; rc_id : json; rc_method : bytes; rc_params : bytes }.
Record initializeParams := mkInitializeParams { im_protocol_version : bytes }.
Record toolCallParams := mkToolCallParams { tc_name : bytes; tc_arguments : tool_args }.

(** [json.Marshal] of a response *)
Class RpcText := { rpc_text : rpcResponse → result bytes }.

Record session := mkSession { se_protocol_version : bytes; se_initialized : bool; se_messages : chan rpcResponse }.
Abbreviation sessions := (gmap bytes session).

(** * Origins *)

(** [URL.Hostname] of the host of a URL: without the port and the brackets. *)
Definition is_digit (c : byte) : bool := (48 <=? byte_to_Z c) && (byte_to_Z c <=? 57).
Definition url_hostname (host : bytes) : bytes :=
  let host := match cut_last host colon with
              | Some (name, port) => if forallb is_digit port then name else host
              | None => host
              end in
  if bool_decide (hd_error host = Some (byte_of_Z 91)) && bool_decide (last host = Some (byte_of_Z 93)) && (2 <=? length host)%nat
  then removelast (tl host) else host.
Definition request_host_name (hostport : bytes) : bytes :=
  match split_host_port hostport with Some (host, _) => host | None => hostport end.

Section server.
Context `{UnicodeTables} `{UrlParse} `{Bcrypt} `{SliceSort} `{MapRange} `{HttpTime} `{EmptyDecoder} `{AuditExport} `{TimeText}.
Context `{Json User} `{Json tokenRecord} `{Json sessionEntry} `{Json (Entry event_data)}.
Context `{Json Subnet} `{Json Reservation} `{Json AddressRecord} `{Json UISettings}.
Context `{Json ScanResult} `{Json (gmap bytes ObservedHost)} `{Json (list RogueServer)} `{Json (Event event_data)}.
Context `{JsonDecoder rpcRequest} `{JsonDecoder initializeParams} `{JsonDecoder toolCallParams} `{RpcText}.
Context {S : Type} `{LeaseStore S}.
#[local] Abbreviation state := (RestState S).

Definition normalize_host (host : bytes) : bytes := to_lower (trim_space (trim_brackets host)).
Definition local_hosts : list bytes := map bs ["localhost"; "127.0.0.1"; "::1"]%string.
Definition allow_origin (r : HttpRequest) : bool :=
  let origin := trim_space (get_header r "Origin") in
  if bool_decide (origin = []) then true
  else
    match url_parse origin with
    | None => false
    | Some (_, host) =>
        let origin_host := normalize_host (url_hostname host) in
        bool_decide (origin_host = normalize_host (request_host_name (rq_host r))) || bool_decide (origin_host ∈ local_hosts)
    end.

(** * The sessions *)

Definition negotiate_protocol_version (requested : bytes) : bytes := default_protocol_version.
Definition protocol_version_or_default (s : session) : bytes :=
  if bool_decide (trim_space (se_protocol_version s) = []) then default_protocol_version else se_protocol_version s.

Definition decode_params {T} `{JsonDecoder T} (raw : bytes) (zero : T) : result T :=
  if bool_decide (raw = []) then Ok zero else fst <$> json_decode raw.

Definition failed (id : json) (code : Z) (message : string) (data : option bytes) : rpcResponse :=
  mkRpcResponse id (inr (mkRpcError code (bs message) data)).
Definition with_params {T} `{JsonDecoder T} (ss : sessions) (st : state) (req : rpcRequest) (zero : T)
    (k : T → sessions * state * result (option rpcResponse)) : sessions * state * result (option rpcResponse) :=
  match decode_params (rc_params req) zero with
  | Ok params => k params
  | Err e => (ss, st, Ok (Some (failed (rc_id req) (-32602) "invalid params" (Some (error_text e)))))
  | Panic m => (ss, st, Panic m)
  end.
Definition change_session (ss : sessions) (id : bytes) (f : session → session) : sessions :=
  if bool_decide (id = []) then ss else match ss !! id with Some s => <[id := f s]> ss | None => ss end.

(** [dispatch]: the response, or none for a notification. *)
Definition dispatch (d : HandlerDeps) (storage_ready : option (state → option error)) (ss : sessions) (st : state) (c : Ctx)
    (session_id : bytes) (req : rpcRequest) (inp : RestInputs S) : sessions * state * result (option rpcResponse) :=
  let id := rc_id req in
  let answer r : sessions * state * result (option rpcResponse) := (ss, st, Ok (Some (mkRpcResponse id (inl r)))) in
  if bool_decide (rc_method req = bs "initialize") then
    with_params ss st req (mkInitializeParams []) (λ params,
      let version := negotiate_protocol_version (im_protocol_version params) in
      let ss := change_session ss session_id (λ s, mkSession version (se_initialized s) (se_messages s)) in
      (ss, st, Ok (Some (mkRpcResponse id (inl (RInitialized version (hd_version d)))))))
  else if bool_decide (rc_method req = bs "notifications/initialized") then
    (change_session ss session_id (λ s, mkSession (se_protocol_version s) true (se_messages s)), st, Ok None)
  else if bool_decide (rc_method req = bs "ping") then answer RPong
  else if bool_decide (rc_method req = bs "tools/list") then answer (RTools default_tools)
  else if bool_decide (rc_method req = bs "tools/call") then
    with_params ss st req (mkToolCallParams [] ∅) (λ params,
      match call_tool d storage_ready st c (tc_name params) (tc_arguments params) inp with
      | (st, TOk r) => (ss, st, Ok (Some (mkRpcResponse id (inl (RCall r)))))
      | (st, TParam m) => (ss, st, Ok (Some (failed id (-32602) "invalid params" (Some m))))
      | (st, TFail e) => (ss, st, Ok (Some (failed id (-32000) "tool execution failed" (Some (error_text e)))))
      | (st, TPanic m) => (ss, st, Panic m)
      end)
  else (ss, st, Ok (Some (failed id (-32601) "method not found" None))).

(** * The handlers *)

(** The body of a reply, and the sessions it leaves. *)
Inductive mcp_body := MInline (r : rpcResponse) | MAccepted | MStream (id : bytes).
Record mcp_reply := mkMcpReply { mr_sessions : sessions; mr_body : mcp_body }.
#[local] Abbreviation mcp_handler := (Handler (S := S) (A := mcp_reply)).

Definition inline_response (ss : sessions) (h : headers) (r : rpcResponse) : outcome mcp_reply :=
  Reply 200 (<[bs "MCP-Protocol-Version" := default_protocol_version]> (json_type h)) (BodyData (mkMcpReply ss (MInline r)) None).
Definition accepted (ss : sessions) (h : headers) : outcome mcp_reply := Reply 202 h (BodyData (mkMcpReply ss MAccepted) None).

(** A response goes to the stream of its session, if it has room. *)
Definition route_response (ss : sessions) (h : headers) (session_id : bytes) (id : json) (resp : rpcResponse) : outcome mcp_reply :=
  if bool_decide (session_id = []) then inline_response ss h resp
  else
    match ss !! session_id with
    | None => inline_response ss h resp
    | Some s =>
        if zlen (ch_buf (se_messages s)) <? ch_cap (se_messages s)
        then accepted (<[session_id := mkSession (se_protocol_version s) (se_initialized s) (send_nb resp (se_messages s))]> ss)
               (<[bs "MCP-Protocol-Version" := protocol_version_or_default s]> h)
        else inline_response ss h (failed id (-32001) "session queue full" None)
    end.

Definition handle_message (d : HandlerDeps) (storage_ready : option (state → option error)) (ss : sessions) : mcp_handler := λ st r c h inp,
  if negb (allow_origin r) then (st, http_error h 403 (bs "forbidden origin"))
  else
    match (json_decode (rq_body r) : result (rpcRequest * bytes)) with
    | Err e => (st, inline_response ss h (failed JNull (-32700) "parse error" (Some (error_text e))))
    | Panic m => (st, Crash h m)
    | Ok (req, _) =>
        if negb (bool_decide (rc_jsonrpc req = bs "2.0")) || bool_decide (trim_space (rc_method req) = [])
        then (st, inline_response ss h (failed (rc_id req) (-32600) "invalid request" None))
        else
          match dispatch d storage_ready ss st c (get_query r "session_id") req inp with
          | (ss, st, Ok None) => (st, accepted ss h)
          | (ss, st, Ok (Some resp)) => (st, route_response ss h (trim_space (get_query r "session_id")) (rc_id req) resp)
          | (_, st, Err e) => (st, Crash h "dispatch")
          | (_, st, Panic m) => (st, Crash h m)
          end
    end.

Definition sse_capacity : Z := 16.
(** A stream is opened; [ri_rand] is the twelve random bytes of its name. *)
Definition handle_sse (ss : sessions) : mcp_handler := λ st r c h inp,
  if negb (allow_origin r) then (st, http_error h 403 (bs "forbidden origin"))
  else
    match ri_rand inp with
    | Ok raw =>
        let id := hex_encode raw in
        let h := <[bs "MCP-Protocol-Version" := default_protocol_version]> (set_header "X-Accel-Buffering" "no" (sse_headers h)) in
        (st, Reply 200 h (BodyData (mkMcpReply (<[id := mkSession [] false (make_chan sse_capacity)]> ss) (MStream id)) None))
    | _ => (st, http_error h 500 (bs "session init failed"))
    end.

Definition write_sse (event : string) (data : bytes) : bytes :=
  bs "event: " ++ bs event ++ [newline] ++ concat ((λ line, bs "data: " ++ line ++ [newline]) <$> split_byte data newline) ++ [newline].
Definition stream_start (id : bytes) : bytes :=
  write_sse "endpoint" (bs "/message?session_id=" ++ id) ++ bs "retry: 5000" ++ [newline; newline].
Definition stream_tick : bytes := bs ": keepalive" ++ [newline; newline].
(** A message of the queue is written; one that has no text is dropped. *)
Definition stream_message (ss : sessions) (id : bytes) : sessions * option rpcResponse * bytes :=
  match ss !! id with
  | Some s =>
      match recv_nb (se_messages s) with
      | (Some m, c) =>
          (<[id := mkSession (se_protocol_version s) (se_initialized s) c]> ss, Some m,
           match rpc_text m with Ok payload => write_sse "message" payload | _ => [] end)
      | (None, _) => (ss, None, [])
      end
  | None => (ss, None, [])
  end.

(** [ServeMux] in front of the two; what it answers for anything else is [unmatched]. *)
Definition mcp_mux (d : HandlerDeps) (storage_ready : option (state → option error)) (unmatched : HttpRequest → headers → outcome mcp_reply)
    (ss : sessions) : mcp_handler := λ st r c h inp,
  if method_matches (bs "GET") (rq_method r) && bool_decide (rq_path r = bs "/sse") then handle_sse ss st r c h inp
  else if method_matches (bs "POST") (rq_method r) && bool_decide (rq_path r = bs "/message")
  then handle_message d storage_ready ss st r c h inp
  else (st, unmatched r h).

(** The server behind the middlewares of cmd/monsoon/main.go. *)
Definition mcp_server (settings : runtimeSettings) (d : HandlerDeps) (storage_ready : option (state → option error))
    (unmatched : HttpRequest → headers → outcome mcp_reply) (ss : sessions) : mcp_handler :=
  rest_chain settings (mcp_mux d storage_ready unmatched ss).
Definition sessions_after (ss : sessions) (o : outcome mcp_reply) : sessions :=
  match o with Reply _ _ (BodyData r _) => mr_sessions r | _ => ss end.

(** What happens to the server: a request, a wake of a stream with a message, or its end. *)
Inductive mcp_input :=
| InRequest (r : HttpRequest) (h : headers) (inp : RestInputs S)
| InWake (id : bytes)
| InClose (id : bytes).
(** The reply to a request and the message a stream wrote. *)
Inductive mcp_output := OutReply (o : outcome mcp_reply) | OutMessage (id : bytes) (m : rpcResponse) | OutNothing.
Definition mcp_step (settings : runtimeSettings) (d : HandlerDeps) (storage_ready : option (state → option error))
    (unmatched : HttpRequest → headers → outcome mcp_reply) (x : sessions * state) (i : mcp_input) : (sessions * state) * mcp_output :=
  let '(ss, st) := x in
  match i with
  | InRequest r h inp =>
      let '(st, o) := mcp_server settings d storage_ready unmatched ss st r background h inp in ((sessions_after ss o, st), OutReply o)
  | InWake id =>
      match stream_message ss id with
      | (ss, Some m, _) => ((ss, st), OutMessage id m)
      | (ss, None, _) => ((ss, st), OutNothing)
      end
  | InClose id => ((base.delete id ss, st), OutNothing)
  end.
End server.

(** * The loop of the planning *)

Lemma loop_until_rule {X R : Type} (step : X → X + R) (Inv : X → Prop) (Post : R → Prop) (left : X → Z) :
  (∀ x, Inv x → 0 ≤ left x ∧ match step x with inl x' => Inv x' ∧ left x' + 1 ≤ left x | inr r => Post r end) →
  ∀ k x, Inv x → match loop_until k step x with inl x' => Inv x' ∧ left x' + 2 ^ Z.of_nat k ≤ left x | inr r => Post r end.
Proof.
  intros Hs k. induction k as [|k IH]; intros x Hx; cbn [loop_until]; [by apply Hs|].
  rewrite Nat2Z.inj_succ, Z.pow_succ_r by lia. pose proof (IH x Hx) as H1. destruct (loop_until k step x) as [y|r]; [|done].
  destruct H1 as [Hy Hl]. pose proof (IH y Hy) as H2. destruct (loop_until k step y); [|done]. destruct H2. split; [done|lia].
Qed.
Lemma loop_until_ends {X R : Type} (step : X → X + R) (Inv : X → Prop) (Post : R → Prop) (left : X → Z) k x :
  (∀ x, Inv x → 0 ≤ left x ∧ match step x with inl x' => Inv x' ∧ left x' + 1 ≤ left x | inr r => Post r end) →
  Inv x → left x < 2 ^ Z.of_nat k → ∃ r, loop_until k step x = inr r ∧ Post r.
Proof.
  intros Hs Hx Hk. pose proof (loop_until_rule step Inv Post left Hs k x Hx) as Hl. destruct (loop_until k step x) as [y|r]; [|eauto].
  destruct Hl as [Hy Hl]. destruct (Hs y Hy). lia.
Qed.

(** No stored prefix has an address of [q]. *)
Definition free (subnets : list Subnet) (q : prefix) : Prop :=
  ∀ s p a, s ∈ subnets → parse_prefix (sn_cidr s) = Ok p → member q a → ¬ member p a.
Lemma free_touches subnets q : prefix_wf q → existsb (touches q) subnets = false ↔ free subnets q.
Proof.
  intros Hq. unfold free. split.
  - intros He s p a Hs Hp Ha Ha'. apply not_true_iff_false in He. apply He, existsb_exists. exists s.
    split; [by apply list_elem_of_In|]. unfold touches. rewrite Hp. apply overlaps_spec; eauto using parse_prefix_wf.
  - intros Hf. apply not_true_iff_false. intros (s & Hs%list_elem_of_In & Ht)%existsb_exists. unfold touches in Ht.
    destruct (parse_prefix (sn_cidr s)) as [p| |] eqn:Hp; [|done..].
    apply overlaps_spec in Ht as (a & Ha & Ha'); [|done|by eapply parse_prefix_wf]. by eapply Hf.
Qed.

Lemma contains_spec p q : prefix_wf p → prefix_wf q → cidr_contains p q = true ↔ ∀ a, member q a → member p a.
Proof. intros. by apply cidr_is_set_arithmetic. Qed.

Section candidates.
Context (parent : prefix) (bits : Z) (subnets : list Subnet).
Hypothesis parent_wf : prefix_wf parent.
Hypothesis parent_v4 : is4 (p_addr parent) = true.
Hypothesis parent_masked : prefix_masked parent = parent.
Hypothesis bits_range : p_bits parent ≤ bits ≤ 32.

#[local] Abbreviation first := (addr_value (p_addr parent)).
#[local] Abbreviation count := (2 ^ (32 - p_bits parent)).
#[local] Abbreviation size := (2 ^ (32 - bits)).
Definition block (o : Z) : prefix := mkPrefix (A4 (be_put 4 (first + o))) bits.
Definition block_at (o : Z) : Prop := 0 ≤ o ∧ (size | o) ∧ o + size ≤ count.

Lemma parent_numbers :
  0 ≤ p_bits parent ∧ address_count parent = count ∧ first_value parent = first ∧ 0 ≤ first ∧ first + count ≤ 2 ^ 32 ∧
  0 < size ∧ (size | count) ∧ (size | first) ∧ host_bits parent = 32 - p_bits parent.
Proof.
  destruct parent_wf as (Hw & Hz & Hb). assert (Hl : bit_len (p_addr parent) = 32) by (rewrite bit_len_is4, parent_v4; done).
  rewrite Hl in Hb. assert (Hh : host_bits parent = 32 - p_bits parent) by (unfold host_bits; lia).
  assert (Hf : first_value parent = first).
  { destruct (prefix_masked_spec parent parent_wf) as (_ & _ & _ & _ & Hv & _). by rewrite parent_masked in Hv. }
  pose proof (first_value_range parent parent_wf) as [H1 H2]. rewrite Hf, Hh, Hl in *.
  assert (Hs : 0 < size) by (apply Z.pow_pos_nonneg; lia).
  assert (Hd : (size | count)).
  { exists (2 ^ (bits - p_bits parent)). rewrite <-Z.pow_add_r by lia. f_equal. lia. }
  repeat split; try done; try lia.
  - unfold address_count. rewrite Hl. destruct (Z.leb_spec 64 (32 - p_bits parent)); [lia|]. rewrite Z.shiftl_mul_pow2 by lia. lia.
  - rewrite <-Hf. unfold first_value. rewrite Hh. by apply Z.divide_mul_r.
Qed.

Lemma block_spec o : block_at o →
  prefix_wf (block o) ∧ first_value (block o) = first + o ∧ host_bits (block o) = 32 - bits ∧ prefix_masked (block o) = block o.
Proof.
  intros (Ho & Hd & Hle). destruct parent_numbers as (Hb & _ & _ & Hf & Hr & Hs & _ & Hdf & _).
  assert (Hv : be_get (be_put 4 (first + o)) = first + o) by (apply be_get_put_id; change (256 ^ Z.of_nat 4) with (2 ^ 32); lia).
  assert (Hd' : (size | first + o)) by by apply Z.divide_add_r.
  assert (E : (first + o) / size * size = first + o) by (rewrite Z.mul_comm; symmetry; apply Z.div_exact; [lia|]; by apply Z.mod_divide; [lia|]).
  assert (Hw : prefix_wf (block o)).
  { unfold prefix_wf. cbn. rewrite be_put_length. repeat split; lia. }
  assert (Hh : host_bits (block o) = 32 - bits) by done. split; [done|]. split; [|split; [done|]].
  - unfold first_value. rewrite Hh. change (addr_value (p_addr (block o))) with (be_get (be_put 4 (first + o))). by rewrite Hv.
  - unfold prefix_masked. change (addr_value (p_addr (block o))) with (be_get (be_put 4 (first + o))). rewrite Hv.
    cbn [block p_addr p_bits bit_len is4 addr_of].
    rewrite Z.shiftl_mul_pow2, Z.shiftr_div_pow2 by lia. by rewrite E.
Qed.
Lemma block_inside o : block_at o → cidr_contains parent (block o) = true.
Proof.
  intros Hb. destruct (block_spec o Hb) as (Hw & Hf & Hh & _). destruct Hb as (Ho & _ & Hle).
  destruct parent_numbers as (_ & _ & Hfp & _ & _ & _ & _ & _ & Hhp). apply contains_spec; [done..|]. intros a Ha.
  apply member_interval in Ha as (W1 & W2 & W3 & W4); [|done]. apply member_interval; [done|]. rewrite Hfp, Hhp. rewrite Hf, Hh in W4.
  cbn in W2. rewrite parent_v4, W2. repeat split; (done || lia).
Qed.
(** A prefix of that length inside the parent is a block. *)
Lemma inside_is_block q : prefix_wf q → p_bits q = bits → cidr_contains parent q = true →
  ∃ o, block_at o ∧ prefix_masked q = block o.
Proof.
  intros Hq Eb Hc. rewrite contains_spec in Hc by done. destruct parent_numbers as (_ & _ & Hfp & Hf0 & Hr & Hs & _ & Hdf & Hhp).
  pose proof (Hc _ (masked_addr_member q Hq)) as H1. apply member_interval in H1 as (_ & H4 & _ & _); [|done]. rewrite parent_v4 in H4.
  destruct (prefix_masked_spec q Hq) as (Wm & E4 & Em & _ & Ev & _). rewrite H4 in E4.
  assert (Hl : bit_len (p_addr q) = 32) by by rewrite bit_len_is4, <-E4.
  assert (Hh : host_bits q = 32 - bits) by (unfold host_bits; lia).
  assert (Hin : ∀ z, first_value q ≤ z < first_value q + size → first ≤ z < first + count).
  { intros z Hz. rewrite <-Hh in Hz. destruct (member_of_value q z Hq Hz) as [Hm Hz']. apply Hc in Hm.
    apply member_interval in Hm as (_ & _ & _ & Hm); [|done]. rewrite Hfp, Hhp, Hz' in Hm. exact Hm. }
  pose proof (Hin (first_value q) ltac:(lia)). pose proof (Hin (first_value q + size - 1) ltac:(lia)).
  exists (first_value q - first). split.
  - repeat split; try lia. apply Z.divide_sub_r; [|done]. unfold first_value. rewrite Hh. apply Z.divide_mul_r, Z.divide_refl.
  - unfold block. replace (first + (first_value q - first)) with (first_value q) by lia.
    unfold prefix_masked. rewrite Eb, <-E4, Hl. cbn [addr_of]. rewrite Z.shiftl_mul_pow2, Z.shiftr_div_pow2 by lia.
    unfold first_value. by rewrite Hh.
Qed.
Lemma nth_block o : block_at o → nth_address parent o = Some (A4 (be_put 4 (first + o))).
Proof.
  intros (Ho & _ & Hle). destruct parent_numbers as (_ & Hc & _ & Hf & Hr & Hs & _). unfold nth_address. rewrite parent_masked, Hc.
  unfold addr_value in *. destruct (p_addr parent) as [x|]; [|done]. cbn [as_slice] in *.
  assert (E : u64 (be_get x + o) = be_get x + o) by (apply Z.mod_small; lia). rewrite E. destruct (Z.leb_spec count o); [lia|].
  destruct (Z.ltb_spec max_u32 (be_get x + o)); [lia|done].
Qed.

(** The search finds the lowest free block, and fails only when there is none. *)
Lemma find_candidate_exact :
  match find_candidate_prefix parent bits subnets with
  | Ok p => ∃ o, block_at o ∧ p = block o ∧ free subnets p ∧ ∀ o', block_at o' → o' < o → ¬ free subnets (block o')
  | Err _ => ∀ o, block_at o → ¬ free subnets (block o)
  | Panic _ => False
  end.
Proof.
  destruct parent_numbers as (Hpb & Hc & _ & Hf & Hr & Hs & Hdc & _ & _).
  set (Inv o := 0 ≤ o ∧ (size | o) ∧ o ≤ count ∧ ∀ o', block_at o' → o' < o → ¬ free subnets (block o')).
  set (Post r := match r with
       | Some p => ∃ o, block_at o ∧ p = block o ∧ free subnets p ∧ ∀ o', block_at o' → o' < o → ¬ free subnets (block o')
       | None => ∀ o, block_at o → ¬ free subnets (block o)
       end).
  assert (Hstep : ∀ o, Inv o → 0 ≤ count - o ∧
    match candidate_step parent bits subnets o with inl o' => Inv o' ∧ count - o' + 1 ≤ count - o | inr r => Post r end).
  { intros o (Ho & Hd & Hle & Hlow). split; [lia|]. unfold candidate_step, prefix_address_count. rewrite Hc, Z.shiftl_mul_pow2, Z.mul_1_l by lia.
    destruct (Z.ltb_spec count (o + size)) as [Hout|Hin].
    - intros o' Hb'. apply Hlow; [done|]. destruct Hb' as (_ & _ & ?). lia.
    - assert (Hb : block_at o) by (repeat split; (done || lia)). rewrite nth_block by done. change (mkPrefix _ bits) with (block o).
      destruct (block_spec o Hb) as (Hw & _ & _ & Hm). rewrite Hm, block_inside by done. cbn [andb].
      destruct (existsb (touches (block o)) subnets) eqn:Et; cbn.
      + assert (Hnf : ¬ free subnets (block o)) by (rewrite <-free_touches by done; congruence).
        split; [|lia]. split; [lia|]. split; [by apply Z.divide_add_r|]. split; [lia|].
        intros o' Hb' Hlt. destruct (decide (o' < o)) as [|Hge]; [by apply Hlow|]. destruct Hb' as (? & [x Ex] & ?), Hd as [y Ey].
        assert (x = y) by nia. by replace o' with o by lia.
      + exists o. apply free_touches in Et; [|done]. done. }
  assert (Hcount : count ≤ 2 ^ 32) by (apply Z.pow_le_mono_r; lia).
  destruct (loop_until_ends _ Inv Post (λ o, count - o) 33 0 Hstep) as (r & E & Hp).
  - split; [lia|]. split; [apply Z.divide_0_r|]. split; [lia|]. intros o' (? & _) ?. lia.
  - change (Z.of_nat 33) with 33. lia.
  - unfold find_candidate_prefix. rewrite E. by destruct r.
Qed.
End candidates.

(** ** Sizes *)

Lemma usable_v4 p : is4 (p_addr p) = true → 1 ≤ p_bits p ≤ 30 →
  usable_hosts p = 2 ^ (32 - p_bits p) - 2 ∧ address_count_as_int p = 2 ^ (32 - p_bits p) ∧ 4 ≤ 2 ^ (32 - p_bits p).
Proof.
  intros H4 Hb. assert (Hc : address_count_as_int p = 2 ^ (32 - p_bits p)).
  { unfold address_count_as_int, address_count. rewrite bit_len_is4, H4. cbn [family_bits].
    destruct (Z.leb_spec 64 (32 - p_bits p)); [lia|]. rewrite Z.shiftl_mul_pow2, Z.mul_1_l by lia.
    assert (2 ^ (32 - p_bits p) ≤ 2 ^ 32) by (apply Z.pow_le_mono_r; lia). unfold max_int. lia. }
  assert (2 ^ 2 ≤ 2 ^ (32 - p_bits p)) by (apply Z.pow_le_mono_r; lia).
  unfold usable_hosts. rewrite Hc. destruct (Z.leb_spec (2 ^ (32 - p_bits p)) 2); lia.
Qed.
(** The longest prefix of at most 30 bits with enough addresses, or none. *)
Lemma prefix_search_spec n required : (n ≤ 30)%nat →
  let b := prefix_search n required in
  (b = -1 ∨ 1 ≤ b ≤ Z.of_nat n ∧ required ≤ 2 ^ (32 - b) - 2) ∧ ∀ b', Z.max b 0 < b' ≤ Z.of_nat n → 2 ^ (32 - b') - 2 < required.
Proof.
  intros Hn. induction n as [|n IH]; cbn [prefix_search]; [split; [by left|lia]|].
  destruct (usable_v4 (mkPrefix ten_net (Z.of_nat (S n)))) as (Hu & _); [done|cbn; lia|]. rewrite Hu. cbn [p_bits].
  destruct (Z.leb_spec required (2 ^ (32 - Z.of_nat (S n)) - 2)) as [Hle|Hgt].
  - split; [right; lia|]. intros b' Hb'. lia.
  - destruct IH as [H1 H2]; [lia|]. split; [destruct H1; [by left|right; lia]|]. intros b' Hb'.
    destruct (decide (b' = Z.of_nat (S n))) as [->|]; [lia|]. apply H2. lia.
Qed.
Lemma smallest_prefix_spec required :
  let b := smallest_ipv4_prefix required in
  b = -1 ∨ 1 ≤ b ≤ 30 ∧ required ≤ 2 ^ (32 - b) - 2 ∧ ∀ b', b < b' ≤ 30 → 2 ^ (32 - b') - 2 < required.
Proof.
  unfold smallest_ipv4_prefix. destruct (required <=? 0); [by left|]. destruct (prefix_search_spec 30 required) as [[->|[Hb Hle]] Hmax]; [done|by left|].
  right. cbn in *. split; [lia|]. split; [done|]. intros b' Hb'. apply Hmax. lia.
Qed.

(** Host addresses of a prefix: neither the first nor the last. *)
Definition host_of (p : prefix) (a : addr) : Prop :=
  member p a ∧ first_value p < addr_value a < first_value p + 2 ^ host_bits p - 1.
Lemma plan_addresses_spec p : prefix_wf p → is4 (p_addr p) = true → 1 ≤ p_bits p ≤ 30 →
  ∃ g s e, default_plan_addresses p = (Some g, Some s, Some e) ∧ host_of p g ∧ host_of p s ∧ host_of p e ∧
    addr_value g < addr_value s ≤ addr_value e.
Proof.
  intros Hp H4 Hb. destruct (usable_v4 p H4 Hb) as (Hu & Ht & Hmin). destruct (nth_address_enumerates p Hp H4) as (Hc & Hn & _).
  assert (Hh : host_bits p = 32 - p_bits p) by (unfold host_bits; by rewrite bit_len_is4, H4). rewrite Hh in Hc.
  assert (H64 : 2 ^ (32 - p_bits p) ≤ 2 ^ 32) by (apply Z.pow_le_mono_r; lia).
  assert (Hnth : ∀ n, 0 ≤ n < 2 ^ (32 - p_bits p) → ∃ a, nth_address p n = Some a ∧ member p a ∧ addr_value a = first_value p + n).
  { intros n Hr. pose proof (Hn n ltac:(lia)) as H1. destruct (nth_address p n) as [a|]; [|lia]. exists a. tauto. }
  unfold default_plan_addresses. rewrite Ht, Hu. destruct (Z.ltb_spec (2 ^ (32 - p_bits p)) 4); [lia|].
  set (off := if 2 ^ (32 - p_bits p) - 2 <=? 20 then 2 else 10).
  assert (Hoff : 2 ≤ off ≤ 2 ^ (32 - p_bits p) - 2).
  { unfold off. destruct (Z.leb_spec (2 ^ (32 - p_bits p) - 2) 20); lia. }
  destruct (Hnth 1) as (g & Eg & Mg & Vg); [lia|]. destruct (Hnth (2 ^ (32 - p_bits p) - 2)) as (e & Ee & Me & Ve); [lia|].
  destruct (Hnth off) as (s & Es & Ms & Vs); [lia|]. rewrite Eg, Ee, Es.
  assert (Hord : addr_compare (Some e) (Some s) ≠ Lt).
  { pose proof Me as (_ & F1 & _)%member_interval; [|done]. pose proof Ms as (_ & F2 & _)%member_interval; [|done]. rewrite H4 in F1, F2.
    unfold addr_value in *. destruct e as [x|], s as [y|]; try done. unfold addr_compare. cbn [addr_bits addr_num addr_zone as_slice] in *.
    rewrite Z.compare_refl. destruct (Z.compare_spec (be_get x) (be_get y)); [done|lia|done]. }
  rewrite (bool_decide_eq_false_2 _ Hord). exists g, s, e. unfold host_of. rewrite Hh. split; [done|]. split; [split; [done|lia]|]. split; [split; [done|lia]|]. split; [split; [done|lia]|]. lia.
Qed.

Lemma plan_inj p q : TOk (TPlan p) = TOk (TPlan q) → p = q.
Proof. by intros [= ->]. Qed.

Lemma tool_bind_ok {A B} (f : A → tool_result B) r v : (r ≫= f) = TOk v → ∃ a, r = TOk a ∧ f a = TOk v.
Proof. destruct r; cbn; [eauto|discriminate..]. Qed.

Section planned.
Context `{UnicodeTables} `{UrlParse} `{Bcrypt} `{SliceSort} `{MapRange} `{HttpTime} `{EmptyDecoder} `{AuditExport} `{TimeText}.
Context `{Json User} `{Json tokenRecord} `{Json sessionEntry} `{Json (Entry event_data)}.
Context `{Json Subnet} `{Json Reservation} `{Json AddressRecord} `{Json UISettings}.
Context `{Json ScanResult} `{Json (gmap bytes ObservedHost)} `{Json (list RogueServer)} `{Json (Event event_data)}.
Context {S : Type} `{LeaseStore S}.

End planned.

(** ** The span of a pool *)

Lemma addr_next_value a : addr_wf a → addr_value a + 1 < 2 ^ bit_len a →
  ∃ b, addr_next a = Some b ∧ addr_wf b ∧ is4 b = is4 a ∧ addr_value b = addr_value a + 1.
Proof.
  unfold addr_value. destruct a as [x|x z]; cbn [addr_wf bit_len as_slice addr_next is4]; intros Hw Hlt.
  - destruct (Z.eqb_spec (be_get x) (2 ^ 32 - 1)); [lia|]. pose proof (be_get_range x) as Hr. rewrite Hw in Hr. change (256 ^ Z.of_nat 4) with (2 ^ 32) in Hr.
    eexists. split; [done|]. cbn [addr_wf is4 as_slice]. rewrite be_put_length, be_get_put_id; [done|]. change (256 ^ Z.of_nat 4) with (2 ^ 32). lia.
  - destruct (Z.eqb_spec (be_get x) (2 ^ 128 - 1)); [lia|]. pose proof (be_get_range x) as Hr. rewrite Hw in Hr. change (256 ^ Z.of_nat 16) with (2 ^ 128) in Hr.
    eexists. split; [done|]. cbn [addr_wf is4 as_slice]. rewrite be_put_length, be_get_put_id; [done|]. change (256 ^ Z.of_nat 16) with (2 ^ 128). lia.
Qed.
(** Below in the same family: the number is less, as long as no zones differ. *)
Lemma addr_compare_lt a b : is4 a = is4 b → unzoned a = true → unzoned b = true →
  addr_compare (Some a) (Some b) = (addr_value a ?= addr_value b).
Proof.
  unfold addr_value, addr_compare. destruct a as [x|x [|]], b as [y|y [|]]; cbn [is4 unzoned addr_bits addr_num addr_zone as_slice]; try done; intros _ _ _.
  - rewrite Z.compare_refl. by destruct (_ ?= _).
  - rewrite Z.compare_refl. by destruct (_ ?= _).
Qed.
Lemma addr_next_unzoned a b : addr_next a = Some b → unzoned a = true → unzoned b = true.
Proof. destruct a as [x|x [|]]; cbn; destruct (_ =? _); try done; by intros [= <-]. Qed.
(** The loop over a pool counts its addresses. *)
Lemma host_span_exact start end_ :
  addr_wf start → addr_wf end_ → is4 start = is4 end_ → unzoned start = true → unzoned end_ = true → addr_value start ≤ addr_value end_ →
  host_span start end_ = Some (addr_value end_ - addr_value start + 1).
Proof.
  intros Ws We H4 Us Ue Hle. pose proof (addr_value_range _ We) as Hr. pose proof (addr_value_range _ Ws) as Hr'.
  assert (Hbits : 2 ^ bit_len end_ ≤ 2 ^ 128) by (apply Z.pow_le_mono_r; [lia|by destruct end_]).
  set (v := addr_value start) in *. set (e := addr_value end_) in *.
  set (Inv (x : Z * option addr) := ∃ a, x.2 = Some a ∧ addr_wf a ∧ is4 a = is4 end_ ∧ unzoned a = true ∧ addr_value a ≤ e ∧
     x.1 = addr_value a - v + 1 ∧ v ≤ addr_value a).
  assert (Hstep : ∀ x, Inv x → 0 ≤ e - v + 1 - x.1 ∧
    match span_step end_ x with inl x' => Inv x' ∧ e - v + 1 - x'.1 + 1 ≤ e - v + 1 - x.1 | inr n => n = e - v + 1 end).
  { intros [n cur] (a & Ec & Wa & Fa & Ua & La & En & Ga). cbn [fst snd] in *. subst cur n. split; [lia|]. unfold span_step.
    rewrite addr_compare_lt by done. fold e. destruct (Z.compare_spec (addr_value a) e); rewrite ?bool_decide_eq_false_2 by done; try lia.
    rewrite bool_decide_eq_true_2 by done. destruct (addr_next_value a Wa) as (b & Eb & Wb & Fb & Vb); [rewrite bit_len_is4, Fa, <-bit_len_is4; lia|].
    change (Some a ≫= addr_next) with (addr_next a). rewrite Eb. split; [|cbn [fst]; lia]. exists b. cbn [fst snd].
    split; [done|]. split; [done|]. split; [congruence|]. split; [by eapply addr_next_unzoned|]. lia. }
  destruct (loop_until_ends (span_step end_) Inv (λ n, n = e - v + 1) (λ x, e - v + 1 - x.1) 129 (1, Some start) Hstep) as (n & E & ->).
  - exists start. cbn [fst snd]. fold v. repeat (split; [done|]). lia.
  - cbn [fst]. change (2 ^ Z.of_nat 129) with (2 * 2 ^ 128). lia.
  - unfold host_span, addr_gt. rewrite addr_compare_lt by done. fold v e. rewrite bool_decide_eq_false_2; [by rewrite E|].
    destruct (Z.compare_spec v e); (done || lia).
Qed.

(** * Who changes the data *)

Section promises.
Context `{UnicodeTables} `{UrlParse} `{Bcrypt} `{SliceSort} `{MapRange} `{HttpTime} `{EmptyDecoder} `{AuditExport} `{TimeText}.
Context `{Json User} `{Json tokenRecord} `{Json sessionEntry} `{Json (Entry event_data)}.
Context `{Json Subnet} `{Json Reservation} `{Json AddressRecord} `{Json UISettings}.
Context `{Json ScanResult} `{Json (gmap bytes ObservedHost)} `{Json (list RogueServer)} `{Json (Event event_data)}.
Context `{JsonDecoder rpcRequest} `{JsonDecoder initializeParams} `{JsonDecoder toolCallParams} `{RpcText}.
Context {S : Type} `{LeaseStore S}.
#[local] Abbreviation state := (RestState S).

(** Tools that only read, and tools that ask for an operator first. *)
Definition reads_only (k : tool) : Prop := ∀ st c args inp, (k st c args inp).1 = st.
Definition guarded (k : tool) : Prop := ∀ st c args inp,
  (k st c args inp).1 = st ∨ (cx_enforced c = true → ∃ id, cx_identity c = Some id ∧ holds DefaultRoleOperator id).

Lemma reading_reads k : reads_only (reading k).
Proof. by intros st c args inp. Qed.
Lemma with_engine_reads k : (∀ e, reads_only (k e)) → reads_only (with_engine k).
Proof. intros Hk st c args inp. unfold with_engine. destruct (rt_ipam st); [apply Hk|done]. Qed.
Lemma needs_operator_guarded k : guarded (needs_operator k).
Proof.
  intros st c args inp. unfold needs_operator, role_error. destruct (cx_identity c) as [id|].
  - destruct (has_role _ _) eqn:Er; [right; intros _; by exists id|by left].
  - destruct (cx_enforced c); [by left|by right].
Qed.
Lemma with_engine_guarded k : (∀ e, guarded (k e)) → guarded (with_engine k).
Proof. intros Hk st c args inp. unfold with_engine. destruct (rt_ipam st); [apply Hk|by left]. Qed.
Lemma reads_guarded k : reads_only k → guarded k.
Proof. intros Hk st c args inp. left. apply Hk. Qed.

Lemma read_tool k (n : string) (l : list string) : reads_only k → guarded k ∧ (n ∉ l → reads_only k).
Proof. intros. split; [by apply reads_guarded|done]. Qed.

Definition writing_tools : list string := ["monsoon_create_subnet"; "monsoon_reserve_ip"; "monsoon_run_discovery"]%string.
Lemma handlers_guarded d storage_ready : Forall (λ p, guarded p.2 ∧ (p.1 ∉ writing_tools → reads_only p.2)) (tool_handlers d storage_ready).
Proof.
  unfold tool_handlers. repeat apply Forall_cons_2; [..|apply Forall_nil_2]; cbn [fst snd];
    first [ apply read_tool; first [by apply reading_reads | apply with_engine_reads; intros; by apply reading_reads]
          | split; [|intros Hn; exfalso; apply Hn; set_solver] ].
  - apply with_engine_guarded. intros. apply needs_operator_guarded.
  - apply with_engine_guarded. intros. apply needs_operator_guarded.
  - intros st c args inp. unfold run_discovery_tool. destruct (rt_disc st); [apply needs_operator_guarded|by left].
Qed.
Lemma find_tool_in d storage_ready name k : find_tool d storage_ready name = Some k → ∃ n, name = bs n ∧ (n, k) ∈ tool_handlers d storage_ready.
Proof.
  unfold find_tool. intros ([n k'] & Eh & ->)%fmap_Some. apply head_Some_elem_of, list_elem_of_filter in Eh as [En Hin].
  by exists n.
Qed.
Lemma call_tool_guarded d storage_ready st c name args inp :
  (call_tool d storage_ready st c name args inp).1 = st ∨
  (cx_enforced c = true → ∃ id, cx_identity c = Some id ∧ holds DefaultRoleOperator id).
Proof.
  unfold call_tool. destruct (find_tool _ _ _) as [k|] eqn:Ek; [|by left]. apply find_tool_in in Ek as (n & _ & Hin).
  pose proof (handlers_guarded d storage_ready) as Hg. rewrite Forall_forall in Hg. destruct (Hg _ Hin) as [Hk _]. cbn in Hk.
  specialize (Hk st c args inp). destruct (k st c args inp) as [st' []]; exact Hk.
Qed.
(** A tool that is listed with the hint that it only reads does so, whoever calls it. *)
Lemma hinted_tools_read d storage_ready td st c args inp :
  td ∈ default_tools → td_annotations td = schema_members read_only_tool →
  (call_tool d storage_ready st c (td_name td) args inp).1 = st.
Proof.
  intros Htd Hro. unfold call_tool. destruct (find_tool _ _ _) as [k|] eqn:Ek; [|done]. apply find_tool_in in Ek as (n & En & Hin).
  pose proof (handlers_guarded d storage_ready) as Hg. rewrite Forall_forall in Hg. destruct (Hg _ Hin) as [_ Hk]. cbn in Hk.
  assert (Hn : n ∉ writing_tools).
  { intros Hw. assert (Hf : Forall (λ td, td_annotations td = schema_members read_only_tool → trim_space (td_name td) ∉ map bs writing_tools) default_tools).
    { unfold default_tools. repeat apply Forall_cons_2; try apply Forall_nil_2; intros Ha;
        first [discriminate Ha | refine (bool_decide_unpack _ _); vm_compute; exact I]. }
    rewrite Forall_forall in Hf. apply (Hf td Htd Hro). rewrite En. by apply (list_elem_of_fmap_2 bs). }
  specialize (Hk Hn st c args inp). destruct (k st c args inp) as [st' []]; exact Hk.
Qed.

Lemma dispatch_guarded d storage_ready ss st c sid req inp :
  (dispatch d storage_ready ss st c sid req inp).1.2 = st ∨
  (cx_enforced c = true → ∃ id, cx_identity c = Some id ∧ holds DefaultRoleOperator id).
Proof.
  unfold dispatch, with_params. repeat (case_bool_decide; [try by left|]); [| |by left].
  - left. by destruct (decode_params _ _).
  - destruct (decode_params _ _) as [params| |]; [|by left..].
    pose proof (call_tool_guarded d storage_ready st c (tc_name params) (tc_arguments params) inp) as Hc.
    destruct (call_tool _ _ _ _ _ _ _) as [st' []]; exact Hc.
Qed.
Lemma mcp_mux_guarded d storage_ready unmatched ss :
  changes_only (context_allowed (holds DefaultRoleOperator)) (mcp_mux d storage_ready unmatched ss).
Proof.
  intros st r c h inp. unfold kept, mcp_mux, context_allowed. destruct (_ && _).
  { left. unfold handle_sse. destruct (negb _); [done|]. by destruct (ri_rand inp). }
  destruct (_ && _); [|by left]. unfold handle_message. destruct (negb _); [by left|]. destruct (json_decode _) as [[req rest]| |]; [|by left..].
  destruct (_ || _); [by left|]. pose proof (dispatch_guarded d storage_ready ss st c (get_query r "session_id") req inp) as Hd.
  destruct (dispatch _ _ _ _ _ _ _ _) as [[ss' st'] [[]| |]]; cbn in *; (destruct Hd as [->|]; [by left|by right]).
Qed.

(** C40: The tools write for operators only.  When authentication is enforced, whatever the
    message, its session and its arguments, the MCP server changes the leases, the
    prefixes, the discovery, the settings or what subscribers receive only if the request
    carries the token or the session of an operator. *)
Theorem mcp_writes_need_operator settings d storage_ready unmatched ss st r h inp s :
  rs_auth_enforced settings = true → rt_auth st = Some s →
  same_data st (mcp_server settings d storage_ready unmatched ss st r background h inp).1 ∨
  ∃ id, (resolve_identity s r inp).2 = Some id ∧ has_role DefaultRoleOperator (id_role id) = true.
Proof. intros He Hs. apply chain_writes_authorized; [done..|]. apply mcp_mux_guarded. Qed.

(** ** Streams *)

Definition queues_bounded (ss : sessions) : Prop := map_Forall (λ _ s, chan_ok (se_messages s)) ss.
Lemma change_session_bounded ss id f : (∀ s, se_messages (f s) = se_messages s) → queues_bounded ss → queues_bounded (change_session ss id f).
Proof.
  intros Hf Hss. unfold change_session. case_bool_decide; [done|]. destruct (ss !! id) as [s|] eqn:E; [|done].
  apply map_Forall_insert_2; [|done]. rewrite Hf. exact (Hss id s E).
Qed.
Lemma dispatch_bounded d storage_ready ss st c sid req inp :
  queues_bounded ss → queues_bounded (dispatch d storage_ready ss st c sid req inp).1.1.
Proof.
  intros Hss. unfold dispatch, with_params. repeat (case_bool_decide; [try done|]); [| | |done].
  - destruct (decode_params _ _); [by apply change_session_bounded|done..].
  - by apply change_session_bounded.
  - destruct (decode_params _ _) as [params| |]; [|done..]. by destruct (call_tool _ _ _ _ _ _ _) as [st' []].
Qed.
Lemma route_bounded ss h sid id resp : queues_bounded ss → queues_bounded (sessions_after ss (route_response ss h sid id resp)).
Proof.
  intros Hss. unfold route_response. case_bool_decide; [done|]. destruct (ss !! sid) as [s|] eqn:E; [|done].
  destruct (_ <? _); [|done]. cbn. apply map_Forall_insert_2; [|done]. apply send_nb_ok. exact (Hss sid s E).
Qed.
(** No queue has more than its sixteen responses, whatever is asked for. *)
Lemma mux_bounded d storage_ready unmatched ss st r c h inp :
  sessions_after ss (unmatched r h) = ss → queues_bounded ss →
  queues_bounded (sessions_after ss (mcp_mux d storage_ready unmatched ss st r c h inp).2).
Proof.
  intros Hu Hss. unfold mcp_mux. destruct (_ && _).
  { unfold handle_sse. destruct (negb _); [done|]. destruct (ri_rand inp); [|done..]. cbn. by apply map_Forall_insert_2. }
  destruct (_ && _); [|by rewrite <-Hu in Hss]. unfold handle_message. destruct (negb _); [done|]. destruct (json_decode _) as [[req rest]| |]; [|done..].
  destruct (_ || _); [done|]. pose proof (dispatch_bounded d storage_ready ss st c (get_query r "session_id") req inp Hss) as Hd.
  destruct (dispatch _ _ _ _ _ _ _ _) as [[ss' st'] [[resp|]| |]]; try done. cbn [fst snd] in *.
  pose proof (route_bounded ss' h (trim_space (get_query r "session_id")) (rc_id req) resp Hd) as Hr.
  unfold route_response in *. case_bool_decide; [done|]. destruct (ss' !! _); [|done]. by destruct (_ <? _).
Qed.
Lemma stream_bounded ss id : queues_bounded ss → queues_bounded (stream_message ss id).1.1.
Proof.
  intros Hss. unfold stream_message. destruct (ss !! id) as [s|] eqn:E; [|done]. unfold recv_nb. pose proof (Hss id s E) as Hs.
  destruct (ch_buf (se_messages s)) as [|m buf] eqn:Eb; [done|]. cbn. apply map_Forall_insert_2; [|done]. unfold chan_ok in *. rewrite Eb, zlen_cons in Hs. cbn. lia.
Qed.

(** A full queue: the call is done, and its caller is told that the queue is full. *)
Lemma full_queue_hides_result d storage_ready ss st c r h inp req rest st' resp s ss' :
  allow_origin r = true → json_decode (rq_body r) = Ok (req, rest) → rc_jsonrpc req = bs "2.0" → trim_space (rc_method req) ≠ [] →
  dispatch d storage_ready ss st c (get_query r "session_id") req inp = (ss', st', Ok (Some resp)) →
  trim_space (get_query r "session_id") ≠ [] → ss' !! trim_space (get_query r "session_id") = Some s →
  ch_cap (se_messages s) ≤ zlen (ch_buf (se_messages s)) →
  handle_message d storage_ready ss st r c h inp =
    (st', inline_response ss' h (failed (rc_id req) (-32001) "session queue full" None)).
Proof.
  intros Ho Hj Hv Hm Hd Hi Hs Hfull. unfold handle_message. rewrite Ho, Hj, (bool_decide_eq_true_2 _ Hv), (bool_decide_eq_false_2 _ Hm). cbn [negb orb].
  rewrite Hd. unfold route_response. rewrite (bool_decide_eq_false_2 _ Hi), Hs. destruct (Z.ltb_spec (zlen (ch_buf (se_messages s))) (ch_cap (se_messages s))); [lia|done].
Qed.
(** A page of another host is refused before anything is read. *)
Lemma foreign_origin_refused d storage_ready ss st c r h inp :
  allow_origin r = false →
  handle_message d storage_ready ss st r c h inp = (st, http_error h 403 (bs "forbidden origin")) ∧
  handle_sse ss st r c h inp = (st, http_error h 403 (bs "forbidden origin")).
Proof. intros Ho. unfold handle_message, handle_sse. by rewrite Ho. Qed.
End promises.

(** * Witnesses *)

#[local] Existing Instance ascii_tables.
#[local] Existing Instance small_slices.
#[local] Existing Instance listed_range.
#[local] Existing Instance split_urls.
#[local] Existing Instance plain_bcrypt.
#[local] Existing Instance no_json.
#[local] Existing Instance no_decoder.
#[local] Existing Instance empty_decoder.
#[local] Existing Instance number_http_time.
#[local] Existing Instance no_export.
#[local] Existing Instance number_times.
#[local] Existing Instance no_leases.
#[local] Instance no_rpc_text : RpcText := {| rpc_text _ := Ok [] |}.

Example required_read : map (λ s, extract_required_addresses (bs s)) ["I need 500 addresses for 3 sites"; "none"; "x12y"]%string = [500; 0; 12].
Proof. vm_compute. reflexivity. Qed.
Example targets : map (λ p, target_usable p.1 p.2) [(500, 15); (100, 10); (7, 0); (100, -200)] = [575; 111; 7; -100].
Proof. vm_compute. reflexivity. Qed.
Example sizes : map smallest_ipv4_prefix [1; 2; 3; 254; 255; 575; 2 ^ 31 - 2; 2 ^ 31 - 1; 0] = [30; 30; 29; 24; 23; 22; 1; -1; -1].
Proof. vm_compute. reflexivity. Qed.
Example values_read :
  optional_string {[ bs "k" := JArray [JNumber (bs "7"); JNull; JObject [(bs "b", JBool true); (bs "a", JString (bs "x"))]] ]} "k"
  = bs "[7 <nil> map[a:x b:true]]".
Proof. vm_compute. reflexivity. Qed.
(** The origins of a page: this host, a local one, or another. *)
Example origins_allowed :
  map (λ o, allow_origin (mkHttpRequest (bs "POST") (bs "/message") (bs "dhcp.lan:8080") [] false {[ bs "Origin" := bs o ]} ∅ ∅ 0 []))
    ["http://dhcp.lan"; "http://localhost:3000"; "http://evil.test"]%string = [true; true; false].
Proof. vm_compute. reflexivity. Qed.
Example lines_of_a_message : write_sse "message" (bs "a" ++ [newline] ++ bs "b") =
  bs "event: message" ++ [newline] ++ bs "data: a" ++ [newline] ++ bs "data: b" ++ [newline; newline].
Proof. vm_compute. reflexivity. Qed.

Definition office_nets : list Subnet :=
  map (λ s, mkSubnet (bs s) [] 0 [] [] (mkDHCPPool false [] [] 0) 0 0) ["10.0.0.0/24"; "10.0.4.0/30"; "not a prefix"]%string.
Definition ten_eight : prefix := mkPrefix ten_net 8.
(** The first block of 1024 addresses touches a stored prefix, and so does the second. *)
Example office_block : prefix_string <$> find_candidate_prefix ten_eight 22 office_nets = Ok (bs "10.0.8.0/22").
Proof. vm_compute. reflexivity. Qed.
Example small_parent : is_ok (find_candidate_prefix (mkPrefix ten_net 23) 23 office_nets) = false.
Proof. vm_compute. reflexivity. Qed.

Definition demo_mcp_deps : HandlerDeps := mkHandlerDeps (bs "dev") 0 false true (bs ":67") (Some true) false None (bs ":7067").
Definition demo_mcp_unmatched (r : HttpRequest) (h : headers) : outcome mcp_reply := http_error h 404 (bs "404 page not found").
Definition demo_message : HttpRequest :=
  mkHttpRequest (bs "POST") (bs "/message") (bs "dhcp.lan") (bs "10.0.0.9:1") false ∅ {[ bs "sid" := bs "s1" ]} ∅ 0 [].
Lemma mcp_writes_need_operator_witness :
  same_data demo_state (mcp_server demo_settings demo_mcp_deps None demo_mcp_unmatched ∅ demo_state demo_message background ∅ demo_inputs).1 ∨
  ∃ id, (resolve_identity demo_service demo_message demo_inputs).2 = Some id ∧ has_role DefaultRoleOperator (id_role id) = true.
Proof.
  exact (mcp_writes_need_operator demo_settings demo_mcp_deps None demo_mcp_unmatched ∅ demo_state demo_message ∅ demo_inputs demo_service eq_refl eq_refl).
Defined.

Definition plan_args : tool_args := {[ bs "prompt" := JString (bs "500 addresses for cameras") ]}.
Definition cameras : subnet_plan :=
  match plan_subnet (S := ()) plan_args demo_state with
  | TOk (TPlan p) => p
  | _ => mkSubnetPlan [] [] 0 0 0 0 ten_eight ten_eight 0 None None None 0
  end.
Example cameras_planned : (prefix_string (sp_suggested cameras), sp_usable cameras, addr_text (sp_pool_start cameras)) =
  (bs "10.0.0.0/22", 1022, bs "10.0.0.10").
Proof. vm_compute. reflexivity. Qed.
