(* ===== verification/IscConfig.v ===== *)
(** internal/migrate/isc_dhcp.go: the parser of an ISC DHCP configuration.

    [tokenize_isc_config] reads the text, the parser the tokens.  The parser's
    position is the list of tokens left; the subnet it fills, a pointer in the code,
    is passed along and comes back.  [parse_isc_dhcp_config] has fuel for every token,
    which is enough ([parse_ends]).

    IscTheorems names the statements that are read, and says what they mean without
    the parser. *)

From S2P Require Import Prelude.
From S2P Require Import GoBytes.
From S2P Require Import GoStrings.
From S2P Require Import GoTime.
From S2P Require Import GoNet.
From S2P Require Import GoNet6.
From S2P Require Import GoPrefix.
From S2P Require Import GoParse.
From S2P Require Import Ipam.
From S2P Require Import Metrics.

(** * Data *)

Record iscRange := mkIscRange { ir_start : bytes; ir_end : bytes }.
Record iscHost := mkIscHost {
  ih_name : bytes; ih_mac : bytes; ih_fixed_address : bytes; ih_hostname : bytes; ih_subnet_cidr : bytes
}.
Record iscSubnet := mkIscSubnet {
  is_network : bytes; is_netmask : bytes; is_lease_time_sec : Z; is_ranges : list iscRange; is_gateway : bytes;
  is_dns : list bytes; is_reservations : list iscHost
}.
Record iscConfigData := mkIscConfigData { ic_subnets : list iscSubnet; ic_hosts : list iscHost }.
#[global] Instance eta_iscHost : Eta iscHost := λ h,
  mkIscHost (ih_name h) (ih_mac h) (ih_fixed_address h) (ih_hostname h) (ih_subnet_cidr h).
#[global] Instance eta_iscSubnet : Eta iscSubnet := λ s,
  mkIscSubnet (is_network s) (is_netmask s) (is_lease_time_sec s) (is_ranges s) (is_gateway s) (is_dns s)
    (is_reservations s).
#[global] Instance eta_iscConfigData : Eta iscConfigData := λ d, mkIscConfigData (ic_subnets d) (ic_hosts d).

(** * Tokens *)

Definition lbrace : byte := byte_of_Z 123.
Definition rbrace : byte := byte_of_Z 125.
Definition semicolon : byte := byte_of_Z 59.
Definition hash : byte := byte_of_Z 35.
Definition dquote : byte := byte_of_Z 34.

Definition is_punct (c : byte) : bool := bool_decide (c ∈ [lbrace; rbrace; semicolon; comma]).
Definition is_blank (c : byte) : bool := bool_decide (c ∈ map byte_of_Z [32; 9; 13; 10]).

Inductive lex_mode := LexPlain | LexString | LexComment.

(** [flush] *)
Definition flush (current : bytes) (tokens : list bytes) : list bytes :=
  if bool_decide (current = []) then tokens else current :: tokens.
Fixpoint tokenize_from (mode : lex_mode) (current s : bytes) : list bytes :=
  match s with
  | [] => flush current []
  | ch :: s =>
      match mode with
      | LexString => if bool_decide (ch = dquote) then flush current (tokenize_from LexPlain [] s)
                     else tokenize_from LexString (current ++ [ch]) s
      | LexComment => tokenize_from (if bool_decide (ch = newline) then LexPlain else LexComment) current s
      | LexPlain =>
          if bool_decide (ch = dquote) then flush current (tokenize_from LexString [] s)
          else if bool_decide (ch = hash) then flush current (tokenize_from LexComment [] s)
          else if is_punct ch then flush current ([ch] :: tokenize_from LexPlain [] s)
          else if is_blank ch then flush current (tokenize_from LexPlain [] s)
          else tokenize_from LexPlain (current ++ [ch]) s
      end
  end.
Definition tokenize_isc_config (input : bytes) : list bytes := tokenize_from LexPlain [] input.

(** * Subnets of a network and a mask *)

(** [net.IPMask.Size] of four bytes: the ones in front, none when others follow. *)
Definition mask_ones (mask : bytes) : option Z :=
  list_find (λ n : Z, cidr_mask32 n = mask) (seqZ 0 33) ≫= λ p, Some p.2.

Definition subnet_cidr (network netmask : bytes) : result bytes :=
  let ip := to4 (parse_ip (trim_space network)) in
  let mask := to4 (parse_ip (trim_space netmask)) in
  if bool_decide (ip = []) || bool_decide (mask = [])
  then Err (Errorf "invalid subnet definition %s netmask %s" [FB network; FB netmask])
  else
    match mask_ones mask with
    | None => Err (Errorf "invalid netmask %s" [FB netmask])
    | Some ones => Ok (prefix_string (prefix_masked (mkPrefix (A4 ip) ones)))
    end.

(** * The parser *)

Section parser.
Context `{UnicodeTables} `{GoQuote}.

Definition next (toks : list bytes) : result (bytes * list bytes) :=
  match toks with t :: toks => Ok (t, toks) | [] => Err (errorNew "unexpected end of input") end.
Definition consume (expected : string) (toks : list bytes) : result (list bytes) :=
  '(token, toks) ← next toks;
  if bool_decide (token = bs expected) then Ok toks
  else Err (Errorf "expected %s, got %s" [FB (quote (bs expected)); FB (quote token)]).

Fixpoint collect_until_semicolon (toks : list bytes) : list bytes * list bytes :=
  match toks with
  | [] => ([], [])
  | t :: toks =>
      if bool_decide (t = [semicolon]) then ([], toks)
      else
        let '(values, rest) := collect_until_semicolon toks in
        (if bool_decide (t = [comma]) then values else t :: values, rest)
  end.

Fixpoint skip_statement_or_block (depth : nat) (toks : list bytes) : list bytes :=
  match toks with
  | [] => []
  | t :: toks =>
      if bool_decide (t = [lbrace]) then skip_statement_or_block (S depth) toks
      else if bool_decide (t = [rbrace]) then
        match depth with
        | O | 1%nat => toks
        | S depth => skip_statement_or_block depth toks
        end
      else if bool_decide (t = [semicolon]) && bool_decide (depth = O) then toks
      else skip_statement_or_block depth toks
  end.

(** [strconv.ParseInt]; the text of its error is left open. *)
Definition parse_seconds (value : bytes) : result Z :=
  match parse_int value with Some z => Ok z | None => Err (ErrIO "strconv.ParseInt") end.

Definition skip_ethernet (toks : list bytes) : list bytes :=
  match toks with
  | t :: toks' => if bool_decide (t = bs "ethernet") then toks' else toks
  | [] => toks
  end.
(** The loop of [parseHost]. *)
Fixpoint parse_host_body (fuel : nat) (toks : list bytes) (host : iscHost) : result (list bytes * iscHost) :=
  match fuel, toks with
  | O, _ => Panic "fuel"
  | _, [] => Ok ([], host)
  | S fuel, t :: rest =>
      if bool_decide (t = [rbrace]) then Ok (rest, host)
      else if bool_decide (t = bs "hardware") then
        '(value, rest) ← next (skip_ethernet rest);
        rest ← consume ";" rest;
        parse_host_body fuel rest (host <| ih_mac := value |>)
      else if bool_decide (t = bs "fixed-address") then
        '(value, rest) ← next rest;
        rest ← consume ";" rest;
        parse_host_body fuel rest (host <| ih_fixed_address := value |>)
      else if bool_decide (t = bs "option") then
        '(name, rest) ← next rest;
        let '(values, rest) := collect_until_semicolon rest in
        parse_host_body fuel rest
          (match values with
           | v :: _ => if equal_fold name (bs "host-name") then host <| ih_hostname := v |> else host
           | [] => host
           end)
      else parse_host_body fuel (skip_statement_or_block O toks) host
  end.

(** The end of [parseHost]. *)
Definition named_host (host : iscHost) : iscHost :=
  if bool_decide (ih_hostname host = []) then host <| ih_hostname := ih_name host |> else host.
Definition current_cidr (current : option iscSubnet) : bytes :=
  match current with
  | Some s => match subnet_cidr (is_network s) (is_netmask s) with Ok cidr => cidr | _ => [] end
  | None => []
  end.
Definition parse_host (fuel : nat) (current : option iscSubnet) (toks : list bytes) : result (list bytes * iscHost) :=
  toks ← consume "host" toks;
  '(name, toks) ← next toks;
  toks ← consume "{" toks;
  '(toks, host) ← parse_host_body fuel toks (mkIscHost name [] [] [] (current_cidr current));
  Ok (toks, named_host host).

Definition set_option (name : bytes) (values : list bytes) (s : iscSubnet) : iscSubnet :=
  let name := to_lower name in
  if bool_decide (name = bs "routers") then match values with v :: _ => s <| is_gateway := v |> | [] => s end
  else if bool_decide (name = bs "domain-name-servers") then s <| is_dns := values |> else s.
Definition parse_option (current : option iscSubnet) (toks : list bytes) : result (list bytes * option iscSubnet) :=
  toks ← consume "option" toks;
  '(name, toks) ← next toks;
  let '(values, toks) := collect_until_semicolon toks in
  Ok (toks, set_option name values <$> current).

Definition parse_range (current : option iscSubnet) (toks : list bytes) : result (list bytes * option iscSubnet) :=
  toks ← consume "range" toks;
  match current with
  | None => Ok ((collect_until_semicolon toks).2, None)
  | Some s =>
      '(start, toks) ← next toks;
      '(start, toks) ← (if equal_fold start (bs "dynamic-bootp") then next toks else Ok (start, toks));
      '(end_, toks) ← next toks;
      toks ← consume ";" toks;
      Ok (toks, Some (s <| is_ranges := is_ranges s ++ [mkIscRange start end_] |>))
  end.

Definition parse_lease_time (current : option iscSubnet) (toks : list bytes) : result (list bytes * option iscSubnet) :=
  toks ← consume "default-lease-time" toks;
  '(value, toks) ← next toks;
  seconds ← parse_seconds value;
  toks ← consume ";" toks;
  Ok (toks, (λ s, s <| is_lease_time_sec := seconds |>) <$> current).

Definition add_host (host : iscHost) (d : iscConfigData) (current : option iscSubnet) : iscConfigData * option iscSubnet :=
  match current with
  | Some s => (d, Some (s <| is_reservations := is_reservations s ++ [host] |>))
  | None => (d <| ic_hosts := ic_hosts d ++ [host] |>, None)
  end.

(** [parseWrapper] up to its statements: none when the wrapper ends with a semicolon. *)
Fixpoint wrapper_body (start : bytes) (toks : list bytes) : result (option (list bytes) * list bytes) :=
  match toks with
  | [] => Err (Errorf "unterminated %s block" [FB start])
  | t :: toks =>
      if bool_decide (t = [lbrace]) then Ok (Some toks, toks)
      else if bool_decide (t = [semicolon]) then Ok (None, toks) else wrapper_body start toks
  end.

Fixpoint parse_statements (fuel : nat) (d : iscConfigData) (current : option iscSubnet) (toks : list bytes)
    : result (list bytes * iscConfigData * option iscSubnet) :=
  match fuel, toks with
  | O, _ => Panic "fuel"
  | _, [] => Ok ([], d, current)
  | S fuel, t :: rest =>
      if bool_decide (t = [rbrace]) then Ok (rest, d, current)
      else if bool_decide (t = bs "subnet") then
        toks ← consume "subnet" toks;
        '(network, toks) ← next toks;
        toks ← consume "netmask" toks;
        '(netmask, toks) ← next toks;
        toks ← consume "{" toks;
        '(toks, d, inner) ← parse_statements fuel d (Some (mkIscSubnet network netmask 0 [] [] [] [])) toks;
        parse_statements fuel
          (match inner with Some s => d <| ic_subnets := ic_subnets d ++ [s] |> | None => d end) current toks
      else if bool_decide (t = bs "host") then
        '(toks, host) ← parse_host fuel current toks;
        let '(d, current) := add_host host d current in
        parse_statements fuel d current toks
      else if bool_decide (t ∈ map bs ["group"; "shared-network"; "pool"]%string) then
        '(body, toks) ← wrapper_body t rest;
        match body with
        | None => parse_statements fuel d current toks
        | Some toks =>
            '(toks, d, current) ← parse_statements fuel d current toks;
            parse_statements fuel d current toks
        end
      else if bool_decide (t = bs "option") then
        '(toks, current) ← parse_option current toks;
        parse_statements fuel d current toks
      else if bool_decide (t = bs "range") then
        '(toks, current) ← parse_range current toks;
        parse_statements fuel d current toks
      else if bool_decide (t = bs "default-lease-time") then
        '(toks, current) ← parse_lease_time current toks;
        parse_statements fuel d current toks
      else parse_statements fuel d current (skip_statement_or_block O toks)
  end.

(** The subnets of a host that has none: the first that contains its address. *)
Definition contains_host (a : addr) (s : iscSubnet) : option bytes :=
  match subnet_cidr (is_network s) (is_netmask s) with
  | Ok cidr => match parse_prefix cidr with Ok p => if prefix_contains p a then Some cidr else None | _ => None end
  | _ => None
  end.
Fixpoint assign_host (host : iscHost) (a : addr) (subnets : list iscSubnet) : list iscSubnet :=
  match subnets with
  | [] => []
  | s :: subnets =>
      match contains_host a s with
      | Some cidr => s <| is_reservations := is_reservations s ++ [host <| ih_subnet_cidr := cidr |>] |> :: subnets
      | None => s :: assign_host host a subnets
      end
  end.
Definition assign_global_hosts (d : iscConfigData) : iscConfigData :=
  foldl (λ d host, match parse_addr (trim_space (ih_fixed_address host)) with
                   | Ok a => d <| ic_subnets := assign_host host a (ic_subnets d) |>
                   | _ => d
                   end) d (ic_hosts d).

Definition parse_isc_dhcp_config (raw : bytes) : result iscConfigData :=
  let toks := tokenize_isc_config raw in
  '(_, d, _) ← parse_statements (S (length toks)) (mkIscConfigData [] []) None toks;
  Ok (assign_global_hosts d).
End parser.
