(* ===== verification/IscTheorems.v ===== *)
(** What the parser of ISC DHCP configurations promises: it ends, and a text of the
    statements it reads gets the meaning [config_meaning] says. *)

From S2P Require Import Prelude.
From S2P Require Import GoBytes.
From S2P Require Import GoStrings.
From S2P Require Import GoNet.
From S2P Require Import GoNet6.
From S2P Require Import GoPrefix.
From S2P Require Import GoParse.
From S2P Require Import IpamCidr.
From S2P Require Import Metrics.
From S2P Require Import IscConfig.

Section parser.
Context `{UnicodeTables} `{GoQuote}.

(** * The parser ends *)

Lemma next_shrinks toks t toks' : next toks = Ok (t, toks') → length toks = S (length toks').
Proof. destruct toks; cbn; [done|]. by intros [= -> ->]. Qed.
Lemma next_ends toks m : next toks = Panic m → False.
Proof. by destruct toks. Qed.
Lemma consume_ends e toks m : consume e toks = Panic m → False.
Proof. unfold consume. destruct toks; cbn; [done|]. by case_bool_decide. Qed.
Lemma consume_shrinks e toks toks' : consume e toks = Ok toks' → length toks = S (length toks').
Proof.
  unfold consume. destruct (next toks) as [[t r]| |] eqn:E; cbn; [|done..]. case_bool_decide; [|done].
  intros [= <-]. by apply next_shrinks in E.
Qed.
Lemma collect_shrinks toks : (length (collect_until_semicolon toks).2 ≤ length toks)%nat.
Proof.
  induction toks as [|t toks IH]; cbn; [lia|]. case_bool_decide; cbn; [lia|].
  destruct (collect_until_semicolon toks). cbn in *. lia.
Qed.
Lemma skip_shrinks depth toks : (length (skip_statement_or_block depth toks) ≤ length toks)%nat.
Proof.
  revert depth. induction toks as [|t toks IH]; intros depth; cbn; [lia|].
  repeat case_match; try lia; (etrans; [apply IH|lia]).
Qed.
Lemma skip_shrinks_cons t toks : (length (skip_statement_or_block O (t :: toks)) ≤ length toks)%nat.
Proof. cbn. repeat case_match; try lia; apply skip_shrinks. Qed.
Lemma wrapper_shrinks start toks body toks' :
  wrapper_body start toks = Ok (body, toks') → (length toks' < length toks)%nat ∧ (∀ b, body = Some b → b = toks').
Proof.
  revert body toks'. induction toks as [|t toks IH]; intros body toks'; cbn; [done|].
  case_bool_decide; [intros [= <- <-]; split; [lia|congruence]|].
  case_bool_decide; [intros [= <- <-]; split; [lia|done]|]. intros (?&?)%IH. split; [lia|done].
Qed.

Lemma ethernet_shrinks toks : (length (skip_ethernet toks) ≤ length toks)%nat.
Proof. unfold skip_ethernet. destruct toks; [done|]. case_bool_decide; cbn; lia. Qed.

(** Walks through the calls of a parser: each result shorter than what it read. *)
Ltac step :=
  match goal with
  | |- context [next ?t] => let E := fresh in destruct (next t) as [[? ?]| |] eqn:E; cbn; [apply next_shrinks in E|done|first [done|by apply next_ends in E]]
  | |- context [consume ?e ?t] => let E := fresh in destruct (consume e t) as [?| |] eqn:E; cbn; [apply consume_shrinks in E|done|first [done|by apply consume_ends in E]]
  | |- context [collect_until_semicolon ?t] =>
      let E := fresh in pose proof (collect_shrinks t) as E; destruct (collect_until_semicolon t) as [? ?]; cbn in *
  | |- context [parse_seconds ?t] => destruct (parse_seconds t); cbn; [|done..]
  end.

Lemma host_body_shrinks f toks h toks' h' :
  parse_host_body f toks h = Ok (toks', h') → (length toks' ≤ length toks)%nat.
Proof.
  revert toks h toks' h'. induction f as [|f IH]; intros toks h toks' h'; destruct toks as [|t toks]; [done..|by intros [= <- _]|].
  pose proof (skip_shrinks_cons t toks). pose proof (ethernet_shrinks toks). cbn [parse_host_body length].
  repeat case_bool_decide; repeat step; first [intros [= <- _] | intros Hp%IH]; lia.
Qed.

(** Enough fuel: the same result, and no panic. *)
Definition ends {A : Type} (r : result A) : Prop := match r with Panic _ => False | _ => True end.

Lemma host_body_enough f f' toks h :
  (length toks < f)%nat → (length toks < f')%nat →
  parse_host_body f toks h = parse_host_body f' toks h ∧ ends (parse_host_body f toks h).
Proof.
  revert f' toks h. induction f as [|f IH]; intros [|f'] toks h Hf Hf'; [lia..|]. destruct toks as [|t toks]; [done|].
  pose proof (skip_shrinks_cons t toks). pose proof (ethernet_shrinks toks). cbn [parse_host_body length] in *.
  repeat case_bool_decide; repeat step; first [done | apply IH; lia].
Qed.
Lemma parse_host_enough f f' cur toks :
  (length toks ≤ f)%nat → (length toks ≤ f')%nat →
  parse_host f cur toks = parse_host f' cur toks ∧ ends (parse_host f cur toks).
Proof.
  intros Hf Hf'. unfold parse_host. repeat step.
  match goal with |- context [parse_host_body _ ?t ?h] => destruct (host_body_enough f f' t h) as [<- He]; [lia..|];
    by destruct (parse_host_body f t h) as [[]| |] end.
Qed.
Lemma host_shrinks f cur toks toks' h : parse_host f cur toks = Ok (toks', h) → (length toks' < length toks)%nat.
Proof.
  unfold parse_host. repeat step.
  match goal with |- context [parse_host_body _ ?t ?h] => destruct (parse_host_body f t h) as [[]| |] eqn:E; cbn; [|done..] end.
  apply host_body_shrinks in E. intros [= <- _]. lia.
Qed.

Lemma option_shrinks cur toks : 
  match parse_option cur toks with Ok (toks', _) => (length toks' < length toks)%nat | Panic _ => False | Err _ => True end.
Proof. unfold parse_option. repeat step. lia. Qed.
Lemma range_shrinks cur toks :
  match parse_range cur toks with Ok (toks', _) => (length toks' < length toks)%nat | Panic _ => False | Err _ => True end.
Proof.
  unfold parse_range. step. destruct cur as [s0|]; [|step; lia]. step. destruct (equal_fold _ _); cbn; repeat step; lia.
Qed.
Lemma lease_time_shrinks cur toks :
  match parse_lease_time cur toks with Ok (toks', _) => (length toks' < length toks)%nat | Panic _ => False | Err _ => True end.
Proof. unfold parse_lease_time. repeat step. unfold parse_seconds. destruct (parse_int _); cbn; repeat step; [lia|done]. Qed.
Lemma wrapper_ends start toks : ends (wrapper_body start toks).
Proof. induction toks; cbn; [done|]. by repeat case_bool_decide. Qed.

Lemma statements_shrinks f d cur toks toks' d' cur' :
  parse_statements f d cur toks = Ok (toks', d', cur') → (length toks' ≤ length toks)%nat.
Proof.
  revert d cur toks toks' d' cur'. induction f as [|f IH]; intros d cur toks toks' d' cur'; [by destruct toks|].
  destruct toks as [|t toks]; [by intros [= <- _ _]|]. cbn [parse_statements].
  case_bool_decide; [intros [= <- _ _]; cbn; lia|].
  case_bool_decide.
  { repeat step. match goal with |- context [parse_statements f d ?c ?l] =>
      destruct (parse_statements f d c l) as [[[l' d1] inner]| |] eqn:E; cbn; [|done..] end.
    apply IH in E. intros Hp%IH. cbn in *. lia. }
  case_bool_decide.
  { destruct (parse_host f cur (t :: toks)) as [[l h]| |] eqn:E; cbn; [|done..]. apply host_shrinks in E.
    destruct (add_host h d cur). intros Hp%IH. cbn in *. lia. }
  case_bool_decide.
  { destruct (wrapper_body t toks) as [[[b|] l]| |] eqn:E; cbn; [..|done|done]; apply wrapper_shrinks in E as [E Hb].
    - specialize (Hb b eq_refl) as ->. destruct (parse_statements f d cur l) as [[[l' d1] c1]| |] eqn:E'; cbn; [|done..].
      apply IH in E'. intros Hp%IH. lia.
    - intros Hp%IH. lia. }
  pose proof (option_shrinks cur (t :: toks)). pose proof (range_shrinks cur (t :: toks)).
  pose proof (lease_time_shrinks cur (t :: toks)). pose proof (skip_shrinks_cons t toks).
  case_bool_decide; [destruct (parse_option _ _) as [[]| |]; cbn; [|done..]; intros Hp%IH; cbn in *; lia|].
  case_bool_decide; [destruct (parse_range _ _) as [[]| |]; cbn; [|done..]; intros Hp%IH; cbn in *; lia|].
  case_bool_decide; [destruct (parse_lease_time _ _) as [[]| |]; cbn; [|done..]; intros Hp%IH; cbn in *; lia|].
  intros Hp%IH. cbn [length] in *. lia.
Qed.

Lemma statements_enough f f' d cur toks :
  (length toks < f)%nat → (length toks < f')%nat →
  parse_statements f d cur toks = parse_statements f' d cur toks ∧ ends (parse_statements f d cur toks).
Proof.
  revert f' d cur toks. induction f as [|f IH]; intros [|f'] d cur toks Hf Hf'; [lia..|].
  destruct toks as [|t toks]; [done|]. cbn [parse_statements length] in *.
  case_bool_decide; [done|].
  case_bool_decide.
  { repeat step. match goal with |- context [parse_statements f d ?c ?l] =>
      destruct (IH f' d c l) as [<- He]; [cbn in *; lia..|]; destruct (parse_statements f d c l) as [[[l' d1] inner]| |] eqn:E; cbn; [|done..] end.
    apply statements_shrinks in E. apply IH; cbn in *; lia. }
  case_bool_decide.
  { destruct (parse_host_enough f f' cur (t :: toks)) as [<- He]; [cbn; lia..|].
    destruct (parse_host f cur (t :: toks)) as [[l h]| |] eqn:E; cbn; [|done..]. apply host_shrinks in E.
    destruct (add_host h d cur). apply IH; cbn in *; lia. }
  case_bool_decide.
  { pose proof (wrapper_ends t toks).
    destruct (wrapper_body t toks) as [[[b|] l]| |] eqn:E; cbn; [..|done|done]; apply wrapper_shrinks in E as [E Hb].
    - specialize (Hb b eq_refl) as ->. destruct (IH f' d cur l) as [<- He]; [lia..|].
      destruct (parse_statements f d cur l) as [[[l' d1] c1]| |] eqn:E'; cbn; [|done..].
      apply statements_shrinks in E'. apply IH; lia.
    - apply IH; lia. }
  pose proof (option_shrinks cur (t :: toks)). pose proof (range_shrinks cur (t :: toks)).
  pose proof (lease_time_shrinks cur (t :: toks)). pose proof (skip_shrinks_cons t toks).
  case_bool_decide; [destruct (parse_option _ _) as [[]| |]; cbn; [|done..]; apply IH; cbn in *; lia|].
  case_bool_decide; [destruct (parse_range _ _) as [[]| |]; cbn; [|done..]; apply IH; cbn in *; lia|].
  case_bool_decide; [destruct (parse_lease_time _ _) as [[]| |]; cbn; [|done..]; apply IH; cbn in *; lia|].
  apply IH; cbn [length] in *; lia.
Qed.

(** Every text is parsed or refused. *)
Lemma parse_ends raw : ends (parse_isc_dhcp_config raw).
Proof.
  unfold parse_isc_dhcp_config.
  destruct (statements_enough (S (length (tokenize_isc_config raw))) (S (length (tokenize_isc_config raw)))
    (mkIscConfigData [] []) None (tokenize_isc_config raw)) as [_ He]; [lia..|].
  by destruct (parse_statements _ _ _ _) as [[[]]| |].
Qed.

(** * Statements

    A fragment of the language of ISC DHCP: the statements the importer reads, and the
    shape of those it skips. *)

(** A token that is not punctuation. *)
Definition word (w : bytes) : Prop := w ∉ [[lbrace]; [rbrace]; [semicolon]; [comma]].

(** What stands between the braces of a block that is skipped. *)
Fixpoint block_ok (depth : nat) (toks : list bytes) : Prop :=
  match toks with
  | [] => depth = O
  | t :: toks =>
      if bool_decide (t = [lbrace]) then block_ok (S depth) toks
      else if bool_decide (t = [rbrace]) then match depth with O => False | S depth => block_ok depth toks end
      else block_ok depth toks
  end.

(** A statement no parser knows: some words, and a semicolon or a block. *)
Inductive unknown := UWords (words : list bytes) | UBlock (words inner : list bytes).
Inductive hstmt :=
| HHardware (ethernet : bool) (mac : bytes)
| HFixed (ip : bytes)
| HOption (name : bytes) (values : list bytes)
| HUnknown (u : unknown).
Inductive stmt :=
| SSubnet (network netmask : bytes) (body : list stmt)
| SHost (name : bytes) (body : list hstmt)
| SWrapper (kw : bytes) (words : list bytes) (body : list stmt)
| SEmptyWrapper (kw : bytes) (words : list bytes)
| SOption (name : bytes) (values : list bytes)
| SRange (bootp : option bytes) (start end_ : bytes)
| SLeaseTime (value : bytes) (seconds : Z)
| SUnknown (u : unknown).

Fixpoint comma_list (values : list bytes) : list bytes :=
  match values with [] => [] | [v] => [v] | v :: values => v :: [comma] :: comma_list values end.
Definition unknown_tokens (u : unknown) : list bytes :=
  match u with
  | UWords words => words ++ [[semicolon]]
  | UBlock words inner => words ++ [lbrace] :: inner ++ [[rbrace]]
  end.
Definition hstmt_tokens (s : hstmt) : list bytes :=
  match s with
  | HHardware ethernet mac => bs "hardware" :: (if ethernet then [bs "ethernet"] else []) ++ [mac; [semicolon]]
  | HFixed ip => [bs "fixed-address"; ip; [semicolon]]
  | HOption name values => bs "option" :: name :: comma_list values ++ [[semicolon]]
  | HUnknown u => unknown_tokens u
  end.
Fixpoint stmt_tokens (s : stmt) : list bytes :=
  match s with
  | SSubnet network netmask body =>
      bs "subnet" :: network :: bs "netmask" :: netmask :: [lbrace] :: concat (stmt_tokens <$> body) ++ [[rbrace]]
  | SHost name body => bs "host" :: name :: [lbrace] :: concat (hstmt_tokens <$> body) ++ [[rbrace]]
  | SWrapper kw words body => kw :: words ++ [lbrace] :: concat (stmt_tokens <$> body) ++ [[rbrace]]
  | SEmptyWrapper kw words => kw :: words ++ [[semicolon]]
  | SOption name values => bs "option" :: name :: comma_list values ++ [[semicolon]]
  | SRange bootp start end_ => bs "range" :: match bootp with Some b => [b] | None => [] end ++ [start; end_; [semicolon]]
  | SLeaseTime value _ => [bs "default-lease-time"; value; [semicolon]]
  | SUnknown u => unknown_tokens u
  end.

Definition unknown_ok (keywords : list string) (u : unknown) : Prop :=
  let words := match u with UWords words => words | UBlock words _ => words end in
  Forall (λ w, w ∉ [[lbrace]; [rbrace]; [semicolon]]) words ∧
  match words with w :: _ => w ∉ map bs keywords | [] => False end ∧
  match u with UWords _ => True | UBlock _ inner => block_ok O inner end.
Definition hstmt_ok (s : hstmt) : Prop :=
  match s with
  | HHardware ethernet mac => ethernet = true ∨ mac ≠ bs "ethernet"
  | HFixed _ => True
  | HOption _ values => Forall word values
  | HUnknown u => unknown_ok ["hardware"; "fixed-address"; "option"] u
  end.
Definition wrappers : list string := ["group"; "shared-network"; "pool"].
Definition keywords : list string := ["subnet"; "host"; "option"; "range"; "default-lease-time"] ++ wrappers.
Fixpoint stmt_ok (s : stmt) : Prop :=
  match s with
  | SSubnet _ _ body => foldr (λ s P, stmt_ok s ∧ P) True body
  | SHost _ body => Forall hstmt_ok body
  | SWrapper kw words body => kw ∈ map bs wrappers ∧ Forall (λ w, w ∉ [[lbrace]; [semicolon]]) words ∧
      foldr (λ s P, stmt_ok s ∧ P) True body
  | SEmptyWrapper kw words => kw ∈ map bs wrappers ∧ Forall (λ w, w ∉ [[lbrace]; [semicolon]]) words
  | SOption _ values => Forall word values
  | SRange bootp start end_ =>
      start ≠ [semicolon] ∧ end_ ≠ [semicolon] ∧
      match bootp with
      | Some b => b ≠ [semicolon] ∧ equal_fold b (bs "dynamic-bootp") = true
      | None => equal_fold start (bs "dynamic-bootp") = false
      end
  | SLeaseTime value seconds => parse_int value = Some seconds
  | SUnknown u => unknown_ok keywords u
  end.

(** ** What the parser does with them, one after the other *)

Definition run_hstmt (host : iscHost) (s : hstmt) : iscHost :=
  match s with
  | HHardware _ mac => host <| ih_mac := mac |>
  | HFixed ip => host <| ih_fixed_address := ip |>
  | HOption name values =>
      if equal_fold name (bs "host-name") then default host ((λ v, host <| ih_hostname := v |>) <$> head values) else host
  | HUnknown _ => host
  end.
Fixpoint run_stmt (acc : iscConfigData * option iscSubnet) (s : stmt) : iscConfigData * option iscSubnet :=
  let '(d, cur) := acc in
  match s with
  | SSubnet network netmask body =>
      let '(d, inner) := foldl run_stmt (d, Some (mkIscSubnet network netmask 0 [] [] [] [])) body in
      (d <| ic_subnets := ic_subnets d ++ option_list inner |>, cur)
  | SHost name body =>
      add_host (named_host (foldl run_hstmt (mkIscHost name [] [] [] (current_cidr cur)) body)) d cur
  | SWrapper _ _ body => foldl run_stmt (d, cur) body
  | SOption name values => (d, set_option name values <$> cur)
  | SRange _ start end_ => (d, (λ s, s <| is_ranges := is_ranges s ++ [mkIscRange start end_] |>) <$> cur)
  | SLeaseTime _ seconds => (d, (λ s, s <| is_lease_time_sec := seconds |>) <$> cur)
  | SEmptyWrapper _ _ | SUnknown _ => (d, cur)
  end.

Lemma stmts_ok ss : foldr (λ s P, stmt_ok s ∧ P) True ss ↔ Forall stmt_ok ss.
Proof. induction ss; cbn; [done|]. by rewrite Forall_cons, IHss. Qed.

Section stmt_ind.
Context (P : stmt → Prop).
Hypothesis step : ∀ s, match s with SSubnet _ _ body | SWrapper _ _ body => Forall P body | _ => True end → P s.
Fixpoint stmt_nested_ind (s : stmt) : P s :=
  step s (let fix all (l : list stmt) : Forall P l :=
            match l with [] => Forall_nil_2 P | s :: l => Forall_cons_2 P s l (stmt_nested_ind s) (all l) end in
          match s return match s with SSubnet _ _ body | SWrapper _ _ body => Forall P body | _ => True end with
          | SSubnet _ _ body | SWrapper _ _ body => all body
          | _ => I
          end).
End stmt_ind.

(** * The parser follows it *)

Definition parse (d : iscConfigData) (cur : option iscSubnet) (toks : list bytes) :=
  parse_statements (S (length toks)) d cur toks.
Definition parse_body (toks : list bytes) (h : iscHost) := parse_host_body (S (length toks)) toks h.

Lemma parse_enough f d cur toks : (length toks < f)%nat → parse_statements f d cur toks = parse d cur toks.
Proof. intros ?. apply statements_enough; lia. Qed.
Lemma body_enough f toks h : (length toks < f)%nat → parse_host_body f toks h = parse_body toks h.
Proof. intros ?. apply host_body_enough; lia. Qed.
Lemma consume_ok e toks : consume e (bs e :: toks) = Ok toks.
Proof. unfold consume. cbn. by rewrite bool_decide_eq_true_2. Qed.

Lemma consume_semicolon toks : consume ";" ([semicolon] :: toks) = Ok toks.
Proof. apply (consume_ok ";"). Qed.
Lemma consume_lbrace toks : consume "{" ([lbrace] :: toks) = Ok toks.
Proof. apply (consume_ok "{"). Qed.

Lemma collect_comma_list values tail :
  Forall word values → collect_until_semicolon (comma_list values ++ [semicolon] :: tail) = (values, tail).
Proof.
  induction 1 as [|v values Hv _ IH]; [done|]. unfold word in Hv. rewrite !not_elem_of_cons in Hv.
  destruct Hv as (?&?&?&?&_). destruct values as [|v' values].
  - cbn. by rewrite (bool_decide_eq_false_2 (v = [semicolon])), (bool_decide_eq_false_2 (v = [comma])) by done.
  - change (comma_list (v :: v' :: values)) with (v :: [comma] :: comma_list (v' :: values)).
    cbn [app collect_until_semicolon].
    by rewrite (bool_decide_eq_false_2 (v = [semicolon])), (bool_decide_eq_false_2 (v = [comma])), IH by done.
Qed.

Lemma skip_inner depth inner tail :
  block_ok depth inner → skip_statement_or_block (S depth) (inner ++ [rbrace] :: tail) = tail.
Proof.
  revert depth. induction inner as [|t inner IH]; intros depth; cbn; [by intros ->|].
  case_bool_decide; [apply IH|]. case_bool_decide; [destruct depth; [done|apply IH]|].
  rewrite (bool_decide_eq_false_2 (S depth = O)), andb_false_r by done. apply IH.
Qed.
Lemma skip_words depth words tail :
  Forall (λ w, w ∉ [[lbrace]; [rbrace]; [semicolon]]) words →
  skip_statement_or_block depth (words ++ tail) = skip_statement_or_block depth tail.
Proof.
  induction 1 as [|w words Hw _ IH]; cbn; [done|]. rewrite !not_elem_of_cons in Hw. destruct Hw as (?&?&?&_).
  by rewrite !bool_decide_eq_false_2 by done.
Qed.
Lemma skip_unknown ks u tail : unknown_ok ks u → skip_statement_or_block O (unknown_tokens u ++ tail) = tail.
Proof.
  intros (Hw & _ & Hb). destruct u as [words|words inner]; cbn; rewrite <-app_assoc, skip_words by done; [done|].
  cbn. rewrite <-app_assoc. by apply skip_inner.
Qed.
Lemma wrapper_words start words c tail :
  Forall (λ w, w ∉ [[lbrace]; [semicolon]]) words →
  wrapper_body start (words ++ c :: tail) = wrapper_body start (c :: tail).
Proof.
  induction 1 as [|w words Hw _ IH]; cbn; [done|]. rewrite !not_elem_of_cons in Hw. destruct Hw as (?&?&_).
  by rewrite !bool_decide_eq_false_2 by done.
Qed.

Lemma unknown_head ks u tail :
  unknown_ok ks u → ∃ w rest, unknown_tokens u ++ tail = w :: rest ∧ w ∉ map bs ks ∧ w ≠ [rbrace].
Proof.
  intros (Hw & Hk & _). destruct u as [words|words inner]; destruct words as [|w words]; try done;
    rewrite Forall_cons, !not_elem_of_cons in Hw; eexists w, _; (split; [reflexivity|]); tauto.
Qed.

Ltac decide_tokens :=
  repeat match goal with |- context [bool_decide (?a = ?b)] =>
           first [rewrite (bool_decide_eq_true_2 (a = b)) by done | rewrite (bool_decide_eq_false_2 (a = b)) by done] end.

(** Runs the calls on tokens that are known. *)
Ltac run := repeat first [ progress cbn [app next mbind result_bind] | rewrite consume_semicolon | rewrite consume_lbrace
                         | match goal with |- context [consume ?e (?t :: ?l)] => rewrite (consume_ok e l : consume e (t :: l) = Ok l) end ].

Lemma parse_hstmt s h tail :
  hstmt_ok s → parse_body (hstmt_tokens s ++ tail) h = parse_body tail (run_hstmt h s).
Proof.
  intros Hs. unfold parse_body at 1.
  assert (Hf : (length (hstmt_tokens s ++ tail) ≤ length (hstmt_tokens s ++ tail))%nat) by lia.
  revert Hf. generalize (length (hstmt_tokens s ++ tail)) at 2 3. intros f Hf.
  destruct s as [ethernet mac|ip|name values|u].
  - cbn [hstmt_tokens app parse_host_body] in *. decide_tokens. destruct ethernet; cbn [app skip_ethernet length] in *.
    + decide_tokens. run. by rewrite body_enough by lia.
    + destruct Hs as [?|Hs]; [done|]. decide_tokens. run. by rewrite body_enough by lia.
  - cbn [hstmt_tokens app parse_host_body length] in *. decide_tokens. run. by rewrite body_enough by lia.
  - cbn [hstmt_tokens app parse_host_body length] in *. decide_tokens. run. rewrite <-app_assoc. cbn [app].
    rewrite !length_app in Hf. rewrite collect_comma_list, body_enough by done || (cbn in *; lia).
    f_equal. destruct values; cbn; by destruct (equal_fold _ _).
  - destruct (unknown_head _ u tail Hs) as (w & rest & E & Hw & Hr). cbn [hstmt_tokens run_hstmt] in *.
    pose proof (skip_unknown _ u tail Hs) as Hskip. rewrite E in *. cbn [map] in Hw. rewrite !not_elem_of_cons in Hw.
    destruct Hw as (?&?&?&_). cbn [parse_host_body]. decide_tokens. rewrite Hskip. apply body_enough.
    pose proof (skip_shrinks_cons w rest) as Hl. rewrite Hskip in Hl. cbn in Hf. lia.
Qed.
Lemma parse_hstmts body h tail :
  Forall hstmt_ok body → parse_body (concat (hstmt_tokens <$> body) ++ [rbrace] :: tail) h = Ok (tail, foldl run_hstmt h body).
Proof.
  intros Hb. revert h. induction Hb as [|s body Hs _ IH]; intros h; [done|].
  cbn [fmap list_fmap concat foldl]. by rewrite <-app_assoc, parse_hstmt, IH.
Qed.

Lemma parse_host_ok f cur name body tail :
  Forall hstmt_ok body → (length (stmt_tokens (SHost name body) ++ tail) ≤ f)%nat →
  parse_host f cur (stmt_tokens (SHost name body) ++ tail) =
    Ok (tail, named_host (foldl run_hstmt (mkIscHost name [] [] [] (current_cidr cur)) body)).
Proof.
  intros Hb Hf. cbn [stmt_tokens app length] in *. rewrite <-!app_assoc in *. unfold parse_host. run. cbn [app] in *.
  rewrite body_enough, parse_hstmts by done || lia. done.
Qed.

Lemma parse_stmt s d cur tail :
  stmt_ok s → parse d cur (stmt_tokens s ++ tail) = let '(d', cur') := run_stmt (d, cur) s in parse d' cur' tail.
Proof.
  revert d cur tail. induction s as [s IH] using stmt_nested_ind. intros d cur tail Hs.
  assert (Hlist : ∀ body d cur tail, Forall (λ s, ∀ d cur tail, stmt_ok s →
      parse d cur (stmt_tokens s ++ tail) = let '(d', cur') := run_stmt (d, cur) s in parse d' cur' tail) body →
    Forall stmt_ok body → parse d cur (concat (stmt_tokens <$> body) ++ tail) = let '(d', cur') := foldl run_stmt (d, cur) body in parse d' cur' tail).
  { clear. induction body as [|s body IH]; intros d cur tail; [done|]. rewrite !Forall_cons. intros [Hs Hb] [Ho Hbo].
    cbn [fmap list_fmap concat foldl]. rewrite <-app_assoc, Hs by done. destruct (run_stmt (d, cur) s). by apply IH. }
  unfold parse at 1.
  assert (Hf : (length (stmt_tokens s ++ tail) ≤ length (stmt_tokens s ++ tail))%nat) by lia.
  revert Hf. generalize (length (stmt_tokens s ++ tail)) at 2 3. intros f Hf.
  destruct s as [network netmask body|name body|kw words body|kw words|name values|bootp start end_|value seconds|u].
  - cbn [stmt_tokens app parse_statements length] in *. decide_tokens. run. rewrite <-!app_assoc in *. cbn [app] in *.
    rewrite parse_enough by lia. apply stmts_ok in Hs. rewrite Hlist by done.
    cbn [run_stmt]. destruct (foldl run_stmt _ body) as [d1 inner]. unfold parse at 1. cbn [length parse_statements].
    decide_tokens. run. rewrite length_app in Hf. cbn [length] in Hf. rewrite parse_enough by lia.
    destruct inner; [done|]. cbn. f_equal. destruct d1; cbn. by rewrite app_nil_r.
  - cbn [stmt_ok] in Hs. cbn [parse_statements app stmt_tokens]. decide_tokens.
    change (bs "host" :: name :: [lbrace] :: (concat (hstmt_tokens <$> body) ++ [[rbrace]]) ++ tail)
      with (stmt_tokens (SHost name body) ++ tail).
    rewrite parse_host_ok by done. run. cbn [run_stmt]. destruct (add_host _ d cur).
    rewrite parse_enough; [done|]. rewrite length_app in Hf. cbn in Hf. lia.
  - destruct Hs as (Hkw & Hw & Hb). apply stmts_ok in Hb. 
    assert (kw ≠ [rbrace] ∧ kw ≠ bs "subnet" ∧ kw ≠ bs "host") as (?&?&?) by (set_unfold in Hkw; naive_solver).
    cbn [stmt_tokens app parse_statements length] in *. decide_tokens. rewrite (bool_decide_eq_true_2 (kw ∈ _)) by done.
    rewrite <-!app_assoc in *. cbn [app] in *. rewrite wrapper_words by done. cbn [wrapper_body]. decide_tokens. run.
    rewrite <-app_assoc in *. cbn [app] in *. rewrite !length_app in Hf. cbn in Hf. rewrite !length_app in Hf. cbn in Hf.
    rewrite parse_enough by (rewrite length_app; cbn; lia). rewrite Hlist by done. cbn [run_stmt].
    destruct (foldl run_stmt _ body) as [d1 c1]. unfold parse at 1. cbn [length parse_statements].
    decide_tokens. run. by rewrite parse_enough by lia.
  - destruct Hs as (Hkw & Hw).
    assert (kw ≠ [rbrace] ∧ kw ≠ bs "subnet" ∧ kw ≠ bs "host") as (?&?&?) by (set_unfold in Hkw; naive_solver).
    cbn [stmt_tokens app parse_statements length] in *. decide_tokens. rewrite (bool_decide_eq_true_2 (kw ∈ _)) by done.
    rewrite <-!app_assoc in *. cbn [app] in *. rewrite wrapper_words by done. cbn [wrapper_body]. decide_tokens. run.
    rewrite !length_app in Hf. cbn in Hf. by rewrite parse_enough by lia.
  - cbn [stmt_tokens app parse_statements length] in *. decide_tokens.
    assert (bool_decide (bs "option" ∈ map bs ["group"; "shared-network"; "pool"]%string) = false) as -> by reflexivity.
    unfold parse_option. run. rewrite <-app_assoc in *. cbn [app] in *. rewrite !length_app in Hf. cbn in Hf.
    rewrite collect_comma_list by done. run. by rewrite parse_enough by lia.
  - destruct Hs as (Hs & He & Hb). cbn [stmt_tokens app parse_statements length] in *. decide_tokens.
    assert (bool_decide (bs "range" ∈ map bs ["group"; "shared-network"; "pool"]%string) = false) as -> by reflexivity.
    rewrite <-app_assoc in *. cbn [app] in *. rewrite !length_app in Hf. cbn in Hf.
    unfold parse_range. run. destruct cur as [s0|]; cbn [run_stmt].
    + destruct bootp as [b|]; cbn [app] in *; run; [destruct Hb as [_ ->]|rewrite Hb]; run; by rewrite parse_enough by lia.
    + destruct bootp as [b|]; cbn [app collect_until_semicolon] in *; [destruct Hb as [? _]|]; decide_tokens; cbn [snd];
        repeat case_bool_decide; run; by rewrite parse_enough by lia.
  - cbn [stmt_tokens app parse_statements length stmt_ok] in *. decide_tokens.
    assert (bool_decide (bs "default-lease-time" ∈ map bs ["group"; "shared-network"; "pool"]%string) = false) as -> by reflexivity.
    unfold parse_lease_time, parse_seconds. run. rewrite Hs. run. by rewrite parse_enough by lia.
  - destruct (unknown_head _ u tail Hs) as (w & rest & E & Hw & Hr). cbn [stmt_tokens run_stmt] in *.
    pose proof (skip_unknown _ u tail Hs) as Hskip. rewrite E in *. unfold keywords, wrappers in Hw.
    cbn [map app] in Hw. rewrite !not_elem_of_cons in Hw. destruct Hw as (?&?&?&?&?&?&?&?&_). cbn [parse_statements]. decide_tokens.
    rewrite (bool_decide_eq_false_2 (w ∈ _)) by (cbn [map]; rewrite !not_elem_of_cons; repeat split; [done..|apply not_elem_of_nil]).
    rewrite Hskip. apply parse_enough. pose proof (skip_shrinks_cons w rest) as Hl. rewrite Hskip in Hl. cbn in Hf. lia.
Qed.

(** * The meaning, said without the parser

    The statements of a block are its own and those of the groups, shared networks and
    pools in it; a subnet ends where its brace closes, so an inner one comes first. *)
Fixpoint own_stmt (s : stmt) : list stmt :=
  match s with SWrapper _ _ body => concat (own_stmt <$> body) | s => [s] end.
Definition own (ss : list stmt) : list stmt := concat (own_stmt <$> ss).
Fixpoint subnets_in (s : stmt) : list (bytes * bytes * list stmt) :=
  match s with
  | SSubnet network netmask body => concat (subnets_in <$> body) ++ [(network, netmask, own body)]
  | SWrapper _ _ body => concat (subnets_in <$> body)
  | _ => []
  end.

(** Of statements that say the same thing the last one counts. *)
Definition last_or {A} (a : A) (l : list A) : A := default a (last l).

Definition said_mac (s : hstmt) : option bytes := match s with HHardware _ mac => Some mac | _ => None end.
Definition said_address (s : hstmt) : option bytes := match s with HFixed ip => Some ip | _ => None end.
Definition said_hostname (s : hstmt) : option bytes :=
  match s with
  | HOption name values => if equal_fold name (bs "host-name") then head values else None
  | _ => None
  end.
Definition host_meaning (cidr name : bytes) (body : list hstmt) : iscHost :=
  let hostname := last_or [] (omap said_hostname body) in
  mkIscHost name (last_or [] (omap said_mac body)) (last_or [] (omap said_address body))
    (if bool_decide (hostname = []) then name else hostname) cidr.

Definition said_host (cidr : bytes) (s : stmt) : option iscHost :=
  match s with SHost name body => Some (host_meaning cidr name body) | _ => None end.
Definition said_time (s : stmt) : option Z := match s with SLeaseTime _ seconds => Some seconds | _ => None end.
Definition said_range (s : stmt) : option iscRange :=
  match s with SRange _ start end_ => Some (mkIscRange start end_) | _ => None end.
Definition said_gateway (s : stmt) : option bytes :=
  match s with SOption name values => if bool_decide (to_lower name = bs "routers") then head values else None | _ => None end.
Definition said_dns (s : stmt) : option (list bytes) :=
  match s with
  | SOption name values => if bool_decide (to_lower name = bs "domain-name-servers") then Some values else None
  | _ => None
  end.

(** The prefix of a network and a mask, in dotted quads: the mask is ones and then zeros. *)
Definition net_of (network netmask : bytes) (p : prefix) : Prop :=
  ∃ ip k, to4 (parse_ip (trim_space network)) = ip ∧ length ip = 4%nat ∧ 0 ≤ k ≤ 32 ∧
    to4 (parse_ip (trim_space netmask)) = be_put 4 (2 ^ 32 - 2 ^ (32 - k)) ∧ p = prefix_masked (mkPrefix (A4 ip) k).
(** Its text, which a host in the subnet carries; none when there is no such prefix. *)
Definition cidr_of (network netmask cidr : bytes) : Prop :=
  (∃ p, net_of network netmask p ∧ cidr = prefix_string p) ∨ ((¬ ∃ p, net_of network netmask p) ∧ cidr = []).

(** A host outside of the subnets belongs to the first that has its address. *)
Definition home_of (nets : list (bytes * bytes)) (h : iscHost) (i : nat) (cidr : bytes) : Prop :=
  ∃ a n m p, parse_addr (trim_space (ih_fixed_address h)) = Ok a ∧ nets !! i = Some (n, m) ∧ net_of n m p ∧ member p a ∧
    cidr = prefix_string p ∧
    ∀ j n' m' p', (j < i)%nat → nets !! j = Some (n', m') → net_of n' m' p' → ¬ member p' a.
Inductive assigned (nets : list (bytes * bytes)) (i : nat) : list iscHost → list iscHost → Prop :=
| assigned_none : assigned nets i [] []
| assigned_here h hs rs cidr : home_of nets h i cidr → assigned nets i hs rs →
    assigned nets i (h :: hs) (h <| ih_subnet_cidr := cidr |> :: rs)
| assigned_elsewhere h hs rs : (∀ cidr, ¬ home_of nets h i cidr) → assigned nets i hs rs → assigned nets i (h :: hs) rs.

(** What the [i]th subnet becomes. *)
Definition subnet_meaning (nets : list (bytes * bytes)) (global : list iscHost) (i : nat)
    (said : bytes * bytes * list stmt) (s : iscSubnet) : Prop :=
  let '(network, netmask, ss) := said in
  is_network s = network ∧ is_netmask s = netmask ∧
  is_lease_time_sec s = last_or 0 (omap said_time ss) ∧ is_ranges s = omap said_range ss ∧
  is_gateway s = last_or [] (omap said_gateway ss) ∧ is_dns s = last_or [] (omap said_dns ss) ∧
  ∃ cidr rs, cidr_of network netmask cidr ∧ assigned nets i global rs ∧
    is_reservations s = omap (said_host cidr) ss ++ rs.
Definition config_meaning (ss : list stmt) (d : iscConfigData) : Prop :=
  let said := concat (subnets_in <$> ss) in
  let global := omap (said_host []) (own ss) in
  ic_hosts d = global ∧ length (ic_subnets d) = length said ∧
  ∀ i x s, said !! i = Some x → ic_subnets d !! i = Some s → subnet_meaning (fst <$> said) global i x s.

(** ** The runs of the statements give it *)

Lemma last_or_cons {A} (a x : A) l : last_or a (x :: l) = last_or x l.
Proof. unfold last_or. rewrite last_cons. by destruct (last l). Qed.

Lemma run_hstmts body : ∀ name mac ip hostname cidr,
  foldl run_hstmt (mkIscHost name mac ip hostname cidr) body =
    mkIscHost name (last_or mac (omap said_mac body)) (last_or ip (omap said_address body))
      (last_or hostname (omap said_hostname body)) cidr.
Proof.
  induction body as [|s body IH]; intros name mac ip hostname cidr; [done|]. cbn [foldl omap list_omap].
  destruct s as [e m|a|n vs|u]; cbn [run_hstmt said_mac said_address said_hostname].
  - change (mkIscHost name mac ip hostname cidr <| ih_mac := m |>) with (mkIscHost name m ip hostname cidr).
    by rewrite IH, last_or_cons.
  - change (mkIscHost name mac ip hostname cidr <| ih_fixed_address := a |>) with (mkIscHost name mac a hostname cidr).
    by rewrite IH, last_or_cons.
  - destruct (equal_fold n (bs "host-name")); [|by rewrite IH]. destruct vs as [|v vs]; cbn; [by rewrite IH|].
    change (mkIscHost name mac ip hostname cidr <| ih_hostname := v |>) with (mkIscHost name mac ip v cidr).
    by rewrite IH, last_or_cons.
  - by rewrite IH.
Qed.
Lemma host_means name cidr body : named_host (foldl run_hstmt (mkIscHost name [] [] [] cidr) body) = host_meaning cidr name body.
Proof. rewrite run_hstmts. unfold named_host, host_meaning. cbn [ih_hostname]. by case_bool_decide. Qed.

(** What a statement of its own does to the subnet. *)
Definition say (c : iscSubnet) (s : stmt) : iscSubnet :=
  match s with
  | SHost name body => c <| is_reservations := is_reservations c ++ [host_meaning (current_cidr (Some c)) name body] |>
  | SOption name values => set_option name values c
  | SRange _ start end_ => c <| is_ranges := is_ranges c ++ [mkIscRange start end_] |>
  | SLeaseTime _ seconds => c <| is_lease_time_sec := seconds |>
  | _ => c
  end.
Definition opened (x : bytes * bytes * list stmt) : iscSubnet := foldl say (mkIscSubnet x.1.1 x.1.2 0 [] [] [] []) x.2.

(** The two contexts of a statement. *)
Definition ran (d : iscConfigData) (cur : option iscSubnet) (said : list (bytes * bytes * list stmt)) (ss : list stmt)
    : iscConfigData * option iscSubnet :=
  (mkIscConfigData (ic_subnets d ++ (opened <$> said))
     (ic_hosts d ++ match cur with None => omap (said_host []) ss | Some _ => [] end),
   (λ c, foldl say c ss) <$> cur).

Lemma ran_app d cur said ss said' ss' :
  (let '(d', cur') := ran d cur said ss in ran d' cur' said' ss') = ran d cur (said ++ said') (ss ++ ss').
Proof.
  unfold ran. cbn [ic_subnets ic_hosts]. rewrite fmap_app, <-!app_assoc. destruct cur as [c|]; cbn [fmap option_fmap option_map].
  - by rewrite foldl_app.
  - by rewrite omap_app.
Qed.

Lemma run_list body d cur :
  Forall (λ s, ∀ d cur, run_stmt (d, cur) s = ran d cur (subnets_in s) (own_stmt s)) body →
  foldl run_stmt (d, cur) body = ran d cur (concat (subnets_in <$> body)) (own body).
Proof.
  intros Hb. revert d cur. induction Hb as [|s body Hs _ IH]; intros d cur.
  { unfold ran. destruct d, cur; cbn; by rewrite !app_nil_r. }
  cbn [foldl]. rewrite Hs. unfold own. cbn [fmap list_fmap concat]. fold (own body).
  rewrite <-ran_app. destruct (ran d cur (subnets_in s) (own_stmt s)) as [d1 c1]. apply IH.
Qed.

Lemma run_means s : ∀ d cur, run_stmt (d, cur) s = ran d cur (subnets_in s) (own_stmt s).
Proof.
  induction s as [s IH] using stmt_nested_ind. intros d cur.
  assert (Hsame : ∀ d, mkIscConfigData (ic_subnets d ++ []) (ic_hosts d ++ []) = d) by (intros []; cbn; by rewrite !app_nil_r).
  destruct s as [network netmask body|name body|kw words body|kw words|name values|bootp start end_|value seconds|u];
    cbn [run_stmt subnets_in own_stmt].
  - rewrite run_list by done. unfold ran. cbn [fmap option_fmap option_map option_list].
    rewrite fmap_app. cbn [omap list_omap said_host]. destruct cur; cbn; by rewrite app_nil_r, app_assoc.
  - rewrite host_means. unfold ran. destruct cur as [c|]; cbn; [by rewrite Hsame|]. by destruct d; cbn; rewrite app_nil_r.
  - by apply run_list.
  - unfold ran. destruct cur as [c|]; cbn; by rewrite Hsame.
  - unfold ran. destruct cur as [c|]; cbn; by rewrite Hsame.
  - unfold ran. destruct cur as [c|]; cbn; by rewrite Hsame.
  - unfold ran. destruct cur as [c|]; cbn; by rewrite Hsame.
  - unfold ran. destruct cur as [c|]; cbn; by rewrite Hsame.
Qed.

Lemma say_list ss : ∀ n m t r g dns res,
  let c := mkIscSubnet n m t r g dns res in
  foldl say c ss =
    mkIscSubnet n m (last_or t (omap said_time ss)) (r ++ omap said_range ss) (last_or g (omap said_gateway ss))
      (last_or dns (omap said_dns ss)) (res ++ omap (said_host (current_cidr (Some c))) ss).
Proof.
  induction ss as [|s ss IH]; intros n m t r g dns res c; subst c; [cbn; by rewrite !app_nil_r|]. cbn [foldl].
  destruct s as [network netmask body|name body|kw words body|kw words|name values|bootp start end_|value seconds|u];
    cbn [say omap list_omap said_time said_range said_gateway said_dns said_host]; try (by rewrite IH).
  - etransitivity; [exact (IH n m t r g dns (res ++ [_]))|]. by rewrite <-app_assoc.
  - unfold set_option. destruct (decide (to_lower name = bs "routers")) as [E|E].
    + rewrite (bool_decide_eq_true_2 _ E), (bool_decide_eq_false_2 (to_lower name = bs "domain-name-servers")) by (by rewrite E).
      destruct values as [|v values]; cbn [head]; [by rewrite IH|].
      etransitivity; [exact (IH n m t r v dns res)|]. by rewrite last_or_cons.
    + rewrite (bool_decide_eq_false_2 _ E). case_bool_decide; [|by rewrite IH].
      etransitivity; [exact (IH n m t r g values res)|]. by rewrite last_or_cons.
  - etransitivity; [exact (IH n m t (r ++ [_]) g dns res)|]. by rewrite <-app_assoc.
  - etransitivity; [exact (IH n m seconds r g dns res)|]. by rewrite last_or_cons.
Qed.

(** ** Prefixes *)

Lemma mask_found k : 0 ≤ k ≤ 32 → mask_ones (be_put 4 (2 ^ 32 - 2 ^ (32 - k))) = Some k.
Proof.
  intros Hk. assert (Forall (λ k, mask_ones (be_put 4 (2 ^ 32 - 2 ^ (32 - k))) = Some k) (seqZ 0 33)) as Hall
    by (refine (bool_decide_unpack _ _); vm_compute; exact I).
  rewrite Forall_forall in Hall. apply Hall, elem_of_seqZ. lia.
Qed.
Lemma mask_put mask k : mask_ones mask = Some k → 0 ≤ k ≤ 32 ∧ mask = be_put 4 (2 ^ 32 - 2 ^ (32 - k)).
Proof.
  unfold mask_ones. intros ([i k'] & (Hi & Hm & _)%list_find_Some & E)%bind_Some. cbn in E, Hm. injection E as <-.
  apply list_elem_of_lookup_2, elem_of_seqZ in Hi. split; [lia|]. rewrite <-Hm. unfold cidr_mask32.
  destruct (Z.ltb_spec k' 0); [lia|]. by destruct (Z.ltb_spec 32 k'); [lia|].
Qed.

Lemma net_wf n m p : net_of n m p → prefix_wf p.
Proof. intros (ip & k & _ & Hl & Hk & _ & ->). apply prefix_masked_spec. split; [exact Hl|]. split; [done|exact Hk]. Qed.

Lemma subnet_cidr_net n m cidr : subnet_cidr n m = Ok cidr ↔ ∃ p, net_of n m p ∧ cidr = prefix_string p.
Proof.
  unfold subnet_cidr, net_of. set (ip := to4 _). set (mask := to4 (parse_ip (trim_space m))). split.
  - destruct (bool_decide_reflect (ip = [])) as [|Hip]; [done|]. destruct (bool_decide_reflect (mask = [])); [done|]. cbn [orb].
    destruct (mask_ones mask) as [k|] eqn:Ek; [|done]. intros [= <-]. apply mask_put in Ek as [Hk Em].
    eexists. split; [|reflexivity]. exists ip, k. split; [done|]. split; [by apply to4_length|]. done.
  - intros (p & (ip' & k & <- & Hl & Hk & Em & ->) & ->).
    rewrite (bool_decide_eq_false_2 (ip = [])) by (intros E; by rewrite E in Hl).
    rewrite (bool_decide_eq_false_2 (mask = [])) by (intros E; rewrite Em in E; apply (f_equal length) in E;
      by rewrite be_put_length in E). cbn [orb]. by rewrite Em, mask_found.
Qed.

Lemma current_cidr_of n m t r g dns res : cidr_of n m (current_cidr (Some (mkIscSubnet n m t r g dns res))).
Proof.
  unfold cidr_of, current_cidr. cbn [is_network is_netmask]. pose proof (subnet_cidr_net n m) as Hs.
  destruct (subnet_cidr n m) as [cidr|e|e] eqn:E; [left; by apply Hs|right..];
    (split; [|done]); intros [p Hp]; discriminate (proj2 (Hs (prefix_string p)) (ex_intro _ p (conj Hp eq_refl))).
Qed.

Lemma contains_host_net a s cidr : addr_wf a →
  contains_host a s = Some cidr ↔ ∃ p, net_of (is_network s) (is_netmask s) p ∧ member p a ∧ cidr = prefix_string p.
Proof.
  intros Ha. unfold contains_host. pose proof (subnet_cidr_net (is_network s) (is_netmask s)) as Hs. split.
  - destruct (subnet_cidr _ _) as [c| |]; [|done..]. destruct (proj1 (Hs c) eq_refl) as (p & Hp & ->).
    rewrite parse_prefix_string by by eapply net_wf. destruct (prefix_contains p a) eqn:Ec; [|done]. intros [= <-]. by exists p.
  - intros (p & Hp & [_ Hm] & ->). rewrite (proj2 (Hs (prefix_string p))) by by exists p.
    rewrite parse_prefix_string by by eapply net_wf. by rewrite Hm.
Qed.

(** ** The global hosts *)

Definition net_list (subnets : list iscSubnet) : list (bytes * bytes) := (λ s, (is_network s, is_netmask s)) <$> subnets.

Lemma assign_host_nets h a subnets : net_list (assign_host h a subnets) = net_list subnets.
Proof. unfold net_list. induction subnets as [|s subnets IH]; [done|]. cbn. destruct (contains_host a s); cbn; by rewrite ?IH. Qed.

Lemma home_cons s subnets h i cidr a : parse_addr (trim_space (ih_fixed_address h)) = Ok a →
  home_of (net_list (s :: subnets)) h (S i) cidr ↔ contains_host a s = None ∧ home_of (net_list subnets) h i cidr.
Proof.
  intros Ha. pose proof (parse_addr_wf _ _ Ha) as Hw. unfold home_of. split.
  - intros (a' & n & m & p & Ha' & Hi & Hp & Hm & -> & Hj). assert (a' = a) as -> by congruence. split.
    + destruct (contains_host a s) as [c|] eqn:E; [|done]. apply contains_host_net in E as (p' & Hp' & Hm' & _); [|done].
      exfalso. by apply (Hj 0%nat _ _ p' ltac:(lia) eq_refl Hp').
    + exists a, n, m, p. split; [done|]. split; [exact Hi|]. split; [done|]. split; [done|]. split; [done|].
      intros j n' m' p' Hlt Hjl. by apply (Hj (S j) n' m' p' ltac:(lia)).
  - intros [Hn (a' & n & m & p & Ha' & Hi & Hp & Hm & -> & Hj)]. assert (a' = a) as -> by congruence.
    exists a, n, m, p. split; [done|]. split; [exact Hi|]. split; [done|]. split; [done|]. split; [done|].
    intros [|j] n' m' p' Hlt Hjl Hp' Hm'.
    + injection Hjl as <- <-. assert (contains_host a s = Some (prefix_string p')); [|congruence].
      apply contains_host_net; [done|]. by exists p'.
    + by apply (Hj j n' m' p' ltac:(lia) Hjl Hp').
Qed.

Lemma home_zero s subnets h cidr a : parse_addr (trim_space (ih_fixed_address h)) = Ok a →
  home_of (net_list (s :: subnets)) h 0 cidr ↔ contains_host a s = Some cidr.
Proof.
  intros Ha. pose proof (parse_addr_wf _ _ Ha) as Hw. rewrite contains_host_net by done. unfold home_of. split.
  - intros (a' & n & m & p & Ha' & Hi & Hp & Hm & -> & _). assert (a' = a) as -> by congruence. injection Hi as <- <-. by exists p.
  - intros (p & Hp & Hm & ->). exists a, (is_network s), (is_netmask s), p. do 5 (split; [done|]). intros j. lia.
Qed.

(** An address is given to the subnet that is its host's home, and to no other. *)
Lemma assign_host_lookup h a subnets : ∀ i s, parse_addr (trim_space (ih_fixed_address h)) = Ok a →
  subnets !! i = Some s →
  (∃ cidr, home_of (net_list subnets) h i cidr ∧
     assign_host h a subnets !! i = Some (s <| is_reservations := is_reservations s ++ [h <| ih_subnet_cidr := cidr |>] |>)) ∨
  ((∀ cidr, ¬ home_of (net_list subnets) h i cidr) ∧ assign_host h a subnets !! i = Some s).
Proof.
  induction subnets as [|s0 subnets IH]; intros i s Ha Hi; [done|]. cbn [assign_host].
  destruct (contains_host a s0) as [cidr|] eqn:E; destruct i as [|i]; cbn in Hi |- *.
  - injection Hi as <-. left. exists cidr. split; [by apply (home_zero _ _ _ _ a)|done].
  - right. split; [|done]. intros c [Hn _]%(home_cons _ _ _ _ _ a); [congruence|done].
  - injection Hi as <-. right. split; [|done]. intros c Hc%(home_zero _ _ _ _ a); [congruence|done].
  - destruct (IH i s Ha Hi) as [(c & Hc & E1)|[Hn E1]]; [left|right].
    + exists c. split; [by apply (home_cons _ _ _ _ _ a)|exact E1].
    + split; [|exact E1]. intros c [_ Hc]%(home_cons _ _ _ _ _ a); [by apply (Hn c)|done].
Qed.

Lemma assign_lookup hosts : ∀ d i s, ic_subnets d !! i = Some s →
  let d' := foldl (λ d host, match parse_addr (trim_space (ih_fixed_address host)) with
                     | Ok a => d <| ic_subnets := assign_host host a (ic_subnets d) |>
                     | _ => d
                     end) d hosts in
  ic_hosts d' = ic_hosts d ∧ length (ic_subnets d') = length (ic_subnets d) ∧
  ∃ rs, assigned (net_list (ic_subnets d)) i hosts rs ∧
    ic_subnets d' !! i = Some (s <| is_reservations := is_reservations s ++ rs |>).
Proof.
  induction hosts as [|h hosts IH]; intros d i s Hi d'; subst d'; cbn [foldl].
  { split; [done|]. split; [done|]. exists []. split; [constructor|]. rewrite Hi. destruct s; cbn. by rewrite app_nil_r. }
  destruct (parse_addr (trim_space (ih_fixed_address h))) as [a| |] eqn:Ea.
  2, 3: destruct (IH d i s Hi) as (E1 & E2 & rs & Hrs & El); split; [done|]; split; [done|]; exists rs;
    (split; [|done]); apply assigned_elsewhere; [|done]; intros c (? & ? & ? & ? & ? & _); congruence.
  set (d1 := d <| ic_subnets := assign_host h a (ic_subnets d) |>).
  assert (Hnets : net_list (ic_subnets d1) = net_list (ic_subnets d)) by apply assign_host_nets.
  assert (Hlen : length (ic_subnets d1) = length (ic_subnets d)).
  { pose proof (f_equal length Hnets) as E. unfold net_list in E. by rewrite !length_fmap in E. }
  destruct (assign_host_lookup h a (ic_subnets d) i s Ea Hi) as [(c & Hc & E1)|[Hn E1]];
    destruct (IH d1 i _ E1) as (F1 & F2 & rs & Hrs & El); rewrite Hnets in Hrs;
    (split; [done|]); (split; [by rewrite F2|]).
  - eexists. split; [by eapply assigned_here|]. rewrite El. destruct s; cbn. by rewrite <-app_assoc.
  - exists rs. split; [by apply assigned_elsewhere|done].
Qed.

Lemma assign_shape hosts d :
  let d' := foldl (λ d host, match parse_addr (trim_space (ih_fixed_address host)) with
                     | Ok a => d <| ic_subnets := assign_host host a (ic_subnets d) |>
                     | _ => d
                     end) d hosts in
  ic_hosts d' = ic_hosts d ∧ length (ic_subnets d') = length (ic_subnets d).
Proof.
  revert d. induction hosts as [|h hosts IH]; intros d; [done|]. cbn [foldl].
  destruct (parse_addr (trim_space (ih_fixed_address h))) as [a| |]; [|apply IH..].
  destruct (IH (d <| ic_subnets := assign_host h a (ic_subnets d) |>)) as [-> ->]. split; [done|].
  pose proof (f_equal length (assign_host_nets h a (ic_subnets d))) as E. unfold net_list in E. by rewrite !length_fmap in E.
Qed.

Lemma config_means ss :
  config_meaning ss (assign_global_hosts (foldl run_stmt (mkIscConfigData [] [], None) ss).1).
Proof.
  assert (Hall : Forall (λ s, ∀ d cur, run_stmt (d, cur) s = ran d cur (subnets_in s) (own_stmt s)) ss)
    by (apply Forall_forall; intros s _; apply run_means).
  rewrite run_list by done. unfold ran. cbn [fst ic_subnets ic_hosts app]. set (said := concat (subnets_in <$> ss)).
  set (global := omap (said_host []) (own ss)). unfold assign_global_hosts. cbn [ic_hosts].
  set (d := mkIscConfigData (opened <$> said) global). destruct (assign_shape global d) as [E1 E2].
  assert (Hnets : net_list (ic_subnets d) = fst <$> said).
  { cbn. unfold net_list. rewrite <-list_fmap_compose. apply list_fmap_ext. intros i [[n m] own'] _. cbn. unfold opened.
    cbn [fst snd]. by rewrite say_list. }
  unfold config_meaning. fold said global. split; [exact E1|]. split; [rewrite E2; cbn; by rewrite length_fmap|].
  intros i [[n m] own'] s Hx Hs.
  assert (Hd : ic_subnets d !! i = Some (opened (n, m, own'))) by (cbn; by rewrite list_lookup_fmap, Hx).
  destruct (assign_lookup global d i _ Hd) as (_ & _ & rs & Hrs & El). rewrite Hs in El. injection El as ->.
  unfold opened, subnet_meaning. cbn [fst snd]. rewrite say_list. cbn -[current_cidr]. do 6 (split; [done|]).
  eexists _, rs. split; [by apply current_cidr_of|]. split; [by rewrite <-Hnets|]. done.
Qed.

(** * Texts *)

(** A text in pieces: words, strings, punctuation, white space and comments. *)
Inductive piece := PWord (w : bytes) | PString (w : bytes) | PPunct (c : byte) | PBlank (c : byte) | PComment (text : bytes).
Definition piece_text (p : piece) : bytes :=
  match p with
  | PWord w => w
  | PString w => dquote :: w ++ [dquote]
  | PPunct c | PBlank c => [c]
  | PComment text => hash :: text ++ [newline]
  end.
Definition piece_tokens (p : piece) : list bytes :=
  match p with
  | PWord w => [w]
  | PString w => flush w []
  | PPunct c => [[c]]
  | PBlank _ | PComment _ => []
  end.
Definition plain (c : byte) : bool :=
  negb (bool_decide (c = dquote)) && negb (bool_decide (c = hash)) && negb (is_punct c) && negb (is_blank c).
Definition piece_ok (p : piece) : bool :=
  match p with
  | PWord w => negb (bool_decide (w = [])) && forallb plain w
  | PString w => forallb (λ c, negb (bool_decide (c = dquote))) w
  | PPunct c => is_punct c
  | PBlank c => is_blank c
  | PComment text => forallb (λ c, negb (bool_decide (c = newline))) text
  end.
Fixpoint separated (ps : list piece) : bool :=
  match ps with
  | PWord _ :: (PWord _ :: _) => false
  | _ :: ps => separated ps
  | [] => true
  end.

Lemma tokenize_plain cur w s :
  forallb plain w = true → tokenize_from LexPlain cur (w ++ s) = tokenize_from LexPlain (cur ++ w) s.
Proof.
  revert cur. induction w as [|c w IH]; intros cur; cbn; [by rewrite app_nil_r|].
  rewrite andb_true_iff. unfold plain at 1. rewrite !andb_true_iff, !negb_true_iff. intros [[[[E1 E2] E3] E4] Hw].
  rewrite E1, E2, E3, E4, IH by done. by rewrite <-app_assoc.
Qed.
Lemma tokenize_string cur w s :
  forallb (λ c, negb (bool_decide (c = dquote))) w = true →
  tokenize_from LexString cur (w ++ dquote :: s) = flush (cur ++ w) (tokenize_from LexPlain [] s).
Proof.
  revert cur. induction w as [|c w IH]; intros cur; cbn [app forallb tokenize_from].
  - intros _. by rewrite bool_decide_eq_true_2, app_nil_r.
  - rewrite andb_true_iff, negb_true_iff. intros [-> Hw]. by rewrite IH, <-app_assoc.
Qed.
Lemma tokenize_comment text s :
  forallb (λ c, negb (bool_decide (c = newline))) text = true →
  tokenize_from LexComment [] (text ++ newline :: s) = tokenize_from LexPlain [] s.
Proof.
  induction text as [|c text IH]; cbn [app forallb tokenize_from]; [by rewrite bool_decide_eq_true_2|].
  rewrite andb_true_iff, negb_true_iff. intros [-> Hw]. by rewrite IH.
Qed.
Lemma flush_app w ts : flush w ts = flush w [] ++ ts.
Proof. unfold flush. by case_bool_decide. Qed.

(** What follows a word ends it. *)
Lemma tokenize_flush cur s :
  match s with [] => true | c :: _ => negb (plain c) end = true →
  tokenize_from LexPlain cur s = flush cur (tokenize_from LexPlain [] s).
Proof.
  destruct s as [|c s]; [done|]. unfold plain. cbn.
  destruct (bool_decide (c = dquote)), (bool_decide (c = hash)), (is_punct c), (is_blank c); done.
Qed.

Lemma punct_not_plain c : is_punct c = true → plain c = false.
Proof. intros E. unfold plain. by rewrite E, andb_false_r. Qed.
Lemma blank_not_plain c : is_blank c = true → plain c = false.
Proof. intros E. unfold plain. by rewrite E, andb_false_r. Qed.
Lemma punct_lexed c s : is_punct c = true → tokenize_from LexPlain [] (c :: s) = [c] :: tokenize_from LexPlain [] s.
Proof.
  intros Hc. cbn. rewrite Hc. unfold is_punct in Hc. apply bool_decide_eq_true in Hc.
  cbn [map] in Hc. rewrite !elem_of_cons in Hc. by destruct Hc as [->|[->|[->|[->|[]%elem_of_nil]]]].
Qed.
Lemma blank_lexed c s : is_blank c = true → tokenize_from LexPlain [] (c :: s) = tokenize_from LexPlain [] s.
Proof.
  intros Hc. cbn. rewrite Hc. unfold is_blank in Hc. apply bool_decide_eq_true in Hc.
  cbn [map] in Hc. rewrite !elem_of_cons in Hc. by destruct Hc as [->|[->|[->|[->|[]%elem_of_nil]]]].
Qed.

Lemma tokenize_pieces ps :
  forallb piece_ok ps = true → separated ps = true →
  tokenize_isc_config (concat (piece_text <$> ps)) = concat (piece_tokens <$> ps).
Proof.
  unfold tokenize_isc_config. induction ps as [|p ps IH]; [done|].
  cbn [forallb fmap list_fmap concat]. rewrite andb_true_iff. intros [Hp Hps] Hs.
  assert (Hs' : separated ps = true) by (destruct p, ps as [|[]]; done).
  specialize (IH Hps Hs'). destruct p as [w|w|c|c|text]; cbn [piece_text piece_tokens piece_ok] in *.
  - rewrite andb_true_iff, negb_true_iff, bool_decide_eq_false in Hp. destruct Hp as [Hw Hp].
    rewrite tokenize_plain by done. cbn [app]. rewrite tokenize_flush; [rewrite IH; unfold flush; by rewrite bool_decide_eq_false_2|].
    destruct ps as [|[w'|w'|c|c|text] ps]; cbn in *; try done; rewrite andb_true_iff in Hps; destruct Hps as [Hc _].
    + by rewrite punct_not_plain.
    + by rewrite blank_not_plain.
  - cbn [app]. rewrite <-app_assoc. cbn [app tokenize_from]. rewrite (bool_decide_eq_true_2 (dquote = dquote)) by done.
    rewrite tokenize_string by done. cbn. by rewrite flush_app, IH.
  - cbn [app]. by rewrite punct_lexed, IH.
  - cbn [app]. by rewrite blank_lexed, IH.
  - cbn [app]. rewrite <-app_assoc. cbn [app tokenize_from].
    rewrite (bool_decide_eq_false_2 (hash = dquote)), (bool_decide_eq_true_2 (hash = hash)) by done.
    by rewrite tokenize_comment, IH by done.
Qed.

End parser.

(** * Witness *)

#[local] Existing Instance ascii_tables.
#[local] Instance plain_quotes : GoQuote := {| quote s := s |}.

Definition w (s : string) : piece := PWord (bs s).
Definition sp : piece := PBlank (byte_of_Z 32).
Definition semi : piece := PPunct semicolon.
Definition demo_pieces : list piece :=
  [PComment (bs " global"); w "authoritative"; semi; PBlank newline;
   w "host"; sp; w "nas"; sp; PPunct lbrace; w "hardware"; sp; w "ethernet"; sp; w "00:11:22:33:44:55"; semi;
   w "fixed-address"; sp; w "10.0.0.5"; semi; PPunct rbrace; PBlank newline;
   w "shared-network"; sp; PString (bs "a b"); PPunct lbrace; PBlank newline;
   w "subnet"; sp; w "10.0.0.0"; sp; w "netmask"; sp; w "255.255.255.0"; sp; PPunct lbrace;
   w "option"; sp; w "domain-name-servers"; sp; w "1.1.1.1"; PPunct comma; sp; w "9.9.9.9"; semi; PComment (bs "dns");
   w "class"; sp; PString (bs "x;"); PPunct lbrace; w "match"; semi; PPunct rbrace;
   w "range"; sp; w "10.0.0.10"; sp; w "10.0.0.20"; semi; w "default-lease-time"; sp; w "600"; semi; PPunct rbrace; PPunct rbrace].
Definition demo_stmts : list stmt :=
  [SUnknown (UWords [bs "authoritative"]);
   SHost (bs "nas") [HHardware true (bs "00:11:22:33:44:55"); HFixed (bs "10.0.0.5")];
   SWrapper (bs "shared-network") [bs "a b"]
     [SSubnet (bs "10.0.0.0") (bs "255.255.255.0")
        [SOption (bs "domain-name-servers") [bs "1.1.1.1"; bs "9.9.9.9"];
         SUnknown (UBlock [bs "class"; bs "x;"] [bs "match"; [semicolon]]);
         SRange None (bs "10.0.0.10") (bs "10.0.0.20"); SLeaseTime (bs "600") 600]]].

Lemma demo_stmts_ok : Forall stmt_ok demo_stmts.
Proof.
  unfold demo_stmts. repeat apply Forall_cons_2; [..|apply Forall_nil_2]; cbn; repeat split;
    repeat first [apply Forall_cons_2 | apply Forall_nil_2 | left; reflexivity]; try (refine (bool_decide_unpack _ _); vm_compute; exact I);
    try done.
  all: try (vm_compute; intros Hm; repeat (apply elem_of_cons in Hm as [Hm|Hm]; [done|]); by apply elem_of_nil in Hm).
Qed.

Example demo_parsed :
  parse_isc_dhcp_config (concat (piece_text <$> demo_pieces)) =
    let nas cidr := mkIscHost (bs "nas") (bs "00:11:22:33:44:55") (bs "10.0.0.5") (bs "nas") cidr in
    Ok (mkIscConfigData
      [mkIscSubnet (bs "10.0.0.0") (bs "255.255.255.0") 600 [mkIscRange (bs "10.0.0.10") (bs "10.0.0.20")] []
         [bs "1.1.1.1"; bs "9.9.9.9"] [nas (bs "10.0.0.0/24")]] [nas []]).
Proof. vm_compute. reflexivity. Qed.

(** Legal statements of ISC DHCP that are refused: a range of one address, a host with two
    addresses, hardware that is not Ethernet; and a lease time for all subnets, which is
    dropped. *)
Definition in_subnet (text : string) : bytes :=
  bs "subnet 10.0.0.0 netmask 255.255.255.0 { " ++ bs text ++ bs " }".
Definition lease_times (text : bytes) : option (list Z) :=
  match parse_isc_dhcp_config text with Ok d => Some (is_lease_time_sec <$> ic_subnets d) | _ => None end.
Example unread_statements :
  map lease_times
    [in_subnet "range 10.0.0.5;"; in_subnet "host a { fixed-address 10.0.0.5, 10.0.0.6; }";
     in_subnet "host a { hardware token-ring 00:11:22:33:44:55; }";
     bs "default-lease-time 600; " ++ in_subnet ""; in_subnet "default-lease-time 600;"] =
    [None; None; None; Some [0]; Some [600]].
Proof. vm_compute. reflexivity. Qed.
