(* ===== verification/Migrate.v ===== *)
(** internal/migrate: migrate.go, csv.go and the imports of isc_dhcp.go.

    A run reads files, given as what reading them gives, and writes subnets, reservations,
    addresses and leases.  Every write has its own clocks and faults, by the row and the
    number of the write in it ([MigrateEnv]).  [encoding/csv] and [time.Parse] are
    interfaces.  The other sources and the run itself are in MigrateApi.v. *)

From S2P Require Import Prelude.
From S2P Require Import GoBytes.
From S2P Require Import GoStrings.
From S2P Require Import GoTime.
From S2P Require Import GoJson.
From S2P Require Import GoNet.
From S2P Require Import GoNet6.
From S2P Require Import GoPrefix.
From S2P Require Import GoSort.
From S2P Require Import GoParse.
From S2P Require Import Wal.
From S2P Require Import StorageEngine.
From S2P Require Import Lease.
From S2P Require Import LeaseInterface.
From S2P Require Import Ipam.
From S2P Require Import Metrics.
From S2P Require Import IscConfig.

Class TimeParse := { time_parse : string → bytes → option time }.

(** * Ranges *)

(** One turn of the outer loop of the exchange sort: the least of the range under
    [i] and the ones behind it comes first. *)
Fixpoint exchange_pass (x : addr * addr) (rest : list (addr * addr)) : (addr * addr) * list (addr * addr) :=
  match rest with
  | [] => (x, [])
  | y :: rest =>
      if bool_decide (addr_compare (Some y.1) (Some x.1) = Lt)
      then let '(m, rest) := exchange_pass y rest in (m, x :: rest)
      else let '(m, rest) := exchange_pass x rest in (m, y :: rest)
  end.
Fixpoint exchange_sort (fuel : nat) (items : list (addr * addr)) : list (addr * addr) :=
  match fuel, items with
  | S fuel, x :: rest => let '(m, rest) := exchange_pass x rest in m :: exchange_sort fuel rest
  | _, _ => items
  end.

Fixpoint parse_ranges (ranges : list iscRange) : result (list (addr * addr)) :=
  match ranges with
  | [] => Ok []
  | r :: ranges =>
      start ← parse_addr (trim_space (ir_start r));
      end_ ← parse_addr (trim_space (ir_end r));
      rest ← parse_ranges ranges;
      Ok ((start, end_) :: rest)
  end.

(** The loop that joins the sorted ranges; [gap] is the error of a gap. *)
Fixpoint join_ranges (gap : error) (end_ : addr) (items : list (addr * addr)) : result addr :=
  match items with
  | [] => Ok end_
  | (s, e) :: items =>
      match addr_next end_ with
      | Some n => if bool_decide (addr_compare (Some s) (Some n) = Gt)
                  then Err gap
                  else join_ranges gap (if bool_decide (addr_compare (Some e) (Some end_) = Gt) then e else end_) items
      | None => Err gap
      end
  end.

(** The first and the last address, and whether ranges were merged. *)
Definition merge_ranges (ranges : list iscRange) : result (option (addr * addr)) :=
  items ← parse_ranges ranges;
  match exchange_sort (length items) items with
  | [] => Ok None
  | (start, end_) :: items =>
      end_ ← join_ranges (errorNew "multiple non-contiguous ISC ranges are not supported") end_ items; Ok (Some (start, end_))
  end.
Definition merge_isc_ranges (ranges : list iscRange) : result (bytes * bytes * list bytes) :=
  r ← merge_ranges ranges;
  match r with
  | None => Ok ([], [], [])
  | Some (s, e) =>
      Ok (addr_string s, addr_string e,
          if 1 <? zlen ranges then [bs "multiple ISC ranges were merged into a single Monsoon DHCP range"] else [])
  end.

Definition has_text (s : bytes) : bool := negb (bool_decide (trim_space s = [])).
Definition isc_reservations (cidr : bytes) (hosts : list iscHost) : list UpsertReservationInput :=
  (λ h, mkUpsertReservationInput (ih_mac h) (ih_fixed_address h) (ih_hostname h) cidr) <$>
    filter (λ h, has_text (ih_mac h) && has_text (ih_fixed_address h) = true) hosts.

Definition build_isc_subnet_import (s : iscSubnet) : result (UpsertSubnetInput * list UpsertReservationInput * list bytes) :=
  cidr ← subnet_cidr (is_network s) (is_netmask s);
  '(start, end_, warnings) ← merge_isc_ranges (is_ranges s);
  let lease_sec := if is_lease_time_sec s <=? 0 then 12 * 3600 else is_lease_time_sec s in
  Ok (mkUpsertSubnetInput cidr cidr 0 (is_gateway s) (is_dns s)
        (negb (bool_decide (start = [])) && negb (bool_decide (end_ = []))) start end_ lease_sec,
      isc_reservations cidr (is_reservations s), warnings).

(** * Leases *)

(** [bufio.Scanner]: the lines, without a carriage return at their end; one of 64 KiB
    is too long. *)
Definition drop_return (line : bytes) : bytes := if bool_decide (last line = Some (byte_of_Z 13)) then removelast line else line.
Definition scan_lines (raw : bytes) : result (list bytes) :=
  let lines := split_byte raw newline in
  let lines := if bool_decide (last lines = Some []) then removelast lines else lines in
  if existsb (λ l, 65536 <=? zlen l) lines then Err (errorNew "bufio.Scanner: token too long") else Ok (drop_return <$> lines).

Fixpoint strip_comment_from (in_string : bool) (input : bytes) : bytes :=
  match input with
  | [] => []
  | ch :: input =>
      if bool_decide (ch = dquote) then ch :: strip_comment_from (negb in_string) input
      else if bool_decide (ch = hash) && negb in_string then [] else ch :: strip_comment_from in_string input
  end.
Definition strip_inline_comment (input : bytes) : bytes := strip_comment_from false input.

Section leases.
Context `{UnicodeTables} `{TimeParse}.

Record iscLeaseRecord := mkIscLease {
  il_ip : bytes; il_mac : bytes; il_hostname : bytes; il_state : bytes; il_start : time; il_expiry : time; il_subnet : bytes
}.
#[global] Instance eta_iscLease : Eta iscLeaseRecord := λ r,
  mkIscLease (il_ip r) (il_mac r) (il_hostname r) (il_state r) (il_start r) (il_expiry r) (il_subnet r).

Definition map_isc_binding_state (value : bytes) : bytes :=
  let value := to_lower (trim_space value) in
  if bool_decide (value = bs "active") then StateBound
  else if bool_decide (value = bs "free") then StateReleased
  else if bool_decide (value = bs "expired") then StateExpired
  else if bool_decide (value = bs "released") then StateReleased
  else if bool_decide (value = bs "abandoned") then StateDeclined
  else if bool_decide (value = bs "backup") then StateRenewing
  else StateBound.

(** [strings.Fields] *)
Fixpoint fields_fuel (fuel : nat) (current s : bytes) : list bytes :=
  match fuel, s with
  | S fuel, c :: s' =>
      match strip_one space_seqs s with
      | Some s => flush current (fields_fuel fuel [] s)
      | None => fields_fuel fuel (current ++ [c]) s'
      end
  | _, _ => flush current []
  end.
Definition fields (s : bytes) : list bytes := fields_fuel (length s) [] s.

Definition parse_isc_timestamp (value : bytes) : option time :=
  let value := trim_space value in
  if equal_fold value (bs "never") then Some 0
  else
    match fields value with
    | [_; day; clock] => time_parse "2006/01/02 15:04:05" (day ++ byte_of_Z 32 :: clock)
    | [day; clock] => time_parse "2006/01/02 15:04:05" (day ++ byte_of_Z 32 :: clock)
    | _ => None
    end.

Fixpoint infer_isc_subnet (a : addr) (subnets : list iscSubnet) : bytes :=
  match subnets with
  | [] => []
  | s :: subnets => match contains_host a s with Some cidr => cidr | None => infer_isc_subnet a subnets end
  end.
Definition infer_isc_subnet_for_ip (ip : bytes) (subnets : list iscSubnet) : bytes :=
  match parse_addr (trim_space ip) with Ok a => infer_isc_subnet a subnets | _ => [] end.

(** What follows a keyword of a line. *)
Definition after_keyword (line : bytes) (keyword : string) : option bytes :=
  if has_prefix line (bs keyword) then Some (trim_space (drop (String.length keyword) line)) else None.
Definition ends_with (s : bytes) (c : byte) : bool := bool_decide (last s = Some c).
Definition trim_end (s : bytes) (c : byte) : bytes := if ends_with s c then removelast s else s.
Fixpoint drop_quotes (s : bytes) : bytes :=
  match s with c :: s' => if bool_decide (c = dquote) then drop_quotes s' else s | [] => [] end.
Definition trim_quotes (s : bytes) : bytes := reverse (drop_quotes (reverse (drop_quotes s))).

(** A line inside a lease. *)
Definition lease_line (r : iscLeaseRecord) (line : bytes) : iscLeaseRecord :=
  let line := trim_end line semicolon in
  let with_time value (set : time → iscLeaseRecord) := match parse_isc_timestamp value with Some t => set t | None => r end in
  match after_keyword line "binding state " with
  | Some v => r <| il_state := map_isc_binding_state v |>
  | None =>
  match after_keyword line "hardware ethernet " with
  | Some v => r <| il_mac := v |>
  | None =>
  match after_keyword line "client-hostname " with
  | Some v => r <| il_hostname := trim_quotes v |>
  | None =>
  match after_keyword line "starts " with
  | Some v => with_time v (λ t, r <| il_start := t |>)
  | None =>
  match after_keyword line "ends " with
  | Some v => with_time v (λ t, r <| il_expiry := t |>)
  | None =>
  match after_keyword line "cltt " with
  | Some v => with_time v (λ t, if is_zero (il_start r) then r <| il_start := t |> else r)
  | None => r
  end end end end end end.

(** One turn of the loop of [parseISCDHCPLeases]: the records and the open one. *)
Definition lease_step (subnets : list iscSubnet) (acc : list iscLeaseRecord * option iscLeaseRecord) (line : bytes)
    : list iscLeaseRecord * option iscLeaseRecord :=
  let '(records, current) := acc in
  let line := trim_space (strip_inline_comment line) in
  if bool_decide (line = []) then acc
  else
    match (if ends_with line lbrace then after_keyword line "lease " else None) with
    | Some rest => (records, Some (mkIscLease (trim_space (trim_end rest lbrace)) [] [] StateBound 0 0 []))
    | None =>
        match current with
        | None => acc
        | Some r =>
            if bool_decide (line = [rbrace])
            then (records ++ [r <| il_subnet := infer_isc_subnet_for_ip (il_ip r) subnets |>], None)
            else (records, Some (lease_line r line))
        end
    end.
Definition parse_isc_dhcp_leases (raw : bytes) (subnets : list iscSubnet) : result (list iscLeaseRecord) :=
  lines ← scan_lines raw; Ok (foldl (lease_step subnets) ([], None) lines).1.
End leases.

(** * Reports *)

Record RowError := mkRowError { re_row : Z; re_message : bytes }.
Record FileReport := mkFileReport {
  fr_kind : bytes; fr_path : bytes; fr_rows : Z; fr_applied : Z; fr_skipped : Z; fr_errors : list RowError
}.
#[global] Instance eta_FileReport : Eta FileReport := λ r,
  mkFileReport (fr_kind r) (fr_path r) (fr_rows r) (fr_applied r) (fr_skipped r) (fr_errors r).
Definition new_report (kind : string) (path : bytes) (rows : Z) : FileReport := mkFileReport (bs kind) path rows 0 0 [].
Definition failed_report (kind : string) (path : bytes) (e : error) : FileReport :=
  new_report kind path 0 <| fr_errors := [mkRowError 0 (error_text e)] |>.

(** What became of a row; one can be counted as applied and have an error. *)
Inductive row_outcome := RowApplied | RowSkipped | RowFailed (message : bytes) | RowPartly (message : bytes).
Definition count_row (r : FileReport) (row : Z) (o : row_outcome) : FileReport :=
  match o with
  | RowApplied => r <| fr_applied := fr_applied r + 1 |>
  | RowSkipped => r <| fr_skipped := fr_skipped r + 1 |>
  | RowFailed m => r <| fr_errors := fr_errors r ++ [mkRowError row m] |>
  | RowPartly m => r <| fr_errors := fr_errors r ++ [mkRowError row m] |> <| fr_applied := fr_applied r + 1 |>
  end.

Definition ConflictOverwrite := bs "overwrite".
Definition ConflictSkip := bs "skip".

Section runner.
Context `{UnicodeTables} `{SliceSort} `{TimeParse} `{GoQuote} `{Json Subnet} `{Json Reservation} `{Json AddressRecord}.
Context {S : Type} `{LeaseStore S}.

Record Runner := mkRunner { rn_ipam : Engine; rn_leases : S }.
#[global] Instance eta_Runner : Eta Runner := λ r, mkRunner (rn_ipam r) (rn_leases r).

(** The clocks and the faults of the writes of a row, and whether the context ended
    before it; [mg_cancelled] gives the text of the context's error. *)
Record MigrateEnv := mkMigrateEnv {
  mg_now : nat → nat → time; mg_tx_now : nat → nat → time; mg_io : nat → nat → list append_io;
  mg_lease : nat → ls_env (S := S); mg_cancelled : nat → option bytes
}.
Record run_options := mkRunOptions { op_dry_run : bool; op_policy : bytes }.

(** A call of the IPAM engine, in a dry run the one that only validates. *)
Definition apply_write {T : Type} (o : run_options) (check : result T) (write : Engine * result T) (e : Engine)
    : Engine * result () :=
  if op_dry_run o then (e, _ ← check; Ok ()) else (write.1, _ ← write.2; Ok ()).
Definition put_subnet_row (o : run_options) (env : MigrateEnv) (row n : nat) (e : Engine) (i : UpsertSubnetInput) : Engine * result () :=
  apply_write o (validate_subnet e i) (upsert_subnet e i (mg_now env row n) (mg_tx_now env row n) (mg_io env row n)) e.
Definition put_reservation_row (o : run_options) (env : MigrateEnv) (row n : nat) (e : Engine) (i : UpsertReservationInput) : Engine * result () :=
  apply_write o (validate_reservation e i (mg_now env row n))
    (upsert_reservation e i (mg_now env row n) (mg_tx_now env row n) (mg_io env row n)) e.
Definition put_address_row (o : run_options) (env : MigrateEnv) (row n : nat) (e : Engine) (i : UpsertAddressInput) : Engine * result () :=
  apply_write o (validate_address e i (mg_now env row n))
    (upsert_address e i (mg_now env row n) (mg_tx_now env row n) (mg_io env row n)) e.

Definition row_of (res : result ()) : row_outcome :=
  match res with Ok _ => RowApplied | Err e => RowFailed (error_text e) | Panic m => RowFailed (bs m) end.
Definition exists_ok {T : Type} (res : result T) : bool := match res with Ok _ => true | _ => false end.
(** The policy leaves alone what exists. *)
Definition skips {T : Type} (o : run_options) (found : result T) : bool := bool_decide (op_policy o = ConflictSkip) && exists_ok found.

(** The rows of a file in order, until the context ends; the state [X] of the loop has
    the runner and what the loop collects. *)
Fixpoint import_rows {X T : Type} (env : MigrateEnv) (first : Z) (step : nat → X → T → X * row_outcome)
    (row : nat) (rows : list T) (rn : X) (report : FileReport) : X * FileReport :=
  match rows with
  | [] => (rn, report)
  | x :: rows =>
      match mg_cancelled env row with
      | Some text => (rn, count_row report (first + Z.of_nat row) (RowFailed text))
      | None =>
          let '(rn, o) := step row rn x in
          import_rows env first step (Datatypes.S row) rows rn (count_row report (first + Z.of_nat row) o)
      end
  end.

(** ** ISC DHCP *)

(** The loop over the reservations of a subnet: the first error ends it. *)
Fixpoint import_reservations (o : run_options) (env : MigrateEnv) (row n : nat) (e : Engine) (rs : list UpsertReservationInput)
    : Engine * result () :=
  match rs with
  | [] => (e, Ok ())
  | r :: rs =>
      match put_reservation_row o env row n e r with
      | (e, Ok _) => import_reservations o env row (Datatypes.S n) e rs
      | (e, res) => (e, res)
      end
  end.
Definition isc_subnet_row (o : run_options) (env : MigrateEnv) (row : nat) (rn : Runner) (s : iscSubnet) : Runner * row_outcome :=
  match build_isc_subnet_import s with
  | Ok (payload, reservations, _) =>
      if skips o (get_subnet (rn_ipam rn) (us_cidr payload)) then (rn, RowSkipped)
      else
        match put_subnet_row o env row 0 (rn_ipam rn) payload with
        | (e, Ok _) =>
            let '(e, res) := import_reservations o env row 1 e reservations in (rn <| rn_ipam := e |>, row_of res)
        | (e, res) => (rn <| rn_ipam := e |>, row_of res)
        end
  | Err e => (rn, RowFailed (error_text e))
  | Panic m => (rn, RowFailed (bs m))
  end.
Definition subnet_warnings (s : iscSubnet) : list bytes :=
  match build_isc_subnet_import s with Ok (_, _, w) => w | _ => [] end.
(** The subnets whose row was reached. *)
Definition reached {T : Type} (env : MigrateEnv) (rows : list T) : list T :=
  (fix go (row : nat) (rows : list T) :=
     match rows with
     | [] => []
     | x :: rows => match mg_cancelled env row with Some _ => [] | None => x :: go (Datatypes.S row) rows end
     end) 0%nat rows.

Definition row_errors (report : FileReport) (text : string) : option error :=
  if bool_decide (fr_errors report = []) then None else Some (Errorf text [FZ (zlen (fr_errors report))]).

Definition import_isc_dhcp_config (o : run_options) (env : MigrateEnv) (path : bytes) (raw : result bytes) (rn : Runner)
    : Runner * FileReport * list bytes * iscConfigData * option error :=
  let no_data := mkIscConfigData [] [] in
  let refuse e := (rn, failed_report "isc_dhcp_config" path e, [], no_data, Some e) in
  match raw with
  | Err e => refuse e
  | Panic m => refuse (ErrIO m)
  | Ok raw =>
      match parse_isc_dhcp_config raw with
      | Err e => refuse e
      | Panic m => refuse (ErrIO m)
      | Ok parsed =>
          let '(rn, report) := import_rows env 1 (isc_subnet_row o env) 0 (ic_subnets parsed) rn
                                 (new_report "isc_dhcp_config" path (zlen (ic_subnets parsed))) in
          (rn, report, concat (subnet_warnings <$> reached env (ic_subnets parsed)), parsed,
           row_errors report "isc config import reported %d row errors")
      end
  end.

Definition validate_lease_record (l : Lease) : option error :=
  match parse_addr (trim_space (l_ip l)) with
  | Ok _ => if has_text (l_mac l) then None else Some (errorNew "mac is required")
  | Err e => Some (Errorf "invalid ip: %s" [FB (error_text e)])
  | Panic m => Some (ErrIO m)
  end.
Definition put_lease_row (o : run_options) (env : MigrateEnv) (row : nat) (rn : Runner) (l : Lease) : Runner * row_outcome :=
  let of_error err := match err with Some e => RowFailed (error_text e) | None => RowApplied end in
  if op_dry_run o then (rn, of_error (validate_lease_record l))
  else let '(s, err) := ls_upsert (rn_leases rn) l (mg_lease env row) in (rn <| rn_leases := s |>, of_error err).

Definition isc_lease (r : iscLeaseRecord) : Lease :=
  let d := time_sub (il_expiry r) (il_start r) in
  mkLease (il_ip r) (il_mac r) [] (il_hostname r) (il_state r) (il_start r) (if d <=? 0 then 12 * hour else d) 0 0
    (il_expiry r) 0 (il_subnet r) [] [] [] [] [] [] 0 [] [] ∅ 0 0.
Definition isc_lease_row (o : run_options) (env : MigrateEnv) (row : nat) (rn : Runner) (r : iscLeaseRecord) : Runner * row_outcome :=
  if negb (bool_decide (il_state r = StateBound ∨ il_state r = StateRenewing)) then (rn, RowSkipped)
  else if skips o (ls_get_by_ip (rn_leases rn) (il_ip r)) then (rn, RowSkipped)
  else put_lease_row o env row rn (isc_lease r).

Definition import_isc_dhcp_leases (o : run_options) (env : MigrateEnv) (path : bytes) (raw : result bytes) (config : iscConfigData)
    (rn : Runner) : Runner * FileReport * option error :=
  match (raw ← raw; parse_isc_dhcp_leases raw (ic_subnets config)) with
  | Err e => (rn, failed_report "isc_dhcp_leases" path e, Some e)
  | Panic m => (rn, failed_report "isc_dhcp_leases" path (ErrIO m), Some (ErrIO m))
  | Ok records =>
      let '(rn, report) := import_rows env 1 (isc_lease_row o env) 0 records rn (new_report "isc_dhcp_leases" path (zlen records)) in
      (rn, report, row_errors report "isc lease import reported %d row errors")
  end.

(** What a source reports: its files, its warnings, and an error. *)
Record source_report := mkSourceReport { so_files : list FileReport; so_warnings : list bytes; so_error : option error }.

(** The environments of the two files, and what reading them gives. *)
Definition run_isc_dhcp (o : run_options) (env1 env2 : MigrateEnv) (config_path leases_path : bytes)
    (read_file : bytes → result bytes) (rn : Runner) : Runner * source_report :=
  let config_path := trim_space config_path in
  if bool_decide (config_path = [])
  then (rn, mkSourceReport [] [] (Some (errorNew "isc-dhcp migration requires --source-config")))
  else
    let '(rn, report, warnings, parsed, err) := import_isc_dhcp_config o env1 config_path (read_file config_path) rn in
    match err with
    | Some e => (rn, mkSourceReport [report] warnings (Some e))
    | None =>
        if has_text leases_path then
          let '(rn, leases, err) := import_isc_dhcp_leases o env2 leases_path (read_file leases_path) parsed rn in
          (rn, mkSourceReport [report; leases] warnings err)
        else (rn, mkSourceReport [report] warnings None)
    end.

(** ** CSV *)

(** [csv.Reader] with any number of fields and leading space trimmed: the records, and
    the error that ended them. *)
Class CsvReader := { csv_records : bytes → list (list bytes) * option error }.
Context `{CsvReader}.
Abbreviation csvRow := (gmap bytes bytes).

Definition underscore : byte := byte_of_Z 95.
Definition normalize_header (s : bytes) : bytes :=
  to_lower (trim_space ((λ c, if bool_decide (c ∈ map byte_of_Z [32; 45; 46; 47]) then underscore else c) <$> s)).

Definition csv_row (header record : list bytes) : csvRow :=
  foldl (λ row (p : nat * bytes), <[p.2 := trim_space (default [] (record !! p.1))]> row) ∅ (imap pair header).
Definition read_csv_rows (raw : result bytes) : result (list csvRow) :=
  raw ← raw;
  match csv_records raw with
  | (_, Some e) => Err e
  | ([], None) => Ok []
  | (header :: records, None) => Ok (csv_row (normalize_header <$> header) <$> records)
  end.

Fixpoint field_of (row : csvRow) (keys : list string) : bytes :=
  match keys with
  | [] => []
  | key :: keys =>
      let value := trim_space (default [] (row !! normalize_header (bs key))) in
      if bool_decide (value = []) then field_of row keys else value
  end.

(** [strings.FieldsFunc] on three separators, and the trimmed fields that are left. *)
Fixpoint split_fields (current s : bytes) : list bytes :=
  match s with
  | [] => flush current []
  | c :: s => if bool_decide (c ∈ [comma; semicolon; byte_of_Z 124]) then flush current (split_fields [] s)
              else split_fields (current ++ [c]) s
  end.
Definition split_list (s : bytes) : list bytes :=
  filter (λ v, v ≠ []) (trim_space <$> split_fields [] (trim_space s)).

Definition bool_field (row : csvRow) (keys : list string) : bool :=
  bool_decide (to_lower (field_of row keys) ∈ map bs ["1"; "true"; "yes"; "y"; "on"]%string).
Definition int_field (row : csvRow) (keys : list string) : Z := default 0 (parse_int (field_of row keys)).
Definition duration_seconds_field (row : csvRow) (keys : list string) : Z :=
  let value := field_of row keys in
  match parse_int value with
  | Some z => z
  | None => match parse_duration value with Some d => float_trunc (seconds d) | None => 0 end
  end.
Definition duration_field (row : csvRow) (keys : list string) : duration :=
  let value := field_of row keys in
  match parse_int value with
  | Some z => i64 (z * second)
  | None => default 0 (parse_duration value)
  end.
Definition unix_time (seconds : Z) : time := i64 (seconds + 62135596800) * second.
Definition time_layouts : list string :=
  ["2006-01-02T15:04:05.999999999Z07:00"; "2006-01-02T15:04:05Z07:00"; "2006-01-02 15:04:05"; "2006-01-02 15:04"; "2006-01-02"]%string.
Definition time_field (row : csvRow) (keys : list string) : time :=
  let value := field_of row keys in
  if bool_decide (value = []) then 0
  else
    match omap (λ layout, time_parse layout value) time_layouts with
    | t :: _ => t
    | [] => match parse_int value with Some z => unix_time z | None => 0 end
    end.
Definition lease_state_field (row : csvRow) (key : string) : bytes :=
  let value := to_lower (field_of row [key]) in
  if bool_decide (value = bs "0") then StateBound
  else if bool_decide (value = bs "1") then StateDeclined
  else if bool_decide (value = bs "2") then StateExpired
  else if bool_decide (value ∈ [StateFree; StateOffered; StateBound; StateRenewing; StateReleased; StateDeclined; StateQuarantined; StateExpired])
  then value else StateBound.

Definition subnet_row_input (row : csvRow) : UpsertSubnetInput :=
  let f := field_of row in
  let start := f ["pool_start"; "range_start"]%string in
  let end_ := f ["pool_end"; "range_end"]%string in
  mkUpsertSubnetInput (f ["cidr"; "subnet"; "prefix"]%string) (f ["name"]%string) (int_field row ["vlan"; "vlan_id"]%string)
    (f ["gateway"]%string) (split_list (f ["dns"; "dns_servers"]%string))
    (negb (bool_decide (start = [])) || negb (bool_decide (end_ = [])) || bool_field row ["dhcp_enabled"; "dhcp"; "enabled"]%string)
    start end_ (duration_seconds_field row ["lease_time_sec"; "lease_seconds"; "lease_duration"; "lease_time"]%string).
Definition import_subnet_row (o : run_options) (env : MigrateEnv) (n : nat) (rn : Runner) (row : csvRow) : Runner * row_outcome :=
  let payload := subnet_row_input row in
  if bool_decide (us_cidr payload = []) then (rn, RowFailed (bs "cidr is required"))
  else if skips o (get_subnet (rn_ipam rn) (us_cidr payload)) then (rn, RowSkipped)
  else let '(e, res) := put_subnet_row o env n 0 (rn_ipam rn) payload in (rn <| rn_ipam := e |>, row_of res).

Definition import_address_row (o : run_options) (env : MigrateEnv) (n : nat) (rn : Runner) (row : csvRow) : Runner * row_outcome :=
  let f := field_of row in
  let ip := f ["ip"; "address"]%string in
  if bool_decide (ip = []) then (rn, RowFailed (bs "ip is required"))
  else
    let payload := mkUpsertAddressInput ip (f ["subnet_cidr"; "subnet"; "cidr"]%string) (to_lower (f ["state"]%string))
      (f ["mac"]%string) (f ["hostname"; "dns_name"]%string) (f ["source"]%string) (time_field row ["updated_at"; "last_seen"]%string) in
    if skips o (get_stored_address (rn_ipam rn) ip) then (rn, RowSkipped)
    else let '(e, res) := put_address_row o env n 0 (rn_ipam rn) payload in (rn <| rn_ipam := e |>, row_of res).

Definition import_reservation_row (o : run_options) (env : MigrateEnv) (n : nat) (rn : Runner) (row : csvRow) : Runner * row_outcome :=
  let f := field_of row in
  let payload := mkUpsertReservationInput (f ["mac"]%string) (f ["ip"; "address"]%string) (f ["hostname"; "name"]%string)
    (f ["subnet_cidr"; "subnet"; "cidr"]%string) in
  if bool_decide (ur_mac payload = [] ∨ ur_ip payload = []) then (rn, RowFailed (bs "mac and ip are required"))
  else if skips o (get_reservation_by_mac (rn_ipam rn) (ur_mac payload)) then (rn, RowSkipped)
  else let '(e, res) := put_reservation_row o env n 0 (rn_ipam rn) payload in (rn <| rn_ipam := e |>, row_of res).

(** The lease of a row; [now] stands for a missing start. *)
Definition csv_lease (row : csvRow) (ip mac : bytes) (now : time) : Lease :=
  let f := field_of row in
  let start := time_field row ["start_time"; "starts_at"; "created_at"; "cltt"]%string in
  let start := if is_zero start then now else start in
  let d := duration_field row ["duration"; "duration_sec"; "lease_time"; "lease_duration"; "valid_lft"]%string in
  let expiry := time_field row ["expiry_time"; "expires_at"; "end_time"]%string in
  let d := if (d <=? 0) && negb (is_zero expiry) && after expiry start then time_sub expiry start else d in
  let epoch := f ["expire"]%string in
  let expiry := if is_zero expiry && negb (bool_decide (epoch = []))
                then match parse_int epoch with Some z => unix_time z | None => expiry end else expiry in
  let d := if d <=? 0 then 12 * hour else d in
  let expiry := if is_zero expiry then time_add start d else expiry in
  mkLease ip mac [] (f ["hostname"; "name"]%string) (lease_state_field row "state") start d 0 0 expiry 0
    (f ["subnet_id"; "subnet_cidr"; "subnet"]%string) (f ["relay_addr"]%string) [] (f ["circuit_id"]%string) (f ["remote_id"]%string)
    (f ["vendor_class"]%string) (f ["user_class"]%string) (time_field row ["last_seen"; "updated_at"]%string) [] [] ∅
    (time_field row ["created_at"]%string) (time_field row ["updated_at"]%string).
Definition import_lease_row (o : run_options) (env : MigrateEnv) (n : nat) (rn : Runner) (row : csvRow) : Runner * row_outcome :=
  let ip := field_of row ["ip"; "address"; "ip_address"]%string in
  let mac := field_of row ["mac"; "hw_address"]%string in
  if bool_decide (ip = [] ∨ mac = []) then (rn, RowFailed (bs "ip and mac are required"))
  else
    match parse_addr ip with
    | Ok _ =>
        if skips o (ls_get_by_ip (rn_leases rn) ip) then (rn, RowSkipped)
        else put_lease_row o env n rn (csv_lease row ip mac (mg_now env n 0))
    | Err e => (rn, RowFailed (bs "invalid ip: " ++ error_text e))
    | Panic m => (rn, RowFailed (bs m))
    end.

Definition import_csv_file (env : MigrateEnv) (kind : string) (path : bytes) (raw : result bytes)
    (importer : nat → Runner → csvRow → Runner * row_outcome) (rn : Runner) : Runner * FileReport * option error :=
  match read_csv_rows raw with
  | Err e => (rn, failed_report kind path e, Some e)
  | Panic m => (rn, failed_report kind path (ErrIO m), Some (ErrIO m))
  | Ok rows =>
      let '(rn, report) := import_rows env 2 importer 0 rows rn (new_report kind path (zlen rows)) in
      (rn, report, if bool_decide (fr_errors report = []) then None
                   else Some (Errorf "%s import reported %d row errors" [FB (bs kind); FZ (zlen (fr_errors report))]))
  end.

Record CSVOptions := mkCSVOptions {
  cv_subnets_path : bytes; cv_addresses_path : bytes; cv_reservations_path : bytes; cv_leases_path : bytes
}.
Definition csv_files (o : run_options) (envs : string → MigrateEnv) (opts : CSVOptions)
    : list (string * bytes * (nat → Runner → csvRow → Runner * row_outcome)) :=
  [("subnets"%string, cv_subnets_path opts, import_subnet_row o (envs "subnets"%string));
   ("addresses"%string, cv_addresses_path opts, import_address_row o (envs "addresses"%string));
   ("reservations"%string, cv_reservations_path opts, import_reservation_row o (envs "reservations"%string));
   ("leases"%string, cv_leases_path opts, import_lease_row o (envs "leases"%string))].
Definition run_csv (o : run_options) (envs : string → MigrateEnv) (read_file : bytes → result bytes) (opts : CSVOptions) (rn : Runner)
    : Runner * source_report :=
  let files := filter (λ f : string * bytes * (nat → Runner → csvRow → Runner * row_outcome), has_text f.1.2 = true) (csv_files o envs opts) in
  let '(rn, report) :=
    foldl (λ acc f, let '(rn, report) := acc in
                    let '(rn, file, err) := import_csv_file (envs f.1.1) f.1.1 f.1.2 (read_file f.1.2) f.2 rn in
                    (rn, mkSourceReport (so_files report ++ [file])
                           (so_warnings report ++ match err with Some e => [error_text e] | None => [] end) None))
      (rn, mkSourceReport [] [] None) files in
  (rn, if bool_decide (files = []) then mkSourceReport (so_files report) (so_warnings report)
                                         (Some (errorNew "csv migration requires at least one input file")) else report).

End runner.
