(* ===== verification/MigrateApi.v ===== *)
(** internal/migrate: kea.go, netbox.go, phpipam.go, and the run of migrate.go.

    A Kea configuration is JSON with comments; NetBox and phpIPAM are asked over HTTP.
    [encoding/json] is an interface, by the type it decodes to.  The network is the list
    of what becomes of the requests of a run, in their order: each answers the request it
    gets, or fails; after the last the context has ended.  A run of the loop over the
    pages of NetBox is a list of any length, so the loop needs no fuel. *)

From S2P Require Import Prelude.
From S2P Require Import GoBytes.
From S2P Require Import GoStrings.
From S2P Require Import GoTime.
From S2P Require Import GoJson.
From S2P Require Import GoNet.
From S2P Require Import GoNet6.
From S2P Require Import GoPrefix.
From S2P Require Import GoSort.
From S2P Require Import GoParse.
From S2P Require Import Wal.
From S2P Require Import StorageEngine.
From S2P Require Import Lease.
From S2P Require Import LeaseInterface.
From S2P Require Import Ipam.
From S2P Require Import Metrics.
From S2P Require Import RestAuth.
From S2P Require Import IscConfig.
From S2P Require Import Migrate.

(** [json.Unmarshal] *)
Class JsonUnmarshal (T : Type) := { json_unmarshal : bytes → result T }.

(** * Kea *)

(** ** Comments in JSON *)

Definition star : byte := byte_of_Z 42.
Definition backslash : byte := byte_of_Z 92.

Inductive strip_state := StateNormal | StateString (escaped : bool) | StateLineComment | StateBlockComment.

(** The loop of [stripJSONComments]: what is left of the input. *)
Fixpoint strip_json_from (state : strip_state) (input : bytes) : bytes :=
  match input with
  | [] => []
  | ch :: rest =>
      match state with
      | StateNormal =>
          if bool_decide (ch = dquote) then ch :: strip_json_from (StateString false) rest
          else
            match rest with
            | next :: rest' =>
                if bool_decide (ch = slash) && bool_decide (next = slash) then strip_json_from StateLineComment rest'
                else if bool_decide (ch = slash) && bool_decide (next = star) then strip_json_from StateBlockComment rest'
                else ch :: strip_json_from StateNormal rest
            | [] => [ch]
            end
      | StateString true => ch :: strip_json_from (StateString false) rest
      | StateString false =>
          ch :: strip_json_from (if bool_decide (ch = backslash) then StateString true
                                 else if bool_decide (ch = dquote) then StateNormal else StateString false) rest
      | StateLineComment =>
          if bool_decide (ch = newline) then ch :: strip_json_from StateNormal rest else strip_json_from StateLineComment rest
      | StateBlockComment =>
          match rest with
          | next :: rest' =>
              if bool_decide (ch = star) && bool_decide (next = slash) then strip_json_from StateNormal rest'
              else strip_json_from StateBlockComment rest
          | [] => []
          end
      end
  end.
Definition strip_json_comments (input : bytes) : bytes := strip_json_from StateNormal input.

(** ** The configuration *)

Record keaReservation := mkKeaReservation { kr_hw_address : bytes; kr_ip_address : bytes; kr_hostname : bytes }.
Record keaOption := mkKeaOption { ko_name : bytes; ko_data : bytes }.
Record keaPool := mkKeaPool { kp_pool : bytes }.
(** The pools are the JSON they are in the file; a map without members stands for nil. *)
Record keaSubnet4 := mkKeaSubnet4 {
  ks_id : Z; ks_subnet : bytes; ks_valid_lifetime : Z; ks_pools : list bytes; ks_reservations : list keaReservation;
  ks_option_data : list keaOption; ks_user_context : gmap bytes json
}.
#[global] Instance eta_keaSubnet4 : Eta keaSubnet4 := λ s,
  mkKeaSubnet4 (ks_id s) (ks_subnet s) (ks_valid_lifetime s) (ks_pools s) (ks_reservations s) (ks_option_data s) (ks_user_context s).
Record keaSharedNetwork := mkKeaSharedNetwork { kn_name : bytes; kn_subnet4 : list keaSubnet4 }.
Record keaDHCP4 := mkKeaDHCP4 { kd_valid_lifetime : Z; kd_subnet4 : list keaSubnet4; kd_shared_networks : list keaSharedNetwork }.
Record keaConfigFile := mkKeaConfigFile { kc_dhcp4 : keaDHCP4 }.

(** A subnet of a shared network takes the name of the network. *)
Definition shared_subnet (network : keaSharedNetwork) (s : keaSubnet4) : keaSubnet4 :=
  match ks_user_context s !! bs "shared_network" with
  | None => if has_text (kn_name network)
            then s <| ks_user_context := <[bs "shared_network" := JString (kn_name network)]> (ks_user_context s) |> else s
  | Some _ => s
  end.
Definition flatten_kea_subnets (d : keaDHCP4) : list keaSubnet4 :=
  kd_subnet4 d ++
  concat ((λ n, shared_subnet n <$> filter (λ s, has_text (ks_subnet s) = true) (kn_subnet4 n)) <$> kd_shared_networks d).

Definition context_text (s : keaSubnet4) (key : string) : option bytes :=
  match ks_user_context s !! bs key with
  | Some (JString v) => if has_text v then Some (trim_space v) else None
  | _ => None
  end.
Definition infer_kea_subnet_name (s : keaSubnet4) : bytes :=
  match context_text s "name" with
  | Some name => name
  | None =>
      match context_text s "shared_network" with
      | Some name => name ++ byte_of_Z 32 :: trim_space (ks_subnet s)
      | None => if 0 <? ks_id s then bs "Kea Subnet " ++ fmt_d (ks_id s) else trim_space (ks_subnet s)
      end
  end.

(** ** Pools *)

(** The last address of an IPv4 prefix; it panics on an IPv6 one. *)
Definition last_ipv4_in_prefix (p : prefix) : result addr :=
  base ← as4 (p_addr (prefix_masked p));
  let host_bits := 32 - p_bits p in
  let mask := if 32 <=? host_bits then max_u32 else if 0 <? host_bits then Z.shiftl 1 host_bits - 1 else 0 in
  Ok (A4 (be_put 4 (Z.lor (be_get base) mask))).

Definition parse_kea_pool (value : bytes) : result (addr * addr) :=
  let value := trim_space value in
  let dash := index_byte value minus in
  if bool_decide (value = []) then Err (errorNew "empty pool value")
  else if 0 <=? dash then
    match parse_addr (trim_space (take (Z.to_nat dash) value)) with
    | Ok start =>
        match parse_addr (trim_space (drop (Z.to_nat (dash + 1)) value)) with
        | Ok end_ => if bool_decide (addr_compare (Some start) (Some end_) = Gt)
                     then Err (errorNew "pool start must be <= pool end") else Ok (start, end_)
        | _ => Err (errorNew "invalid pool end: %w")
        end
    | _ => Err (errorNew "invalid pool start: %w")
    end
  else
    match parse_prefix value with
    | Ok p =>
        let start := p_addr (prefix_masked p) in
        if is4 start then end_ ← last_ipv4_in_prefix p; Ok (start, end_) else Err (errorNew "only DHCPv4 pools are supported")
    | _ => Err (Errorf "unsupported pool format: %s" [FB value])
    end.

Section pools.
Context `{SliceSort} `{JsonUnmarshal bytes} `{JsonUnmarshal keaPool}.

(** A pool is a text or an object with one. *)
Definition pool_text (raw : bytes) : result bytes :=
  match json_unmarshal (T := bytes) raw with
  | Ok direct => Ok direct
  | _ => match json_unmarshal (T := keaPool) raw with
         | Ok wrapped => Ok (kp_pool wrapped)
         | _ => Err (errorNew "invalid pool definition")
         end
  end.
Fixpoint kea_ranges (raws : list bytes) : result (list (addr * addr)) :=
  match raws with
  | [] => Ok []
  | raw :: raws => text ← pool_text raw; range ← parse_kea_pool text; rest ← kea_ranges raws; Ok (range :: rest)
  end.
Definition starts_before (x y : addr * addr) : bool := bool_decide (addr_compare (Some x.1) (Some y.1) = Lt).
(** The first and the last address of the pools together. *)
Definition merge_kea_pools (raws : list bytes) : result (option (addr * addr)) :=
  ranges ← kea_ranges raws;
  match sort_slice starts_before ranges with
  | [] => Ok None
  | (start, end_) :: ranges =>
      end_ ← join_ranges (errorNew "multiple non-contiguous pools are not supported") end_ ranges; Ok (Some (start, end_))
  end.
Definition normalize_kea_pools (raws : list bytes) : result (bytes * bytes * list bytes) :=
  r ← merge_kea_pools raws;
  match r with
  | None => Ok ([], [], [])
  | Some (start, end_) =>
      Ok (addr_string start, addr_string end_,
          if 1 <? zlen raws then [bs "multiple Kea pools were merged into a single Monsoon DHCP range"] else [])
  end.
End pools.

(** ** The import *)

Section kea.
Context `{UnicodeTables} `{SliceSort} `{TimeParse} `{GoQuote} `{Json Subnet} `{Json Reservation} `{Json AddressRecord}.
Context {S : Type} `{LeaseStore S} `{CsvReader}.
Context `{JsonUnmarshal keaConfigFile} `{JsonUnmarshal bytes} `{JsonUnmarshal keaPool}.

(** The gateway and the name servers; the last option of a name counts. *)
Definition kea_option (acc : bytes * list bytes) (o : keaOption) : bytes * list bytes :=
  let name := to_lower (trim_space (ko_name o)) in
  if bool_decide (name = bs "routers")
  then match split_list (ko_data o) with gateway :: _ => (gateway, acc.2) | [] => acc end
  else if bool_decide (name = bs "domain-name-servers") then (acc.1, split_list (ko_data o))
  else acc.
Definition extract_kea_options (options : list keaOption) : bytes * list bytes := foldl kea_option ([], []) options.

Definition kea_lease_sec (default_lifetime lifetime : Z) : Z :=
  let sec := if lifetime <=? 0 then default_lifetime else lifetime in if sec <=? 0 then 12 * 60 * 60 else sec.
Definition kea_reservations (cidr : bytes) (l : list keaReservation) : list UpsertReservationInput :=
  (λ r, mkUpsertReservationInput (kr_hw_address r) (kr_ip_address r) (kr_hostname r) cidr) <$>
    filter (λ r, has_text (kr_hw_address r) && has_text (kr_ip_address r) = true) l.

Definition build_kea_subnet_import (default_lifetime : Z) (s : keaSubnet4)
    : result (UpsertSubnetInput * list UpsertReservationInput * list bytes) :=
  let cidr := trim_space (ks_subnet s) in
  if bool_decide (cidr = []) then Err (errorNew "subnet is required")
  else
    match normalize_kea_pools (ks_pools s) with
    | Ok (pool_start, pool_end, warnings) =>
        let '(gateway, dns) := extract_kea_options (ks_option_data s) in
        Ok (mkUpsertSubnetInput cidr (infer_kea_subnet_name s) 0 gateway dns
              (negb (bool_decide (pool_start = [])) && negb (bool_decide (pool_end = []))) pool_start pool_end
              (kea_lease_sec default_lifetime (ks_valid_lifetime s)),
            kea_reservations cidr (ks_reservations s), warnings)
    | Err e => Err (Errorf "subnet %s: %s" [FB cidr; FB (error_text e)])
    | Panic m => Panic m
    end.
Definition kea_warnings (default_lifetime : Z) (s : keaSubnet4) : list bytes :=
  match build_kea_subnet_import default_lifetime s with Ok (_, _, w) => w | _ => [] end.

(** In a dry run a subnet counts as applied whatever its reservations are. *)
Definition kea_row_of (dry : bool) (res : result ()) : row_outcome :=
  match row_of res with RowFailed m => if dry then RowPartly m else RowFailed m | out => out end.
Definition kea_subnet_row (default_lifetime : Z) (o : run_options) (env : MigrateEnv) (row : nat) (rn : Runner (S := S)) (s : keaSubnet4)
    : Runner * row_outcome :=
  match build_kea_subnet_import default_lifetime s with
  | Ok (payload, reservations, _) =>
      if skips o (get_subnet (rn_ipam rn) (us_cidr payload)) then (rn, RowSkipped)
      else
        match put_subnet_row o env row 0 (rn_ipam rn) payload with
        | (e, Ok _) =>
            let '(e, res) := import_reservations o env row 1 e reservations in
            (rn <| rn_ipam := e |>, kea_row_of (op_dry_run o) res)
        | (e, res) => (rn <| rn_ipam := e |>, row_of res)
        end
  | Err e => (rn, RowFailed (error_text e))
  | Panic m => (rn, RowFailed (bs m))
  end.

Definition import_kea_config (o : run_options) (env : MigrateEnv) (path : bytes) (raw : result bytes) (rn : Runner (S := S))
    : Runner * FileReport * list bytes * option error :=
  match (raw ← raw; json_unmarshal (T := keaConfigFile) (strip_json_comments raw)) with
  | Err e => (rn, failed_report "kea_config" path e, [], Some e)
  | Panic m => (rn, failed_report "kea_config" path (ErrIO m), [], Some (ErrIO m))
  | Ok parsed =>
      let d := kc_dhcp4 parsed in
      let subnets := flatten_kea_subnets d in
      let '(rn, report) := import_rows env 1 (kea_subnet_row (kd_valid_lifetime d) o env) 0 subnets rn
                             (new_report "kea_config" path (zlen subnets)) in
      (rn, report, concat (kea_warnings (kd_valid_lifetime d) <$> reached env subnets),
       row_errors report "kea config import reported %d row errors")
  end.

Definition run_kea (o : run_options) (envs : string → MigrateEnv) (read_file : bytes → result bytes) (config_path leases_path : bytes)
    (rn : Runner (S := S)) : Runner * source_report :=
  let config_path := trim_space config_path in
  if bool_decide (config_path = []) then (rn, mkSourceReport [] [] (Some (errorNew "kea migration requires --source-config")))
  else
    let '(rn, report, warnings, err) := import_kea_config o (envs "config"%string) config_path (read_file config_path) rn in
    match err with
    | Some e => (rn, mkSourceReport [report] warnings (Some e))
    | None =>
        if has_text leases_path then
          let '(rn, leases, err) := import_csv_file (envs "leases"%string) "kea_leases" leases_path (read_file leases_path)
                                      (import_lease_row o (envs "leases"%string)) rn in
          (rn, mkSourceReport [report; leases] (warnings ++ match err with Some e => [error_text e] | None => [] end) err)
        else (rn, mkSourceReport [report] warnings None)
    end.
End kea.

(** * Requests *)

Record http_answer := mkHttpAnswer { ha_status : Z; ha_status_text : bytes; ha_body : bytes }.
Record api_request := mkApiRequest { aq_url : bytes; aq_headers : list (bytes * bytes) }.
(** What becomes of the requests to come. *)
Abbreviation network := (list (api_request → result http_answer)).

Definition success (a : http_answer) : bool := (200 <=? ha_status a) && (ha_status a <? 300).
(** [strings.TrimRight(s, "/")] *)
Fixpoint drop_slashes (s : bytes) : bytes :=
  match s with c :: s' => if bool_decide (c = slash) then drop_slashes s' else s | [] => [] end.
Definition trim_slashes (s : bytes) : bytes := reverse (drop_slashes (reverse s)).
Definition api_base (url : bytes) : bytes := trim_slashes (trim_space url).

(** * NetBox *)

Record netboxPage (T : Type) := mkNetboxPage { pg_count : Z; pg_next : option bytes; pg_results : list T }.
Arguments mkNetboxPage {T}. Arguments pg_count {T}. Arguments pg_next {T}. Arguments pg_results {T}.
Record netboxStatus := mkNetboxStatus { nt_value : bytes; nt_label : bytes }.
Record netboxVLAN := mkNetboxVLAN { nv_vid : Z; nv_name : bytes }.
Record netboxNamed := mkNetboxNamed { nn_name : bytes }.
Record netboxPrefix := mkNetboxPrefix {
  nx_prefix : bytes; nx_description : bytes; nx_status : netboxStatus; nx_vlan : option netboxVLAN; nx_role : option netboxNamed;
  nx_site : option netboxNamed; nx_tenant : option netboxNamed; nx_vrf : option netboxNamed; nx_custom_field : gmap bytes json
}.
Record netboxIPAddress := mkNetboxIPAddress { na_address : bytes; na_dns_name : bytes; na_description : bytes; na_status : netboxStatus }.

Definition netbox_request (token url : bytes) : api_request :=
  mkApiRequest url ((bs "Accept", bs "application/json") ::
                    if bool_decide (token = []) then [] else [(bs "Authorization", bs "Token " ++ token)]).
(** One turn of [fetchNetBoxPaginated]: the page that a request gives. *)
Definition netbox_page {T} `{JsonDecoder (netboxPage T)} (answer : result http_answer) : result (netboxPage T) :=
  res ← answer;
  if success res then '(page, _) ← json_decode (T := netboxPage T) (ha_body res); Ok page
  else Err (Errorf "netbox api request failed: %s" [FB (ha_status_text res)]).
Definition next_url {T} (page : netboxPage T) : bytes := match pg_next page with Some next => trim_space next | None => [] end.
Fixpoint fetch_netbox_paginated {T} `{JsonDecoder (netboxPage T)} (token url : bytes) (net : network) (out : list T)
    : network * result (list T) :=
  if bool_decide (url = []) then (net, Ok out)
  else
    match net with
    | [] => ([], Err (errorNew "context canceled"))
    | answer :: net =>
        match netbox_page (answer (netbox_request token url)) with
        | Ok page => fetch_netbox_paginated token (next_url page) net (out ++ pg_results page)
        | Err e => (net, Err e)
        | Panic m => (net, Panic m)
        end
    end.

Definition named_text (n : option netboxNamed) : bytes := match n with Some n => trim_space (nn_name n) | None => [] end.
Definition build_netbox_subnet_import (item : netboxPrefix) : result (UpsertSubnetInput * prefix * list bytes) :=
  match parse_prefix (trim_space (nx_prefix item)) with
  | Ok p =>
      let text := prefix_string p in
      let name := trim_space (nx_description item) in
      let name := if bool_decide (name = []) then named_text (nx_role item) else name in
      let site := named_text (nx_site item) in
      let name := if bool_decide (name = []) && negb (bool_decide (site = [])) then site ++ byte_of_Z 32 :: text else name in
      let name := if bool_decide (name = []) then text else name in
      let vlan := match nx_vlan item with Some v => nv_vid v | None => 0 end in
      let warnings := if is6 (p_addr p) then [bs "netbox prefix " ++ text ++ bs " imported as IPv6 subnet without DHCP pool"] else [] in
      Ok (mkUpsertSubnetInput text name vlan [] [] false [] [] 0, p, warnings)
  | _ => Err (Errorf "invalid prefix %q: %w" [FB (nx_prefix item)])
  end.

(** The loop of [longestContainingPrefix]: the best so far with its length. *)
Definition longer_prefix (a : addr) (best : Z * bytes) (p : prefix) : Z * bytes :=
  if prefix_contains p a && (best.1 <? p_bits p) then (p_bits p, prefix_string p) else best.
Definition longest_containing_prefix (a : addr) (prefixes : list prefix) : bytes := (foldl (longer_prefix a) (-1, []) prefixes).2.

Section netbox.
Context `{UnicodeTables} `{SliceSort} `{TimeParse} `{GoQuote} `{Json Subnet} `{Json Reservation} `{Json AddressRecord}.
Context {S : Type} `{LeaseStore S}.
Context `{JsonDecoder (netboxPage netboxPrefix)} `{JsonDecoder (netboxPage netboxIPAddress)}.

Definition map_netbox_status (value : bytes) : bytes :=
  let value := to_lower (trim_space value) in
  if bool_decide (value = bs "dhcp") then IPStateDHCP
  else if bool_decide (value = bs "deprecated") then IPStateQuarantined
  else if bool_decide (value ∈ map bs ["reserved"; "active"; "slaac"]%string) then IPStateReserved
  else IPStateAvailable.

(** The source of an address: the product, and the description if there is one. *)
Definition source_name (product : string) (description : bytes) : bytes :=
  if has_text description then bs product ++ byte_of_Z 58 :: trim_space description else bs product.
(** A text, or the one that stands in for it. *)
Definition text_or (s other : bytes) : bytes := if bool_decide (trim_space s = []) then trim_space other else trim_space s.

Definition build_netbox_address_import (item : netboxIPAddress) (prefixes : list prefix) : result UpsertAddressInput :=
  match parse_prefix (trim_space (na_address item)) with
  | Ok p =>
      let best := longest_containing_prefix (p_addr p) prefixes in
      Ok (mkUpsertAddressInput (addr_string (p_addr p)) (if bool_decide (best = []) then prefix_string p else best)
            (map_netbox_status (nt_value (na_status item))) [] (text_or (na_dns_name item) (na_description item))
            (source_name "netbox" (na_description item)) 0)
  | _ => Err (Errorf "invalid netbox address %q: %w" [FB (na_address item)])
  end.

(** A subnet of an inventory, which is there already, is written, or fails; [imported]
    collects what is in the store then. *)
Definition put_imported {A : Type} (o : run_options) (env : MigrateEnv) (row : nat) (rn : Runner (S := S)) (payload : UpsertSubnetInput)
    (imported new : A) : (Runner * A) * row_outcome :=
  if skips o (get_subnet (rn_ipam rn) (us_cidr payload)) then ((rn, new), RowSkipped)
  else
    let '(e, res) := put_subnet_row o env row 0 (rn_ipam rn) payload in
    ((rn <| rn_ipam := e |>, if exists_ok res then new else imported), row_of res).
Definition netbox_prefix_row (o : run_options) (env : MigrateEnv) (row : nat) (st : Runner (S := S) * list prefix) (item : netboxPrefix)
    : (Runner * list prefix) * row_outcome :=
  match build_netbox_subnet_import item with
  | Ok (payload, p, _) => put_imported o env row st.1 payload st.2 (st.2 ++ [p])
  | Err e => (st, RowFailed (error_text e))
  | Panic m => (st, RowFailed (bs m))
  end.
Definition netbox_warnings (item : netboxPrefix) : list bytes :=
  match build_netbox_subnet_import item with Ok (_, _, w) => w | _ => [] end.
Definition import_netbox_prefixes (o : run_options) (env : MigrateEnv) (api_url : bytes) (prefixes : list netboxPrefix) (rn : Runner (S := S))
    : Runner * FileReport * list bytes * list prefix * option error :=
  let '((rn, imported), report) := import_rows env 1 (netbox_prefix_row o env) 0 prefixes (rn, [])
                                     (new_report "netbox_prefixes" api_url (zlen prefixes)) in
  (rn, report, concat (netbox_warnings <$> reached env prefixes), imported,
   row_errors report "netbox prefix import reported %d row errors").

(** An address with its subnet: skipped, written, or failed. *)
Definition address_row (o : run_options) (env : MigrateEnv) (row : nat) (rn : Runner (S := S)) (payload : result UpsertAddressInput)
    : Runner * row_outcome :=
  match payload with
  | Ok payload =>
      if skips o (get_stored_address (rn_ipam rn) (ua_ip payload)) then (rn, RowSkipped)
      else let '(e, res) := put_address_row o env row 0 (rn_ipam rn) payload in (rn <| rn_ipam := e |>, row_of res)
  | Err e => (rn, RowFailed (error_text e))
  | Panic m => (rn, RowFailed (bs m))
  end.
Definition import_netbox_addresses (o : run_options) (env : MigrateEnv) (api_url : bytes) (addresses : list netboxIPAddress)
    (prefixes : list prefix) (rn : Runner (S := S)) : Runner * FileReport * option error :=
  let '(rn, report) := import_rows env 1 (λ row rn item, address_row o env row rn (build_netbox_address_import item prefixes)) 0 addresses rn
                         (new_report "netbox_ip_addresses" api_url (zlen addresses)) in
  (rn, report, row_errors report "netbox address import reported %d row errors").

Definition run_netbox (o : run_options) (envs : string → MigrateEnv) (net : network) (api_url api_token : bytes) (rn : Runner (S := S))
    : Runner * source_report :=
  let base := api_base api_url in
  let token := trim_space api_token in
  let fail rn files warnings e := (rn, mkSourceReport files warnings (Some e)) in
  if bool_decide (base = []) then fail rn [] [] (errorNew "netbox migration requires --api-url")
  else
    match fetch_netbox_paginated (T := netboxPrefix) token (base ++ bs "/api/ipam/prefixes/") net [] with
    | (net, Ok prefixes) =>
        let '(rn, report, warnings, imported, err) := import_netbox_prefixes o (envs "prefixes"%string) api_url prefixes rn in
        match err with
        | Some e => fail rn [report] warnings e
        | None =>
            match fetch_netbox_paginated (T := netboxIPAddress) token (base ++ bs "/api/ipam/ip-addresses/") net [] with
            | (_, Ok addresses) =>
                let '(rn, report2, err) := import_netbox_addresses o (envs "addresses"%string) api_url addresses imported rn in
                (rn, mkSourceReport [report; report2] warnings err)
            | (_, Err e) => fail rn [report] warnings e
            | (_, Panic m) => fail rn [report] warnings (ErrIO m)
            end
        end
    | (_, Err e) => fail rn [] [] e
    | (_, Panic m) => fail rn [] [] (ErrIO m)
    end.
End netbox.

(** * phpIPAM *)

(** A value of any JSON type: what the code tells apart of it. *)
Inductive any_number :=
  | AnyString (s : bytes)
  | AnyFloat (f : spec_float)
  | AnyInt (z : Z)
  | AnyJSONNumber (text : bytes)
  | AnyOther (type_name : bytes).

Record phpipamEnvelope (T : Type) := mkEnvelope { pe_code : Z; pe_success : bool; pe_data : T }.
Arguments mkEnvelope {T}. Arguments pe_code {T}. Arguments pe_success {T}. Arguments pe_data {T}.
Record phpipamSection := mkPhpipamSection { ps_id : bytes; ps_name : bytes; ps_description : bytes }.
Record phpipamSubnet := mkPhpipamSubnet {
  pn_id : bytes; pn_subnet : any_number; pn_mask : any_number; pn_description : bytes; pn_section_id : bytes;
  pn_master_subnet_id : bytes; pn_vlan_id : bytes
}.
Record phpipamAddress := mkPhpipamAddress {
  pa_id : bytes; pa_subnet_id : bytes; pa_ip_address : any_number; pa_hostname : bytes; pa_description : bytes; pa_mac : bytes;
  pa_tag : any_number
}.
Record phpipamVLAN := mkPhpipamVLAN { pv_id : bytes; pv_number : any_number; pv_name : bytes; pv_description : bytes }.
Record phpipamTag := mkPhpipamTag { pt_id : bytes; pt_type : bytes; pt_name : bytes }.

(** [int(f)]; a value outside of the range is the least integer, as on amd64. *)
Definition float_to_int (f : spec_float) : Z :=
  match f with
  | S754_zero _ => 0
  | S754_finite _ _ _ => if (- 2 ^ 63 <=? float_trunc f) && (float_trunc f <? 2 ^ 63) then float_trunc f else - 2 ^ 63
  | _ => - 2 ^ 63
  end.
(** [math.Trunc(f) == f] *)
Definition is_integral (f : spec_float) : bool :=
  match f with
  | S754_finite _ m e => (0 <=? e) || (Z.pos m mod 2 ^ (- e) =? 0)
  | S754_nan => false
  | _ => true
  end.

Definition uint32_to_addr (z : Z) : addr := A4 (be_put 4 z).
(** An address from a number in the range of IPv4. *)
Definition number_addr (z : Z) : result addr :=
  if (z <? 0) || (max_u32 <? z) then Err (errorNew "ipv4 numeric value out of range") else Ok (uint32_to_addr z).
(** [strconv.ParseUint(s, 10, 32)] *)
Definition parse_uint32 (s : bytes) : option Z := n ← parse_dec s; if n <=? max_u32 then Some n else None.

Definition parse_phpipam_ipv4 (value : any_number) : result addr :=
  match value with
  | AnyString s =>
      let trimmed := trim_space s in
      if bool_decide (trimmed = []) then Err (errorNew "empty ipv4 value")
      else
        match to4 (parse_ip trimmed) with
        | [] => match parse_uint32 trimmed with
                | Some z => Ok (uint32_to_addr z)
                | None => Err (Errorf "strconv.ParseUint: parsing %s" [FB trimmed])
                end
        | ip => Ok (A4 ip)
        end
  | AnyFloat f =>
      if SFltb f (S754_zero false) || SFltb (to_float max_u32) f || negb (is_integral f)
      then Err (errorNew "ipv4 numeric value out of range") else Ok (uint32_to_addr (u32 (float_trunc f)))
  | AnyInt z => number_addr z
  | AnyJSONNumber text =>
      match parse_int text with Some z => number_addr z | None => Err (Errorf "strconv.ParseInt: parsing %s" [FB text]) end
  | AnyOther kind => Err (Errorf "unsupported ipv4 value type %s" [FB kind])
  end.
Definition parse_phpipam_int (value : any_number) : result Z :=
  match value with
  | AnyString s => match parse_int (trim_space s) with
                   | Some z => Ok z
                   | None => Err (Errorf "strconv.Atoi: parsing %s" [FB (trim_space s)])
                   end
  | AnyFloat f => Ok (float_to_int f)
  | AnyInt z => Ok z
  | AnyJSONNumber text => match parse_int text with Some z => Ok z | None => Err (Errorf "strconv.ParseInt: parsing %s" [FB text]) end
  | AnyOther kind => Err (Errorf "unsupported int value type %s" [FB kind])
  end.
Definition any_to_string (value : any_number) : bytes :=
  match value with
  | AnyString s => s
  | AnyFloat f => fmt_d (float_to_int f)
  | AnyInt z => fmt_d z
  | AnyJSONNumber text => text
  | AnyOther _ => []
  end.

(** A map by the trimmed identifiers: the last of equal ones. *)
Definition index_by {A B : Type} (id : A → bytes) (f : A → B) (l : list A) : gmap bytes B :=
  foldl (λ m a, <[trim_space (id a) := f a]> m) ∅ l.
Definition no_section : phpipamSection := mkPhpipamSection [] [] [].
Definition no_vlan : phpipamVLAN := mkPhpipamVLAN [] (AnyOther (bs "<nil>")) [] [].

Definition build_phpipam_subnet_import (item : phpipamSubnet) (section : phpipamSection) (vlan : phpipamVLAN)
    : result (UpsertSubnetInput * bytes) :=
  match parse_phpipam_ipv4 (pn_subnet item) with
  | Ok a =>
      match parse_phpipam_int (pn_mask item) with
      | Ok mask =>
          if (mask <? 0) || (32 <? mask) then Err (Errorf "invalid phpipam mask: %d" [FZ mask])
          else
            let cidr := prefix_string (prefix_masked (mkPrefix a mask)) in
            let name := trim_space (pn_description item) in
            let name := if bool_decide (name = []) then trim_space (ps_name section) else name in
            let name := if bool_decide (name = []) then cidr else name in
            let vlan_id := match parse_phpipam_int (pv_number vlan) with Ok z => z | _ => 0 end in
            Ok (mkUpsertSubnetInput cidr name vlan_id [] [] false [] [] 0, cidr)
      | Err e => Err (Errorf "invalid phpipam mask: %s" [FB (error_text e)])
      | Panic m => Panic m
      end
  | Err e => Err (Errorf "invalid phpipam subnet: %s" [FB (error_text e)])
  | Panic m => Panic m
  end.

Definition phpipam_request (token url : bytes) : api_request :=
  mkApiRequest url [(bs "Accept", bs "application/json"); (bs "token", token); (bs "phpipam-token", token)].
(** [phpipamGET] *)
Definition phpipam_get {T} `{JsonDecoder (phpipamEnvelope T)} (token url : bytes) (net : network) : network * result T :=
  match net with
  | [] => ([], Err (errorNew "context canceled"))
  | answer :: net =>
      (net,
       res ← answer (phpipam_request token url);
       if negb (success res) then Err (Errorf "phpipam api request failed: %s" [FB (ha_status_text res)])
       else
         '(envelope, _) ← json_decode (T := phpipamEnvelope T) (ha_body res);
         if negb (pe_success envelope) && negb (bool_decide (pe_code envelope = 200))
         then Err (Errorf "phpipam api request failed with code %d" [FZ (pe_code envelope)])
         else Ok (pe_data envelope))
  end.

Section phpipam.
Context `{UnicodeTables} `{SliceSort} `{TimeParse} `{GoQuote} `{Json Subnet} `{Json Reservation} `{Json AddressRecord}.
Context {S : Type} `{LeaseStore S}.
Context `{JsonDecoder (phpipamEnvelope (list phpipamSection))} `{JsonDecoder (phpipamEnvelope (list phpipamSubnet))}
  `{JsonDecoder (phpipamEnvelope (list phpipamAddress))} `{JsonDecoder (phpipamEnvelope (list phpipamVLAN))}
  `{JsonDecoder (phpipamEnvelope (list phpipamTag))}.

Definition map_phpipam_tag (label : bytes) : bytes :=
  let label := to_lower (trim_space label) in
  if bool_decide (label ∈ map bs ["offline"; "reserved"]%string) then IPStateReserved
  else if bool_decide (label ∈ map bs ["used"; "active"]%string) then IPStateDHCP
  else if bool_decide (label = bs "deprecated") then IPStateQuarantined
  else IPStateAvailable.
Definition tag_label (tag : phpipamTag) : bytes := to_lower (text_or (pt_type tag) (pt_name tag)).

Definition build_phpipam_address_import (item : phpipamAddress) (subnet_index tags : gmap bytes bytes) : result UpsertAddressInput :=
  match parse_phpipam_ipv4 (pa_ip_address item) with
  | Ok a =>
      let cidr := trim_space (default [] (subnet_index !! trim_space (pa_subnet_id item))) in
      if bool_decide (cidr = []) then Err (Errorf "unknown phpipam subnet id %s" [FB (pa_subnet_id item)])
      else
        Ok (mkUpsertAddressInput (addr_string a) cidr
              (map_phpipam_tag (default [] (tags !! trim_space (any_to_string (pa_tag item))))) (trim_space (pa_mac item))
              (text_or (pa_hostname item) (pa_description item)) (source_name "phpipam" (pa_description item)) 0)
  | Err e => Err (Errorf "invalid phpipam address: %s" [FB (error_text e)])
  | Panic m => Panic m
  end.

(** The index of the subnets has a subnet whatever becomes of its row. *)
Definition phpipam_subnet_row (sections : gmap bytes phpipamSection) (vlans : gmap bytes phpipamVLAN) (o : run_options) (env : MigrateEnv)
    (row : nat) (st : Runner (S := S) * gmap bytes bytes) (item : phpipamSubnet) : (Runner * gmap bytes bytes) * row_outcome :=
  match build_phpipam_subnet_import item (default no_section (sections !! pn_section_id item)) (default no_vlan (vlans !! pn_vlan_id item)) with
  | Ok (payload, cidr) =>
      let index := <[trim_space (pn_id item) := cidr]> st.2 in put_imported o env row st.1 payload index index
  | Err e => (st, RowFailed (error_text e))
  | Panic m => (st, RowFailed (bs m))
  end.
Definition import_phpipam_subnets (o : run_options) (env : MigrateEnv) (api_url : bytes) (sections : list phpipamSection)
    (subnets : list phpipamSubnet) (vlans : list phpipamVLAN) (rn : Runner (S := S))
    : Runner * FileReport * gmap bytes bytes * option error :=
  let step := phpipam_subnet_row (index_by ps_id (λ s, s) sections) (index_by pv_id (λ v, v) vlans) o env in
  let '((rn, index), report) := import_rows env 1 step 0 subnets (rn, ∅) (new_report "phpipam_subnets" api_url (zlen subnets)) in
  (rn, report, index, row_errors report "phpipam subnet import reported %d row errors").
Definition import_phpipam_addresses (o : run_options) (env : MigrateEnv) (api_url : bytes) (addresses : list phpipamAddress)
    (index : gmap bytes bytes) (tags : list phpipamTag) (rn : Runner (S := S)) : Runner * FileReport * option error :=
  let labels := index_by pt_id tag_label tags in
  let '(rn, report) := import_rows env 1 (λ row rn item, address_row o env row rn (build_phpipam_address_import item index labels)) 0
                         addresses rn (new_report "phpipam_addresses" api_url (zlen addresses)) in
  (rn, report, row_errors report "phpipam address import reported %d row errors").

Definition fetch_vlans (token base : bytes) (net : network) : network * result (list phpipamVLAN) :=
  match phpipam_get (T := list phpipamVLAN) token (base ++ bs "/vlan/") net with
  | (net, Ok vlans) => (net, Ok vlans)
  | (net, _) => phpipam_get (T := list phpipamVLAN) token (base ++ bs "/tools/vlans/") net
  end.
(** What a run asks for, in the order of [runPHPIPAM]. *)
Definition fetch_phpipam (token base : bytes) (net : network)
    : result (list phpipamSection * list phpipamSubnet * list phpipamVLAN * list phpipamTag * list phpipamAddress) :=
  let '(net, sections) := phpipam_get (T := list phpipamSection) token (base ++ bs "/sections/") net in
  sections ← sections;
  let '(net, subnets) := phpipam_get (T := list phpipamSubnet) token (base ++ bs "/subnets/") net in
  subnets ← subnets;
  let '(net, vlans) := fetch_vlans token base net in
  vlans ← vlans;
  let '(net, tags) := phpipam_get (T := list phpipamTag) token (base ++ bs "/addresses/tags/") net in
  tags ← tags;
  let '(net, addresses) := phpipam_get (T := list phpipamAddress) token (base ++ bs "/addresses/all/") net in
  addresses ← addresses;
  Ok (sections, subnets, vlans, tags, addresses).

Definition run_phpipam (o : run_options) (envs : string → MigrateEnv) (net : network) (api_url api_token : bytes) (rn : Runner (S := S))
    : Runner * source_report :=
  let base := api_base api_url in
  let token := trim_space api_token in
  let fail e := (rn, mkSourceReport [] [] (Some e)) in
  if bool_decide (base = []) then fail (errorNew "phpipam migration requires --api-url")
  else if bool_decide (token = []) then fail (errorNew "phpipam migration requires --api-token")
  else
    match fetch_phpipam token base net with
    | Ok (sections, subnets, vlans, tags, addresses) =>
        let '(rn, report, index, err) := import_phpipam_subnets o (envs "subnets"%string) api_url sections subnets vlans rn in
        match err with
        | Some e => (rn, mkSourceReport [report] [] (Some e))
        | None =>
            let '(rn, report2, err) := import_phpipam_addresses o (envs "addresses"%string) api_url addresses index tags rn in
            (rn, mkSourceReport [report; report2] [] err)
        end
    | Err e => fail e
    | Panic m => fail (ErrIO m)
    end.
End phpipam.

(** * The run *)

Section runs.
Context `{UnicodeTables} `{SliceSort} `{TimeParse} `{GoQuote} `{Json Subnet} `{Json Reservation} `{Json AddressRecord}.
Context {S : Type} `{LeaseStore S} `{CsvReader}.
Context `{JsonUnmarshal keaConfigFile} `{JsonUnmarshal bytes} `{JsonUnmarshal keaPool}.
Context `{JsonDecoder (netboxPage netboxPrefix)} `{JsonDecoder (netboxPage netboxIPAddress)}.
Context `{JsonDecoder (phpipamEnvelope (list phpipamSection))} `{JsonDecoder (phpipamEnvelope (list phpipamSubnet))}
  `{JsonDecoder (phpipamEnvelope (list phpipamAddress))} `{JsonDecoder (phpipamEnvelope (list phpipamVLAN))}
  `{JsonDecoder (phpipamEnvelope (list phpipamTag))}.
#[local] Abbreviation Runner := (Runner (S := S)).
#[local] Abbreviation MigrateEnv := (MigrateEnv (S := S)).

Record Options := mkOptions {
  mo_source : bytes; mo_dry_run : bool; mo_conflict_policy : bytes; mo_source_config : bytes; mo_api_url : bytes;
  mo_api_token : bytes; mo_csv : CSVOptions
}.
Record Report := mkReport { rp_source : bytes; rp_dry_run : bool; rp_files : list FileReport; rp_warnings : list bytes }.

Definition run_source (opts : Options) : bytes :=
  let source := to_lower (trim_space (mo_source opts)) in
  let c := mo_csv opts in
  let source := if bool_decide (source = []) &&
                   negb (bool_decide (cv_subnets_path c = [] ∧ cv_addresses_path c = [] ∧ cv_reservations_path c = [] ∧ cv_leases_path c = []))
                then bs "csv" else source in
  let source := if bool_decide (source = []) && has_text (mo_source_config opts) then bs "kea" else source in
  if bool_decide (source = []) && has_text (mo_api_url opts) then bs "netbox" else source.

Definition count_row_errors (files : list FileReport) : Z := foldr (λ f n, zlen (fr_errors f) + n) 0 files.
(** The report of a source, with an error when a row failed. *)
Definition finish (source : bytes) (dry : bool) (so : source_report) : Report * option error :=
  (mkReport source dry (so_files so) (so_warnings so),
   match so_error so with
   | Some e => Some e
   | None => if 0 <? count_row_errors (so_files so)
             then Some (Errorf "migration completed with %d row errors" [FZ (count_row_errors (so_files so))]) else None
   end).

(** The sources by their names. *)
Definition source_of (source : bytes) (envs : string → MigrateEnv) (read_file : bytes → result bytes) (net : network) (opts : Options)
    (o : run_options) : option (Runner → Runner * source_report) :=
  if bool_decide (source = bs "csv") then Some (run_csv o envs read_file (mo_csv opts))
  else if bool_decide (source = bs "isc-dhcp")
  then Some (run_isc_dhcp o (envs "config"%string) (envs "leases"%string) (mo_source_config opts) (cv_leases_path (mo_csv opts)) read_file)
  else if bool_decide (source = bs "netbox") then Some (run_netbox o envs net (mo_api_url opts) (mo_api_token opts))
  else if bool_decide (source = bs "phpipam") then Some (run_phpipam o envs net (mo_api_url opts) (mo_api_token opts))
  else if bool_decide (source = bs "kea")
  then Some (run_kea o envs read_file (mo_source_config opts) (cv_leases_path (mo_csv opts)))
  else None.
Definition run (envs : string → MigrateEnv) (read_file : bytes → result bytes) (net : network) (opts : Options) (rn : Runner)
    : Runner * Report * option error :=
  let source := run_source opts in
  let policy := to_lower (trim_space (mo_conflict_policy opts)) in
  let policy := if bool_decide (policy = []) then ConflictOverwrite else policy in
  let dry := mo_dry_run opts in
  let refused e := (rn, mkReport source dry [] [], Some e) in
  if negb (bool_decide (policy = ConflictOverwrite ∨ policy = ConflictSkip))
  then refused (Errorf "invalid conflict policy: %s" [FB (mo_conflict_policy opts)])
  else
    match source_of source envs read_file net opts (mkRunOptions dry policy) with
    | None => refused (Errorf "unsupported migration source: %s" [FB (mo_source opts)])
    | Some f => let '(rn, so) := f rn in let '(report, err) := finish source dry so in (rn, report, err)
    end.

(** * A dry run *)

(** Steps that leave a part of the state as it is. *)
Lemma import_rows_keep {X T A : Type} (f : X → A) (env : MigrateEnv) first (step : nat → X → T → X * row_outcome) :
  (∀ n x t, f (step n x t).1 = f x) → ∀ row rows x report, f (import_rows env first step row rows x report).1 = f x.
Proof.
  intros Hs row rows. revert row. induction rows as [|t rows IH]; intros row x report; cbn; [done|].
  destruct (mg_cancelled env row); [done|]. specialize (Hs row x t). destruct (step row x t) as [x' out].
  by rewrite IH.
Qed.

Section dry.
Context (o : run_options) (Ho : op_dry_run o = true).

Lemma apply_write_dry {T : Type} (c : result T) w e : (apply_write o c w e).1 = e.
Proof. unfold apply_write. by rewrite Ho. Qed.
Lemma import_reservations_dry env row n e rs : (import_reservations o env row n e rs).1 = e.
Proof.
  revert n. induction rs as [|r rs IH]; intros n; cbn; [done|]. unfold put_reservation_row, apply_write. rewrite Ho.
  destruct (validate_reservation _ _ _); cbn; [apply IH|done..].
Qed.
Lemma put_lease_dry env row rn l : (put_lease_row o env row rn l).1 = rn.
Proof. unfold put_lease_row. by rewrite Ho. Qed.
Lemma with_ipam_same (rn : Runner) : rn <| rn_ipam := rn_ipam rn |> = rn.
Proof. by destruct rn. Qed.

Ltac dry_row :=
  repeat case_match; try done; simplify_eq; cbn [fst]; try apply put_lease_dry;
  repeat match goal with
         | E : put_subnet_row _ _ _ _ _ _ = _ |- _ => apply (f_equal fst) in E; unfold put_subnet_row in E; rewrite apply_write_dry in E; cbn in E
         | E : put_address_row _ _ _ _ _ _ = _ |- _ => apply (f_equal fst) in E; unfold put_address_row in E; rewrite apply_write_dry in E; cbn in E
         | E : put_reservation_row _ _ _ _ _ _ = _ |- _ => apply (f_equal fst) in E; unfold put_reservation_row in E; rewrite apply_write_dry in E; cbn in E
         | E : import_reservations _ _ _ _ _ _ = _ |- _ => apply (f_equal fst) in E; rewrite import_reservations_dry in E; cbn in E
         end; subst; by rewrite ?with_ipam_same.

Lemma isc_subnet_dry env n rn s : (isc_subnet_row o env n rn s).1 = rn.
Proof. unfold isc_subnet_row. dry_row. Qed.
Lemma isc_lease_dry env n rn s : (isc_lease_row o env n rn s).1 = rn.
Proof. unfold isc_lease_row. dry_row. Qed.
Lemma csv_rows_dry envs opts f : f ∈ csv_files o envs opts → ∀ n rn row, (f.2 n rn row).1 = rn.
Proof.
  unfold csv_files. rewrite !elem_of_cons. intros [->|[->|[->|[->|[]%elem_of_nil]]]] n rn row; cbn [snd];
    unfold import_subnet_row, import_address_row, import_reservation_row, import_lease_row; dry_row.
Qed.

(** The rows of a file, when no step changes the part [f] of the state. *)
Ltac rows_kept f Hs :=
  match goal with
  | |- context [import_rows ?env ?first ?step ?row ?rows ?x ?report] =>
      let E := fresh in
      pose proof (import_rows_keep f env first step Hs row rows x report) as E;
      destruct (import_rows env first step row rows x report) as [? ?]; cbn in E
  end.

Lemma import_csv_file_dry env kind path raw importer rn :
  (∀ n rn row, (importer n rn row).1 = rn) → (import_csv_file env kind path raw importer rn).1.1 = rn.
Proof.
  intros Hs. unfold import_csv_file. destruct (read_csv_rows raw); [|done..]. by rows_kept (λ x : Runner, x) Hs.
Qed.
Lemma run_csv_dry envs read_file opts rn : (run_csv o envs read_file opts rn).1 = rn.
Proof.
  unfold run_csv. set (files := filter _ _).
  assert (Hf : Forall (λ f : string * bytes * (nat → Runner → gmap bytes bytes → Runner * row_outcome), ∀ n rn row, (f.2 n rn row).1 = rn) files).
  { apply Forall_forall. intros f [_ Hf]%list_elem_of_filter. by eapply csv_rows_dry. }
  generalize (mkSourceReport [] [] None) as report. revert Hf. generalize (bool_decide (files = [])) as none.
  induction files as [|f files IH]; intros none Hf report; [done|]. cbn [foldl]. rewrite Forall_cons in Hf. destruct Hf as [Hf Hfs].
  pose proof (import_csv_file_dry (envs f.1.1) f.1.1 f.1.2 (read_file f.1.2) f.2 rn Hf) as E.
  destruct (import_csv_file _ _ _ _ _ _) as [[rn' file] err]. cbn in E. subst rn'. by apply IH.
Qed.

Lemma import_isc_config_dry env path raw rn : (import_isc_dhcp_config o env path raw rn).1.1.1.1 = rn.
Proof.
  unfold import_isc_dhcp_config. destruct raw as [raw| |]; [|done..]. destruct (parse_isc_dhcp_config raw) as [d| |]; [|done..].
  by rows_kept (λ x : Runner, x) (isc_subnet_dry env).
Qed.
Lemma import_isc_leases_dry env path raw config rn : (import_isc_dhcp_leases o env path raw config rn).1.1 = rn.
Proof. unfold import_isc_dhcp_leases. destruct (raw ≫= _) as [records| |]; [|done..]. by rows_kept (λ x : Runner, x) (isc_lease_dry env). Qed.
Lemma run_isc_dry env1 env2 config_path leases_path read_file rn :
  (run_isc_dhcp o env1 env2 config_path leases_path read_file rn).1 = rn.
Proof.
  unfold run_isc_dhcp. case_bool_decide; [done|].
  pose proof (import_isc_config_dry env1 (trim_space config_path) (read_file (trim_space config_path)) rn) as E.
  destruct (import_isc_dhcp_config _ _ _ _ _) as [[[[rn' report] warnings] parsed] [e|]]; cbn in E; subst rn'; [done|].
  destruct (has_text leases_path); [|done].
  pose proof (import_isc_leases_dry env2 leases_path (read_file leases_path) parsed rn) as E.
  by destruct (import_isc_dhcp_leases _ _ _ _ _ _) as [[rn' ?] ?].
Qed.

Lemma kea_subnet_dry d env n rn s : (kea_subnet_row d o env n rn s).1 = rn.
Proof. unfold kea_subnet_row. dry_row. Qed.
Lemma import_kea_dry env path raw rn : (import_kea_config o env path raw rn).1.1.1 = rn.
Proof.
  unfold import_kea_config. destruct (raw ≫= _) as [parsed| |]; [|done..].
  by rows_kept (λ x : Runner, x) (kea_subnet_dry (kd_valid_lifetime (kc_dhcp4 parsed)) env).
Qed.
Lemma run_kea_dry envs read_file config_path leases_path rn : (run_kea o envs read_file config_path leases_path rn).1 = rn.
Proof.
  unfold run_kea. case_bool_decide; [done|].
  pose proof (import_kea_dry (envs "config"%string) (trim_space config_path) (read_file (trim_space config_path)) rn) as E.
  destruct (import_kea_config _ _ _ _ _) as [[[rn' report] warnings] [e|]]; cbn in E; subst rn'; [done|].
  destruct (has_text leases_path); [|done].
  assert (Hs : ∀ n rn row, (import_lease_row o (envs "leases"%string) n rn row).1 = rn) by (intros; unfold import_lease_row; dry_row).
  pose proof (import_csv_file_dry (envs "leases"%string) "kea_leases" leases_path (read_file leases_path) _ rn Hs) as E.
  by destruct (import_csv_file _ _ _ _ _ _) as [[rn' ?] ?].
Qed.

Lemma put_imported_dry {A : Type} env n rn payload (imported new : A) : (put_imported o env n rn payload imported new).1.1 = rn.
Proof. unfold put_imported. dry_row. Qed.
Lemma address_row_dry env n rn payload : (address_row o env n rn payload).1 = rn.
Proof. unfold address_row. dry_row. Qed.
Lemma netbox_prefix_dry env n st item : (netbox_prefix_row o env n st item).1.1 = st.1.
Proof. unfold netbox_prefix_row. destruct (build_netbox_subnet_import item) as [[[payload p] w]| |]; [apply put_imported_dry|done..]. Qed.
Lemma phpipam_subnet_dry sections vlans env n st item : (phpipam_subnet_row sections vlans o env n st item).1.1 = st.1.
Proof. unfold phpipam_subnet_row. destruct (build_phpipam_subnet_import _ _ _) as [[payload cidr]| |]; [apply put_imported_dry|done..]. Qed.

Lemma run_netbox_dry envs net api_url api_token rn : (run_netbox o envs net api_url api_token rn).1 = rn.
Proof.
  unfold run_netbox. case_bool_decide; [done|].
  destruct (fetch_netbox_paginated _ _ net _) as [net' [prefixes| |]]; [|done..].
  unfold import_netbox_prefixes. rows_kept (@fst Runner (list prefix)) (netbox_prefix_dry (envs "prefixes"%string)).
  destruct p as [rn' imported]. cbn in *. subst rn'. destruct (row_errors _ _); [done|].
  destruct (fetch_netbox_paginated _ _ net' _) as [net'' [addresses| |]]; [|done..].
  unfold import_netbox_addresses.
  by rows_kept (λ x : Runner, x) (λ n rn item, address_row_dry (envs "addresses"%string) n rn (build_netbox_address_import item imported)).
Qed.
Lemma run_phpipam_dry envs net api_url api_token rn : (run_phpipam o envs net api_url api_token rn).1 = rn.
Proof.
  unfold run_phpipam. do 2 (case_bool_decide; [done|]).
  destruct (fetch_phpipam _ _ net) as [[[[[sections subnets] vlans] tags] addresses]| |]; [|done..].
  unfold import_phpipam_subnets.
  rows_kept (@fst Runner (gmap bytes bytes)) (phpipam_subnet_dry (index_by ps_id (λ s, s) sections) (index_by pv_id (λ v, v) vlans) (envs "subnets"%string)).
  destruct p as [rn' index]. cbn in *. subst rn'. destruct (row_errors _ _); [done|].
  unfold import_phpipam_addresses.
  by rows_kept (λ x : Runner, x) (λ n rn item, address_row_dry (envs "addresses"%string) n rn (build_phpipam_address_import item index (index_by pt_id tag_label tags))).
Qed.

Lemma source_dry source envs read_file net opts f rn : source_of source envs read_file net opts o = Some f → (f rn).1 = rn.
Proof.
  unfold source_of. repeat case_bool_decide; intros [= <-].
  - apply run_csv_dry.
  - apply run_isc_dry.
  - apply run_netbox_dry.
  - apply run_phpipam_dry.
  - apply run_kea_dry.
Qed.
End dry.

(** C34: A dry run changes neither the addresses nor the leases, whatever the source, its
    options, the files, the answers of the network and the faults are. *)
Theorem dry_run_changes_nothing envs read_file net opts rn :
  mo_dry_run opts = true → (run envs read_file net opts rn).1.1 = rn.
Proof.
  intros Hd. unfold run. cbv zeta. rewrite Hd. destruct (negb _); [done|].
  destruct (source_of _ _ _ _ _ _) as [f|] eqn:E; [|done]. eapply source_dry with (rn := rn) in E; [|done].
  destruct (f rn) as [rn' so]. cbn in E. subst. by destruct (finish _ _ _).
Qed.
End runs.
