(* ===== verification/MigrateTheorems.v ===== *)
(** What the migrations promise: merged ranges are the union of the ranges, comments are
    taken out of a Kea configuration, pools become prefixes, every page is fetched; and
    runs of each source on small inputs, with what goes wrong in them. *)

From S2P Require Import Prelude.
From S2P Require Import GoBytes.
From S2P Require Import GoStrings.
From S2P Require Import GoNet.
From S2P Require Import GoNet6.
From S2P Require Import GoPrefix.
From S2P Require Import GoSort.
From S2P Require Import GoTime.
From S2P Require Import GoParse.
From S2P Require Import GoJson.
From S2P Require Import StorageTheorems.
From S2P Require Import Lease.
From S2P Require Import LeaseStore.
From S2P Require Import LeaseInterface.
From S2P Require Import LeaseTheorems.
From S2P Require Import Ipam.
From S2P Require Import IpamTheorems.
From S2P Require Import Metrics.
From S2P Require Import RestAuth.
From S2P Require Import IscConfig.
From S2P Require Import Migrate.
From S2P Require Import MigrateApi.

(** An IPv4 address, and a range of them that is not empty. *)
Definition v4 (a : addr) : Prop := match a with A4 x => length x = 4%nat | A6 _ _ => False end.
Definition v4_range (r : addr * addr) : Prop := v4 r.1 ∧ v4 r.2 ∧ addr_value r.1 ≤ addr_value r.2.
Definition in_range (r : addr * addr) (z : Z) : Prop := addr_value r.1 ≤ z ≤ addr_value r.2.

Lemma compare_v4 a b : v4 a → v4 b → addr_compare (Some a) (Some b) = (addr_value a ?= addr_value b).
Proof.
  destruct a as [x|], b as [y|]; try done. intros _ _. unfold addr_compare, addr_value. cbn.
  by destruct (be_get x ?= be_get y).
Qed.

(** * The exchange sort *)

Lemma exchange_pass_spec x rest :
  v4_range x → Forall v4_range rest →
  let '(m, rest') := exchange_pass x rest in
  m :: rest' ≡ₚ x :: rest ∧ Forall (λ y, addr_value m.1 ≤ addr_value y.1) rest' ∧ addr_value m.1 ≤ addr_value x.1.
Proof.
  revert x. induction rest as [|y rest IH]; intros x Hx; cbn [exchange_pass]; [done|].
  rewrite Forall_cons. intros [Hy Hr]. rewrite compare_v4 by (apply Hx || apply Hy).
  case_bool_decide as Hc.
  - rewrite Z.compare_lt_iff in Hc. pose proof (IH y Hy Hr) as Hs. destruct (exchange_pass y rest) as [m rest'].
    destruct Hs as (Hp & Hm & Hle). split_and!; [|constructor; [lia|done]|lia].
    rewrite (Permutation_swap x m). by rewrite Hp.
  - rewrite Z.compare_lt_iff in Hc. pose proof (IH x Hx Hr) as Hs. destruct (exchange_pass x rest) as [m rest'].
    destruct Hs as (Hp & Hm & Hle). split_and!; [|constructor; [lia|done]|lia].
    rewrite (Permutation_swap y m), Hp. apply Permutation_swap.
Qed.

Lemma exchange_sort_spec fuel items :
  length items = fuel → Forall v4_range items →
  exchange_sort fuel items ≡ₚ items ∧ StronglySorted (λ x y, addr_value x.1 ≤ addr_value y.1) (exchange_sort fuel items).
Proof.
  revert items. induction fuel as [|fuel IH]; intros items Hl Hf; [destruct items; [|done]; split; [done|constructor]|].
  destruct items as [|x rest]; [done|]. rewrite Forall_cons in Hf. destruct Hf as [Hx Hr]. cbn [exchange_sort].
  pose proof (exchange_pass_spec x rest Hx Hr) as Hs. destruct (exchange_pass x rest) as [m rest'].
  destruct Hs as (Hp & Hm & _).
  assert (Hf' : Forall v4_range (m :: rest')) by (rewrite Hp; by constructor). rewrite Forall_cons in Hf'. destruct Hf' as [_ Hr'].
  assert (Hl' : length rest' = fuel). { apply Permutation_length in Hp. cbn in *. lia. }
  destruct (IH rest' Hl' Hr') as [Hp' Hs']. split; [by rewrite Hp', Hp|].
  constructor; [done|]. by rewrite Hp'.
Qed.

(** * Joining *)

Lemma next_v4 a : v4 a →
  match addr_next a with
  | Some n => v4 n ∧ addr_value n = addr_value a + 1
  | None => addr_value a = 2 ^ 32 - 1
  end.
Proof.
  destruct a as [x|]; [|done]. cbn. intros Hx. unfold addr_value. cbn. pose proof (be_get_range x) as Hr. rewrite Hx in Hr.
  destruct (Z.eqb_spec (be_get x) (2 ^ 32 - 1)); [done|]. cbn. rewrite be_put_length, be_get_put_id; [done|].
  change (256 ^ Z.of_nat 4) with (2 ^ 32) in *. lia.
Qed.

Definition covered (items : list (addr * addr)) (z : Z) : Prop := ∃ r, r ∈ items ∧ in_range r z.
Lemma covered_cons r items z : covered (r :: items) z ↔ in_range r z ∨ covered items z.
Proof.
  unfold covered. split.
  - intros (r' & [->|Hr]%elem_of_cons & Hz); [by left|right; eauto].
  - intros [Hz|(r' & Hr & Hz)]; [exists r|exists r']; (split; [|done]); [by left|by right].
Qed.

(** The joined range is the union; a refusal has a gap, or follows the last address. *)
Lemma join_ranges_spec gap start end_ items :
  v4_range (start, end_) → Forall v4_range items → StronglySorted (λ x y, addr_value x.1 ≤ addr_value y.1) ((start, end_) :: items) →
  match join_ranges gap end_ items with
  | Ok e => v4 e ∧ ∀ z, in_range (start, e) z ↔ covered ((start, end_) :: items) z
  | Err _ => (∃ z r, ¬ covered ((start, end_) :: items) z ∧ addr_value start < z ∧ r ∈ items ∧ z < addr_value r.2) ∨
             covered ((start, end_) :: items) (2 ^ 32 - 1)
  | Panic _ => False
  end.
Proof.
  revert end_. induction items as [|[s e] items IH]; intros end_ Hr Hi Hs.
  { cbn. split; [apply Hr|]. intros z. rewrite covered_cons. unfold covered. set_solver. }
  cbn [join_ranges]. rewrite Forall_cons in Hi. destruct Hi as [Hse Hi].
  pose proof (next_v4 end_ (proj1 (proj2 Hr))) as Hn. apply StronglySorted_inv in Hs as [Hs Hle].
  rewrite Forall_cons in Hle. destruct Hle as [Hle Hles].
  destruct (addr_next end_) as [n|].
  2: { right. rewrite covered_cons. left. unfold in_range. cbn in *. destruct Hr as (?&?&?). cbn in *. lia. }
  destruct Hn as [Hn En]. destruct Hr as (Hv1 & Hv2 & Hv), Hse as (Hw1 & Hw2 & Hw). cbn in *.
  rewrite compare_v4 by done. rewrite compare_v4 by done.
  apply StronglySorted_inv in Hs as [Hs Hles'].
  case_bool_decide as Hg; rewrite Z.compare_gt_iff in Hg.
  - left. exists (addr_value end_ + 1), (s, e). split_and!; [|lia|by left|cbn; lia].
    intros (r & [->|[->|Hin]%elem_of_cons]%elem_of_cons & Hz); unfold in_range in Hz; cbn in *; [lia..|].
    rewrite Forall_forall in Hles'. specialize (Hles' r Hin). cbn in *. lia.
  - set (m := if bool_decide _ then e else end_).
    assert (v4 m ∧ addr_value m = Z.max (addr_value e) (addr_value end_)) as [Hm1 Hm2].
    { unfold m. case_bool_decide as Hc; rewrite Z.compare_gt_iff in Hc; split; try done; lia. }
    specialize (IH m). destruct (join_ranges gap m items) as [e'|er|].
    + destruct IH as [He IH]; [split_and!; cbn; try done; lia|done|by constructor|]. split; [done|]. intros z.
      rewrite IH, !covered_cons. unfold in_range. cbn. rewrite Hm2. split; [|naive_solver lia].
      intros [Hz|]; [|tauto]. destruct (decide (z ≤ addr_value end_)); [left; lia|right; left; lia].
    + assert (Heq : ∀ z, covered ((start, m) :: items) z ↔ covered ((start, end_) :: (s, e) :: items) z).
      { intros z. rewrite !covered_cons. unfold in_range. cbn. rewrite Hm2. split; [|naive_solver lia].
        intros [Hz|]; [|tauto]. destruct (decide (z ≤ addr_value end_)); [left; lia|right; left; lia]. }
      destruct IH as [(z & r & Hz & Hlt & Hin & Hzr)|H255]; [split_and!; cbn; try done; lia|done|by constructor|left|right].
      * exists z, r. rewrite <-Heq. split_and!; [done..|by right|done].
      * by rewrite <-Heq.
    + apply IH; [split_and!; cbn; try done; lia|done|by constructor].
Qed.

(** What merging ranges has to give. *)
Definition merged (items : list (addr * addr)) (res : result (option (addr * addr))) : Prop :=
  match res with
  | Ok (Some r) => ∀ z, in_range r z ↔ covered items z
  | Ok None => False
  | Err _ => (∃ z r r', ¬ covered items z ∧ r ∈ items ∧ r' ∈ items ∧ addr_value r.1 < z < addr_value r'.2) ∨ covered items (2 ^ 32 - 1)
  | Panic _ => False
  end.

(** Any order of the ranges by their starts gives it. *)
Lemma sorted_join gap items s e sorted :
  Forall v4_range items → (s, e) :: sorted ≡ₚ items → StronglySorted (λ x y, addr_value x.1 ≤ addr_value y.1) ((s, e) :: sorted) →
  merged items (e' ← join_ranges gap e sorted; Ok (Some (s, e'))).
Proof.
  intros Hf Hperm Hs. rewrite <-Hperm, Forall_cons in Hf. destruct Hf as [Hr Hf].
  assert (Hcov : ∀ z, covered ((s, e) :: sorted) z ↔ covered items z).
  { intros z. unfold covered. by setoid_rewrite Hperm. }
  pose proof (join_ranges_spec gap s e sorted Hr Hf Hs) as Hj. destruct (join_ranges gap e sorted) as [e'|er|]; cbn; [|..|done].
  - intros z. rewrite (proj2 Hj z). apply Hcov.
  - destruct Hj as [(z & r & Hz & Hlt & Hin & Hzr)|H255]; [left|right; by rewrite <-Hcov].
    exists z, (s, e), r. rewrite <-Hcov, <-Hperm. split_and!; [done|by left|by right|done|done].
Qed.

Lemma merge_ranges_exact ranges items :
  parse_ranges ranges = Ok items → Forall v4_range items → items ≠ [] → merged items (merge_ranges ranges).
Proof.
  intros Hp Hf Hne. unfold merge_ranges. rewrite Hp. cbn [mbind result_bind].
  destruct (exchange_sort_spec (length items) items eq_refl Hf) as [Hperm Hs].
  destruct (exchange_sort (length items) items) as [|[s e] sorted]; [by apply Permutation_nil in Hperm|].
  by apply sorted_join.
Qed.

(** The order of addresses, which sorts the pools of Kea. *)
Lemma addr_compare_lt_spec a b :
  addr_compare a b = Lt ↔
    addr_bits a < addr_bits b ∨
    addr_bits a = addr_bits b ∧ (addr_num a < addr_num b ∨ addr_num a = addr_num b ∧ bytes_lt (addr_zone a) (addr_zone b)).
Proof.
  unfold addr_compare, bytes_lt.
  destruct (Z.compare_spec (addr_bits a) (addr_bits b)); [destruct (Z.compare_spec (addr_num a) (addr_num b))|..]; split;
    intros; try done; try lia; intuition (try lia).
Qed.
Lemma starts_before_order : weak_order starts_before.
Proof.
  unfold starts_before. split.
  - intros x. apply bool_decide_eq_false_2. rewrite addr_compare_lt_spec. pose proof (bytes_lt_irrefl (addr_zone (Some x.1))). intuition lia.
  - intros x y z. rewrite !bool_decide_eq_true, !addr_compare_lt_spec. intros Hxy Hyz.
    pose proof (bytes_lt_trans (addr_zone (Some x.1)) (addr_zone (Some y.1)) (addr_zone (Some z.1))). intuition (auto with lia).
  - intros x y z. rewrite !bool_decide_eq_false, !addr_compare_lt_spec. intros Hxy Hyz Hxz.
    assert (¬ bytes_lt (addr_zone (Some y.1)) (addr_zone (Some x.1)) → ¬ bytes_lt (addr_zone (Some z.1)) (addr_zone (Some y.1)) →
            ¬ bytes_lt (addr_zone (Some z.1)) (addr_zone (Some x.1))).
    { rewrite !bytes_not_lt. intros. by etransitivity. }
    intuition (auto with lia).
Qed.
Lemma starts_sorted items :
  Forall v4_range items → StronglySorted (λ x y, starts_before y x = false) items →
  StronglySorted (λ x y, addr_value x.1 ≤ addr_value y.1) items.
Proof.
  induction items as [|x items IH]; intros Hf Hs; [constructor|]. rewrite Forall_cons in Hf. destruct Hf as [Hx Hf].
  apply StronglySorted_inv in Hs as [Hs Hle]. constructor; [by apply IH|]. rewrite Forall_forall in *. intros y Hy.
  specialize (Hle y Hy). unfold starts_before in Hle.
  rewrite bool_decide_eq_false, compare_v4, Z.compare_lt_iff in Hle by (apply (Hf y Hy) || apply Hx). lia.
Qed.

Lemma merge_pools_exact `{SliceSort} `{JsonUnmarshal bytes} `{JsonUnmarshal keaPool} raws items :
  kea_ranges raws = Ok items → Forall v4_range items → items ≠ [] → merged items (merge_kea_pools raws).
Proof.
  intros Hp Hf Hne. unfold merge_kea_pools. rewrite Hp. cbn [mbind result_bind].
  pose proof (sort_slice_perm starts_before items) as Hperm.
  assert (Hs : StronglySorted (λ x y, addr_value x.1 ≤ addr_value y.1) (sort_slice starts_before items)).
  { apply starts_sorted; [by rewrite Hperm|]. apply sort_slice_sorted, starts_before_order. }
  destruct (sort_slice starts_before items) as [|[s e] sorted]; [by apply Permutation_nil in Hperm|].
  by apply sorted_join.
Qed.

(** A pool that is a prefix has the addresses of the prefix. *)
Lemma last_ipv4_spec p : prefix_wf p → is4 (p_addr p) = true →
  ∃ a, last_ipv4_in_prefix p = Ok a ∧ v4 a ∧ addr_value a = first_value p + 2 ^ host_bits p - 1.
Proof.
  intros Hp H4. destruct (prefix_masked_spec p Hp) as ((Hm & _) & Hm4 & _ & _ & Hv & _). pose proof (first_value_range p Hp) as Hr.
  destruct Hp as (_ & _ & Hb). unfold last_ipv4_in_prefix.
  destruct (p_addr (prefix_masked p)) as [x|]; [|by rewrite H4 in Hm4]. cbn [as4 mbind result_bind].
  destruct (p_addr p) as [y|] eqn:Ey; [|done].
  assert (Hh : host_bits p = 32 - p_bits p) by (unfold host_bits; by rewrite Ey). cbn in Hb.
  assert (Emask : (if 32 <=? 32 - p_bits p then max_u32 else if 0 <? 32 - p_bits p then Z.shiftl 1 (32 - p_bits p) - 1 else 0) =
                  Z.ones (host_bits p)).
  { rewrite Z.ones_equiv, Hh. destruct (Z.leb_spec 32 (32 - p_bits p)).
    { by replace (32 - p_bits p) with 32 by lia. }
    destruct (Z.ltb_spec 0 (32 - p_bits p)); [rewrite Z.shiftl_mul_pow2; lia|]. by replace (32 - p_bits p) with 0 by lia. }
  rewrite Emask. unfold addr_value in Hv. cbn [as_slice] in Hv. rewrite Hv.
  assert (E : Z.lor (first_value p) (Z.ones (host_bits p)) = first_value p + Z.ones (host_bits p)).
  { rewrite <-(Z.add_lor_land (first_value p)), Z.land_ones by lia. unfold first_value. rewrite Z.mod_mul by (apply Z.pow_nonzero; lia). lia. }
  rewrite E, Z.ones_equiv. eexists. split; [done|]. cbn. rewrite be_put_length. split; [done|].
  unfold addr_value. cbn [as_slice]. rewrite be_get_put_id; [lia|].
  change (2 ^ bit_len (A4 y)) with (256 ^ Z.of_nat 4) in Hr.
  assert (0 < 2 ^ host_bits p) by (apply Z.pow_pos_nonneg; lia). lia.
Qed.
Lemma v4_is4 a : v4 a → is4 a = true ∧ unzoned a = true ∧ addr_wf a.
Proof. by destruct a. Qed.
Lemma prefix_pool_exact text p :
  index_byte (trim_space text) minus < 0 → parse_prefix (trim_space text) = Ok p → is4 (p_addr p) = true →
  ∃ r, parse_kea_pool text = Ok r ∧ v4_range r ∧ ∀ a, v4 a → in_range r (addr_value a) ↔ prefix_contains p a = true.
Proof.
  intros Hd Hp H4. pose proof (parse_prefix_wf _ _ Hp) as Hw. unfold parse_kea_pool.
  rewrite bool_decide_eq_false_2 by (by intros E; rewrite E in Hp). rewrite (proj2 (Z.leb_gt _ _)) by done. rewrite Hp.
  destruct (prefix_masked_spec p Hw) as ((Hm & _) & Hm4 & _ & _ & Hv & _). rewrite Hm4, H4.
  destruct (last_ipv4_spec p Hw H4) as (e & -> & He & Ee). cbn [mbind result_bind]. eexists. split; [done|].
  assert (0 < 2 ^ host_bits p) by (apply Z.pow_pos_nonneg; unfold host_bits; destruct Hw as (_ & _ & ?); lia).
  split; [split_and!; cbn [fst snd]; [by destruct (p_addr (prefix_masked p)); [|rewrite H4 in Hm4]|done|lia]|].
  intros a Ha. destruct (v4_is4 a Ha) as (Ha4 & Haz & Haw). rewrite prefix_interval by done. unfold in_range. cbn [fst snd].
  rewrite Hv, Ee, H4. intuition lia.
Qed.

(** C33: The merged range of a subnet is exactly the union of its ranges, for the ranges
    of ISC DHCP and for the pools of Kea, in whatever order they are; when they are
    refused, an address between two of them is in none, or one ends at
    255.255.255.255. *)
Theorem merged_ranges_exact `{SliceSort} `{JsonUnmarshal bytes} `{JsonUnmarshal keaPool} items :
  Forall v4_range items → items ≠ [] →
  (∀ ranges, parse_ranges ranges = Ok items → merged items (merge_ranges ranges)) ∧
  (∀ raws, kea_ranges raws = Ok items → merged items (merge_kea_pools raws)).
Proof. intros Hf Hne. split; intros; [by apply merge_ranges_exact|by apply merge_pools_exact]. Qed.

(** * Comments *)

(** The pieces of JSON with comments: text without quotes and slashes, a string of
    characters and escapes, and the two kinds of comment. *)
Inductive string_char := PlainChar (c : byte) | EscapedChar (c : byte).
Inductive piece := CodePiece (s : bytes) | StringPiece (s : list string_char) | LinePiece (s : bytes) | BlockPiece (s : bytes).

Definition char_bytes (c : string_char) : bytes := match c with PlainChar c => [c] | EscapedChar c => [backslash; c] end.
Definition char_ok (c : string_char) : Prop := match c with PlainChar c => c ≠ dquote ∧ c ≠ backslash | EscapedChar _ => True end.
(** The text closes a block comment. *)
Fixpoint closes (s : bytes) : bool :=
  match s with
  | c :: ((n :: _) as r) => bool_decide (c = star) && bool_decide (n = slash) || closes r
  | _ => false
  end.
Definition piece_ok (p : piece) : Prop :=
  match p with
  | CodePiece s => dquote ∉ s ∧ slash ∉ s
  | StringPiece s => Forall char_ok s
  | LinePiece s => newline ∉ s
  | BlockPiece s => closes s = false
  end.
Definition string_bytes (s : list string_char) : bytes := dquote :: (s ≫= char_bytes) ++ [dquote].
Definition piece_bytes (p : piece) : bytes :=
  match p with
  | CodePiece s => s
  | StringPiece s => string_bytes s
  | LinePiece s => slash :: slash :: s ++ [newline]
  | BlockPiece s => slash :: star :: s ++ [star; slash]
  end.
Definition piece_kept (p : piece) : bytes :=
  match p with CodePiece s => s | StringPiece s => string_bytes s | LinePiece _ => [newline] | BlockPiece _ => [] end.

Lemma strip_code s rest : dquote ∉ s → slash ∉ s → strip_json_from StateNormal (s ++ rest) = s ++ strip_json_from StateNormal rest.
Proof.
  induction s as [|c s IH]; [done|]. rewrite !not_elem_of_cons. intros [Hq Hqs] [Hs Hss]. cbn [app].
  change (strip_json_from StateNormal (c :: s ++ rest)) with
    (if bool_decide (c = dquote) then c :: strip_json_from (StateString false) (s ++ rest)
     else match s ++ rest with
          | next :: rest' =>
              if bool_decide (c = slash) && bool_decide (next = slash) then strip_json_from StateLineComment rest'
              else if bool_decide (c = slash) && bool_decide (next = star) then strip_json_from StateBlockComment rest'
              else c :: strip_json_from StateNormal (s ++ rest)
          | [] => [c]
          end).
  rewrite bool_decide_eq_false_2 by done. rewrite (bool_decide_eq_false_2 (c = slash)) by done. cbn [andb].
  rewrite <-IH by done. by destruct (s ++ rest).
Qed.
Lemma strip_string s rest :
  Forall char_ok s →
  strip_json_from (StateString false) ((s ≫= char_bytes) ++ dquote :: rest) = (s ≫= char_bytes) ++ dquote :: strip_json_from StateNormal rest.
Proof.
  induction 1 as [|[c|c] s Hc _ IH].
  - done.
  - destruct Hc. cbn. rewrite !bool_decide_eq_false_2 by done. by f_equal.
  - cbn. by do 2 f_equal.
Qed.
Lemma strip_line s rest : newline ∉ s → strip_json_from StateLineComment (s ++ newline :: rest) = newline :: strip_json_from StateNormal rest.
Proof.
  induction s as [|c s IH]; [done|]. rewrite not_elem_of_cons. intros [Hc Hs]. cbn. rewrite bool_decide_eq_false_2 by done. by apply IH.
Qed.
Lemma strip_block s rest : closes s = false → strip_json_from StateBlockComment (s ++ star :: slash :: rest) = strip_json_from StateNormal rest.
Proof.
  induction s as [|c s IH]; [done|]. intros Hc. destruct s as [|n s].
  - cbn. by rewrite (bool_decide_eq_false_2 (star = slash)), andb_false_r by done.
  - cbn [closes] in Hc. apply orb_false_iff in Hc as [Hc Hs]. specialize (IH Hs). cbn [app] in *.
    change (strip_json_from StateBlockComment (c :: n :: s ++ star :: slash :: rest)) with
      (if bool_decide (c = star) && bool_decide (n = slash) then strip_json_from StateNormal (s ++ star :: slash :: rest)
       else strip_json_from StateBlockComment (n :: s ++ star :: slash :: rest)).
    by rewrite Hc.
Qed.

(** Of JSON with comments, exactly the comments go, wherever quotes and slashes stand. *)
Lemma comments_stripped pieces :
  Forall piece_ok pieces → strip_json_comments (pieces ≫= piece_bytes) = pieces ≫= piece_kept.
Proof.
  unfold strip_json_comments. induction 1 as [|p ps Hp _ IH]; [done|]. cbn [mbind list_bind]. rewrite <-IH.
  destruct p as [s|s|s|s]; cbn [piece_bytes piece_kept piece_ok] in *.
  - by apply strip_code; destruct Hp.
  - unfold string_bytes. cbn [app]. rewrite <-!app_assoc. cbn [app]. by rewrite <-strip_string.
  - cbn [app]. rewrite <-app_assoc. cbn [app]. by etransitivity; [|apply (strip_line s)].
  - cbn [app]. rewrite <-app_assoc. cbn [app]. by etransitivity; [|apply (strip_block s)].
Qed.

(** * Inventories *)

Lemma longer_prefix_spec a prefixes :
  Forall (λ p, 0 ≤ p_bits p) prefixes →
  (foldl (longer_prefix a) (-1, []) prefixes = (-1, []) ∧ ∀ p, p ∈ prefixes → prefix_contains p a = false) ∨
  ∃ p, p ∈ prefixes ∧ prefix_contains p a = true ∧ foldl (longer_prefix a) (-1, []) prefixes = (p_bits p, prefix_string p) ∧
       ∀ q, q ∈ prefixes → prefix_contains q a = true → p_bits q ≤ p_bits p.
Proof.
  induction prefixes as [|x ps IH] using rev_ind; [left; split; [done|]; by intros p ?%elem_of_nil|].
  rewrite Forall_app, Forall_singleton. intros [Hps Hx]. rewrite foldl_snoc. setoid_rewrite elem_of_app. setoid_rewrite list_elem_of_singleton.
  destruct (IH Hps) as [[-> Hn]|(p & Hp & Hc & -> & Hmax)]; unfold longer_prefix; cbn [fst].
  - destruct (prefix_contains x a) eqn:Ex; [right; exists x|left; naive_solver].
    rewrite (proj2 (Z.ltb_lt _ _)) by lia. split_and!; [by right|done|done|]. intros q [Hq| ->] Hcq; [|lia].
    by rewrite (Hn q Hq) in Hcq.
  - right. destruct (prefix_contains x a) eqn:Ex; [destruct (Z.ltb_spec (p_bits p) (p_bits x))|]; cbn [andb].
    + exists x. split_and!; [by right|done|done|]. intros q [Hq| ->] Hcq; [specialize (Hmax q Hq Hcq); lia|lia].
    + exists p. split_and!; [by left|done|done|]. intros q [Hq| ->] Hcq; [by apply Hmax|lia].
    + exists p. split_and!; [by left|done|done|]. intros q [Hq| ->] Hcq; [by apply Hmax|congruence].
Qed.

Section pages.
Context {T : Type} `{JsonDecoder (netboxPage T)} (token : bytes).

(** The pages that a server gives for the requests from [url] on, the last without a
    next one, and what is left of the network. *)
Inductive serves : bytes → network → list T → network → Prop :=
  | serves_end net : serves [] net [] net
  | serves_page url answer net page results rest :
      url ≠ [] → netbox_page (answer (netbox_request token url)) = Ok page → serves (next_url page) net results rest →
      serves url (answer :: net) (pg_results page ++ results) rest.

(** All pages are fetched, in their order, and nothing else is. *)
Lemma pages_fetched url net out rest all :
  fetch_netbox_paginated token url net out = (rest, Ok all) ↔ ∃ results, all = out ++ results ∧ serves url net results rest.
Proof.
  split.
  - revert url out. induction net as [|answer net IH]; intros url out; cbn [fetch_netbox_paginated]; case_bool_decide as Hu; try done.
    1, 2: subst url; injection 1 as <- <-; exists []; rewrite app_nil_r; by split; [|constructor].
    destruct (netbox_page _) as [page| |] eqn:Ep; [|done..]. intros (results & -> & Hs)%IH.
    exists (pg_results page ++ results). rewrite app_assoc. split; [done|]. by econstructor.
  - intros (results & -> & Hs). revert out. induction Hs as [net|url answer net page results rest Hu Hp _ IH]; intros out.
    + rewrite app_nil_r. by destruct net.
    + cbn [fetch_netbox_paginated]. rewrite bool_decide_eq_false_2 by done. by rewrite Hp, IH, app_assoc.
Qed.

(** A server that always names a next page is asked until the context ends. *)
Lemma endless_pages url net out :
  url ≠ [] →
  (∀ answer, answer ∈ net → ∀ rq, ∃ page, netbox_page (T := T) (answer rq) = Ok page ∧ next_url page ≠ []) →
  fetch_netbox_paginated token url net out = ([], Err (errorNew "context canceled")).
Proof.
  revert url out. induction net as [|answer net IH]; intros url out Hu Hn; cbn [fetch_netbox_paginated];
    rewrite bool_decide_eq_false_2 by done; [done|].
  destruct (Hn answer ltac:(by left) (netbox_request token url)) as (page & -> & Hp). apply IH; [done|].
  intros answer' Ha. apply Hn. by right.
Qed.
End pages.

(** * Witnesses *)

#[local] Existing Instance ascii_tables.
#[local] Existing Instance small_slices.
#[local] Existing Instance packed_lease.
#[local] Existing Instance packed_subnet.
#[local] Existing Instance packed_reservation.
#[local] Existing Instance packed_address.
#[local] Instance plain_quotes : GoQuote := {| quote s := s |}.
(** Every timestamp is the same instant. *)
#[local] Instance fixed_time : TimeParse := {| time_parse _ _ := Some demo_now |}.
#[local] Instance no_csv : CsvReader := {| csv_records _ := ([], None) |}.

(** A text is the JSON of itself, and three texts are documents. *)
#[local] Instance text_json : JsonUnmarshal bytes := {| json_unmarshal raw := Ok raw |}.
#[local] Instance no_pool_json : JsonUnmarshal keaPool := {| json_unmarshal _ := Err (ErrIO "json") |}.
Definition no_status : netboxStatus := mkNetboxStatus [] [].
Definition demo_kea : keaConfigFile :=
  mkKeaConfigFile (mkKeaDHCP4 3600
    [mkKeaSubnet4 7 (bs "10.0.0.0/24") 0 [bs "10.0.0.64/26"; bs "10.0.0.10 - 10.0.0.63"]
       [mkKeaReservation (bs "aa:bb:cc:00:11:22") (bs "10.0.0.5") (bs "nas")] [mkKeaOption (bs "Routers") (bs "10.0.0.1")] ∅] []).
#[local] Instance kea_json : JsonUnmarshal keaConfigFile :=
  {| json_unmarshal raw := if bool_decide (raw = bs "{  }") then Ok demo_kea else Err (ErrIO "json") |}.
Definition demo_page : netboxPage netboxPrefix :=
  mkNetboxPage 1 (Some (bs "https://elsewhere.example/"))
    [mkNetboxPrefix (bs "10.0.0.1/24") (bs "from netbox") no_status None None None None None ∅].
Definition last_page {T : Type} (l : list T) : netboxPage T := mkNetboxPage (zlen l) None l.
#[local] Instance prefix_pages : JsonDecoder (netboxPage netboxPrefix) :=
  {| json_decode raw := Ok (if bool_decide (raw = bs "linked") then demo_page else last_page (pg_results demo_page), []) |}.
#[local] Instance address_pages : JsonDecoder (netboxPage netboxIPAddress) :=
  {| json_decode _ := Ok (last_page [mkNetboxIPAddress (bs "10.0.0.9/24") [] (bs "printer") (mkNetboxStatus (bs "active") [])], []) |}.
#[local] Instance php_sections : JsonDecoder (phpipamEnvelope (list phpipamSection)) :=
  {| json_decode _ := Ok (mkEnvelope 200 true [mkPhpipamSection (bs "1") (bs "Office") []], []) |}.
#[local] Instance php_subnets : JsonDecoder (phpipamEnvelope (list phpipamSubnet)) :=
  {| json_decode _ := Ok (mkEnvelope 200 true
       [mkPhpipamSubnet (bs "3") (AnyString (bs "167772160")) (AnyFloat (to_float 24)) [] (bs "1") [] (bs "2")], []) |}.
#[local] Instance php_addresses : JsonDecoder (phpipamEnvelope (list phpipamAddress)) :=
  {| json_decode _ := Ok (mkEnvelope 200 true
       [mkPhpipamAddress (bs "5") (bs "3") (AnyFloat (to_float 167772169)) (bs "printer") [] [] (AnyFloat (to_float 2))], []) |}.
#[local] Instance php_vlans : JsonDecoder (phpipamEnvelope (list phpipamVLAN)) :=
  {| json_decode _ := Ok (mkEnvelope 200 true [mkPhpipamVLAN (bs "2") (AnyString (bs "40")) [] []], []) |}.
#[local] Instance php_tags : JsonDecoder (phpipamEnvelope (list phpipamTag)) :=
  {| json_decode _ := Ok (mkEnvelope 200 true [mkPhpipamTag (bs "2") (bs "Used") []], []) |}.

Definition demo_ranges : list iscRange :=
  [mkIscRange (bs "10.0.0.60") (bs "10.0.0.70"); mkIscRange (bs "10.0.0.10") (bs "10.0.0.50"); mkIscRange (bs "10.0.0.51") (bs "10.0.0.65")].
Definition demo_pools : list bytes := [bs "10.0.0.60-10.0.0.70"; bs "10.0.0.10 - 10.0.0.50"; bs "10.0.0.51-10.0.0.65"].
Definition demo_items : list (addr * addr) := match parse_ranges demo_ranges with Ok l => l | _ => [] end.
Lemma demo_items_v4 : Forall v4_range demo_items.
Proof. repeat apply Forall_cons_2; try apply Forall_nil_2; (split_and!; [reflexivity..|vm_compute; discriminate]). Qed.
Lemma demo_items_some : demo_items ≠ [].
Proof. vm_compute. discriminate. Qed.
Lemma merged_ranges_exact_witness :
  merged demo_items (merge_ranges demo_ranges) ∧ merged demo_items (merge_kea_pools demo_pools) ∧
  normalize_kea_pools demo_pools =
    Ok (bs "10.0.0.10", bs "10.0.0.70", [bs "multiple Kea pools were merged into a single Monsoon DHCP range"]).
Proof.
  split; [|split; [|vm_compute; reflexivity]].
  - exact (proj1 (merged_ranges_exact demo_items demo_items_v4 demo_items_some) demo_ranges eq_refl).
  - refine (proj2 (merged_ranges_exact demo_items demo_items_v4 demo_items_some) demo_pools _). vm_compute. reflexivity.
Defined.

(** A configuration with a subnet and a reservation in it, and its leases: an address
    that was leased, and later freed. *)
Definition line (s : string) : bytes := bs s ++ [newline].
Definition demo_config_text : bytes :=
  line "subnet 10.0.0.0 netmask 255.255.255.0 { range 10.0.0.10 10.0.0.20;" ++
  line "host nas { hardware ethernet aa:bb:cc:00:11:22; fixed-address 10.0.0.5; } }".
Definition demo_leases_text : bytes :=
  line "lease 10.0.0.12 { # first" ++ line "  binding state active;" ++ line "  hardware ethernet aa:bb:cc:00:11:33;" ++ line "}" ++
  line "lease 10.0.0.12 {" ++ line "  binding state free;" ++ line "  hardware ethernet aa:bb:cc:00:11:33;" ++ line "}".
Definition demo_files (path : bytes) : result bytes :=
  if bool_decide (path = bs "dhcpd.conf") then Ok demo_config_text
  else if bool_decide (path = bs "dhcpd.leases") then Ok demo_leases_text
  else if bool_decide (path = bs "kea.json") then Ok (bs "{ /* office */ }") else Err (ErrIO "no such file").
Definition demo_migrate_env (_ : string) : MigrateEnv (S := EngineStore) :=
  mkMigrateEnv (λ _ _, demo_now) (λ _ _, demo_now) (λ _ _, []) (λ _, mkWriteEnv demo_now demo_now []) (λ _, None).
Definition demo_runner : Runner (S := EngineStore) := mkRunner demo_engine demo_store.
Definition demo_options (dry : bool) : Options :=
  mkOptions (bs "isc-dhcp") dry [] (bs "dhcpd.conf") [] [] (mkCSVOptions [] [] [] (bs "dhcpd.leases")).
Definition demo_run (dry : bool) := run demo_migrate_env demo_files [] (demo_options dry) demo_runner.

Lemma dry_run_changes_nothing_witness : (demo_run true).1.1 = demo_runner.
Proof. exact (dry_run_changes_nothing demo_migrate_env demo_files [] (demo_options true) demo_runner eq_refl). Defined.

(** A dry run refuses the reservation of a subnet that the real run first creates. *)
Lemma dry_run_refuses_reservation :
  (map (λ f, map re_message (fr_errors f)) (rp_files (demo_run true).1.2) = [[bs "subnet not found: 10.0.0.0/24"]]) ∧
  (demo_run false).2 = None.
Proof. split; vm_compute; reflexivity. Qed.

(** A lease that ended is imported as bound: the record that frees it is skipped. *)
Lemma freed_lease_is_imported :
  l_state <$> ls_get_by_ip (rn_leases (demo_run false).1.1) (bs "10.0.0.12") = Ok StateBound.
Proof. vm_compute. reflexivity. Qed.

(** A dry run over a Kea configuration counts a subnet as applied and reports an error of
    the same row. *)
Definition kea_options (dry : bool) : Options := mkOptions (bs "kea") dry [] (bs "kea.json") [] [] (mkCSVOptions [] [] [] []).
Definition kea_run (dry : bool) := run demo_migrate_env demo_files [] (kea_options dry) demo_runner.
Lemma kea_row_counts_twice :
  (λ f, (fr_rows f, fr_applied f, length (fr_errors f))) <$> rp_files (kea_run true).1.2 = [(1, 1, 1%nat)] ∧
  (kea_run false).2 = None ∧
  (λ s, (sn_name s, dp_pool_start (sn_dhcp s), dp_pool_end (sn_dhcp s))) <$> get_subnet (rn_ipam (kea_run false).1.1) (bs "10.0.0.0/24") =
    Ok (bs "Kea Subnet 7", bs "10.0.0.10", bs "10.0.0.127").
Proof. split; [|split]; vm_compute; reflexivity. Qed.

(** The request for the next page goes to the host that the page names, with the token. *)
Definition page_answer (body : string) (rq : api_request) : result http_answer := Ok (mkHttpAnswer 200 (bs "200 OK") (bs body)).
Definition overheard (rq : api_request) : result http_answer := Err (Errorf "%s" (FB (aq_url rq) :: ((λ h, FB h.2) <$> aq_headers rq))).
Lemma token_follows_next :
  (fetch_netbox_paginated (T := netboxPrefix) (bs "secret") (bs "https://netbox/api/ipam/prefixes/") [page_answer "linked"; overheard] []).2 =
    Err (Errorf "%s" [FB (bs "https://elsewhere.example/"); FB (bs "application/json"); FB (bs "Token secret")]).
Proof. vm_compute. reflexivity. Qed.

(** With the policy to skip what exists, a prefix with host bits overwrites its subnet, and
    the addresses of the prefix find no subnet. *)
Definition office_runner : Runner (S := EngineStore) := mkRunner demo_ipam demo_store.
Definition netbox_options : Options :=
  mkOptions (bs "netbox") false (bs "skip") [] (bs "https://netbox/") (bs "secret") (mkCSVOptions [] [] [] []).
Definition netbox_run := run demo_migrate_env demo_files [page_answer "one"; page_answer "two"] netbox_options office_runner.
Lemma skip_overwrites_host_bits :
  sn_name <$> get_subnet demo_ipam (bs "10.0.0.0/24") = Ok (bs "office") ∧
  sn_name <$> get_subnet (rn_ipam netbox_run.1.1) (bs "10.0.0.0/24") = Ok (bs "from netbox") ∧
  (λ f, (fr_applied f, fr_skipped f, re_message <$> fr_errors f)) <$> rp_files netbox_run.1.2 =
    [(1, 0, []); (0, 0, [bs "subnet not found: 10.0.0.1/24"])].
Proof. split; [|split]; vm_compute; reflexivity. Qed.

(** An inventory of phpIPAM, whose numbers are floats and texts. *)
Definition php_options : Options :=
  mkOptions (bs "phpipam") false [] [] (bs "https://ipam/api/") (bs "secret") (mkCSVOptions [] [] [] []).
Definition php_run := run demo_migrate_env demo_files (replicate 5 (page_answer "data")) php_options demo_runner.
Lemma phpipam_imported :
  (λ s, (sn_name s, sn_vlan s)) <$> get_subnet (rn_ipam php_run.1.1) (bs "10.0.0.0/24") = Ok (bs "Office", 40) ∧
  (λ r, (ad_state r, ad_hostname r, ad_source r)) <$> get_stored_address (rn_ipam php_run.1.1) (bs "10.0.0.9") =
    Ok (IPStateDHCP, bs "printer", bs "phpipam") ∧ php_run.2 = None.
Proof. split; [|split]; vm_compute; reflexivity. Qed.
