(* ===== verification/Daemon.v ===== *)
(** cmd/monsoon: runtime_config.go, config_merge.go, backup_restore.go and
    atomic_write.go.

    The settings that change while the daemon runs, the keys whose change waits for a
    restart, the merge of a configuration that is sent, the path of a snapshot to
    restore, and the replacement of a file.  A YAML value is a tree; [path/filepath] is
    defined on the segments of a Unix path.  The file system is a map from paths to
    contents, and an operation on it may fail. *)

From S2P Require Import Prelude.
From S2P Require Import GoBytes.
From S2P Require Import GoStrings.
From S2P Require Import GoTime.
From S2P Require Import GoNet.
From S2P Require Import GoPort.
From S2P Require Import ConfigTypes.
From S2P Require Import ConfigEnv.
From S2P Require Import ConfigValidate.
From S2P Require Import Wal.
From S2P Require Import StorageTree.
From S2P Require Import Snapshot.
From S2P Require Import StorageEngine.
From S2P Require Import StorageSpec.
From S2P Require Import StorageTheorems.
From S2P Require Import GoSort.
From S2P Require Import RestHttp.
From S2P Require Import RestAuth.

(** * Settings that change while the daemon runs *)

Definition runtime_auth_enforced `{UnicodeTables} (c : Config) : bool :=
  au_enabled (cf_auth c) && equal_fold (au_type (cf_auth c)) (bs "local").
(** [Apply] *)
Definition apply_settings `{UnicodeTables} (c : Config) : runtimeSettings :=
  let rest := ap_rest (cf_api c) in
  mkRuntimeSettings (ConfigTypes.rs_cors_origins rest) (ConfigTypes.rs_trusted_proxies rest) (ConfigTypes.rs_rate_limit rest)
    (ConfigTypes.rs_auth_rate_limit rest) (runtime_auth_enforced c) (sa_secure (au_session (cf_auth c))).

Definition with_server (c : Config) (s : ServerConfig) : Config :=
  mkConfig s (cf_dhcp c) (cf_subnets c) (cf_discovery c) (cf_api c) (cf_dashboard c) (cf_auth c) (cf_ha c)
    (cf_prometheus c) (cf_backup c) (cf_webhooks c).
Definition apply_runtime_overrides (c : Config) (data_dir : bytes) (debug : bool) : Config :=
  let s := cf_server c in
  with_server c (mkServerConfig (sv_hostname s) (if bool_decide (data_dir = []) then sv_data_dir s else data_dir)
                   (if debug then bs "debug" else sv_log_level s) (sv_log_format s)).

#[local] Instance dhcp4_eq_dec : EqDecision DHCPV4Config. Proof. solve_decision. Defined.
#[local] Instance dhcp6_eq_dec : EqDecision DHCPV6Config. Proof. solve_decision. Defined.
#[local] Instance ddns_eq_dec : EqDecision DDNSConfig. Proof. solve_decision. Defined.
#[local] Instance discovery_eq_dec : EqDecision DiscoveryConfig. Proof. solve_decision. Defined.
#[local] Instance listen_eq_dec : EqDecision ListenConfig. Proof. solve_decision. Defined.
#[local] Instance dashboard_eq_dec : EqDecision Dashboard. Proof. solve_decision. Defined.
#[local] Instance local_eq_dec : EqDecision LocalAuthConfig. Proof. solve_decision. Defined.
#[local] Instance ldap_eq_dec : EqDecision LDAPAuthConfig. Proof. solve_decision. Defined.
#[local] Instance ha_eq_dec : EqDecision HAConfig. Proof. solve_decision. Defined.

(** [appendIfChanged]; a nil list and an empty one are equal here everywhere, in the code at
    the top of a value only. *)
Definition if_changed {A : Type} `{EqDecision A} (label : string) (l r : A) : list string :=
  if decide (l = r) then [] else [label].

Definition restart_required_config_changes (b a : Config) : list string :=
  let rb := ap_rest (cf_api b) in let ra := ap_rest (cf_api a) in
  let ub := cf_auth b in let ua := cf_auth a in
  if_changed "server.hostname" (sv_hostname (cf_server b)) (sv_hostname (cf_server a)) ++
  if_changed "server.data_dir" (sv_data_dir (cf_server b)) (sv_data_dir (cf_server a)) ++
  if_changed "dhcp.v4" (dc_v4 (cf_dhcp b)) (dc_v4 (cf_dhcp a)) ++
  if_changed "dhcp.v6" (dc_v6 (cf_dhcp b)) (dc_v6 (cf_dhcp a)) ++
  if_changed "dhcp.default_lease_time" (dc_default_lease_time (cf_dhcp b)) (dc_default_lease_time (cf_dhcp a)) ++
  if_changed "dhcp.max_lease_time" (dc_max_lease_time (cf_dhcp b)) (dc_max_lease_time (cf_dhcp a)) ++
  if_changed "dhcp.ddns" (dc_ddns (cf_dhcp b)) (dc_ddns (cf_dhcp a)) ++
  if_changed "subnets" (cf_subnets b) (cf_subnets a) ++
  if_changed "ipam.discovery" (cf_discovery b) (cf_discovery a) ++
  if_changed "api.rest.listen" (rs_listen rb) (rs_listen ra) ++
  if_changed "api.rest.tls" [rs_tls_cert_file rb; rs_tls_key_file rb] [rs_tls_cert_file ra; rs_tls_key_file ra] ++
  if_changed "api.grpc" (ap_grpc (cf_api b)) (ap_grpc (cf_api a)) ++
  if_changed "api.websocket" (ap_websocket (cf_api b)) (ap_websocket (cf_api a)) ++
  if_changed "api.mcp" (ap_mcp (cf_api b)) (ap_mcp (cf_api a)) ++
  if_changed "dashboard" (cf_dashboard b) (cf_dashboard a) ++
  if_changed "auth.type" (au_type ub) (au_type ua) ++
  if_changed "auth.local" (au_local ub) (au_local ua) ++
  if_changed "auth.ldap" (au_ldap ub) (au_ldap ua) ++
  if_changed "auth.api_tokens" (au_api_tokens ub) (au_api_tokens ua) ++
  if_changed "auth.session.cookie_name" (sa_cookie_name (au_session ub)) (sa_cookie_name (au_session ua)) ++
  if_changed "auth.session.duration" (sa_duration (au_session ub)) (sa_duration (au_session ua)) ++
  if_changed "ha" (cf_ha b) (cf_ha a) ++
  if_changed "metrics.prometheus.path" (pr_path (cf_prometheus b)) (pr_path (cf_prometheus a)) ++
  if_changed "webhooks" (cf_webhooks b) (cf_webhooks a).

Record runtimeReloadState := mkReloadState { ro_last_reload_at : time; ro_restart_required : list string }.
Definition mark_reload (_ : runtimeReloadState) (now : time) (restart_required : list string) : runtimeReloadState :=
  mkReloadState now restart_required.
Definition hot_reloadable_config_keys : list string :=
  ["api.rest.cors_origins"; "api.rest.trusted_proxies"; "api.rest.rate_limit"; "api.rest.auth_rate_limit"; "auth.enabled";
   "auth.session.secure"]%string.

(** The configuration that takes over: the hot keys, and the keys neither list names. *)
Definition hot_changes (b a : Config) : Config :=
  let sb := cf_server b in let rb := ap_rest (cf_api b) in let ra := ap_rest (cf_api a) in let ub := cf_auth b in
  mkConfig (mkServerConfig (sv_hostname sb) (sv_data_dir sb) (sv_log_level (cf_server a)) (sv_log_format (cf_server a)))
    (cf_dhcp b) (cf_subnets b) (cf_discovery b)
    (mkAPIConfig (mkRESTConfig (rs_enabled ra) (rs_listen rb) (ConfigTypes.rs_cors_origins ra) (ConfigTypes.rs_trusted_proxies ra)
                    (ConfigTypes.rs_rate_limit ra) (ConfigTypes.rs_auth_rate_limit ra) (rs_tls_cert_file rb) (rs_tls_key_file rb))
       (ap_grpc (cf_api b)) (ap_websocket (cf_api b)) (ap_mcp (cf_api b)))
    (cf_dashboard b)
    (mkAuthConfig (au_enabled (cf_auth a)) (au_type ub) (au_local ub) (au_ldap ub) (au_api_tokens ub)
       (mkSessionAuthConfig (sa_duration (au_session ub)) (sa_cookie_name (au_session ub)) (sa_secure (au_session (cf_auth a)))))
    (cf_ha b) (mkPrometheusConfig (pr_enabled (cf_prometheus a)) (pr_path (cf_prometheus b))) (cf_backup a) (cf_webhooks b).

Lemma if_changed_nil {A : Type} `{EqDecision A} label (l r : A) rest : if_changed label l r ++ rest = [] ↔ l = r ∧ rest = [].
Proof. unfold if_changed. destruct (decide (l = r)); cbn; naive_solver. Qed.
Lemma if_changed_last {A : Type} `{EqDecision A} label (l r : A) : if_changed label l r = [] ↔ l = r.
Proof. unfold if_changed. destruct (decide (l = r)); cbn; naive_solver. Qed.

(** No restart is asked for exactly when the new configuration differs from the old
    one in the hot keys, or in the log, the backups and two switches, which no list
    names. *)
Theorem no_restart_exact b a : restart_required_config_changes b a = [] ↔ a = hot_changes b a.
Proof.
  unfold restart_required_config_changes, hot_changes. cbv zeta. rewrite !if_changed_nil, if_changed_last.
  destruct b as [[] [] ? ? [[] ? ? ?] ? [? ? ? ? ? []] ? [] ? ?], a as [[] [] ? ? [[] ? ? ?] ? [? ? ? ? ? []] ? [] ? ?]; cbn.
  split; intros Hc; [destruct_and! Hc; by simplify_eq|injection Hc; intros; subst; by repeat split].
Qed.

(** * Merging a configuration *)

Section merge.
Context {L : Type}.

(** A YAML value: a map, or what is not one.  A key of a map is listed once. *)
Inductive yaml := YLeaf (l : L) | YMap (m : list (bytes * yaml)).

Fixpoint yget (key : bytes) (m : list (bytes * yaml)) : option yaml :=
  match m with
  | [] => None
  | (k, v) :: m => if bool_decide (k = key) then Some v else yget key m
  end.
Fixpoint yput (key : bytes) (value : yaml) (m : list (bytes * yaml)) : list (bytes * yaml) :=
  match m with
  | [] => [(key, value)]
  | (k, v) :: m => if bool_decide (k = key) then (k, value) :: m else (k, v) :: yput key value m
  end.
Definition map_of (v : option yaml) : list (bytes * yaml) := match v with Some (YMap m) => m | _ => [] end.

(** What a key holds after the merge: the value sent, merged into the map it had. *)
Fixpoint merge_value (old : option yaml) (value : yaml) : yaml :=
  match value with
  | YLeaf l => YLeaf l
  | YMap src => YMap (foldl (λ dst p, yput p.1 (merge_value (yget p.1 dst) p.2) dst) (map_of old) src)
  end.
Definition merge_maps (dst src : list (bytes * yaml)) : list (bytes * yaml) :=
  foldl (λ dst p, yput p.1 (merge_value (yget p.1 dst) p.2) dst) dst src.

(** What a value has at a path: nothing, or something; or a value that is no map cuts the
    path. *)
Inductive found := Missing | Cut | Found (v : yaml).
Fixpoint walk (v : yaml) (path : list bytes) : found :=
  match path with
  | [] => Found v
  | key :: path =>
      match v with
      | YLeaf _ => Cut
      | YMap m => match yget key m with Some v => walk v path | None => Missing end
      end
  end.
Definition leaf_at (v : yaml) (path : list bytes) : option L :=
  match walk v path with Found (YLeaf l) => Some l | _ => None end.
(** Every map lists a key once. *)
Fixpoint proper (v : yaml) : Prop :=
  match v with
  | YLeaf _ => True
  | YMap m => NoDup m.*1 ∧ foldr (λ p P, proper p.2 ∧ P) True m
  end.

Lemma yget_put key value m key' :
  yget key' (yput key value m) = if decide (key = key') then Some value else yget key' m.
Proof.
  induction m as [|[k v] m IH]; cbn.
  - case_bool_decide; by case_decide.
  - case_bool_decide as E; cbn; [subst; case_bool_decide; by case_decide|]. rewrite IH. case_bool_decide; [|done].
    case_decide; congruence.
Qed.

Section yaml_ind.
Context (P : yaml → Prop).
Hypothesis leaf : ∀ l, P (YLeaf l).
Hypothesis node : ∀ m, Forall (λ p, P p.2) m → P (YMap m).
Fixpoint yaml_nested_ind (v : yaml) : P v :=
  match v with
  | YLeaf l => leaf l
  | YMap m => node m ((fix all (l : list (bytes * yaml)) : Forall (λ p, P p.2) l :=
                         match l with
                         | [] => Forall_nil_2 (λ p : bytes * yaml, P p.2)
                         | p :: l => Forall_cons_2 (λ p : bytes * yaml, P p.2) p l (yaml_nested_ind p.2) (all l)
                         end) m)
  end.
End yaml_ind.

(** After the merge a key holds the merged value, or what it held. *)
Lemma merge_lookup dst src key :
  NoDup src.*1 →
  yget key (merge_maps dst src) = match yget key src with Some v => Some (merge_value (yget key dst) v) | None => yget key dst end.
Proof.
  unfold merge_maps. revert dst. induction src as [|[k v] src IH]; intros dst Hn; [done|]. cbn in *.
  apply NoDup_cons in Hn as [Hk Hn]. rewrite IH by done. rewrite yget_put. case_bool_decide as E.
  - subst k. rewrite decide_True by done.
    assert (yget key src = None) as ->; [|done]. clear -Hk. induction src as [|[k v] src IH]; [done|]. cbn in *.
    rewrite not_elem_of_cons in Hk. destruct Hk as [Hne Hk]. rewrite bool_decide_eq_false_2 by congruence. auto.
  - by rewrite decide_False.
Qed.

Lemma merge_walk old v path :
  proper v →
  leaf_at (merge_value old v) path =
    match walk v path with
    | Found (YLeaf l) => Some l
    | Missing => old ≫= λ o, leaf_at o path
    | _ => None
    end.
Proof.
  revert old path. induction v as [l|src IH] using yaml_nested_ind; intros old path Hp; [by destruct path|].
  destruct Hp as [Hn Hp]. unfold leaf_at. cbn [merge_value]. fold (merge_maps (map_of old) src).
  destruct path as [|key path]; [done|]. cbn [walk]. rewrite merge_lookup by done.
  destruct (yget key src) as [v|] eqn:E.
  - assert (Hv : (∀ old path, proper v → leaf_at (merge_value old v) path =
        match walk v path with Found (YLeaf l) => Some l | Missing => old ≫= λ o, leaf_at o path | _ => None end) ∧ proper v).
    { clear -IH Hp E. induction src as [|[k v'] src IHs]; [done|]. cbn in *. rewrite Forall_cons in IH. destruct IH as [Hh IH], Hp as [Hpv Hp].
      case_bool_decide; [simplify_eq; by split|by apply IHs]. }
    destruct Hv as [Hv Hpv]. specialize (Hv (yget key (map_of old)) path Hpv). unfold leaf_at in Hv. rewrite Hv.
    destruct (walk v path) as [| |[]]; try done. destruct old as [[l|m]|]; cbn; [done|..|done].
    unfold leaf_at. cbn. by destruct (yget key m).
  - destruct old as [[l|m]|]; cbn; [done|..|done]. by destruct (yget key m).
Qed.

(** A configuration that is sent changes exactly the leaves it has: each of them is
    set, those under it are gone, and every other leaf stays. *)
Theorem merge_sets_exactly dst src path :
  proper (YMap src) →
  leaf_at (YMap (merge_maps dst src)) path =
    match walk (YMap src) path with
    | Found (YLeaf l) => Some l
    | Missing => leaf_at (YMap dst) path
    | _ => None
    end.
Proof. intros Hp. exact (merge_walk (Some (YMap dst)) (YMap src) path Hp). Qed.
End merge.
Arguments yaml : clear implicits.
Definition demo_stored : list (bytes * yaml bytes) :=
  [(bs "server", YMap [(bs "hostname", YLeaf (bs "old")); (bs "log_level", YLeaf (bs "info"))])].
Definition demo_sent : list (bytes * yaml bytes) := [(bs "server", YMap [(bs "hostname", YLeaf (bs "new"))])].
Lemma demo_sent_proper : proper (YMap demo_sent).
Proof. cbn. split_and!; try done; refine (bool_decide_unpack _ _); vm_compute; exact I. Qed.
Lemma merge_sets_exactly_witness :
  leaf_at (YMap (merge_maps demo_stored demo_sent)) [bs "server"; bs "hostname"] = Some (bs "new") ∧
  leaf_at (YMap (merge_maps demo_stored demo_sent)) [bs "server"; bs "log_level"] = Some (bs "info").
Proof.
  split.
  - refine (eq_trans (merge_sets_exactly demo_stored demo_sent [bs "server"; bs "hostname"] demo_sent_proper) _). vm_compute. reflexivity.
  - refine (eq_trans (merge_sets_exactly demo_stored demo_sent [bs "server"; bs "log_level"] demo_sent_proper) _). vm_compute. reflexivity.
Defined.

(** * Paths *)

(** [filepath.Base] *)
Fixpoint drop_slashes (s : bytes) : bytes :=
  match s with c :: s' => if bool_decide (c = slash) then drop_slashes s' else s | [] => [] end.
Definition base_name (path : bytes) : bytes :=
  if bool_decide (path = []) then [dot]
  else
    let stripped := reverse (drop_slashes (reverse path)) in
    if bool_decide (stripped = []) then [slash]
    else match cut_last stripped slash with Some (_, name) => name | None => stripped end.

(** [filepath.Rel] of two clean rooted paths: up from what is left of the base. *)
Fixpoint rel_segments (base target : list bytes) : list bytes :=
  match base, target with
  | b :: base', t :: target' => if bool_decide (b = t) then rel_segments base' target' else map (λ _, dot_dot) base ++ target
  | _, _ => map (λ _, dot_dot) base ++ target
  end.
Definition rel_path (base target : list bytes) : bytes :=
  match rel_segments base target with [] => [dot] | segments => join segments [slash] end.

Definition given (s : bytes) : bool := negb (bool_decide (trim_space s = [])).
Definition resolve_restore_path (cwd : list bytes) (backup_dir : bytes) (req : RestoreRequest) : result bytes :=
  let backup_dir := trim_space backup_dir in
  if bool_decide (backup_dir = []) then Err (errorNew "backup directory is not configured")
  else
    let base := abs_path cwd backup_dir in
    if given (rr_name req) then
      let name := trim_space (rr_name req) in
      if negb (bool_decide (base_name name = name)) then Err (errorNew "backup name must not contain path separators")
      else Ok (path_text (clean_from base name))
    else if given (rr_path req) then
      let target := abs_path cwd (trim_space (rr_path req)) in
      let rel := rel_path base target in
      if bool_decide (rel = dot_dot) || has_prefix rel (dot_dot ++ [slash])
      then Err (errorNew "restore path must stay within backup directory") else Ok (path_text target)
    else Err (errorNew "backup name or path is required").

Definition configured_backup_dir (c : Config) (data_dir_override : bytes) : bytes :=
  let data_dir := if given data_dir_override then data_dir_override else sv_data_dir (cf_server c) in
  if given (bk_path (cf_backup c)) then bk_path (cf_backup c)
  else join_path data_dir (bs "backups").

(** ** Its facts *)

(** A relative path that does not go up stays below the base. *)
Lemma rel_inside base target :
  Forall segment target →
  rel_path base target ≠ dot_dot → has_prefix (rel_path base target) (dot_dot ++ [slash]) = false → ∃ rest, target = base ++ rest.
Proof.
  intros Ht. unfold rel_path. revert target Ht. induction base as [|b base IH]; intros target Ht; [by exists target|].
  destruct target as [|t target]; cbn [rel_segments].
  - cbn. destruct base as [|b' base]; cbn; [done|]. intros _ Hp. exfalso. revert Hp. by cbv.
  - case_bool_decide as E.
    + subst t. apply Forall_cons in Ht as [_ Ht]. intros H1 H2. destruct (IH target Ht) as [rest ->]; [done..|]. by exists rest.
    + intros _ Hp. exfalso. revert Hp.
      by destruct base; cbv -[join]; cbn.
Qed.

Lemma cut_last_none s c : cut_last s c = None → c ∉ s.
Proof.
  induction s as [|x s IH]; cbn; [intros _; apply not_elem_of_nil|].
  destruct (cut_last s c) as [[]|]; [done|]. case_bool_decide; [done|]. intros _. rewrite not_elem_of_cons. split; [congruence|by apply IH].
Qed.
Lemma cut_last_some s c before after_ : cut_last s c = Some (before, after_) → c ∉ after_.
Proof.
  revert before after_. induction s as [|x s IH]; intros before after_; cbn; [done|].
  destruct (cut_last s c) as [[]|] eqn:E; [intros [= <- <-]; by eapply IH|].
  case_bool_decide; [|done]. intros [= <- <-]. by apply cut_last_none.
Qed.
Lemma base_name_fixed name : base_name name = name → slash ∉ name ∨ name = [slash].
Proof.
  unfold base_name. case_bool_decide as E; [by subst|]. cbv zeta. case_bool_decide; [by right|].
  destruct (cut_last _ slash) as [[before n]|] eqn:Ec; intros <-; left; [by eapply cut_last_some|by apply cut_last_none].
Qed.

(** A restore reads only in the backup directory: a path that is accepted is the
    directory itself or lies below it, unless the name of the backup is [..]. *)
Theorem restore_path_contained cwd backup_dir req target :
  Forall segment cwd → resolve_restore_path cwd backup_dir req = Ok target →
  (∃ rest, target = path_text (abs_path cwd (trim_space backup_dir) ++ rest)) ∨ trim_space (rr_name req) = dot_dot.
Proof.
  intros Hc. unfold resolve_restore_path. cbv zeta. case_bool_decide; [done|].
  set (base := abs_path cwd (trim_space backup_dir)). destruct (given (rr_name req)).
  - case_bool_decide as Hb; cbn; [|done]. intros [= <-]. destruct (decide (trim_space (rr_name req) = dot_dot)); [by right|left].
    apply base_name_fixed in Hb as [Hs|Hs].
    + unfold clean_from. rewrite split_byte_none by done. cbn. unfold clean_segment.
      case_bool_decide; [by exists []; rewrite app_nil_r|]. rewrite bool_decide_eq_false_2 by done. by eexists.
    + rewrite Hs. exists []. by rewrite app_nil_r.
  - destruct (given (rr_path req)); [|done]. case_bool_decide as Hr; [done|]. cbn.
    destruct (has_prefix _ _) eqn:Hp; [done|]. intros [= <-]. left.
    destruct (rel_inside base (abs_path cwd (trim_space (rr_path req)))) as [rest ->]; [by apply abs_segments|done..|by exists rest].
Qed.
Definition demo_cwd : list bytes := [bs "srv"].
Definition demo_restore : RestoreRequest := mkRestoreRequest [] (bs "data/../backups/monsoon-1.snapshot").
Lemma demo_cwd_segments : Forall segment demo_cwd.
Proof. repeat constructor; try done. refine (bool_decide_unpack _ _). vm_compute. exact I. Qed.
Lemma restore_path_contained_witness :
  resolve_restore_path demo_cwd (bs "./backups") demo_restore = Ok (bs "/srv/backups/monsoon-1.snapshot") ∧
  ((∃ rest, bs "/srv/backups/monsoon-1.snapshot" = path_text (abs_path demo_cwd (trim_space (bs "./backups")) ++ rest)) ∨
   trim_space (rr_name demo_restore) = dot_dot).
Proof.
  split; [vm_compute; reflexivity|].
  refine (restore_path_contained demo_cwd (bs "./backups") demo_restore _ demo_cwd_segments _). vm_compute. reflexivity.
Defined.
Lemma joined_paths :
  map (λ d, join_path (bs d) (bs "backups")) ["./data/"; "../x/.."; "/var//lib"; ""; "."]%string =
  map bs ["data/backups"; "../backups"; "/var/lib/backups"; "backups"; "backups"]%string.
Proof. vm_compute. reflexivity. Qed.
(** The name that leaves the directory. *)
Lemma parent_name_accepted :
  resolve_restore_path demo_cwd (bs "/var/backups") (mkRestoreRequest (bs "..") []) = Ok (bs "/var").
Proof. vm_compute. reflexivity. Qed.

(** * Replacing a file *)

Abbreviation file_system := (gmap bytes bytes).
Definition rename (from to : bytes) (fs : file_system) : file_system :=
  match fs !! from with Some content => <[to := content]> (base.delete from fs) | None => fs end.

(** Which operations fail, and what a failed write leaves in the temporary file. *)
Record write_faults := mkWriteFaults {
  wf_mkdir : bool; wf_create : bool; wf_chmod : bool; wf_write : option bytes; wf_sync : bool; wf_close : bool;
  wf_rename : bool; wf_remove_backup : bool; wf_stat : bool; wf_move : bool; wf_replace : bool; wf_restore : bool;
  wf_remove_moved : bool; wf_cleanup : bool
}.
Definition backup_path (path : bytes) : bytes := path ++ bs ".bak".
Definition unless_fails (fails : bool) (op : file_system → file_system) (fs : file_system) : file_system := if fails then fs else op fs.
Definition io_error (op : string) : option error := Some (ErrIO op).

(** The states after the operations, and the error; [tmp] is the name the temporary file
    gets. *)
Definition atomic_write_file (f : write_faults) (path tmp raw : bytes) (fs : file_system) : list file_system * option error :=
  let bak := backup_path path in
  if wf_mkdir f then ([fs], io_error "mkdir")
  else if wf_create f then ([fs], io_error "create")
  else
    let made := <[tmp := []]> fs in
    let cleaned states fs err := (states ++ [fs; unless_fails (wf_cleanup f) (base.delete tmp) fs], err) in
    if wf_chmod f then cleaned [fs] made (io_error "chmod")
    else
      match wf_write f with
      | Some part => cleaned [fs; made] (<[tmp := part]> fs) (io_error "write")
      | None =>
          let full := <[tmp := raw]> fs in
          let before := [fs; made; full] in
          if wf_sync f then cleaned before full (io_error "sync")
          else if wf_close f then cleaned before full (io_error "close")
          else if negb (wf_rename f) then (before ++ [rename tmp path full], None)
          else
            let cleared := unless_fails (wf_remove_backup f) (base.delete bak) full in
            if wf_stat f then cleaned (before ++ [cleared]) cleared (io_error "stat")
            else
              let exists_ := bool_decide (is_Some (cleared !! path)) in
              if exists_ && wf_move f then cleaned (before ++ [cleared]) cleared (Some (Errorf "prepare atomic replace: %s" [FB (bs "rename")]))
              else
                let moved := if exists_ then rename path bak cleared else cleared in
                if wf_replace f then
                  let restored := if exists_ then unless_fails (wf_restore f) (rename bak path) moved else moved in
                  cleaned (before ++ [cleared; moved]) restored (io_error "rename")
                else
                  let replaced := rename tmp path moved in
                  (before ++ [cleared; moved; replaced; if exists_ then unless_fails (wf_remove_moved f) (base.delete bak) replaced else replaced], None)
      end.

Section atomic.
Context (path tmp raw : bytes) (fs : file_system).
Context (Htmp : tmp ≠ path) (Hbak : tmp ≠ backup_path path).
#[local] Abbreviation bak := (backup_path path).

Lemma backup_differs : bak ≠ path.
Proof. intros E. apply (f_equal length) in E. unfold backup_path in E. rewrite length_app in E. cbn in E. lia. Qed.

(** What a reader, or a restart after a crash, may find: the old content, or the new one. *)
Definition keeps (s : file_system) : Prop := s !! path = fs !! path ∨ (s !! path = None ∧ s !! bak = fs !! path).
Definition old_or_new (s : file_system) : Prop := keeps s ∨ s !! path = Some raw.
Definition outcome (r : list file_system * option error) : Prop :=
  Forall old_or_new r.1 ∧ ∃ s, last r.1 = Some s ∧ match r.2 with None => s !! path = Some raw | Some _ => keeps s end.

Lemma is_old s : keeps s → old_or_new s.
Proof. by left. Qed.
Lemma is_new s : s !! path = Some raw → old_or_new s.
Proof. by right. Qed.
#[local] Hint Resolve is_old is_new : core.
Ltac states := cbn [fst snd app]; rewrite ?Forall_app, ?Forall_cons, ?Forall_nil; split_and!; auto.

(** Every failure leaves the states so far and the file as it was, less the temporary file. *)
Lemma gave_up states s cleanup e :
  Forall old_or_new states → keeps s → outcome (states ++ [s; unless_fails cleanup (base.delete tmp) s], Some e).
Proof.
  intros Hl Hs. assert (Hc : keeps (unless_fails cleanup (base.delete tmp) s)).
  { unfold unless_fails, keeps in *. destruct cleanup; [done|]. by rewrite !lookup_delete_ne by done. }
  split; cbn.
  - states.
  - eexists. split; [by rewrite last_app|done].
Qed.
Lemma succeeded states s : Forall old_or_new states → s !! path = Some raw → outcome (states ++ [s], None).
Proof.
  intros Hl Hs. split; cbn; [states|].
  eexists. split; [apply last_snoc|done].
Qed.

Lemma replaced_through states c m r l :
  Forall old_or_new states → keeps c → keeps m → r !! path = Some raw → l !! path = Some raw →
  outcome (states ++ [c; m; r; l], None).
Proof.
  intros Hs Hc Hm Hr Hl. split; cbn.
  - states.
  - eexists. split; [by rewrite last_app|done].
Qed.

Lemma keeps_old : keeps fs.
Proof. by left. Qed.
Lemma keeps_tmp part : keeps (<[tmp := part]> fs).
Proof. left. by rewrite lookup_insert_ne. Qed.

(** The way of a system whose rename refuses to replace a file. *)
Section replace.
Context (fails : bool).
#[local] Abbreviation cleared := (unless_fails fails (base.delete bak) (<[tmp := raw]> fs)).
Lemma cleared_path : cleared !! path = fs !! path.
Proof. pose proof backup_differs. unfold unless_fails. destruct fails; by simplify_map_eq. Qed.
Lemma cleared_tmp : cleared !! tmp = Some raw.
Proof. unfold unless_fails. destruct fails; by simplify_map_eq. Qed.
Lemma moved_path old : fs !! path = Some old → rename path bak cleared = <[bak := old]> (base.delete path cleared).
Proof. intros E. unfold rename. by rewrite cleared_path, E. Qed.
Lemma keeps_moved old : fs !! path = Some old → keeps (rename path bak cleared).
Proof. intros E. rewrite (moved_path old E). pose proof backup_differs. right. rewrite E. by simplify_map_eq. Qed.
Lemma keeps_restored old refuse : fs !! path = Some old → keeps (unless_fails refuse (rename bak path) (rename path bak cleared)).
Proof.
  intros E. destruct refuse; [by apply (keeps_moved old)|]. cbn. rewrite (moved_path old E). left. unfold rename.
  rewrite lookup_insert_eq, E. by rewrite lookup_insert_eq.
Qed.
Lemma replaced_path old : fs !! path = Some old → rename tmp path (rename path bak cleared) !! path = Some raw.
Proof.
  intros E. rewrite (moved_path old E). unfold rename at 1. rewrite lookup_insert_ne, lookup_delete_ne, cleared_tmp by congruence.
  by rewrite lookup_insert_eq.
Qed.
Lemma created_path s : s !! tmp = Some raw → rename tmp path s !! path = Some raw.
Proof. intros E. unfold rename. rewrite E. by rewrite lookup_insert_eq. Qed.
End replace.

Lemma write_outcome f : outcome (atomic_write_file f path tmp raw fs).
Proof.
  pose proof keeps_old as H0. pose proof keeps_tmp as Ht. pose proof backup_differs as Hne.
  unfold atomic_write_file. cbv zeta.
  destruct (wf_mkdir f); [split; [states|by eexists]|].
  destruct (wf_create f); [split; [states|by eexists]|].
  destruct (wf_chmod f); [apply gave_up; [states|done]|].
  assert (H1 : Forall old_or_new [fs; <[tmp := []]> fs]) by (states).
  destruct (wf_write f); [by apply gave_up|].
  assert (H2 : Forall old_or_new [fs; <[tmp := []]> fs; <[tmp := raw]> fs]) by (states).
  destruct (wf_sync f); [by apply gave_up|].
  destruct (wf_close f); [by apply gave_up|].
  destruct (wf_rename f); cbn [negb]; [|apply succeeded; [done|]; apply created_path, lookup_insert_eq].
  pose proof (cleared_path (wf_remove_backup f)) as Hp. pose proof (cleared_tmp (wf_remove_backup f)) as Hc.
  set (cleared := unless_fails (wf_remove_backup f) (base.delete (backup_path path)) (<[tmp := raw]> fs)) in *.
  assert (Hk : keeps cleared) by (by left).
  assert (H3 : Forall old_or_new ([fs; <[tmp := []]> fs; <[tmp := raw]> fs] ++ [cleared])) by (states).
  destruct (wf_stat f); [by apply gave_up|].
  rewrite Hp. destruct (fs !! path) as [old|] eqn:E.
  - rewrite bool_decide_eq_true_2 by eauto. cbn [andb].
    destruct (wf_move f); [by apply gave_up|].
    pose proof (keeps_moved (wf_remove_backup f) old E) as Hm. fold cleared in Hm.
    assert (H4 : Forall old_or_new ([fs; <[tmp := []]> fs; <[tmp := raw]> fs] ++ [cleared; rename path bak cleared])) by (states).
    destruct (wf_replace f); [apply gave_up; [done|by apply (keeps_restored _ old)]|].
    pose proof (replaced_path (wf_remove_backup f) old E) as Hr. fold cleared in Hr.
    apply replaced_through; auto. unfold unless_fails. destruct (wf_remove_moved f); [done|]. by rewrite lookup_delete_ne.
  - rewrite bool_decide_eq_false_2 by (by intros [? [=]]). cbn [andb].
    assert (H4 : Forall old_or_new ([fs; <[tmp := []]> fs; <[tmp := raw]> fs] ++ [cleared; cleared])) by (states).
    destruct (wf_replace f); [by apply gave_up|].
    apply replaced_through; auto using created_path.
Qed.
(** C35: A file is never lost while it is replaced: after every operation, whatever fails,
    its path holds the old or the new content, or the old one waits beside it under the
    name of the backup; a success leaves the new content, a failure the old one. *)
Theorem replaced_atomically f states err :
  atomic_write_file f path tmp raw fs = (states, err) →
  Forall (λ s : file_system, s !! path = fs !! path ∨ s !! path = Some raw ∨ (s !! path = None ∧ s !! bak = fs !! path)) states ∧
  ∃ s : file_system, last states = Some s ∧
    match err with
    | None => s !! path = Some raw
    | Some _ => s !! path = fs !! path ∨ (s !! path = None ∧ s !! bak = fs !! path)
    end.
Proof.
  intros E. destruct (write_outcome f) as [Hs Hl]. rewrite E in Hs, Hl. split; [|exact Hl].
  eapply Forall_impl; [exact Hs|]. unfold old_or_new, keeps. tauto.
Qed.
End atomic.

(** A replacement whose last rename fails: the old file is back. *)
Definition demo_faults : write_faults := mkWriteFaults false false false None false false true false false false true false false false.
Definition demo_path : bytes := bs "monsoon.yaml".
Definition demo_tmp : bytes := bs ".monsoon.yaml.tmp1".
Definition demo_fs : file_system := {[ demo_path := bs "old" ]}.
Lemma demo_tmp_other : demo_tmp ≠ demo_path ∧ demo_tmp ≠ backup_path demo_path.
Proof. split; refine (bool_decide_unpack _ _); vm_compute; exact I. Qed.
Lemma replaced_atomically_witness :
  let '(states, err) := atomic_write_file demo_faults demo_path demo_tmp (bs "new") demo_fs in
  Forall (λ s : file_system, s !! demo_path = Some (bs "old") ∨ s !! demo_path = Some (bs "new") ∨
    (s !! demo_path = None ∧ s !! backup_path demo_path = Some (bs "old"))) states.
Proof.
  exact (proj1 (replaced_atomically demo_path demo_tmp (bs "new") demo_fs (proj1 demo_tmp_other) (proj2 demo_tmp_other) demo_faults
    _ _ eq_refl)).
Defined.
Lemma failed_rename_restores :
  (λ s : file_system, s !! demo_path) <$> last (atomic_write_file demo_faults demo_path demo_tmp (bs "new") demo_fs).1 = Some (Some (bs "old")).
Proof. vm_compute. reflexivity. Qed.

(** * Updating the configuration *)

(** [gopkg.in/yaml.v3] on a configuration; [known_fields] is the check that a payload
    has fields of a configuration only. *)
Class ConfigYaml := {
  scalar : Type;
  known_fields : list (bytes * yaml scalar) → option error;
  config_to_map : Config → result (list (bytes * yaml scalar));
  map_text : list (bytes * yaml scalar) → result bytes;
  config_text : Config → result bytes;
  yaml_unmarshal : bytes → Config → result Config;
}.
(** The flags of the command line that matter here. *)
Record DaemonFlags := mkDaemonFlags { df_config_path : bytes; df_data_dir : bytes; df_debug : bool }.
Record DaemonState := mkDaemonState {
  dm_manager : ConfigManager; dm_settings : runtimeSettings; dm_reload : runtimeReloadState; dm_files : file_system
}.

Section update.
Context `{UnicodeTables} `{Services} `{UrlParse} `{ConfigYaml}.
Context (fl : DaemonFlags) (lookup_env : bytes → option bytes).

Definition wrapped {A : Type} (fmt : string) (r : result A) : result A :=
  match r with Err e => Err (Errorf fmt [FB (error_text e)]) | r => r end.
Definition merge_config_payload (current : Config) (payload : list (bytes * yaml scalar)) : result Config :=
  match (if bool_decide (length payload = O) then None else known_fields payload) with
  | Some e => Err (Errorf "invalid config payload: %s" [FB (error_text e)])
  | None =>
      base ← wrapped "marshal current config: %s" (config_to_map current);
      raw ← wrapped "marshal merged config: %s" (map_text (merge_maps base payload));
      wrapped "decode merged config: %s" (yaml_unmarshal raw default_config)
  end.

Definition overridden (c : Config) : Config := apply_runtime_overrides c (df_data_dir fl) (df_debug fl).

(** [cfgManager.Reload] with the callback of the daemon; reading may fail. *)
Definition read_config (read_fault : option error) (files : file_system) (path : bytes) : config_file :=
  match read_fault with
  | Some e => FileError e
  | None => match files !! path with Some text => FileText text | None => FileMissing end
  end.
Definition reload_config (read_fault : option error) (st : DaemonState) : DaemonState * option error :=
  let '(m, called, err) := reload (read_config read_fault (dm_files st)) yaml_unmarshal lookup_env (dm_manager st) in
  (mkDaemonState m (foldl (λ _ call, apply_settings (overridden call.2)) (dm_settings st) called) (dm_reload st) (dm_files st), err).

(** [UpdateConfig] *)
Definition update_config (f : write_faults) (read_fault : option error) (tmp : bytes) (now : time)
    (payload : list (bytes * yaml scalar)) (st : DaemonState) : DaemonState * result Config :=
  let current := cm_cfg (dm_manager st) in
  let before := overridden current in
  match (next ← merge_config_payload current payload;
         match validate next with Some e => Err e | None => config_text next end) with
  | Err e => (st, Err e)
  | Panic m => (st, Panic m)
  | Ok body =>
      let '(states, err) := atomic_write_file f (df_config_path fl) tmp body (dm_files st) in
      let st := mkDaemonState (dm_manager st) (dm_settings st) (dm_reload st) (default (dm_files st) (last states)) in
      match err with
      | Some e => (st, Err e)
      | None =>
          match reload_config read_fault st with
          | (st, Some e) => (st, Err e)
          | (st, None) =>
              let updated := overridden (cm_cfg (dm_manager st)) in
              (mkDaemonState (dm_manager st) (dm_settings st)
                 (mark_reload (dm_reload st) now (restart_required_config_changes before updated)) (dm_files st), Ok updated)
          end
      end
  end.

(** What the daemon is after its start: its manager reads the file of the flags, and
    its settings follow the configuration. *)
Definition running (st : DaemonState) : Prop :=
  cm_path (dm_manager st) = df_config_path fl ∧ cm_on_reloads (dm_manager st) = [O] ∧
  dm_settings st = apply_settings (overridden (cm_cfg (dm_manager st))).

Lemma reload_keeps_running read_fault st : running st → running (reload_config read_fault st).1.
Proof.
  intros (Hp & Hc & Hs). unfold reload_config, reload. destruct (load _ _ _ _); cbn; [|done..]. by rewrite Hc.
Qed.

Lemma reload_spec read_fault st st' err :
  reload_config read_fault st = (st', err) →
  dm_files st' = dm_files st ∧ dm_reload st' = dm_reload st ∧
  match err with
  | None => load (read_config read_fault (dm_files st)) yaml_unmarshal lookup_env (cm_path (dm_manager st)) =
              Ok (cm_cfg (dm_manager st'))
  | Some _ => dm_manager st' = dm_manager st ∧ dm_settings st' = dm_settings st
  end.
Proof.
  unfold reload_config, reload. destruct (load _ _ _ _) eqn:E; intros [= <- <-]; split_and!; auto.
Qed.
Lemma load_text read path text c cfg :
  trim_space path ≠ [] → read path = FileText text → yaml_unmarshal text default_config = Ok c →
  load read yaml_unmarshal lookup_env path = Ok cfg → apply_env_overrides lookup_env c = Ok cfg ∧ validate cfg = None.
Proof.
  intros Hp Hr Hy. unfold load. rewrite (bool_decide_eq_false_2 _ Hp), Hr, Hy. cbv zeta.
  destruct (apply_env_overrides lookup_env c) as [c'| |]; [|discriminate..]. cbn [mbind result_bind].
  destruct (validate c') eqn:Ev; [discriminate|]. by intros [= <-].
Qed.

(** C36: An update of the configuration takes effect as a whole: when it succeeds, the
    merged configuration was validated, is what the file holds, and with the environment
    over it is the running one and decides the settings; when it fails, the daemon runs
    on as before. *)
Theorem update_takes_effect f read_fault tmp now payload st st' res :
  running st → trim_space (df_config_path fl) ≠ [] →
  tmp ≠ df_config_path fl → tmp ≠ backup_path (df_config_path fl) →
  (∀ c raw, config_text c = Ok raw → yaml_unmarshal raw default_config = Ok c) →
  update_config f read_fault tmp now payload st = (st', res) →
  running st' ∧
  match res with
  | Ok updated =>
      ∃ next body, merge_config_payload (cm_cfg (dm_manager st)) payload = Ok next ∧ validate next = None ∧
        config_text next = Ok body ∧ dm_files st' !! df_config_path fl = Some body ∧
        apply_env_overrides lookup_env next = Ok (cm_cfg (dm_manager st')) ∧ validate (cm_cfg (dm_manager st')) = None ∧
        updated = overridden (cm_cfg (dm_manager st'))
  | _ => dm_manager st' = dm_manager st ∧ dm_settings st' = dm_settings st ∧ dm_reload st' = dm_reload st
  end.
Proof.
  intros Hrun Htrim Htmp Hbak Hyaml. unfold update_config. cbv zeta.
  destruct (merge_config_payload _ payload) as [next| |] eqn:Em; cbn [mbind result_bind]; [|by intros [= <- <-]..].
  destruct (validate next) eqn:Ev; [by intros [= <- <-]|].
  destruct (config_text next) as [body| |] eqn:Et; [|by intros [= <- <-]..].
  pose proof (write_outcome _ _ body (dm_files st) Htmp Hbak f) as Hw.
  destruct (atomic_write_file f _ tmp body (dm_files st)) as [states err].
  destruct err; [by intros [= <- <-]|]. destruct Hw as (_ & s & Hlast & Hs). cbn [fst snd] in Hlast, Hs. rewrite Hlast.
  change (default (dm_files st) (Some s)) with s. set (st1 := mkDaemonState (dm_manager st) (dm_settings st) (dm_reload st) s). assert (Hrun1 : running st1) by exact Hrun.
  pose proof (reload_keeps_running read_fault st1 Hrun1) as Hrun2.
  destruct (reload_config read_fault st1) as [st2 err] eqn:Er. apply reload_spec in Er as (Hf & Hr & He).
  destruct err as [e|]; intros [= <- <-]; [by destruct He as [-> ->]|]. split; [exact Hrun2|].
  change (dm_files st1) with s in *. change (cm_path (dm_manager st1)) with (cm_path (dm_manager st)) in He.
  rewrite (proj1 Hrun) in He. exists next, body.
  assert (Hread : read_config read_fault s (df_config_path fl) = FileText body ∨ ∃ e, read_config read_fault s (df_config_path fl) = FileError e).
  { unfold read_config. destruct read_fault; [by eauto|]. rewrite Hs. by left. }
  destruct Hread as [Hread|[e Hread]].
  - destruct (load_text _ _ _ _ _ Htrim Hread (Hyaml _ _ Et) He) as [Henv Hv]. cbn [dm_files dm_manager]. by rewrite Hf.
  - exfalso. revert He. unfold load. rewrite (bool_decide_eq_false_2 _ Htrim), Hread. discriminate.
Qed.
End update.

(** * Backups *)

(** The storage engine and the other files, by their clean absolute path; the engine
    keeps its own files in [storage] under the data directory of the start. *)
Record BackupState := mkBackupState { bs_engine : Engine; bs_files : file_system }.
Record backup_faults := mkBackupFaults { bf_mkdir : bool; bf_write : write_faults }.

Section backups.
Context `{UnicodeTables}.
Context (cwd : list bytes) (engine_dir : bytes).

Definition file_key (path : bytes) : bytes := path_text (abs_path cwd path).
Definition snapshot_file (data_dir : bytes) : bytes := join_path (join_path data_dir (bs "storage")) (bs "snapshot.bin").
(** [os.ReadFile] *)
Definition read_file (st : BackupState) (path : bytes) : result bytes :=
  match (if bool_decide (file_key path = file_key (snapshot_file engine_dir)) then d_snapshot (disk (bs_engine st))
         else bs_files st !! file_key path) with
  | Some raw => Ok raw
  | None => Err (ErrIO "no such file")
  end.

Definition flagged (c : Config) (data_dir_flag : bytes) : Config := apply_runtime_overrides c data_dir_flag false.
Definition created_backup_dir (c : Config) : bytes :=
  if given (bk_path (cf_backup c)) then bk_path (cf_backup c) else join_path (sv_data_dir (cf_server c)) (bs "backups").
Definition backup_name (stamp : bytes) : bytes := bs "monsoon-" ++ stamp ++ bs ".snapshot".

(** [CreateBackup]; [stamp] is the text of the time. *)
Definition create_backup (f : backup_faults) (order : list (bytes * BTree.t)) (io : snap_io) (tmp : bytes) (now : time) (stamp : bytes)
    (c : Config) (st : BackupState) : BackupState * result SystemBackup :=
  let '(e, err) := create_snapshot (bs_engine st) order io in
  let st := mkBackupState e (bs_files st) in
  match err with
  | Some er => (st, Err er)
  | None =>
      if bf_mkdir f then (st, Err (ErrIO "mkdir"))
      else
        match read_file st (snapshot_file (sv_data_dir (cf_server c))) with
        | Err er => (st, Err er)
        | Panic m => (st, Panic m)
        | Ok body =>
            let dst := file_key (join_path (created_backup_dir c) (backup_name stamp)) in
            let '(states, err) := atomic_write_file (bf_write f) dst tmp body (bs_files st) in
            let st := mkBackupState e (default (bs_files st) (last states)) in
            match err with
            | Some er => (st, Err er)
            | None => (st, Ok (mkSystemBackup (backup_name stamp) dst (zlen body) now))
            end
        end
  end.

(** [ListBackups] of what [os.ReadDir] gives: names, whether each is a directory, and its
    size and time when they can be read. *)
Definition list_backups `{SliceSort} (c : Config) (entries : list (bytes * bool * option (Z * time))) : list SystemBackup :=
  sort_slice (λ x y, bu_created_at y <? bu_created_at x)
    (omap (λ en : bytes * bool * option (Z * time),
       let '(name, is_dir, info) := en in
       if is_dir then None
       else '(size, created) ← info; Some (mkSystemBackup name (file_key (join_path (created_backup_dir c) name)) size created)) entries).

(** [restoreBackupFromRequest]; [created] is the time of the file, none when it cannot be
    read. *)
Definition restore_backup (order : list (bytes * BTree.t)) (io : snap_io) (created : option time) (c : Config) (data_dir_flag : bytes)
    (req : RestoreRequest) (st : BackupState) : BackupState * result SystemBackup :=
  match resolve_restore_path cwd (configured_backup_dir c data_dir_flag) req with
  | Err er => (st, Err er)
  | Panic m => (st, Panic m)
  | Ok path =>
      let source := read_file st path in
      let '(e, err) := restore_snapshot (bs_engine st) source order io in
      let st := mkBackupState e (bs_files st) in
      match err, created, source with
      | Some er, _, _ => (st, Err er)
      | None, Some created, Ok raw => (st, Ok (mkSystemBackup (base_name path) path (zlen raw) created))
      | None, _, _ => (st, Err (ErrIO "stat"))
      end
  end.

Lemma resolve_name c flag name :
  let dir := configured_backup_dir c flag in
  trim_space dir = dir → dir ≠ [] → trim_space name = name → segment name →
  resolve_restore_path cwd dir (mkRestoreRequest name []) = Ok (file_key (join_path dir name)).
Proof.
  intros dir Hd Hne Hn Hseg. unfold resolve_restore_path. cbv zeta. rewrite Hd, bool_decide_eq_false_2 by done. cbn [rr_name].
  unfold given. rewrite Hn. destruct Hseg as (H1 & H2 & H3 & H4). rewrite (bool_decide_eq_false_2 (name = [])) by done. cbn [negb].
  assert (Hb : base_name name = name).
  { unfold base_name. rewrite bool_decide_eq_false_2 by done. cbv zeta.
    assert (reverse (drop_slashes (reverse name)) = name) as ->.
    { destruct (reverse name) as [|c0 r] eqn:E; [by rewrite <-(reverse_involutive name), E|]. cbn [drop_slashes]. rewrite bool_decide_eq_false_2.
      - by rewrite <-E, reverse_involutive.
      - intros ->. apply H4, elem_of_reverse. rewrite E. by left. }
    rewrite bool_decide_eq_false_2 by done. destruct (cut_last name slash) as [[x y]|] eqn:E; [|done].
    exfalso. revert x y E. clear -H4. induction name as [|c0 name IH]; intros x y; cbn; [done|].
    apply not_elem_of_cons in H4 as [Hc H4]. destruct (cut_last name slash) as [[]|] eqn:E; [intros _; by eapply IH|].
    by rewrite bool_decide_eq_false_2. }
  rewrite bool_decide_eq_true_2 by done. cbn [negb]. f_equal. unfold file_key. rewrite abs_join by done. f_equal.
  unfold clean_from. rewrite split_byte_none by done. cbn [foldl]. unfold clean_segment.
  by rewrite bool_decide_eq_false_2, bool_decide_eq_false_2 by tauto.
Qed.

(** C37: A restore gives back what was backed up: after a backup that succeeded, whatever
    the engine holds then, restoring it by its name succeeds, and the engine holds
    exactly the rows it had. *)
Theorem backup_restores f order n tmp now stamp c st st1 b e order' n' created :
  let dir := created_backup_dir c in
  let dst := file_key (join_path dir (backup_name stamp)) in
  Forall segment cwd → durable (bs_engine st) → order ≡ₚ map_to_list (trees (bs_engine st)) →
  file_key (snapshot_file (sv_data_dir (cf_server c))) = file_key (snapshot_file engine_dir) →
  dir ≠ [] → trim_space dir = dir → trim_space (backup_name stamp) = backup_name stamp → slash ∉ stamp →
  dst ≠ file_key (snapshot_file engine_dir) → tmp ≠ dst → tmp ≠ backup_path dst →
  create_backup f order (SnapOk n) tmp now stamp c st = (st1, Ok b) →
  closed e = false → w_file (wal e) = FileOpen →
  order' ≡ₚ map_to_list (merge_restored (trees e) (trees (bs_engine st))) → (write_snapshot order').2 = None →
  ∃ st2 b', restore_backup order' (SnapOk n') (Some created) c [] (mkRestoreRequest (bu_name b) []) (mkBackupState e (bs_files st1)) =
      (st2, Ok b') ∧ durable (bs_engine st2) ∧ view (trees (bs_engine st2)) = view (trees (bs_engine st)).
Proof.
  intros dir dst Hcwd Hd Hp Hsrc Hne Htrim Hname Hstamp Hdst Htmp Hbak Hcreate Hc Hw Hp' Hnone.
  assert (Hseg : segment (backup_name stamp)).
  { split_and!; try done. unfold backup_name. rewrite !not_elem_of_app.
    split_and!; [|done|]; refine (bool_decide_unpack _ _); vm_compute; exact I. }
  revert Hcreate. unfold create_backup. destruct (create_snapshot (bs_engine st) order (SnapOk n)) as [e1 [er|]] eqn:Es; [done|].
  destruct (snapshot_refines _ _ _ _ Hd Hp Es) as (_ & _ & Hload). destruct (bf_mkdir f); [done|].
  unfold read_file at 1. rewrite bool_decide_eq_true_2 by done. cbn [bs_engine bs_files]. unfold load_snapshot in Hload.
  destruct (d_snapshot (disk e1)) as [raw|]; [|done]. fold dir dst. pose proof (write_outcome dst tmp raw (bs_files st) Htmp Hbak (bf_write f)) as Hout.
  destruct (atomic_write_file (bf_write f) dst tmp raw (bs_files st)) as [states [er|]]; [done|].
  destruct Hout as (_ & s & Hlast & Hs). cbn [fst snd] in Hlast, Hs. rewrite Hlast. change (default (bs_files st) (Some s)) with s.
  intros [= <- <-]. cbn [bu_name bs_files]. unfold restore_backup.
  change (configured_backup_dir c []) with dir. pose proof (resolve_name c [] (backup_name stamp)) as Hres.
  change (configured_backup_dir c []) with dir in Hres. rewrite (Hres Htrim Hne Hname Hseg). fold dst. cbn [bs_engine bs_files].
  assert (Hread : read_file (mkBackupState e s) dst = Ok raw).
  { unfold read_file. assert (file_key dst = dst) as -> by (unfold dst, file_key; by rewrite abs_path_text by (by apply abs_segments)).
    rewrite bool_decide_eq_false_2 by done. cbn [bs_files]. by rewrite Hs. }
  destruct (restore_refines e raw _ order' n' Hc Hw Hp' Hnone) as [Hok _]. destruct (Hok Hload) as (e2 & Er & Hd2 & Hv).
  rewrite Hread, Er. by do 2 eexists.
Qed.
End backups.

(** A codec of configurations that differ from the default in the host name only. *)
#[local] Instance server_eq_dec : EqDecision ServerConfig. Proof. solve_decision. Defined.
#[local] Instance dhcp_eq_dec : EqDecision DHCPConfig. Proof. solve_decision. Defined.
#[local] Instance rest_eq_dec : EqDecision RESTConfig. Proof. solve_decision. Defined.
#[local] Instance api_eq_dec : EqDecision APIConfig. Proof. solve_decision. Defined.
#[local] Instance session_eq_dec : EqDecision SessionAuthConfig. Proof. solve_decision. Defined.
#[local] Instance auth_eq_dec : EqDecision AuthConfig. Proof. solve_decision. Defined.
#[local] Instance prometheus_eq_dec : EqDecision PrometheusConfig. Proof. solve_decision. Defined.
#[local] Instance backup_eq_dec : EqDecision BackupAutoConfig. Proof. solve_decision. Defined.
#[local] Instance config_eq_dec : EqDecision Config. Proof. solve_decision. Defined.
Definition host_config (host : bytes) : Config :=
  let s := cf_server default_config in
  with_server default_config (mkServerConfig host (sv_data_dir s) (sv_log_level s) (sv_log_format s)).
Definition host_of (c : Config) : bytes := sv_hostname (cf_server c).
Definition host_yaml : ConfigYaml := {|
  scalar := bytes; known_fields _ := None;
  config_to_map c := Ok [(bs "hostname", YLeaf (host_of c))];
  map_text m := match m with [(_, YLeaf host)] => Ok host | _ => Err (errorNew "yaml") end;
  config_text c := if decide (c = host_config (host_of c)) then Ok (host_of c) else Err (errorNew "yaml");
  yaml_unmarshal raw _ := Ok (host_config raw) |}.
#[local] Existing Instance host_yaml.
#[local] Existing Instance ascii_tables.
#[local] Existing Instance no_services.
#[local] Instance no_urls : UrlParse := {| url_parse _ := None |}.
Lemma host_yaml_reads c raw : config_text c = Ok raw → yaml_unmarshal raw default_config = Ok c.
Proof. cbn. destruct (decide _) as [E|]; [|done]. intros [= <-]. by rewrite <-E. Qed.

Definition demo_flags : DaemonFlags := mkDaemonFlags demo_path [] false.
Definition demo_daemon (host : bytes) : DaemonState :=
  mkDaemonState (mkConfigManager demo_path (host_config host) [O]) (apply_settings (host_config host)) (mkReloadState 0 []) demo_fs.
Definition no_faults : write_faults :=
  mkWriteFaults false false false None false false false false false false false false false false.
Definition demo_update (host : bytes) (st : DaemonState) : DaemonState * result Config :=
  update_config demo_flags (λ _, None) no_faults None demo_tmp second [(bs "hostname", YLeaf host)] st.
Lemma demo_running host : running demo_flags (demo_daemon host).
Proof. done. Qed.

Lemma demo_update_result : ∃ updated, (demo_update (bs "new") (demo_daemon (bs "old"))).2 = Ok updated ∧ host_of updated = bs "new".
Proof. eexists. split; vm_compute; reflexivity. Qed.
Lemma demo_path_given : trim_space (df_config_path demo_flags) ≠ [].
Proof. refine (bool_decide_unpack _ _). vm_compute. exact I. Qed.
Lemma update_takes_effect_witness :
  let st := demo_daemon (bs "old") in
  let payload := [(bs "hostname", YLeaf (bs "new"))] in
  let p := update_config demo_flags (λ _, None) no_faults None demo_tmp second payload st in
  running demo_flags p.1 ∧
  match p.2 with
  | Ok updated =>
      ∃ next body, merge_config_payload (cm_cfg (dm_manager st)) payload = Ok next ∧ validate next = None ∧
        config_text next = Ok body ∧ dm_files p.1 !! df_config_path demo_flags = Some body ∧
        apply_env_overrides (λ _, None) next = Ok (cm_cfg (dm_manager p.1)) ∧ validate (cm_cfg (dm_manager p.1)) = None ∧
        updated = overridden demo_flags (cm_cfg (dm_manager p.1))
  | _ => dm_manager p.1 = dm_manager st ∧ dm_settings p.1 = dm_settings st ∧ dm_reload p.1 = dm_reload st
  end.
Proof.
  intros st payload p.
  exact (update_takes_effect demo_flags (λ _, None) no_faults None demo_tmp second payload st p.1 p.2
    (demo_running _) demo_path_given (proj1 demo_tmp_other) (proj2 demo_tmp_other) host_yaml_reads (surjective_pairing p)).
Defined.

(** The restart that the first update asks for is forgotten by the second, although the
    daemon still runs with the first name. *)
Lemma pending_restart_forgotten :
  let st1 := (demo_update (bs "new") (demo_daemon (bs "old"))).1 in
  let st2 := (demo_update (bs "new") st1).1 in
  ro_restart_required (dm_reload st1) = ["server.hostname"%string] ∧ ro_restart_required (dm_reload st2) = [].
Proof. vm_compute. done. Qed.

(** The engine of the demonstration was changed after its backup. *)
Definition demo_changed : Engine :=
  (put StorageTheorems.demo_engine (bs "leases") (bs "b") (bs "2") 7 []).1.
Definition demo_backup : BackupState * result SystemBackup :=
  create_backup demo_cwd (bs "/var/lib/monsoon") (mkBackupFaults false no_faults) (map_to_list (trees StorageTheorems.demo_engine)) (SnapOk 0)
    (bs "/var/lib/monsoon/backups/tmp") second (bs "20240101-000000") default_config (mkBackupState StorageTheorems.demo_engine ∅).
Definition demo_backup_order : list (bytes * BTree.t) :=
  map_to_list (merge_restored (trees demo_changed) (trees StorageTheorems.demo_engine)).
Definition demo_dst : bytes := bs "/var/lib/monsoon/backups/monsoon-20240101-000000.snapshot".
Definition demo_system_backup : SystemBackup :=
  mkSystemBackup (bs "monsoon-20240101-000000.snapshot") demo_dst
    (match demo_backup.2 with Ok b => bu_size_bytes b | _ => 0 end) second.
Lemma demo_backup_result : demo_backup.2 = Ok demo_system_backup.
Proof. vm_compute. reflexivity. Qed.
Lemma demo_backup_made : demo_backup = (demo_backup.1, Ok demo_system_backup).
Proof. rewrite (surjective_pairing demo_backup) at 1. by rewrite demo_backup_result. Qed.
Lemma demo_backup_facts :
  file_key demo_cwd (snapshot_file (sv_data_dir (cf_server default_config))) = file_key demo_cwd (snapshot_file (bs "/var/lib/monsoon")) ∧
  created_backup_dir default_config ≠ [] ∧ trim_space (created_backup_dir default_config) = created_backup_dir default_config ∧
  trim_space (backup_name (bs "20240101-000000")) = backup_name (bs "20240101-000000") ∧ slash ∉ bs "20240101-000000" ∧
  file_key demo_cwd (join_path (created_backup_dir default_config) (backup_name (bs "20240101-000000"))) ≠
    file_key demo_cwd (snapshot_file (bs "/var/lib/monsoon")) ∧
  bs "/var/lib/monsoon/backups/tmp" ≠ file_key demo_cwd (join_path (created_backup_dir default_config) (backup_name (bs "20240101-000000"))) ∧
  bs "/var/lib/monsoon/backups/tmp" ≠
    backup_path (file_key demo_cwd (join_path (created_backup_dir default_config) (backup_name (bs "20240101-000000")))) ∧
  closed demo_changed = false ∧ w_file (wal demo_changed) = FileOpen ∧ (write_snapshot demo_backup_order).2 = None.
Proof. split_and!; first [vm_compute; reflexivity | refine (bool_decide_unpack _ _); vm_compute; exact I]. Qed.
Lemma backup_restores_witness :
  ∃ st2 b', restore_backup demo_cwd (bs "/var/lib/monsoon") demo_backup_order (SnapOk 0) (Some second) default_config []
      (mkRestoreRequest (bu_name demo_system_backup) []) (mkBackupState demo_changed (bs_files demo_backup.1)) = (st2, Ok b') ∧
    durable (bs_engine st2) ∧ view (trees (bs_engine st2)) = view (trees StorageTheorems.demo_engine).
Proof.
  destruct demo_backup_facts as (H1 & H2 & H3 & H4 & H5 & H6 & H7 & H8 & H9 & H10 & H11).
  exact (backup_restores demo_cwd (bs "/var/lib/monsoon") _ _ 0 _ second _ default_config
    (mkBackupState StorageTheorems.demo_engine ∅) _ demo_system_backup demo_changed demo_backup_order 0 second
    demo_cwd_segments (proj1 demo_engine_ok) (reflexivity _) H1 H2 H3 H4 H5 H6 H7 H8 demo_backup_made H9 H10 (reflexivity _) H11).
Defined.
