(* ===== verification/GrpcProto.v ===== *)
(** internal/api/grpc/proto.go: the encoding of messages, after the variable-length
    integers of [encoding/binary]. *)

From S2P Require Import Prelude.
From S2P Require Import GoBytes.

(** [binary.AppendUvarint] of an integer of 64 bits: at most ten bytes. *)
Fixpoint uvarint_bytes (fuel : nat) (x : Z) : bytes :=
  match fuel with
  | O => [byte_of_Z x]
  | S fuel => if x <? 128 then [byte_of_Z x]
              else byte_of_Z (Z.lor (x mod 256) 128) :: uvarint_bytes fuel (Z.shiftr x 7)
  end.
Definition append_uvarint (dst : bytes) (x : Z) : bytes := dst ++ uvarint_bytes 9 x.

(** [binary.AppendVarint]: the sign goes to the lowest bit. *)
Definition append_varint (dst : bytes) (x : Z) : bytes :=
  let ux := u64 (Z.shiftl x 1) in
  append_uvarint dst (if x <? 0 then 18446744073709551615 - ux else ux).

(** [binary.Uvarint]: the value and the number of bytes read, which is not
    positive when the buffer is too short or the value too large. *)
Fixpoint uvarint_loop (i x s : Z) (buf : bytes) : Z * Z :=
  match buf with
  | [] => (0, 0)
  | b :: buf =>
      let b := byte_to_Z b in
      if i =? 10 then (0, - (i + 1))
      else if b <? 128 then
        if (i =? 9) && (1 <? b) then (0, - (i + 1)) else (Z.lor x (Z.shiftl b s), i + 1)
      else uvarint_loop (i + 1) (Z.lor x (Z.shiftl (Z.land b 127) s)) (s + 7) buf
  end.
Definition uvarint (buf : bytes) : Z * Z := uvarint_loop 0 0 0 buf.

(** * Round trip *)

Lemma lor_shiftl a b s : 0 ≤ a < 2 ^ s → 0 ≤ s → Z.lor a (Z.shiftl b s) = a + b * 2 ^ s.
Proof.
  intros Ha Hs. rewrite <-Z.shiftl_mul_pow2 by done. rewrite <-(Z.add_lor_land a).
  replace (Z.land a (Z.shiftl b s)) with 0; [lia|]. symmetry. apply Z.bits_inj'. intros n Hn.
  rewrite Z.land_spec, Z.bits_0. destruct (Z.ltb_spec n s) as [Hl|Hl].
  - rewrite Z.shiftl_spec_low by done. apply andb_false_r.
  - destruct (Z.eq_dec a 0) as [->|Ha0]; [by rewrite Z.bits_0|].
    rewrite Z.bits_above_log2; [done|lia|]. apply Z.log2_lt_pow2; [lia|].
    apply (Z.lt_le_trans _ (2 ^ s)); [lia|]. apply Z.pow_le_mono_r; lia.
Qed.

Lemma continuation_byte x : 0 ≤ x → byte_to_Z (byte_of_Z (Z.lor (x mod 256) 128)) = 128 + x mod 128.
Proof.
  intros Hx. rewrite byte_to_of_Z. assert (Z.lor (x mod 256) 128 = 128 + x mod 128) as ->.
  { assert (Hr : 0 ≤ x mod 256 < 256) by (apply Z.mod_pos_bound; lia).
    assert (Hm : x mod 128 = (x mod 256) mod 128) by (symmetry; apply Z.mod_mod_divide; by exists 2).
    rewrite Hm. generalize dependent (x mod 256). intros y Hy _.
    assert (Hc : forallb (λ n, Z.lor (Z.of_nat n) 128 =? 128 + Z.of_nat n mod 128) (seq 0 256) = true) by (vm_compute; reflexivity).
    rewrite forallb_forall in Hc. specialize (Hc (Z.to_nat y)). rewrite Z2Nat.id in Hc by lia.
    apply Z.eqb_eq, Hc, in_seq. lia. }
  assert (0 ≤ x mod 128 < 128) by (apply Z.mod_pos_bound; lia). rewrite Z.mod_small; lia.
Qed.

Lemma uvarint_loop_bytes fuel : ∀ i x s z rest,
  Z.of_nat fuel = 9 - i → 0 ≤ i → s = 7 * i → 0 ≤ x < 2 ^ s → 0 ≤ z → z * 2 ^ s < 2 ^ 64 →
  uvarint_loop i x s (uvarint_bytes fuel z ++ rest) = (x + z * 2 ^ s, i + zlen (uvarint_bytes fuel z)).
Proof.
  induction fuel as [|fuel IH]; intros i x s z rest Hf Hi -> Hx Hz Hb; cbn [uvarint_bytes].
  - assert (i = 9) as -> by lia. change (2 ^ (7 * 9)) with (2 ^ 63) in *. assert (z < 2) by lia.
    cbn [app uvarint_loop]. rewrite byte_to_of_Z, (Z.mod_small z 256) by lia.
    destruct (Z.ltb_spec z 128); [|lia]. change (9 =? 10) with false. change (9 =? 9) with true. cbn [andb].
    destruct (Z.ltb_spec 1 z); [lia|]. rewrite lor_shiftl by (try lia; exact Hx). by change (7 * 9) with 63.
  - destruct (Z.ltb_spec z 128) as [Hl|Hl].
    + cbn [app uvarint_loop]. rewrite byte_to_of_Z, (Z.mod_small z 256) by lia.
      destruct (Z.eqb_spec i 10); [lia|]. rewrite (proj2 (Z.ltb_lt z 128)) by done.
      assert ((i =? 9) = false) as -> by (apply Z.eqb_neq; lia). cbn [andb].
      rewrite lor_shiftl by (try lia; exact Hx). f_equal.
    + cbn [app uvarint_loop]. rewrite continuation_byte by done.
      assert (0 ≤ z mod 128 < 128) by (apply Z.mod_pos_bound; lia).
      destruct (Z.eqb_spec i 10); [lia|]. destruct (Z.ltb_spec (128 + z mod 128) 128); [lia|].
      assert (Z.land (128 + z mod 128) 127 = z mod 128) as ->.
      { change 127 with (Z.ones 7). rewrite Z.land_ones by lia. change (2 ^ 7) with 128.
        rewrite <-Zplus_mod_idemp_l. change (128 mod 128) with 0. cbn [Z.add]. apply Z.mod_mod. lia. }
      rewrite lor_shiftl by (try lia; exact Hx). rewrite Z.shiftr_div_pow2 by lia. change (2 ^ 7) with 128.
      assert (Hp : 2 ^ (7 * i + 7) = 2 ^ (7 * i) * 128) by (rewrite Z.pow_add_r by lia; done).
      assert (0 < 2 ^ (7 * i)) by (apply Z.pow_pos_nonneg; lia).
      pose proof (Z.div_mod z 128 ltac:(lia)) as Hd. assert (0 ≤ z / 128) by (apply Z.div_pos; lia).
      rewrite IH; [|lia|lia|lia|rewrite Hp; nia|done|rewrite Hp; nia]. rewrite zlen_cons, Hp. f_equal; nia.
Qed.

(** What is appended is read back, and no more is read. *)
Lemma uvarint_append z rest : 0 ≤ z < 2 ^ 64 →
  uvarint (uvarint_bytes 9 z ++ rest) = (z, zlen (uvarint_bytes 9 z)).
Proof.
  intros Hz. unfold uvarint. rewrite uvarint_loop_bytes by (try lia; cbn; lia).
  f_equal; change (2 ^ 0) with 1; lia.
Qed.

Lemma uvarint_bytes_pos fuel z : 0 < zlen (uvarint_bytes fuel z).
Proof.
  destruct fuel; cbn [uvarint_bytes]; [done|]. destruct (z <? 128); [done|]. rewrite zlen_cons.
  pose proof (zlen_nonneg (uvarint_bytes fuel (Z.shiftr z 7))). lia.
Qed.

(** The number of bytes read is within the buffer. *)
Lemma uvarint_loop_read buf : ∀ i x s, 0 ≤ i → (uvarint_loop i x s buf).2 ≤ i + zlen buf.
Proof.
  induction buf as [|b buf IH]; intros i x s Hi; cbn [uvarint_loop]; [unfold zlen; cbn; lia|].
  pose proof (zlen_nonneg buf). rewrite zlen_cons. destruct (i =? 10); [cbn [snd]; lia|].
  destruct (_ <? 128). { destruct (_ && _); cbn [snd]; lia. }
  specialize (IH (i + 1) (Z.lor x (Z.shiftl (Z.land (byte_to_Z b) 127) s)) (s + 7)). lia.
Qed.
Lemma uvarint_read buf : (uvarint buf).2 ≤ zlen buf.
Proof. pose proof (uvarint_loop_read buf 0 0 0 ltac:(lia)). unfold uvarint. lia. Qed.

(** internal/api/grpc/proto.go: the protocol-buffer encoding of the gRPC API.

    The fields of a message are read one after the other; a callback [fn] updates
    the message from the number, the wire type and the content of each. *)

Definition wireVarint : Z := 0.
Definition wireBytes : Z := 2.

Definition append_tag (dst : bytes) (field wire_type : Z) : bytes :=
  if (field <=? 0) || (wire_type <? 0) || (7 <? wire_type) || (4294967295 <? field) then dst
  else append_uvarint dst (Z.lor (Z.shiftl field 3) wire_type).

Definition append_bool (dst : bytes) (field : Z) (value : bool) : bytes :=
  if negb value then dst else append_uvarint (append_tag dst field wireVarint) 1.

Definition append_int64 (dst : bytes) (field value : Z) : bytes :=
  if value =? 0 then dst
  else
    let dst := append_tag dst field wireVarint in
    if value <? 0 then append_varint dst value else append_uvarint dst value.

Definition append_bytes (dst : bytes) (field : Z) (value : bytes) : bytes :=
  if zlen value =? 0 then dst
  else append_uvarint (append_tag dst field wireBytes) (zlen value) ++ value.

Definition append_string (dst : bytes) (field : Z) (value : bytes) : bytes :=
  if bool_decide (value = []) then dst else append_bytes dst field value.

Fixpoint append_strings (dst : bytes) (field : Z) (values : list bytes) : bytes :=
  match values with [] => dst | v :: vs => append_strings (append_string dst field v) field vs end.

(** [appendMessage] of a message that is not nil, by its encoding. *)
Definition append_message (dst : bytes) (field : Z) (body : bytes) : bytes :=
  append_uvarint (append_tag dst field wireBytes) (zlen body) ++ body.

Definition max_int64 : Z := 9223372036854775807.

Definition proto_uint64_to_int (value : Z) : option Z := if max_int64 <? value then None else Some value.

Definition proto_parse_bool (value : Z) : bool := negb (value =? 0).

Section read.
Context {S : Type} (fn : S → Z → Z → bytes → Z → result S).

(** One turn of the loop on bytes that are not empty. *)
Definition read_field (s : S) (data : bytes) : result (S * bytes) :=
  let '(tag, n) := uvarint data in
  if n <=? 0 then Err (errorNew "invalid protobuf tag")
  else
    let data := drop (Z.to_nat n) data in
    match proto_uint64_to_int (Z.shiftr tag 3) with
    | None => Err (errorNew "protobuf field number out of range")
    | Some field =>
        let wire_type := Z.land tag 7 in
        if wire_type =? wireVarint then
          let '(value, read) := uvarint data in
          if read <=? 0 then Err (errorNew "invalid protobuf varint")
          else s ← fn s field wire_type [] value; Ok (s, drop (Z.to_nat read) data)
        else if wire_type =? wireBytes then
          let '(length, read) := uvarint data in
          if read <=? 0 then Err (errorNew "invalid protobuf length")
          else
            let data := drop (Z.to_nat read) data in
            if zlen data <? length then Err (errorNew "protobuf field truncated")
            else s ← fn s field wire_type (take (Z.to_nat length) data) 0; Ok (s, drop (Z.to_nat length) data)
        else Err (Errorf "unsupported protobuf wire type %d" [FZ wire_type])
    end.

(** The loop: every turn reads at least a byte, so the length bounds it. *)
Fixpoint read_fields (fuel : nat) (s : S) (data : bytes) : result S :=
  match data with
  | [] => Ok s
  | _ :: _ =>
      match fuel with
      | O => Panic "out of fuel"
      | Datatypes.S fuel => '(s, data) ← read_field s data; read_fields fuel s data
      end
  end.

Definition read_proto_fields (s : S) (data : bytes) : result S := read_fields (length data) s data.

(** ** The loop ends *)

Lemma read_field_shorter s data s' data' :
  read_field s data = Ok (s', data') → (length data' < length data)%nat.
Proof.
  unfold read_field. pose proof (uvarint_read data) as Hr. destruct (uvarint data) as [tag n]. cbn [snd] in Hr.
  destruct (Z.leb_spec n 0) as [|Hn]; [done|].
  assert (Hd : (length (drop (Z.to_nat n) data) < length data)%nat) by (rewrite length_drop; unfold zlen in Hr; lia).
  destruct (proto_uint64_to_int _) as [field|]; [|done]. destruct (_ =? wireVarint).
  - destruct (uvarint (drop (Z.to_nat n) data)) as [value read]. destruct (read <=? 0); [done|].
    destruct (fn _ _ _ _ _); [|done..]. cbn. intros [= <- <-]. rewrite !length_drop in *. lia.
  - destruct (_ =? wireBytes); [|done]. destruct (uvarint (drop (Z.to_nat n) data)) as [len read].
    destruct (read <=? 0); [done|]. destruct (_ <? len); [done|].
    destruct (fn _ _ _ _ _); [|done..]. cbn. intros [= <- <-]. rewrite !length_drop in *. lia.
Qed.

Lemma read_fields_fuel fuel : ∀ fuel' s data, (length data ≤ fuel)%nat → (length data ≤ fuel')%nat →
  read_fields fuel s data = read_fields fuel' s data.
Proof.
  induction fuel as [|fuel IH]; intros fuel' s [|b data] H H'; cbn in H, H'; try lia; [by destruct fuel'|by destruct fuel'|].
  destruct fuel' as [|fuel']; [lia|]. cbn [read_fields].
  destruct (read_field s (b :: data)) as [[s' data']| |] eqn:E; [|done..]. cbn.
  apply read_field_shorter in E. cbn in E. apply IH; lia.
Qed.

Lemma read_proto_nil s : read_proto_fields s [] = Ok s.
Proof. done. Qed.

Lemma read_proto_step s data : data ≠ [] →
  read_proto_fields s data = ('(s', data') ← read_field s data; read_proto_fields s' data').
Proof.
  intros Hd. unfold read_proto_fields at 1. destruct data as [|b data]; [done|]. cbn [length read_fields].
  destruct (read_field s (b :: data)) as [[s' data']| |] eqn:E; [|done..]. cbn.
  apply read_field_shorter in E. cbn in E. apply read_fields_fuel; lia.
Qed.

(** Reading ends without a panic when the callback never panics. *)
Lemma read_proto_total s data :
  (∀ s f w raw v, ∀ m, fn s f w raw v ≠ Panic m) → ∀ m, read_proto_fields s data ≠ Panic m.
Proof.
  intros Hfn. remember (length data) as n eqn:Hn. revert s data Hn.
  induction (lt_wf n) as [n _ IH]. intros s data -> m. destruct (decide (data = [])) as [->|Hd]; [done|].
  rewrite read_proto_step by done. destruct (read_field s data) as [[s' data']| |] eqn:E.
  - cbn. apply read_field_shorter in E. by eapply IH.
  - done.
  - exfalso. unfold read_field in E. destruct (uvarint data) as [tag k]. destruct (k <=? 0); [done|].
    destruct (proto_uint64_to_int _) as [field|]; [|done]. destruct (_ =? wireVarint).
    + destruct (uvarint (drop (Z.to_nat k) data)) as [value read]. destruct (read <=? 0); [done|].
      destruct (fn s field (Z.land tag 7) [] value) eqn:F; cbn in E; [done|done|by eapply Hfn].
    + destruct (_ =? wireBytes); [|done]. destruct (uvarint (drop (Z.to_nat k) data)) as [len read].
      destruct (read <=? 0); [done|]. destruct (_ <? len); [done|].
      match type of E with context [fn ?a ?b ?c ?d ?e] => destruct (fn a b c d e) eqn:F end;
        cbn in E; [done|done|by eapply Hfn].
Qed.

(** ** Reading what was appended *)

Lemma append_tag_bytes dst f w : 0 < f ≤ 4294967295 → 0 ≤ w ≤ 7 →
  append_tag dst f w = dst ++ uvarint_bytes 9 (f * 8 + w).
Proof.
  intros Hf Hw. unfold append_tag. destruct (Z.leb_spec f 0); [lia|]. destruct (Z.ltb_spec w 0); [lia|].
  destruct (Z.ltb_spec 7 w); [lia|]. destruct (Z.ltb_spec 4294967295 f); [lia|]. cbn [orb].
  unfold append_uvarint. rewrite Z.lor_comm, lor_shiftl by lia. f_equal. f_equal. change (2 ^ 3) with 8. lia.
Qed.

Lemma read_tag f w data s : 0 < f ≤ 4294967295 → 0 ≤ w ≤ 7 →
  read_field s (uvarint_bytes 9 (f * 8 + w) ++ data) =
  (if w =? wireVarint then
     let '(value, read) := uvarint data in
     if read <=? 0 then Err (errorNew "invalid protobuf varint")
     else s ← fn s f w [] value; Ok (s, drop (Z.to_nat read) data)
   else if w =? wireBytes then
     let '(length, read) := uvarint data in
     if read <=? 0 then Err (errorNew "invalid protobuf length")
     else
       let data := drop (Z.to_nat read) data in
       if zlen data <? length then Err (errorNew "protobuf field truncated")
       else s ← fn s f w (take (Z.to_nat length) data) 0; Ok (s, drop (Z.to_nat length) data)
   else Err (Errorf "unsupported protobuf wire type %d" [FZ w])).
Proof.
  intros Hf Hw. unfold read_field. rewrite uvarint_append by lia.
  pose proof (uvarint_bytes_pos 9 (f * 8 + w)). destruct (Z.leb_spec (zlen (uvarint_bytes 9 (f * 8 + w))) 0); [lia|].
  rewrite drop_zlen.
  assert (Z.shiftr (f * 8 + w) 3 = f) as ->.
  { rewrite Z.shiftr_div_pow2 by lia. change (2 ^ 3) with 8. rewrite Z.div_add_l by lia. rewrite Z.div_small; lia. }
  assert (Z.land (f * 8 + w) 7 = w) as ->.
  { change 7 with (Z.ones 3). rewrite Z.land_ones by lia. change (2 ^ 3) with 8.
    rewrite Z.add_comm, Z_mod_plus_full. apply Z.mod_small. lia. }
  unfold proto_uint64_to_int, max_int64. destruct (Z.ltb_spec 9223372036854775807 f); [lia|]. done.
Qed.

Lemma read_varint s f value rest : 0 < f ≤ 4294967295 → 0 ≤ value < 2 ^ 64 →
  read_proto_fields s (append_uvarint (append_tag [] f wireVarint) value ++ rest) =
    (s' ← fn s f wireVarint [] value; read_proto_fields s' rest).
Proof.
  intros Hf Hv. rewrite append_tag_bytes by (unfold wireVarint; lia). unfold append_uvarint. cbn [app].
  pose proof (uvarint_bytes_pos 9 (f * 8 + wireVarint)).
  rewrite read_proto_step by (intros E; rewrite <-app_assoc in E; apply app_eq_nil in E as [E _]; by rewrite E in *).
  rewrite <-app_assoc, read_tag by (unfold wireVarint; lia). cbn [Z.eqb wireVarint].
  rewrite uvarint_append by done. pose proof (uvarint_bytes_pos 9 value).
  destruct (Z.leb_spec (zlen (uvarint_bytes 9 value)) 0); [lia|]. rewrite drop_zlen.
  by destruct (fn s f wireVarint [] value).
Qed.

Lemma read_message s f body rest : 0 < f ≤ 4294967295 → zlen body < 2 ^ 63 →
  read_proto_fields s (append_message [] f body ++ rest) =
    (s' ← fn s f wireBytes body 0; read_proto_fields s' rest).
Proof.
  intros Hf Hv. unfold append_message. rewrite append_tag_bytes by (unfold wireBytes; lia).
  unfold append_uvarint. cbn [app]. pose proof (uvarint_bytes_pos 9 (f * 8 + wireBytes)). pose proof (zlen_nonneg body).
  rewrite read_proto_step
    by (intros E; rewrite <-!app_assoc in E; apply app_eq_nil in E as [E _]; by rewrite E in *).
  rewrite <-!app_assoc, read_tag by (unfold wireBytes; lia). cbn [Z.eqb wireVarint wireBytes Pos.eqb].
  rewrite uvarint_append by lia. pose proof (uvarint_bytes_pos 9 (zlen body)).
  destruct (Z.leb_spec (zlen (uvarint_bytes 9 (zlen body))) 0); [lia|]. rewrite drop_zlen. cbv zeta.
  rewrite zlen_app. pose proof (zlen_nonneg rest). destruct (Z.ltb_spec (zlen body + zlen rest) (zlen body)); [lia|].
  rewrite take_zlen, drop_zlen. by destruct (fn s f _ body 0).
Qed.
End read.

(** * Appending goes to the end *)

Lemma append_tag_app dst f w : append_tag dst f w = dst ++ append_tag [] f w.
Proof. unfold append_tag. destruct (_ || _); [by rewrite app_nil_r|done]. Qed.
Lemma append_bool_app dst f b : append_bool dst f b = dst ++ append_bool [] f b.
Proof.
  unfold append_bool. destruct b; cbn; [|by rewrite app_nil_r]. unfold append_uvarint.
  by rewrite append_tag_app, app_assoc.
Qed.
Lemma append_int64_app dst f z : append_int64 dst f z = dst ++ append_int64 [] f z.
Proof.
  unfold append_int64. destruct (z =? 0); [by rewrite app_nil_r|]. unfold append_varint, append_uvarint.
  rewrite (append_tag_app dst). by destruct (z <? 0); rewrite app_assoc.
Qed.
Lemma append_message_app dst f b : append_message dst f b = dst ++ append_message [] f b.
Proof. unfold append_message, append_uvarint. rewrite (append_tag_app dst). by rewrite !app_assoc. Qed.
Lemma append_string_app dst f v : append_string dst f v = dst ++ append_string [] f v.
Proof.
  unfold append_string. case_bool_decide; [by rewrite app_nil_r|]. unfold append_bytes.
  destruct (_ =? 0); [by rewrite app_nil_r|]. exact (append_message_app dst f v).
Qed.
Lemma append_strings_app f vs : ∀ dst, append_strings dst f vs = dst ++ append_strings [] f vs.
Proof.
  induction vs as [|v vs IH]; intros dst; cbn; [by rewrite app_nil_r|].
  rewrite IH, (IH (append_string [] f v)), (append_string_app dst). by rewrite app_assoc.
Qed.

(** ** The fields of a message, read back *)

(** What a 64-bit integer becomes on the wire. *)
Definition wire_uint (z : Z) : Z := if z <? 0 then - 2 * z - 1 else z.

Definition int64_ok (z : Z) : Prop := -9223372036854775808 ≤ z ≤ 9223372036854775807.
#[global] Instance int64_ok_dec z : Decision (int64_ok z).
Proof. unfold int64_ok. apply _. Defined.

Lemma append_varint_wire dst z : int64_ok z → z < 0 → append_varint dst z = append_uvarint dst (wire_uint z).
Proof.
  intros [Hl Hu] Hz. unfold append_varint, wire_uint. rewrite (proj2 (Z.ltb_lt z 0)) by done. f_equal.
  rewrite Z.shiftl_mul_pow2 by lia. change (2 ^ 1) with 2. unfold u64.
  assert ((z * 2) mod 18446744073709551616 = z * 2 + 18446744073709551616) as ->; [|lia].
  symmetry. apply (Z.mod_unique_pos _ _ (-1)); lia.
Qed.

Section fields.
Context {S : Type} (fn : S → Z → Z → bytes → Z → result S).

Lemma read_string s f v rest s' :
  0 < f ≤ 4294967295 → zlen v < 2 ^ 63 → (v ≠ [] → fn s f wireBytes v 0 = Ok s') → (v = [] → s' = s) →
  read_proto_fields fn s (append_string [] f v ++ rest) = read_proto_fields fn s' rest.
Proof.
  intros Hf Hv Hfn Hn. unfold append_string. case_bool_decide as E; [by rewrite Hn|].
  unfold append_bytes. destruct (Z.eqb_spec (zlen v) 0) as [E'|E']; [by destruct v|].
  change (append_uvarint (append_tag [] f wireBytes) (zlen v) ++ v) with (append_message [] f v).
  rewrite read_message by done. by rewrite Hfn.
Qed.

Lemma read_bool s f b rest s' :
  0 < f ≤ 4294967295 → (b = true → fn s f wireVarint [] 1 = Ok s') → (b = false → s' = s) →
  read_proto_fields fn s (append_bool [] f b ++ rest) = read_proto_fields fn s' rest.
Proof.
  intros Hf Hfn Hn. unfold append_bool. destruct b; cbn [negb]; [|by rewrite Hn].
  rewrite read_varint by lia. by rewrite Hfn.
Qed.

Lemma read_int s f z rest s' :
  0 < f ≤ 4294967295 → int64_ok z → (z ≠ 0 → fn s f wireVarint [] (wire_uint z) = Ok s') → (z = 0 → s' = s) →
  read_proto_fields fn s (append_int64 [] f z ++ rest) = read_proto_fields fn s' rest.
Proof.
  intros Hf Hz Hfn Hn. unfold append_int64. destruct (Z.eqb_spec z 0) as [E|E]; [by rewrite Hn|].
  destruct Hz as [Hl Hu].
  assert ((if z <? 0 then append_varint (append_tag [] f wireVarint) z
           else append_uvarint (append_tag [] f wireVarint) z) =
    append_uvarint (append_tag [] f wireVarint) (wire_uint z)) as ->.
  { destruct (Z.ltb_spec z 0) as [Hn0|Hn0]; [by apply append_varint_wire|].
    unfold wire_uint. by rewrite (proj2 (Z.ltb_ge z 0)). }
  rewrite read_varint; [by rewrite Hfn|done|]. unfold wire_uint. destruct (Z.ltb_spec z 0); lia.
Qed.

Lemma read_strings f (add : S → bytes → S) vs : ∀ s rest,
  0 < f ≤ 4294967295 → Forall (λ v, zlen v < 2 ^ 63) vs → (∀ s v, fn s f wireBytes v 0 = Ok (add s v)) →
  read_proto_fields fn s (append_strings [] f vs ++ rest) =
    read_proto_fields fn (foldl add s (filter (λ v, v ≠ []) vs)) rest.
Proof.
  induction vs as [|v vs IH]; intros s rest Hf Hv Hfn; [done|]. apply Forall_cons in Hv as [Hv Hvs].
  cbn [append_strings]. rewrite append_strings_app, <-app_assoc, filter_cons.
  rewrite (read_string s f v _ (if decide (v ≠ []) then add s v else s)).
  - rewrite IH by done. by destruct (decide (v ≠ [])).
  - done.
  - done.
  - intros Hn. by rewrite decide_True.
  - intros Hn. by rewrite decide_False by (intros ?; done).
Qed.
End fields.
