(* ===== verification/GrpcMessages.v ===== *)
(** internal/api/grpc/messages.go: the messages of the gRPC API.

    A request is read by updating an empty request with each field; a response is
    written field by field, the fields that are empty being left out. *)

From S2P Require Import Prelude.
From S2P Require Import GoBytes.
From S2P Require Import GoStrings.
From S2P Require Import GoTime.
From S2P Require Import Lease.
From S2P Require Import Ipam.
From S2P Require Import GrpcProto.

Definition uint64_to_int (value : Z) : option Z := if max_int64 <? value then None else Some value.
Definition int_or (value : Z) (msg : string) : result Z :=
  match uint64_to_int value with Some z => Ok z | None => Err (errorNew msg) end.

(** * Requests *)

Record cidrRequest := mkCidrRequest { cq_cidr : bytes }.

Definition marshal_cidr_request (r : cidrRequest) : bytes := append_string [] 1 (cq_cidr r).
Definition cidr_request_field (r : cidrRequest) (field wire_type : Z) (raw : bytes) (_ : Z) : result cidrRequest :=
  if (field =? 1) && (wire_type =? wireBytes) then Ok (mkCidrRequest (trim_space raw)) else Ok r.
Definition unmarshal_cidr_request (data : bytes) : result cidrRequest :=
  read_proto_fields cidr_request_field (mkCidrRequest []) data.

Record subnetMutationRequest := mkSubnetMutationRequest {
  sm_cidr : bytes; sm_name : bytes; sm_vlan : Z; sm_gateway : bytes; sm_dns : list bytes;
  sm_dhcp_enable : bool; sm_pool_start : bytes; sm_pool_end : bytes; sm_lease_sec : Z
}.
#[global] Instance eta_subnetMutationRequest : Eta subnetMutationRequest := λ r,
  mkSubnetMutationRequest (sm_cidr r) (sm_name r) (sm_vlan r) (sm_gateway r) (sm_dns r) (sm_dhcp_enable r)
    (sm_pool_start r) (sm_pool_end r) (sm_lease_sec r).

Definition marshal_subnet_mutation_request (r : subnetMutationRequest) : bytes :=
  let out := append_string [] 1 (sm_cidr r) in
  let out := append_string out 2 (sm_name r) in
  let out := append_int64 out 3 (sm_vlan r) in
  let out := append_string out 4 (sm_gateway r) in
  let out := append_strings out 5 (sm_dns r) in
  let out := append_bool out 6 (sm_dhcp_enable r) in
  let out := append_string out 7 (sm_pool_start r) in
  let out := append_string out 8 (sm_pool_end r) in
  append_int64 out 9 (sm_lease_sec r).

Definition subnet_mutation_request_field (r : subnetMutationRequest) (field _ : Z) (raw : bytes) (value : Z)
    : result subnetMutationRequest :=
  match field with
  | 1 => Ok (r <| sm_cidr := trim_space raw |>)
  | 2 => Ok (r <| sm_name := trim_space raw |>)
  | 3 => vlan ← int_or value "vlan value out of range"; Ok (r <| sm_vlan := vlan |>)
  | 4 => Ok (r <| sm_gateway := trim_space raw |>)
  | 5 => Ok (r <| sm_dns := sm_dns r ++ [trim_space raw] |>)
  | 6 => Ok (r <| sm_dhcp_enable := proto_parse_bool value |>)
  | 7 => Ok (r <| sm_pool_start := trim_space raw |>)
  | 8 => Ok (r <| sm_pool_end := trim_space raw |>)
  | 9 => lease_sec ← int_or value "lease duration value out of range"; Ok (r <| sm_lease_sec := lease_sec |>)
  | _ => Ok r
  end.
Definition zero_subnet_mutation_request : subnetMutationRequest := mkSubnetMutationRequest [] [] 0 [] [] false [] [] 0.
Definition unmarshal_subnet_mutation_request (data : bytes) : result subnetMutationRequest :=
  read_proto_fields subnet_mutation_request_field zero_subnet_mutation_request data.

(** [listLeasesRequest] and [searchAddressesRequest] have the same fields. *)
Record searchRequest := mkSearchRequest { sq_subnet_cidr : bytes; sq_state : bytes; sq_query : bytes; sq_limit : Z }.
#[global] Instance eta_searchRequest : Eta searchRequest := λ r,
  mkSearchRequest (sq_subnet_cidr r) (sq_state r) (sq_query r) (sq_limit r).

Definition marshal_search_request (r : searchRequest) : bytes :=
  let out := append_string [] 1 (sq_subnet_cidr r) in
  let out := append_string out 2 (sq_state r) in
  let out := append_string out 3 (sq_query r) in
  append_int64 out 4 (sq_limit r).
Definition search_request_field (r : searchRequest) (field _ : Z) (raw : bytes) (value : Z) : result searchRequest :=
  match field with
  | 1 => Ok (r <| sq_subnet_cidr := trim_space raw |>)
  | 2 => Ok (r <| sq_state := trim_space raw |>)
  | 3 => Ok (r <| sq_query := trim_space raw |>)
  | 4 => limit ← int_or value "limit value out of range"; Ok (r <| sq_limit := limit |>)
  | _ => Ok r
  end.
Definition unmarshal_search_request (data : bytes) : result searchRequest :=
  read_proto_fields search_request_field (mkSearchRequest [] [] [] 0) data.

Record reserveAddressRequest := mkReserveAddressRequest {
  rq_ip : bytes; rq_subnet_cidr : bytes; rq_mac : bytes; rq_hostname : bytes
}.
#[global] Instance eta_reserveAddressRequest : Eta reserveAddressRequest := λ r,
  mkReserveAddressRequest (rq_ip r) (rq_subnet_cidr r) (rq_mac r) (rq_hostname r).

Definition marshal_reserve_address_request (r : reserveAddressRequest) : bytes :=
  let out := append_string [] 1 (rq_ip r) in
  let out := append_string out 2 (rq_subnet_cidr r) in
  let out := append_string out 3 (rq_mac r) in
  append_string out 4 (rq_hostname r).
Definition reserve_address_request_field (r : reserveAddressRequest) (field _ : Z) (raw : bytes) (_ : Z)
    : result reserveAddressRequest :=
  match field with
  | 1 => Ok (r <| rq_ip := trim_space raw |>)
  | 2 => Ok (r <| rq_subnet_cidr := trim_space raw |>)
  | 3 => Ok (r <| rq_mac := trim_space raw |>)
  | 4 => Ok (r <| rq_hostname := trim_space raw |>)
  | _ => Ok r
  end.
Definition unmarshal_reserve_address_request (data : bytes) : result reserveAddressRequest :=
  read_proto_fields reserve_address_request_field (mkReserveAddressRequest [] [] [] []) data.

Record triggerScanRequest := mkTriggerScanRequest { tq_reason : bytes; tq_subnets : list bytes }.
Definition marshal_trigger_scan_request (r : triggerScanRequest) : bytes :=
  append_strings (append_string [] 1 (tq_reason r)) 2 (tq_subnets r).
Definition trigger_scan_request_field (r : triggerScanRequest) (field _ : Z) (raw : bytes) (_ : Z)
    : result triggerScanRequest :=
  match field with
  | 1 => Ok (mkTriggerScanRequest (trim_space raw) (tq_subnets r))
  | 2 => Ok (mkTriggerScanRequest (tq_reason r) (tq_subnets r ++ [trim_space raw]))
  | _ => Ok r
  end.
Definition unmarshal_trigger_scan_request (data : bytes) : result triggerScanRequest :=
  read_proto_fields trigger_scan_request_field (mkTriggerScanRequest [] []) data.

(** The requests without fields. *)
Definition unmarshal_no_fields (data : bytes) : result () :=
  if bool_decide (data = []) then Ok () else read_proto_fields (λ u _ _ _ _, Ok u) () data.

(** * Responses *)

Record subnetMessage := mkSubnetMessage {
  xs_cidr : bytes; xs_name : bytes; xs_vlan : Z; xs_gateway : bytes; xs_dns : list bytes; xs_dhcp : bool;
  xs_pool_start : bytes; xs_pool_end : bytes; xs_lease_sec : Z; xs_created_at : Z; xs_updated_at : Z
}.
Definition new_subnet_message (item : Subnet) : subnetMessage :=
  mkSubnetMessage (sn_cidr item) (sn_name item) (sn_vlan item) (sn_gateway item) (sn_dns item)
    (dp_enabled (sn_dhcp item)) (dp_pool_start (sn_dhcp item)) (dp_pool_end (sn_dhcp item))
    (dp_lease_time_sec (sn_dhcp item)) (unix (sn_created_at item)) (unix (sn_updated_at item)).
Definition marshal_subnet_message (m : subnetMessage) : bytes :=
  let out := append_string [] 1 (xs_cidr m) in
  let out := append_string out 2 (xs_name m) in
  let out := append_int64 out 3 (xs_vlan m) in
  let out := append_string out 4 (xs_gateway m) in
  let out := append_strings out 5 (xs_dns m) in
  let out := append_bool out 6 (xs_dhcp m) in
  let out := append_string out 7 (xs_pool_start m) in
  let out := append_string out 8 (xs_pool_end m) in
  let out := append_int64 out 9 (xs_lease_sec m) in
  let out := append_int64 out 10 (xs_created_at m) in
  append_int64 out 11 (xs_updated_at m).

Record utilizationResponse := mkUtilizationResponse {
  ut_cidr : bytes; ut_name : bytes; ut_active_leases : Z; ut_total_leases : Z; ut_utilization : Z
}.
Definition marshal_utilization_response (m : utilizationResponse) : bytes :=
  let out := append_string [] 1 (ut_cidr m) in
  let out := append_string out 2 (ut_name m) in
  let out := append_int64 out 3 (ut_active_leases m) in
  let out := append_int64 out 4 (ut_total_leases m) in
  append_int64 out 5 (ut_utilization m).

Record leaseMessage := mkLeaseMessage {
  xl_ip : bytes; xl_mac : bytes; xl_hostname : bytes; xl_state : bytes; xl_subnet_id : bytes;
  xl_relay_addr : bytes; xl_expiry_unix : Z; xl_updated_at : Z; xl_duration : Z
}.
Definition new_lease_message (item : Lease) : leaseMessage :=
  mkLeaseMessage (l_ip item) (l_mac item) (l_hostname item) (l_state item) (l_subnet_id item) (l_relay_addr item)
    (unix (l_expiry_time item)) (unix (l_updated_at item)) (float_trunc (seconds (l_duration item))).
Definition marshal_lease_message (m : leaseMessage) : bytes :=
  let out := append_string [] 1 (xl_ip m) in
  let out := append_string out 2 (xl_mac m) in
  let out := append_string out 3 (xl_hostname m) in
  let out := append_string out 4 (xl_state m) in
  let out := append_string out 5 (xl_subnet_id m) in
  let out := append_string out 6 (xl_relay_addr m) in
  let out := append_int64 out 7 (xl_expiry_unix m) in
  let out := append_int64 out 8 (xl_updated_at m) in
  append_int64 out 9 (xl_duration m).

Record leaseEventMessage := mkLeaseEventMessage {
  xe_type : bytes; xe_ip : bytes; xe_occurred_at : Z; xe_lease : option leaseMessage
}.
Definition marshal_lease_event_message (m : leaseEventMessage) : bytes :=
  let out := append_string [] 1 (xe_type m) in
  let out := append_string out 2 (xe_ip m) in
  let out := match xe_lease m with Some l => append_message out 3 (marshal_lease_message l) | None => out end in
  append_int64 out 4 (xe_occurred_at m).

Record ipAddressMessage := mkIPAddressMessage {
  xa_ip : bytes; xa_subnet_cidr : bytes; xa_state : bytes; xa_mac : bytes; xa_hostname : bytes;
  xa_lease_state : bytes; xa_source : bytes; xa_updated_at : Z
}.
Definition new_ip_address_message (item : AddressRecord) : ipAddressMessage :=
  mkIPAddressMessage (ad_ip item) (ad_subnet_cidr item) (ad_state item) (ad_mac item) (ad_hostname item)
    (ad_lease_state item) (ad_source item) (unix (ad_updated_at item)).
Definition marshal_ip_address_message (m : ipAddressMessage) : bytes :=
  let out := append_string [] 1 (xa_ip m) in
  let out := append_string out 2 (xa_subnet_cidr m) in
  let out := append_string out 3 (xa_state m) in
  let out := append_string out 4 (xa_mac m) in
  let out := append_string out 5 (xa_hostname m) in
  let out := append_string out 6 (xa_lease_state m) in
  let out := append_string out 7 (xa_source m) in
  append_int64 out 8 (xa_updated_at m).

(** [listSubnetsResponse], [listLeasesResponse], [searchAddressesResponse] and
    [conflictsResponse]: a repeated field of messages. *)
Fixpoint marshal_items (out : bytes) (items : list bytes) : bytes :=
  match items with [] => out | item :: items => marshal_items (append_message out 1 item) items end.

Record scanResponse := mkScanResponse { sp_status : bytes; sp_scan_id : bytes; sp_estimated_in : bytes }.
Definition marshal_scan_response (m : scanResponse) : bytes :=
  append_string (append_string (append_string [] 1 (sp_status m)) 2 (sp_scan_id m)) 3 (sp_estimated_in m).

Record conflictMessage := mkConflictMessage { xc_ip : bytes; xc_macs : list bytes; xc_severity : bytes; xc_note : bytes }.
Definition marshal_conflict_message (m : conflictMessage) : bytes :=
  append_string (append_string (append_strings (append_string [] 1 (xc_ip m)) 2 (xc_macs m)) 3 (xc_severity m)) 4
    (xc_note m).

Record discoveryEventMessage := mkDiscoveryEventMessage {
  xd_type : bytes; xd_scan_id : bytes; xd_subnet : bytes; xd_ip : bytes; xd_found : Z; xd_macs : list bytes;
  xd_occurred_at : Z; xd_note : bytes
}.
Definition marshal_discovery_event_message (m : discoveryEventMessage) : bytes :=
  let out := append_string [] 1 (xd_type m) in
  let out := append_string out 2 (xd_scan_id m) in
  let out := append_string out 3 (xd_subnet m) in
  let out := append_string out 4 (xd_ip m) in
  let out := append_int64 out 5 (xd_found m) in
  let out := append_strings out 6 (xd_macs m) in
  let out := append_int64 out 7 (xd_occurred_at m) in
  append_string out 8 (xd_note m).

Record systemHealthResponse := mkSystemHealthResponse {
  hr_status : bytes; hr_ready : bool; hr_version : bytes; hr_uptime : bytes; hr_payload_json : bytes
}.
Definition marshal_system_health_response (m : systemHealthResponse) : bytes :=
  let out := append_string [] 1 (hr_status m) in
  let out := append_bool out 2 (hr_ready m) in
  let out := append_string out 3 (hr_version m) in
  let out := append_string out 4 (hr_uptime m) in
  append_string out 5 (hr_payload_json m).
