(* ===== verification/GrpcServer.v ===== *)
(** internal/api/grpc: server.go and the unary methods of lease_service.go,
    subnet_service.go, address_service.go and discovery_service.go; the streams are
    in GrpcStreams.v.

    The handler's dependencies are its state ([GrpcState]); each may be missing.
    A method has the role it requires, a decoder and a call; the outcome of a
    request is an HTTP error or a gRPC status with at most one frame. *)

From S2P Require Import Prelude.
From S2P Require Import GoBytes.
From S2P Require Import GoStrings.
From S2P Require Import GoTime.
From S2P Require Import GoJson.
From S2P Require Import GoSort.
From S2P Require Import Wal.
From S2P Require Import StorageEngine.
From S2P Require Import Lease.
From S2P Require Import LeaseStore.
From S2P Require Import LeaseInterface.
From S2P Require Import Ipam.
From S2P Require Import Auth.
From S2P Require Import Events.
From S2P Require Import Discovery.
From S2P Require Import EventData.
From S2P Require Import GrpcProto.
From S2P Require Import GrpcMessages.

Definition codeOK : Z := 0.
Definition codeCanceled : Z := 1.
Definition codeInvalidArgument : Z := 3.
Definition codeNotFound : Z := 5.
Definition codePermissionDenied : Z := 7.
Definition codeFailedPrecondition : Z := 9.
Definition codeInternal : Z := 13.
Definition codeUnauthenticated : Z := 16.

(** * Frames *)

Definition encode_grpc_frame (payload : bytes) : result bytes :=
  if 4294967295 <? zlen payload then Err (Errorf "%s too large" [FB (bs "grpc payload")])
  else Ok (byte_of_Z 0 :: be_put 4 (zlen payload) ++ payload).

Definition decode_grpc_frame (data : bytes) : result bytes :=
  if zlen data <? 5 then Err (errorNew "grpc frame too short")
  else if negb (bool_decide (hd_error data = Some (byte_of_Z 0))) then Err (errorNew "compressed grpc frames are not supported")
  else
    let length := be_get (take 4 (drop 1 data)) in
    let payload := drop 5 data in
    if 4294967295 <? zlen payload then Err (errorNew "grpc frame payload too large")
    else if negb (u32 (zlen payload) =? length) then Err (errorNew "grpc frame length mismatch")
    else Ok payload.

(** * Statuses *)

(** [statusError], another error, or a panic of the call. *)
Inductive call_error :=
| StatusError (code : Z) (message : bytes)
| OtherError (e : error)
| CallPanic (message : string).

Definition status_from_error (e : error) : Z * bytes :=
  match e with
  | ErrNotFound => (codeNotFound, bs "resource not found")
  | e => (codeInternal, error_text e)
  end.

Inductive grpc_response :=
| HttpError (status : Z) (message : bytes)
| GrpcReply (frame : option bytes) (code : Z) (message : bytes)
| GrpcAbort (message : string).

Definition authorize (identity : option Identity) (enforced : bool) (required_role : bytes) : option (Z * bytes) :=
  if bool_decide (required_role = []) then None
  else
    match identity with
    | None => if enforced then Some (codeUnauthenticated, bs "authentication required") else None
    | Some id => if negb (has_role required_role (id_role id)) then Some (codePermissionDenied, bs "permission denied") else None
    end.

(** * State *)

Section server.
Context `{UnicodeTables} `{SliceSort} `{MapRange} `{TimeText}.
Context `{Json Subnet} `{Json Reservation} `{Json AddressRecord}.
Context `{Json ScanResult} `{Json (gmap bytes ObservedHost)} `{Json (list RogueServer)}.
Context {S : Type} `{LeaseStore S}.

Record GrpcState := mkGrpcState {
  gs_leases : option S; gs_ipam : option Engine; gs_disc : option DiscEngine; gs_broker : option (Broker event_data)
}.
Record GrpcInputs := mkGrpcInputs {
  gi_now : time; gi_tx_now : time; gi_io : list append_io; gi_env : ls_env (S := S); gi_scan_id : bytes;
  gi_range : record_map → list AddressRecord
}.
Definition call := GrpcState → GrpcInputs → GrpcState * (call_error + bytes).

Definition with_leases (st : GrpcState) (s : S) : GrpcState :=
  mkGrpcState (Some s) (gs_ipam st) (gs_disc st) (gs_broker st).
Definition with_ipam (st : GrpcState) (e : Engine) : GrpcState :=
  mkGrpcState (gs_leases st) (Some e) (gs_disc st) (gs_broker st).
Definition with_disc (st : GrpcState) (d : DiscEngine) : GrpcState :=
  mkGrpcState (gs_leases st) (gs_ipam st) (Some d) (gs_broker st).
(** [EventBroker.Publish] when there is a broker *)
Definition announce (st : GrpcState) (inp : GrpcInputs) (type : string) (data : list (string * bytes)) : GrpcState :=
  mkGrpcState (gs_leases st) (gs_ipam st) (gs_disc st)
    ((λ b, publish_event b (mkEvent (bs type) 0 (list_to_map (map (λ p, (bs p.1, VString p.2)) data))) (gi_now inp)) <$> gs_broker st).

Definition call_status {A} (st : GrpcState) (code : Z) (message : string) : GrpcState * (call_error + A) :=
  (st, inl (StatusError code (bs message))).

(** The value of a call, or what its error becomes. *)
Definition or_status {A B} (st : GrpcState) (r : result A) (on_err : error → call_error) (k : A → GrpcState * (call_error + B))
    : GrpcState * (call_error + B) :=
  match r with Ok a => k a | Err e => (st, inl (on_err e)) | Panic m => (st, inl (CallPanic m)) end.
Definition invalid_argument (e : error) : call_error := StatusError codeInvalidArgument (error_text e).
Definition not_found (message : string) (_ : error) : call_error := StatusError codeNotFound (bs message).

Definition need_leases {A} (st : GrpcState) (k : S → GrpcState * (call_error + A)) : GrpcState * (call_error + A) :=
  match gs_leases st with Some s => k s | None => call_status st codeFailedPrecondition "lease store is not configured" end.
Definition need_ipam {A} (st : GrpcState) (k : Engine → GrpcState * (call_error + A)) : GrpcState * (call_error + A) :=
  match gs_ipam st with Some e => k e | None => call_status st codeFailedPrecondition "ipam engine is not configured" end.
Definition need_disc {A} (st : GrpcState) (k : DiscEngine → GrpcState * (call_error + A)) : GrpcState * (call_error + A) :=
  match gs_disc st with Some d => k d | None => call_status st codeFailedPrecondition "discovery engine is not configured" end.

(** * Leases *)

Definition lease_haystack (l : Lease) : bytes :=
  to_lower (join [l_ip l; l_mac l; l_hostname l; l_subnet_id l; l_state l] [byte_of_Z 32]).

Definition lease_matches (r : searchRequest) (l : Lease) : bool :=
  let state := to_lower (trim_space (sq_state r)) in
  let query := to_lower (trim_space (sq_query r)) in
  (bool_decide (sq_subnet_cidr r = []) || bool_decide (l_subnet_id l = sq_subnet_cidr r)) &&
  (bool_decide (state = []) || bool_decide (to_lower (l_state l) = state)) &&
  (bool_decide (query = []) || contains (lease_haystack l) query).

Definition list_leases (r : searchRequest) : call := λ st inp,
  need_leases st (λ s,
    or_status st (ls_list_all s) OtherError (λ leases,
      let items := marshal_lease_message ∘ new_lease_message <$> filter (λ l, lease_matches r l = true) leases in
      let items := if (0 <? sq_limit r) && (sq_limit r <? zlen items) then take (Z.to_nat (sq_limit r)) items else items in
      (st, inr (marshal_items [] items)))).

Definition get_lease (r : bytes) : call := λ st inp,
  need_leases st (λ s,
    or_status st (ls_get_by_ip s r) (not_found "lease not found") (λ item,
      (st, inr (marshal_lease_message (new_lease_message item))))).

Definition release_lease (r : bytes) : call := λ st inp,
  need_leases st (λ s,
    or_status st (ls_get_by_ip s r) (not_found "lease not found") (λ item,
      let item := item <| l_state := StateReleased |> <| l_expiry_time := gi_now inp |> <| l_updated_at := gi_now inp |> in
      match ls_upsert s item (gi_env inp) with
      | (s, Some e) => (with_leases st s, inl (StatusError codeInternal (error_text e)))
      | (s, None) =>
          (announce (with_leases st s) inp "lease.released" [("ip"%string, l_ip item); ("subnet"%string, l_subnet_id item)],
           inr [])
      end)).

(** * Subnets *)

Definition grpc_list_subnets : call := λ st inp,
  need_ipam st (λ e,
    or_status st (list_subnets e) OtherError (λ subnets,
      (st, inr (marshal_items [] (marshal_subnet_message ∘ new_subnet_message <$> subnets))))).

Definition subnet_input (r : subnetMutationRequest) : UpsertSubnetInput :=
  mkUpsertSubnetInput (sm_cidr r) (sm_name r) (sm_vlan r) (sm_gateway r) (sm_dns r) (sm_dhcp_enable r) (sm_pool_start r)
    (sm_pool_end r) (sm_lease_sec r).

Definition grpc_upsert_subnet (r : subnetMutationRequest) : call := λ st inp,
  need_ipam st (λ e,
    let '(e, res) := upsert_subnet e (subnet_input r) (gi_now inp) (gi_tx_now inp) (gi_io inp) in
    let st := with_ipam st e in
    or_status st res invalid_argument (λ result,
      (announce st inp "subnet.upserted" [("cidr"%string, sn_cidr result); ("name"%string, sn_name result)],
       inr (marshal_subnet_message (new_subnet_message result))))).

Definition grpc_get_subnet (r : cidrRequest) : call := λ st inp,
  need_ipam st (λ e,
    or_status st (get_subnet e (cq_cidr r)) (not_found "subnet not found") (λ item,
      (st, inr (marshal_subnet_message (new_subnet_message item))))).

Definition grpc_delete_subnet (r : cidrRequest) : call := λ st inp,
  need_ipam st (λ e,
    let cidr := trim_space (cq_cidr r) in
    if bool_decide (cidr = []) then call_status st codeInvalidArgument "cidr is required"
    else
      match delete_subnet e cidr (gi_tx_now inp) (gi_io inp) with
      | (e, Some er) => (with_ipam st e, inl (StatusError codeInternal (error_text er)))
      | (e, None) => (announce (with_ipam st e) inp "subnet.deleted" [("cidr"%string, cidr)], inr [])
      end).

Definition grpc_get_subnet_utilization (r : cidrRequest) : call := λ st inp,
  need_ipam st (λ e,
    let target := trim_space (cq_cidr r) in
    if bool_decide (target = []) then call_status st codeInvalidArgument "cidr is required"
    else
      or_status st (list_summaries e (gs_leases st)) OtherError (λ items,
        match filter (λ i, ss_cidr i = target) items with
        | item :: _ => (st, inr (marshal_utilization_response
            (mkUtilizationResponse (ss_cidr item) (ss_name item) (ss_active_leases item) (ss_total_leases item) (ss_utilization item))))
        | [] => call_status st codeNotFound "subnet not found"
        end)).

(** * Addresses *)

Definition marshal_record (r : AddressRecord) : bytes := marshal_ip_address_message (new_ip_address_message r).

Definition search_addresses (r : searchRequest) : call := λ st inp,
  need_ipam st (λ e,
    or_status st (list_addresses e (gs_leases st) (mkAddressFilter (sq_subnet_cidr r) (sq_state r) (sq_query r) (sq_limit r)) (gi_range inp))
      invalid_argument (λ records, (st, inr (marshal_items [] (marshal_record <$> records))))).

Definition grpc_get_address (r : bytes) : call := λ st inp,
  need_ipam st (λ e,
    or_status st (get_address e (gs_leases st) r) (not_found "address not found") (λ record, (st, inr (marshal_record record)))).

Definition reserve_address (r : reserveAddressRequest) : call := λ st inp,
  need_ipam st (λ e,
    if bool_decide (trim_space (rq_mac r) = []) then call_status st codeInvalidArgument "mac is required"
    else if bool_decide (trim_space (rq_ip r) = []) then call_status st codeInvalidArgument "ip is required"
    else
      let '(e, res) := upsert_reservation e (mkUpsertReservationInput (rq_mac r) (rq_ip r) (rq_hostname r) (rq_subnet_cidr r))
                         (gi_now inp) (gi_tx_now inp) (gi_io inp) in
      let st := with_ipam st e in
      or_status st res invalid_argument (λ record,
        let st := announce st inp "reservation.upserted"
                    [("mac"%string, rv_mac record); ("ip"%string, rv_ip record); ("subnet"%string, rv_subnet_cidr record)] in
        or_status st (get_address e (gs_leases st) (rv_ip record)) OtherError (λ current, (st, inr (marshal_record current))))).

(** The errors of the two deletes are dropped. *)
Definition release_address (r : bytes) : call := λ st inp,
  need_ipam st (λ e,
    or_status st (get_address e (gs_leases st) r) (not_found "address not found") (λ record,
      let '(e, st) :=
        if bool_decide (ad_mac record = []) then (e, st)
        else
          let e := (delete_reservation e (ad_mac record) (gi_tx_now inp) (gi_io inp)).1 in
          (e, announce (with_ipam st e) inp "reservation.deleted" [("mac"%string, ad_mac record); ("ip"%string, ad_ip record)]) in
      let e := (delete_stored_address e (ad_ip record) (gi_tx_now inp) (gi_io inp)).1 in
      (with_ipam st e, inr []))).

Definition next_available (r : cidrRequest) : call := λ st inp,
  need_ipam st (λ e,
    if bool_decide (trim_space (cq_cidr r) = []) then call_status st codeInvalidArgument "subnet_cidr is required"
    else
      or_status st (get_subnet e (cq_cidr r)) (not_found "subnet not found") (λ subnet,
        or_status st (list_addresses e (gs_leases st) (mkAddressFilter (sn_cidr subnet) [] [] 0) (gi_range inp)) invalid_argument (λ records,
          match filter (λ r, ad_state r = IPStateAvailable) records with
          | item :: _ => (st, inr (marshal_record item))
          | [] => call_status st codeNotFound "no available addresses in subnet"
          end))).

(** * Discovery *)

(** The scan itself runs after the reply. *)
Definition grpc_trigger_scan (r : triggerScanRequest) : call := λ st inp,
  need_disc st (λ d,
    let '(d, res) := trigger_scan d (gi_scan_id inp) (gi_now inp) in
    let st := with_disc st d in
    or_status st res (λ e, StatusError codeFailedPrecondition (error_text e)) (λ scan_id,
      (announce st inp "discovery.scan_queued" [("scan_id"%string, scan_id)],
       inr (marshal_scan_response (mkScanResponse (bs "queued") scan_id (bs "15s")))))).

Definition new_conflict_message (c : Conflict) : conflictMessage :=
  mkConflictMessage (co_ip c) (co_macs c) (co_severity c) (co_note c).

Definition get_conflicts : call := λ st inp,
  need_disc st (λ d,
    or_status st (latest_conflicts d) OtherError (λ conflicts,
      (st, inr (marshal_items [] (marshal_conflict_message ∘ new_conflict_message <$> conflicts))))).

(** * Requests *)

Record methodDesc := mkMethodDesc { md_role : bytes; md_decode : bytes → result call }.
Definition method {R} (role : bytes) (decode : bytes → result R) (unary : R → call) : methodDesc :=
  mkMethodDesc role (λ data, r ← decode data; Ok (unary r)).
Definition decode_empty (_ : bytes) : result () := Ok ().

(** The unary methods each service registers. *)
Definition subnet_methods : list (bytes * methodDesc) :=
  let path name := bs "/monsoon.v1.SubnetService/" ++ bs name in
  [(path "ListSubnets"%string, method DefaultRoleViewer decode_empty (λ _, grpc_list_subnets));
   (path "CreateSubnet"%string, method DefaultRoleOperator unmarshal_subnet_mutation_request grpc_upsert_subnet);
   (path "GetSubnet"%string, method DefaultRoleViewer unmarshal_cidr_request grpc_get_subnet);
   (path "UpdateSubnet"%string, method DefaultRoleOperator unmarshal_subnet_mutation_request grpc_upsert_subnet);
   (path "DeleteSubnet"%string, method DefaultRoleOperator unmarshal_cidr_request grpc_delete_subnet);
   (path "GetSubnetUtilization"%string, method DefaultRoleViewer unmarshal_cidr_request grpc_get_subnet_utilization)].
Definition lease_methods : list (bytes * methodDesc) :=
  let path name := bs "/monsoon.v1.LeaseService/" ++ bs name in
  [(path "ListLeases"%string, method DefaultRoleViewer unmarshal_search_request list_leases);
   (path "GetLease"%string, method DefaultRoleViewer unmarshal_cidr_request (λ r, get_lease (cq_cidr r)));
   (path "ReleaseLease"%string, method DefaultRoleOperator unmarshal_cidr_request (λ r, release_lease (cq_cidr r)))].
Definition address_methods : list (bytes * methodDesc) :=
  let path name := bs "/monsoon.v1.AddressService/" ++ bs name in
  [(path "SearchAddresses"%string, method DefaultRoleViewer unmarshal_search_request search_addresses);
   (path "GetAddress"%string, method DefaultRoleViewer unmarshal_cidr_request (λ r, grpc_get_address (cq_cidr r)));
   (path "ReserveAddress"%string, method DefaultRoleOperator unmarshal_reserve_address_request reserve_address);
   (path "ReleaseAddress"%string, method DefaultRoleOperator unmarshal_cidr_request (λ r, release_address (cq_cidr r)));
   (path "NextAvailable"%string, method DefaultRoleViewer unmarshal_cidr_request next_available)].
Definition discovery_methods : list (bytes * methodDesc) :=
  let path name := bs "/monsoon.v1.DiscoveryService/" ++ bs name in
  [(path "TriggerScan"%string, method DefaultRoleOperator unmarshal_trigger_scan_request grpc_trigger_scan);
   (path "GetConflicts"%string, method DefaultRoleViewer unmarshal_no_fields (λ _, get_conflicts))].

(** [NewHandler], but for the streams and the health of the system. *)
Definition unary_methods : list (bytes * methodDesc) :=
  subnet_methods ++ lease_methods ++ address_methods ++ discovery_methods.

Record GrpcRequest := mkGrpcRequest {
  gr_method : bytes; gr_proto_major : Z; gr_content_type : bytes; gr_body : result bytes;
  gr_identity : option Identity; gr_enforced : bool
}.

(** [ServeHTTP] up to the lookup of the method. *)
Definition check_protocol (r : GrpcRequest) : option grpc_response :=
  if negb (bool_decide (gr_method r = bs "POST")) then Some (HttpError 405 (bs "grpc requires POST"))
  else if gr_proto_major r <? 2 then Some (HttpError 505 (bs "grpc requires HTTP/2"))
  else if negb (has_prefix (to_lower (trim_space (gr_content_type r))) (bs "application/grpc"))
  then Some (HttpError 415 (bs "unsupported content type"))
  else None.
(** The payload of a request that is authorized, and what it decodes to. *)
Definition read_request {D : Type} (role : bytes) (decode : bytes → result D) (r : GrpcRequest) : grpc_response + D :=
  match authorize (gr_identity r) (gr_enforced r) role with
  | Some (code, message) => inl (GrpcReply None code message)
  | None =>
      match gr_body r with
      | Err e => inl (GrpcReply None codeInternal (error_text e))
      | Panic p => inl (GrpcAbort p)
      | Ok body =>
          match (payload ← decode_grpc_frame body; decode payload) with
          | Err e => inl (GrpcReply None codeInvalidArgument (error_text e))
          | Panic p => inl (GrpcAbort p)
          | Ok d => inr d
          end
      end
  end.

(** The rest of [ServeHTTP], for the unary method [m]. *)
Definition serve_unary (m : methodDesc) (st : GrpcState) (r : GrpcRequest) (inp : GrpcInputs) : GrpcState * grpc_response :=
  match read_request (md_role m) (md_decode m) r with
  | inl reply => (st, reply)
  | inr unary =>
      match unary st inp with
      | (st, inl (StatusError code message)) => (st, GrpcReply None code message)
      | (st, inl (OtherError e)) => let '(code, message) := status_from_error e in (st, GrpcReply None code message)
      | (st, inl (CallPanic p)) => (st, GrpcAbort p)
      | (st, inr body) =>
          match encode_grpc_frame body with
          | Ok frame => (st, GrpcReply (Some frame) codeOK [])
          | Err e => (st, GrpcReply None codeInternal (error_text e))
          | Panic p => (st, GrpcAbort p)
          end
      end
  end.
End server.
