(* ===== verification/GrpcStreams.v ===== *)
(** internal/api/grpc: the streams, watchLeases of lease_service.go and
    watchDiscovery of discovery_service.go, with the conversions of messages.go.

    A stream is what it sends for the events its subscription delivers before it is
    closed or the request ends; the lease store a stream reads is given with each
    event.  The connection takes a number of messages and then fails.

    Then the dispatch of all methods (NewHandler and ServeHTTP of server.go,
    system_service.go), behind the chain of middlewares of main.go: who may change what.
    A stream leaves the daemon's state as it is; what others do meanwhile is in the
    events it is given. *)

From S2P Require Import Prelude.
From S2P Require Import GoBytes.
From S2P Require Import GoStrings.
From S2P Require Import GoTime.
From S2P Require Import GoJson.
From S2P Require Import GoNet.
From S2P Require Import GoSort.
From S2P Require Import GoParse.
From S2P Require Import ConfigValidate.
From S2P Require Import Wal.
From S2P Require Import StorageEngine.
From S2P Require Import Lease.
From S2P Require Import LeaseInterface.
From S2P Require Import Ipam.
From S2P Require Import Auth.
From S2P Require Import Events.
From S2P Require Import AuditLog.
From S2P Require Import Discovery.
From S2P Require Import EventData.
From S2P Require Import RestHttp.
From S2P Require Import RestAuth.
From S2P Require Import Metrics.
From S2P Require Import RestTheorems.
From S2P Require Import RestSystem.
From S2P Require Import GrpcProto.
From S2P Require Import GrpcMessages.
From S2P Require Import GrpcServer.

(** [fmt.Sprint], and [String] of a time, on the values that are not texts or numbers. *)
Class AnyText := { any_text : any_value → bytes }.

Section streams.
Context `{UnicodeTables} `{AnyText}.

Definition must_string (value : any_value) : bytes :=
  match value with
  | VNil => []
  | VString s => s
  | VBool b => if b then bs "true" else bs "false"
  | VInt z | VInt64 z => fmt_d z
  | VStrings l => bs "[" ++ join l (bs " ") ++ bs "]"
  | v => any_text v
  end.

(** [strconv.Atoi], the number it gives with an error too. *)
Definition atoi_value (s : bytes) : Z :=
  let '(neg, digits) := take_sign s in
  match parse_dec digits with
  | None => 0
  | Some n => if neg then Z.max (- n) (- 2 ^ 63) else Z.min n (2 ^ 63 - 1)
  end.

Definition must_int (value : any_value) : Z :=
  match value with
  | VInt z | VInt64 z => z
  | VString s => atoi_value (trim_space s)
  | _ => 0
  end.

Definition must_strings (value : any_value) : list bytes :=
  match value with VStrings l => l | _ => [] end.

Fixpoint first_non_empty (values : list bytes) : bytes :=
  match values with
  | [] => []
  | v :: values => if bool_decide (trim_space v = []) then first_non_empty values else v
  end.
Fixpoint first_non_zero (values : list Z) : Z :=
  match values with
  | [] => 0
  | v :: values => if v =? 0 then first_non_zero values else v
  end.

Section store.
Context {S : Type} `{LeaseStore S}.

Definition lease_event_matches_subnet (target : bytes) (data : event_data) (store : option S) : bool :=
  if bool_decide (must_string (at_key data "subnet") = target) || bool_decide (must_string (at_key data "subnet_cidr") = target)
  then true
  else
    match store with
    | None => false
    | Some s =>
        let ip := must_string (at_key data "ip") in
        if bool_decide (ip = []) then false
        else match ls_get_by_ip s ip with Ok item => bool_decide (l_subnet_id item = target) | _ => false end
    end.

Definition lease_event_message (store : option S) (item : EventMessage) : leaseEventMessage :=
  let ip := must_string (at_key (em_data item) "ip") in
  mkLeaseEventMessage (em_type item) ip (unix (em_timestamp item))
    (match store with
     | Some s => if bool_decide (ip = []) then None
                 else match ls_get_by_ip s ip with Ok l => Some (new_lease_message l) | _ => None end
     | None => None
     end).

(** What the stream sends for a message of an event. *)
Definition watch_lease_item (target : bytes) (store : option S) (item : EventMessage) : option bytes :=
  if negb (has_prefix (em_type item) (bs "lease.")) then None
  else if negb (bool_decide (target = [])) && negb (lease_event_matches_subnet target (em_data item) store) then None
  else Some (marshal_lease_event_message (lease_event_message store item)).
End store.

Definition discovery_event_message (item : EventMessage) : discoveryEventMessage :=
  let data := em_data item in
  mkDiscoveryEventMessage (em_type item) (must_string (at_key data "scan_id"))
    (first_non_empty [must_string (at_key data "subnet"); must_string (at_key data "subnet_cidr")])
    (must_string (at_key data "ip"))
    (first_non_zero [must_int (at_key data "found"); must_int (at_key data "total_hosts")])
    (must_strings (at_key data "macs")) (unix (em_timestamp item)) (must_string (at_key data "note")).

Definition watch_discovery_item (item : EventMessage) : option bytes :=
  if negb (has_prefix (em_type item) (bs "discovery.")) then None
  else if contains (em_type item) (bs "scan_") then None
  else Some (marshal_discovery_event_message (discovery_event_message item)).

(** * Sending *)

(** What has been sent, and how many messages the connection still takes. *)
Record stream := mkStream { sm_sent : list bytes; sm_room : nat }.

Definition stream_send (s : stream) (payload : bytes) : stream * option call_error :=
  match encode_grpc_frame payload with
  | Ok frame =>
      match sm_room s with
      | O => (s, Some (OtherError (ErrIO "write")))
      | Datatypes.S room => (mkStream (sm_sent s ++ [frame]) room, None)
      end
  | Err e => (s, Some (OtherError e))
  | Panic m => (s, Some (CallPanic m))
  end.

(** The inner loop of a stream: the messages of one event. *)
Fixpoint send_items (select : EventMessage → option bytes) (s : stream) (items : list EventMessage)
    : stream * option call_error :=
  match items with
  | [] => (s, None)
  | item :: items =>
      match select item with
      | None => send_items select s items
      | Some payload =>
          match stream_send s payload with
          | (s, None) => send_items select s items
          | (s, Some e) => (s, Some e)
          end
      end
  end.

(** The loop of a stream on the events that are delivered; each comes with the time it
    is read at and with what the stream selects of its messages then. *)
Fixpoint run_stream (s : stream) (evts : list (Event event_data * time * (EventMessage → option bytes)))
    : stream * option call_error :=
  match evts with
  | [] => (s, None)
  | (evt, now, select) :: evts =>
      match normalize_event evt now with
      | Ok items =>
          match send_items select s items with
          | (s, None) => run_stream s evts
          | (s, Some e) => (s, Some e)
          end
      | Err e => (s, Some (OtherError e))
      | Panic m => (s, Some (CallPanic m))
      end
  end.

Definition need_broker {B} (broker : option B) (k : stream * option call_error) (s : stream) : stream * option call_error :=
  match broker with
  | None => (s, Some (StatusError codeFailedPrecondition (bs "event broker is not configured")))
  | Some _ => k
  end.

Definition watch_leases {S B} `{LeaseStore S} (broker : option B) (target : bytes) (s : stream)
    (evts : list (Event event_data * time * option S)) : stream * option call_error :=
  need_broker broker (run_stream s (map (λ '(evt, now, store), (evt, now, watch_lease_item target store)) evts)) s.

Definition watch_discovery {B} (broker : option B) (s : stream) (evts : list (Event event_data * time))
    : stream * option call_error :=
  need_broker broker (run_stream s (map (λ '(evt, now), (evt, now, watch_discovery_item)) evts)) s.

(** The status that ends the stream in [ServeHTTP]. *)
Definition stream_status (err : option call_error) : grpc_response :=
  match err with
  | None => GrpcReply None codeOK []
  | Some (StatusError code message) => GrpcReply None code message
  | Some (OtherError e) => let '(code, message) := status_from_error e in GrpcReply None code message
  | Some (CallPanic p) => GrpcAbort p
  end.

(** ** What a stream sends *)

(** The messages selected of the events, in order. *)
Definition selected (evts : list (Event event_data * time * (EventMessage → option bytes))) : list bytes :=
  evts ≫= λ '(evt, now, select), match normalize_event evt now with Ok items => omap select items | _ => [] end.

Definition frame_of (payload : bytes) : bytes := byte_of_Z 0 :: be_put 4 (zlen payload) ++ payload.

Lemma send_items_all select items : ∀ s, Forall (λ p, zlen p < 2 ^ 32) (omap select items) →
  (length (omap select items) ≤ sm_room s)%nat →
  send_items select s items =
    (mkStream (sm_sent s ++ map frame_of (omap select items)) (sm_room s - length (omap select items)), None).
Proof.
  induction items as [|item items IH]; intros s Hf Hr; cbn [send_items omap list_omap].
  - cbn. rewrite app_nil_r, Nat.sub_0_r. by destruct s.
  - cbn [omap list_omap] in Hf, Hr. destruct (select item) as [p|]; [|by apply IH].
    apply Forall_cons in Hf as [Hp Hf]. cbn [length] in Hr. unfold stream_send, encode_grpc_frame.
    rewrite (proj2 (Z.ltb_ge _ _)) by lia. destruct s as [sent [|room]]; [cbn in Hr; lia|]. cbn [sm_sent sm_room] in *.
    rewrite IH by (cbn [sm_room]; first [done|unfold list_omap in *; cbn in *; lia]). cbn [sm_sent sm_room map length].
    by rewrite <-app_assoc.
Qed.

(** A stream sends exactly the messages that it selects, in the order of the events,
    each in a frame of its own, as long as the connection takes them. *)
Theorem stream_sends_selected (evts : list (Event event_data * time * (EventMessage → option bytes))) s :
  Forall (λ e, ev_data e.1.1 ≠ ∅) evts → Forall (λ p, zlen p < 2 ^ 32) (selected evts) →
  (length (selected evts) ≤ sm_room s)%nat →
  run_stream s evts = (mkStream (sm_sent s ++ map frame_of (selected evts)) (sm_room s - length (selected evts)), None).
Proof.
  revert s. induction evts as [|[[evt now] select] evts IH]; intros s Hd Hf Hr.
  { cbn. rewrite app_nil_r, Nat.sub_0_r. by destruct s. }
  apply Forall_cons in Hd as [Hd Hds]. destruct (normalize_event_ok evt now Hd) as [items Hi].
  unfold selected in Hf, Hr |- *. cbn [mbind list_bind run_stream] in *. rewrite Hi in *.
  apply Forall_app in Hf as [Hf Hfs]. rewrite length_app in *. rewrite send_items_all by (done || lia).
  rewrite IH by (done || (cbn [sm_room]; unfold selected; cbn [mbind]; lia)). cbn [sm_sent sm_room]. unfold selected.
  rewrite map_app, <-app_assoc. do 2 f_equal. cbn [mbind]. lia.
Qed.
End streams.

#[local] Existing Instance ascii_tables.
#[local] Instance no_text : AnyText := {| any_text _ := [] |}.

Definition demo_scan_events : list (Event event_data * time * (EventMessage → option bytes)) :=
  [(mkEvent (bs "lease.released") (10 * hour) {[ bs "ip" := VString (bs "10.0.0.9") ]}, 0, watch_discovery_item);
   (mkEvent (bs "discovery.scan_completed") (10 * hour)
      (list_to_map [(bs "scan_id", VString (bs "s1")); (bs "total_hosts", VInt 3);
                    (bs "conflicts", VConflicts [mkConflict (bs "10.0.0.7") [bs "A"; bs "B"] (bs "high") []])]), 0,
    watch_discovery_item)].

Lemma demo_selected_fits : Forall (λ p, zlen p < 2 ^ 32) (selected demo_scan_events).
Proof.
  assert (E : forallb (λ p, zlen p <? 2 ^ 32) (selected demo_scan_events) = true) by (vm_compute; reflexivity).
  apply Forall_forall. intros p Hp. rewrite forallb_forall in E. apply Z.ltb_lt, E, list_elem_of_In, Hp.
Qed.

Lemma stream_sends_selected_witness :
  length (sm_sent (run_stream (mkStream [] 5) demo_scan_events).1) = 2%nat ∧
  run_stream (mkStream [] 5) demo_scan_events = (mkStream (map frame_of (selected demo_scan_events)) 3, None).
Proof.
  split; [vm_compute; reflexivity|].
  refine (eq_trans (stream_sends_selected demo_scan_events (mkStream [] 5) _ _ _) _).
  - refine (bool_decide_unpack _ _). vm_compute. exact I.
  - exact demo_selected_fits.
  - refine (bool_decide_unpack _ _). vm_compute. exact I.
  - vm_compute. reflexivity.
Defined.

(** What the gRPC API guarantees. *)

(** * Requests arrive *)

Definition text_ok (v : bytes) : Prop := zlen v < 2 ^ 63.
(** An integer the other side does not refuse. *)
Definition wire_ok (z : Z) : Prop := int64_ok z ∧ wire_uint z ≤ max_int64.

Lemma int_or_wire z msg : wire_ok z → int_or (wire_uint z) msg = Ok (wire_uint z).
Proof. intros [_ Hz]. unfold int_or, uint64_to_int. by rewrite (proj2 (Z.ltb_ge max_int64 (wire_uint z))). Qed.

(** A field that takes a text, and one that takes an integer. *)
Ltac text_field := match goal with
  |- read_proto_fields ?fn ?s (append_string [] ?f ?v ++ ?rest) = _ =>
    erewrite (read_string fn s f v rest); [|lia|assumption|intros _; reflexivity|by intros ->] end.
Ltac int_field := match goal with
  |- read_proto_fields ?fn ?s (append_int64 [] ?f ?z ++ ?rest) = _ =>
    erewrite (read_int fn s f z rest);
      [|lia|by match goal with H : wire_ok z |- _ => destruct H end
       |intros _; cbn [subnet_mutation_request_field search_request_field]; rewrite int_or_wire by assumption; reflexivity
       |by intros ->] end.

Lemma trimmed_fold {R} (add : R → bytes → R) (get : R → list bytes) (set : list bytes → R → R) vs : ∀ r,
  (∀ r v, add r v = set (get r ++ [trim_space v]) r) → (∀ r l, get (set l r) = l) →
  (∀ r l l', set l (set l' r) = set l r) → (∀ r, set (get r) r = r) →
  foldl add r vs = set (get r ++ (trim_space <$> vs)) r.
Proof.
  intros r Ha Hg Hs Hi. revert r. induction vs as [|v vs IH]; intros r; cbn; [by rewrite app_nil_r, Hi|].
  rewrite IH, Ha, Hg, Hs. by rewrite <-app_assoc.
Qed.

Definition mutation_fits (r : subnetMutationRequest) : Prop :=
  text_ok (sm_cidr r) ∧ text_ok (sm_name r) ∧ text_ok (sm_gateway r) ∧ text_ok (sm_pool_start r) ∧
  text_ok (sm_pool_end r) ∧ Forall text_ok (sm_dns r) ∧ wire_ok (sm_vlan r) ∧ wire_ok (sm_lease_sec r).

(** A request to change a subnet arrives as it was sent, with the spaces around
    its texts removed and its empty name servers left out.  An integer that is
    negative does not: the server reads [-2 z - 1] for it, since it is written in
    another encoding than it is read in. *)
Theorem mutation_request_arrives r :
  mutation_fits r →
  unmarshal_subnet_mutation_request (marshal_subnet_mutation_request r) =
    Ok (mkSubnetMutationRequest (trim_space (sm_cidr r)) (trim_space (sm_name r)) (wire_uint (sm_vlan r))
          (trim_space (sm_gateway r)) (trim_space <$> filter (λ v, v ≠ []) (sm_dns r)) (sm_dhcp_enable r)
          (trim_space (sm_pool_start r)) (trim_space (sm_pool_end r)) (wire_uint (sm_lease_sec r))).
Proof.
  destruct r as [cidr name vlan gateway dns enable pool_start pool_end lease_sec]. unfold mutation_fits, text_ok.
  cbn. intros (H1 & H2 & H3 & H4 & H5 & H6 & H7 & H8).
  unfold marshal_subnet_mutation_request, unmarshal_subnet_mutation_request. cbn [sm_cidr sm_name sm_vlan sm_gateway
    sm_dns sm_dhcp_enable sm_pool_start sm_pool_end sm_lease_sec].
  rewrite append_int64_app, append_string_app, (append_string_app _ 7), append_bool_app, append_strings_app,
    (append_string_app _ 4), (append_int64_app _ 3), (append_string_app _ 2), <-!app_assoc.
  rewrite <-(app_nil_r (append_int64 [] 9 lease_sec)).
  text_field. text_field. int_field. text_field.
  rewrite (read_strings _ 5 (λ r v, r <| sm_dns := sm_dns r ++ [trim_space v] |>) dns) by first [lia|assumption|done].
  rewrite (trimmed_fold _ sm_dns (λ l r, r <| sm_dns := l |>)) by first [done|by intros []].
  match goal with |- read_proto_fields ?fn ?s (append_bool [] ?f ?b ++ ?rest) = _ =>
    rewrite (read_bool fn s f b rest (s <| sm_dhcp_enable := b |>)); [|lia|by intros ->|by intros ->] end.
  text_field. text_field. int_field. reflexivity.
Qed.

Definition demo_mutation : subnetMutationRequest :=
  mkSubnetMutationRequest (bs " 10.0.0.0/24") (bs "office ") 20 (bs "10.0.0.1") [bs "1.1.1.1"; []; bs " 9.9.9.9"] true
    (bs "10.0.0.10") (bs "10.0.0.99") 3600.
Lemma demo_mutation_fits : mutation_fits demo_mutation.
Proof. unfold mutation_fits, text_ok, wire_ok, int64_ok. repeat (split || constructor); vm_compute; congruence. Qed.

Lemma mutation_request_arrives_witness :
  unmarshal_subnet_mutation_request (marshal_subnet_mutation_request demo_mutation) =
    Ok (mkSubnetMutationRequest (bs "10.0.0.0/24") (bs "office") 20 (bs "10.0.0.1") [bs "1.1.1.1"; bs "9.9.9.9"] true
          (bs "10.0.0.10") (bs "10.0.0.99") 3600).
Proof.
  refine (eq_trans (mutation_request_arrives demo_mutation demo_mutation_fits) _). vm_compute. reflexivity.
Defined.

(** A negative number is sent as a positive one. *)
Example negative_collides : append_int64 [] 7 (-1) = append_int64 [] 7 1.
Proof. vm_compute. reflexivity. Qed.

(** * Frames and roles *)

Lemma grpc_frame_roundtrip p : zlen p < 2 ^ 32 →
  ∃ frame, encode_grpc_frame p = Ok frame ∧ decode_grpc_frame frame = Ok p.
Proof.
  intros Hp. pose proof (zlen_nonneg p). unfold encode_grpc_frame. destruct (Z.ltb_spec 4294967295 (zlen p)); [lia|].
  eexists. split; [done|]. unfold decode_grpc_frame. rewrite zlen_cons, zlen_app, zlen_be.
  destruct (Z.ltb_spec (Z.of_nat 4 + zlen p + 1) 5); [lia|]. rewrite bool_decide_eq_true_2 by done.
  cbn [negb drop]. rewrite drop_0, take_be, drop_be, be_get_put_id by lia. cbv zeta.
  destruct (Z.ltb_spec 4294967295 (zlen p)); [lia|]. unfold u32.
  rewrite Z.mod_small by lia. by rewrite Z.eqb_refl.
Qed.

Section roles.
Context `{UnicodeTables} `{SliceSort} `{MapRange} `{TimeText}.
Context `{Json Subnet} `{Json Reservation} `{Json AddressRecord}.
Context `{Json ScanResult} `{Json (gmap bytes ObservedHost)} `{Json (list RogueServer)}.
Context {S : Type} `{LeaseStore S}.

(** A call that only reads. *)
Definition reads_only (c : call (S:=S)) : Prop := ∀ st inp, (c st inp).1 = st.

Lemma or_status_reads {A B} (st : GrpcState (S:=S)) (r : result A) f (k : A → GrpcState (S:=S) * (call_error + B)) :
  (∀ a, (k a).1 = st) → (or_status st r f k).1 = st.
Proof. intros Hk. destruct r; cbn; auto. Qed.
Lemma need_leases_reads {A} (st : GrpcState (S:=S)) (k : S → GrpcState (S:=S) * (call_error + A)) :
  (∀ a, (k a).1 = st) → (need_leases st k).1 = st.
Proof. intros Hk. unfold need_leases. destruct (gs_leases st); cbn; auto. Qed.
Lemma need_ipam_reads {A} (st : GrpcState (S:=S)) (k : Engine → GrpcState (S:=S) * (call_error + A)) :
  (∀ a, (k a).1 = st) → (need_ipam st k).1 = st.
Proof. intros Hk. unfold need_ipam. destruct (gs_ipam st); cbn; auto. Qed.
Lemma need_disc_reads {A} (st : GrpcState (S:=S)) (k : DiscEngine → GrpcState (S:=S) * (call_error + A)) :
  (∀ a, (k a).1 = st) → (need_disc st k).1 = st.
Proof. intros Hk. unfold need_disc. destruct (gs_disc st); cbn; auto. Qed.

Ltac reads := intros ??; cbv zeta; repeat first
  [apply need_leases_reads; intros|apply need_ipam_reads; intros|apply need_disc_reads; intros
  |apply or_status_reads; intros|case_match|reflexivity].

(** A method that any user may call only reads. *)
Definition guards_writes (m : methodDesc (S:=S)) : Prop :=
  md_role m = DefaultRoleOperator ∨ ∀ payload c, md_decode m payload = Ok c → reads_only c.

Lemma method_reads {R} role decode (unary : R → call (S:=S)) : (∀ r, reads_only (unary r)) → guards_writes (method role decode unary).
Proof. intros Hu. right. intros payload c. cbn. destruct (decode payload) as [r| |]; [|done..]. intros [= <-]. apply Hu. Qed.

Lemma unary_methods_guard : Forall (λ p, guards_writes p.2) unary_methods.
Proof.
  unfold unary_methods, subnet_methods, lease_methods, address_methods, discovery_methods. cbn [app]. cbv zeta.
  repeat (apply Forall_cons; split; [first [by left | apply method_reads; intros r]|]); [..|done].
  all: unfold grpc_list_subnets, grpc_get_subnet, grpc_get_subnet_utilization, list_leases, get_lease, search_addresses,
    grpc_get_address, next_available, get_conflicts, call_status; reads.
Qed.

Definition acts_as_operator (r : GrpcRequest) : Prop :=
  match gr_identity r with
  | Some id => has_role DefaultRoleOperator (id_role id) = true
  | None => gr_enforced r = false
  end.

Lemma authorize_operator r : authorize (gr_identity r) (gr_enforced r) DefaultRoleOperator = None → acts_as_operator r.
Proof.
  unfold authorize, acts_as_operator. rewrite bool_decide_eq_false_2 by done.
  destruct (gr_identity r) as [id|]; [by destruct (has_role _ _)|by destruct (gr_enforced r)].
Qed.

Lemma read_request_authorized {D : Type} role (decode : bytes → result D) r d : read_request role decode r = inr d →
  authorize (gr_identity r) (gr_enforced r) role = None ∧ ∃ payload, decode payload = Ok d.
Proof.
  unfold read_request. destruct (authorize _ _ _) as [[]|]; [done|]. destruct (gr_body r) as [body| |]; [|done..].
  destruct (decode_grpc_frame body) as [payload| |]; [|done..]. cbn. destruct (decode payload) eqn:E; [|done..].
  intros [= <-]. eauto.
Qed.

(** Leases, subnets, addresses and discovery change, and events are announced, only for
    an operator, or without an identity while authentication is not enforced. *)
Lemma serve_unary_guard m st r inp : guards_writes m → (serve_unary m st r inp).1 = st ∨ acts_as_operator r.
Proof.
  intros Hm. unfold serve_unary. destruct (read_request _ _ r) as [reply|c] eqn:Hp; [by left|].
  apply read_request_authorized in Hp as (Ha & payload & Hc).
  destruct Hm as [E|Hr]; [right; rewrite E in Ha; by apply authorize_operator|left].
  specialize (Hr _ _ Hc st inp). destruct (c st inp) as [st' res]. cbn in Hr. subst st'.
  destruct res as [[code msg|e|p]|out]; [done| |done|]; [by destruct (status_from_error e)|by destruct (encode_grpc_frame out)].
Qed.
End roles.

(** * The server behind its chain *)

(** [json.Marshal] of the payload of the health. *)
Class HealthText := { health_json : SystemHealth → result bytes }.

(** The frames that are sent, and the status of the trailer. *)
Record grpc_body := mkGrpcBody { gb_frames : list bytes; gb_code : Z; gb_message : bytes }.

Section behind.
Context `{UnicodeTables} `{UrlParse} `{Bcrypt} `{SliceSort} `{MapRange} `{TimeText} `{AnyText} `{HealthText}.
Context `{Json User} `{Json tokenRecord} `{Json sessionEntry} `{Json (Entry event_data)}.
Context `{Json Subnet} `{Json Reservation} `{Json AddressRecord}.
Context `{Json ScanResult} `{Json (gmap bytes ObservedHost)} `{Json (list RogueServer)}.
Context {S : Type} `{LeaseStore S}.
#[local] Abbreviation state := (RestState S).
#[local] Abbreviation handler := (Handler (S := S) (A := grpc_body)).

(** ** The methods *)

Definition system_health (health : SystemHealth) : call (S := S) := λ st inp,
  or_status st (health_json health) (λ e, StatusError codeInternal (error_text e)) (λ raw,
    (st, inr (marshal_system_health_response
                (mkSystemHealthResponse (sh_status health) (sh_ready health) (sh_version health) (sh_uptime health) raw)))).
Definition system_methods (health : SystemHealth) : list (bytes * methodDesc (S := S)) :=
  let path name := bs "/monsoon.v1.SystemService/" ++ bs name in
  [(path "GetHealth"%string, method [] decode_empty (λ _, system_health health));
   (path "GetReadiness"%string, method [] decode_empty (λ _, system_health health))].

(** An event that is delivered to a stream, with the time and the leases then. *)
Definition delivery : Type := Event event_data * time * option S.
Record streamDesc := mkStreamDesc {
  td_role : bytes;
  td_decode : bytes → result (option (Broker event_data) → stream → list delivery → stream * option call_error)
}.
Definition stream_methods : list (bytes * streamDesc) :=
  [(bs "/monsoon.v1.LeaseService/WatchLeases", mkStreamDesc DefaultRoleViewer (λ data,
      r ← unmarshal_cidr_request data; Ok (λ broker s evts, watch_leases broker (cq_cidr r) s evts)));
   (bs "/monsoon.v1.DiscoveryService/WatchDiscovery", mkStreamDesc DefaultRoleViewer (λ data,
      _ ← unmarshal_no_fields data; Ok (λ broker s evts, watch_discovery broker s (fst <$> evts))))].

Inductive grpc_method := Unary (m : methodDesc (S := S)) | Streaming (m : streamDesc).
(** [NewHandler] *)
Definition grpc_methods (health : SystemHealth) : list (bytes * grpc_method) :=
  map (λ p, (p.1, Unary p.2)) (unary_methods ++ system_methods health) ++ map (λ p, (p.1, Streaming p.2)) stream_methods.
Fixpoint find_method (path : bytes) (methods : list (bytes * grpc_method)) : option grpc_method :=
  match methods with
  | [] => None
  | (p, m) :: methods => if bool_decide (p = path) then Some m else find_method path methods
  end.

(** ** Requests *)

Definition grpc_part (st : state) : GrpcState := mkGrpcState (rt_leases st) (rt_ipam st) (rt_disc st) (rt_broker st).
Definition with_grpc (st : state) (g : GrpcState) : state :=
  st <| rt_leases := gs_leases g |> <| rt_ipam := gs_ipam g |> <| rt_disc := gs_disc g |> <| rt_broker := gs_broker g |>.
Definition grpc_inputs (inp : RestInputs S) : GrpcInputs (S := S) :=
  mkGrpcInputs (ri_event_now inp) (we_tx_now (ri_write inp)) (we_io (ri_write inp)) (ri_lease_env inp) (ri_scan_id inp) (ri_range inp).

Definition grpc_headers (h : headers) : headers :=
  set_header "Trailer" "Grpc-Status, Grpc-Message" (set_header "Content-Type" "application/grpc+proto" h).
Definition grpc_outcome (h : headers) (sent : list bytes) (reply : grpc_response) : outcome grpc_body :=
  match reply with
  | HttpError status message => http_error h status message
  | GrpcReply frame code message => Reply 200 (grpc_headers h) (BodyData (mkGrpcBody (sent ++ option_list frame) code message) None)
  | GrpcAbort p => Crash (grpc_headers h) p
  end.

Definition serve_stream (m : streamDesc) (broker : option (Broker event_data)) (room : nat) (evts : list delivery) (r : GrpcRequest)
    : list bytes * grpc_response :=
  match read_request (td_role m) (td_decode m) r with
  | inl reply => ([], reply)
  | inr watch => let '(s, err) := watch broker (mkStream [] room) evts in (sm_sent s, stream_status err)
  end.

(** What a connection adds to a request: the version of HTTP, whether its body can be
    read, how many messages it takes, and what happens while a stream is open. *)
Record connection := mkConnection {
  cn_proto_major : Z; cn_read_error : option error; cn_room : nat; cn_delivered : list delivery
}.
Definition grpc_request (cn : connection) (r : HttpRequest) (c : Ctx) : GrpcRequest :=
  mkGrpcRequest (rq_method r) (cn_proto_major cn) (get_header r "Content-Type")
    (match cn_read_error cn with Some e => Err e | None => Ok (rq_body r) end) (cx_identity c) (cx_enforced c).
(** [ServeHTTP] *)
Definition serve_http (d : SystemDeps) (cn : connection) : handler := λ st r c h inp,
  let request := grpc_request cn r c in
  match check_protocol request with
  | Some reply => (st, grpc_outcome h [] reply)
  | None =>
      match find_method (rq_path r) (grpc_methods (build_system_health d st (ri_event_now inp))) with
      | None => (st, grpc_outcome h [] (GrpcReply None codeNotFound (bs "unknown rpc method")))
      | Some (Unary m) =>
          let '(g, reply) := serve_unary m (grpc_part st) request (grpc_inputs inp) in (with_grpc st g, grpc_outcome h [] reply)
      | Some (Streaming m) =>
          let '(sent, reply) := serve_stream m (rt_broker st) (cn_room cn) (cn_delivered cn) request in
          (st, grpc_outcome h sent reply)
      end
  end.

(** The chain has no CORS. *)
Definition grpc_front (s : runtimeSettings) : list (Middleware (S := S) (A := grpc_body)) :=
  [request_id_middleware; trusted_proxy_headers_middleware (rs_trusted_proxies s); recovery_middleware;
   security_headers_middleware; csrf_middleware; auth_rate_limit_middleware (rs_auth_rate_limit s);
   rate_limit_middleware (rs_rate_limit s)].
Definition grpc_server (settings : runtimeSettings) (d : SystemDeps) (cn : connection) : handler :=
  chain (auth_middleware (rs_auth_enforced settings) (serve_http d cn)) (grpc_front settings).

(** ** Who changes the data *)

Lemma with_grpc_part st : same_data st (with_grpc st (grpc_part st)).
Proof. done. Qed.
Lemma system_health_reads health : reads_only (system_health health).
Proof. intros st inp. unfold system_health. by apply or_status_reads. Qed.
Lemma found_guards health path m : find_method path (grpc_methods health) = Some (Unary m) → guards_writes m.
Proof.
  assert (Hg : Forall (λ p, guards_writes p.2) (unary_methods ++ system_methods health)).
  { apply Forall_app_2; [apply unary_methods_guard|]. unfold system_methods. cbv zeta.
    repeat (apply Forall_cons_2; [apply method_reads; intros _; apply system_health_reads|]). by apply Forall_nil_2. }
  unfold grpc_methods. induction Hg as [|[p m'] methods Hm _ IH]; cbn [map app find_method fst snd].
  - unfold stream_methods. cbn [map find_method fst]. by repeat case_bool_decide.
  - case_bool_decide; [by intros [= <-]|done].
Qed.
Lemma operator_context cn r c st inp : acts_as_operator (grpc_request cn r c) → context_allowed (holds DefaultRoleOperator) st r c inp.
Proof. unfold acts_as_operator, context_allowed, holds. cbn. destruct (cx_identity c) as [id|]; [eauto|by intros ->]. Qed.

Lemma serve_http_changes_only d cn : changes_only (context_allowed (holds DefaultRoleOperator)) (serve_http d cn).
Proof.
  intros st r c h inp. unfold serve_http, kept. cbv zeta. destruct (check_protocol _); [by left|].
  destruct (find_method _ _) as [[m|m]|] eqn:E; [|destruct (serve_stream _ _ _ _ _); by left|by left].
  apply found_guards in E. destruct (serve_unary_guard m (grpc_part st) (grpc_request cn r c) (grpc_inputs inp) E) as [Hs|Ho].
  - left. destruct (serve_unary _ _ _ _). cbn in *. rewrite Hs. apply with_grpc_part.
  - right. by apply (operator_context cn).
Qed.

(** C24: When authentication is enforced, a gRPC request changes leases, subnets, addresses
    or discovery, or announces an event, only if its bearer token or its session is the
    one of an operator or of an administrator. *)
Theorem grpc_writes_authorized settings d cn st r h inp s :
  rs_auth_enforced settings = true → rt_auth st = Some s →
  same_data st (grpc_server settings d cn st r background h inp).1 ∨
  ∃ id, (resolve_identity s r inp).2 = Some id ∧ has_role DefaultRoleOperator (id_role id) = true.
Proof.
  intros He Hs. apply front_writes_authorized; [|done..|apply serve_http_changes_only].
  intros m. unfold grpc_front, front_middlewares. rewrite !elem_of_cons. tauto.
Qed.
End behind.

#[local] Existing Instance small_slices.
#[local] Existing Instance listed_range.
#[local] Existing Instance split_urls.
#[local] Existing Instance plain_bcrypt.
#[local] Existing Instance no_json.
#[local] Existing Instance number_times.
#[local] Existing Instance no_leases.
#[local] Instance no_health_text : HealthText := {| health_json _ := Ok [] |}.

(** A request to scan, by the session of an operator or by another. *)
Definition demo_call (cookie : string) : HttpRequest :=
  mkHttpRequest (bs "POST") (bs "/monsoon.v1.DiscoveryService/TriggerScan") (bs "dhcp.lan") (bs "10.0.0.9:1") false
    {[ bs "Content-Type" := bs "application/grpc" ]} {[ bs "sid" := bs cookie ]} ∅ 5 (frame_of []).
Definition demo_connection : connection (S := ()) := mkConnection 2 None 0 [].
Definition demo_grpc (cookie : string) : RestState () * outcome grpc_body :=
  grpc_server demo_settings demo_deps demo_connection demo_state (demo_call cookie) background ∅ demo_inputs.

(** The scan of an operator starts; without a session the chain answers 401 itself, in
    place of a gRPC status. *)
Example demo_scan_called :
  dn_scanning <$> rt_disc (demo_grpc "s1").1 = Some true ∧
  dn_scanning <$> rt_disc (demo_grpc "s2").1 = Some false ∧
  match (demo_grpc "s1").2 with Reply 200 _ (BodyData b _) => gb_code b = codeOK ∧ length (gb_frames b) = 1%nat | _ => False end ∧
  match (demo_grpc "s2").2 with Reply 401 _ (BodyError _ _) => True | _ => False end.
Proof. vm_compute. done. Qed.

Lemma grpc_writes_authorized_witness :
  same_data demo_state (demo_grpc "s1").1 ∨
  ∃ id, (resolve_identity demo_service (demo_call "s1") demo_inputs).2 = Some id ∧ has_role DefaultRoleOperator (id_role id) = true.
Proof.
  exact (grpc_writes_authorized demo_settings demo_deps demo_connection demo_state (demo_call "s1") ∅ demo_inputs demo_service eq_refl eq_refl).
Defined.
