(* ===== verification/Main.v ===== *)
(** cmd/monsoon/main.go and tls.go: how the program starts and how the daemon puts the parts
    together.

    The command line and what each run is for, the identity of the DHCP servers, the lease
    events that go to the broker and to the queue of DNS updates, the worker of that queue,
    the reports of discovery, and the reloads between updates.  Goroutines are not modelled:
    what happens to the daemon is a list of steps, in any order. *)

From S2P Require Import Prelude.
From S2P Require Import GoBytes.
From S2P Require Import GoStrings.
From S2P Require Import GoChan.
From S2P Require Import GoTime.
From S2P Require Import GoNet.
From S2P Require Import GoPort.
From S2P Require Import GoSort.
From S2P Require Import GoJson.
From S2P Require Import GoSha.
From S2P Require Import ConfigTypes.
From S2P Require Import ConfigEnv.
From S2P Require Import ConfigValidate.
From S2P Require Import Wal.
From S2P Require Import StorageTree.
From S2P Require Import Snapshot.
From S2P Require Import StorageEngine.
From S2P Require Import StorageSpec.
From S2P Require Import StorageTheorems.
From S2P Require Import Lease.
From S2P Require Import LeaseInterface.
From S2P Require Import Ipam.
From S2P Require Import GoNet6.
From S2P Require Import Dhcp4Wire.
From S2P Require Import Dhcp6Wire.
From S2P Require Import Auth.
From S2P Require Import Events.
From S2P Require Import AuditLog.
From S2P Require Import Discovery.
From S2P Require Import EventData.
From S2P Require Import Metrics.
From S2P Require Import RestHttp.
From S2P Require Import RestAuth.
From S2P Require Import RestRouter.
From S2P Require Import RestTheorems.
From S2P Require Import RestSystem.
From S2P Require Import Daemon.
From S2P Require Import Ddns.
From S2P Require Import Migrate.
From S2P Require Import MigrateApi.

(** * The command line *)

Definition equals_sign : byte := byte_of_Z 61.
(** The arguments of the program when the first is [migrate]: its configuration is the
    one of the source. *)
Definition migrate_arg (arg : bytes) : bytes :=
  if bool_decide (arg = bs "--config") || bool_decide (arg = bs "-c") then bs "--source-config"
  else if has_prefix arg (bs "--config=") then bs "--source-config=" ++ drop 9 arg else arg.
Definition rewrite_args (args : list bytes) : list bytes :=
  match args with
  | program :: first :: rest =>
      if bool_decide (first = bs "migrate") then program :: bs "--migrate" :: (migrate_arg <$> rest) else args
  | _ => args
  end.

(** * The identity of the servers *)

(** [net.ParseIP(s).To4()] *)
Definition v4_of (s : bytes) : bytes := to4 (parse_ip s).
Definition any_v4 : bytes := bs "0.0.0.0".
Fixpoint first_v4 (texts : list bytes) : option bytes :=
  match texts with
  | [] => None
  | s :: texts => if bool_decide (v4_of s = []) then first_v4 texts else Some (v4_of s)
  end.
Definition pick_server_identifier (c : Config) : bytes :=
  match first_v4 (sc_gateway <$> cf_subnets c) with
  | Some ip => ip
  | None =>
      match split_host_port (v4_listen (dc_v4 (cf_dhcp c))) with
      | Some (host, _) =>
          if negb (bool_decide (host = [])) && negb (bool_decide (host = any_v4)) && negb (bool_decide (v4_of host = []))
          then v4_of host else map byte_of_Z [127; 0; 0; 1]
      | None => map byte_of_Z [127; 0; 0; 1]
      end
  end.

Definition set_byte (i : nat) (f : Z → Z) (s : bytes) : bytes := alter (λ b, byte_of_Z (f (byte_to_Z b))) i s.
(** A UUID of version 4 from the name of the host. *)
Definition server_uuid (hostname : bytes) : bytes :=
  let seed := trim_space hostname in
  let seed := if bool_decide (seed = []) then bs "monsoon" else seed in
  set_byte 8 (λ b, Z.lor (Z.land b 63) 128) (set_byte 6 (λ b, Z.lor (Z.land b 15) 64) (take 16 (sha256 seed))).
Definition pick_server_duid (c : Config) : bytes := generate_duid_uuid (server_uuid (sv_hostname (cf_server c))).

Fixpoint unique_from (seen : gset bytes) (items : list bytes) : list bytes :=
  match items with
  | [] => []
  | item :: items =>
      let item := trim_space item in
      if bool_decide (item = []) || bool_decide (item ∈ seen) then unique_from seen items
      else item :: unique_from ({[ item ]} ∪ seen) items
  end.
Definition unique_strings (items : list bytes) : list bytes := unique_from ∅ items.
(** [interfaces] are the addresses of the interfaces of the host, as far as they can be
    read. *)
Definition local_ipv4_addrs (interfaces : list (list bytes)) : list bytes :=
  ip_string <$> filter (λ a, a ≠ []) (to4 <$> concat interfaces).
Definition configured_dhcp_servers (c : Config) (interfaces : list (list bytes)) : list bytes :=
  unique_strings (ip_string (pick_server_identifier c) :: local_ipv4_addrs interfaces).

Lemma pick_identifier_v4 c : length (pick_server_identifier c) = 4%nat.
Proof.
  assert (Hf : ∀ texts ip, first_v4 texts = Some ip → length ip = 4%nat).
  { induction texts as [|t texts IH]; intros ip; cbn [first_v4]; [done|]. case_bool_decide as E; [apply IH|].
    intros [= <-]. by apply to4_length. }
  unfold pick_server_identifier. destruct (first_v4 _) eqn:E; [by eapply Hf|].
  destruct (split_host_port _) as [[host ?]|]; [|done]. destruct (_ && _ && _) eqn:Ev; [|done].
  apply andb_true_iff in Ev as [_ Ev]. apply negb_true_iff, bool_decide_eq_false in Ev. by apply to4_length.
Qed.
Lemma elem_of_unique item items seen :
  item ∈ items → trim_space item ≠ [] → trim_space item ∉ seen → trim_space item ∈ unique_from seen items.
Proof.
  revert seen. induction items as [|i items IH]; intros seen Hin Hne Hs; [by apply elem_of_nil in Hin|]. cbn [unique_from]. cbv zeta.
  destruct (decide (trim_space i = trim_space item)) as [->|Hd].
  { rewrite !bool_decide_eq_false_2 by done. cbn. by left. }
  apply elem_of_cons in Hin as [->|Hin]; [done|].
  destruct (_ || _); [by apply IH|]. right. apply IH; [done..|]. rewrite not_elem_of_union, not_elem_of_singleton. naive_solver.
Qed.
(** The daemon's own offers are not reported, whatever address they come from. *)
Lemma own_offers_allowed `{UnicodeTables} c interfaces lookup_arp now raw packet src r :
  decode_packet raw = Ok packet → pk_options packet !! OptionServerIdentifier = Some (pick_server_identifier c) → length src = 4%nat →
  inspect_packet (new_rogue_detector (configured_dhcp_servers c interfaces)) lookup_arp now raw (Some src) = Some r →
  ro_ip r ≠ ip_string (pick_server_identifier c).
Proof.
  intros Hd Ho Hs Hr E. pose proof (pick_identifier_v4 c) as Hl.
  destruct (proj1 (rogue_reported_exactly _ lookup_arp now raw packet _ src Hd Ho Hl Hs) (ex_intro _ r (conj Hr E))) as [_ Hall].
  assert (Ht : trim_space (ip_string (pick_server_identifier c)) = ip_string (pick_server_identifier c))
    by (rewrite trim_printable; [done|rewrite ip_string_v4 by done; by apply fmt_v4_printable]).
  destruct (Hall (ip_string (pick_server_identifier c))) as [_ Hno].
  - unfold configured_dhcp_servers, unique_strings. rewrite <-Ht at 1. apply elem_of_unique; [by left|rewrite Ht; by apply ip_string_nonempty|set_solver].
  - apply Hno. rewrite Ht. by apply parse_ip_string.
Qed.

Definition first_subnet (items : list bytes) : bytes := match items with [] => [] | s :: _ => trim_space s end.

(** * Lease events *)

(** What the lease events reach: the broker, and the queue of DNS updates if there is
    one. *)
Record Wires := mkWires { wr_broker : Broker event_data; wr_ddns : option (chan (Action * Lease)) }.
Definition ddns_queue_size : Z := 128.

Definition queue_ddns (action : Action) (item : Lease) (w : Wires) : Wires :=
  mkWires (wr_broker w) (send_nb (action, item) <$> wr_ddns w).
Definition publish (type : bytes) (data : event_data) (now : time) (w : Wires) : Wires :=
  mkWires (publish_event (wr_broker w) (mkEvent type 0 data) now) (wr_ddns w).

(** The update an event of a DHCP server asks for. *)
Definition action_of (type : bytes) : option Action :=
  if bool_decide (type = bs "lease.created" ∨ type = bs "lease.renewed") then Some ActionUpsert
  else if bool_decide (type = bs "lease.released") then Some ActionDelete else None.
Definition maybe_queue (type : bytes) (item : Lease) (w : Wires) : Wires :=
  match action_of type with Some action => queue_ddns action item w | None => w end.

(** The time left of a renewed lease, in whole seconds. *)
Definition remaining_data (type : bytes) (item : Lease) (now : time) (data : event_data) : event_data :=
  let remaining := round_seconds (time_sub (l_expiry_time item) now) in
  if bool_decide (type = bs "lease.renewed") && (0 <? remaining)
  then <[bs "remaining" := VString (seconds_text remaining)]> data else data.
Definition on_lease_event4 (type : bytes) (item : Lease) (now : time) (w : Wires) : Wires :=
  let data : event_data := list_to_map [(bs "ip", VString (l_ip item)); (bs "mac", VString (l_mac item));
                                        (bs "hostname", VString (l_hostname item)); (bs "subnet", VString (l_subnet_id item))] in
  publish type (remaining_data type item now data) now (maybe_queue type item w).
Definition on_lease_event6 (type : bytes) (item : Lease) (now : time) (w : Wires) : Wires :=
  let data : event_data := list_to_map [(bs "ip", VString (l_ip item)); (bs "subnet", VString (l_subnet_id item))] in
  publish type data now (maybe_queue type item w).
(** The callback of the sweeper. *)
Definition on_swept (item : Lease) (now : time) (w : Wires) : Wires :=
  if bool_decide (l_state item = StateExpired) then
    publish (bs "lease.expired")
      (list_to_map [(bs "ip", VString (l_ip item)); (bs "mac", VString (l_mac item)); (bs "subnet", VString (l_subnet_id item))])
      now (queue_ddns ActionDelete item w)
  else w.

(** The events of discovery. *)
Definition on_rogue (item : RogueServer) (now : time) (w : Wires) : Wires :=
  publish (bs "discovery.rogue_dhcp")
    (list_to_map [(bs "ip", VString (ro_ip item)); (bs "mac", VString (ro_mac item)); (bs "vendor", VString (ro_vendor item));
                  (bs "source", VString (ro_source item)); (bs "detected", VTime (ro_detected item))]) now w.
(** The detector's report: the server is stored, and announced if that succeeded. *)
Definition report_rogue `{UnicodeTables} `{Json (list RogueServer)} (item : RogueServer) (now tx_now : time) (io : list append_io) (x : DiscEngine * Wires)
    : DiscEngine * Wires :=
  match record_rogue_server x.1 item now tx_now io with
  | (d, None) => (d, on_rogue item now x.2)
  | (d, Some _) => (d, x.2)
  end.
Definition on_scan_complete (r : ScanResult) (now : time) (w : Wires) : Wires :=
  publish (bs "discovery.scan_completed")
    (list_to_map [(bs "scan_id", VString (re_scan_id r)); (bs "subnet", VString (first_subnet (re_subnets r)));
                  (bs "subnet_cidr", VString (first_subnet (re_subnets r))); (bs "total_hosts", VInt (re_total_hosts r));
                  (bs "new_hosts", VInt (re_new_hosts r)); (bs "changed_hosts", VInt (re_changed_hosts r));
                  (bs "missing_hosts", VInt (re_missing_hosts r)); (bs "conflicts", VConflicts (re_conflicts r));
                  (bs "rogue_servers", VInt (zlen (re_rogue_servers r))); (bs "duration_ms", VInt64 (re_duration_ms r));
                  (bs "completed_at", VTime (re_completed_at r))]) now w.

(** * The worker of the queue *)

Section wires.
Context `{UnicodeTables}.

(** A turn of the worker takes one request; an error is logged and nothing more. *)
Definition ddns_turn {N : Type} (exchange : N → bytes → N * result bytes) (c : Client) (now : time) (randoms : list (result bytes))
    (x : Wires * N) : Wires * N :=
  match wr_ddns x.1 with
  | None => x
  | Some q =>
      match recv_nb q with
      | (Some (action, item), q) =>
          (mkWires (wr_broker x.1) (Some q), (perform exchange c action x.2 item now randoms).1)
      | (None, _) => x
      end
  end.

(** What becomes of a message to the DNS server: it is served and its answer arrives, it is
    served and the client sees something else, or it is lost and the client sees whatever
    it sees, an error or the answer of somebody else. *)
Inductive fate := Reached | Altered (r : result bytes) | Lost (r : result bytes).
Definition over_network (n : DnsServer * list fate) (message : bytes) : (DnsServer * list fate) * result bytes :=
  match n.2 with
  | Reached :: fates => let '(s, r) := serve_dns n.1 message in ((s, fates), r)
  | Altered r :: fates => (((serve_dns n.1 message).1, fates), r)
  | Lost r :: fates => ((n.1, fates), r)
  | [] => (n, Err (ErrIO "timeout"))
  end.

(** What happens: an event of a DHCP server or of the sweeper, a turn of the worker with the
    fates of its messages (those after the last are lost), or time that passes at the DNS
    server. *)
Inductive wire_step :=
  | StepV4 (type : bytes) (item : Lease) (now : time)
  | StepV6 (type : bytes) (item : Lease) (now : time)
  | StepSwept (item : Lease) (now : time)
  | StepWork (now : time) (randoms : list (result bytes)) (fates : list fate)
  | StepClock (unix : Z).
Definition wire (c : Client) (x : Wires * DnsServer) (step : wire_step) : Wires * DnsServer :=
  match step with
  | StepV4 type item now => (on_lease_event4 type item now x.1, x.2)
  | StepV6 type item now => (on_lease_event6 type item now x.1, x.2)
  | StepSwept item now => (on_swept item now x.1, x.2)
  | StepWork now randoms fates =>
      let '(w, (s, _)) := ddns_turn over_network c now randoms (x.1, (x.2, fates)) in (w, s)
  | StepClock unix => (x.1, mkServer (dz_zones x.2) (dz_data x.2) (dz_key x.2) unix)
  end.
End wires.

(** * What the DNS zone follows *)

Section follow.
Context `{UnicodeTables} (conf : DdnsConfig) (c : Client).
Hypothesis Hclient : new_client conf = Ok c.
Hypothesis Hzone : cl_forward_zone c ≠ [] ∧ trim_space (cl_forward_zone c) = cl_forward_zone c.
Hypothesis Hkey : signs (cl_signer c).

Definition lease_host (item : Lease) : bytes := normalize_hostname (l_hostname item).
Definition lease_key (item : Lease) : list bytes * Z :=
  (name_labels (forward_name c (lease_host item)), ip_type (parse_ip (trim_space (l_ip item)))).
Definition lease_rdata (item : Lease) : bytes := ip_rdata (parse_ip (trim_space (l_ip item))).

(** What a request means for the addresses of a zone. *)
Definition effect (data : zone_data) (q : Action * Lease) : zone_data :=
  match q.1 with
  | ActionUpsert => {[ (lease_key q.2, lease_rdata q.2) ]} ∪ filter (λ r, r.1 ≠ lease_key q.2) data
  | ActionDelete => data ∖ {[ (lease_key q.2, lease_rdata q.2) ]}
  end.

(** Leases whose name is one label the client accepts: those whose updates a server takes. *)
Record publishable (item : Lease) : Prop := {
  pu_host : lease_host item ≠ [];
  pu_trim : trim_space (lease_host item) = lease_host item;
  pu_label : dot ∉ lease_host item;
  pu_builds : ∀ action, ∃ us, build_updates c action item = Ok us;
}.

(** Zones with the same addresses; pointers are left out. *)
Definition same_addresses (a b : zone_data) : Prop := ∀ n t x, t ≠ typePTR → (n, t, x) ∈ a ↔ (n, t, x) ∈ b.
#[local] Instance same_addresses_equivalence : Equivalence same_addresses.
Proof. split; unfold same_addresses; [done|intros a b Hab n t x Ht; by rewrite Hab|intros a b d Hab Hbd n t x Ht; by rewrite Hab, Hbd]. Qed.

Lemma elem_of_effect data q n t x :
  (n, t, x) ∈ effect data q ↔
    if decide ((n, t) = lease_key q.2)
    then match q.1 with ActionUpsert => x = lease_rdata q.2 | ActionDelete => (n, t, x) ∈ data ∧ x ≠ lease_rdata q.2 end
    else (n, t, x) ∈ data.
Proof.
  unfold effect. destruct q as [[] item]; cbn [fst snd].
  - rewrite elem_of_union, elem_of_singleton, elem_of_filter. cbn. destruct (decide _) as [->|Hn]; naive_solver.
  - rewrite elem_of_difference, elem_of_singleton. destruct (decide _) as [->|Hn]; naive_solver.
Qed.
#[local] Instance effect_proper : Proper (same_addresses ==> eq ==> same_addresses) effect.
Proof.
  intros a b Hab q _ <- n t x Ht. rewrite !elem_of_effect. destruct (decide _); [destruct q.1; [done|]|]; by rewrite (Hab n t x Ht).
Qed.
#[local] Instance effects_proper : Proper (same_addresses ==> eq ==> same_addresses) (foldl effect).
Proof.
  intros a b Hab l _ <-. revert a b Hab. induction l as [|q l IH]; intros a b Hab; cbn; [done|]. apply IH. by rewrite Hab.
Qed.

(** The exchange with the server changes its records only. *)
Definition same_server (s s' : DnsServer) : Prop := dz_zones s' = dz_zones s ∧ dz_key s' = dz_key s ∧ dz_unix s' = dz_unix s.
#[local] Instance same_server_trans : PreOrder same_server.
Proof. split; [done|]. intros a b d (?&?&?) (?&?&?). unfold same_server. split_and!; congruence. Qed.
Lemma served_same s u : same_server s (served s u).1.
Proof. unfold served. by destruct (negb _); [|destruct (negb _)]. Qed.

Definition lost (f : fate) : Prop := match f with Lost _ => True | _ => False end.

(** An update is served as a whole, or not at all. *)
Lemma network_update s fates u now random :
  Forall widths (zu_records u) →
  let o := send_update over_network c (s, fates) u now random in o.1.1 = s ∨ o.1.1 = (served s u).1.
Proof.
  intros Hw o. subst o. unfold send_update. destruct (_ || _); [by left|].
  destruct (validate_zone_update u) eqn:Ev; [by left|]. destruct random as [raw| |]; [|by left..]. cbv zeta.
  destruct (build_message c _ u now) as [message| |] eqn:Em; [|by left..].
  destruct (build_message_parsed c _ u now message (be_get_two raw) Ev Hw Hkey Em) as (signed & es & Hp).
  pose proof (serve_parsed s message u signed es _ Hp) as Hs.
  assert (Ho : (over_network (s, fates) message).1.1 = s ∨ (over_network (s, fates) message).1.1 = (served s u).1).
  { unfold over_network. cbn [fst snd]. destruct fates as [|[|r|r] fates]; [by left|by destruct (serve_dns s message)|done|by left]. }
  by destruct (over_network (s, fates) message) as [n' [?|?|?]].
Qed.
(** It is served when the server takes the signature and the message is not lost. *)
Lemma network_update_reached s f fates u now raw :
  Forall widths (zu_records u) → trusted (dz_key s) (cl_signer c) (dz_unix s) (unix now) → ¬ lost f →
  validate_zone_update u = None → zu_records u ≠ [] → zlen (zu_records u) ≤ 65535 → Forall (λ r, zlen (rr_rdata r) ≤ 65535) (zu_records u) →
  (send_update over_network c (s, f :: fates) u now (Ok raw)).1.1 = (served s u).1.
Proof.
  intros Hw Ht Hf Hv Hne Hlen Hr. unfold send_update.
  assert (Hz : trim_space (zu_zone u) ≠ []).
  { intros E. unfold validate_zone_update, validate_dns_name in Hv. by rewrite E in Hv. }
  rewrite (bool_decide_eq_false_2 _ Hz), (bool_decide_eq_false_2 (length _ = O)) by (by destruct (zu_records u)). cbn [orb]. rewrite Hv. cbv zeta.
  destruct (build_message_ok c _ _ (be_get (take 2 raw)) u now Ht Hlen Hr) as [message Em]. rewrite Em.
  destruct (build_message_received c (dz_key s) (dz_unix s) _ u now message (be_get_two raw) Hv Hw Ht Em) as (signed & es & Hp & Ha).
  pose proof (serve_received s message u signed es _ (be_get_two raw) Hp Ha) as E.
  assert (Hs : (serve_dns s message).1 = (served s u).1) by (destruct (serve_dns s message) as [s' [?|?|?]]; by rewrite <-E).
  assert (Ho : (over_network (s, f :: fates) message).1.1 = (served s u).1)
    by (unfold over_network; cbn [fst snd]; destruct f; [by destruct (serve_dns s message)|done|by destruct Hf]).
  by destruct (over_network (s, f :: fates) message) as [n' [?|?|?]].
Qed.

(** The pointers that follow leave the addresses. *)
Lemma network_pointers us now : ∀ s fates randoms,
  Forall pointers us →
  same_addresses (dz_data (send_updates over_network c (s, fates) us now randoms).1.1) (dz_data s) ∧
  same_server s (send_updates over_network c (s, fates) us now randoms).1.1.
Proof.
  induction us as [|u us IH]; intros s fates randoms Hus; [done|]. apply Forall_cons in Hus as [Hu Hus]. cbn [send_updates].
  assert (Hw : Forall widths (zu_records u)) by (eapply Forall_impl; [exact Hu|]; by intros ? []).
  pose proof (network_update s fates u now (default (Err (ErrIO "random")) (hd_error randoms)) Hw) as Ho.
  destruct (send_update _ _ _ _ _ _) as [[s' fates'] o]. cbn [fst] in Ho.
  assert (Hs : same_addresses (dz_data s') (dz_data s) ∧ same_server s s').
  { destruct Ho as [->| ->]; [done|]. split; [|apply served_same]. unfold served. destruct (negb _); [done|]. destruct (negb _); [done|]. cbn.
    intros n t x Ht. by apply pointers_keep. }
  destruct o as [e|]; cbn [fst]; [exact Hs|]. destruct (IH s' fates' (tl randoms) Hus) as [H1 H2].
  split; [etrans; [exact H1|apply Hs]|etrans; [apply Hs|exact H2]].
Qed.

(** The updates of a request: none, or that of its address and those of its pointers. *)
Lemma request_updates action item us : build_updates c action item = Ok us →
  us = [] ∨ ∃ rest, Forall pointers rest ∧
    us = mkZoneUpdate (cl_forward_zone c) (update_records action (forward_name c (lease_host item))
           (ip_type (parse_ip (trim_space (l_ip item)))) (default_ttl_lease (l_duration item)) (lease_rdata item)) :: rest.
Proof.
  destruct Hzone as [Hz _]. unfold build_updates, lease_rdata, lease_host. cbv zeta.
  destruct (bool_decide (parse_ip _ = [])); [done|]. destruct (bool_decide (normalize_hostname _ = [])); [intros <-%ok_inj; by left|].
  destruct (bool_decide (forward_name _ _ = [])); [intros <-%ok_inj; by left|]. destruct (first_error _); [done|].
  rewrite (bool_decide_eq_false_2 _ Hz). destruct (reverse_names _ _) as [pn pz]. destruct (_ || _).
  - intros <-%ok_inj. right. by exists [].
  - destruct (first_error _); [done|]. intros <-%ok_inj. right. eexists [_]. split; [|done]. constructor; [|constructor].
    apply pointer_batch, ttl_width.
Qed.

(** A publishable name is accepted by a server of the zone. *)
Lemma publishable_name item : publishable item →
  forward_name c (lease_host item) = lease_host item ++ dot :: cl_forward_zone c ∧
  name_labels (forward_name c (lease_host item)) = lease_host item :: name_labels (cl_forward_zone c) ∧
  ∀ action us, build_updates c action item = Ok us →
    validate_dns_name (forward_name c (lease_host item)) = None ∧ validate_dns_name (cl_forward_zone c) = None ∧ us ≠ [].
Proof.
  intros [H1 H2 H3 H4]. destruct Hzone as [Hz Hzs].
  assert (Hph : GoStrings.trim_space (lease_host item) = lease_host item) by exact H2.
  assert (Hpl : Ddns.plain (lease_host item)) by (split; [done|]; split; [done|]; apply trim_dots_ends).
  assert (Hpz : Ddns.plain (cl_forward_zone c)).
  { split; [done|]. split; [done|]. revert Hclient. unfold new_client. case_bool_decide; [done|]. cbv zeta.
    destruct (new_tsig_signer _ _ _); [|done..]. intros <-%ok_inj. apply trim_dots_ends. }
  assert (Hn : normalize_hostname (lease_host item) = lease_host item)
    by (unfold normalize_hostname at 1; rewrite Hph; apply trim_dots_id; apply Hpl).
  assert (Hf : forward_name c (lease_host item) = lease_host item ++ dot :: cl_forward_zone c).
  { unfold forward_name. rewrite Hn. by rewrite !bool_decide_eq_false_2. }
  split; [done|]. rewrite Hf. split; [by apply labels_join|]. intros action us Hus.
  destruct (build_updates_shape c action item us Hz Hpl H3 Hus) as (Hv1 & Hv2 & rest & _ & ->). done.
Qed.

(** One request has its effect, or none; it has it when its name can be published and the
    server gets its first message. *)
Definition gets_through (s : DnsServer) (now : time) (randoms : list (result bytes)) (fates : list fate) : Prop :=
  name_labels (cl_forward_zone c) ∈ dz_zones s ∧ trusted (dz_key s) (cl_signer c) (dz_unix s) (unix now) ∧
  (∃ raw rest, randoms = Ok raw :: rest) ∧ ∃ f rest, fates = f :: rest ∧ ¬ lost f.
Lemma first_update action s item now randoms fates rest :
  let u := mkZoneUpdate (cl_forward_zone c) (update_records action (forward_name c (lease_host item))
             (ip_type (parse_ip (trim_space (l_ip item)))) (default_ttl_lease (l_duration item)) (lease_rdata item)) in
  build_updates c action item = Ok (u :: rest) →
  let s' := (send_update over_network c (s, fates) u now (default (Err (ErrIO "random")) (hd_error randoms))).1.1 in
  same_server s s' ∧
  ∃ applied : bool, same_addresses (dz_data s') (if applied then effect (dz_data s) (action, item) else dz_data s) ∧
    (publishable item → gets_through s now randoms fates → applied = true).
Proof.
  intros u Eus s'. set (random := default _ _) in s'.
  assert (Hw : Forall widths (zu_records u)).
  { pose proof (ttl_width (l_duration item)). subst u. destruct (ip_type_value (parse_ip (trim_space (l_ip item)))) as [E|E]; destruct action;
      repeat constructor; cbn [rr_typ rr_class rr_ttl]; rewrite ?E; unfold typeA, typeAAAA, classANY, classNONE, classINET; lia. }
  assert (Hr : Forall (λ r, zlen (rr_rdata r) ≤ 65535) (zu_records u)).
  { pose proof (ip_rdata_size (parse_ip (trim_space (l_ip item)))). unfold lease_rdata in u. destruct action; repeat constructor; cbn; (done || lia). }
  pose proof (network_update s fates u now random Hw) as Ho. cbv zeta in Ho. fold s' in Ho.
  assert (Hdone : publishable item → gets_through s now randoms fates → s' = (served s u).1 ∧ (served s u).2 = None).
  { intros Hp (Hin & Ht & (raw & rs & ->) & f & fs & -> & Hf). destruct (publishable_name item Hp) as (Ef & El & Hv).
    destruct (Hv action _ Eus) as (Hv1 & Hv2 & _). split.
    - apply network_update_reached; try done; [|by destruct action|by destruct action].
      unfold validate_zone_update. cbn [u zu_zone zu_records]. rewrite Hv2. destruct action; cbn; by rewrite Hv1.
    - unfold served. cbn [u zu_zone]. rewrite (bool_decide_eq_true_2 _ Hin). cbn [negb].
      assert (forallb (λ r, in_zone (name_labels (cl_forward_zone c)) (dr_name r)) (record_of <$> zu_records u) = true) as ->
        by (destruct action; cbn; by rewrite El, in_zone_cons). done. }
  clearbody s'. destruct (served s u) as [s1 [e|]] eqn:Es.
  { assert (Es1 : s1 = s).
    { revert Es. unfold served. destruct (negb _); [by intros [= <- _]|]. destruct (negb _); [by intros [= <- _]|done]. }
    assert (s' = s) as -> by (rewrite Es1 in Ho; by destruct Ho).
    split; [done|]. exists false. split; [done|]. intros Hp Hg. by destruct (Hdone Hp Hg). }
  assert (Heff : same_addresses (dz_data s1) (effect (dz_data s) (action, item))).
  { revert Es. unfold served. destruct (negb _); [done|]. destruct (negb _); [done|]. intros [= <-]. cbn [dz_data u zu_records].
    intros n t x Ht. rewrite (applied_batch action (forward_name c (lease_host item)) _ _ _ _ _ eq_refl n t x Ht), elem_of_effect.
    cbn [fst snd]. unfold lease_key. destruct (decide (n = _ ∧ t = _)) as [[-> ->]|Hn]; [by rewrite decide_True|].
    rewrite decide_False; [done|]. intros [= -> ->]. by apply Hn. }
  pose proof (served_same s u) as Hsame. rewrite Es in Hsame. cbn [fst] in *.
  destruct Ho as [->| ->]; [|by split; [|exists true]]. split; [done|].
  destruct (decide (dz_data s = dz_data s1)) as [E|Hn]; [exists true; by rewrite <-E in Heff|].
  exists false. split; [done|]. intros Hp Hg. destruct (Hdone Hp Hg) as [E _]. by rewrite <-E in Hn.
Qed.
Lemma performed action s item now randoms fates :
  let s' := (perform over_network c action (s, fates) item now randoms).1.1 in
  same_server s s' ∧
  ∃ applied : bool, same_addresses (dz_data s') (if applied then effect (dz_data s) (action, item) else dz_data s) ∧
    (publishable item → gets_through s now randoms fates → applied = true).
Proof.
  intros s'. subst s'. unfold perform. destruct (build_updates c action item) as [us| |] eqn:Eus.
  2, 3: split; [done|]; exists false; split; [done|]; intros [_ _ _ Hb]; destruct (Hb action) as [us Hus]; congruence.
  destruct (request_updates action item us Eus) as [->|(rest & Hrest & ->)].
  { split; [done|]. exists false. split; [done|]. intros Hp. destruct (publishable_name item Hp) as (_ & _ & Hv). by destruct (Hv action _ Eus) as (_ & _ & []). }
  destruct (first_update action s item now randoms fates rest Eus) as (Hsame & applied & Ha & Himp). cbn [send_updates].
  destruct (send_update _ _ _ _ _ _) as [[s1 fates1] o]. cbn [fst] in *.
  destruct o as [e|]; cbn [fst]; [split; [done|]; by exists applied|].
  destruct (network_pointers rest now s1 fates1 (tl randoms) Hrest) as [Hp1 Hp2].
  split; [by etrans|]. exists applied. split; [by etrans|done].
Qed.

Definition pending (w : Wires) : list (Action * Lease) := default [] (ch_buf <$> wr_ddns w).
(** What an event asks for: a name for a lease that begins or goes on, none for one that
    ends; and the requests that find room in the queue. *)
Definition event_requests (type : bytes) (item : Lease) : list (Action * Lease) :=
  (if decide (type ∈ [bs "lease.created"; bs "lease.renewed"]) then [(ActionUpsert, item)] else []) ++
  (if decide (type = bs "lease.released") then [(ActionDelete, item)] else []).
Definition step_requests (step : wire_step) : list (Action * Lease) :=
  match step with
  | StepV4 type item _ | StepV6 type item _ => event_requests type item
  | StepSwept item _ => if decide (l_state item = StateExpired) then [(ActionDelete, item)] else []
  | _ => []
  end.
Definition has_room (w : Wires) : bool :=
  match wr_ddns w with Some q => zlen (ch_buf q) <? ch_cap q | None => false end.
Definition accepted_at (x : Wires * DnsServer) (step : wire_step) : list (Action * Lease) :=
  if has_room x.1 then step_requests step else [].
Fixpoint accepted (x : Wires * DnsServer) (steps : list wire_step) : list (Action * Lease) :=
  match steps with [] => [] | step :: steps => accepted_at x step ++ accepted (wire c x step) steps end.

(** The turns in which the worker takes a request. *)
Record Turn := mkTurn {
  tn_request : Action * Lease; tn_server : DnsServer; tn_now : time; tn_randoms : list (result bytes); tn_fates : list fate
}.
Definition taken_at (x : Wires * DnsServer) (step : wire_step) : list Turn :=
  match step, pending x.1 with
  | StepWork now randoms fates, q :: _ => [mkTurn q x.2 now randoms fates]
  | _, _ => []
  end.
Fixpoint taken (x : Wires * DnsServer) (steps : list wire_step) : list Turn :=
  match steps with [] => [] | step :: steps => taken_at x step ++ taken (wire c x step) steps end.
(** The turn ends with its request published. *)
Definition publishes (t : Turn) : Prop :=
  publishable (tn_request t).2 ∧ gets_through (tn_server t) (tn_now t) (tn_randoms t) (tn_fates t).

(** Some of the turns, in their order. *)
Definition effects_of (data : zone_data) (marked : list (bool * Turn)) : zone_data :=
  foldl (λ data t, if t.1 : bool then effect data (tn_request t.2) else data) data marked.
#[local] Instance effects_of_proper : Proper (same_addresses ==> eq ==> same_addresses) effects_of.
Proof.
  intros a b Hab l _ <-. unfold effects_of. revert a b Hab. induction l as [|[[] t] l IH]; intros a b Hab; cbn [foldl fst snd]; [done|..]; apply IH; [|done].
  by rewrite Hab.
Qed.

Lemma queue_pending action item w : pending (queue_ddns action item w) = pending w ++ if has_room w then [(action, item)] else [].
Proof.
  unfold pending, queue_ddns, send_nb, has_room. destruct w as [br [q|]]; cbn; [|done]. destruct (_ <? _); [done|by rewrite app_nil_r].
Qed.
Lemma maybe_queue_pending type item w :
  pending (maybe_queue type item w) = pending w ++ if has_room w then event_requests type item else [].
Proof.
  assert (E : event_requests type item = match action_of type with Some action => [(action, item)] | None => [] end).
  { unfold event_requests, action_of. destruct (decide (type = bs "lease.created")) as [->|H1]; [done|].
    destruct (decide (type = bs "lease.renewed")) as [->|H2]; [done|]. rewrite decide_False by set_solver.
    rewrite (bool_decide_eq_false_2 (type = _ ∨ _)) by naive_solver. destruct (decide _) as [->|H3]; [done|by rewrite bool_decide_eq_false_2]. }
  rewrite E. unfold maybe_queue. destruct (action_of type); [apply queue_pending|]. destruct (has_room w); by rewrite app_nil_r.
Qed.
Lemma swept_pending item now w :
  pending (on_swept item now w) =
    pending w ++ if has_room w then if decide (l_state item = StateExpired) then [(ActionDelete, item)] else [] else [].
Proof.
  unfold on_swept. destruct (decide _) as [E|E]; [rewrite bool_decide_eq_true_2 by done; apply queue_pending|].
  rewrite bool_decide_eq_false_2 by done. destruct (has_room w); by rewrite app_nil_r.
Qed.
Lemma quiet x step : taken_at x step = [] → dz_data (wire c x step).2 = dz_data x.2 ∧ pending (wire c x step).1 = pending x.1 ++ accepted_at x step.
Proof.
  unfold accepted_at. destruct step as [type item now|type item now|item now|now randoms fates|u]; cbn [taken_at wire step_requests fst snd dz_data]; intros Hq.
  - split; [done|]. apply (maybe_queue_pending type item).
  - split; [done|]. apply (maybe_queue_pending type item).
  - split; [done|]. apply swept_pending.
  - destruct (has_room x.1); rewrite app_nil_r; destruct x as [[br [[cap [|q buf]]|]] s]; done.
  - destruct (has_room x.1); by rewrite app_nil_r.
Qed.
Lemma one_turn x step t : taken_at x step = [t] →
  tn_request t :: pending (wire c x step).1 = pending x.1 ∧ accepted_at x step = [] ∧
  ∃ applied : bool, same_addresses (dz_data (wire c x step).2) (effects_of (dz_data x.2) [(applied, t)]) ∧ (publishes t → applied = true).
Proof.
  destruct step as [| | |now randoms fates|]; try done. destruct x as [[br [[cap [|[action item] buf]]|]] s]; try done. intros [= <-].
  cbn [wire fst snd]. unfold ddns_turn. cbn [wr_ddns fst snd recv_nb ch_buf].
  destruct (performed action s item now randoms fates) as (_ & applied & Ha & Himp).
  destruct (perform _ _ _ _ _ _ _) as [[s1 fates1] o]. cbn [fst snd] in *. split; [done|]. split; [unfold accepted_at; by destruct (has_room _)|].
  exists applied. split; [exact Ha|]. intros [Hp Hg]. by apply Himp.
Qed.
Lemma taken_cases x step : taken_at x step = [] ∨ ∃ t, taken_at x step = [t].
Proof. unfold taken_at. destruct step; try by left. destruct (pending x.1); [by left|right; by eexists]. Qed.

Lemma taken_app steps steps' x : taken x (steps ++ steps') = taken x steps ++ taken (foldl (wire c) x steps) steps'.
Proof. revert x. induction steps as [|step steps IH]; intros x; cbn [app taken foldl]; [done|]. by rewrite IH, app_assoc. Qed.
Lemma two_turns x now randoms fates now' randoms' fates' q q' qs qs' item at_sweep :
  pending x.1 = q :: qs → pending (wire c x (StepWork now randoms fates)).1 = q' :: qs' →
  taken x [StepWork now randoms fates; StepWork now' randoms' fates'; StepSwept item at_sweep] =
    [mkTurn q x.2 now randoms fates; mkTurn q' (wire c x (StepWork now randoms fates)).2 now' randoms' fates'].
Proof. intros H1 H2. cbn [taken]. unfold taken_at. by rewrite H1, H2. Qed.
Lemma turns_follow steps : ∀ x,
  let turns := taken x steps in
  (tn_request <$> turns) ++ pending (foldl (wire c) x steps).1 = pending x.1 ++ accepted x steps ∧
  ∃ applied : list bool, length applied = length turns ∧
    same_addresses (dz_data (foldl (wire c) x steps).2) (effects_of (dz_data x.2) (zip applied turns)) ∧
    ∀ i t, turns !! i = Some t → publishes t → applied !! i = Some true.
Proof.
  induction steps as [|step steps IH]; intros x turns; subst turns; cbn [taken accepted foldl].
  { split; [by rewrite app_nil_r|]. by exists []. }
  destruct (IH (wire c x step)) as (Hq & applied & Hlen & Hdata & Hall).
  destruct (taken_cases x step) as [E|[t E]].
  - destruct (quiet x step E) as [Hd Hp]. rewrite E, <-Hd. cbn [app]. split; [by rewrite Hq, Hp, app_assoc|]. by exists applied.
  - destruct (one_turn x step t E) as (Hp & Ha & b & Hb & Himp). rewrite E, Ha, <-Hp. cbn [app fmap list_fmap].
    split; [f_equal; exact Hq|]. exists (b :: applied). split; [cbn; lia|]. split.
    + rewrite Hdata. cbn [zip zip_with]. by rewrite Hb.
    + intros [|i] t'; cbn; [intros [= <-] Ht; f_equal; by apply Himp|apply Hall].
Qed.

End follow.

(** ** A morning in the office *)

Section office.
#[local] Existing Instance ascii_tables.

Definition office_wires : Wires := mkWires (new_broker 64) (Some (make_chan ddns_queue_size)).
Definition office_laptop (state : bytes) : Lease := office_lease (bs "10.0.1.44") (bs "laptop") <| l_state := state |>.
Definition office_phone : Lease := office_lease (bs "10.0.1.45") (bs "phone").
Definition office_events : list wire_step :=
  [StepV4 (bs "lease.created") (office_laptop StateBound) office_time; StepV4 (bs "lease.created") office_phone office_time].
Definition office_first : wire_step := StepWork office_time [Ok (bs "id")] [Reached].
Definition office_second : wire_step := StepWork office_time [Ok (bs "no")] [Altered (Err (ErrIO "reset"))].
Definition office_steps : list wire_step :=
  office_events ++ [office_first; office_second; StepSwept (office_laptop StateExpired) office_time].
Definition office_after : Wires * DnsServer := foldl (wire (office_client [])) (office_wires, office_server) office_steps.

(** The two names are served; the one of the laptop goes with the next turn. *)
Example office_served :
  let names (data : zone_data) := map (λ h, bool_decide (([bs h; bs "office"; bs "example"], typeA) ∈ map fst (elements data))) ["laptop"; "phone"]%string in
  names (dz_data office_after.2) = [true; true] ∧
  names (dz_data (wire (office_client []) office_after (StepWork office_time [Ok (bs "ok")] [Reached])).2) = [false; true].
Proof. vm_compute. done. Qed.

(** A request that finds the queue full is dropped. *)
Example full_queue_drops :
  pending (foldl (wire (office_client [])) (mkWires (new_broker 64) (Some (make_chan 1)), office_server) office_events).1 =
    [(ActionUpsert, office_laptop StateBound)].
Proof. vm_compute. reflexivity. Qed.

Lemma office_publishable item : item = office_laptop StateBound ∨ item = office_laptop StateExpired ∨ item = office_phone →
  publishable (office_client []) item.
Proof.
  intros [->|[->| ->]].
  all: split; [vm_compute; discriminate|vm_compute; reflexivity|refine (bool_decide_unpack _ _); vm_compute; exact I|].
  all: intros []; (eexists; vm_compute; reflexivity).
Qed.

Definition office_queued : Wires * DnsServer := foldl (wire (office_client [])) (office_wires, office_server) office_events.
Definition office_once : Wires * DnsServer := wire (office_client []) office_queued office_first.
Lemma office_queue :
  pending office_queued.1 = [(ActionUpsert, office_laptop StateBound); (ActionUpsert, office_phone)] ∧
  pending office_once.1 = [(ActionUpsert, office_phone)].
Proof. split; vm_compute; reflexivity. Qed.
#[local] Opaque wire.
Lemma office_turns :
  taken (office_client []) (office_wires, office_server) office_steps =
    [mkTurn (ActionUpsert, office_laptop StateBound) office_queued.2 office_time [Ok (bs "id")] [Reached];
     mkTurn (ActionUpsert, office_phone) office_once.2 office_time [Ok (bs "no")] [Altered (Err (ErrIO "reset"))]].
Proof.
  destruct office_queue as [H2 H3]. unfold office_once, office_first in *. unfold office_steps. rewrite taken_app.
  assert (E : taken (office_client []) (office_wires, office_server) office_events = []) by (unfold office_events; cbn [taken taken_at app]; done).
  rewrite E. cbn [app]. exact (two_turns _ office_queued _ _ _ _ _ _ _ _ _ _ _ _ H2 H3).
Qed.
Lemma office_reached x raw f : x = office_queued ∨ x = office_once → ¬ lost f →
  gets_through (office_client []) x.2 office_time [Ok raw] [f].
Proof.
  intros Hn Hf. split; [destruct Hn as [->| ->]; refine (bool_decide_unpack _ _); vm_compute; exact I|].
  split; [destruct Hn as [->| ->]; vm_compute; repeat split; congruence|]. split; by do 2 eexists.
Qed.
Lemma office_publishes : Forall (publishes (office_client [])) (taken (office_client []) (office_wires, office_server) office_steps).
Proof.
  rewrite office_turns. repeat apply Forall_cons_2; [..|constructor]; split.
  - apply office_publishable. by left.
  - apply (office_reached office_queued); [by left|exact id].
  - apply office_publishable. by right; right.
  - apply (office_reached office_once); [by right|exact id].
Qed.
End office.

(** * Starting *)

(** What a run of the program is for by its flags: the first that is set, in the order of
    [run].  From the restore on the storage is open, from the migration on the prefixes of
    the configuration are stored. *)
Record RunFlags := mkRunFlags {
  fl_version : bool; fl_init : bool; fl_check : bool; fl_export : bool; fl_restore : bytes; fl_backup : bool; fl_migrate : bool
}.
Inductive run_mode := RunVersion | RunInit | RunCheck | RunExport | RunRestore (path : bytes) | RunBackup | RunMigrate | RunDaemon.
Definition mode_of (fl : RunFlags) : run_mode :=
  if fl_version fl then RunVersion
  else if fl_init fl then RunInit
  else if fl_check fl then RunCheck
  else if fl_export fl then RunExport
  else if negb (bool_decide (fl_restore fl = [])) then RunRestore (fl_restore fl)
  else if fl_backup fl then RunBackup
  else if fl_migrate fl then RunMigrate
  else RunDaemon.

Section commands.
Context `{UnicodeTables}.

Definition tls_files_configured (cert_file key_file : bytes) : bool := given cert_file && given key_file.
Definition server_scheme (plain secure cert_file key_file : bytes) : bytes :=
  if tls_files_configured cert_file key_file then secure else plain.

Context (cwd : list bytes) (engine_dir : bytes).

(** [restoreSnapshotIntoEngine] *)
Definition restore_command (order : list (bytes * BTree.t)) (io : snap_io) (path : bytes) (st : BackupState)
    : BackupState * option error :=
  if bool_decide (trim_space path = []) then (st, Some (errorNew "snapshot path is required"))
  else
    let '(e, err) := restore_snapshot (bs_engine st) (read_file cwd engine_dir st path) order io in
    (mkBackupState e (bs_files st), err).

(** The file [--backup] writes. *)
Definition command_backup (c : Config) (now : time) : bytes :=
  join_path (bk_path (cf_backup c)) (bs "monsoon-" ++ fmt_d (unix now) ++ bs ".snapshot").
Definition backup_command (f : backup_faults) (order : list (bytes * BTree.t)) (io : snap_io) (tmp : bytes) (now : time)
    (c : Config) (st : BackupState) : BackupState * option error :=
  let '(e, err) := create_snapshot (bs_engine st) order io in
  let st := mkBackupState e (bs_files st) in
  match err with
  | Some er => (st, Some er)
  | None =>
      if bf_mkdir f then (st, Some (ErrIO "mkdir"))
      else
        match read_file cwd engine_dir st (snapshot_file (sv_data_dir (cf_server c))) with
        | Err er => (st, Some er)
        | Panic m => (st, Some (ErrIO m))
        | Ok body =>
            let '(states, err) := atomic_write_file (bf_write f) (file_key cwd (command_backup c now)) tmp body (bs_files st) in
            (mkBackupState e (default (bs_files st) (last states)), err)
        end
  end.
End commands.

Section migrate.
Context `{UnicodeTables} `{SliceSort} `{TimeParse} `{GoQuote} `{Json Subnet} `{Json Reservation} `{Json AddressRecord}.
Context {S : Type} `{LeaseStore S} `{CsvReader}.
Context `{JsonUnmarshal keaConfigFile} `{JsonUnmarshal bytes} `{JsonUnmarshal keaPool}.
Context `{JsonDecoder (netboxPage netboxPrefix)} `{JsonDecoder (netboxPage netboxIPAddress)}.
Context `{JsonDecoder (phpipamEnvelope (list phpipamSection))} `{JsonDecoder (phpipamEnvelope (list phpipamSubnet))}
  `{JsonDecoder (phpipamEnvelope (list phpipamAddress))} `{JsonDecoder (phpipamEnvelope (list phpipamVLAN))}
  `{JsonDecoder (phpipamEnvelope (list phpipamTag))}.

(** A migration comes after the prefixes of the configuration are stored. *)
Definition seeded (c : Config) (now : time) (io : list (list append_io)) (rn : Runner (S := S)) : Runner * option error :=
  let '(e, err) := seed_from_config (rn_ipam rn) (cf_subnets c) now io in (mkRunner e (rn_leases rn), err).
Definition migrate_command (c : Config) (now : time) (io : list (list append_io)) (envs : string → MigrateEnv)
    (read : bytes → result bytes) (net : network) (opts : Options) (rn : Runner) : Runner * option error :=
  match seeded c now io rn with
  | (rn, Some e) => (rn, Some e)
  | (rn, None) => let '(rn, _, err) := run envs read net opts rn in (rn, err)
  end.
End migrate.

(** * Reloads *)

Section loop.
Context `{UnicodeTables} `{Services} `{UrlParse} `{ConfigYaml} (fl : DaemonFlags) (lookup_env : bytes → option bytes).

(** The configuration of the start or of the last signal is kept beside the manager. *)
Record LoopState := mkLoopState { lp_cfg : Config; lp_daemon : DaemonState }.
Definition start_loop (read_fault : option error) (files : file_system) : result LoopState :=
  m ← new_config_manager (read_config read_fault files) yaml_unmarshal lookup_env (df_config_path fl);
  let cfg := overridden fl (cm_cfg m) in
  Ok (mkLoopState cfg (mkDaemonState (register_on_reload m O) (apply_settings cfg) (mkReloadState 0 []) files)).
(** The daemon on SIGHUP. *)
Definition on_sighup (read_fault : option error) (now : time) (x : LoopState) : LoopState :=
  match reload_config fl lookup_env read_fault (lp_daemon x) with
  | (st, Some _) => mkLoopState (lp_cfg x) st
  | (st, None) =>
      let cfg := overridden fl (cm_cfg (dm_manager st)) in
      mkLoopState cfg
        (mkDaemonState (dm_manager st) (apply_settings cfg)
           (mark_reload (dm_reload st) now (restart_required_config_changes (lp_cfg x) cfg)) (dm_files st))
  end.
Inductive loop_step :=
  | StepHup (read_fault : option error) (now : time)
  | StepUpdate (f : write_faults) (read_fault : option error) (tmp : bytes) (now : time) (payload : list (bytes * yaml scalar)).
Definition loop (x : LoopState) (step : loop_step) : LoopState :=
  match step with
  | StepHup read_fault now => on_sighup read_fault now x
  | StepUpdate f read_fault tmp now payload =>
      mkLoopState (lp_cfg x) (update_config fl lookup_env f read_fault tmp now payload (lp_daemon x)).1
  end.

(** The settings follow the configuration of the manager, which is valid. *)
Definition sound (st : DaemonState) : Prop := running fl st ∧ validate (cm_cfg (dm_manager st)) = None.

Lemma load_valid read unmarshal path cfg : load read unmarshal lookup_env path = Ok cfg → validate cfg = None.
Proof.
  unfold load. cbv zeta.
  assert (Hf : ∀ c, (c' ← apply_env_overrides lookup_env c; match validate c' with Some e => Err e | None => Ok c' end) = Ok cfg →
    validate cfg = None).
  { intros c. destruct (apply_env_overrides lookup_env c) as [c'| |]; [|discriminate..]. cbn [mbind result_bind].
    destruct (validate c') eqn:E; [discriminate|]. by intros ->%ok_inj. }
  destruct (read _) as [|e|text]; [apply Hf|discriminate|]. destruct (unmarshal _ _); [apply Hf|discriminate..].
Qed.
Lemma reload_sound read_fault st : sound st → sound (reload_config fl lookup_env read_fault st).1.
Proof.
  intros [Hr Hv]. split; [by apply reload_keeps_running|]. revert Hv. unfold reload_config, reload.
  destruct (load _ _ _ _) eqn:E; [|done..]. intros _. by eapply load_valid.
Qed.
Lemma update_sound f read_fault tmp now payload st : sound st → sound (update_config fl lookup_env f read_fault tmp now payload st).1.
Proof.
  intros Hs. unfold update_config. cbv zeta. destruct (_ ← _; _) as [body| |]; [|done..].
  destruct (atomic_write_file _ _ _ _ _) as [states [e|]]; [done|].
  set (st1 := mkDaemonState _ _ _ _). assert (Hs1 : sound st1) by exact Hs. apply (reload_sound read_fault) in Hs1.
  by destruct (reload_config fl lookup_env read_fault st1) as [st2 [e|]].
Qed.

(** However the daemon is signalled and its configuration updated, and whatever fails,
    its settings are those of a configuration that is valid. *)
Lemma loop_sound read_fault files steps x : start_loop read_fault files = Ok x → sound (lp_daemon (foldl loop x steps)).
Proof.
  intros Hx. assert (Hs : sound (lp_daemon x)).
  { revert Hx. unfold start_loop, new_config_manager. destruct (load _ _ _ _) as [cfg| |] eqn:E; [|discriminate..].
    cbn [mbind result_bind]. intros <-%ok_inj. apply load_valid in E. split; [by split_and!|done]. }
  clear Hx. revert x Hs. induction steps as [|step steps IH]; intros x Hs; cbn [foldl]; [done|]. apply IH.
  destruct step as [rf now|f rf tmp now payload]; cbn [loop]; [|by apply update_sound].
  unfold on_sighup. apply (reload_sound rf) in Hs. destruct (reload_config _ _ _ _) as [st [e|]]; [done|]. by destruct Hs as [(? & ? & ?) ?].
Qed.
End loop.

(** * What the start shows *)

#[local] Existing Instance ascii_tables.

(** The configuration of a migration is its source's only when the flag is spelled in one
    of three ways; the others of the flag package still name the daemon's. *)
Example migrate_flags :
  rewrite_args (map bs ["monsoon"; "migrate"; "--config"; "kea.json"; "-c"; "a"; "--config=b"; "-config"; "c"; "-c=d"]%string) =
    map bs ["monsoon"; "--migrate"; "--source-config"; "kea.json"; "--source-config"; "a"; "--source-config=b"; "-config"; "c"; "-c=d"]%string.
Proof. vm_compute. reflexivity. Qed.

(** Without a path for backups, the flag writes to the working directory and the API below
    the data directory. *)
Definition with_backups (path : bytes) (c : Config) : Config :=
  mkConfig (cf_server c) (cf_dhcp c) (cf_subnets c) (cf_discovery c) (cf_api c) (cf_dashboard c) (cf_auth c) (cf_ha c)
    (cf_prometheus c) (mkBackupAutoConfig (bk_enabled (cf_backup c)) (bk_interval (cf_backup c)) (bk_retention (cf_backup c)) path) (cf_webhooks c).
Example blank_backup_path :
  let c := with_backups [] default_config in
  (command_backup c 0, created_backup_dir c) = (bs "monsoon--62135596800.snapshot", bs "/var/lib/monsoon/backups").
Proof. vm_compute. reflexivity. Qed.
